(* ===== verification/_CoqProject ===== *)
-Q . S2P
Prelude.v
Text.v
BTreeMap.v
SlotRules.v
Json.v
ConfigParser.v
ConfigEdit.v
ConfigEditProps.v
ConfigDoc.v
ConfigDocProps.v
ConfigIntel.v
SyncRecord.v
RecordsTypes.v
RecordsValidate.v
RecordsValidateProps.v
RecordsState.v
RepositoryCore.v
RecordGroups.v
Repository.v
RepositoryProps.v
SnapshotProps.v
RepositoryLookup.v
KeyProps.v
GroupEdit.v
GroupProps.v
GroupEditProps.v
GroupDelete.v
GroupOrderEdit.v
StateCheck.v
StateProps.v
Crypto.v
Relay.v
RecordMerge.v
RecordPush.v
RecordMergeProps.v
RecordPushProps.v
RecordLibrary.v
RecordInstances.v
RecordWitnesses.v
MergeInstances.v
ByteStream.v
AgentProtocol.v
AgentSession.v
VaultMaterial.v
AgentBroker.v
AgentBrokerProps.v
AgentPrompt.v
AgentInstances.v
SessionProtocol.v
PinStore.v
ImportText.v
ImportLoad.v
ImportResolve.v
Migration.v
ImportWitnesses.v
HostText.v
HostTextProps.v
HostSync.v
HostFileProps.v
HostSyncProps.v
HostPlanProps.v
HostRoundProps.v
HostReviewProps.v
HostSyncWitnesses.v
SlotKeys.v
SpaceFiles.v
SpaceFilesProps.v
SpaceKeepProps.v
SpaceNameProps.v
RecordRuntime.v
RecordRuntimeProps.v
RecordRound.v
RecordRoundProps.v
RecordLeave.v
RecordLeaveProps.v
RecordRotate.v
RecordRotateProps.v
RecordRotateCodes.v
RecordAccount.v
RecordRoundWitnesses.v
