(* ===== verification/Prelude.v ===== *)
(** * Lunport (formerly SSHelter): a verification development

    Lunport is a desktop SSH workspace.  Its Rust side (src-tauri/src) keeps a
    library of hosts, groups and keys in two forms: the user's own OpenSSH
    configuration files, edited in place (config/), and a record library that
    is stored locally and exchanged, encrypted, between devices (sync/).  This
    development models the pure core of both and proves what makes them correct.

    ** How the parts interact

    The configuration side parses a file into items (comment, blank line,
    directive, Host and Match blocks), edits the items and renders them again.
    Commands address a host by its alias, apply edits to the first block that
    carries it, and refuse to write a file that changed on disk.  Lints, jump
    chains and host views are computed from the same items.

    The record side keeps, per scope (this device, or a shared space), an
    ordered map from record keys to cached records.  A record carries a
    last-writer-wins stamp (time, tombstone flag, device).  The repository turns
    the rows into host views: it decodes and validates each payload, resolves
    the settings inherited from groups, the jump route and the key, and reports
    whether the host is ready.  Every edit checks the revision the caller saw,
    the write gate of the account and the authority of unreadable remote
    records, stamps the new row so that it beats what it replaces, and is only
    returned if no relationship between hosts became worse.

    Synchronization exchanges the rows with a relay that only sees ciphertext.
    A pull is opened row by row and merged into the account section or a space;
    what this version cannot read stays sealed beside the readable rows; the
    account metadata decides whether merging is allowed at all.  A push seals the
    dirty rows, and its receipts mark as clean what the relay accepted.

    The records live in memory behind one lock and in one state file.  Every change goes
    through a few commits that check the state, save it and raise a generation number; a
    round takes the lock, looks, gives it back while it talks to the relay, and commits
    only if the account it started with is still there.  Before anything is sent the whole
    account is pulled again, and what the relay took is noted even if it cannot be saved.
    Leaving an account is a pending operation of the state: the hosts and groups of the
    selected spaces are planned as rows of this device, their passwords copied, and one
    commit puts the copies in the account's place before the sync code is deleted.
    Moving an account to a new sync code is one as well: the relay freezes the old chains,
    they are read once more as a whole, sealed again under new keys and pushed to new
    chains, and the new account and code replace the old ones only after the relay has
    given every row back.

    The agent answers the sign requests of ssh with the keys of the vault.  A
    connection is a stream of frames; a session learns which host it is bound to;
    the broker finds the key, asks the user in a window unless an approval or a grant
    holds, opens the key and signs.  The window shows one question at a time while the
    threads that asked wait.

    An import reads an ssh_config and what it includes, within fixed limits,
    evaluates it for every alias without running anything, and proposes host records,
    with everything it cannot take over kept for review.  The hosts of an old space
    are imported in the same way, from the text of their records, under identifiers
    that every device derives.

    The file-based sync keeps a space as a file of Host blocks.  A round checks the
    file, plans what changed in it against the cached records, merges what the relay has,
    and applies the effects to the file, all or none.  A version with settings that could
    run something is held until the user approves it.  The files themselves are created,
    renamed, kept and removed by sequences of system calls, each of which may fail, and the
    main config includes them in an order that every computer computes alike.

    ** Files

    - [Prelude]: results and their monad, loops with early return, machine
      integers, positions in a vector, the tactics [ok_inv], [breflect], [units]
      and the hint databases.  [Text]: Rust strings as lists of code points, with
      UTF-8 lengths, trimming, splitting, ordering, decimal printing.  [BTreeMap]:
      ordered maps and sets.  [Json]: serde_json values, the interfaces [Serde]
      and [SchemaField].  [SlotRules]: identifiers and key-slot paths, [SlotKeys]: where an
      IdentityFile value points, key files and payloads (sync/slot_rules.rs).
    - [ConfigParser] (config/model.rs, config/serialize.rs, fsutil.rs, then
      config/lexer.rs and config/parser.rs), [ConfigEdit] (config/edit.rs,
      config/dto.rs), [ConfigDoc] (config/commands.rs, config/include.rs, config/dto.rs),
      [ConfigIntel] (config/intel.rs); their theorems are at the end of the files
      and in [ConfigEditProps], [ConfigDocProps].
    - [SyncRecord] (sync/record.rs, parts of sync/state_v2.rs), [RecordsTypes],
      [RecordsValidate], [RecordsState] (sync/records_v3/types.rs, validate.rs,
      state.rs; [RecordsValidate] begins with the jump route shared by validate.rs and
      record_repository.rs), [RepositoryCore] and [Repository]
      (sync/record_repository.rs), [RecordGroups] and [GroupEdit]
      (sync/record_groups.rs), [GroupOrderEdit] (sync/group_order.rs).  [StateCheck]: when a
      whole state may be stored or used (validate_state of sync/records_v3/state.rs with the
      checks of a pending operation and its plans in sync/record_account.rs,
      record_leave.rs and record_rotation.rs); [StateProps]: every edit keeps it so.
    - [Crypto] (sync/crypto.rs), [Relay] (sync/relay.rs and push_outgoing of
      sync/merge.rs, over the interfaces [HttpLib] and [RelayApi]), [RecordMerge] and
      [RecordPush] (the receiving and the sending half of sync/record_merge.rs),
      [RecordLibrary] (sync/record_library.rs).
    - [RecordsValidateProps], [RepositoryProps], [SnapshotProps],
      [RepositoryLookup], [KeyProps], [GroupProps], [GroupEditProps], [GroupDelete]: the theorems of the
      record side; [Relay] (its end), [RecordMergeProps], [RecordPushProps]: those of the
      relay client, the merge and the push.  [RecordInstances] and [MergeInstances] instantiate the parameters
      and define a sample library; [MergeInstances] (its end) and [RecordWitnesses] apply the
      theorems to it.
    - [RecordRuntime] (sync/record_runtime.rs, the core and save_core of sync/runtime.rs, the
      scan for unfinished migrations of sync/record_migration.rs): a world of a file system,
      a core, a keychain, relays, a clock and other threads, and a monad [RM] over it;
      [RecordRound] (sync/record_round.rs).  [RecordRuntimeProps]: saving and starting, and
      the predicate [Keeps] of programs that keep memory and disk together;
      [RecordRoundProps]: that every round does, and what it sends;
      [RecordLeave] (leave_account and its resumption in sync/record_leave.rs) and
      [RecordLeaveProps], with [Within] and [Mild] for what a program may do to the world;
      [RecordRotate] (sync/record_rotation.rs), [RecordRotateProps] (what its steps keep and
      confirm) and [RecordRotateCodes] (activation, sync codes, the end);
      [RecordAccount] (sync/record_account.rs: creating, joining and resuming, spaces, taking a
      key back) with its theorems at the end of the file;
      [RecordRoundWitnesses]: a save, a start, a round, a leave, a new account and the end of
      a rotation that run.

    - [ByteStream] (streams that deliver bytes in pieces), [AgentProtocol]
      (agent/protocol.rs, agent/approval.rs), [AgentSession] (agent/session.rs), [VaultMaterial] (vault/material.rs, vault/short_scalar.rs),
      [AgentBroker] (agent/broker.rs), [AgentPrompt] (agent/prompt.rs), with the
      theorems at the end of the file or in the file of the same name with Props;
      [AgentInstances] with the witnesses.  [SessionProtocol] (session/protocol.rs) and
      [PinStore] (session/pins.rs, session/directory.rs).
    - [ImportText], [ImportLoad], [ImportResolve] (sync/records_v3/importer) and
      [Migration] (sync/records_v3/migration_ids.rs, importer/mod.rs), with
      their theorems at the end and [ImportWitnesses].
    - [HostText] (sync/hosts_file.rs), [HostSync] (sync/approval.rs,
      sync/planner.rs, sync/reconcile.rs, the space part of sync/merge.rs and
      sync/state_v2.rs, and what sync/spaces.rs, sync/files.rs and sync/round.rs do to one space),
      with [HostTextProps], [HostFileProps] (single blocks of a file), [HostSyncProps] (merging),
      [HostPlanProps] (planning), [HostRoundProps] (rounds and rebuilt files),
      [HostReviewProps] (decisions, reachable spaces) and [HostSyncWitnesses].
    - [SpaceFiles] (sync/space_files.rs and the writing parts of fsutil.rs), over a model of the
      file system, with [SpaceFilesProps] (a logic for what holds after every system call;
      adding, removing, renaming), [SpaceKeepProps] (keeping the files of an account)
      and [SpaceNameProps] (names and the Include order, and the theorems at concrete inputs).

    ** Modelling choices

    A function that returns [Result] is a function into [result]; one that takes
    [&mut] returns the new value.  The edits of the repository take a state and
    return a candidate state, as in the source.  A loop is a recursion on its
    list ([try_for], [try_fold], [foldl]).  u64 and u32 values are [N]; overflow is
    checked where the source checks it ([checked_add]).  A place where the source
    would panic (an index into a map, [expect]) is the error [RPanic], which the
    source does not have, so that the absence of panics is a theorem.

    Code outside the repository is a parameter: Unicode case and whitespace
    tables (class [Unicode] of [Text]), the OpenSSH key parser ([SshKeyLib]), the
    code serde derives for a payload ([Serde]: what was serialized is read back;
    [SchemaField]: the schema number is stored under its name), the text of an
    error and the digest of a deletion review ([RecordEnv], [ReviewDigest]); HMAC,
    the AEAD cipher and base64 ([CryptoLib]: decryption inverts encryption, decoding
    inverts encoding), the JSON text of a record ([MergeEnv]), the HTTP library and
    the decoders of its answers ([HttpLib]); the fields of the SSH wire format
    ([SshWire]), the key types, ciphers and signatures of the ssh-key crates
    ([SshKeyCrate]), the vault, keychain, clock and window of the agent
    ([AgentHost]); the format of the pin file ([PinFormat]); the file system, glob
    and SHA-256 of an import ([FileSystem]); the tables for letters and digits
    ([CharTables]) and the glob library ([GlobLib]) of the host files; base64 and SHA-256 of
    the key slots ([SlotCrypto]); the URL parser and the decoder of the account metadata
    ([StateEnv]), that typed payloads keep the fields their checks look at ([PayloadLaws]),
    the word list and HKDF ([MnemonicLib]), the serializers and decoders of whole states,
    SHA-256 and the relays of a round ([RuntimeEnv]), the text of a new sync code, the
    platform and the version of the program ([AccountBuild]), and the JSON text of the
    values a rotation copies ([RotationText]: what was written is read back).  Random nonces
    and identifiers are arguments, or drawn from a list of the world.

    The file system of [SpaceFiles] maps paths to entries and inodes to contents.  Before every
    system call other programs may create files, and every call may fail with any error, as an
    arbitrary script says; the disk before and after each call is recorded, so a crash between
    two calls is a prefix of that record.  What the policy on writes decides is such a failure.
    The main config is the list of the paths it includes; the caller's update of it is an
    argument.

    The world of [RecordRuntime] extends that file system.  Before each acquisition of the
    core's lock any number of other transforms may have been committed, as a list in the
    world says; what was asked of a relay is recorded with the state in memory at that
    moment.  [unwrap] of an option that may be empty ends the operation with the error
    [panic].  The other locks of the runtime only order operations and are left out: the
    theorems hold for every order.

    Fuel and bounds.  The jump route may hold at most MAX_JUMPS + 1 hosts on its
    stack, so MAX_JUMPS + 2 calls ([ROUTE_FUEL]) are enough ([append_fuel]).  The
    path to a root group has the bound of the source, 32.  The subtree loop gets
    one pass per group and [removal_set_exact] proves that it always finishes.
    The ProxyJump chain of a configuration is bounded by the depth of the source.
    A push gets one pass per item, which is enough because every batch takes at
    least one ([push_loop_spec]).  Serving a connection recurses
    on the bytes that are left ([serve_loop]).  Includes nest at most MAX_DEPTH deep, which is the
    recursion of [load_file].  A pattern is scanned with the fuel [scan_fuel], and
    [matches_patterns_exact] proves that it always decides.  The search for a free name has
    one step for every name that exists or that the script can still add, and one for the
    change from links to copies ([fuel_of]); [kept_file_search_ends] proves that it ends.  A
    new identifier takes one random value per draw, and without one the draw fails
    ([fresh_id_enough]).  Resuming a rotation calls itself again only when it has put the new
    account into force; it gets two passes more than the other threads have turns, which is
    enough ([rotation_resume_ends]).

    ** What the theorems show

    - Parsing and rendering are inverse on every text; a directive is lexed
      without loss; a parsed file is a sequence of well-formed blocks.
    - Each configuration edit changes the lines it should and no others: one line
      per field, one live IdentityFile, a permutation for a reordering, inert
      lines for a disabled host, one block per rename, move or duplicate.
    - Records converge: the merge is independent of the order and repetition of
      deliveries.  A pull is applied as a whole or not at all, never loses a row or
      a newer edit, reports every unsent edit it overwrites, and never brings a
      secret or an unknown shape into the plain rows; the account gate opens only
      for metadata this version understands.  Every dirty row is sent so that
      another device that accepts it holds the same record or a newer one, and a
      receipt settles a row only if it still is what was sent.  The relay client
      sends only well-formed requests, uses only answers that fit them, cuts a push
      into batches the relay takes and reports exactly what was answered.
    - A validated host is safe to use, validated libraries have unique ids and
      finite jump routes, decoding inverts encoding.
    - Each repository edit touches exactly its rows, with a stamp that beats the
      old one; pins follow the endpoint; stale edits and blocked accounts are
      refused; a created host is found again; ready hosts can be connected to;
      vault entries are exposed only for matching keys; nothing panics.
    - Groups: the path to the root and inherited settings are exact, subtree
      removal terminates and is exact, and every edit re-establishes a forest
      with distinct sibling names; deleting a group leaves no reference to it.

    - Every edit takes a valid state to a valid state.  Records moved into the library keep
      their identifiers and leave a tombstone, all of them or none.
    - A save is atomic: between any two system calls the state file is the old or the new
      text, and an older format is copied first.  A start finds the state that was saved or
      blocks; it never makes a new device of an existing one.  After a round, whatever
      failed and whoever else committed, memory and file agree, and a commit guarded by a
      generation overwrites nobody's change.  Nothing is pushed but directly after a whole
      compatible pull of the account, while it may be written.
    - Leaving an account loses nothing: its plan copies every selected host and group under
      an identifier of its own, the commit adds exactly the copies at free places, every
      password stays, and the sync code goes only when the copies are in the state file.
    - The copy a rotation makes has every row and every space of the source, and every sealed
      value opens under the new keys to what it was.  A rotation puts the new account into
      force only when the relay has just given back
      exactly the rows that were planned; wherever it stops, the sync code of the account in
      force is in the keychain or in the archive of the plan; and resuming it ends.
    - Creating or joining an account, wherever it stops, leaves no account without its sync
      code in the keychain; these operations and those on spaces keep memory and file
      together as a round does ([account_operations_coherent]).
    - The agent signs only with a key the request names and what the user allowed,
      for the host that signed the session; every signature of a run goes back to a
      window; messages are read exactly as they were written; the threads of the
      approval window always end, with the answer that was given.
    - The pin store does what a map from hosts to keys does, and never writes over
      a file it cannot read.
    - An import stays within its limits, selects hosts as OpenSSH's patterns do, takes
      the first usable value of each setting and accounts for every directive in
      force; migrated hosts get fresh identifiers that every device derives.
    - A host text that is accepted is read by OpenSSH as it is shown.  A round on a
      checked space file completes and leaves file and records in step, so that nothing
      received is sent back; nothing that needs approval is applied without it, an unsent
      edit is kept or reported, a planned edit wins, a lost file is rebuilt with what was not
      sent, and a decision applies to what the user saw and nothing else.  What holds between
      the operations holds for every sequence of them.
    - The check of a space file name accepts exactly the names that can be made.  Between any two
      system calls of adding, removing, renaming and keeping space files, whatever fails, what
      the main config lists exists, no file of another name is touched and no content is lost:
      a file is deleted only after its copy or its second name exists and nothing lists it.
    - What is said of a private key file is exactly what the OpenSSH format says, and an
      accepted payload of a slot names one public key and nothing else.

    ** Not modelled

    Tauri commands, windows, tray, updater, terminals and processes; network and
    disk I/O beyond the file system of [SpaceFiles] (russh sessions, sockets, the keychain);
    the cryptographic primitives; clearing secrets from memory.  The migration to records:
    its identifiers are modelled, not the sequence of relay, keychain and disk calls that
    carries it out.  Publishing and downloading a key, which read and write the key vault.
    The file-based sync beyond one space: its account rounds, joining, rotation, and the
    maintenance of key slots, which act on ~/.ssh and the vault.

    ** What could come next

    The operations of sync/record_migration.rs over the world of [RecordRuntime]; the account
    rows of sync/merge.rs; Include expansion (config/include.rs, config/newfile.rs); known
    hosts, quick connect and the session brokers. *)

From stdpp Require Export base tactics decidable list option strings numbers sorting.
From Stdlib Require Export Lia.

(** ** Rust strings

    A Rust [str] is a sequence of Unicode scalar values; its UTF-8 encoding is
    injective and order preserving, so a [str] is modelled by the list of its
    code points.  [lit] turns an ASCII literal of the source into such a list. *)

Abbreviation char := N (only parsing).
Abbreviation str := (list N) (only parsing).

Fixpoint lit (s : string) : list N :=
  match s with
  | EmptyString => []
  | String a s' => Ascii.N_of_ascii a :: lit s'
  end.
Arguments lit : simpl never.

(** ** Results: Rust's [Result<A, E>] with the [?] operator as monadic bind *)

Inductive result (E A : Type) : Type :=
| Ok (a : A)
| Err (e : E).
Arguments Ok {E A} a.
Arguments Err {E A} e.

#[export] Instance result_ret {E} : MRet (result E) := fun A a => Ok a.
#[export] Instance result_bind {E} : MBind (result E) :=
  fun A B f r => match r with Ok a => f a | Err e => Err e end.
#[export] Instance result_fmap {E} : FMap (result E) :=
  fun A B f r => match r with Ok a => Ok (f a) | Err e => Err e end.

#[export] Instance result_eq_dec {E A} `{EqDecision E, EqDecision A} :
  EqDecision (result E A).
Proof. solve_decision. Defined.

Definition is_ok {E A} (r : result E A) : bool :=
  match r with Ok _ => true | Err _ => false end.

Definition is_err {E A} (r : result E A) : bool := negb (is_ok r).

(** [Option::ok_or], [Result::map_err], [Result::ok], [Result::err]. *)
Definition ok_or {E A} (o : option A) (e : E) : result E A :=
  match o with Some a => Ok a | None => Err e end.

Definition map_err {E F A} (f : E -> F) (r : result E A) : result F A :=
  match r with Ok a => Ok a | Err e => Err (f e) end.

Definition result_ok {E A} (r : result E A) : option A :=
  match r with Ok a => Some a | Err _ => None end.

Definition result_err {E A} (r : result E A) : option E :=
  match r with Ok _ => None | Err e => Some e end.

(** An early [return Err(e)] guarded by a condition. *)
Definition guard_err {E} (c : bool) (e : E) : result E unit :=
  if c then Err e else Ok tt.

(** A [for] loop whose body can return early with [?]. *)
Fixpoint try_for {E A} (f : A -> result E unit) (l : list A) : result E unit :=
  match l with
  | [] => Ok tt
  | x :: l' => _ ← f x; try_for f l'
  end.

Fixpoint try_fold {E A B} (f : B -> A -> result E B) (acc : B) (l : list A) : result E B :=
  match l with
  | [] => Ok acc
  | x :: l' => acc' ← f acc x; try_fold f acc' l'
  end.

(** [iter().map(f).collect::<Result<_, _>>()]. *)
Fixpoint try_map {E A B} (f : A -> result E B) (l : list A) : result E (list B) :=
  match l with
  | [] => Ok []
  | x :: l' => y ← f x; ys ← try_map f l'; Ok (y :: ys)
  end.

(** [Option::is_some], [Option::is_some_and], [Option::is_none_or]. *)
Definition is_some {A} (o : option A) : bool :=
  match o with Some _ => true | None => false end.

Definition is_none {A} (o : option A) : bool := negb (is_some o).

Definition is_some_and {A} (f : A -> bool) (o : option A) : bool :=
  match o with Some a => f a | None => false end.

Definition is_none_or {A} (f : A -> bool) (o : option A) : bool :=
  match o with Some a => f a | None => true end.

Definition opt_filter {A} (f : A -> bool) (o : option A) : option A :=
  match o with Some a => if f a then Some a else None | None => None end.

(** The application's error type, [error.rs]; an I/O error is its message. *)
Inductive AppError :=
| AIo (e : str)
| AForbiddenPath (p : str)
| ANotFound (m : str)
| AOther (m : str)
| AParse (msg : str) (line : N)
| AConflict (p : str).

(** Decidable equality as a boolean, Rust's [==]. *)
Notation "x =?= y" := (bool_decide (x = y)) (at level 70, no associativity).
Notation "x <?> y" := (negb (bool_decide (x = y))) (at level 70, no associativity).

(** ** Machine integers: [u64] values are kept in [N] with their bound *)

Definition u64_max : N := 18446744073709551615.
Definition u32_max : N := 4294967295.

(** [u64::checked_add]. *)
Definition checked_add (a b : N) : option N :=
  if (a + b <=? u64_max)%N then Some (a + b)%N else None.

Lemma checked_add_Some a b c :
  checked_add a b = Some c -> c = (a + b)%N /\ (c <= u64_max)%N.
Proof.
  unfold checked_add. destruct (N.leb_spec (a + b) u64_max); [|done].
  intros [= <-]. done.
Qed.

(** ** Automation *)

(** Split boolean conjunctions and reflect boolean tests in the context. *)
Ltac breflect1 :=
  match goal with
  | H : (_ && _)%bool = true |- _ => apply andb_true_iff in H; destruct H
  | H : (_ || _)%bool = false |- _ => apply orb_false_iff in H; destruct H
  | H : negb _ = true |- _ => apply negb_true_iff in H
  | H : negb _ = false |- _ => apply negb_false_iff in H
  | H : bool_decide _ = true |- _ => apply bool_decide_eq_true_1 in H
  | H : bool_decide _ = false |- _ => apply bool_decide_eq_false_1 in H
  | H : is_true _ |- _ => unfold is_true in H
  | H : (_ <=? _)%N = true |- _ => apply N.leb_le in H
  | H : (_ <=? _)%N = false |- _ => apply N.leb_gt in H
  | H : (_ <? _)%N = true |- _ => apply N.ltb_lt in H
  | H : (_ <? _)%N = false |- _ => apply N.ltb_ge in H
  | H : (_ =? _)%N = true |- _ => apply N.eqb_eq in H
  | H : (_ =? _)%N = false |- _ => apply N.eqb_neq in H
  | H : (_ <=? _)%nat = true |- _ => apply Nat.leb_le in H
  | H : (_ <=? _)%nat = false |- _ => apply Nat.leb_gt in H
  | H : (_ <? _)%nat = true |- _ => apply Nat.ltb_lt in H
  | H : (_ <? _)%nat = false |- _ => apply Nat.ltb_ge in H
  | H : (_ =? _)%nat = true |- _ => apply Nat.eqb_eq in H
  | H : (_ =? _)%nat = false |- _ => apply Nat.eqb_neq in H
  end.
Ltac breflect := repeat breflect1.

(** Invert the successful run of a monadic block: every bound computation
    succeeded. *)
Lemma bind_Ok {E A B} (r : result E A) (f : A -> result E B) b :
  (r ≫= f) = Ok b <-> exists a, r = Ok a /\ f a = Ok b.
Proof. destruct r; simpl; naive_solver. Qed.

Lemma guard_err_Ok {E} (c : bool) (e : E) u : guard_err c e = Ok u -> c = false.
Proof. by destruct c. Qed.

Lemma ok_or_Ok {E A} (o : option A) (e : E) a : ok_or o e = Ok a -> o = Some a.
Proof. destruct o; naive_solver. Qed.

Lemma map_err_Ok {E F A} (f : E -> F) (r : result E A) a :
  map_err f r = Ok a -> r = Ok a.
Proof. destruct r; naive_solver. Qed.

Ltac ok_inv1 :=
  match goal with
  | H : (_ ≫= _) = Ok _ |- _ =>
      apply bind_Ok in H; let a := fresh "v" in let H1 := fresh "Hok" in
      destruct H as [a [H1 H]]
  | H : guard_err _ _ = Ok _ |- _ => apply guard_err_Ok in H
  | H : ok_or _ _ = Ok _ |- _ => apply ok_or_Ok in H
  | H : map_err _ _ = Ok _ |- _ => apply map_err_Ok in H
  | H : Ok _ = Ok _ |- _ => injection H as H
  | H : Err _ = Ok _ |- _ => discriminate H
  | H : mret _ = Ok _ |- _ => injection H as H
  end.
Ltac ok_inv := repeat ok_inv1; subst.

Ltac units := repeat match goal with u : unit |- _ => destruct u end.

Lemma try_map_Ok {E A B} (f : A -> result E B) l : forall ys,
  try_map f l = Ok ys -> Forall2 (fun x y => f x = Ok y) l ys.
Proof.
  induction l as [|x l IH]; intros ys H; cbn [try_map] in H; ok_inv; constructor; auto.
Qed.

Create HintDb lunport.
Create Rewrite HintDb lunport.

Lemma try_for_Ok {E A} (f : A -> result E unit) l u :
  try_for f l = Ok u <-> (forall x, x ∈ l -> f x = Ok tt) /\ u = tt.
Proof.
  destruct u. induction l as [|x l IH]; simpl.
  - split; [|done]. intros _. split; [|done]. intros y Hy. by apply elem_of_nil in Hy.
  - rewrite bind_Ok. split.
    + intros ([] & Hx & Hl). apply IH in Hl as [Hl _]. split; [|done].
      intros y [->|Hy]%elem_of_cons; auto.
    + intros [H _]. exists tt. split; [apply H; by left|].
      apply IH. split; [|done]. intros y Hy. apply H. by right.
Qed.

(** ** Positions and updates in a [Vec] *)

(** [Iterator::position]. *)
Fixpoint position {A} (f : A -> bool) (l : list A) : option nat :=
  match l with
  | [] => None
  | x :: l' => if f x then Some 0 else S <$> position f l'
  end.

(** [Vec::insert] (the source only inserts at [i <= len]) and [Vec::remove]. *)
Definition vec_insert {A} (i : nat) (x : A) (l : list A) : list A :=
  take i l ++ x :: drop i l.

Definition vec_remove {A} (i : nat) (l : list A) : list A :=
  take i l ++ drop (S i) l.

Lemma position_Some {A} (f : A -> bool) l i :
  position f l = Some i ->
  exists l1 x l2, l = l1 ++ x :: l2 /\ length l1 = i /\ f x = true /\
    forallb (fun y => negb (f y)) l1 = true.
Proof.
  revert i. induction l as [|y l IH]; intros i; simpl; [done|].
  destruct (f y) eqn:Hy.
  - intros [= <-]. by exists [], y, l.
  - destruct (position f l) eqn:Hp; [|done]. intros [= <-].
    destruct (IH _ eq_refl) as (l1 & x & l2 & -> & Hlen & Hx & Hall).
    exists (y :: l1), x, l2. simpl. rewrite Hy, Hall, Hlen. done.
Qed.

Lemma position_None {A} (f : A -> bool) l :
  position f l = None <-> forallb (fun y => negb (f y)) l = true.
Proof.
  induction l as [|y l IH]; simpl; [done|].
  destruct (f y); simpl; [done|]. rewrite <-IH. by destruct (position f l).
Qed.

Lemma vec_remove_middle {A} (l1 l2 : list A) x :
  vec_remove (length l1) (l1 ++ x :: l2) = l1 ++ l2.
Proof.
  unfold vec_remove. rewrite take_app_length. f_equal.
  rewrite drop_app_ge by lia. by replace (S (length l1) - length l1) with 1 by lia.
Qed.

(** [filter] and [existsb] over booleans. *)
Lemma existsb_elem {A} (f : A -> bool) l :
  existsb f l = true <-> exists x, x ∈ l /\ f x = true.
Proof.
  rewrite existsb_exists. split; intros (x & Hx & Hf); exists x; split; try done;
    by apply list_elem_of_In.
Qed.

Lemma existsb_none {A} (f : A -> bool) l :
  existsb f l = false <-> forall x, x ∈ l -> f x = false.
Proof.
  induction l as [|y l IH]; simpl.
  - split; [|done]. intros _ x Hx. by apply elem_of_nil in Hx.
  - rewrite orb_false_iff, IH. split.
    + intros [Hy Hl] x [->|Hx]%elem_of_cons; auto.
    + intros H. split; [apply H; by left|]. intros x Hx. apply H. by right.
Qed.

Lemma forallb_elem {A} (f : A -> bool) l :
  forallb f l = true <-> forall x, x ∈ l -> f x = true.
Proof.
  rewrite forallb_forall. split; intros H x Hx; apply H; by apply list_elem_of_In.
Qed.
