(* ===== verification/Text.v ===== *)
(** * Text: the [str] and [char] operations of the Rust standard library

    The functions the sources call on strings, over code-point lists: trimming,
    splitting, searching, joining, case folding, UTF-8 lengths and the
    byte-lexicographic order ([Ord for str]), with the lemmas the components
    share. *)

From stdpp Require Import pretty.
From S2P Require Import Prelude.

(** ** Character classes *)

Definition in_range (lo hi c : N) : bool := (lo <=? c)%N && (c <=? hi)%N.

(** [char::is_whitespace]: Unicode White_Space. *)
Definition is_whitespace (c : N) : bool :=
  in_range 9 13 c || (c =? 32)%N || (c =? 133)%N || (c =? 160)%N || (c =? 5760)%N
  || in_range 8192 8202 c || (c =? 8232)%N || (c =? 8233)%N || (c =? 8239)%N
  || (c =? 8287)%N || (c =? 12288)%N.

(** [char::is_control]: general category Cc. *)
Definition is_control (c : N) : bool := in_range 0 31 c || in_range 127 159 c.

Definition is_ascii (c : N) : bool := (c <? 128)%N.
Definition is_ascii_digit (c : N) : bool := in_range 48 57 c.
Definition is_ascii_alphanumeric (c : N) : bool :=
  is_ascii_digit c || in_range 65 90 c || in_range 97 122 c.
(** [b.is_ascii_digit() || (b'a'..=b'f').contains(&b)]. *)
Definition is_lower_hex (c : N) : bool := is_ascii_digit c || in_range 97 102 c.

Definition ascii_lower (c : N) : N := if in_range 65 90 c then (c + 32)%N else c.

(** [str::to_ascii_lowercase], [str::eq_ignore_ascii_case]. *)
Definition to_ascii_lowercase (s : str) : str := map ascii_lower s.
Definition eq_ignore_ascii_case (a b : str) : bool :=
  to_ascii_lowercase a =?= to_ascii_lowercase b.

(** [str::to_lowercase] folds the whole of Unicode by a table of the standard
    library; what the sources rely on is its value on ASCII text. *)
Class Unicode := {
  to_lowercase : str -> str;
  to_lowercase_ascii : forall s, forallb is_ascii s = true ->
    to_lowercase s = to_ascii_lowercase s
}.

(** The ASCII restriction of the table, a concrete instance. *)
Definition ascii_unicode : Unicode :=
  {| to_lowercase := to_ascii_lowercase; to_lowercase_ascii := fun _ _ => eq_refl |}.

(** ** UTF-8 *)

Definition utf8_char (c : N) : list N :=
  if (c <? 128)%N then [c]
  else if (c <? 2048)%N then [(192 + c / 64); (128 + c mod 64)]%N
  else if (c <? 65536)%N then
    [(224 + c / 4096); (128 + (c / 64) mod 64); (128 + c mod 64)]%N
  else
    [(240 + c / 262144); (128 + (c / 4096) mod 64); (128 + (c / 64) mod 64);
     (128 + c mod 64)]%N.

(** [str::bytes] and [str::len]. *)
Definition utf8 (s : str) : list N := flat_map utf8_char s.
Definition str_len (s : str) : nat := length (utf8 s).

(** ** Searching and splitting *)

(** The longest prefix without a character satisfying [p], and the rest:
    [s.find(p)] followed by slicing. *)
Fixpoint break_at (p : N -> bool) (s : str) : str * str :=
  match s with
  | [] => ([], [])
  | c :: s' => if p c then ([], s) else let '(a, b) := break_at p s' in (c :: a, b)
  end.

Fixpoint drop_while {A} (p : A -> bool) (s : list A) : list A :=
  match s with
  | [] => []
  | c :: s' => if p c then drop_while p s' else s
  end.

Definition trim_start (s : str) : str := drop_while is_whitespace s.
Definition trim_end (s : str) : str := reverse (drop_while is_whitespace (reverse s)).
Definition trim (s : str) : str := trim_end (trim_start s).

Fixpoint strip_prefix (p s : str) : option str :=
  match p, s with
  | [], _ => Some s
  | a :: p', b :: s' => if (a =? b)%N then strip_prefix p' s' else None
  | _ :: _, [] => None
  end.

Definition starts_with (p s : str) : bool := is_some (strip_prefix p s).
Definition ends_with (p s : str) : bool := starts_with (reverse p) (reverse s).
Definition contains_char (c : N) (s : str) : bool := existsb (N.eqb c) s.

(** [str::split] on one character: never empty. *)
Fixpoint split_char (c : N) (s : str) : list str :=
  match s with
  | [] => [[]]
  | x :: s' =>
      if (x =? c)%N then [] :: split_char c s'
      else match split_char c s' with
           | [] => [[x]]
           | l :: ls => (x :: l) :: ls
           end
  end.

Fixpoint join (sep : str) (l : list str) : str :=
  match l with
  | [] => []
  | [s] => s
  | s :: l' => s ++ sep ++ join sep l'
  end.

(** [str::split_whitespace]: the maximal runs without whitespace. *)
Fixpoint split_whitespace_aux (cur : str) (s : str) : list str :=
  match s with
  | [] => match cur with [] => [] | _ => [reverse cur] end
  | c :: s' =>
      if is_whitespace c then
        match cur with
        | [] => split_whitespace_aux [] s'
        | _ => reverse cur :: split_whitespace_aux [] s'
        end
      else split_whitespace_aux (c :: cur) s'
  end.
Definition split_whitespace (s : str) : list str := split_whitespace_aux [] s.

(** [str::rsplit_once] on one character. *)
Definition rsplit_once (c : N) (s : str) : option (str * str) :=
  let '(after, rest) := break_at (N.eqb c) (reverse s) in
  match rest with
  | [] => None
  | _ :: before => Some (reverse before, reverse after)
  end.

(** [s.replace(['\r', '\n'], "")]. *)
Definition strip_crlf (s : str) : str :=
  List.filter (fun c => negb ((c =? 13)%N || (c =? 10)%N)) s.

(** [Display] of an unsigned integer. *)
Definition dec (n : N) : str := lit (pretty n).

(** ** The order of [str] *)

Fixpoint str_compare (a b : str) : comparison :=
  match a, b with
  | [], [] => Eq
  | [], _ :: _ => Lt
  | _ :: _, [] => Gt
  | x :: a', y :: b' =>
      match (x ?= y)%N with Eq => str_compare a' b' | c => c end
  end.

Definition str_ltb (a b : str) : bool :=
  match str_compare a b with Lt => true | _ => false end.

Lemma str_compare_eq a b : str_compare a b = Eq <-> a = b.
Proof.
  revert b. induction a as [|x a IH]; intros [|y b]; simpl; try done.
  destruct (N.compare_spec x y) as [->|H|H].
  - rewrite IH. naive_solver.
  - split; [done|]. intros [= -> _]. lia.
  - split; [done|]. intros [= -> _]. lia.
Qed.

Lemma str_compare_antisym a b : str_compare b a = CompOpp (str_compare a b).
Proof.
  revert b. induction a as [|x a IH]; intros [|y b]; simpl; try done.
  rewrite (N.compare_antisym x y), IH. by destruct (x ?= y)%N.
Qed.

Lemma str_compare_lt_trans a b c :
  str_compare a b = Lt -> str_compare b c = Lt -> str_compare a c = Lt.
Proof.
  revert b c. induction a as [|x a IH]; intros [|y b] [|z c]; simpl; try done.
  destruct (N.compare_spec x y) as [->|H1|H1], (N.compare_spec y z) as [->|H2|H2];
    try done; intros Ha Hb.
  - eauto.
  - by rewrite (proj2 (N.compare_lt_iff x z) H1).
  - by rewrite (proj2 (N.compare_lt_iff x z) (N.lt_trans _ _ _ H1 H2)).
Qed.

Lemma str_ltb_irrefl a : str_ltb a a = false.
Proof. unfold str_ltb. by rewrite (proj2 (str_compare_eq a a) eq_refl). Qed.

Lemma str_ltb_trans a b c :
  str_ltb a b = true -> str_ltb b c = true -> str_ltb a c = true.
Proof.
  unfold str_ltb. destruct (str_compare a b) eqn:Hab; try done.
  destruct (str_compare b c) eqn:Hbc; try done.
  by rewrite (str_compare_lt_trans _ _ _ Hab Hbc).
Qed.

Lemma str_ltb_total a b : str_ltb a b = false -> str_ltb b a = false -> a = b.
Proof.
  unfold str_ltb. rewrite (str_compare_antisym a b).
  destruct (str_compare a b) eqn:Hab; try done.
  intros _ _. by apply str_compare_eq.
Qed.

Lemma str_ltb_asym a b : str_ltb a b = true -> str_ltb b a = false.
Proof.
  intros H. destruct (str_ltb b a) eqn:Hb; [|done].
  by rewrite <-(str_ltb_irrefl a), (str_ltb_trans _ _ _ H Hb).
Qed.

(** ** Splitting lemmas *)

Lemma break_at_app p s : (break_at p s).1 ++ (break_at p s).2 = s.
Proof.
  induction s as [|c s IH]; simpl; [done|].
  destruct (p c); [done|]. destruct (break_at p s); simpl in *. by f_equal.
Qed.

Lemma break_at_fst p s : forallb (fun c => negb (p c)) (break_at p s).1 = true.
Proof.
  induction s as [|c s IH]; simpl; [done|].
  destruct (p c) eqn:Hc; [done|]. destruct (break_at p s); simpl in *.
  by rewrite Hc, IH.
Qed.

Lemma break_at_snd p s c s' : (break_at p s).2 = c :: s' -> p c = true.
Proof.
  induction s as [|d s IH]; simpl; [done|].
  destruct (p d) eqn:Hd; simpl; [by intros [= -> ->]|].
  destruct (break_at p s); auto.
Qed.

Lemma drop_while_suffix {A} (p : A -> bool) s :
  exists w, s = w ++ drop_while p s /\ forallb p w = true.
Proof.
  induction s as [|c s (w & Hs & Hw)]; simpl; [by exists []|].
  destruct (p c) eqn:Hc; [|by exists []].
  exists (c :: w). simpl. rewrite Hc, Hw. split; [by f_equal|done].
Qed.

Lemma drop_while_head {A} (p : A -> bool) s c s' :
  drop_while p s = c :: s' -> p c = false.
Proof.
  induction s as [|d s IH]; simpl; [done|].
  destruct (p d) eqn:Hd; [auto|]. by intros [= -> ->].
Qed.

Lemma drop_while_all {A} (p : A -> bool) s : drop_while p s = [] <-> forallb p s = true.
Proof.
  induction s as [|c s IH]; simpl; [done|]. destruct (p c); simpl; [done|].
  by split.
Qed.

Lemma trim_end_prefix s :
  exists w, s = trim_end s ++ w /\ forallb is_whitespace w = true.
Proof.
  unfold trim_end. destruct (drop_while_suffix is_whitespace (reverse s)) as (w & Hs & Hw).
  exists (reverse w). split.
  - rewrite <-reverse_app, <-Hs. by rewrite reverse_involutive.
  - apply forallb_elem. intros x Hx. rewrite elem_of_reverse in Hx.
    by apply (proj1 (forallb_elem _ _) Hw).
Qed.

Lemma trim_end_drop s : trim_end s ++ drop (length (trim_end s)) s = s.
Proof.
  destruct (trim_end_prefix s) as (w & Hs & _).
  revert Hs. generalize (trim_end s) as t. intros t ->. by rewrite drop_app_length.
Qed.

Lemma trim_start_suffix s :
  exists w, s = w ++ trim_start s /\ forallb is_whitespace w = true.
Proof. apply drop_while_suffix. Qed.

Lemma trim_start_take s :
  take (length s - length (trim_start s)) s ++ trim_start s = s.
Proof.
  destruct (trim_start_suffix s) as (w & Hs & _).
  revert Hs. generalize (trim_start s) as t. intros t ->.
  rewrite length_app. replace (length w + length t - length t) with (length w) by lia.
  by rewrite take_app_length.
Qed.

Lemma split_char_nonempty c s : split_char c s <> [].
Proof.
  destruct s as [|x s]; simpl; [done|]. destruct (x =? c)%N; [done|].
  by destruct (split_char c s).
Qed.

Lemma join_split c s : join [c] (split_char c s) = s.
Proof.
  induction s as [|x s IH]; simpl; [done|].
  pose proof (split_char_nonempty c s) as Hne.
  destruct (N.eqb_spec x c) as [->|Hx].
  - simpl. destruct (split_char c s); [done|]. by rewrite IH.
  - destruct (split_char c s) as [|l ls]; [done|]. simpl in *.
    destruct ls; simpl in *; by rewrite IH.
Qed.

Lemma split_char_free c s l : l ∈ split_char c s -> contains_char c l = false.
Proof.
  revert l. induction s as [|x s IH]; simpl; intros l.
  - intros ->%list_elem_of_singleton. done.
  - destruct (N.eqb_spec x c) as [->|Hx].
    + intros [->|Hl]%elem_of_cons; [done|auto].
    + pose proof (split_char_nonempty c s). destruct (split_char c s) as [|y ys]; [done|].
      intros [->|Hl]%elem_of_cons; [|apply IH; by right].
      simpl. rewrite (proj2 (N.eqb_neq c x)) by done. apply IH. by left.
Qed.

(** Splitting a join of separator-free pieces gives them back. *)
Lemma split_char_free_app c l s :
  contains_char c l = false ->
  split_char c (l ++ s) =
  match split_char c s with [] => [l] | x :: xs => (l ++ x) :: xs end.
Proof.
  induction l as [|y l IH]; simpl.
  - pose proof (split_char_nonempty c s). by destruct (split_char c s).
  - intros [Hy Hl]%orb_false_iff. rewrite N.eqb_sym in Hy. rewrite Hy, IH by done.
    by destruct (split_char c s).
Qed.

Lemma split_join c ls :
  ls <> [] -> Forall (fun l => contains_char c l = false) ls ->
  split_char c (join [c] ls) = ls.
Proof.
  induction ls as [|l ls IH]; [done|]. intros _ [Hl Hls]%Forall_cons.
  destruct ls as [|l' ls].
  - simpl. rewrite <-(app_nil_r l) at 1. rewrite split_char_free_app by done. simpl.
    by rewrite app_nil_r.
  - change (join [c] (l :: l' :: ls)) with (l ++ c :: join [c] (l' :: ls)).
    rewrite split_char_free_app by done. cbn [split_char]. rewrite N.eqb_refl.
    rewrite IH by done. by rewrite app_nil_r.
Qed.

Lemma contains_char_app c a b :
  contains_char c (a ++ b) = contains_char c a || contains_char c b.
Proof. unfold contains_char. apply existsb_app. Qed.

Lemma contains_char_free c s :
  contains_char c s = false <-> forall x, x ∈ s -> x <> c.
Proof.
  unfold contains_char. rewrite existsb_none. split; intros H x Hx.
  - apply H in Hx. apply N.eqb_neq in Hx. congruence.
  - apply N.eqb_neq. intros ->. by apply (H x).
Qed.

Lemma strip_crlf_free s :
  contains_char 10 (strip_crlf s) = false /\ contains_char 13 (strip_crlf s) = false.
Proof.
  split; apply contains_char_free; intros x Hx ->;
    apply list_elem_of_In, filter_In in Hx; by destruct Hx.
Qed.

Lemma strip_crlf_id s :
  contains_char 10 s = false -> contains_char 13 s = false -> strip_crlf s = s.
Proof.
  unfold strip_crlf, contains_char. induction s as [|c s IH]; [done|].
  cbn [existsb List.filter]. intros [H1 H2]%orb_false_iff [H3 H4]%orb_false_iff.
  rewrite N.eqb_sym in H1, H3. rewrite H1, H3. cbn [orb negb]. by rewrite IH.
Qed.

Lemma strip_prefix_Some p s r : strip_prefix p s = Some r <-> s = p ++ r.
Proof.
  revert s. induction p as [|a p IH]; intros s; simpl; [naive_solver|].
  destruct s as [|b s]; [done|]. destruct (N.eqb_spec a b) as [->|Hab].
  - rewrite IH. naive_solver.
  - split; [done|]. naive_solver.
Qed.

(** ** Words *)

Lemma split_ws_token cur t s :
  forallb (fun c => negb (is_whitespace c)) t = true ->
  split_whitespace_aux cur (t ++ s) = split_whitespace_aux (reverse t ++ cur) s.
Proof.
  revert cur. induction t as [|c t IH]; intros cur; simpl; [done|]. intros. breflect.
  rewrite H, IH by done. by rewrite reverse_cons, <-app_assoc.
Qed.

Definition is_token (t : str) : bool :=
  negb (t =?= []) && forallb (fun c => negb (is_whitespace c)) t.

Lemma split_ws_join ts :
  forallb is_token ts = true -> split_whitespace (join (lit " ") ts) = ts.
Proof.
  unfold split_whitespace. induction ts as [|t ts IH]; [done|]. simpl.
  intros. unfold is_token in *. breflect.
  assert (Hr : reverse t ++ [] <> []).
  { rewrite app_nil_r. intros Hr%(f_equal reverse). by rewrite reverse_involutive in Hr. }
  assert (Hrev : reverse (reverse t ++ []) = t) by (by rewrite app_nil_r, reverse_involutive).
  destruct ts as [|t' ts].
  - rewrite <-(app_nil_r t) at 1. rewrite split_ws_token by done. cbn [split_whitespace_aux].
    destruct (reverse t ++ []) as [|x r] eqn:He; [done|]. by rewrite Hrev.
  - rewrite split_ws_token by done. cbn [app split_whitespace_aux].
    change (lit " " ++ ?s) with (32%N :: s). cbn [split_whitespace_aux].
    replace (is_whitespace 32) with true by done.
    destruct (reverse t ++ []) as [|x r] eqn:He; [done|]. rewrite Hrev. f_equal.
    by apply IH.
Qed.

Lemma split_ws_aux_tokens s : forall cur,
  forallb (fun c => negb (is_whitespace c)) cur = true ->
  forallb is_token (split_whitespace_aux cur s) = true.
Proof.
  assert (Hrev : forall x cur, forallb (fun c => negb (is_whitespace c)) (x :: cur) = true ->
    is_token (reverse (x :: cur)) = true).
  { intros x cur H. unfold is_token. apply andb_true_intro. split.
    - rewrite reverse_cons. by destruct (reverse cur).
    - apply forallb_elem. intros y Hy. apply (proj1 (forallb_elem _ _) H). by apply elem_of_reverse. }
  induction s as [|c s IH]; intros cur Hc; cbn [split_whitespace_aux].
  - destruct cur as [|x cur]; [done|]. cbn [forallb]. by rewrite Hrev.
  - destruct (is_whitespace c) eqn:Hw.
    + destruct cur as [|x cur]; [by apply IH|]. cbn [forallb]. rewrite Hrev by done. by apply IH.
    + apply IH. cbn [forallb]. by rewrite Hw.
Qed.

(** Every word is not empty and without whitespace. *)
Lemma split_whitespace_tokens s : forallb is_token (split_whitespace s) = true.
Proof. by apply split_ws_aux_tokens. Qed.

Lemma trim_end_id s c : last s = Some c -> is_whitespace c = false -> trim_end s = s.
Proof.
  intros Hl Hc. unfold trim_end.
  apply last_Some in Hl as [l ->]. rewrite reverse_snoc. simpl. rewrite Hc.
  by rewrite <-reverse_snoc, reverse_involutive.
Qed.

Lemma trim_id s a b : head s = Some a -> last s = Some b -> is_whitespace a = false -> is_whitespace b = false ->
  trim s = s.
Proof.
  intros Ha Hb Hwa Hwb. unfold trim. destruct s as [|x s]; [done|]. injection Ha as ->.
  unfold trim_start. cbn [drop_while]. rewrite Hwa. by apply (trim_end_id _ b).
Qed.

(** ** Literals *)

Lemma lit_inj s1 s2 : lit s1 = lit s2 -> s1 = s2.
Proof.
  revert s2. induction s1 as [|a s1 IH]; intros [|b s2] Heq; try done. injection Heq as Ha Hs.
  f_equal; [|by apply IH]. by rewrite <- (Ascii.ascii_N_embedding a), Ha, Ascii.ascii_N_embedding.
Qed.

Lemma dec_inj a b : dec a = dec b -> a = b.
Proof. intros H%lit_inj. by apply (inj pretty) in H. Qed.
