(* ===== verification/BTreeMap.v ===== *)
(** * BTreeMap: ordered maps keyed by strings

    [std::collections::BTreeMap<String, V>] as the list of its entries in key
    order: the iteration order is observable in the sources (the first error of
    a scan, the order of a listing), so the map is not a [gmap].  [bt_insert]
    keeps the order, lookups are by key equality, and the order invariant
    [bt_ok] is preserved by every operation. *)

From S2P Require Import Prelude Text.

Abbreviation btree V := (list (list N * V)) (only parsing).

Section Operations.
Context {V : Type}.

Fixpoint bt_get (k : str) (m : btree V) : option V :=
  match m with
  | [] => None
  | (k', v) :: m' => if k =?= k' then Some v else bt_get k m'
  end.

Fixpoint bt_insert (k : str) (v : V) (m : btree V) : btree V :=
  match m with
  | [] => [(k, v)]
  | (k', v') :: m' =>
      match str_compare k k' with
      | Lt => (k, v) :: m
      | Eq => (k, v) :: m'
      | Gt => (k', v') :: bt_insert k v m'
      end
  end.

Definition bt_remove (k : str) (m : btree V) : btree V :=
  List.filter (fun e => negb (k =?= e.1)) m.

(** [get_mut] followed by an assignment through the reference. *)
Definition bt_update (k : str) (f : V -> V) (m : btree V) : btree V :=
  map (fun e => if k =?= e.1 then (e.1, f e.2) else e) m.

Definition bt_contains_key (k : str) (m : btree V) : bool := is_some (bt_get k m).
Definition bt_values (m : btree V) : list V := m.*2.
Definition bt_keys (m : btree V) : list str := m.*1.

(** The representation invariant: strictly increasing keys. *)
Definition key_lt (a b : str * V) : Prop := str_ltb a.1 b.1 = true.
Definition bt_ok (m : btree V) : Prop := StronglySorted key_lt m.
End Operations.

(** [BTreeSet<String>]. *)
Definition bset : Type := list (str * unit).
Definition bs_insert (k : str) (s : bset) : bset := bt_insert k tt s.
Definition bs_contains (k : str) (s : bset) : bool := bt_contains_key k s.
Definition bs_of_list (l : list str) : bset := foldl (fun s k => bs_insert k s) [] l.

Section Lemmas.
Context {V : Type}.
Implicit Types (m : btree V) (k : str) (v : V).

Lemma bt_get_insert_eq k v m : bt_get k (bt_insert k v m) = Some v.
Proof.
  induction m as [|[k' v'] m IH]; simpl.
  - by rewrite bool_decide_true.
  - destruct (str_compare k k') eqn:Hc; simpl.
    + by rewrite bool_decide_true.
    + by rewrite bool_decide_true.
    + rewrite bool_decide_false; [done|]. intros ->.
      by rewrite (proj2 (str_compare_eq k' k') eq_refl) in Hc.
Qed.

Lemma bt_get_insert_ne k k2 v m : k <> k2 -> bt_get k2 (bt_insert k v m) = bt_get k2 m.
Proof.
  intros Hne. induction m as [|[k' v'] m IH]; simpl.
  - by rewrite bool_decide_false by congruence.
  - destruct (str_compare k k') eqn:Hc; simpl.
    + apply str_compare_eq in Hc as ->. by rewrite bool_decide_false by congruence.
    + by rewrite (bool_decide_false (k2 = k)) by congruence.
    + by rewrite IH.
Qed.

Lemma bt_get_insert k k2 v m :
  bt_get k2 (bt_insert k v m) = if decide (k = k2) then Some v else bt_get k2 m.
Proof. case_decide as H; [subst; apply bt_get_insert_eq|by apply bt_get_insert_ne]. Qed.

Lemma bt_get_remove_eq k m : bt_get k (bt_remove k m) = None.
Proof.
  induction m as [|[k' v'] m IH]; simpl; [done|].
  destruct (bool_decide (k = k')) eqn:Hk; simpl; [done|]. by rewrite Hk.
Qed.

Lemma bt_get_remove_ne k k2 m : k <> k2 -> bt_get k2 (bt_remove k m) = bt_get k2 m.
Proof.
  intros Hne. induction m as [|[k' v'] m IH]; simpl; [done|].
  case_bool_decide as Hk; simpl; subst.
  - by rewrite (bool_decide_false (k2 = k')) by congruence.
  - by rewrite IH.
Qed.

Lemma bt_get_update k k2 f m :
  bt_get k2 (bt_update k f m) = (if decide (k = k2) then f <$> bt_get k2 m else bt_get k2 m).
Proof.
  induction m as [|[k' v'] m IH]; simpl; [by case_decide|].
  case_bool_decide as Hk; simpl; subst; case_bool_decide as Hk2; subst;
    case_decide as Hd; subst; try congruence; done.
Qed.

Lemma bt_get_elem k v m : bt_get k m = Some v -> (k, v) ∈ m.
Proof.
  induction m as [|[k' v'] m IH]; simpl; [done|].
  case_bool_decide as Hk; subst; [intros [= ->]; by left|]. intros H. right. auto.
Qed.

Lemma bt_elem_insert e k v m :
  e ∈ bt_insert k v m -> e = (k, v) \/ e ∈ m.
Proof.
  induction m as [|[k' v'] m IH]; simpl.
  - intros ->%list_elem_of_singleton. by left.
  - destruct (str_compare k k'); rewrite !elem_of_cons; naive_solver.
Qed.

Lemma bt_elem_insert_keep e k v m :
  e ∈ m -> e.1 <> k -> e ∈ bt_insert k v m.
Proof.
  intros He Hne. induction m as [|[k' v'] m IH]; simpl; [by apply elem_of_nil in He|].
  destruct (str_compare k k') eqn:Hc; rewrite !elem_of_cons.
  - apply str_compare_eq in Hc as ->. apply elem_of_cons in He as [->|He]; naive_solver.
  - apply elem_of_cons in He as [->|He]; naive_solver.
  - apply elem_of_cons in He as [->|He]; naive_solver.
Qed.

Lemma bt_insert_elem k v m : (k, v) ∈ bt_insert k v m.
Proof. apply bt_get_elem, bt_get_insert_eq. Qed.

Lemma bt_ok_get k v m : bt_ok m -> (k, v) ∈ m -> bt_get k m = Some v.
Proof.
  induction m as [|[k' v'] m IH]; intros Hok Hin; [by apply elem_of_nil in Hin|].
  inversion Hok as [|? ? Hm Hall]; subst. simpl.
  apply elem_of_cons in Hin as [[= -> ->]|Hin]; [by rewrite bool_decide_true|].
  rewrite bool_decide_false; [auto|]. intros ->.
  rewrite Forall_forall in Hall. specialize (Hall _ Hin).
  unfold key_lt in Hall. simpl in Hall. by rewrite str_ltb_irrefl in Hall.
Qed.

Lemma bt_ok_insert k v m : bt_ok m -> bt_ok (bt_insert k v m).
Proof.
  unfold bt_ok. induction 1 as [|[k' v'] m Hm IH Hall]; simpl.
  - repeat constructor.
  - destruct (str_compare k k') eqn:Hc.
    + apply str_compare_eq in Hc as ->. by constructor.
    + constructor; [by constructor|]. rewrite Forall_forall in Hall |- *.
      assert (Hlt : str_ltb k k' = true) by (unfold str_ltb; by rewrite Hc).
      intros e [->|He]%elem_of_cons; [done|].
      eapply str_ltb_trans; [exact Hlt|]. by apply Hall.
    + constructor; [done|]. rewrite Forall_forall in Hall |- *.
      intros e [->|He]%bt_elem_insert; [|by apply Hall].
      unfold key_lt, str_ltb. simpl. by rewrite str_compare_antisym, Hc.
Qed.

Lemma bt_ok_remove k m : bt_ok m -> bt_ok (bt_remove k m).
Proof.
  unfold bt_ok. induction 1 as [|[k' v'] m Hm IH Hall]; simpl; [constructor|].
  destruct (negb _); [|done]. constructor; [done|].
  rewrite Forall_forall in Hall |- *. intros e He.
  apply list_elem_of_In, filter_In in He as [He _]. by apply Hall, list_elem_of_In.
Qed.

Lemma bt_keys_update k f m : bt_keys (bt_update k f m) = bt_keys m.
Proof.
  unfold bt_keys, bt_update. induction m as [|[k' v'] m IH]; simpl; [done|].
  destruct (bool_decide _); simpl; f_equal; exact IH.
Qed.

Lemma bt_ok_update k f m : bt_ok m -> bt_ok (bt_update k f m).
Proof.
  unfold bt_ok. induction 1 as [|[k' v'] m Hm IH Hall]; simpl; [constructor|].
  assert (Forall (fun e : str * V => str_ltb k' e.1 = true) (bt_update k f m)).
  { apply Forall_forall. intros e He. rewrite Forall_forall in Hall.
    unfold bt_update in He. apply list_elem_of_fmap in He as (e' & -> & He').
    specialize (Hall _ He'). unfold key_lt in Hall. simpl in Hall.
    by destruct (bool_decide _). }
  destruct (bool_decide _); by constructor.
Qed.

Lemma bt_remove_elem e k m : e ∈ bt_remove k m -> e ∈ m /\ e.1 <> k.
Proof.
  unfold bt_remove. intros He. apply list_elem_of_In, filter_In in He as [He Hk].
  breflect. split; [by apply list_elem_of_In|congruence].
Qed.
End Lemmas.

#[export] Hint Resolve bt_ok_insert bt_ok_remove bt_ok_update : lunport.
#[export] Hint Rewrite @bt_get_insert_eq @bt_get_remove_eq : lunport.

Lemma bs_contains_insert k k2 s :
  bs_contains k2 (bs_insert k s) = (k =?= k2) || bs_contains k2 s.
Proof.
  unfold bs_contains, bs_insert, bt_contains_key. rewrite bt_get_insert.
  case_decide; [by rewrite bool_decide_true|by rewrite bool_decide_false].
Qed.
