(* ===== verification/SlotRules.v ===== *)
(** * SlotRules: identifiers and key-slot paths

    [src-tauri/src/sync/slot_rules.rs] (slot ids, slot names, the IdentityFile
    value that stands for a slot), [crypto::is_chain_id] and
    [records_v3::is_host_id]. *)

From S2P Require Import Prelude Text.

(** ** Key slots *)

Definition SLOT_DIR : str := lit ".ssh/sshelter/keys".

(** Strip one pair of double quotes (code point 34). *)
Definition unquote (value : str) : str :=
  let v := trim value in
  if (2 <=? length v) && starts_with [34%N] v && ends_with [34%N] v
  then take (length v - 2) (drop 1 v) else v.

Definition slot_file_of_value (value : str) : option str :=
  let v := unquote value in
  rest ← match strip_prefix (lit "~/") v with
         | Some r => Some r
         | None => strip_prefix (lit "%d/") v
         end;
  r ← strip_prefix SLOT_DIR rest;
  file ← strip_prefix (lit "/") r;
  if negb (file =?= []) && negb (existsb (fun c => (c =? 47)%N || (c =? 92)%N) file)
  then Some file else None.

Definition public_path (slot : str) : str := slot ++ lit ".pub".

(** [is_slot_id], [valid_slot_name], [default_slot_name], [slot_file_name], [slot_value]. *)
Definition is_slot_id (id : str) : bool := (str_len id =? 32) && forallb is_lower_hex (utf8 id).

Definition is_name_char (c : N) : bool :=
  is_ascii_alphanumeric c || (c =? 46)%N || (c =? 95)%N || (c =? 45)%N.

Definition valid_slot_name (name : str) : bool :=
  match name with
  | [] => false
  | first :: rest =>
      (str_len name <=? 64) && is_ascii_alphanumeric first && forallb is_name_char rest
      && negb (ends_with (lit ".pub") (to_ascii_lowercase name))
  end.

(** [while name.ends_with(".pub") { name.truncate(len - 4) }]: at most [n] rounds,
    [n] the length of the name. *)
Fixpoint strip_pub (n : nat) (name : str) : str :=
  match n with
  | O => name
  | S n' =>
      if ends_with (lit ".pub") (to_ascii_lowercase name)
      then strip_pub n' (take (length name - 4) name) else name
  end.

Definition default_slot_name (file_name : str) : str :=
  let mapped := map (fun c => if is_name_char c then c else 45%N) file_name in
  let name := take 64 (drop_while (fun c => negb (is_ascii_alphanumeric c)) mapped) in
  let name := strip_pub (length name) name in
  let name := reverse (drop_while (N.eqb 45) (reverse name)) in
  if valid_slot_name name then name else lit "key".

Definition slot_file_name (name slot_id : str) : str := name ++ lit "-" ++ take 8 slot_id.
Definition slot_value (file_name : str) : str := lit "~/" ++ SLOT_DIR ++ lit "/" ++ file_name.


(** ** Chain and record identifiers *)

Definition is_chain_id (s : str) : bool := (str_len s =? 64) && forallb is_lower_hex (utf8 s).
Definition is_host_id (id : str) : bool := (str_len id =? 16) && forallb is_lower_hex (utf8 id).
