(* ===== verification/Json.v ===== *)
(** * Json: [serde_json::Value] and the serialization interface

    The values the records carry, the accessors the sources use on them, and
    the interface [Serde]: the code [serde] derives for a payload type is not
    part of the repository, so it is a parameter with the law the sources rely
    on (what was serialized is read back). *)

From S2P Require Import Prelude Text BTreeMap.

(** [serde_json::Number]: a non-negative or negative integer, or a float (kept
    as its text). *)
Inductive Number :=
| PosInt (n : N)
| NegInt (z : Z)
| Float (text : str).

Inductive Json :=
| JNull
| JBool (b : bool)
| JNumber (n : Number)
| JString (s : str)
| JArray (l : list Json)
| JObject (m : list (str * Json)).

#[export] Instance number_eq_dec : EqDecision Number.
Proof. solve_decision. Defined.

(** [PartialEq for Value]. *)
Fixpoint json_eqb (a b : Json) : bool :=
  match a, b with
  | JNull, JNull => true
  | JBool x, JBool y => Bool.eqb x y
  | JNumber x, JNumber y => x =?= y
  | JString x, JString y => x =?= y
  | JArray l, JArray l' =>
      (fix go (l l' : list Json) : bool :=
         match l, l' with
         | [], [] => true
         | x :: l, y :: l' => json_eqb x y && go l l'
         | _, _ => false
         end) l l'
  | JObject m, JObject m' =>
      (fix go (m m' : list (str * Json)) : bool :=
         match m, m' with
         | [], [] => true
         | (k, x) :: m, (k', y) :: m' => (k =?= k') && json_eqb x y && go m m'
         | _, _ => false
         end) m m'
  | _, _ => false
  end.

(** Induction on a value with its nested lists. *)
Section JsonInd.
Variable (P : Json -> Prop).
Hypothesis (Hnull : P JNull) (Hbool : forall b, P (JBool b)) (Hnum : forall n, P (JNumber n))
  (Hstr : forall s, P (JString s)) (Harr : forall l, Forall P l -> P (JArray l))
  (Hobj : forall m, Forall (fun e => P e.2) m -> P (JObject m)).

Fixpoint json_rec (v : Json) : P v :=
  match v with
  | JNull => Hnull
  | JBool b => Hbool b
  | JNumber n => Hnum n
  | JString s => Hstr s
  | JArray l =>
      Harr l ((fix go (l : list Json) : Forall P l :=
                 match l with [] => Forall_nil_2 _ | x :: l => Forall_cons_2 _ _ _ (json_rec x) (go l) end) l)
  | JObject m =>
      Hobj m ((fix go (m : list (str * Json)) : Forall (fun e => P e.2) m :=
                 match m with
                 | [] => Forall_nil_2 _
                 | e :: m => Forall_cons_2 _ _ _ (json_rec e.2) (go m)
                 end) m)
  end.
End JsonInd.

Lemma json_eqb_spec a b : json_eqb a b = true <-> a = b.
Proof.
  revert b. induction a as [|x|x|x|l IH|m IH] using json_rec;
    intros [|y|y|y|l'|m']; simpl; try (split; discriminate); try done.
  - rewrite eqb_true_iff. naive_solver.
  - rewrite bool_decide_eq_true. naive_solver.
  - rewrite bool_decide_eq_true. naive_solver.
  - revert l'. induction IH as [|x l Hx _ IHl]; intros [|y l']; try (split; (done || discriminate)).
    rewrite andb_true_iff, Hx, IHl. naive_solver.
  - revert m'. induction IH as [|[k x] m Hx _ IHm]; intros [|[k' y] m']; try (split; (done || discriminate)).
    rewrite !andb_true_iff, bool_decide_eq_true, Hx, IHm. naive_solver.
Qed.

#[export] Instance json_eq_dec : EqDecision Json.
Proof.
  intros a b. destruct (json_eqb a b) eqn:H.
  - left. by apply json_eqb_spec.
  - right. intros E%json_eqb_spec. congruence.
Defined.

(** [Value::get] with a string key, [Value::as_u64], [Value::is_null]. *)
Definition json_get (k : str) (v : Json) : option Json :=
  match v with JObject m => bt_get k m | _ => None end.

Definition as_u64 (v : Json) : option N :=
  match v with JNumber (PosInt n) => Some n | _ => None end.

Definition json_is_null (v : Json) : bool := match v with JNull => true | _ => false end.

(** [value[k] = x]: a null becomes an object, any other non-object panics. *)
Definition json_set (k : str) (x : Json) (v : Json) : option Json :=
  match v with
  | JObject m => Some (JObject (bt_insert k x m))
  | JNull => Some (JObject [(k, x)])
  | _ => None
  end.

(** [v.get("schema").and_then(Value::as_u64)]. *)
Definition json_u64 (k : str) (v : Json) : option N := json_get k v ≫= as_u64.

(** What [serde_json::to_value] and [from_value] do for a payload type. *)
Class Serde (T : Type) := {
  to_value : T -> Json;
  from_value : Json -> result str T;
  from_to_value : forall x, from_value (to_value x) = Ok x
}.

(** A payload with a [schema] member: it is serialized under that name. *)
Class SchemaField (T : Type) `{Serde T} (schema_of : T -> N) :=
  schema_member : forall x, json_get (lit "schema") (to_value x) = Some (JNumber (PosInt (schema_of x))).
