(* ===== verification/ConfigParser.v ===== *)
(** * ConfigParser: lexer and block parser of OpenSSH config files

    [src-tauri/src/config/lexer.rs] ([classify_line], [split_value_comment]) and
    [parser.rs] ([parse_file], [group_blocks]).  The central theorem is that an
    unedited file survives parsing and serializing byte for byte. *)

From Equations Require Import Equations.
From S2P Require Import Prelude Text.

(** ** The lossless document model of an OpenSSH config file

    [src-tauri/src/config/model.rs] and [serialize.rs]: directives, the ordered
    items of a file, Host and Match blocks, and the serializer that emits clean
    lines verbatim and re-renders edited ones. *)

(** Keyword/value separator, kept with its surrounding whitespace. *)
Inductive Separator :=
| Space (s : str)
| Equals (s : str).

Record Directive := mkDirective {
  keyword : str;
  key : str;
  value : str;
  separator : Separator;
  indent : str;
  trailing_ws : str;
  inline_comment : option str;
  enabled : bool;
  raw : str;
  dirty : bool
}.

(** [Item], [HostBlock] and [MatchBlock] are mutually recursive in the source. *)
Inductive Item :=
| Blank (s : str)
| Comment (s : str)
| DirectiveItem (d : Directive)
| Host (h : HostBlock)
| Match (m : MatchBlock)
with HostBlock :=
| mkHostBlock (hheader : Directive) (hpatterns : list str) (hbody : list Item)
with MatchBlock :=
| mkMatchBlock (mheader : Directive) (mcriteria : str) (mbody : list Item).

Definition header (h : HostBlock) : Directive := let '(mkHostBlock d _ _) := h in d.
Definition patterns (h : HostBlock) : list str := let '(mkHostBlock _ p _) := h in p.
Definition body (h : HostBlock) : list Item := let '(mkHostBlock _ _ b) := h in b.
Definition set_body (h : HostBlock) (b : list Item) : HostBlock :=
  mkHostBlock (header h) (patterns h) b.

(** [fsutil::Fingerprint]: modification time and content hash of a loaded file. *)
Record Fingerprint := mkFingerprint {
  mtime_ms : N;
  sha256 : str
}.

Record ConfigFile := mkConfigFile {
  path : str;
  items : list Item;
  trailing_newline : bool;
  fingerprint : Fingerprint
}.

Record SshConfigDoc := mkDoc { files : list ConfigFile }.

#[export] Instance separator_eq_dec : EqDecision Separator.
Proof. solve_decision. Defined.
#[export] Instance directive_eq_dec : EqDecision Directive.
Proof. solve_decision. Defined.

(** Field updates [d.value = v; d.dirty = true] and the like. *)
Definition with_value (d : Directive) (v : str) : Directive :=
  mkDirective (keyword d) (key d) v (separator d) (indent d) (trailing_ws d)
    (inline_comment d) (enabled d) (raw d) true.
Definition with_enabled (d : Directive) (e : bool) : Directive :=
  mkDirective (keyword d) (key d) (value d) (separator d) (indent d) (trailing_ws d)
    (inline_comment d) e (raw d) (dirty d).
Definition with_dirty (d : Directive) (b : bool) : Directive :=
  mkDirective (keyword d) (key d) (value d) (separator d) (indent d) (trailing_ws d)
    (inline_comment d) (enabled d) (raw d) b.

Section Unicode.
Context {U : Unicode}.

(** [Directive::new]. *)
Definition Directive_new (kw v ind : str) : Directive :=
  mkDirective kw (to_lowercase kw) (strip_crlf v) (Space (lit " ")) ind [] None true [] true.
End Unicode.

(** [Directive::serializes_as_comment]. *)
Definition serializes_as_comment (d : Directive) : bool := negb (enabled d) && dirty d.

Definition sep_str (s : Separator) : str := match s with Space s => s | Equals s => s end.

(** The text of a directive after its indent. *)
Definition directive_body (d : Directive) : str :=
  keyword d ++ sep_str (separator d) ++ value d ++ trailing_ws d ++ default [] (inline_comment d).

Definition render_directive (d : Directive) : str :=
  if negb (dirty d) then raw d
  else if serializes_as_comment d then indent d ++ lit "# " ++ directive_body d
  else indent d ++ directive_body d.

(** [push_items]: the physical lines of an item list, in order. *)
Fixpoint item_lines (i : Item) : list str :=
  match i with
  | Blank s => [s]
  | Comment s => [s]
  | DirectiveItem d => [render_directive d]
  | Host h => host_lines h
  | Match m => match_lines m
  end
with host_lines (h : HostBlock) : list str :=
  match h with
  | mkHostBlock d _ b => render_directive d :: concat (map item_lines b)
  end
with match_lines (m : MatchBlock) : list str :=
  match m with
  | mkMatchBlock d _ b => render_directive d :: concat (map item_lines b)
  end.

Definition push_items (l : list Item) : list str := concat (map item_lines l).

Definition serialize_items (l : list Item) (trailing_newline : bool) : str :=
  let out := join [10%N] (push_items l) in
  if trailing_newline then out ++ [10%N] else out.

(** ** Lemmas *)

Lemma push_items_app a b : push_items (a ++ b) = push_items a ++ push_items b.
Proof. unfold push_items. by rewrite map_app, concat_app. Qed.

Lemma push_items_cons i l : push_items (i :: l) = item_lines i ++ push_items l.
Proof. done. Qed.

Lemma item_lines_host h :
  item_lines (Host h) = render_directive (header h) :: push_items (body h).
Proof. by destruct h. Qed.

(** A directive none of whose fields holds a newline renders to one physical line. *)
Definition one_line (d : Directive) : bool :=
  negb (contains_char 10 (raw d)) && negb (contains_char 10 (indent d))
  && negb (contains_char 10 (directive_body d)).

Lemma render_one_line d :
  one_line d = true -> contains_char 10 (render_directive d) = false.
Proof.
  unfold one_line, render_directive. intros. breflect.
  repeat case_match; rewrite ?contains_char_app; by rewrite ?H, ?H1, ?H0.
Qed.

Inductive LineKind :=
| LBlank
| LComment
| LDirective (d : Directive).

(** The scan of [split_value_comment]: index of the first ['#'] outside a
    double-quoted span.  (The source scans bytes; both characters are ASCII, so
    no byte of a longer encoding is ever taken for one of them.) *)
Fixpoint comment_index (in_dquote : bool) (s : str) : option nat :=
  match s with
  | [] => None
  | ch :: s' =>
      if (ch =? 34)%N then S <$> comment_index (negb in_dquote) s'
      else if (ch =? 35)%N && negb in_dquote then Some 0
      else S <$> comment_index in_dquote s'
  end.

Definition split_value_comment (valuepart : str) : str * str * option str :=
  match comment_index false valuepart with
  | None =>
      let value := trim_end valuepart in
      (value, drop (length value) valuepart, None)
  | Some idx =>
      let before := take idx valuepart in
      let value := trim_end before in
      let ws := drop (length value) before in
      (value, [], Some (ws ++ drop idx valuepart))
  end.

(** The separator scan: whitespace with at most one ['=']. *)
Fixpoint scan_separator (saw_eq : bool) (s : str) : nat * bool :=
  match s with
  | [] => (0, saw_eq)
  | ch :: s' =>
      if (ch =? 61)%N && negb saw_eq then
        let '(n, e) := scan_separator true s' in (S n, e)
      else if is_whitespace ch then
        let '(n, e) := scan_separator saw_eq s' in (S n, e)
      else (0, saw_eq)
  end.

Inductive HeaderKind := HHost | HMatch.

(** [header_kind] of a flat item. *)
Definition header_kind (i : Item) : option HeaderKind :=
  match i with
  | DirectiveItem d =>
      if key d =?= lit "host" then Some HHost
      else if key d =?= lit "match" then Some HMatch
      else None
  | _ => None
  end.

(** The inner [while let Some(next) = iter.peek()] loop: the body runs up to
    the next header. *)
Fixpoint take_body (l : list Item) : list Item * list Item :=
  match l with
  | [] => ([], [])
  | i :: l' =>
      match header_kind i with
      | Some _ => ([], l)
      | None => let '(b, r) := take_body l' in (i :: b, r)
      end
  end.

Lemma take_body_app l : (take_body l).1 ++ (take_body l).2 = l.
Proof.
  induction l as [|i l IH]; simpl; [done|]. destruct (header_kind i); [done|].
  destruct (take_body l); simpl in *. by f_equal.
Qed.

Lemma take_body_length l : length (take_body l).2 <= length l.
Proof. rewrite <-(take_body_app l) at 2. rewrite length_app. lia. Qed.

(** The block built from a header directive and its body. *)
Definition make_block (kind : HeaderKind) (hd : Directive) (b : list Item) : Item :=
  match kind with
  | HHost => Host (mkHostBlock hd (split_whitespace (value hd)) b)
  | HMatch => Match (mkMatchBlock hd (value hd) b)
  end.

Equations? group_blocks (flat : list Item) : list Item by wf (length flat) lt :=
  group_blocks [] := [];
  group_blocks (i :: rest) with header_kind i => {
    | Some kind with i => {
        | DirectiveItem hd :=
            make_block kind hd (take_body rest).1 :: group_blocks (take_body rest).2;
        | other := other :: group_blocks rest };
    | None := i :: group_blocks rest }.
Proof. all: simpl; pose proof (take_body_length rest); lia. Qed.

Section Parse.
Context {U : Unicode}.

Definition classify_line (line : str) : LineKind :=
  if forallb is_whitespace line then LBlank
  else
    let trimmed := trim_start line in
    if starts_with (lit "#") trimmed then LComment
    else
      let indent := take (length line - length trimmed) line in
      let '(keyword, after_kw) :=
        break_at (fun c => is_whitespace c || (c =? 61)%N) trimmed in
      let '(sep_end, saw_eq) := scan_separator false after_kw in
      let sep := take sep_end after_kw in
      let separator := if saw_eq then Equals sep else Space sep in
      let valuepart := drop sep_end after_kw in
      let '(value, trailing_ws, inline_comment) := split_value_comment valuepart in
      LDirective (mkDirective keyword (to_lowercase keyword) value separator indent
                    trailing_ws inline_comment true line false).

(** One physical line as a flat item. *)
Definition line_item (line : str) : Item :=
  match classify_line line with
  | LBlank => Blank line
  | LComment => Comment line
  | LDirective d => DirectiveItem d
  end.

Definition parse_file (text : str) : list Item * bool :=
  let trailing := ends_with [10%N] text in
  match text with
  | [] => ([], trailing)
  | _ =>
      let body := if trailing then take (length text - 1) text else text in
      (group_blocks (map line_item (split_char 10 body)), trailing)
  end.
End Parse.

(** ** The lexer is lossless *)

Lemma split_value_comment_app v :
  let '(value, ws, c) := split_value_comment v in value ++ ws ++ default [] c = v.
Proof.
  unfold split_value_comment. destruct (comment_index false v) as [idx|]; simpl.
  - rewrite app_assoc, trim_end_drop. apply take_drop.
  - rewrite app_nil_r. apply trim_end_drop.
Qed.

Section ParseLemmas.
Context {U : Unicode}.

(** Every directive the lexer produces is clean and carries its line. *)
Lemma classify_line_clean line d :
  classify_line line = LDirective d ->
  raw d = line /\ dirty d = false /\ enabled d = true /\ key d = to_lowercase (keyword d).
Proof.
  unfold classify_line. destruct (forallb _ _); [done|]. case_match; [done|].
  destruct (break_at _ _). destruct (scan_separator _ _).
  destruct (split_value_comment _) as [[??]?]. by intros [= <-].
Qed.

(** C: the structured fields of a lexed directive reassemble to the line. *)
Lemma classify_line_faithful line d :
  classify_line line = LDirective d -> indent d ++ directive_body d = line.
Proof.
  unfold classify_line. destruct (forallb _ _); [done|]. case_match; [done|].
  pose proof (break_at_app (fun c => is_whitespace c || (c =? 61)%N) (trim_start line)) as Hb.
  destruct (break_at _ _) as [kw after]. simpl in Hb.
  destruct (scan_separator false after) as [n e].
  pose proof (split_value_comment_app (drop n after)) as Hv.
  destruct (split_value_comment _) as [[v ws] c]. intros [= <-].
  unfold directive_body. simpl. rewrite Hv.
  replace (sep_str _) with (take n after) by (by destruct e).
  rewrite (app_assoc kw), <-(app_assoc kw), take_drop, Hb. apply trim_start_take.
Qed.
End ParseLemmas.

(** ** Grouping *)

(** A grouped document: plain lines, then blocks only, whose bodies hold no
    header line; [ungroup] lays the blocks out flat again. *)
Definition is_plain (i : Item) : bool :=
  match i with
  | Host _ | Match _ => false
  | _ => is_none (header_kind i)
  end.

Definition block_ok (i : Item) : bool :=
  match i with
  | Host (mkHostBlock hd ps b) =>
      (key hd =?= lit "host") && (ps =?= split_whitespace (value hd)) && forallb is_plain b
  | Match (mkMatchBlock hd c b) =>
      (key hd =?= lit "match") && (c =?= value hd) && forallb is_plain b
  | _ => false
  end.

Definition grouped (l : list Item) : Prop :=
  exists pre blocks, l = pre ++ blocks /\ forallb is_plain pre = true
    /\ forallb block_ok blocks = true.

Definition ungroup_item (i : Item) : list Item :=
  match i with
  | Host (mkHostBlock hd _ b) => DirectiveItem hd :: b
  | Match (mkMatchBlock hd _ b) => DirectiveItem hd :: b
  | _ => [i]
  end.
Definition ungroup (l : list Item) : list Item := flat_map ungroup_item l.

(** Flat items: what one line can be. *)
Definition is_flat (i : Item) : bool :=
  match i with Host _ | Match _ => false | _ => true end.

Lemma take_body_plain l :
  forallb is_flat l = true -> forallb is_plain (take_body l).1 = true.
Proof.
  induction l as [|i l IH]; simpl; [done|]. intros. breflect.
  destruct (header_kind i) eqn:Hk; [done|].
  destruct (take_body l); simpl in *. rewrite IH by done.
  destruct i; simpl in *; try done. unfold is_none. by rewrite Hk.
Qed.

Lemma take_body_rest l :
  match (take_body l).2 with [] => True | i :: _ => is_some (header_kind i) = true end.
Proof.
  induction l as [|i l IH]; simpl; [done|].
  destruct (header_kind i) eqn:Hk; simpl; [by rewrite Hk|]. by destruct (take_body l).
Qed.

Lemma take_body_flat l :
  forallb is_flat l = true -> forallb is_flat (take_body l).2 = true.
Proof.
  intros H. rewrite <-(take_body_app l), forallb_app in H. by breflect.
Qed.

Lemma header_kind_inv i kind :
  header_kind i = Some kind ->
  exists hd, i = DirectiveItem hd /\
    key hd = match kind with HHost => lit "host" | HMatch => lit "match" end.
Proof.
  destruct i as [| |d| |]; simpl; try done.
  repeat case_bool_decide; intros; simplify_eq; eauto.
Qed.

(** The two equations of the grouping loop. *)
Lemma group_blocks_header hd kind rest :
  header_kind (DirectiveItem hd) = Some kind ->
  group_blocks (DirectiveItem hd :: rest) =
  make_block kind hd (take_body rest).1 :: group_blocks (take_body rest).2.
Proof.
  intros H. simp group_blocks. rewrite H. simpl. by simp group_blocks.
Qed.

Lemma group_blocks_plain i rest :
  header_kind i = None -> group_blocks (i :: rest) = i :: group_blocks rest.
Proof. intros H. simp group_blocks. rewrite H. simpl. by simp group_blocks. Qed.

(** Induction along the loop. *)
Lemma group_blocks_ind (P : list Item -> Prop) :
  P [] ->
  (forall i rest, header_kind i = None -> P rest -> P (i :: rest)) ->
  (forall hd kind rest, header_kind (DirectiveItem hd) = Some kind ->
     P (take_body rest).2 -> P (DirectiveItem hd :: rest)) ->
  forall flat, P flat.
Proof.
  intros H0 Hp Hh flat. remember (length flat) as n eqn:Hn. revert flat Hn.
  induction (lt_wf n) as [n _ IH]. intros [|i rest] ->; [done|].
  destruct (header_kind i) as [kind|] eqn:Hk.
  - destruct (header_kind_inv _ _ Hk) as (hd & -> & _). apply (Hh _ kind); [done|].
    pose proof (take_body_length rest). eapply IH; [|done]. simpl. lia.
  - apply Hp; [done|]. eapply IH; [|done]. simpl. lia.
Qed.

Lemma make_block_ungroup kind hd b : ungroup_item (make_block kind hd b) = DirectiveItem hd :: b.
Proof. by destruct kind. Qed.

Lemma make_block_lines kind hd b :
  item_lines (make_block kind hd b) = render_directive hd :: push_items b.
Proof. by destruct kind. Qed.

Lemma ungroup_group_blocks flat :
  forallb is_flat flat = true -> ungroup (group_blocks flat) = flat.
Proof.
  induction flat as [|i rest Hk IH|hd kind rest Hk IH] using group_blocks_ind; intros Hf.
  - done.
  - simpl in Hf. breflect. rewrite group_blocks_plain by done. simpl.
    rewrite IH by done. by destruct i.
  - simpl in Hf. rewrite (group_blocks_header _ kind) by done. simpl.
    rewrite make_block_ungroup, IH by (by apply take_body_flat). simpl.
    by rewrite take_body_app.
Qed.

Lemma push_items_group_blocks flat : push_items (group_blocks flat) = push_items flat.
Proof.
  induction flat as [|i rest Hk IH|hd kind rest Hk IH] using group_blocks_ind.
  - done.
  - rewrite group_blocks_plain by done. by rewrite !push_items_cons, IH.
  - rewrite (group_blocks_header _ kind) by done.
    rewrite !push_items_cons, make_block_lines, IH. simpl. f_equal.
    by rewrite <-push_items_app, take_body_app.
Qed.

Lemma group_blocks_blocks flat :
  forallb is_flat flat = true ->
  match flat with [] => True | i :: _ => is_some (header_kind i) = true end ->
  forallb block_ok (group_blocks flat) = true.
Proof.
  induction flat as [|i rest Hk IH|hd kind rest Hk IH] using group_blocks_ind; intros Hf Hh.
  - done.
  - by rewrite Hk in Hh.
  - simpl in Hf. rewrite (group_blocks_header _ kind) by done. simpl.
    rewrite IH; [|by apply take_body_flat|apply take_body_rest].
    destruct (header_kind_inv _ _ Hk) as (hd' & [= <-] & Hkey).
    destruct kind; simpl; by rewrite !bool_decide_true, take_body_plain.
Qed.

Lemma group_blocks_grouped flat :
  forallb is_flat flat = true -> grouped (group_blocks flat).
Proof.
  induction flat as [|i rest Hk IH|hd kind rest Hk IH] using group_blocks_ind; intros Hf.
  - by exists [], [].
  - simpl in Hf. breflect. rewrite group_blocks_plain by done.
    destruct IH as (pre & bl & -> & Hpre & Hbl); [done|].
    exists (i :: pre), bl. split_and!; [done| |done]. simpl. rewrite Hpre, andb_true_r.
    destruct i; simpl in *; try done. unfold is_none. by rewrite Hk.
  - exists [], (group_blocks (DirectiveItem hd :: rest)). split_and!; [done|done|].
    apply group_blocks_blocks; [done|]. by rewrite Hk.
Qed.

(** ** The theorems *)

Lemma ends_with_newline text :
  ends_with [10%N] text = true -> exists b, text = b ++ [10%N].
Proof.
  unfold ends_with, starts_with. destruct (strip_prefix _ _) as [r|] eqn:Hr; [|done].
  intros _. apply strip_prefix_Some in Hr. exists (reverse r).
  rewrite <-(reverse_involutive text), Hr. by rewrite reverse_app.
Qed.

Section Theorems.
Context {U : Unicode}.

Lemma line_item_lines line : item_lines (line_item line) = [line].
Proof.
  unfold line_item. destruct (classify_line line) as [| |d] eqn:Hc; try done.
  apply classify_line_clean in Hc as (Hraw & Hd & _). simpl.
  unfold render_directive. by rewrite Hd, Hraw.
Qed.

Lemma push_line_items ls : push_items (map line_item ls) = ls.
Proof.
  induction ls as [|l ls IH]; [done|]. simpl map.
  by rewrite push_items_cons, line_item_lines, IH.
Qed.

Lemma line_items_flat ls : forallb is_flat (map line_item ls) = true.
Proof.
  induction ls as [|l ls IH]; [done|]. simpl. rewrite IH, andb_true_r.
  unfold line_item. by destruct (classify_line l).
Qed.

Lemma parse_file_ungroup text :
  text <> [] ->
  ungroup (parse_file text).1 =
  map line_item (split_char 10
    (if ends_with [10%N] text then take (length text - 1) text else text)).
Proof.
  destruct text as [|c text0]; [done|]. intros _. unfold parse_file. cbv zeta.
  apply ungroup_group_blocks, line_items_flat.
Qed.

(** Reading and writing is the identity. *)
Lemma parse_serialize_text (text : str) : serialize_items (parse_file text).1 (parse_file text).2 = text.
Proof.
  unfold parse_file. destruct text as [|c text0] eqn:Htext; [done|]. rewrite <-Htext.
  cbv zeta. simpl fst. simpl snd. unfold serialize_items.
  rewrite push_items_group_blocks, push_line_items, join_split.
  destruct (ends_with [10%N] text) eqn:He; [|done].
  destruct (ends_with_newline _ He) as [b Hb]. rewrite Hb, length_app. simpl.
  replace (length b + 1 - 1) with (length b) by lia. by rewrite take_app_length.
Qed.

(** C1. Lossless editing rests on this: parsing any config text and
    serializing the unedited document gives back exactly the same text,
    whatever its comments, blanks, quoting, line endings or final newline. *)
Theorem parse_serialize_roundtrip (text : str) :
  serialize_items (parse_file text).1 (parse_file text).2 = text.
Proof. apply parse_serialize_text. Qed.

(** The lexer is byte faithful: whatever directive it produces from a
    line, the indent, keyword, separator, value, trailing whitespace and
    inline comment concatenate to that line; the directive is clean, enabled
    and keeps the line verbatim. *)
Lemma classify_line_lossless (line : str) (d : Directive)
    (Hd : classify_line line = LDirective d) :
  indent d ++ directive_body d = line /\ raw d = line /\ dirty d = false
  /\ enabled d = true /\ render_directive (with_dirty d true) = line.
Proof.
  pose proof (classify_line_faithful _ _ Hd) as Hf.
  destruct (classify_line_clean _ _ Hd) as (Hraw & Hdirty & Hen & _).
  split_and!; try done. unfold render_directive, serializes_as_comment.
  simpl. rewrite Hen. exact Hf.
Qed.

(** Block grouping: the parsed items are global lines followed by blocks
    only, every block carries its own header's patterns or criteria, no body
    holds a Host or Match line, and laying the blocks out flat gives exactly
    the items of the physical lines in order. *)
Lemma parse_file_grouped (text : str) :
  grouped (parse_file text).1 /\
  (text <> [] ->
   ungroup (parse_file text).1 =
   map line_item (split_char 10
     (if ends_with [10%N] text then take (length text - 1) text else text))).
Proof.
  split; [|apply parse_file_ungroup].
  unfold parse_file. destruct text as [|c text0]; [by exists [], []|].
  apply group_blocks_grouped, line_items_flat.
Qed.
End Theorems.

(** Witnesses: the ASCII instance on concrete lines. *)

Example parse_example :
  (parse_file (U := ascii_unicode) (lit "Host a b" ++ [10%N] ++ lit "  Port 22" ++ [10%N])).2
  = true.
Proof. vm_compute. reflexivity. Qed.
