(* ===== verification/ConfigEdit.v ===== *)
(** * ConfigEdit: structured edits of a Host block and of a file's items

    [src-tauri/src/config/edit.rs], and the tag reader of [dto.rs].  A mutable
    borrow of a block inside a file is the triple of what precedes it, the
    block and what follows it; each operation returns the edited block with
    the [bool] the source returns. *)

From S2P Require Import Prelude Text ConfigParser.

(** ** Finders *)

Definition has_pattern (alias : str) (h : HostBlock) : bool :=
  existsb (fun p => p =?= alias) (patterns h).

Definition is_host_named (alias : str) (i : Item) : bool :=
  match i with Host h => has_pattern alias h | _ => false end.

(** [find_host_mut]: the first Host block whose patterns contain [alias], in
    place. *)
Fixpoint find_host_mut (l : list Item) (alias : str) : option (list Item * HostBlock * list Item) :=
  match l with
  | [] => None
  | i :: l' =>
      match i with
      | Host h =>
          if has_pattern alias h then Some ([], h, l')
          else match find_host_mut l' alias with
               | Some (pre, h', post) => Some (i :: pre, h', post)
               | None => None
               end
      | _ => match find_host_mut l' alias with
             | Some (pre, h', post) => Some (i :: pre, h', post)
             | None => None
             end
      end
  end.

(** ** Field operations *)

Definition sanitize_value (v : str) : str := strip_crlf v.

(** A path with whitespace and no double quote is written in double quotes
    (code point 34). *)
Definition quote_spaced_path (v : str) : str :=
  if existsb is_whitespace v && negb (contains_char 34 v)
  then [34%N] ++ v ++ [34%N] else v.

Fixpoint infer_indent (b : list Item) : str :=
  match b with
  | [] => lit "    "
  | DirectiveItem d :: _ => indent d
  | _ :: b' => infer_indent b'
  end.

Definition is_directive (i : Item) : bool :=
  match i with DirectiveItem _ => true | _ => false end.

(** [Iterator::rposition]. *)
Definition rposition {A} (f : A -> bool) (l : list A) : option nat :=
  (fun i => length l - 1 - i) <$> position f (reverse l).

(** A live [IdentityFile] line: it takes effect on disk. *)
Definition is_live_identity (i : Item) : bool :=
  match i with
  | DirectiveItem d => (key d =?= lit "identityfile") && negb (serializes_as_comment d)
  | _ => false
  end.

Definition item_value (i : Item) : option str :=
  match i with DirectiveItem d => Some (value d) | _ => None end.

(** Indices of the items satisfying [f], counted from [n]. *)
Fixpoint indices_from {A} (f : A -> bool) (n : nat) (l : list A) : list nat :=
  match l with
  | [] => []
  | x :: l' => if f x then n :: indices_from f (S n) l' else indices_from f (S n) l'
  end.

Definition has_key (k : str) (i : Item) : bool :=
  match i with DirectiveItem d => key d =?= k | _ => false end.

Section Edit.
Context {U : Unicode}.

Definition insert_directive (h : HostBlock) (kw v : str) : HostBlock :=
  let ind := infer_indent (body h) in
  let insert_at :=
    match rposition is_directive (body h) with
    | Some i => i + 1
    | None => length (body h)
    end in
  set_body h (vec_insert insert_at (DirectiveItem (Directive_new kw v ind)) (body h)).

(** The loop over the body: the first directive with the key is compared and
    rewritten; [None] when there is none. *)
Fixpoint set_first (k v : str) (b : list Item) : option (list Item * bool) :=
  match b with
  | [] => None
  | DirectiveItem d :: b' =>
      if key d =?= k then
        if value d =?= v then Some (b, false)
        else Some (DirectiveItem (with_value d v) :: b', true)
      else match set_first k v b' with
           | Some (b'', c) => Some (DirectiveItem d :: b'', c)
           | None => None
           end
  | i :: b' => match set_first k v b' with
               | Some (b'', c) => Some (i :: b'', c)
               | None => None
               end
  end.

Definition set_host_field (h : HostBlock) (kw v : str) : HostBlock * bool :=
  let key_lower := to_lowercase kw in
  let v := sanitize_value v in
  match set_first key_lower v (body h) with
  | Some (b, changed) => (set_body h b, changed)
  | None => (insert_directive h kw v, true)
  end.

Definition rewrite_identity (v : str) (i : Item) : Item :=
  match i with
  | DirectiveItem d =>
      if value d =?= v then i else DirectiveItem (with_enabled (with_value d v) true)
  | _ => i
  end.

(** [replace_identity_files]: the edited block and the old live values. *)
Definition replace_identity_files (h : HostBlock) (v : str) : HostBlock * list str :=
  let v := quote_spaced_path (sanitize_value v) in
  match indices_from is_live_identity 0 (body h) with
  | [] => (insert_directive h (lit "IdentityFile") v, [])
  | first :: rest =>
      let old := omap (fun i => body h !! i ≫= item_value) (first :: rest) in
      let b := foldr vec_remove (body h) rest in
      (set_body h (alter (rewrite_identity v) first b), old)
  end.

(** [remove_host_field]. *)
Definition remove_host_field (h : HostBlock) (k : str) : HostBlock * bool :=
  match position (has_key (to_lowercase k)) (body h) with
  | Some pos => (set_body h (vec_remove pos (body h)), true)
  | None => (h, false)
  end.

(** [add_host]. *)
Definition add_host (l : list Item) (alias : str) (fields : list (str * str)) : list Item :=
  (l ++ [Blank []]) ++
  [Host (mkHostBlock (Directive_new (lit "Host") alias []) [alias]
           (map (fun f => DirectiveItem (Directive_new f.1 f.2 (lit "    "))) fields))].
End Edit.

Definition set_host_patterns (h : HostBlock) (ps : list str) : HostBlock * bool :=
  let tokens := List.filter (fun p => negb (p =?= [])) (map strip_crlf ps) in
  let v := join (lit " ") tokens in
  if value (header h) =?= v then (h, false)
  else (mkHostBlock (with_value (header h) v) tokens (body h), true).

(** ** Enable / disable *)

Definition set_directive_enabled (d : Directive) (e : bool) : Directive :=
  with_dirty (with_enabled d e) true.

Definition set_item_enabled (e : bool) (i : Item) : Item :=
  match i with DirectiveItem d => DirectiveItem (set_directive_enabled d e) | _ => i end.

Definition set_host_enabled (h : HostBlock) (e : bool) : HostBlock :=
  mkHostBlock (set_directive_enabled (header h) e) (patterns h) (map (set_item_enabled e) (body h)).

Definition remove_host (l : list Item) (alias : str) : list Item * bool :=
  match position (is_host_named alias) l with
  | Some pos => (vec_remove pos l, true)
  | None => (l, false)
  end.

(** ** Reorder *)

Definition is_host (i : Item) : bool := match i with Host _ => true | _ => false end.

(** One pass of the [for alias in alias_order] loop: the first unused host with
    the alias is taken. *)
Definition pick_host (hosts : list Item) (st : list nat * list bool) (alias : str)
  : list nat * list bool :=
  let '(order, used) := st in
  match position (fun e : bool * Item => negb e.1 && is_host_named alias e.2)
          (zip used hosts) with
  | Some i => (order ++ [i], <[i := true]> used)
  | None => st
  end.

Definition new_order (hosts : list Item) (alias_order : list str) : list nat :=
  let '(order, used) :=
    foldl (pick_host hosts) ([], replicate (length hosts) false) alias_order in
  order ++ indices_from negb 0 used.

Definition reorder_hosts (l : list Item) (alias_order : list str) : list Item :=
  let host_indices := indices_from is_host 0 l in
  let hosts := omap (fun i => l !! i) host_indices in
  let reordered := omap (fun i => hosts !! i) (new_order hosts alias_order) in
  foldl (fun acc e => <[e.1 := e.2]> acc) l (zip host_indices reordered).

(** ** Tags sentinel *)

Definition TAGS_PREFIX : str := lit "#tags:".

Definition is_sentinel (prefix : str) (i : Item) : bool :=
  match i with Comment s => starts_with prefix (trim_start s) | _ => false end.

Definition find_sentinel (b : list Item) (prefix : str) : option nat :=
  position (is_sentinel prefix) b.

Definition set_tags (h : HostBlock) (tags : list str) : HostBlock :=
  match tags with
  | [] =>
      match find_sentinel (body h) TAGS_PREFIX with
      | Some pos => set_body h (vec_remove pos (body h))
      | None => h
      end
  | _ =>
      let sentinel := TAGS_PREFIX ++ join (lit ",") tags in
      match find_sentinel (body h) TAGS_PREFIX with
      | Some pos => set_body h (<[pos := Comment sentinel]> (body h))
      | None => set_body h (vec_insert 0 (Comment sentinel) (body h))
      end
  end.

(** [dto::parse_tags]. *)
Fixpoint parse_tags (b : list Item) : list str :=
  match b with
  | [] => []
  | Comment s :: b' =>
      match strip_prefix TAGS_PREFIX (trim_start s) with
      | Some rest =>
          List.filter (fun t => negb (t =?= [])) (map trim (split_char 44 rest))
      | None => parse_tags b'
      end
  | _ :: b' => parse_tags b'
  end.

(** ** Lines and edits *)

(** The lines of [after] are those of [before] with one line replaced by, or one
    line inserted as, [new]. *)
Definition one_line_edit (before after : list str) (new : str) : Prop :=
  exists pre old post, before = pre ++ old ++ post /\ after = pre ++ [new] ++ post
    /\ length old <= 1.

Lemma one_line_edit_frame a b before after new :
  one_line_edit before after new -> one_line_edit (a ++ before ++ b) (a ++ after ++ b) new.
Proof.
  intros (pre & old & post & -> & -> & Hlen). exists (a ++ pre), old, (post ++ b).
  by rewrite !app_assoc.
Qed.

(** The first directive of a body with a given key. *)
Fixpoint first_directive (k : str) (b : list Item) : option Directive :=
  match b with
  | [] => None
  | DirectiveItem d :: b' => if key d =?= k then Some d else first_directive k b'
  | _ :: b' => first_directive k b'
  end.

(** A flat item whose fields hold no newline. *)
Definition clean_item (i : Item) : bool :=
  match i with
  | Blank s | Comment s => negb (contains_char 10 s)
  | DirectiveItem d => one_line d
  | Host _ | Match _ => false
  end.

Lemma clean_item_lines b :
  forallb clean_item b = true ->
  Forall (fun l => contains_char 10 l = false) (push_items b).
Proof.
  induction b as [|i b IH]; simpl; [constructor|]. intros. breflect.
  rewrite push_items_cons. apply Forall_app. split; [|auto].
  destruct i; simpl in *; try done; breflect; repeat constructor; try done.
  by apply render_one_line.
Qed.

Lemma push_items_ungroup l : push_items (ungroup l) = push_items l.
Proof.
  induction l as [|i l IH]; [done|]. simpl.
  rewrite push_items_app, IH, push_items_cons. f_equal.
  destruct i as [s|s|d|[hd ps b]|[hd c b]]; simpl;
    unfold push_items; simpl; by rewrite ?app_nil_r.
Qed.

Lemma one_line_with_value d v :
  one_line d = true -> contains_char 10 v = false -> one_line (with_value d v) = true.
Proof.
  unfold one_line, directive_body. simpl. rewrite !contains_char_app. intros Hd ->.
  breflect.
  repeat match goal with H : contains_char 10 _ = false |- _ => rewrite H; clear H end.
  done.
Qed.

Lemma find_host_mut_split l alias pre h post :
  find_host_mut l alias = Some (pre, h, post) ->
  l = pre ++ Host h :: post /\ has_pattern alias h = true
  /\ forallb (fun i => negb (is_host_named alias i)) pre = true.
Proof.
  revert pre. induction l as [|i l IH]; intros pre; simpl; [done|].
  destruct i as [s|s|d|h'|m];
    try (destruct (find_host_mut l alias) as [[[pre' h''] post']|]; [|done];
         intros [= <- <- <-]; destruct (IH _ eq_refl) as (-> & ? & ?); by split_and!).
  destruct (has_pattern alias h') eqn:Hp.
  - intros [= <- <- <-]. by split_and!.
  - destruct (find_host_mut l alias) as [[[pre' h''] post']|]; [|done].
    intros [= <- <- <-]. destruct (IH _ eq_refl) as (-> & ? & ?).
    simpl. rewrite Hp. by split_and!.
Qed.

Section FieldLemmas.
Context {U : Unicode}.

Lemma set_first_spec k v b b' c :
  set_first k v b = Some (b', c) ->
  exists pre d post, b = pre ++ DirectiveItem d :: post /\ key d = k
    /\ first_directive k pre = None
    /\ (if c then value d <> v /\ b' = pre ++ DirectiveItem (with_value d v) :: post
        else value d = v /\ b' = b).
Proof.
  revert b' c. induction b as [|i b IH]; intros b' c; simpl; [done|].
  destruct i as [s|s|d|h|m].
  3: { destruct (bool_decide (key d = k)) eqn:Hk.
    - breflect. case_bool_decide as Hv; intros [= <- <-]; by exists [], d, b.
    - destruct (set_first k v b) as [[b'' c']|]; [|done]. intros [= <- <-].
      destruct (IH _ _ eq_refl) as (pre & d' & post & -> & Hd' & Hp & Hc).
      exists (DirectiveItem d :: pre), d', post. simpl. rewrite Hk.
      split_and!; try done. destruct c'; destruct Hc as [? ->]; by split. }
  all: destruct (set_first k v b) as [[b'' c']|]; [|done]; intros [= <- <-];
    destruct (IH _ _ eq_refl) as (pre & d' & post & -> & Hd' & Hp & Hc).
  - exists (Blank s :: pre), d', post. split_and!; try done.
    destruct c'; destruct Hc as [? ->]; by split.
  - exists (Comment s :: pre), d', post. split_and!; try done.
    destruct c'; destruct Hc as [? ->]; by split.
  - exists (Host h :: pre), d', post. split_and!; try done.
    destruct c'; destruct Hc as [? ->]; by split.
  - exists (Match m :: pre), d', post. split_and!; try done.
    destruct c'; destruct Hc as [? ->]; by split.
Qed.

Lemma set_first_None k v b : set_first k v b = None <-> first_directive k b = None.
Proof.
  induction b as [|i b IH]; simpl; [done|].
  destruct i; try (destruct (set_first k v b) as [[]|]; naive_solver).
  case_bool_decide; [case_bool_decide; naive_solver|].
  destruct (set_first k v b) as [[]|]; naive_solver.
Qed.

Lemma first_directive_app k a b :
  first_directive k (a ++ b) =
  match first_directive k a with Some d => Some d | None => first_directive k b end.
Proof.
  induction a as [|i a IH]; simpl; [done|]. destruct i; try done. by case_bool_decide.
Qed.

Lemma first_directive_take k n b :
  first_directive k b = None ->
  first_directive k (take n b) = None /\ first_directive k (drop n b) = None.
Proof.
  intros H. rewrite <-(take_drop n b), first_directive_app in H.
  by destruct (first_directive k (take n b)).
Qed.

(** What [set_host_field] does, on every branch. *)
Lemma set_host_field_spec h kw v :
  let '(h', changed) := set_host_field h kw v in
  header h' = header h /\ patterns h' = patterns h
  /\ (changed = false -> h' = h)
  /\ (exists d, first_directive (to_lowercase kw) (body h') = Some d
                /\ value d = strip_crlf v)
  /\ exists pre post d,
      body h' = pre ++ DirectiveItem d :: post /\
      (changed = true ->
       (body h = pre ++ post /\ d = Directive_new kw (strip_crlf v) (infer_indent (body h)))
       \/ exists d0, body h = pre ++ DirectiveItem d0 :: post /\ d = with_value d0 (strip_crlf v)
                     /\ key d0 = to_lowercase kw).
Proof.
  unfold set_host_field, sanitize_value.
  destruct (set_first _ _ (body h)) as [[b c]|] eqn:Hs.
  - apply set_first_spec in Hs as (pre & d & post & Hb & Hk & Hp & Hc).
    destruct h as [hd ps b0]. simpl in *. subst b0.
    destruct c; destruct Hc as [Hv ->].
    + split_and!; try done.
      * exists (with_value d (strip_crlf v)). rewrite first_directive_app, Hp. simpl.
        by rewrite bool_decide_true.
      * exists pre, post, (with_value d (strip_crlf v)). split; [done|]. intros _. right. eauto.
    + split_and!; try done.
      * exists d. rewrite first_directive_app, Hp. simpl. by rewrite bool_decide_true.
      * exists pre, post, d. by split.
  - apply set_first_None in Hs. unfold insert_directive. destruct h as [hd ps b]. simpl in *.
    set (n := match rposition is_directive b with Some i => i + 1 | None => length b end).
    unfold vec_insert. destruct (first_directive_take _ n _ Hs) as [H1 H2].
    split_and!; try done.
    + exists (Directive_new kw (strip_crlf v) (infer_indent b)).
      rewrite first_directive_app, H1. simpl. rewrite bool_decide_true by done.
      split; [done|]. simpl. apply strip_crlf_id; apply strip_crlf_free.
    + exists (take n b), (drop n b), (Directive_new kw (strip_crlf v) (infer_indent b)).
      split; [done|]. intros _. left. split; [by rewrite take_drop|done].
Qed.
End FieldLemmas.

(** A parsed document: its flat items hold no newline. *)
Section DocLemmas.
Context {U : Unicode}.

Lemma line_item_clean line :
  contains_char 10 line = false -> clean_item (line_item line) = true.
Proof.
  intros Hl. unfold line_item. destruct (classify_line line) as [| |d] eqn:Hc; simpl.
  - by rewrite Hl.
  - by rewrite Hl.
  - pose proof (classify_line_faithful _ _ Hc) as Hf.
    apply classify_line_clean in Hc as (Hr & _).
    unfold one_line. rewrite Hr, Hl. rewrite <-Hf, contains_char_app in Hl. by breflect;
      repeat match goal with H : contains_char 10 _ = false |- _ => rewrite H; clear H end.
Qed.

Lemma parse_file_clean text :
  forallb clean_item (ungroup (parse_file text).1) = true.
Proof.
  destruct text as [|c text]; [done|].
  unfold parse_file. cbv zeta. cbn [fst]. rewrite ungroup_group_blocks by apply line_items_flat.
  apply forallb_elem. intros i (line & -> & Hl)%list_elem_of_fmap.
  apply line_item_clean. eapply split_char_free, Hl.
Qed.

(** The flat view of a document around one of its host blocks. *)
Lemma ungroup_host pre h post :
  ungroup (pre ++ Host h :: post) =
  ungroup pre ++ (DirectiveItem (header h) :: body h) ++ ungroup post.
Proof. unfold ungroup. rewrite flat_map_app. simpl. by destruct h. Qed.

Lemma host_lines_eq h : host_lines h = render_directive (header h) :: push_items (body h).
Proof. by destruct h. Qed.

Lemma set_host_field_lines h kw v h' :
  set_host_field h kw v = (h', true) ->
  exists new, one_line_edit (host_lines h) (host_lines h') new.
Proof.
  intros Hs. pose proof (set_host_field_spec h kw v) as Hspec. rewrite Hs in Hspec.
  destruct Hspec as (Hh & _ & _ & _ & pre & post & d & Hb' & Hcase).
  exists (render_directive d). rewrite !host_lines_eq, Hh, Hb'.
  destruct (Hcase eq_refl) as [[-> _]|(d0 & -> & _ & _)];
    rewrite ?push_items_app, ?push_items_cons.
  - exists (render_directive (header h) :: push_items pre), [], (push_items post).
    by split_and!; [..|simpl; lia].
  - exists (render_directive (header h) :: push_items pre), [render_directive d0],
      (push_items post). by split_and!.
Qed.

Lemma infer_indent_clean b :
  forallb clean_item b = true -> contains_char 10 (infer_indent b) = false.
Proof.
  induction b as [|i b IH]; simpl; [done|]. intros. breflect.
  destruct i; simpl in *; try done; auto. unfold one_line in *. by breflect.
Qed.

Lemma set_host_field_clean h kw v h' c :
  contains_char 10 kw = false ->
  forallb clean_item (DirectiveItem (header h) :: body h) = true ->
  set_host_field h kw v = (h', c) ->
  forallb clean_item (DirectiveItem (header h') :: body h') = true.
Proof.
  intros Hkw Hc Hs. pose proof (set_host_field_spec h kw v) as Hspec. rewrite Hs in Hspec.
  destruct Hspec as (Hh & _ & Hsame & _ & pre & post & d & Hb' & Hcase).
  destruct c; [|by rewrite Hsame].
  simpl in *. breflect. rewrite Hh, H. simpl. rewrite Hb', forallb_app. simpl.
  pose proof (strip_crlf_free v) as [Hv _].
  pose proof (infer_indent_clean _ H0) as Hi.
  destruct (Hcase eq_refl) as [[Hb ->]|(d0 & Hb & -> & _)];
    rewrite Hb in H0, Hi; rewrite forallb_app in H0; simpl in H0; breflect.
  - rewrite H0, H1, andb_true_r. unfold one_line, directive_body. simpl.
    rewrite !contains_char_app, Hkw. rewrite Hb, Hi. simpl. rewrite app_nil_r.
    destruct (strip_crlf_free (strip_crlf v)) as [-> _]. done.
  - rewrite H0, H2, andb_true_r. by apply one_line_with_value.
Qed.

(** Setting one field of a host in a parsed file changes exactly one
    physical line of the file (or adds exactly one), every other line is
    byte-identical, and no value can inject a further line: the serialized
    text splits back into exactly those lines. *)
Lemma set_host_field_one_line (text alias kw v : str) pre h post h'
    (Hfind : find_host_mut (parse_file text).1 alias = Some (pre, h, post))
    (Hkw : contains_char 10 kw = false)
    (Hset : set_host_field h kw v = (h', true)) :
  let before := (parse_file text).1 in
  let after := pre ++ Host h' :: post in
  (exists new, one_line_edit (push_items before) (push_items after) new)
  /\ split_char 10 (serialize_items after false) = push_items after.
Proof.
  intros before after. subst before after.
  destruct (find_host_mut_split _ _ _ _ _ Hfind) as (Hitems & _ & _).
  pose proof (parse_file_clean text) as Hclean. rewrite Hitems in Hclean |- *.
  rewrite ungroup_host, !forallb_app in Hclean.
  apply andb_true_iff in Hclean as [Hpre [Hhost Hpost]%andb_true_iff].
  split.
  - destruct (set_host_field_lines _ _ _ _ Hset) as [new Hnew]. exists new.
    rewrite !push_items_app, !push_items_cons. by apply one_line_edit_frame.
  - unfold serialize_items. apply split_join.
    { rewrite push_items_app, push_items_cons. simpl. rewrite host_lines_eq.
      intros [_ Hnil]%app_eq_nil. done. }
    rewrite <-push_items_ungroup. apply clean_item_lines.
    rewrite ungroup_host, !forallb_app, Hpre, Hpost.
    by rewrite (set_host_field_clean _ _ _ _ _ Hkw Hhost Hset).
Qed.

(** After setting a field, the first directive of that keyword in the
    block carries the value with its line breaks removed, the header and
    patterns are untouched, and setting the same value again changes nothing
    and reports no change. *)
Lemma set_host_field_get (h : HostBlock) (kw v : str) :
  let h' := (set_host_field h kw v).1 in
  (exists d, first_directive (to_lowercase kw) (body h') = Some d /\ value d = strip_crlf v)
  /\ header h' = header h /\ patterns h' = patterns h
  /\ set_host_field h' kw v = (h', false).
Proof.
  pose proof (set_host_field_spec h kw v) as Hspec.
  destruct (set_host_field h kw v) as [h' c] eqn:Hs. simpl.
  destruct Hspec as (Hh & Hp & _ & (d & Hd & Hv) & _). split_and!; [eauto|done|done|].
  unfold set_host_field, sanitize_value.
  destruct (set_first _ _ (body h')) as [[b c']|] eqn:Hf.
  - apply set_first_spec in Hf as (pre & d' & post & Hb & Hk & Hn & Hc').
    rewrite Hb, first_directive_app, Hn in Hd. simpl in Hd.
    rewrite bool_decide_true in Hd by done. injection Hd as ->.
    destruct c'; destruct Hc' as [Hv' Hb']; [done|].
    rewrite Hb'. by destruct h'.
  - apply set_first_None in Hf. congruence.
Qed.
End DocLemmas.

(** The hypothesis on the keyword is needed: the value is stripped of line
    breaks, the keyword is not, and a keyword with one writes two lines. *)
Example keyword_line_break_writes_two_lines :
  match find_host_mut (parse_file (U := ascii_unicode) (lit "Host a")).1 (lit "a") with
  | Some (pre, h, post) =>
      let h' := (set_host_field (U := ascii_unicode) h (lit "User me" ++ [10%N] ++ lit "ProxyCommand") (lit "x")).1 in
      push_items (parse_file (U := ascii_unicode) (serialize_items (pre ++ Host h' :: post) false)).1
  | None => []
  end = [lit "Host a"; lit "    User me"; lit "ProxyCommand x"].
Proof. vm_compute. reflexivity. Qed.
