(* ===== verification/ConfigEditProps.v ===== *)
(** * ConfigEditProps: what the block and file edits preserve

    Properties of [replace_identity_files], [set_host_enabled], [set_host_patterns],
    [remove_host_field], [add_host]/[remove_host], [reorder_hosts] and the tag
    sentinel. *)

From S2P Require Import Prelude Text ConfigParser ConfigEdit.

(** ** Index lists *)

Section Indices.
Context {A : Type} (f : A -> bool).

Lemma indices_from_remove pre l :
  foldr vec_remove (pre ++ l) (indices_from f (length pre) l) =
  pre ++ List.filter (fun x => negb (f x)) l.
Proof.
  revert pre. induction l as [|x l IH]; intros pre; simpl; [done|].
  specialize (IH (pre ++ [x])). rewrite length_app, <-app_assoc in IH. simpl in IH.
  replace (length pre + 1) with (S (length pre)) in IH by lia.
  destruct (f x); simpl; rewrite IH, <-app_assoc; [apply vec_remove_middle|done].
Qed.

Lemma indices_from_omap {B} (g : A -> option B) pre l :
  omap (fun i => (pre ++ l) !! i ≫= g) (indices_from f (length pre) l) =
  omap g (List.filter f l).
Proof.
  revert pre. induction l as [|x l IH]; intros pre; [done|].
  specialize (IH (pre ++ [x])). rewrite length_app, <-app_assoc in IH. simpl in IH.
  replace (length pre + 1) with (S (length pre)) in IH by lia.
  cbn [indices_from List.filter]. destruct (f x); [|exact IH].
  cbn [omap list_omap]. rewrite list_lookup_middle by done. cbn. by rewrite IH.
Qed.

Lemma indices_from_cons n l i rest :
  indices_from f n l = i :: rest ->
  exists l1 x l2, l = l1 ++ x :: l2 /\ i = n + length l1 /\ f x = true
    /\ forallb (fun y => negb (f y)) l1 = true /\ rest = indices_from f (S i) l2.
Proof.
  revert n. induction l as [|x l IH]; intros n; simpl; [done|].
  destruct (f x) eqn:Hx.
  - intros [= <- <-]. exists [], x, l. simpl. by rewrite Nat.add_0_r.
  - intros H. destruct (IH _ H) as (l1 & y & l2 & -> & -> & Hy & Hall & ->).
    exists (x :: l1), y, l2. simpl. rewrite Hx, Hall.
    split_and!; try done; try lia; f_equal; lia.
Qed.

Lemma indices_from_nil n l : indices_from f n l = [] -> List.filter f l = [].
Proof.
  revert n. induction l as [|x l IH]; intros n; simpl; [done|].
  destruct (f x); [done|]. apply IH.
Qed.

Lemma filter_none l : forallb (fun y => negb (f y)) l = true -> List.filter f l = [].
Proof.
  induction l as [|x l IH]; simpl; [done|]. intros [Hx Hl]%andb_true_iff.
  apply negb_true_iff in Hx. rewrite Hx. auto.
Qed.
End Indices.

Lemma filter_not_filter {A} (f : A -> bool) l :
  List.filter f (List.filter (fun x => negb (f x)) l) = [].
Proof. induction l as [|x l IH]; simpl; [done|]. destruct (f x) eqn:Hx; simpl; [done|]. by rewrite Hx. Qed.

Lemma filter_idem {A} (f : A -> bool) l : List.filter f (List.filter f l) = List.filter f l.
Proof. induction l as [|x l IH]; simpl; [done|]. destruct (f x) eqn:Hx; simpl; [|done]. by rewrite Hx, IH. Qed.

(** ** Pointing a host at one key *)

Lemma quote_spaced_free v :
  contains_char 10 v = false -> contains_char 13 v = false ->
  contains_char 10 (quote_spaced_path v) = false /\ contains_char 13 (quote_spaced_path v) = false.
Proof.
  intros H1 H2. unfold quote_spaced_path. destruct (_ && _); [|done].
  by rewrite !contains_char_app, H1, H2.
Qed.

Lemma rewrite_identity_live v i :
  is_live_identity i = true ->
  is_live_identity (rewrite_identity v i) = true /\ item_value (rewrite_identity v i) = Some v.
Proof.
  destruct i as [| |d| |]; simpl; try done. intros Hl.
  destruct (bool_decide (value d = v)) eqn:Hv; [apply bool_decide_eq_true_1 in Hv; by subst|]. simpl.
  unfold serializes_as_comment in *. simpl in *. breflect. by rewrite bool_decide_true.
Qed.

Section IdentityFiles.
Context {U : Unicode}.

Lemma new_identity_live v ind :
  contains_char 10 v = false -> contains_char 13 v = false ->
  is_live_identity (DirectiveItem (Directive_new (lit "IdentityFile") v ind)) = true
  /\ item_value (DirectiveItem (Directive_new (lit "IdentityFile") v ind)) = Some v.
Proof.
  intros H1 H2. simpl. rewrite to_lowercase_ascii by done.
  rewrite bool_decide_true by done. rewrite strip_crlf_id by done. done.
Qed.

(** Exporting a key to a host leaves exactly one live IdentityFile line,
    with the requested (quoted when needed) path and no line break in it;
    the values it replaces are reported in order, and every other line of
    the block, commented-out keys included, is kept. *)
Lemma replace_identity_files_one_live (h : HostBlock) (v : str) :
  let v' := quote_spaced_path (strip_crlf v) in
  let '(h', old) := replace_identity_files h v in
  omap item_value (List.filter is_live_identity (body h')) = [v']
  /\ List.filter (fun i => negb (is_live_identity i)) (body h')
     = List.filter (fun i => negb (is_live_identity i)) (body h)
  /\ old = omap item_value (List.filter is_live_identity (body h))
  /\ contains_char 10 v' = false
  /\ header h' = header h /\ patterns h' = patterns h.
Proof.
  intros v'.
  assert (Hv : contains_char 10 v' = false /\ contains_char 13 v' = false)
    by (apply quote_spaced_free; apply strip_crlf_free).
  unfold replace_identity_files, sanitize_value. fold v'. destruct h as [hd ps b]. cbn [body].
  destruct (indices_from is_live_identity 0 b) as [|first rest] eqn:Hi.
  - unfold insert_directive. simpl. destruct Hv as [Hv1 Hv2].
    destruct (new_identity_live v' (infer_indent b) Hv1 Hv2) as [Hlive Hval].
    pose proof (indices_from_nil _ _ _ Hi) as Hnil.
    set (n := match rposition is_directive b with Some i => i + 1 | None => length b end).
    unfold vec_insert. rewrite !List.filter_app. cbn [List.filter]. rewrite Hlive. simpl negb.
    pose proof Hnil as Hnil2. rewrite <-(take_drop n b), List.filter_app in Hnil2.
    apply app_eq_nil in Hnil2 as [-> ->]. rewrite Hnil.
    split_and!; try done; [|by rewrite <-List.filter_app, take_drop].
    cbn [app omap list_omap]. by rewrite Hval.
  - pose proof (indices_from_omap is_live_identity item_value [] b) as Hold.
    simpl app in Hold. simpl length in Hold. rewrite Hi in Hold. rewrite Hold.
    clear Hold.
    destruct (indices_from_cons _ _ _ _ _ Hi) as (l1 & x & l2 & -> & -> & Hx & Hl1 & ->).
    simpl plus in *.
    pose proof (indices_from_remove is_live_identity (l1 ++ [x]) l2) as Hrem.
    rewrite length_app, <-app_assoc in Hrem. simpl in Hrem.
    replace (length l1 + 1) with (S (length l1)) in Hrem by lia. rewrite Hrem.
    rewrite <-app_assoc. cbn [app].
    replace (alter _ _ _) with
      (l1 ++ rewrite_identity v' x :: List.filter (fun y => negb (is_live_identity y)) l2)
      by (rewrite <-(Nat.add_0_r (length l1)), alter_app_r; done).
    destruct (rewrite_identity_live v' x Hx) as [Hlive Hval].
    cbn [body header patterns set_body].
    rewrite !List.filter_app. cbn [List.filter]. rewrite Hlive, Hx. simpl negb.
    rewrite (filter_none _ _ Hl1), filter_not_filter, filter_idem.
    split_and!; try done; [|by destruct Hv].
    cbn [app omap list_omap]. by rewrite Hval.
Qed.
End IdentityFiles.

(** ** Reordering *)

(** Filling the host slots of a file, in order, from a list. *)
Fixpoint fill_hosts (l hs : list Item) : list Item :=
  match l with
  | [] => []
  | x :: l' =>
      if is_host x then
        match hs with
        | h :: hs' => h :: fill_hosts l' hs'
        | [] => x :: fill_hosts l' []
        end
      else x :: fill_hosts l' hs
  end.

Lemma insert_slots pre l hs :
  foldl (fun acc (e : nat * Item) => <[e.1 := e.2]> acc) (pre ++ l)
    (zip (indices_from is_host (length pre) l) hs) = pre ++ fill_hosts l hs.
Proof.
  revert pre hs. induction l as [|x l IH]; intros pre hs; simpl; [done|].
  assert (Hnext : forall y hs', foldl (fun acc (e : nat * Item) => <[e.1 := e.2]> acc)
      (pre ++ y :: l) (zip (indices_from is_host (S (length pre)) l) hs')
      = pre ++ y :: fill_hosts l hs').
  { intros y hs'. specialize (IH (pre ++ [y]) hs').
    rewrite length_app, <-!app_assoc in IH. simpl in IH.
    by replace (length pre + 1) with (S (length pre)) in IH by lia. }
  destruct (is_host x); [|apply Hnext]. destruct hs as [|h hs]; simpl.
  - specialize (Hnext x []). by destruct (indices_from is_host (S (length pre)) l).
  - rewrite <-(Nat.add_0_r (length pre)) at 1. rewrite insert_app_r. apply Hnext.
Qed.

Lemma fill_hosts_frame l hs :
  forallb is_host hs = true ->
  map is_host (fill_hosts l hs) = map is_host l
  /\ List.filter (fun i => negb (is_host i)) (fill_hosts l hs)
     = List.filter (fun i => negb (is_host i)) l.
Proof.
  revert hs. induction l as [|x l IH]; intros hs Hhs; simpl; [done|].
  destruct (is_host x) eqn:Hx; simpl.
  - destruct hs as [|h hs]; simpl in *; [|breflect]; rewrite ?Hx, ?H; simpl.
    + destruct (IH [] eq_refl) as [-> ->]. done.
    + destruct (IH hs) as [-> ->]; done.
  - rewrite Hx. simpl. destruct (IH hs Hhs) as [-> ->]. done.
Qed.

Lemma fill_hosts_filter l hs :
  forallb is_host hs = true -> length hs = length (List.filter is_host l) ->
  List.filter is_host (fill_hosts l hs) = hs.
Proof.
  revert hs. induction l as [|x l IH]; intros hs Hhs Hlen; simpl in *.
  - by destruct hs.
  - destruct (is_host x) eqn:Hx; simpl in *.
    + destruct hs as [|h hs]; simpl in *; [done|]. breflect. rewrite H.
      f_equal. apply IH; [done|lia].
    + rewrite Hx. auto.
Qed.

Lemma elem_of_indices_from (u : list bool) n i :
  i ∈ indices_from negb n u <-> n <= i /\ u !! (i - n) = Some false.
Proof.
  revert n. induction u as [|b u IH]; intros n; simpl.
  - split; [intros H; by apply elem_of_nil in H|]. intros [_ H]. by rewrite lookup_nil in H.
  - assert (Hrest : i ∈ indices_from negb (S n) u <->
      n <= i /\ i <> n /\ (b :: u) !! (i - n) = Some false).
    { rewrite IH. destruct (decide (i <= n)).
      - split; [lia|]. intros (? & ? & _). lia.
      - replace (i - n) with (S (i - S n)) by lia. simpl. intuition lia. }
    destruct b; simpl; rewrite ?elem_of_cons, Hrest.
    + split; [tauto|]. intros [Hle Hl]. split_and!; try done. intros ->.
      by rewrite Nat.sub_diag in Hl.
    + split.
      * intros [->|?]; [|tauto]. by rewrite Nat.sub_diag.
      * intros [Hle Hl]. destruct (decide (i = n)); [by left|right]. done.
Qed.

Lemma NoDup_indices_from (u : list bool) n : NoDup (indices_from negb n u).
Proof.
  revert n. induction u as [|b u IH]; intros n; simpl; [constructor|].
  destruct b; simpl; [done|]. constructor; [|done]. rewrite elem_of_indices_from. lia.
Qed.

(** The invariant of the pick loop: the picked indices are distinct and are
    exactly the used ones. *)
Definition pick_inv (n : nat) (st : list nat * list bool) : Prop :=
  length st.2 = n /\ NoDup st.1 /\ (forall i, i ∈ st.1 <-> st.2 !! i = Some true).

Lemma pick_host_inv hosts st alias :
  pick_inv (length hosts) st -> pick_inv (length hosts) (pick_host hosts st alias).
Proof.
  destruct st as [order used]. intros (Hlen & Hnd & Hmem). simpl in *.
  destruct (position _ _) as [i|] eqn:Hp; [|done].
  apply position_Some in Hp as (l1 & [b it] & l2 & Hz & Hi & Hb & _). simpl in Hb. breflect.
  assert (Hu : used !! i = Some false).
  { assert (Hl : zip used hosts !! i = Some (b, it)) by (by rewrite Hz, list_lookup_middle).
    apply lookup_zip_with_Some in Hl as (x & y & [= -> ->] & Hx & _). by destruct x. }
  split_and!; simpl.
  - by rewrite length_insert.
  - apply NoDup_app. split_and!; [done| |apply NoDup_singleton].
    intros j Hj ->%list_elem_of_singleton. apply Hmem in Hj. congruence.
  - intros j. rewrite elem_of_app, list_elem_of_singleton, Hmem.
    destruct (decide (i = j)) as [->|Hne].
    + rewrite list_lookup_insert_eq by (by eapply lookup_lt_Some). naive_solver.
    + rewrite list_lookup_insert_ne by done. naive_solver.
Qed.

Lemma pick_hosts_inv hosts as_ st :
  pick_inv (length hosts) st -> pick_inv (length hosts) (foldl (pick_host hosts) st as_).
Proof.
  revert st. induction as_ as [|a as_ IH]; intros st Hst; simpl; [done|].
  apply IH. by apply pick_host_inv.
Qed.

Lemma pick_init n : pick_inv n ([], replicate n false).
Proof.
  split_and!; simpl; [apply length_replicate|constructor|]. intros i. split.
  - intros H. by apply elem_of_nil in H.
  - intros H. apply lookup_replicate in H. naive_solver.
Qed.

Lemma new_order_perm hosts as_ : new_order hosts as_ ≡ₚ seq 0 (length hosts).
Proof.
  unfold new_order. pose proof (pick_hosts_inv hosts as_ _ (pick_init (length hosts))) as Hinv.
  destruct (foldl _ _ _) as [order used]. destruct Hinv as (Hlen & Hnd & Hmem). simpl in *.
  apply NoDup_Permutation.
  - apply NoDup_app. split_and!; [done| |apply NoDup_indices_from].
    intros i Hi. rewrite elem_of_indices_from, Nat.sub_0_r. apply Hmem in Hi. intros [_ ?].
    congruence.
  - apply NoDup_seq.
  - intros i. rewrite elem_of_app, elem_of_indices_from, Hmem, elem_of_seq, Nat.sub_0_r.
    rewrite <-Hlen. split.
    + intros [H|[_ H]]; apply lookup_lt_Some in H; lia.
    + intros [_ H]. apply lookup_lt_is_Some in H as [[] ?]; naive_solver lia.
Qed.

Lemma omap_lookup_seq {A} (l : list A) : omap (fun i => l !! i) (seq 0 (length l)) = l.
Proof.
  induction l as [|x l IH]; [done|]. cbn [length seq omap list_omap].
  change ((x :: l) !! 0) with (Some x). cbn. f_equal.
  rewrite <-IH at 2. rewrite <-fmap_S_seq. generalize (seq 0 (length l)) as ns.
  induction ns as [|n ns IHn]; [done|]. cbn. destruct (l !! n); [f_equal|]; exact IHn.
Qed.

Lemma omap_perm {A B} (f : A -> option B) l1 l2 : l1 ≡ₚ l2 -> omap f l1 ≡ₚ omap f l2.
Proof. intros H. by rewrite H. Qed.

Lemma host_slots_from pre l :
  omap (fun i => (pre ++ l) !! i) (indices_from is_host (length pre) l) = List.filter is_host l.
Proof.
  revert pre. induction l as [|x l IH]; intros pre; [done|].
  specialize (IH (pre ++ [x])). rewrite length_app, <-app_assoc in IH. simpl in IH.
  replace (length pre + 1) with (S (length pre)) in IH by lia.
  cbn [indices_from List.filter]. destruct (is_host x); [|exact IH].
  cbn [omap list_omap]. rewrite list_lookup_middle by done. cbn. by rewrite IH.
Qed.

Lemma host_slots l : omap (fun i => l !! i) (indices_from is_host 0 l) = List.filter is_host l.
Proof. exact (host_slots_from [] l). Qed.

Lemma reorder_hosts_fill l as_ :
  exists hs, reorder_hosts l as_ = fill_hosts l hs
    /\ hs ≡ₚ List.filter is_host l
    /\ hs = omap (fun i => List.filter is_host l !! i) (new_order (List.filter is_host l) as_).
Proof.
  unfold reorder_hosts. rewrite host_slots. eexists. split; [apply (insert_slots [])|].
  split; [|done]. rewrite (omap_perm _ _ _ (new_order_perm _ as_)).
  by rewrite omap_lookup_seq.
Qed.

(** Picking only appends, so what the first alias takes stays first. *)
Lemma pick_hosts_prefix hosts as_ order used :
  exists more used', foldl (pick_host hosts) (order, used) as_ = (order ++ more, used').
Proof.
  revert order used. induction as_ as [|a as_ IH]; intros order used; simpl.
  - exists [], used. by rewrite app_nil_r.
  - destruct (position _ _) as [i|]; [|apply IH].
    destruct (IH (order ++ [i]) (<[i:=true]> used)) as (more & used' & ->).
    exists ([i] ++ more), used'. by rewrite app_assoc.
Qed.

Lemma position_unused hosts alias :
  position (fun e : bool * Item => negb e.1 && is_host_named alias e.2)
    (zip (replicate (length hosts) false) hosts) = position (is_host_named alias) hosts.
Proof.
  induction hosts as [|h hosts IH]; simpl; [done|]. by rewrite IH.
Qed.

(** Reordering hosts permutes the Host blocks among their own slots: the
    slots stay where they are, every other item (comments, blanks, global
    directives, Match blocks) keeps its content and position, no block is lost
    or duplicated, and the first host carrying the first requested alias comes
    first. *)
Lemma reorder_hosts_permutes (l : list Item) (alias : str) (rest : list str) :
  let r := reorder_hosts l (alias :: rest) in
  map is_host r = map is_host l
  /\ List.filter (fun i => negb (is_host i)) r = List.filter (fun i => negb (is_host i)) l
  /\ List.filter is_host r ≡ₚ List.filter is_host l
  /\ (forall i, position (is_host_named alias) (List.filter is_host l) = Some i ->
        head (List.filter is_host r) = List.filter is_host l !! i).
Proof.
  destruct (reorder_hosts_fill l (alias :: rest)) as (hs & -> & Hperm & Hhs). cbv zeta.
  assert (Hhost : forallb is_host hs = true).
  { apply forallb_elem. intros x Hx. rewrite Hperm in Hx.
    apply list_elem_of_In, filter_In in Hx. tauto. }
  destruct (fill_hosts_frame l hs Hhost) as [-> ->].
  rewrite fill_hosts_filter by (done || by rewrite Hperm).
  split_and!; try done. intros i Hi. rewrite Hhs. unfold new_order. simpl foldl.
  rewrite position_unused, Hi. simpl app.
  destruct (pick_hosts_prefix (List.filter is_host l) rest [i]
    (<[i:=true]> (replicate (length (List.filter is_host l)) false))) as (more & used' & ->).
  simpl. apply position_Some in Hi as (l1 & x & l2 & -> & <- & _).
  by rewrite list_lookup_middle by done.
Qed.

(** ** Disabling *)

Lemma trim_start_ws w s :
  forallb is_whitespace w = true -> trim_start (w ++ s) = trim_start s.
Proof.
  unfold trim_start. induction w as [|c w IH]; simpl; [done|]. intros. breflect.
  rewrite H. auto.
Qed.

Lemma trim_start_indent s :
  forallb is_whitespace (take (length s - length (trim_start s)) s) = true.
Proof.
  destruct (trim_start_suffix s) as (w & Hs & Hw).
  revert Hs. generalize (trim_start s) as t. intros t ->. rewrite length_app.
  replace (length w + length t - length t) with (length w) by lia.
  by rewrite take_app_length.
Qed.

Section Disable.
Context {U : Unicode}.

Lemma classify_indent line d :
  classify_line line = LDirective d -> forallb is_whitespace (indent d) = true.
Proof.
  unfold classify_line. destruct (forallb _ _); [done|]. case_match; [done|].
  destruct (break_at _ _). destruct (scan_separator _ _).
  destruct (split_value_comment _) as [[??]?]. intros [= <-]. apply trim_start_indent.
Qed.

Lemma classify_comment w s :
  forallb is_whitespace w = true -> classify_line (w ++ lit "#" ++ s) = LComment.
Proof.
  intros Hw. unfold classify_line. rewrite forallb_app.
  replace (forallb is_whitespace (lit "#" ++ s)) with false by done.
  rewrite andb_false_r, trim_start_ws by done. done.
Qed.

Lemma disabled_is_comment d :
  forallb is_whitespace (indent d) = true ->
  classify_line (render_directive (set_directive_enabled d false)) = LComment.
Proof. intros Hw. apply (classify_comment (indent d) (lit " " ++ _) Hw). Qed.

(** A line that is not a directive of the file it stands in. *)
Definition inert (line : str) : Prop := forall d, classify_line line <> LDirective d.

Lemma disabled_line_inert line :
  Forall inert (item_lines (set_item_enabled false (line_item line))).
Proof.
  unfold line_item. destruct (classify_line line) as [| |d] eqn:Hc; simpl;
    repeat constructor; intros d' Hd'; try congruence.
  rewrite disabled_is_comment in Hd' by (by eapply classify_indent). done.
Qed.

Lemma push_set_enabled ls :
  Forall inert (push_items (map (set_item_enabled false) (map line_item ls))).
Proof.
  induction ls as [|l ls IH]; [constructor|]. simpl map. rewrite push_items_cons.
  apply Forall_app. split; [apply disabled_line_inert|done].
Qed.

(** Disabling a host of a parsed file comments it out completely: no line
    of the block as written to disk is a directive any more (so ssh and a
    reload see neither the Host line nor any of its options), and the number
    of lines is unchanged. *)
Lemma disabled_host_inert (text alias : str) pre h post
    (Hfind : find_host_mut (parse_file text).1 alias = Some (pre, h, post)) :
  Forall inert (host_lines (set_host_enabled h false))
  /\ length (host_lines (set_host_enabled h false)) = length (host_lines h).
Proof.
  destruct (find_host_mut_split _ _ _ _ _ Hfind) as (Hitems & _ & _).
  assert (Hls : exists ls, DirectiveItem (header h) :: body h = map line_item ls).
  { assert (Hne : text <> []) by (intros ->; by destruct pre).
    pose proof (parse_file_ungroup text Hne) as Hun.
    rewrite Hitems, ungroup_host in Hun. symmetry in Hun.
    apply map_eq_app in Hun as (l1 & l2 & _ & _ & Hun).
    apply map_eq_app in Hun as (l3 & l4 & _ & Hun & _). eauto. }
  destruct Hls as [ls Hls].
  assert (Heq : host_lines (set_host_enabled h false) =
    push_items (map (set_item_enabled false) (DirectiveItem (header h) :: body h)))
    by (by destruct h).
  split.
  - rewrite Heq, Hls. apply push_set_enabled.
  - assert (Heq2 : host_lines h = push_items (DirectiveItem (header h) :: body h))
      by (by destruct h).
    rewrite Heq, Heq2, Hls. clear. induction ls as [|l ls IH]; [done|]. simpl map.
    rewrite !push_items_cons, !length_app. rewrite IH. f_equal.
    unfold line_item. by destruct (classify_line l).
Qed.
End Disable.

(** ** Re-reading what was written *)

Lemma break_at_stop p a c s :
  forallb (fun x => negb (p x)) a = true -> p c = true -> break_at p (a ++ c :: s) = (a, c :: s).
Proof.
  intros Ha Hc. induction a as [|x a IH]; simpl in *; [by rewrite Hc|].
  breflect. rewrite H. by rewrite IH.
Qed.

(** A keyword and a value that can be read back from the line they are written
    to: the value neither starts with whitespace or an equals sign, nor ends
    with whitespace, nor holds a comment outside quotes. *)
Definition plain_keyword (kw : str) : bool :=
  negb (kw =?= []) && forallb (fun c => negb (is_whitespace c || (c =? 61)%N)) kw
  && negb (starts_with (lit "#") kw).

Definition plain_value (v : str) : bool :=
  is_some_and (fun c => negb (is_whitespace c || (c =? 61)%N)) (head v)
  && is_some_and (fun c => negb (is_whitespace c)) (last v)
  && is_none (comment_index false v).

Section Reread.
Context {U : Unicode}.

Lemma classify_written kw v ind :
  plain_keyword kw = true -> plain_value v = true ->
  forallb is_whitespace ind = true ->
  exists d, classify_line (ind ++ kw ++ lit " " ++ v) = LDirective d
    /\ keyword d = kw /\ key d = to_lowercase kw /\ value d = v /\ indent d = ind
    /\ inline_comment d = None /\ trailing_ws d = [].
Proof.
  unfold plain_keyword, plain_value. intros Hkw Hv Hi.
  apply andb_true_iff in Hkw as [[Hne Hall]%andb_true_iff Hhash].
  apply andb_true_iff in Hv as [[Hhd Hlst]%andb_true_iff Hcm].
  destruct kw as [|k0 kw]; [done|].
  pose proof Hall as [Hk0 _]%andb_true_iff.
  apply negb_true_iff, orb_false_iff in Hk0 as [Hk0 _].
  destruct v as [|c v]; [done|]. cbn [head is_some_and] in Hhd.
  apply negb_true_iff, orb_false_iff in Hhd as [Hc1 Hc2].
  destruct (last (c :: v)) as [e|] eqn:Hlast; [|done]. cbn [is_some_and] in Hlst.
  apply negb_true_iff in Hlst.
  unfold is_none, is_some in Hcm. destruct (comment_index false (c :: v)) eqn:Hci; [done|].
  unfold classify_line.
  replace (forallb is_whitespace (ind ++ _)) with false.
  2: { rewrite forallb_app. cbn [app forallb]. rewrite Hk0. by rewrite andb_false_r. }
  assert (Htrim : trim_start (ind ++ (k0 :: kw) ++ lit " " ++ c :: v) =
                  (k0 :: kw) ++ lit " " ++ c :: v).
  { rewrite trim_start_ws by done. unfold trim_start. cbn [app drop_while]. by rewrite Hk0. }
  rewrite Htrim. cbv zeta.
  replace (starts_with (lit "#") ((k0 :: kw) ++ lit " " ++ c :: v)) with false.
  2: { symmetry. apply negb_true_iff in Hhash. etransitivity; [|exact Hhash]. unfold starts_with.
       change (lit "#") with [35%N]. cbn [app strip_prefix]. by destruct (35 =? k0)%N. }
  change (lit " ") with [32%N]. cbn [app].
  change (k0 :: kw ++ 32%N :: c :: v) with ((k0 :: kw) ++ 32%N :: c :: v).
  rewrite break_at_stop by done.
  assert (Hscan : scan_separator false (32%N :: c :: v) = (1, false)).
  { cbn [scan_separator]. replace ((32 =? 61)%N && negb false) with false by done.
    replace (is_whitespace 32) with true by done.
    rewrite Hc2. cbn [andb]. by rewrite Hc1. }
  rewrite Hscan. cbn [drop].
  unfold split_value_comment. rewrite Hci.
  rewrite (trim_end_id _ e) by done. rewrite drop_all.
  eexists. split; [reflexivity|]. split_and!; try done. cbn [indent].
  rewrite length_app.
  replace (length ind + _ - _) with (length ind) by lia. by rewrite take_app_length.
Qed.

Lemma written_directive kw v ind :
  contains_char 10 v = false -> contains_char 13 v = false ->
  render_directive (Directive_new kw v ind) = ind ++ kw ++ lit " " ++ v.
Proof.
  intros H1 H2. unfold render_directive, directive_body. simpl.
  rewrite strip_crlf_id by done. by rewrite app_nil_r.
Qed.

(** What the editor writes, the lexer reads back: a freshly created
    directive line, once on disk, is lexed to a directive with the same
    keyword, key, value and indent. *)
Lemma new_directive_reread (kw v ind : str)
    (Hkw : plain_keyword kw = true) (Hv : plain_value v = true)
    (Hnl : contains_char 10 v = false) (Hcr : contains_char 13 v = false)
    (Hind : forallb is_whitespace ind = true) :
  exists d, classify_line (render_directive (Directive_new kw v ind)) = LDirective d
    /\ keyword d = kw /\ key d = to_lowercase kw /\ value d = v /\ indent d = ind
    /\ inline_comment d = None /\ trailing_ws d = [].
Proof. rewrite written_directive by done. by apply classify_written. Qed.
End Reread.

(** ** Patterns *)

Lemma strip_crlf_token t : is_token t = true -> strip_crlf t = t.
Proof.
  unfold is_token. intros. breflect. apply strip_crlf_id; apply contains_char_free;
    intros x Hx ->; by apply (proj1 (forallb_elem _ _) H0) in Hx.
Qed.

(** Renaming a host keeps the block well formed and touches its Host line
    only: with whitespace-free pattern tokens the stored patterns are exactly
    the tokens a reader splits off the rewritten line, the body and the
    keyword, separator, indent and inline comment of the line are kept, and
    the result reports a change precisely when the line's value differs. *)
Lemma set_host_patterns_ok (h : HostBlock) (ps : list str)
    (Hb : block_ok (Host h) = true) (Hps : forallb is_token ps = true) :
  let '(h', changed) := set_host_patterns h ps in
  block_ok (Host h') = true /\ patterns h' = ps /\ body h' = body h
  /\ value (header h') = join (lit " ") ps
  /\ (changed = false <-> value (header h) = join (lit " ") ps)
  /\ keyword (header h') = keyword (header h) /\ separator (header h') = separator (header h)
  /\ indent (header h') = indent (header h)
  /\ inline_comment (header h') = inline_comment (header h).
Proof.
  unfold set_host_patterns. destruct h as [hd pats b].
  assert (Htok : List.filter (fun p => negb (p =?= [])) (map strip_crlf ps) = ps).
  { clear Hb. induction ps as [|p ps IH]; [done|]. simpl in *. breflect.
    rewrite strip_crlf_token by done. unfold is_token in H. breflect.
    rewrite bool_decide_false by done. simpl. by rewrite IH. }
  rewrite Htok. cbn [header patterns body]. cbn [block_ok] in Hb. breflect.
  case_bool_decide as Hv; cbn [header patterns body block_ok].
  - assert (pats = ps) as -> by (rewrite H1, Hv; by apply split_ws_join).
    split_and!; try done. by rewrite !bool_decide_true, H0.
  - split_and!; try done.
    + simpl. rewrite !bool_decide_true; [done| |done]. by rewrite split_ws_join.
Qed.

(** ** Tags *)

Definition is_tag (t : str) : bool :=
  negb (t =?= []) && (trim t =?= t) && negb (contains_char 44 t).

Lemma parse_tags_sentinel pre ts post :
  forallb (fun i => negb (is_sentinel TAGS_PREFIX i)) pre = true ->
  forallb is_tag ts = true -> ts <> [] ->
  parse_tags (pre ++ Comment (TAGS_PREFIX ++ join (lit ",") ts) :: post) = ts.
Proof.
  intros Hpre Hts Hne. induction pre as [|i pre IH].
  - cbn [app parse_tags].
    replace (strip_prefix TAGS_PREFIX (trim_start (TAGS_PREFIX ++ join (lit ",") ts)))
      with (Some (join (lit ",") ts))
      by (symmetry; apply (strip_prefix_Some TAGS_PREFIX); reflexivity).
    change (lit ",") with [44%N]. rewrite split_join; [|done|].
    2: { apply Forall_forall. intros t Ht. apply (proj1 (forallb_elem _ _) Hts) in Ht.
         unfold is_tag in Ht. by breflect. }
    clear Hne. induction ts as [|t ts IH]; [done|]. cbn [forallb] in Hts.
    apply andb_true_iff in Hts as [[[Hn%negb_true_iff Ht%bool_decide_eq_true]%andb_true_iff _]
      %andb_true_iff Hts].
    cbn [map List.filter]. rewrite Ht, Hn. cbn [negb]. by rewrite IH.
  - cbn [forallb] in Hpre. apply andb_true_iff in Hpre as [Hi Hpre].
    destruct i; cbn [app parse_tags]; auto. cbn [is_sentinel] in Hi.
    unfold starts_with in Hi. destruct (strip_prefix _ _); [done|auto].
Qed.

(** Tags round trip: after setting well-formed tags on a host, reading its
    tags back gives exactly those tags, whether or not it had a tag line
    before, and no directive line of the block changes. *)
Lemma set_tags_roundtrip (h : HostBlock) (ts : list str)
    (Hne : ts <> []) (Hts : forallb is_tag ts = true) :
  parse_tags (body (set_tags h ts)) = ts
  /\ List.filter is_directive (body (set_tags h ts)) = List.filter is_directive (body h)
  /\ header (set_tags h ts) = header h.
Proof.
  unfold set_tags. destruct ts as [|t ts]; [done|]. destruct h as [hd ps b].
  cbn [body header]. unfold find_sentinel.
  destruct (position _ b) as [pos|] eqn:Hp; cbn [body header set_body].
  - apply position_Some in Hp as (l1 & x & l2 & -> & <- & Hx & Hl1).
    rewrite <-(Nat.add_0_r (length l1)), insert_app_r. cbn [insert list_insert].
    split_and!; [by apply parse_tags_sentinel| |done].
    rewrite !List.filter_app. f_equal. destruct x; simpl in *; done.
  - unfold vec_insert. cbn [take drop app]. rewrite drop_0. split_and!; try done.
    apply (parse_tags_sentinel []); done.
Qed.

(** ** Witnesses *)
