(* ===== verification/ConfigDoc.v ===== *)
(** * ConfigDoc: the multi-file document and the commands that edit it

    [src-tauri/src/config/commands.rs] (the document-level commands behind the
    Tauri handlers), [dto.rs] (the views the front end reads) and the finder of
    [include.rs].  A command takes the document and returns it with the index
    of the modified file, or the error the source returns; on an error the
    document the caller holds is the one it passed in. *)

From S2P Require Import Prelude Text ConfigParser ConfigEdit.

Record HostFieldChange := mkChange {
  change_keyword : str;
  change_value : str;
  change_remove : bool
}.

(** [find_host_file_index]. *)
Definition find_host_file_index (doc : SshConfigDoc) (alias : str) : option nat :=
  position (fun cf => existsb (is_host_named alias) (items cf)) (files doc).

Definition set_items (cf : ConfigFile) (l : list Item) : ConfigFile :=
  mkConfigFile (path cf) l (trailing_newline cf) (fingerprint cf).

(** [doc.files[i].items = l]. *)
Definition update_file (doc : SshConfigDoc) (i : nat) (f : list Item -> list Item) : SshConfigDoc :=
  mkDoc (alter (fun cf => set_items cf (f (items cf))) i (files doc)).

Definition file_items (doc : SshConfigDoc) (i : nat) : list Item :=
  from_option items [] (files doc !! i).

Definition not_found (alias : str) : AppError :=
  ANotFound (lit "host '" ++ alias ++ lit "' not found").
Definition not_found_in_file (alias : str) : AppError :=
  ANotFound (lit "host '" ++ alias ++ lit "' not found in file").
Definition already_exists (alias : str) : AppError :=
  AOther (lit "host '" ++ alias ++ lit "' already exists").

(** The token rules of a rename. *)
Definition validate_pattern (p : str) : result AppError unit :=
  _ ← guard_err (p =?= []) (AOther (lit "host patterns must not be empty"));
  _ ← guard_err (existsb is_whitespace p)
        (AOther (lit "host pattern '" ++ p ++ lit "' must not contain whitespace"));
  _ ← guard_err (contains_char 35 p)
        (AOther (lit "host pattern '" ++ p ++ lit "' must not contain '#'"));
  guard_err (starts_with (lit "-") p)
    (AOther (lit "host pattern '" ++ p ++ lit "' must not start with '-'")).

Definition validate_host_patterns (ps : list str) : result AppError unit :=
  match ps with
  | [] => Err (AOther (lit "at least one host pattern is required"))
  | _ => try_for validate_pattern ps
  end.

(** The primary alias of a block is [new_first]. *)
Definition has_first (new_first : str) (i : Item) : bool :=
  match i with Host h => head (patterns h) =?= Some new_first | _ => false end.

Section EndsBlank.
Variable (f : Item -> bool).

Fixpoint last_line_blank (b : list Item) : bool :=
  match b with
  | [] => true
  | [x] => f x
  | _ :: b' => last_line_blank b'
  end.
End EndsBlank.

(** [ends_with_blank_line], recursing into the body of the last block. *)
Fixpoint item_ends_blank (i : Item) : bool :=
  match i with
  | Blank _ => true
  | Comment _ | DirectiveItem _ => false
  | Host (mkHostBlock _ _ b) =>
      match b with [] => false | _ => last_line_blank item_ends_blank b end
  | Match (mkMatchBlock _ _ b) =>
      match b with [] => false | _ => last_line_blank item_ends_blank b end
  end.

Definition ends_with_blank_line (l : list Item) : bool := last_line_blank item_ends_blank l.

(** Appending a block, after a blank line when the file does not end in one. *)
Definition append_block (block : Item) (l : list Item) : list Item :=
  (if ends_with_blank_line l then l else l ++ [Blank []]) ++ [block].

(** Items of a document with their file index and position. *)
Definition indexed_items (doc : SshConfigDoc) : list (nat * nat * Item) :=
  concat (imap (fun fi cf => imap (fun ii i => (fi, ii, i)) (items cf)) (files doc)).

Section Commands.
Context {U : Unicode}.

Definition apply_change (h : HostBlock) (c : HostFieldChange) : HostBlock :=
  if change_remove c then (remove_host_field h (to_lowercase (change_keyword c))).1
  else (set_host_field h (change_keyword c) (change_value c)).1.

(** [apply_changes]. *)
Definition apply_changes (doc : SshConfigDoc) (alias : str) (changes : list HostFieldChange)
  : result AppError (SshConfigDoc * nat) :=
  idx ← ok_or (find_host_file_index doc alias) (not_found alias);
  '(pre, h, post) ← ok_or (find_host_mut (file_items doc idx) alias) (not_found_in_file alias);
  Ok (update_file doc idx (fun _ => pre ++ Host (foldl apply_change h changes) :: post), idx).

(** [rename_host]. *)
Definition rename_host (doc : SshConfigDoc) (alias : str) (ps : list str)
  : result AppError (SshConfigDoc * nat) :=
  _ ← validate_host_patterns ps;
  idx ← ok_or (find_host_file_index doc alias) (not_found alias);
  target_pos ← ok_or (position (is_host_named alias) (file_items doc idx))
                 (not_found_in_file alias);
  let new_first := default [] (head ps) in
  _ ← try_for (fun '(fi, ii, i) =>
        if (fi =? idx) && (ii =? target_pos) then Ok tt
        else guard_err (has_first new_first i) (already_exists new_first))
      (indexed_items doc);
  Ok (update_file doc idx
        (alter (fun i => match i with
                         | Host h => Host (set_host_patterns h ps).1
                         | _ => i
                         end) target_pos), idx).

(** [fsutil::has_changed] against what [file_fingerprint] reads from the disk. *)
Definition has_changed (disk : str -> result AppError Fingerprint) (cf : ConfigFile)
  : result AppError bool :=
  current ← disk (path cf);
  Ok (negb (sha256 current =?= sha256 (fingerprint cf))).

Definition check_drift (disk : str -> result AppError Fingerprint) (cf : ConfigFile)
  : result AppError unit :=
  match has_changed disk cf with
  | Ok false => Ok tt
  | Ok true | Err _ => Err (AConflict (path cf))
  end.

(** [move_host]; the result carries the source and target file indices. *)
Definition move_host (disk : str -> result AppError Fingerprint)
    (doc : SshConfigDoc) (alias target_file : str)
  : result AppError (SshConfigDoc * (nat * nat)) :=
  tgt ← ok_or (position (fun f => path f =?= target_file) (files doc))
          (AForbiddenPath target_file);
  src ← ok_or (find_host_file_index doc alias) (not_found alias);
  _ ← guard_err (src =? tgt)%nat
        (AOther (lit "host '" ++ alias ++ lit "' is already in '" ++ target_file ++ lit "'"));
  pos ← ok_or (position (is_host_named alias) (file_items doc src)) (not_found_in_file alias);
  _ ← try_for (check_drift disk) (omap (fun i => files doc !! i) [src; tgt]);
  block ← ok_or (file_items doc src !! pos) (not_found_in_file alias);
  Ok (update_file (update_file doc src (vec_remove pos)) tgt (append_block block), (src, tgt)).

(** [duplicate_host]. *)
Definition duplicate_host (doc : SshConfigDoc) (alias new_alias : str)
  : result AppError (SshConfigDoc * nat) :=
  _ ← validate_host_patterns [new_alias];
  _ ← try_for (fun i => guard_err (has_first new_alias i) (already_exists new_alias))
        (concat (map items (files doc)));
  idx ← ok_or (find_host_file_index doc alias) (not_found alias);
  pos ← ok_or (position (is_host_named alias) (file_items doc idx)) (not_found_in_file alias);
  match file_items doc idx !! pos with
  | Some (Host h) =>
      let copy := (set_host_patterns h [new_alias]).1 in
      Ok (update_file doc idx (append_block (Host copy)), idx)
  | _ => Err (not_found_in_file alias) (* unreachable in the source *)
  end.

(** Apply [f] to the [n]-th directive of a body; [None] past the last one. *)
Fixpoint nth_directive (n : nat) (b : list Item) : option (list Item * Directive * list Item) :=
  match b with
  | [] => None
  | DirectiveItem d :: b' =>
      match n with
      | O => Some ([], d, b')
      | S n' => '(pre, d', post) ← nth_directive n' b'; Some (DirectiveItem d :: pre, d', post)
      end
  | i :: b' => '(pre, d', post) ← nth_directive n b'; Some (i :: pre, d', post)
  end.

(** [set_option_enabled]. *)
Definition set_option_enabled (doc : SshConfigDoc) (alias kw : str) (index : nat) (enabled : bool)
  : result AppError (SshConfigDoc * nat) :=
  idx ← ok_or (find_host_file_index doc alias) (not_found alias);
  '(pre, h, post) ← ok_or (find_host_mut (file_items doc idx) alias) (not_found_in_file alias);
  '(bpre, d, bpost) ← ok_or (nth_directive index (body h))
    (ANotFound (lit "option index " ++ dec (N.of_nat index) ++ lit " out of range for host '"
                ++ alias ++ lit "'"));
  _ ← guard_err (negb (key d =?= to_lowercase kw))
    (AOther (lit "option at index " ++ dec (N.of_nat index) ++ lit " of host '" ++ alias
             ++ lit "' is '" ++ keyword d ++ lit "', not '" ++ kw ++ lit "' "
             ++ [8212%N] ++ lit " the view is stale, reload and retry"));
  let b := bpre ++ DirectiveItem (set_directive_enabled d enabled) :: bpost in
  Ok (update_file doc idx (fun _ => pre ++ Host (set_body h b) :: post), idx).
End Commands.

(** ** Views *)

Record HostOption := mkHostOption { opt_keyword : str; opt_value : str; opt_enabled : bool }.

Record HostSummary := mkHostSummary {
  sum_alias : str; sum_patterns : list str; sum_source_file : str; sum_tags : list str;
  sum_hostname : option str; sum_user : option str
}.

Record HostDetail := mkHostDetail {
  det_alias : str; det_patterns : list str; det_source_file : str; det_tags : list str;
  det_options : list HostOption
}.

Fixpoint first_enabled_value (b : list Item) (key_lower : str) : option str :=
  match b with
  | [] => None
  | DirectiveItem d :: b' =>
      if enabled d && (key d =?= key_lower) && negb (trim (value d) =?= [])
      then Some (trim (value d)) else first_enabled_value b' key_lower
  | _ :: b' => first_enabled_value b' key_lower
  end.

Definition build_summary (h : HostBlock) (source_file : str) : HostSummary :=
  mkHostSummary (default [] (head (patterns h))) (patterns h) source_file
    (parse_tags (body h)) (first_enabled_value (body h) (lit "hostname"))
    (first_enabled_value (body h) (lit "user")).

Definition item_option (i : Item) : option HostOption :=
  match i with
  | DirectiveItem d => Some (mkHostOption (keyword d) (value d) (enabled d))
  | _ => None
  end.

Definition build_detail (h : HostBlock) (source_file : str) : HostDetail :=
  mkHostDetail (default [] (head (patterns h))) (patterns h) source_file (parse_tags (body h))
    (omap item_option (body h)).

Definition host_summaries (doc : SshConfigDoc) : list HostSummary :=
  concat (map (fun cf => omap (fun i => match i with
                                         | Host h => Some (build_summary h (path cf))
                                         | _ => None
                                         end) (items cf)) (files doc)).

(** The first block carrying [alias] among some items. *)
Fixpoint find_block (l : list Item) (alias : str) : option HostBlock :=
  match l with
  | [] => None
  | Host h :: l' => if has_pattern alias h then Some h else find_block l' alias
  | _ :: l' => find_block l' alias
  end.

Fixpoint host_detail_in (fs : list ConfigFile) (alias : str) : option HostDetail :=
  match fs with
  | [] => None
  | cf :: fs' =>
      match find_block (items cf) alias with
      | Some h => Some (build_detail h (path cf))
      | None => host_detail_in fs' alias
      end
  end.
Definition host_detail (doc : SshConfigDoc) (alias : str) : option HostDetail :=
  host_detail_in (files doc) alias.
