(* ===== verification/ConfigDocProps.v ===== *)
(** * ConfigDocProps: what the document-level commands guarantee

    Frames of [apply_changes], [rename_host], [move_host], [duplicate_host] and
    [set_option_enabled]: which file, block and line each one touches, what it
    refuses, and that the views the front end reads agree with the edits. *)

From S2P Require Import Prelude Text ConfigParser ConfigEdit ConfigEditProps ConfigDoc.

(** ** Locating a host *)

Lemma alter_middle {A} (f : A -> A) l1 x l2 :
  alter f (length l1) (l1 ++ x :: l2) = l1 ++ f x :: l2.
Proof. rewrite <-(Nat.add_0_r (length l1)), alter_app_r. done. Qed.

(** No item of these files is a block with the alias. *)
Definition alias_free (alias : str) (fs : list ConfigFile) : bool :=
  forallb (fun cf => negb (existsb (is_host_named alias) (items cf))) fs.

Lemma find_host_file_index_split doc alias idx :
  find_host_file_index doc alias = Some idx ->
  exists fs1 cf fs2, files doc = fs1 ++ cf :: fs2 /\ length fs1 = idx
    /\ alias_free alias fs1 = true /\ existsb (is_host_named alias) (items cf) = true
    /\ file_items doc idx = items cf.
Proof.
  intros (fs1 & cf & fs2 & Hd & Hl & Hcf & Hfs1)%position_Some.
  exists fs1, cf, fs2. split_and!; try done. unfold file_items. by rewrite Hd, <-Hl, list_lookup_middle.
Qed.

Lemma update_file_split doc fs1 cf fs2 f :
  files doc = fs1 ++ cf :: fs2 ->
  files (update_file doc (length fs1) f) = fs1 ++ set_items cf (f (items cf)) :: fs2.
Proof. intros Hd. unfold update_file. simpl. rewrite Hd. by rewrite alter_middle. Qed.

Lemma is_host_named_inv alias i :
  is_host_named alias i = true -> exists h, i = Host h /\ has_pattern alias h = true.
Proof. destruct i; try done. intros H. eauto. Qed.

Lemma find_block_app l1 h l2 alias :
  forallb (fun i => negb (is_host_named alias i)) l1 = true -> has_pattern alias h = true ->
  find_block (l1 ++ Host h :: l2) alias = Some h.
Proof.
  intros Hl1 Hh. induction l1 as [|i l1 IH]; simpl in *; [by rewrite Hh|]. breflect.
  destruct i; auto. simpl in H. rewrite H. auto.
Qed.

Lemma find_block_none l alias :
  existsb (is_host_named alias) l = false -> find_block l alias = None.
Proof.
  induction l as [|i l IH]; simpl; [done|]. intros [Hi Hl]%orb_false_iff.
  destruct i; auto. simpl in Hi. rewrite Hi. auto.
Qed.

Lemma host_detail_split fs1 cf fs2 l1 h l2 alias :
  alias_free alias fs1 = true -> items cf = l1 ++ Host h :: l2 ->
  forallb (fun i => negb (is_host_named alias i)) l1 = true -> has_pattern alias h = true ->
  host_detail (mkDoc (fs1 ++ cf :: fs2)) alias = Some (build_detail h (path cf)).
Proof.
  intros Hfs Hcf Hl1 Hh. unfold host_detail. simpl.
  induction fs1 as [|f fs1 IH]; simpl in *.
  - by rewrite Hcf, find_block_app.
  - unfold alias_free in Hfs. simpl in Hfs. breflect. rewrite find_block_none by done. auto.
Qed.

(** ** Field changes *)

Section ApplyChanges.
Context {U : Unicode}.

Lemma remove_host_field_frame h k :
  header (remove_host_field h k).1 = header h /\ patterns (remove_host_field h k).1 = patterns h.
Proof. unfold remove_host_field. by destruct (position _ _). Qed.

Lemma apply_change_frame h c :
  header (apply_change h c) = header h /\ patterns (apply_change h c) = patterns h.
Proof.
  unfold apply_change. destruct (change_remove c); [apply remove_host_field_frame|].
  pose proof (set_host_field_spec h (change_keyword c) (change_value c)) as H.
  destruct (set_host_field _ _ _); simpl. tauto.
Qed.

Lemma apply_all_frame h cs :
  header (foldl apply_change h cs) = header h /\ patterns (foldl apply_change h cs) = patterns h.
Proof.
  revert h. induction cs as [|c cs IH]; intros h; simpl; [done|].
  destruct (IH (apply_change h c)) as [-> ->]. apply apply_change_frame.
Qed.

(** A batch of field changes edits one block: the first block that
    carries the alias, in the first file that has one, keeps its Host line
    and its patterns, and every other item of that file and every other file
    is untouched.  A batch ending with a set leaves that keyword with that
    value. *)
Lemma apply_changes_frame (doc doc' : SshConfigDoc) (alias : str) cs c idx
    (Hok : apply_changes doc alias (cs ++ [c]) = Ok (doc', idx)) :
  exists fs1 cf fs2 pre h post h',
    files doc = fs1 ++ cf :: fs2 /\ length fs1 = idx /\ alias_free alias fs1 = true
    /\ find_host_mut (items cf) alias = Some (pre, h, post)
    /\ files doc' = fs1 ++ set_items cf (pre ++ Host h' :: post) :: fs2
    /\ header h' = header h /\ patterns h' = patterns h
    /\ (change_remove c = false ->
        exists d, first_directive (to_lowercase (change_keyword c)) (body h') = Some d
          /\ value d = strip_crlf (change_value c)).
Proof.
  unfold apply_changes in Hok. ok_inv. rename v into i.
  destruct (find_host_file_index_split _ _ _ Hok0) as (fs1 & cf & fs2 & Hd & <- & Hf & _ & Hi).
  rewrite Hi in Hok1. destruct v0 as [[pre h] post]. ok_inv.
  exists fs1, cf, fs2, pre, h, post, (foldl apply_change h (cs ++ [c])).
  destruct (apply_all_frame h (cs ++ [c])) as [Hh Hp].
  split_and!; try done; [by apply update_file_split|].
  intros Hr. rewrite foldl_app. cbn [foldl]. unfold apply_change at 1. rewrite Hr.
  pose proof (set_host_field_spec (foldl apply_change h cs) (change_keyword c) (change_value c)) as H.
  destruct (set_host_field _ _ _); simpl. tauto.
Qed.
End ApplyChanges.

(** ** Positions of a document *)

Definition doc_at (doc : SshConfigDoc) (fi ii : nat) : option Item :=
  cf ← files doc !! fi; items cf !! ii.

Lemma files_update_ne doc i f j :
  i <> j -> files (update_file doc i f) !! j = files doc !! j.
Proof. intros. by apply list_lookup_alter_ne. Qed.

Lemma files_update_eq doc i f :
  files (update_file doc i f) !! i = (fun cf => set_items cf (f (items cf))) <$> files doc !! i.
Proof. apply list_lookup_alter_eq. Qed.

Lemma doc_at_update_ne doc i f fi ii :
  i <> fi -> doc_at (update_file doc i f) fi ii = doc_at doc fi ii.
Proof. intros. unfold doc_at. by rewrite files_update_ne. Qed.

Lemma doc_at_update_eq doc i f ii :
  doc_at (update_file doc i f) i ii = (cf ← files doc !! i; f (items cf) !! ii).
Proof. unfold doc_at. rewrite files_update_eq. by destruct (files doc !! i). Qed.

Lemma file_items_lookup doc i pos it :
  file_items doc i !! pos = Some it -> doc_at doc i pos = Some it.
Proof. unfold file_items, doc_at. by destruct (files doc !! i). Qed.

Lemma indexed_items_elem doc fi ii i :
  doc_at doc fi ii = Some i -> (fi, ii, i) ∈ indexed_items doc.
Proof.
  unfold doc_at, indexed_items. destruct (files doc !! fi) as [cf|] eqn:Hf; [|done]. simpl.
  intros Hi. apply list_elem_of_In, in_concat.
  exists (imap (fun ii i => (fi, ii, i)) (items cf)). rewrite <-!list_elem_of_In.
  split.
  - by apply (elem_of_lookup_imap_2 (fun fi cf => imap (fun ii i => (fi, ii, i)) (items cf))).
  - by apply (elem_of_lookup_imap_2 (fun ii i => (fi, ii, i))).
Qed.

Lemma position_lookup {A} (f : A -> bool) l i :
  position f l = Some i -> exists x, l !! i = Some x /\ f x = true.
Proof.
  intros (l1 & x & l2 & -> & <- & Hx & _)%position_Some. exists x.
  by rewrite list_lookup_middle.
Qed.

Lemma validate_host_patterns_tokens ps u :
  validate_host_patterns ps = Ok u -> ps <> [] /\ forallb is_token ps = true.
Proof.
  destruct ps as [|p0 ps]; [done|]. intros [Hall _]%try_for_Ok. split; [done|].
  apply forallb_elem. intros p Hp. specialize (Hall p Hp).
  unfold validate_pattern in Hall. ok_inv. unfold is_token. rewrite Hok.
  apply forallb_elem. intros c Hc. apply negb_true_iff. rewrite existsb_none in Hok0. auto.
Qed.

(** Renaming a host rewrites that block's Host line only: the target is the
    first block carrying the alias, every other position of every file is
    untouched, the body of the block is kept, the new patterns are tokens, and
    afterwards no other block of the document has the new primary alias. *)
Lemma rename_host_spec (doc doc' : SshConfigDoc) (alias p : str) ps idx
    (Hok : rename_host doc alias (p :: ps) = Ok (doc', idx)) :
  exists pos h, doc_at doc idx pos = Some (Host h) /\ has_pattern alias h = true
    /\ doc_at doc' idx pos = Some (Host (set_host_patterns h (p :: ps)).1)
    /\ body (set_host_patterns h (p :: ps)).1 = body h
    /\ forallb is_token (p :: ps) = true
    /\ (forall fi ii, (fi, ii) <> (idx, pos) -> doc_at doc' fi ii = doc_at doc fi ii)
    /\ (forall fi ii i, doc_at doc' fi ii = Some i -> has_first p i = true ->
          (fi, ii) = (idx, pos)).
Proof.
  unfold rename_host in Hok. ok_inv. rename idx into i, v1 into pos.
  apply validate_host_patterns_tokens in Hok0 as [_ Htok].
  destruct (position_lookup _ _ _ Hok2) as (x & Hx & (h & -> & Hh)%is_host_named_inv).
  apply file_items_lookup in Hx. pose proof Hx as Hcf. unfold doc_at in Hcf.
  destruct (files doc !! i) as [cf|] eqn:Hf; [|done]. simpl in Hcf.
  assert (Hother : forall fi ii, (fi, ii) <> (i, pos) ->
    doc_at (update_file doc i (alter (fun it => match it with
      | Host h => Host (set_host_patterns h (p :: ps)).1 | _ => it end) pos)) fi ii
    = doc_at doc fi ii).
  { intros fi ii Hne. destruct (decide (i = fi)) as [<-|]; [|by apply doc_at_update_ne].
    rewrite doc_at_update_eq. unfold doc_at. rewrite Hf. simpl.
    apply list_lookup_alter_ne. naive_solver. }
  exists pos, h. split_and!; try done.
  - rewrite doc_at_update_eq, Hf. simpl. by rewrite list_lookup_alter_eq, Hcf.
  - unfold set_host_patterns. by destruct (bool_decide _).
  - intros fi ii it Hit Hfirst. destruct (decide ((fi, ii) = (i, pos))) as [|Hne]; [done|].
    exfalso. rewrite Hother in Hit by done.
    apply try_for_Ok in Hok3 as [Hall _]. specialize (Hall _ (indexed_items_elem _ _ _ _ Hit)).
    simpl in Hall. destruct ((fi =? i) && (ii =? pos)) eqn:He.
    + breflect. naive_solver.
    + apply guard_err_Ok in Hall. congruence.
Qed.

(** ** Appending blocks *)

Definition is_blank (i : Item) : bool := match i with Blank _ => true | _ => false end.

(** Bodies hold physical lines only (what the parser builds). *)
Definition flat_block (i : Item) : bool :=
  match i with
  | Host (mkHostBlock _ _ b) | Match (mkMatchBlock _ _ b) => forallb is_flat b
  | _ => true
  end.

Lemma flat_ends_blank b :
  forallb is_flat b = true -> b <> [] ->
  last_line_blank item_ends_blank b = from_option is_blank true (last b).
Proof.
  induction b as [|i b IH]; [done|]. intros [Hi Hb]%andb_true_iff _.
  destruct b as [|j b]; [by destruct i|]. rewrite last_cons_cons, <-IH by done. done.
Qed.

(** The blank-line test looks at the last physical line of the file. *)
Lemma ends_with_blank_line_last l :
  forallb flat_block l = true ->
  ends_with_blank_line l = from_option is_blank true (last (ungroup l)).
Proof.
  unfold ends_with_blank_line. induction l as [|i l IH]; [done|].
  intros [Hi Hl]%andb_true_iff. destruct l as [|j l].
  - cbn [last_line_blank ungroup flat_map]. rewrite app_nil_r.
    destruct i as [| | |[hd ps b]|[hd c b]]; try done; simpl in Hi;
      (destruct b as [|x b]; [done|]; cbn [item_ends_blank ungroup_item];
       rewrite flat_ends_blank by done; by rewrite last_cons_cons).
  - change (last_line_blank item_ends_blank (i :: j :: l))
      with (last_line_blank item_ends_blank (j :: l)). rewrite IH by done.
    change (ungroup (i :: j :: l)) with (ungroup_item i ++ ungroup (j :: l)).
    rewrite last_app. destruct (last (ungroup (j :: l))) eqn:He; [done|].
    exfalso. apply last_None in He. simpl in He. by destruct j as [| | |[]|[]].
Qed.

(** [append_block] keeps every line and puts the block after a blank line. *)
Lemma append_block_spec block l :
  exists gap, append_block block l = l ++ gap ++ [block] /\ (gap = [] \/ gap = [Blank []])
    /\ (forallb flat_block l = true ->
        from_option is_blank true (last (ungroup (l ++ gap))) = true).
Proof.
  unfold append_block. destruct (ends_with_blank_line l) eqn:He.
  - exists []. split_and!; [done|by left|]. intros Hl. by rewrite app_nil_r, <-ends_with_blank_line_last.
  - exists [Blank []]. split_and!; [by rewrite <-app_assoc|by right|]. intros _.
    unfold ungroup. rewrite flat_map_app. simpl. by rewrite last_snoc.
Qed.

Lemma check_drift_Ok disk cf u :
  check_drift disk cf = Ok u -> has_changed disk cf = Ok false.
Proof. unfold check_drift. by destruct (has_changed disk cf) as [[]|]. Qed.

(** Moving a host takes the whole block, header, options, comments and
    all, out of its file and appends it verbatim to the requested managed file
    after a blank line; nothing else of either file and no other file changes.
    It only happens when both files still have on disk the content they were
    loaded with, and the target is another loaded file. *)
Lemma move_host_spec disk (doc doc' : SshConfigDoc) (alias target_file : str) src tgt
    (Hok : move_host disk doc alias target_file = Ok (doc', (src, tgt))) :
  src <> tgt /\ exists cfs cft l1 h l2 gap,
    files doc !! src = Some cfs /\ files doc !! tgt = Some cft /\ path cft = target_file
    /\ items cfs = l1 ++ Host h :: l2 /\ has_pattern alias h = true
    /\ forallb (fun i => negb (is_host_named alias i)) l1 = true
    /\ files doc' !! src = Some (set_items cfs (l1 ++ l2))
    /\ files doc' !! tgt = Some (set_items cft (items cft ++ gap ++ [Host h]))
    /\ (gap = [] \/ gap = [Blank []])
    /\ (forallb flat_block (items cft) = true ->
        from_option is_blank true (last (ungroup (items cft ++ gap))) = true)
    /\ (forall i, i <> src -> i <> tgt -> files doc' !! i = files doc !! i)
    /\ has_changed disk cfs = Ok false /\ has_changed disk cft = Ok false.
Proof.
  unfold move_host in Hok. ok_inv. breflect. split; [done|].
  destruct (position_lookup _ _ _ Hok0) as (cft & Hcft & Hpath). breflect.
  destruct (find_host_file_index_split _ _ _ Hok1) as (fs1 & cfs & fs2 & Hd & <- & _ & _ & Hi).
  assert (Hcfs : files doc !! length fs1 = Some cfs) by (by rewrite Hd, list_lookup_middle).
  rewrite Hi in Hok3, Hok5.
  destruct (position_Some _ _ _ Hok3) as (l1 & x & l2 & Hl & <- & (h & -> & Hh)%is_host_named_inv & Hl1).
  rewrite Hl, list_lookup_middle in Hok5 by done. injection Hok5 as <-.
  destruct (append_block_spec (Host h) (items cft)) as (gap & Happ & Hgap & Hblank).
  cbn [omap list_omap] in Hok4. rewrite Hcfs, Hcft in Hok4. cbn in Hok4.
  exists cfs, cft, l1, h, l2, gap. ok_inv.
  split_and!; try done; try (by eapply check_drift_Ok; destruct v, v0; eauto).
  - rewrite files_update_ne by done. rewrite files_update_eq, Hcfs. simpl.
    by rewrite Hl, vec_remove_middle.
  - rewrite files_update_eq, files_update_ne by done. rewrite Hcft. simpl. by rewrite Happ.
  - intros i H1 H2. by rewrite !files_update_ne.
Qed.

(** Duplicating a host appends a copy after a blank line in the same file:
    every existing item of every file stays, the copy has exactly the new alias
    and the body of the original, and no block already had that alias as its
    primary one. *)
Lemma duplicate_host_spec (doc doc' : SshConfigDoc) (alias new_alias : str) idx
    (Hok : duplicate_host doc alias new_alias = Ok (doc', idx)) :
  exists cf h gap h',
    files doc !! idx = Some cf /\ Host h ∈ items cf /\ has_pattern alias h = true
    /\ files doc' !! idx = Some (set_items cf (items cf ++ gap ++ [Host h']))
    /\ (gap = [] \/ gap = [Blank []])
    /\ (forallb flat_block (items cf) = true ->
        from_option is_blank true (last (ungroup (items cf ++ gap))) = true)
    /\ body h' = body h /\ value (header h') = new_alias
    /\ (block_ok (Host h) = true -> patterns h' = [new_alias])
    /\ (forall i, i <> idx -> files doc' !! i = files doc !! i)
    /\ (forall f i, f ∈ files doc -> i ∈ items f -> has_first new_alias i = false).
Proof.
  unfold duplicate_host in Hok. ok_inv.
  apply validate_host_patterns_tokens in Hok0 as [_ Htok].
  pose proof (split_ws_join [new_alias] Htok) as Hsplit.
  destruct (find_host_file_index_split _ _ _ Hok2) as (fs1 & cf & fs2 & Hd & <- & _ & _ & Hi).
  rewrite Hi in Hok, Hok3.
  destruct (position_lookup _ _ _ Hok3) as (x & Hx & (h & -> & Hh)%is_host_named_inv).
  rewrite Hx in Hok. ok_inv.
  assert (Hcf : files doc !! length fs1 = Some cf) by (by rewrite Hd, list_lookup_middle).
  destruct (append_block_spec (Host (set_host_patterns h [new_alias]).1) (items cf))
    as (gap & Happ & Hgap & Hblank).
  exists cf, h, gap, (set_host_patterns h [new_alias]).1.
  assert (Hpat : List.filter (fun p => negb (p =?= [])) (map strip_crlf [new_alias]) = [new_alias]).
  { simpl in *. rewrite andb_true_r in Htok. rewrite strip_crlf_token by done.
    unfold is_token in Htok. breflect. by rewrite bool_decide_false. }
  split_and!; try done.
  - by eapply list_elem_of_lookup_2.
  - rewrite files_update_eq, Hcf. simpl. by rewrite Happ.
  - unfold set_host_patterns. by destruct (bool_decide _).
  - unfold set_host_patterns. rewrite Hpat. by case_bool_decide.
  - unfold set_host_patterns. rewrite Hpat. case_bool_decide as Hv; [|done].
    destruct h as [hd ps b]. simpl in *. intros. breflect. subst ps. rewrite Hv.
    exact Hsplit.
  - intros i Hne. by apply files_update_ne.
  - intros f i Hf Hif. apply try_for_Ok in Hok1 as [Hall _].
    specialize (Hall i). apply guard_err_Ok with (u := tt) (e := already_exists new_alias).
    apply Hall. apply list_elem_of_In, in_concat. exists (items f). rewrite <-!list_elem_of_In.
    split; [by apply list_elem_of_fmap_2|done].
Qed.

(** ** Toggling an option *)

Lemma nth_directive_split n b pre d post :
  nth_directive n b = Some (pre, d, post) ->
  b = pre ++ DirectiveItem d :: post /\ length (List.filter is_directive pre) = n.
Proof.
  revert n pre. induction b as [|i b IH]; intros n pre; simpl; [done|].
  destruct i as [s|s|e|h|m];
    [| |destruct n as [|n]; [by intros [= <- <- <-]|]| |];
    (match goal with |- context [nth_directive ?m b] =>
       destruct (nth_directive m b) as [[[pre' d'] post']|] eqn:Hn end;
     [|done]; simpl; intros [= <- <- <-]; destruct (IH _ _ Hn) as [-> <-]; done).
Qed.

Lemma omap_option_length pre :
  length (omap item_option pre) = length (List.filter is_directive pre).
Proof. induction pre as [|i pre IH]; [done|]. destruct i; cbn; auto. Qed.

(** Toggling an option acts on the line the front end shows at that index:
    with [host_detail] as the view, exactly the option at the given position
    changes its enabled flag, and the command refuses an index past the end or
    a keyword that is not the one at that position. *)
Lemma set_option_enabled_view {U : Unicode} (doc doc' : SshConfigDoc) (alias kw : str) n e idx
    (Hok : set_option_enabled doc alias kw n e = Ok (doc', idx)) :
  exists det opt, host_detail doc alias = Some det
    /\ det_options det !! n = Some opt
    /\ host_detail doc' alias = Some (mkHostDetail (det_alias det) (det_patterns det)
         (det_source_file det) (det_tags det)
         (<[n := mkHostOption (opt_keyword opt) (opt_value opt) e]> (det_options det)))
    /\ (forall i, i <> idx -> files doc' !! i = files doc !! i).
Proof.
  unfold set_option_enabled in Hok. ok_inv.
  destruct (find_host_file_index_split _ _ _ Hok0) as (fs1 & cf & fs2 & Hd & <- & Hfree & _ & Hi).
  rewrite Hi in Hok1. destruct v0 as [[pre h] post]. ok_inv. destruct v as [[bpre d] bpost]. ok_inv.
  destruct (find_host_mut_split _ _ _ _ _ Hok1) as (Hcf & Hh & Hpre).
  match goal with H : nth_directive _ _ = Some _ |- _ =>
    destruct (nth_directive_split _ _ _ _ _ H) as [Hb <-] end.
  exists (build_detail h (path cf)), (mkHostOption (keyword d) (value d) (enabled d)).
  destruct doc as [fs]. simpl in Hd. subst fs. split_and!.
  - by apply (host_detail_split fs1 cf fs2 pre h post).
  - unfold build_detail. cbn [det_options].  rewrite Hb, omap_app.
    cbn [omap list_omap item_option]. rewrite <-omap_option_length. by rewrite list_lookup_middle.
  - unfold update_file. simpl. rewrite alter_middle.
    erewrite (host_detail_split fs1 _ fs2 pre
      (set_body h (bpre ++ DirectiveItem (set_directive_enabled d e) :: bpost)) post);
      [|done|done|done|done].
    unfold build_detail. cbn [det_options det_alias det_patterns det_source_file det_tags path set_items].
    do 2 f_equal.
    + cbn [body set_body]. rewrite Hb. clear.
      induction bpre as [|i b IH]; [done|]. destruct i; cbn; try done. by rewrite IH.
    +  cbn [body set_body]. rewrite Hb, !omap_app, <-omap_option_length.
      rewrite <-(Nat.add_0_r (length (omap item_option bpre))), insert_app_r. done.
  - intros i Hne. by apply files_update_ne.
Qed.

(** ** Witnesses *)

Definition example_file (p text : str) : ConfigFile :=
  mkConfigFile p (parse_file (U := ascii_unicode) text).1 true (mkFingerprint 0 (lit "h")).
Definition example_doc : SshConfigDoc :=
  mkDoc [example_file (lit "/c") (lit "Host a x" ++ [10%N] ++ lit "  Port 22");
         example_file (lit "/d") (lit "Host b")].
Definition example_disk (p : str) : result AppError Fingerprint := Ok (mkFingerprint 1 (lit "h")).

(** The document a successful command returns. *)
Definition ok_doc {A} (r : result AppError (SshConfigDoc * A)) : SshConfigDoc :=
  match r with Ok (d, _) => d | Err _ => example_doc end.
