(* ===== verification/ConfigIntel.v ===== *)
(** * ConfigIntel: linting, ProxyJump chains and key hygiene

    [src-tauri/src/config/intel.rs] without the [ssh -G] process, which
    calls the slot path rules of [SlotRules].  The file system and the shell
    expansion of a path are the environment: [path_exists], [path_is_file] and
    [expand_token] are arguments of the functions that consult them. *)

From S2P Require Import Prelude Text SlotRules ConfigParser ConfigEdit ConfigEditProps ConfigDoc ConfigDocProps.

(** ** Lint *)

Record LintIssue := mkIssue {
  li_rule : str; li_severity : str; li_file : str; li_alias : option str;
  li_keyword : option str; li_message : str
}.

Definition MULTI_VALUE_KEYS : list str :=
  [lit "identityfile"; lit "localforward"; lit "remoteforward"; lit "dynamicforward";
   lit "certificatefile"; lit "sendenv"; lit "setenv"].

Definition looks_like_literal_host (hop : str) : bool :=
  contains_char 46 hop || contains_char 58 hop.

(** The host of a ProxyJump hop [user@host:port]. *)
Definition hop_host (hop : str) : str :=
  let hop := trim hop in
  let after_user := match rsplit_once 64 hop with Some (_, h) => h | None => hop end in
  match rsplit_once 58 after_user with Some (h, _) => h | None => after_user end.

Definition doc_defines_alias (doc : SshConfigDoc) (host : str) : bool :=
  existsb (fun f => existsb (is_host_named host) (items f)) (files doc).

Definition is_shadowed_rule (i : LintIssue) : bool := li_rule i =?= lit "shadowed-host".

Section Lint.
Variable (path_exists path_is_file : str -> bool) (expand_token : str -> option str).
Variable (doc : SshConfigDoc) (account_slot_files : list str).

Definition identity_file_present (value path : str) : bool :=
  path_exists path || (is_some (slot_file_of_value value) && path_is_file (public_path path)).

Definition missing_identity_message (v : str) : str :=
  match slot_file_of_value v with
  | Some file =>
      if existsb (fun f => eq_ignore_ascii_case f file) account_slot_files then
        lit "IdentityFile not found: " ++ v ++ lit " (a synced key slot " ++ [8212%N]
        ++ lit " pick a key for it in Keychain)"
      else
        lit "IdentityFile not found: " ++ v ++ lit " (a key slot your sync account doesn't have "
        ++ [8212%N] ++ lit " set the key up on the computer that has it)"
  | None => lit "IdentityFile not found: " ++ v
  end.

(** The rules of one enabled directive; [seen] are the keys of the enabled
    directives before it. *)
Definition lint_directive (file : str) (alias : option str) (seen : list str) (d : Directive)
  : list LintIssue :=
  (if (length (List.filter (fun k => k =?= key d) seen) =? 1)
      && negb (existsb (fun k => k =?= key d) MULTI_VALUE_KEYS)
   then [mkIssue (lit "duplicate-directive") (lit "warning") file alias (Some (keyword d))
           (lit "duplicate `" ++ keyword d ++ lit "` " ++ [8212%N]
            ++ lit " only the first takes effect (first-match-wins)")]
   else [])
  ++ (if (key d =?= lit "identityfile") && negb (contains_char 37 (value d)) then
        match expand_token (unquote (value d)) with
        | Some expanded =>
            if identity_file_present (value d) expanded then []
            else [mkIssue (lit "missing-identity-file") (lit "error") file alias
                    (Some (keyword d)) (missing_identity_message (value d))]
        | None => []
        end
      else [])
  ++ (if (key d =?= lit "stricthostkeychecking") && eq_ignore_ascii_case (trim (value d)) (lit "no")
      then [mkIssue (lit "insecure-strict-host-key-checking") (lit "warning") file alias
              (Some (keyword d)) (lit "StrictHostKeyChecking no disables host-key verification")]
      else [])
  ++ (if key d =?= lit "proxyjump" then
        concat (map (fun hop =>
          let host_part := hop_host hop in
          if (host_part =?= []) || eq_ignore_ascii_case host_part (lit "none") then []
          else if negb (looks_like_literal_host host_part)
                  && negb (doc_defines_alias doc host_part)
          then [mkIssue (lit "undefined-proxy-jump") (lit "warning") file alias
                  (Some (keyword d))
                  (lit "ProxyJump references undefined host `" ++ host_part ++ lit "`")]
          else []) (split_char 44 (value d)))
      else []).

Fixpoint lint_body (file : str) (alias : option str) (seen : list str) (b : list Item)
  : list LintIssue :=
  match b with
  | [] => []
  | DirectiveItem d :: b' =>
      if negb (enabled d) then lint_body file alias seen b'
      else lint_directive file alias seen d ++ lint_body file alias (key d :: seen) b'
  | _ :: b' => lint_body file alias seen b'
  end.

(** One Host block: the shadowing rule, then its directives. *)
Definition lint_host (file : str) (seen_aliases : list str) (h : HostBlock)
  : list LintIssue * list str :=
  let alias := head (patterns h) in
  let '(shadow, seen') :=
    match alias with
    | Some a =>
        if existsb (fun s => s =?= a) seen_aliases then
          ([mkIssue (lit "shadowed-host") (lit "warning") file alias None
              (lit "host `" ++ a
               ++ lit "` is also defined earlier; later definitions are shadowed")],
           seen_aliases)
        else ([], a :: seen_aliases)
    | None => ([], seen_aliases)
    end in
  (shadow ++ lint_body file alias [] (body h), seen').

Fixpoint lint_items (file : str) (seen : list str) (l : list Item) : list LintIssue * list str :=
  match l with
  | [] => ([], seen)
  | Host h :: l' =>
      let '(is1, seen1) := lint_host file seen h in
      let '(is2, seen2) := lint_items file seen1 l' in (is1 ++ is2, seen2)
  | _ :: l' => lint_items file seen l'
  end.

Fixpoint lint_files (seen : list str) (fs : list ConfigFile) : list LintIssue :=
  match fs with
  | [] => []
  | f :: fs' =>
      let '(is1, seen1) := lint_items (path f) seen (items f) in is1 ++ lint_files seen1 fs'
  end.

(** [lint]. *)
Definition lint : list LintIssue := lint_files [] (files doc).
End Lint.

(** ** ProxyJump chains *)

Record ChainNode := mkNode { node_name : str; node_is_defined : bool }.

Fixpoint find_host_block_in (fs : list ConfigFile) (alias : str) : option HostBlock :=
  match fs with
  | [] => None
  | f :: fs' =>
      match find_block (items f) alias with
      | Some h => Some h
      | None => find_host_block_in fs' alias
      end
  end.
Definition find_host_block (doc : SshConfigDoc) (alias : str) : option HostBlock :=
  find_host_block_in (files doc) alias.

Fixpoint proxyjump_of (b : list Item) : option str :=
  match b with
  | [] => None
  | DirectiveItem d :: b' =>
      if enabled d && (key d =?= lit "proxyjump") then Some (value d) else proxyjump_of b'
  | _ :: b' => proxyjump_of b'
  end.
Definition host_proxyjump (h : HostBlock) : option str := proxyjump_of (body h).

Definition node_defined (doc : SshConfigDoc) (name : str) : bool :=
  doc_defines_alias doc name || looks_like_literal_host name.

Definition DEPTH_CAP : nat := 5.

(** The hops a node's own ProxyJump value adds in front of the work list. *)
Definition hops_of (doc : SshConfigDoc) (name : str) : list str :=
  match find_host_block doc name ≫= host_proxyjump with
  | Some pj => List.filter (fun h => negb (h =?= [])) (map hop_host (split_char 44 pj))
  | None => []
  end.

(** The [while] loop.  [budget] bounds the nodes still to be pushed; [None] means
    it ran out, which [jump_chain] never does. *)
Fixpoint jump_loop (doc : SshConfigDoc) (budget : nat) :=
  fix scan (chain : list ChainNode) (visited pending : list str) {struct pending}
    : option (list ChainNode) :=
    match pending with
    | [] => Some chain
    | name :: rest =>
        if (DEPTH_CAP <? length chain) then Some chain
        else if existsb (fun v => v =?= name) visited then scan chain visited rest
        else
          match budget with
          | O => None
          | S b =>
              jump_loop doc b (chain ++ [mkNode name (node_defined doc name)])
                (name :: visited) (hops_of doc name ++ rest)
          end
    end.

Definition jump_chain (doc : SshConfigDoc) (alias : str) : option (list ChainNode) :=
  jump_loop doc (S DEPTH_CAP) [] [] [alias].

(** ** Key hygiene *)

Record IdentityFileInfo := mkIdentityInfo { idf_path : str; idf_exists : bool }.
Record KeyHygiene := mkHygiene {
  kh_identity_files : list IdentityFileInfo; kh_identities_only : bool; kh_explicit : bool
}.

Section Hygiene.
Variable (path_exists path_is_file : str -> bool) (expand_token : str -> option str).

Fixpoint hygiene_body (b : list Item) (acc : list IdentityFileInfo) (only : bool)
  : list IdentityFileInfo * bool :=
  match b with
  | [] => (acc, only)
  | DirectiveItem d :: b' =>
      if negb (enabled d) then hygiene_body b' acc only
      else if key d =?= lit "identityfile" then
        let exists_ :=
          if contains_char 37 (value d) then true
          else
            let unquoted := unquote (value d) in
            let expanded := default unquoted (expand_token unquoted) in
            identity_file_present path_exists path_is_file (value d) expanded in
        hygiene_body b' (acc ++ [mkIdentityInfo (value d) exists_]) only
      else if (key d =?= lit "identitiesonly") && eq_ignore_ascii_case (trim (value d)) (lit "yes")
      then hygiene_body b' acc true
      else hygiene_body b' acc only
  | _ :: b' => hygiene_body b' acc only
  end.

Definition key_hygiene (doc : SshConfigDoc) (alias : str) : KeyHygiene :=
  let '(fs, only) :=
    match find_host_block doc alias with
    | Some h => hygiene_body (body h) [] false
    | None => ([], false)
    end in
  mkHygiene fs only (negb (fs =?= [])).
End Hygiene.

(** ** ProxyJump chains terminate, slots round-trip, lint is exact *)

(** ** ProxyJump chains *)

Section Chain.
Variable (doc : SshConfigDoc) (alias : str).

(** A hop some node listed before it leads to. *)
Definition led_to (chain : list ChainNode) (name : str) : Prop :=
  exists n, n ∈ chain /\ name ∈ hops_of doc (node_name n).

(** The chain built so far: distinct names, truthful flags, and every node but
    the first was reached through an earlier one. *)
Record chain_ok (chain : list ChainNode) : Prop := {
  chain_nodup : NoDup (map node_name chain);
  chain_flags : forall n, n ∈ chain -> node_is_defined n = node_defined doc (node_name n);
  chain_links : forall l1 n l2, chain = l1 ++ n :: l2 ->
    (l1 = [] /\ node_name n = alias) \/ led_to l1 (node_name n)
}.

Lemma chain_ok_nil : chain_ok [].
Proof.
  split; [constructor|intros n Hn; by apply elem_of_nil in Hn|]. intros l1 n l2 H.
  by destruct l1.
Qed.

Lemma chain_ok_snoc chain name :
  chain_ok chain -> name ∉ map node_name chain ->
  (chain = [] /\ name = alias) \/ led_to chain name ->
  chain_ok (chain ++ [mkNode name (node_defined doc name)]).
Proof.
  intros [Hnd Hfl Hlk] Hnew Hlink. split.
  - rewrite map_app. apply NoDup_app. split_and!; [done| |apply NoDup_singleton].
    intros x Hx ->%list_elem_of_singleton. done.
  - intros n [Hn| ->%list_elem_of_singleton]%elem_of_app; [auto|done].
  - intros l1 n l2 Heq. destruct l2 as [|m l2] using rev_ind.
    + apply app_inj_tail in Heq as [-> <-]. simpl.
      destruct Hlink as [[-> ->]|?]; [left|right]; done.
    + clear IHl2. rewrite app_comm_cons, app_assoc in Heq. apply app_inj_tail in Heq as [-> _]. eauto.
Qed.

Lemma led_to_app c1 c2 name : led_to c1 name -> led_to (c1 ++ c2) name.
Proof. intros (n & Hn & Hh). exists n. split; [|done]. apply elem_of_app. by left. Qed.

(** With budget for every node up to the cap, the loop returns. *)
Lemma jump_loop_ok budget : forall chain visited pending,
  length chain + budget = S DEPTH_CAP -> chain_ok chain ->
  (forall x, x ∈ visited <-> x ∈ map node_name chain) ->
  (chain = [] /\ pending = [alias]) \/ (chain <> [] /\ forall x, x ∈ pending -> led_to chain x) ->
  exists res rest, jump_loop doc budget chain visited pending = Some res
    /\ chain_ok res /\ length res <= S DEPTH_CAP /\ res = chain ++ rest
    /\ (chain = [] -> res <> []).
Proof.
  induction budget as [|b IHb]; intros chain visited pending Hlen Hok Hv Hp;
    induction pending as [|name rest IHp].
  1, 3: exists chain, []; rewrite app_nil_r; split_and!; try done; [lia|];
    destruct Hp as [[_ [=]]|[? _]]; done.
  - exists chain, []. rewrite app_nil_r. cbn [jump_loop].
    replace (DEPTH_CAP <? length chain) with true by (symmetry; apply Nat.ltb_lt; lia).
    split_and!; try done; [lia|]. intros ->. simpl in Hlen. unfold DEPTH_CAP in Hlen. lia.
  - cbn [jump_loop].
    replace (DEPTH_CAP <? length chain) with false
      by (symmetry; apply Nat.ltb_ge; lia).
    destruct (existsb _ visited) eqn:Hvis.
    + apply existsb_elem in Hvis as (x & Hx & ->%bool_decide_eq_true). apply Hv in Hx.
      destruct Hp as [[-> _]|[Hne Hp]]; [by apply elem_of_nil in Hx|].
      apply IHp. right. split; [done|]. intros y Hy. apply Hp. by right.
    + assert (Hnew : name ∉ map node_name chain).
      { rewrite <-Hv. intros Hin. rewrite existsb_none in Hvis. specialize (Hvis _ Hin).
        by apply bool_decide_eq_false in Hvis. }
      assert (Hlink : (chain = [] /\ name = alias) \/ led_to chain name).
      { destruct Hp as [[-> [= -> ->]]|[_ Hp]]; [by left|right; apply Hp; by left]. }
      destruct (IHb (chain ++ [mkNode name (node_defined doc name)]) (name :: visited)
        (hops_of doc name ++ rest)) as (res & more & Hr & Hro & Hrl & Hrr & _).
      * rewrite length_app. simpl. lia.
      * by apply chain_ok_snoc.
      * intros x. rewrite map_app. cbn [map node_name]. rewrite elem_of_app, elem_of_cons, Hv, list_elem_of_singleton. tauto.
      * right. split; [by destruct chain|].
        intros x [Hx|Hx]%elem_of_app.
        -- eexists. split; [apply elem_of_app; right; by apply list_elem_of_singleton|done].
        -- destruct Hp as [[-> [= -> ->]]|[_ Hp]]; [by apply elem_of_nil in Hx|].
           apply led_to_app, Hp. by right.
      * exists res. eexists. split_and!; [exact Hr|done|done|rewrite Hrr; by rewrite <-app_assoc|].
        intros _ ->. by destruct chain.
Qed.
End Chain.

(** Resolving a ProxyJump chain always terminates, whatever loops the
    config holds, with at most six distinct nodes: the host itself first, each
    later node a hop of an earlier one, and each flag telling whether the
    config defines the node or it looks like a literal host. *)
Lemma jump_chain_terminates (doc : SshConfigDoc) (alias : str) :
  exists n chain, jump_chain doc alias = Some (n :: chain)
    /\ node_name n = alias /\ length (n :: chain) <= S DEPTH_CAP
    /\ NoDup (map node_name (n :: chain))
    /\ (forall m, m ∈ n :: chain -> node_is_defined m = node_defined doc (node_name m))
    /\ (forall l1 m l2, n :: chain = l1 ++ m :: l2 -> l1 <> [] -> led_to doc l1 (node_name m)).
Proof.
  destruct (jump_loop_ok doc alias (S DEPTH_CAP) [] [] [alias]) as (res & rest & Hr & Hok & Hl & _ & Hne).
  - done.
  - apply chain_ok_nil.
  - done.
  - by left.
  - destruct res as [|n chain]; [by specialize (Hne eq_refl)|]. exists n, chain.
    destruct Hok as [Hnd Hfl Hlk]. split_and!; try done.
    + destruct (Hlk [] n chain eq_refl) as [[_ ?]|(m & Hm & _)]; [done|]. by apply elem_of_nil in Hm.
    + intros l1 m l2 Heq Hl1. destruct (Hlk _ _ _ Heq) as [[-> _]|?]; done.
Qed.

(** ** Key slots *)

Lemma name_char_plain c : is_name_char c = true ->
  is_whitespace c = false /\ (c =? 34)%N = false /\ (c =? 47)%N = false /\ (c =? 92)%N = false.
Proof.
  unfold is_name_char, is_ascii_alphanumeric, is_ascii_digit, in_range, is_whitespace, in_range.
  intros H.
  assert (Hr : (45 <= c <= 57 /\ c <> 47 \/ 65 <= c <= 90 \/ 95 <= c <= 122)%N).
  { rewrite !orb_true_iff, !andb_true_iff, ?N.leb_le, ?N.eqb_eq in H. lia. }
  rewrite !orb_false_iff, !andb_false_iff, ?N.leb_gt, ?N.eqb_neq. lia.
Qed.

Lemma hex_name_char c : is_lower_hex c = true -> is_name_char c = true.
Proof.
  unfold is_lower_hex, is_name_char, is_ascii_alphanumeric, is_ascii_digit, in_range.
  rewrite !orb_true_iff, !andb_true_iff, ?N.leb_le, ?N.eqb_eq. lia.
Qed.

(** The IdentityFile value written for a key slot is recognised as that
    slot: for a non-empty file name of slot characters, reading the slot path
    back gives exactly the file name. *)
Lemma slot_value_roundtrip (file : str)
    (Hne : file <> []) (Hf : forallb is_name_char file = true) :
  slot_file_of_value (slot_value file) = Some file.
Proof.
  assert (Hlast : exists f0 c, file = f0 ++ [c] /\ is_name_char c = true).
  { destruct file as [|c f0 _] using rev_ind; [done|]. rewrite forallb_app in Hf. simpl in Hf.
    breflect. eauto. }
  destruct Hlast as (f0 & c & Hfile & Hc). apply name_char_plain in Hc as (Hw & Hq & _).
  assert (Hunq : unquote (slot_value file) = slot_value file).
  { unfold unquote, trim. replace (trim_start (slot_value file)) with (slot_value file) by done.
    rewrite (trim_end_id _ c); [by rewrite andb_false_r| |done].
    unfold slot_value. rewrite Hfile, !app_assoc. apply last_snoc. }
  unfold slot_file_of_value. rewrite Hunq. unfold slot_value.
  rewrite (proj2 (strip_prefix_Some _ _ _) eq_refl). cbn [mbind option_bind].
  rewrite (proj2 (strip_prefix_Some _ _ _) eq_refl). cbn [mbind option_bind].
  rewrite (proj2 (strip_prefix_Some _ _ _) eq_refl). cbn [mbind option_bind].
  rewrite bool_decide_false by done. simpl negb. simpl andb.
  replace (existsb _ file) with false; [done|]. symmetry. apply existsb_none.
  intros x Hx. apply (proj1 (forallb_elem _ _) Hf) in Hx.
  by apply name_char_plain in Hx as (_ & _ & -> & ->).
Qed.

(** ** Lint *)

(** The primary aliases of a list of items, in document order. *)
Definition item_alias (i : Item) : option str :=
  match i with Host h => head (patterns h) | _ => None end.
Definition primary_aliases (l : list Item) : list str := omap item_alias l.

Section LintProps.
Variable (path_exists path_is_file : str -> bool) (expand_token : str -> option str).
Variable (doc : SshConfigDoc) (slots : list str).

Abbreviation shadowed := (List.filter is_shadowed_rule).

Lemma filter_nil_all (iss : list LintIssue) :
  (forall i, i ∈ iss -> is_shadowed_rule i = false) -> shadowed iss = [].
Proof.
  intros H. apply filter_none, forallb_elem. intros i Hi. apply negb_true_iff. auto.
Qed.

Lemma lint_directive_rules file alias seen d i :
  i ∈ lint_directive path_exists path_is_file expand_token doc slots file alias seen d ->
  is_shadowed_rule i = false.
Proof.
  unfold lint_directive. rewrite !elem_of_app. intros [H|[H|[H|H]]].
  - destruct (_ && _); [|by apply elem_of_nil in H]. by apply list_elem_of_singleton in H as ->.
  - destruct (_ && _); [|by apply elem_of_nil in H].
    destruct (expand_token _); [|by apply elem_of_nil in H].
    destruct (identity_file_present _ _ _ _); [by apply elem_of_nil in H|].
    by apply list_elem_of_singleton in H as ->.
  - destruct (_ && _); [|by apply elem_of_nil in H]. by apply list_elem_of_singleton in H as ->.
  - destruct (bool_decide _); [|by apply elem_of_nil in H].
    apply list_elem_of_In, in_concat in H as (x & Hx & Hi).
    apply list_elem_of_In, list_elem_of_fmap in Hx as (hop & -> & _).
    apply list_elem_of_In in Hi.
    destruct (_ || _); [by apply elem_of_nil in Hi|].
    destruct (_ && _); [|by apply elem_of_nil in Hi]. by apply list_elem_of_singleton in Hi as ->.
Qed.

Lemma lint_body_rules file alias seen b :
  shadowed (lint_body path_exists path_is_file expand_token doc slots file alias seen b) = [].
Proof.
  revert seen. induction b as [|i b IH]; intros seen; [done|]. destruct i; cbn [lint_body]; auto.
  destruct (negb _); [auto|]. rewrite List.filter_app, IH, app_nil_r.
  apply filter_nil_all. apply lint_directive_rules.
Qed.

Lemma lint_items_shadow file seen l :
  NoDup seen ->
  let '(iss, seen') := lint_items path_exists path_is_file expand_token doc slots file seen l in
  (shadowed iss = [] <-> NoDup (reverse (primary_aliases l) ++ seen))
  /\ (shadowed iss = [] -> seen' = reverse (primary_aliases l) ++ seen).
Proof.
  revert seen. induction l as [|i l IH]; intros seen Hs; [done|].
  destruct i as [| | |h|]; try (cbn [lint_items]; exact (IH seen Hs)).
  cbn [lint_items]. unfold lint_host. unfold primary_aliases. cbn [omap list_omap item_alias].
  destruct (head (patterns h)) as [a|] eqn:Ha.
  2: { specialize (IH seen Hs). destruct (lint_items _ _ _ _ _ _ seen l) as [is2 seen2].
       cbn [app]. by rewrite List.filter_app, lint_body_rules. }
  rewrite reverse_cons, <-app_assoc. cbn [app].
  destruct (existsb _ seen) eqn:He.
  - destruct (lint_items _ _ _ _ _ _ seen l) as [is2 seen2].
    split; [|done]. split; [done|]. intros (_ & _ & Hnd)%NoDup_app.
    inversion Hnd as [|? ? Hna]; subst. apply existsb_elem in He as (x & Hx & ->%bool_decide_eq_true).
    done.
  - assert (Hn : NoDup (a :: seen)).
    { constructor; [|done]. intros Hin. rewrite existsb_none in He. specialize (He _ Hin).
      by apply bool_decide_eq_false in He. }
    specialize (IH (a :: seen) Hn). destruct (lint_items _ _ _ _ _ _ (a :: seen) l) as [is2 seen2].
    cbn [app]. by rewrite List.filter_app, lint_body_rules.
Qed.

(** The shadowed-host rule is exact: the linter reports no shadowed host
    precisely when the primary aliases of the whole document, over all its
    files, are pairwise distinct. *)
Lemma lint_shadow_exact :
  shadowed (lint path_exists path_is_file expand_token doc slots) = []
  <-> NoDup (concat (map (fun f => primary_aliases (items f)) (files doc))).
Proof.
  unfold lint. assert (Hgen : forall fs seen, NoDup seen ->
    shadowed (lint_files path_exists path_is_file expand_token doc slots seen fs) = []
    <-> NoDup (concat (map (fun f => primary_aliases (items f)) fs) ++ seen)).
  { induction fs as [|f fs IH]; intros seen Hs; [done|].
    cbn [lint_files map concat].
    pose proof (lint_items_shadow (path f) seen (items f) Hs) as Hit.
    destruct (lint_items _ _ _ _ _ _ seen (items f)) as [is1 seen1]. destruct Hit as [Hiff Hseen].
    rewrite List.filter_app. split.
    - intros [H1 H2]%app_eq_nil. rewrite (Hseen H1) in H2. apply IH in H2; [|by apply Hiff].
      rewrite reverse_Permutation in H2. rewrite <-app_assoc.
      by rewrite Permutation_app_swap_app.
    - intros Hnd. rewrite <-app_assoc, Permutation_app_swap_app in Hnd.
      rewrite <-(reverse_Permutation (primary_aliases (items f))) in Hnd.
      assert (H1 : shadowed is1 = []) by (apply Hiff; by apply NoDup_app in Hnd as (_ & _ & ?)).
      rewrite H1, (Hseen H1). apply IH; [|done]. by apply NoDup_app in Hnd as (_ & _ & ?). }
  rewrite (Hgen (files doc) [] (NoDup_nil_2)). by rewrite app_nil_r.
Qed.
End LintProps.
