(* ===== verification/SyncRecord.v ===== *)
(** * SyncRecord: records, their last-writer-wins order, and envelopes

    [src-tauri/src/sync/record.rs], and the sealed records of [state_v2.rs]
    ([VerifiedPublicIdentity], [SealedRecord], [sealed_key]). *)

From S2P Require Import Prelude Text BTreeMap SlotRules Json.

(** [RecordKind] with its wire names. *)
Inductive RecordKind :=
| KHost | KGroup | KKey | KPassword | KDevice | KMeta | KSpace | KSpaceKey | KKeySlot.

#[export] Instance record_kind_eq_dec : EqDecision RecordKind.
Proof. solve_decision. Defined.

Definition kind_as_str (k : RecordKind) : str :=
  match k with
  | KHost => lit "host"
  | KGroup => lit "group"
  | KKey => lit "key"
  | KPassword => lit "password"
  | KDevice => lit "device"
  | KMeta => lit "meta"
  | KSpace => lit "space"
  | KSpaceKey => lit "spacekey"
  | KKeySlot => lit "keyslot"
  end.

Definition kind_parse (s : str) : option RecordKind :=
  if s =?= lit "host" then Some KHost
  else if s =?= lit "group" then Some KGroup
  else if s =?= lit "key" then Some KKey
  else if s =?= lit "password" then Some KPassword
  else if s =?= lit "device" then Some KDevice
  else if s =?= lit "meta" then Some KMeta
  else if s =?= lit "space" then Some KSpace
  else if s =?= lit "spacekey" then Some KSpaceKey
  else if s =?= lit "keyslot" then Some KKeySlot
  else None.

(** Kinds whose plaintext holds secrets: only their ciphertext may be stored. *)
Definition is_secret (k : RecordKind) : bool :=
  match k with KKey | KPassword | KSpaceKey => true | _ => false end.

Record Rec := mkRec {
  rkind : RecordKind;
  rid : str;
  rversion : N;
  rupdated_at_ms : N;
  rdevice_id : str;
  rdeleted : bool;
  rpayload : Json
}.

(** [LocalRecord]: a cached record with the relay sequence it was last seen at. *)
Record LocalRecord := mkLocal { lrecord : Rec; lseq : N; ldirty : bool }.

#[export] Instance rec_eq_dec : EqDecision Rec.
Proof. solve_decision. Defined.
#[export] Instance local_record_eq_dec : EqDecision LocalRecord.
Proof. solve_decision. Defined.

Definition record_key (k : RecordKind) (id : str) : str := kind_as_str k ++ lit ":" ++ id.

(** ** Last writer wins *)

Inductive MergeOutcome := KeepLocal | TakeRemote | RemoteWinsOverDirtyLocal.

#[export] Instance merge_outcome_eq_dec : EqDecision MergeOutcome.
Proof. solve_decision. Defined.

(** The comparison inside [merge]: later timestamp, then a tombstone, then the
    smaller device id. *)
Definition remote_wins (remote mine : Rec) : bool :=
  match (rupdated_at_ms remote ?= rupdated_at_ms mine)%N with
  | Gt => true
  | Lt => false
  | Eq =>
      match rdeleted remote, rdeleted mine with
      | true, false => true
      | false, true => false
      | _, _ => str_ltb (rdevice_id remote) (rdevice_id mine)
      end
  end.

Definition merge (local : option LocalRecord) (remote : Rec) : MergeOutcome :=
  match local with
  | None => TakeRemote
  | Some l =>
      if negb (remote_wins remote (lrecord l)) then KeepLocal
      else if ldirty l then RemoteWinsOverDirtyLocal
      else TakeRemote
  end.

(** What the merge of a pulled row does with the outcome ([record_merge.rs],
    [merge_rows]): a kept record only catches up with the relay's sequence
    number, a beaten one is replaced by a clean copy of the remote record. *)
Definition merged (local : option LocalRecord) (remote : Rec) (seq : N) : option LocalRecord :=
  match merge local remote with
  | KeepLocal => (fun l => mkLocal (lrecord l) (N.max (lseq l) seq) (ldirty l)) <$> local
  | TakeRemote | RemoteWinsOverDirtyLocal => Some (mkLocal remote seq false)
  end.

(** ** Envelopes and sealed records *)

Record Envelope := mkEnvelope {
  eid_hash : str; ekind : str; eseq : N; enonce : str; eciphertext : str; edeleted : bool
}.

#[export] Instance envelope_eq_dec : EqDecision Envelope.
Proof. solve_decision. Defined.

Definition sealed_key (kind id_hash : str) : str := kind ++ lit ":" ++ id_hash.

(** [group_order::RECORD_ID]. *)
Definition ORDER_RECORD_ID : str := lit "library-group-order".

(** Authenticated ordering evidence of a record this version cannot read. *)
Record VerifiedPublicIdentity := mkIdentity {
  vid : str; vversion : N; vupdated_at_ms : N; vdevice_id : str; vdeleted : bool
}.

#[export] Instance identity_eq_dec : EqDecision VerifiedPublicIdentity.
Proof. solve_decision. Defined.

Definition is_valid_for (v : VerifiedPublicIdentity) (e : Envelope) : bool :=
  let public_id :=
    if (ekind e =?= lit "host") || (ekind e =?= lit "group") then is_host_id (vid v)
    else if ekind e =?= lit "keyslot" then is_slot_id (vid v)
    else if ekind e =?= lit "meta" then vid v =?= ORDER_RECORD_ID
    else false in
  public_id && (0 <? vversion v)%N && is_slot_id (vdevice_id v) && Bool.eqb (vdeleted v) (edeleted e).

(** [VerifiedPublicIdentity::header]. *)
Definition identity_header (v : VerifiedPublicIdentity) (k : RecordKind) : Rec :=
  mkRec k (vid v) (vversion v) (vupdated_at_ms v) (vdevice_id v) (vdeleted v) JNull.

Record SealedRecord := mkSealed {
  senvelope : Envelope; sdirty : bool; spublic_identity : option VerifiedPublicIdentity
}.

#[export] Instance sealed_eq_dec : EqDecision SealedRecord.
Proof. solve_decision. Defined.

(** ** Payloads of the account chain *)

Definition SCHEMA_VERSION : N := 1.
Definition ACCOUNT_META_ID : str := lit "account".
Definition ROTATION_META_PREFIX : str := lit "rotation:".

Record MetaPayload := mkMeta { schema_version : N; created_by_app_version : str }.

Definition rotation_meta_id (device_id : str) : str := ROTATION_META_PREFIX ++ device_id.
Definition rotation_marker_device (meta_id : str) : option str :=
  opt_filter (fun d => negb (d =?= [])) (strip_prefix ROTATION_META_PREFIX meta_id).

(** ** Names *)

Lemma kind_parse_as_str k : kind_parse (kind_as_str k) = Some k.
Proof. destruct k; reflexivity. Qed.

Lemma kind_as_str_inj k1 k2 : kind_as_str k1 = kind_as_str k2 -> k1 = k2.
Proof. intros H%(f_equal kind_parse). rewrite !kind_parse_as_str in H. congruence. Qed.

Lemma kind_no_colon k : contains_char 58 (kind_as_str k) = false.
Proof. by destruct k. Qed.

Lemma break_colon a b :
  contains_char 58 a = false -> break_at (N.eqb 58) (a ++ lit ":" ++ b) = (a, lit ":" ++ b).
Proof.
  induction a as [|c a IH]; [done|]. unfold contains_char. cbn [existsb]. intros [Hc Ha]%orb_false_iff.
  cbn [app break_at]. rewrite Hc. by rewrite IH.
Qed.

(** The cache key determines the kind and the id. *)
Lemma record_key_inj k1 id1 k2 id2 :
  record_key k1 id1 = record_key k2 id2 -> k1 = k2 /\ id1 = id2.
Proof.
  unfold record_key. intros H%(f_equal (break_at (N.eqb 58))).
  rewrite !break_colon in H by apply kind_no_colon. injection H as H1 H2.
  by apply kind_as_str_inj in H1.
Qed.

(** ** The order *)

(** The triple [merge] looks at. *)
Definition lww_key (r : Rec) : N * bool * str := (rupdated_at_ms r, rdeleted r, rdevice_id r).

Lemma remote_wins_irrefl r : remote_wins r r = false.
Proof.
  unfold remote_wins. rewrite N.compare_refl. destruct (rdeleted r); apply str_ltb_irrefl.
Qed.

Lemma remote_wins_asym r s : remote_wins r s = true -> remote_wins s r = false.
Proof.
  unfold remote_wins. rewrite (N.compare_antisym (rupdated_at_ms r)).
  destruct (_ ?= _)%N; simpl; try done.
  destruct (rdeleted r), (rdeleted s); try done; apply str_ltb_asym.
Qed.

Lemma remote_wins_trans r s t :
  remote_wins r s = true -> remote_wins s t = true -> remote_wins r t = true.
Proof.
  unfold remote_wins.
  destruct (N.compare_spec (rupdated_at_ms r) (rupdated_at_ms s)) as [E1|L1|G1]; try done;
    destruct (N.compare_spec (rupdated_at_ms s) (rupdated_at_ms t)) as [E2|L2|G2]; try done.
  - rewrite E1, E2, N.compare_refl.
    destruct (rdeleted r), (rdeleted s), (rdeleted t); try done; apply str_ltb_trans.
  - intros _ _. by rewrite (proj2 (N.compare_gt_iff _ _)) by lia.
  - intros _ _. by rewrite (proj2 (N.compare_gt_iff _ _)) by lia.
  - intros _ _. by rewrite (proj2 (N.compare_gt_iff _ _)) by lia.
Qed.

Lemma remote_wins_total r s :
  remote_wins r s = false -> remote_wins s r = false -> lww_key r = lww_key s.
Proof.
  unfold remote_wins, lww_key. rewrite (N.compare_antisym (rupdated_at_ms r)).
  destruct (N.compare_spec (rupdated_at_ms r) (rupdated_at_ms s)) as [->|L|G]; simpl; try done.
  destruct (rdeleted r), (rdeleted s); try done; intros H1 H2;
    by rewrite (str_ltb_total _ _ H1 H2).
Qed.

(** ** Convergence *)

(** A replica that receives the records [rs] of one id, with their relay
    sequence numbers, in that order. *)
Definition receive_all (start : option LocalRecord) (rs : list (Rec * N)) : option LocalRecord :=
  foldl (fun local e => merged local e.1 e.2) start rs.

(** No two different records share the triple: a device stamps each record it
    writes with a fresh time ([ordered_record]). *)
Definition no_ties (rs : list Rec) : Prop :=
  forall a b, a ∈ rs -> b ∈ rs -> lww_key a = lww_key b -> a = b.

(** The record that wins against every other. *)
Definition is_winner (w : Rec) (rs : list Rec) : Prop :=
  w ∈ rs /\ forall r, r ∈ rs -> r = w \/ remote_wins w r = true.

Lemma receive_all_winner rs : forall l,
  no_ties (lrecord l :: rs.*1) -> ldirty l = false ->
  exists l', receive_all (Some l) rs = Some l' /\ ldirty l' = false
    /\ is_winner (lrecord l') (lrecord l :: rs.*1).
Proof.
  induction rs as [|[r seq] rs IH]; intros l Hnt Hd.
  - exists l. split_and!; [done|done|]. split; [by left|]. intros x Hx%list_elem_of_singleton. by left.
  - cbn [receive_all foldl fst snd fmap list_fmap] in *. unfold merged, merge.
    assert (Hsub : forall x, x = lrecord l \/ x = r -> no_ties (x :: rs.*1)).
    { intros x Hx a b Ha Hb. apply Hnt; rewrite !elem_of_cons in *; destruct Hx as [->| ->]; tauto. }
    destruct (remote_wins r (lrecord l)) eqn:Hw; cbn [negb fmap option_fmap option_map].
    + rewrite Hd. destruct (IH (mkLocal r seq false)) as (w & Hr & Hwd & Hin & Hall); [by apply Hsub; right|done|].
      simpl in Hin, Hall. exists w. split_and!; [done|done|]. split; [rewrite !elem_of_cons in *; tauto|].
      intros x [->|Hx]%elem_of_cons; [|by apply Hall]. right.
      destruct (Hall r) as [Heq|Hwr]; [by left|by rewrite <-Heq|]. by eapply remote_wins_trans.
    + destruct (IH (mkLocal (lrecord l) (N.max (lseq l) seq) (ldirty l))) as (w & Hr & Hwd & Hin & Hall);
        [by apply Hsub; left|done|].
      simpl in Hin, Hall. exists w. split_and!; [done|done|]. split; [rewrite !elem_of_cons in *; tauto|].
      intros x Hx. rewrite !elem_of_cons in Hx.
      destruct Hx as [->|[->|Hx]]; [apply Hall; by left| |apply Hall; by right].
      destruct (remote_wins (lrecord l) r) eqn:Hw2.
      * right. destruct (Hall (lrecord l)) as [Heq|Hws]; [by left|by rewrite <-Heq|]. by eapply remote_wins_trans.
      * assert (Heq : r = lrecord l); [|rewrite Heq; apply Hall; by left].
        apply Hnt; rewrite ?elem_of_cons; auto. by apply remote_wins_total.
Qed.

Lemma winner_unique w1 w2 rs1 rs2 :
  (forall r, r ∈ rs1 <-> r ∈ rs2) -> is_winner w1 rs1 -> is_winner w2 rs2 -> w1 = w2.
Proof.
  intros Hrs [H1 A1] [H2 A2]. destruct (A1 w2) as [|Hw]; [by apply Hrs|done|].
  destruct (A2 w1) as [|Hw2]; [by apply Hrs|done|]. by rewrite (remote_wins_asym _ _ Hw) in Hw2.
Qed.


Definition example_rec (t : N) (deleted : bool) (dev : str) : Rec :=
  mkRec KHost (lit "0123456789abcdef") 1 t dev deleted JNull.
Definition example_rs : list (Rec * N) :=
  [(example_rec 5 false (lit "a"), 1%N); (example_rec 5 true (lit "b"), 2%N);
   (example_rec 4 false (lit "c"), 3%N)].

