(* ===== verification/RecordsTypes.v ===== *)
(** * RecordsTypes: the typed records of the connection library

    [src-tauri/src/sync/records_v3/types.rs].  Machine integers are [N]; a
    value wider than its Rust type does not occur in the program. *)

From S2P Require Import Prelude Text SlotRules Json SyncRecord.

Definition HOST_SCHEMA : N := 2.
Definition KEYSLOT_SCHEMA : N := 2.
Definition ACCOUNT_SCHEMA : N := 4.
Definition MIN_ACCOUNT_SCHEMA : N := 3.
Definition GROUP_SCHEMA : N := 1.
Definition GROUPED_HOST_SCHEMA : N := 3.
Definition GROUP_STATE_VERSION : N := 4.
Definition NAVIGATION_STATE_VERSION : N := 5.
Definition STATE_VERSION : N := 3.
Definition MAX_JUMPS : nat := 5.

Inductive MigrationPhase := AccountGated | Publishing | Active.
Record MigrationGate := mkGate { gate_id : str; source_digest : str; gate_phase : MigrationPhase }.

Inductive HostScope :=
| Local
| Space (space_id : str).

Inductive AuthKind := AuthKey | AuthPassword | AuthInteractive.

Record StoredHostKey := mkPin {
  pin_algorithm : str;
  pin_public_key : str;
  pin_fingerprint : str;
  pinned_at_ms : N;
  pinned_by_device_id : str
}.

Record UnsupportedSetting := mkUnsupported {
  us_keyword : str; us_value : str; requires_review : bool
}.

Record ImportedSettings := mkImported {
  is_source : str; is_at_ms : N; unsupported : list UnsupportedSetting
}.

Inductive InheritedField :=
| FPort | FUser | FAuthentication | FJump | FKeepaliveSecs | FKeepaliveMaxMissed
| FConnectTimeoutSecs.

Definition field_as_str (f : InheritedField) : str :=
  match f with
  | FPort => lit "port"
  | FUser => lit "user"
  | FAuthentication => lit "authentication"
  | FJump => lit "jump"
  | FKeepaliveSecs => lit "keepalive_secs"
  | FKeepaliveMaxMissed => lit "keepalive_max_missed"
  | FConnectTimeoutSecs => lit "connect_timeout_secs"
  end.

Record HostPayload := mkHost {
  hp_schema : N;
  hp_group_id : option str;
  hp_inherit : list InheritedField;
  hp_alias : str;
  hp_hostname : str;
  hp_port : N;
  hp_user : str;
  hp_auth : AuthKind;
  hp_key_id : option str;
  hp_jump : list str;
  hp_keepalive_secs : N;
  hp_keepalive_max_missed : N;
  hp_connect_timeout_secs : N;
  hp_host_key : option StoredHostKey;
  hp_tags : list str;
  hp_notes : str;
  hp_imported : option ImportedSettings
}.

Record HostRecord := mkHostRecord { hr_id : str; hr_scope : HostScope; hr_payload : HostPayload }.

Record KeySlotPayload := mkKeySlot {
  ks_schema : N;
  ks_name : str;
  ks_public_key : str;
  ks_fingerprint : str;
  ks_key_type : str;
  ks_has_passphrase : bool;
  ks_created_at_ms : N;
  ks_origin_device_id : str
}.

Inductive TypedRecord (T : Type) :=
| Live (x : T)
| Tombstone (id : str).
Arguments Live {T} x.
Arguments Tombstone {T} id.

Inductive ConnectionReadiness := CReady | CNeedsKey (id : str) | CNeedsReview.

Inductive RecordValidationError :=
| UnsupportedSchema (kind : str) (found : N)
| Invalid (field id reason : str)
| Decode (kind reason : str)
| WrongKind (expected found : str)
| DuplicateId (id : str)
| AliasConflict (alias : str) (scope : HostScope)
| AmbiguousAlias (alias : str)
| HostNotFound (id : str)
| MissingJump (host_id jump_id : str)
| JumpCycle (id : str)
| RepeatedJump (host_id jump_id : str)
| JumpDepth (id : str)
| PublicKeyMismatch (id : str)
| MigrationCollision (id first second : str).

Record GroupAuthentication := mkGroupAuth { ga_auth : AuthKind; ga_key_id : option str }.

Record GroupDefaults := mkDefaults {
  gd_port : option N;
  gd_user : option str;
  gd_authentication : option GroupAuthentication;
  gd_jump : option (list str);
  gd_keepalive_secs : option N;
  gd_keepalive_max_missed : option N;
  gd_connect_timeout_secs : option N
}.

Record GroupPayload := mkGroup {
  gp_schema : N;
  gp_name : str;
  gp_parent_id : option str;
  gp_defaults : GroupDefaults
}.

Record GroupRecord := mkGroupRecord { gr_id : str; gr_scope : HostScope; gr_payload : GroupPayload }.

#[export] Instance phase_eq_dec : EqDecision MigrationPhase.
Proof. solve_decision. Defined.
#[export] Instance scope_eq_dec : EqDecision HostScope.
Proof. solve_decision. Defined.
#[export] Instance auth_eq_dec : EqDecision AuthKind.
Proof. solve_decision. Defined.
#[export] Instance pin_eq_dec : EqDecision StoredHostKey.
Proof. solve_decision. Defined.
#[export] Instance unsupported_eq_dec : EqDecision UnsupportedSetting.
Proof. solve_decision. Defined.
#[export] Instance imported_eq_dec : EqDecision ImportedSettings.
Proof. solve_decision. Defined.
#[export] Instance field_eq_dec : EqDecision InheritedField.
Proof. solve_decision. Defined.
#[export] Instance host_payload_eq_dec : EqDecision HostPayload.
Proof. solve_decision. Defined.
#[export] Instance host_record_eq_dec : EqDecision HostRecord.
Proof. solve_decision. Defined.
#[export] Instance keyslot_eq_dec : EqDecision KeySlotPayload.
Proof. solve_decision. Defined.
#[export] Instance validation_error_eq_dec : EqDecision RecordValidationError.
Proof. solve_decision. Defined.
#[export] Instance group_auth_eq_dec : EqDecision GroupAuthentication.
Proof. solve_decision. Defined.
#[export] Instance defaults_eq_dec : EqDecision GroupDefaults.
Proof. solve_decision. Defined.
#[export] Instance group_payload_eq_dec : EqDecision GroupPayload.
Proof. solve_decision. Defined.
#[export] Instance group_record_eq_dec : EqDecision GroupRecord.
Proof. solve_decision. Defined.

(** Field updates on a payload. *)
Definition with_host_key (p : HostPayload) (k : option StoredHostKey) : HostPayload :=
  mkHost (hp_schema p) (hp_group_id p) (hp_inherit p) (hp_alias p) (hp_hostname p) (hp_port p)
    (hp_user p) (hp_auth p) (hp_key_id p) (hp_jump p) (hp_keepalive_secs p)
    (hp_keepalive_max_missed p) (hp_connect_timeout_secs p) k (hp_tags p) (hp_notes p)
    (hp_imported p).

(** [HostRecord { payload, ..host.clone() }]. *)
Definition with_payload (h : HostRecord) (p : HostPayload) : HostRecord :=
  mkHostRecord (hr_id h) (hr_scope h) p.
