(* ===== verification/RecordsValidate.v ===== *)
(** * RecordsValidate: what a record must satisfy to be stored or used

    [src-tauri/src/sync/records_v3/validate.rs].  The OpenSSH key parser of the
    [ssh_key] crate is the parameter [SshKeyLib]; the decoders take the derived
    serialization of each payload from [Serde]. *)

From S2P Require Import Prelude Text BTreeMap SlotRules Json SyncRecord RecordsTypes.

(** ** The jump route of a host

    The nested functions [append] and [add] appear twice in the sources, over
    record ids ([records_v3/validate.rs], [chain_ids]) and over indices of a
    snapshot ([record_repository.rs], [route_indices]); both are instances of
    the definitions below.  Only the first jump of a host inherits its own
    route; every other jump is taken as it is.

    The recursion pushes the current host on a stack that may not exceed
    [MAX_JUMPS + 1] entries, so [fuel] for one call more than that is enough;
    [append_fuel] shows that more fuel never changes the result. *)

Section Route.
Context {K : Type} `{EqDecision K}.
(** The id a host is reported under, its jumps, and the host a jump id of a
    host denotes. *)
Variable (name : K -> str) (jumps : K -> list str).
Variable (resolve : K -> str -> result RecordValidationError K).

Definition in_list (x : K) (l : list K) : bool := existsb (fun y => y =?= x) l.

Definition add (root : str) (out : list K) (x : K) : result RecordValidationError (list K) :=
  _ ← guard_err (in_list x out) (RepeatedJump root (name x));
  _ ← guard_err ((MAX_JUMPS + 1 <? length (out ++ [x]))%nat) (JumpDepth root);
  Ok (out ++ [x]).

(** A jump of [current]: it exists and is not on the stack. *)
Definition jump_of (current : K) (root : str) (stack : list K) (id : str)
  : result RecordValidationError K :=
  jump ← resolve current id;
  _ ← guard_err (in_list jump stack) (JumpCycle root);
  Ok jump.

Fixpoint append (fuel : nat) (current : K) (root : str) (stack out : list K)
  : result RecordValidationError (list K) :=
  _ ← guard_err (in_list current stack) (JumpCycle root);
  let stack := current :: stack in
  _ ← guard_err ((MAX_JUMPS + 1 <? length stack)%nat) (JumpDepth root);
  match fuel with
  | O => Err (JumpDepth root)
  | S fuel' =>
      out ← match jumps current with
            | [] => Ok out
            | first :: rest =>
                jump ← jump_of current root stack first;
                out ← append fuel' jump root stack out;
                try_fold (fun out id =>
                  jump ← jump_of current root stack id;
                  add root out jump) out rest
            end;
      add root out current
  end.

Definition ROUTE_FUEL : nat := MAX_JUMPS + 2.

(** The reference: the route of the first jump, the other jumps, the host. *)
Fixpoint route_spec (fuel : nat) (current : K) : list K :=
  match fuel with
  | O => [current]
  | S fuel' =>
      match omap (fun id => result_ok (resolve current id)) (jumps current) with
      | [] => [current]
      | first :: rest => route_spec fuel' first ++ rest ++ [current]
      end
  end.

Lemma in_list_spec x l : in_list x l = true <-> x ∈ l.
Proof.
  unfold in_list. rewrite existsb_elem. setoid_rewrite bool_decide_eq_true. naive_solver.
Qed.

Lemma add_Ok root out x out' :
  add root out x = Ok out' ->
  out' = out ++ [x] /\ (x ∉ out) /\ length out' <= MAX_JUMPS + 1.
Proof.
  unfold add. intros H. ok_inv. breflect. split_and!; [done| |done].
  rewrite <-in_list_spec. congruence.
Qed.

Lemma jump_of_Ok current root stack id j :
  jump_of current root stack id = Ok j -> resolve current id = Ok j /\ j ∉ stack.
Proof. unfold jump_of. intros H. ok_inv. rewrite <-in_list_spec. split; congruence. Qed.

(** The other jumps are added in order. *)
Lemma add_jumps_Ok current root stack rest : forall out out',
  try_fold (fun out id => jump ← jump_of current root stack id; add root out jump) out rest = Ok out' ->
  NoDup out ->
  out' = out ++ omap (fun id => result_ok (resolve current id)) rest /\ NoDup out'
  /\ (forall id, id ∈ rest -> exists j, resolve current id = Ok j).
Proof.
  induction rest as [|id rest IH]; intros out out' H Hnd; simpl in H; ok_inv.
  - rewrite app_nil_r. split_and!; try done. intros id Hid. by apply elem_of_nil in Hid.
  - apply jump_of_Ok in Hok0 as [Hr _]. apply add_Ok in Hok as (-> & Hni & _).
    apply IH in H as (-> & Hnd' & Hall).
    + cbn [omap list_omap]. rewrite Hr. cbn. rewrite <-app_assoc. split_and!; try done.
      * by rewrite <-app_assoc in Hnd'.
      * intros x [->|Hx]%elem_of_cons; eauto.
    + apply NoDup_app. split_and!; [done| |apply NoDup_singleton].
      intros y Hy ->%list_elem_of_singleton. done.
Qed.

(** What a successful run appends. *)
Lemma append_Ok fuel : forall current root stack out out',
  append fuel current root stack out = Ok out' -> NoDup out ->
  out' = out ++ route_spec fuel current /\ NoDup out' /\ length out' <= MAX_JUMPS + 1.
Proof.
  induction fuel as [|fuel IH]; intros current root stack out out' H Hnd; simpl in H; ok_inv.
  assert (Hmid : v1 ++ [current] = out ++ route_spec (S fuel) current /\ NoDup v1).
  { cbn [route_spec]. destruct (jumps current) as [|first rest]; ok_inv; [done|].
    apply jump_of_Ok in Hok2 as [Hr _]. apply IH in Hok3 as (-> & Hnd2 & _); [|done].
    apply add_jumps_Ok in Hok1 as (-> & Hnd3 & _); [|done].
    cbn [omap list_omap]. rewrite Hr. cbn. split; [by rewrite <-!app_assoc|done]. }
  destruct Hmid as [Heq Hnd1]. apply add_Ok in H as (-> & Hni & Hlen).
  split_and!; [done| |done]. apply NoDup_app. split_and!; [done| |apply NoDup_singleton].
  intros y Hy ->%list_elem_of_singleton. done.
Qed.

(** Fuel beyond the stack bound never changes the result. *)
Lemma append_fuel f1 : forall f2 current root stack out,
  MAX_JUMPS + 1 < f1 + length stack -> MAX_JUMPS + 1 < f2 + length stack ->
  append f1 current root stack out = append f2 current root stack out.
Proof.
  induction f1 as [|f1 IH]; intros f2 current root stack out H1 H2.
  - destruct f2; cbn [append]; (destruct (in_list current stack); [done|]);
      replace ((MAX_JUMPS + 1 <? length (current :: stack))%nat) with true
        by (symmetry; apply Nat.ltb_lt; cbn [length]; lia); done.
  - destruct f2 as [|f2]; cbn [append]; (destruct (in_list current stack); [done|]);
      cbn [guard_err mbind result_bind];
      destruct ((MAX_JUMPS + 1 <? length (current :: stack))%nat) eqn:Hl; try done;
      apply Nat.ltb_ge in Hl; cbn [length] in Hl; [lia|].
    cbn [guard_err mbind result_bind]. destruct (jumps current) as [|first rest]; [done|].
    destruct (jump_of current root (current :: stack) first) as [j|]; [|done].
    cbn [mbind result_bind]. rewrite (IH f2 j root (current :: stack) out) by (cbn [length]; lia). done.
Qed.

(** Every jump of a routed host exists and is part of the route before it. *)
Lemma append_jumps fuel current root stack out out' :
  append fuel current root stack out = Ok out' -> NoDup out ->
  forall id, id ∈ jumps current -> exists j, resolve current id = Ok j /\ j ∈ route_spec fuel current.
Proof.
  destruct fuel as [|fuel]; intros H Hnd id Hid; simpl in H; ok_inv.
  cbn [route_spec]. destruct (jumps current) as [|first rest] eqn:Hj; [by apply elem_of_nil in Hid|].
  ok_inv. apply jump_of_Ok in Hok2 as [Hr _]. apply append_Ok in Hok3 as (-> & Hnd2 & _); [|done].
  apply add_jumps_Ok in Hok1 as (-> & Hnd3 & Hall); [|done].
  cbn [omap list_omap]. rewrite Hr. cbn. apply elem_of_cons in Hid as [->|Hid].
  - eexists. split; [exact Hr|]. apply elem_of_app. left. clear.
    destruct fuel; simpl; [by left|]. destruct (omap _ _); [by left|].
    rewrite !elem_of_app, list_elem_of_singleton. tauto.
  - destruct (Hall _ Hid) as [j Hjr]. exists j. split; [done|].
    rewrite !elem_of_app. right. left. apply list_elem_of_omap. exists id. by rewrite Hjr.
Qed.

Lemma route_spec_last fuel current : last (route_spec fuel current) = Some current.
Proof. destruct fuel; simpl; [done|]. destruct (omap _ _); [done|]. by rewrite app_assoc, last_snoc. Qed.
End Route.

(** The route depends on its parameters pointwise. *)
Lemma append_ext {K} `{EqDecision K} (n1 n2 : K -> str) (j1 j2 : K -> list str)
    (r1 r2 : K -> str -> result RecordValidationError K) :
  (forall k, n1 k = n2 k) -> (forall k, j1 k = j2 k) -> (forall k s, r1 k s = r2 k s) ->
  forall fuel current root stack out,
  append n1 j1 r1 fuel current root stack out = append n2 j2 r2 fuel current root stack out.
Proof.
  intros Hn Hj Hr.
  assert (Hadd : forall root out x, add n1 root out x = add n2 root out x)
    by (intros; unfold add; by rewrite Hn).
  assert (Hjump : forall c root stack id, jump_of r1 c root stack id = jump_of r2 c root stack id)
    by (intros; unfold jump_of; by rewrite Hr).
  induction fuel as [|fuel IH]; intros current root stack out; cbn [append]; [done|].
  destruct (guard_err (in_list current stack) _); [cbn [mbind result_bind]|done].
  destruct (guard_err _ (JumpDepth root)); [cbn [mbind result_bind]|done].
  rewrite Hj. destruct (j2 current) as [|first rest]; [cbn; by rewrite Hadd|].
  rewrite Hjump. destruct (jump_of r2 _ _ _ first) as [j|]; [cbn [mbind result_bind]|done].
  rewrite IH. destruct (append n2 j2 r2 fuel _ _ _ _) as [o|]; [cbn [mbind result_bind]|done].
  match goal with |- (?a ≫= _) = (?b ≫= _) => assert (Hab : a = b) end.
  { clear IH. revert o. induction rest as [|id rest IHr]; intros o; cbn [try_fold]; [done|].
    rewrite Hjump. destruct (jump_of r2 _ _ _ id) as [x|]; [cbn [mbind result_bind]|done].
    rewrite Hadd. destruct (add n2 root o x); [cbn [mbind result_bind]|done]. apply IHr. }
  rewrite Hab. match goal with |- (?a ≫= _) = _ => destruct a end; cbn [mbind result_bind];
    [apply Hadd|done].
Qed.

(** [ssh_key::PublicKey]: parsing, algorithm name, SHA-256 fingerprint and
    comparison of the key data. *)
Class SshKeyLib := {
  PublicKey : Type;
  from_openssh : str -> option PublicKey;
  pk_algorithm : PublicKey -> str;
  pk_fingerprint : PublicKey -> str;
  pk_key_data_eqb : PublicKey -> PublicKey -> bool
}.

Abbreviation vresult := (result RecordValidationError).

Definition v_invalid (field : string) (id : str) (reason : string) : RecordValidationError :=
  Invalid (lit field) id (lit reason).

Definition check_schema (kind : str) (found expected : N) : vresult unit :=
  guard_err (negb (found =? expected)%N) (UnsupportedSchema kind found).

(** [chars().any(|c| c.is_whitespace() || c.is_control())]. *)
Definition has_space_or_control (s : str) : bool :=
  existsb (fun c => is_whitespace c || is_control c) s.

(** [b.is_ascii_alphanumeric() || b"._@%-".contains(&b)]. *)
Definition is_alias_byte (b : N) : bool :=
  is_ascii_alphanumeric b || (b =? 46)%N || (b =? 95)%N || (b =? 64)%N || (b =? 37)%N || (b =? 45)%N.

Definition valid_alias (a : str) : bool :=
  negb (a =?= []) && negb (starts_with (lit "-") a) && forallb is_alias_byte (utf8 a).

Section Validate.
Context {L : SshKeyLib}.

Definition parse_public (line id : str) : vresult PublicKey :=
  ok_or (from_openssh (trim line)) (v_invalid "public_key" id "not a complete OpenSSH public key").

Definition check_scope (scope : HostScope) (e : RecordValidationError) : vresult unit :=
  match scope with
  | Local => Ok tt
  | Space space_id => guard_err (negb (is_chain_id space_id)) e
  end.

(** The pin of a host: a device id and a key that is what it says it is. *)
Definition check_pin (id : str) (pin : StoredHostKey) : vresult unit :=
  _ ← guard_err (negb (is_slot_id (pinned_by_device_id pin)))
        (v_invalid "pinned_by_device_id" id "expected a device id");
  key ← parse_public (pin_algorithm pin ++ lit " " ++ pin_public_key pin) id;
  guard_err (negb (pk_algorithm key =?= pin_algorithm pin)
             || negb (pk_fingerprint key =?= pin_fingerprint pin))
    (PublicKeyMismatch id).

Definition validate_host_shape (host : HostRecord) : vresult unit :=
  let p := hr_payload host in
  let id := hr_id host in
  _ ← guard_err (negb ((hp_schema p =? HOST_SCHEMA)%N || (hp_schema p =? GROUPED_HOST_SCHEMA)%N))
        (UnsupportedSchema (lit "host") (hp_schema p));
  _ ← guard_err ((hp_schema p =? HOST_SCHEMA)%N
                 && (is_some (hp_group_id p) || negb (hp_inherit p =?= [])))
        (v_invalid "group_id" id "inheritance requires host schema 3");
  _ ← guard_err (is_some_and (fun g => negb (is_host_id g)) (hp_group_id p)
                 || negb (bool_decide (NoDup (hp_inherit p))))
        (v_invalid "inherit" id "invalid group or duplicate inherited field");
  _ ← guard_err (negb (is_host_id id)) (v_invalid "id" id "expected 16 lowercase hex characters");
  _ ← check_scope (hr_scope host) (v_invalid "space_id" id "expected a valid chain id");
  _ ← guard_err (negb (valid_alias (hp_alias p))) (v_invalid "alias" id "not a valid CLI alias");
  _ ← guard_err ((hp_hostname p =?= []) || has_space_or_control (hp_hostname p))
        (v_invalid "hostname" id "missing or invalid endpoint");
  _ ← guard_err (hp_port p =? 0)%N (v_invalid "port" id "must be between 1 and 65535");
  _ ← guard_err (has_space_or_control (hp_user p))
        (v_invalid "user" id "contains whitespace or control characters");
  _ ← guard_err (hp_connect_timeout_secs p =? 0)%N
        (v_invalid "connect_timeout_secs" id "must be nonzero");
  _ ← guard_err ((hp_auth p =?= AuthKey) && is_none (hp_key_id p))
        (v_invalid "key_id" id "key authentication requires a key reference");
  _ ← guard_err (is_some_and (fun k => negb (is_slot_id k)) (hp_key_id p))
        (v_invalid "key_id" id "expected an existing-format vault id");
  _ ← try_for (fun j => guard_err (negb (is_host_id j)) (v_invalid "jump" id "expected host ids"))
        (hp_jump p);
  match hp_host_key p with
  | Some pin => check_pin id pin
  | None => Ok tt
  end.

(** The loop over the jumps of one host. *)
Fixpoint check_jumps (id : str) (seen jumps : list str) : vresult unit :=
  match jumps with
  | [] => Ok tt
  | j :: rest =>
      _ ← guard_err (j =?= id) (JumpCycle id);
      _ ← guard_err (existsb (fun s => s =?= j) seen) (RepeatedJump id j);
      check_jumps id (j :: seen) rest
  end.

Definition validate_host (host : HostRecord) : vresult unit :=
  _ ← validate_host_shape host;
  _ ← check_jumps (hr_id host) [] (hp_jump (hr_payload host));
  guard_err ((MAX_JUMPS <? length (hp_jump (hr_payload host)))%nat) (JumpDepth (hr_id host)).

Definition validate_keyslot (id : str) (slot : KeySlotPayload) : vresult unit :=
  _ ← check_schema (lit "keyslot") (ks_schema slot) KEYSLOT_SCHEMA;
  _ ← guard_err (negb (is_slot_id id)) (v_invalid "id" id "expected 32 lowercase hex characters");
  _ ← guard_err ((trim (ks_name slot) =?= []) || existsb is_control (ks_name slot))
        (v_invalid "name" id "missing or invalid label");
  _ ← guard_err (negb (is_slot_id (ks_origin_device_id slot)))
        (v_invalid "origin_device_id" id "expected a device id");
  key ← parse_public (ks_public_key slot) id;
  guard_err (negb (pk_algorithm key =?= ks_key_type slot)
             || negb (pk_fingerprint key =?= ks_fingerprint slot))
    (PublicKeyMismatch id).

(** [connection_readiness]; the [expect] on the key reference is the branch with
    no key id, which [validate_host] excludes. *)
Definition connection_readiness (host : HostRecord) (available_keys : bset)
  : vresult (option ConnectionReadiness) :=
  _ ← validate_host host;
  if is_some_and (fun i => existsb requires_review (unsupported i)) (hp_imported (hr_payload host))
  then Ok (Some CNeedsReview)
  else if hp_auth (hr_payload host) =?= AuthKey then
    match hp_key_id (hr_payload host) with
    | Some id => if bs_contains id available_keys then Ok (Some CReady) else Ok (Some (CNeedsKey id))
    | None => Ok None
    end
  else Ok (Some CReady).

(** ** The host list *)

Definition find_by_id (hosts : list HostRecord) (id : str) : option HostRecord :=
  List.find (fun h => hr_id h =?= id) hosts.

(** [chain_ids]: the route as ids; hosts are looked up by id and a missing jump
    is an error. *)
Definition chain_ids (hosts : list HostRecord) (target : HostRecord) : vresult (list str) :=
  let host_of id := if id =?= hr_id target then Some target else find_by_id hosts id in
  append id (fun i => from_option (fun h => hp_jump (hr_payload h)) [] (host_of i))
    (fun current j => _ ← ok_or (find_by_id hosts j) (MissingJump current j); Ok j)
    ROUTE_FUEL (hr_id target) (hr_id target) [] [].

(** The first loop of [validate_hosts]: shape, distinct ids, distinct aliases per scope. *)
Fixpoint check_each (ids : list str) (aliases : list (HostScope * str)) (hosts : list HostRecord)
  : vresult unit :=
  match hosts with
  | [] => Ok tt
  | host :: rest =>
      let alias := hp_alias (hr_payload host) in
      _ ← validate_host host;
      _ ← guard_err (existsb (fun i => i =?= hr_id host) ids) (DuplicateId (hr_id host));
      _ ← guard_err (existsb (fun a => a =?= (hr_scope host, alias)) aliases)
            (AliasConflict alias (hr_scope host));
      check_each (hr_id host :: ids) ((hr_scope host, alias) :: aliases) rest
  end.

Definition validate_hosts (hosts : list HostRecord) : vresult unit :=
  _ ← check_each [] [] hosts;
  try_for (fun h => _ ← chain_ids hosts h; Ok tt) hosts.

Definition resolve_alias (hosts : list HostRecord) (alias : str) : vresult HostRecord :=
  _ ← validate_hosts hosts;
  match List.filter (fun h => hp_alias (hr_payload h) =?= alias) hosts with
  | [] => Err (HostNotFound alias)
  | [h] => Ok h
  | _ => Err (AmbiguousAlias alias)
  end.

(** ** Decoding *)

(** [payload_schema]. *)
Definition payload_schema (r : Rec) (kind : str) (expected : N) : vresult unit :=
  found ← ok_or (opt_filter (fun n => (n <=? u32_max)%N) (json_u64 (lit "schema") (rpayload r)))
            (v_invalid "schema" (rid r) "missing or invalid schema");
  check_schema kind found expected.

Definition decode_host `{Serde HostPayload} (r : Rec) (scope : HostScope)
  : vresult (TypedRecord HostRecord) :=
  _ ← guard_err (negb (rkind r =?= KHost)) (WrongKind (lit "host") (kind_as_str (rkind r)));
  _ ← guard_err (negb (is_host_id (rid r))) (v_invalid "id" (rid r) "expected a host id");
  if rdeleted r then Ok (Tombstone (rid r))
  else
    let schema := default 0%N (json_u64 (lit "schema") (rpayload r)) in
    _ ← guard_err (negb ((schema =? 2)%N || (schema =? 3)%N))
          (UnsupportedSchema (lit "host") (if (schema <=? u32_max)%N then schema else u32_max));
    payload ← map_err (fun e => Decode (lit "host") e) (from_value (rpayload r));
    let host := mkHostRecord (rid r) scope payload in
    _ ← validate_host_shape host;
    Ok (Live host).

Definition decode_keyslot `{Serde KeySlotPayload} (r : Rec) : vresult (TypedRecord KeySlotPayload) :=
  _ ← guard_err (negb (rkind r =?= KKeySlot)) (WrongKind (lit "keyslot") (kind_as_str (rkind r)));
  _ ← guard_err (negb (is_slot_id (rid r))) (v_invalid "id" (rid r) "expected a keyslot id");
  if rdeleted r then Ok (Tombstone (rid r))
  else
    _ ← payload_schema r (lit "keyslot") KEYSLOT_SCHEMA;
    slot ← map_err (fun e => Decode (lit "keyslot") e) (from_value (rpayload r));
    _ ← validate_keyslot (rid r) slot;
    Ok (Live slot).

Definition key_material_matches (slot : KeySlotPayload) (local_public_key local_fingerprint : str)
  : vresult unit :=
  _ ← check_schema (lit "keyslot") (ks_schema slot) KEYSLOT_SCHEMA;
  authoritative ← parse_public (ks_public_key slot) (lit "account keyslot");
  local ← parse_public local_public_key (lit "local key");
  let expected := pk_fingerprint authoritative in
  guard_err (negb (pk_key_data_eqb authoritative local)
             || negb (expected =?= ks_fingerprint slot)
             || negb (expected =?= local_fingerprint)
             || negb (pk_algorithm authoritative =?= ks_key_type slot))
    (PublicKeyMismatch (lit "account keyslot")).

(** [replace_host_payload]: a new endpoint drops the old endpoint's pin. *)
Definition replace_host_payload (host : HostRecord) (payload : HostPayload) : vresult HostRecord :=
  let payload :=
    if negb (hp_hostname (hr_payload host) =?= hp_hostname payload)
       || negb (hp_port (hr_payload host) =? hp_port payload)%N
    then with_host_key payload None else payload in
  let updated := with_payload host payload in
  _ ← validate_host updated;
  Ok updated.

(** ** Groups *)

Definition check_group_auth (id : str) (a : GroupAuthentication) : vresult unit :=
  guard_err (negb (Bool.eqb (ga_auth a =?= AuthKey) (is_some (ga_key_id a)))
             || is_some_and (fun k => negb (is_slot_id k)) (ga_key_id a))
    (v_invalid "authentication" id "authentication and key identity must be consistent").

Definition check_group_jumps (id : str) (jumps : list str) : vresult unit :=
  guard_err ((MAX_JUMPS <? length jumps)%nat || existsb (fun j => negb (is_host_id j)) jumps
             || negb (bool_decide (NoDup jumps)))
    (v_invalid "jump" id "invalid jump defaults").

Definition validate_group (group : GroupRecord) : vresult unit :=
  let p := gr_payload group in
  let id := gr_id group in
  let d := gp_defaults p in
  _ ← check_schema (lit "group") (gp_schema p) GROUP_SCHEMA;
  _ ← guard_err (negb (is_host_id id) || is_some_and (fun i => negb (is_host_id i)) (gp_parent_id p))
        (v_invalid "id" id "expected group ids");
  _ ← check_scope (gr_scope group) (v_invalid "scope" id "invalid space id");
  _ ← guard_err (negb (trim (gp_name p) =?= gp_name p) || (gp_name p =?= [])
                 || (128 <? length (gp_name p))%nat || existsb is_control (gp_name p))
        (v_invalid "name" id "expected a trimmed name of 1 to 128 characters");
  _ ← guard_err ((gd_port d =?= Some 0%N) || (gd_connect_timeout_secs d =?= Some 0%N)
                 || is_some_and (existsb (fun c => is_control c || is_whitespace c)) (gd_user d))
        (v_invalid "defaults" id "invalid connection defaults");
  _ ← from_option (check_group_auth id) (Ok tt) (gd_authentication d);
  from_option (check_group_jumps id) (Ok tt) (gd_jump d).

Definition decode_group `{Serde GroupPayload} (r : Rec) (scope : HostScope)
  : vresult (TypedRecord GroupRecord) :=
  _ ← guard_err (negb (rkind r =?= KGroup)) (WrongKind (lit "group") (kind_as_str (rkind r)));
  _ ← guard_err (negb (is_host_id (rid r))) (v_invalid "id" (rid r) "expected a group id");
  if rdeleted r then Ok (Tombstone (rid r))
  else
    payload ← map_err (fun e => Decode (lit "group") e) (from_value (rpayload r));
    let group := mkGroupRecord (rid r) scope payload in
    _ ← validate_group group;
    Ok (Live group).
End Validate.
