(* ===== verification/RecordsValidateProps.v ===== *)
(** * RecordsValidateProps: what validated records guarantee *)

From S2P Require Import Prelude Text BTreeMap SlotRules Json SyncRecord RecordsTypes RecordsValidate.

Lemma hex_id_chars n id :
  (str_len id =? n) && forallb is_lower_hex (utf8 id) = true ->
  length id = n /\ forallb is_lower_hex id = true.
Proof.
  intros [Hlen Hhex]%andb_true_iff. apply Nat.eqb_eq in Hlen. unfold str_len in Hlen.
  assert (Hid : forall s, forallb is_lower_hex (utf8 s) = true -> utf8 s = s).
  { induction s as [|c s IH]; [done|]. unfold utf8. cbn [flat_map]. rewrite forallb_app.
    intros [Hc Hs]%andb_true_iff. fold (utf8 s) in Hs |- *. rewrite IH by done.
    replace (utf8_char c) with [c]; [done|].
    unfold utf8_char in *. destruct (c <? 128)%N eqn:H1; [done|].
    destruct (c <? 2048)%N eqn:H2; [|destruct (c <? 65536)%N eqn:H3];
      cbn [forallb] in Hc; apply andb_true_iff in Hc as [Hc _];
      unfold is_lower_hex, is_ascii_digit, in_range in Hc;
      rewrite orb_true_iff, !andb_true_iff, !N.leb_le in Hc; revert Hc;
      generalize (c / 64)%N (c / 4096)%N (c / 262144)%N; intros; lia. }
  pose proof (Hid _ Hhex) as Heq. rewrite Heq in Hlen, Hhex. done.
Qed.

(** An alias that passed is safe on a command line. *)
Lemma valid_alias_chars a :
  valid_alias a = true ->
  a <> [] /\ head a <> Some 45%N /\ forall c, c ∈ a -> is_alias_byte c = true.
Proof.
  unfold valid_alias. intros. breflect. split_and!; [done| |].
  - intros Hh. destruct a as [|c a]; [done|]. injection Hh as ->. done.
  - intros c Hc. rewrite forallb_elem in H0.
    assert (Hu : forall b, b ∈ utf8_char c -> is_alias_byte b = true).
    { intros b Hb. apply H0. unfold utf8. apply list_elem_of_In, in_flat_map.
      exists c. by rewrite <-!list_elem_of_In. }
    unfold utf8_char in Hu. destruct (c <? 128)%N eqn:Hlt; [apply Hu; by left|].
    exfalso.
    assert (Hbig : exists b, (128 <= b)%N /\ is_alias_byte b = true).
    { destruct (c <? 2048)%N; [|destruct (c <? 65536)%N];
        (eexists; split; [|apply Hu; by left];
         generalize (c / 64)%N (c / 4096)%N (c / 262144)%N; intros; lia). }
    destruct Hbig as (b & Hb & Ha). unfold is_alias_byte, is_ascii_alphanumeric, is_ascii_digit, in_range in Ha.
    rewrite !orb_true_iff, !andb_true_iff, !N.leb_le, !N.eqb_eq in Ha. lia.
Qed.

Lemma check_jumps_Ok id seen jumps u :
  check_jumps id seen jumps = Ok u ->
  (id ∉ jumps) /\ NoDup jumps /\ (forall j, j ∈ jumps -> j ∉ seen).
Proof.
  revert seen. induction jumps as [|j jumps IH]; intros seen H; simpl in H; ok_inv.
  - split_and!; [apply not_elem_of_nil|constructor|]. intros j Hj. by apply elem_of_nil in Hj.
  - breflect. apply IH in H as (H1 & H2 & H3). rewrite existsb_none in Hok0. split_and!.
    + rewrite not_elem_of_cons. split; [congruence|done].
    + constructor; [|done]. intros Hj. apply (H3 _ Hj). by left.
    + intros x [->|Hx]%elem_of_cons Hs.
      * specialize (Hok0 _ Hs). by rewrite bool_decide_true in Hok0.
      * apply (H3 _ Hx). by right.
Qed.

(** What an accepted host satisfies. *)
Record host_ok {L : SshKeyLib} (h : HostRecord) : Prop := {
  ho_id : length (hr_id h) = 16 /\ forallb is_lower_hex (hr_id h) = true;
  ho_scope : forall s, hr_scope h = Space s -> length s = 64 /\ forallb is_lower_hex s = true;
  ho_schema : hp_schema (hr_payload h) = 2%N \/ hp_schema (hr_payload h) = 3%N;
  ho_group : hp_schema (hr_payload h) = 2%N ->
             hp_group_id (hr_payload h) = None /\ hp_inherit (hr_payload h) = [];
  ho_alias : hp_alias (hr_payload h) <> [] /\ head (hp_alias (hr_payload h)) <> Some 45%N
             /\ forall c, c ∈ hp_alias (hr_payload h) -> is_alias_byte c = true;
  ho_hostname : hp_hostname (hr_payload h) <> []
                /\ forall c, c ∈ hp_hostname (hr_payload h) -> is_whitespace c = false /\ is_control c = false;
  ho_port : hp_port (hr_payload h) <> 0%N;
  ho_timeout : hp_connect_timeout_secs (hr_payload h) <> 0%N;
  ho_user : forall c, c ∈ hp_user (hr_payload h) -> is_whitespace c = false /\ is_control c = false;
  ho_key : hp_auth (hr_payload h) = AuthKey ->
           exists k, hp_key_id (hr_payload h) = Some k /\ length k = 32 /\ forallb is_lower_hex k = true;
  ho_pin : forall pin, hp_host_key (hr_payload h) = Some pin ->
           exists key, from_openssh (trim (pin_algorithm pin ++ lit " " ++ pin_public_key pin)) = Some key
             /\ pk_fingerprint key = pin_fingerprint pin /\ pk_algorithm key = pin_algorithm pin
}.

Lemma space_control_free s :
  has_space_or_control s = false -> forall c, c ∈ s -> is_whitespace c = false /\ is_control c = false.
Proof.
  unfold has_space_or_control. rewrite existsb_none. intros H c Hc.
  by apply orb_false_iff, H.
Qed.

Section Props.
Context {L : SshKeyLib}.

Lemma check_pin_Ok id pin u :
  check_pin id pin = Ok u ->
  exists key, from_openssh (trim (pin_algorithm pin ++ lit " " ++ pin_public_key pin)) = Some key
    /\ pk_fingerprint key = pin_fingerprint pin /\ pk_algorithm key = pin_algorithm pin.
Proof.
  unfold check_pin, parse_public. intros H. ok_inv. exists v0. breflect. done.
Qed.

Lemma validate_host_shape_ok h u : validate_host_shape h = Ok u -> host_ok h.
Proof.
  unfold validate_host_shape. intros H. ok_inv.
  apply negb_false_iff in Hok, Hok2, Hok4.
  split.
  - by apply hex_id_chars.
  - intros s Hs. rewrite Hs in Hok3. simpl in Hok3. apply guard_err_Ok, negb_false_iff in Hok3.
    by apply hex_id_chars.
  - apply orb_true_iff in Hok as [?%N.eqb_eq|?%N.eqb_eq]; auto.
  - intros Hs. rewrite Hs in Hok0. simpl in Hok0. apply orb_false_iff in Hok0 as [Hg Hi].
    apply negb_false_iff, bool_decide_eq_true in Hi. by destruct (hp_group_id (hr_payload h)).
  - by apply valid_alias_chars.
  - apply orb_false_iff in Hok5 as [Hn Hc]. apply bool_decide_eq_false in Hn.
    split; [done|by apply space_control_free].
  - by apply N.eqb_neq.
  - by apply N.eqb_neq.
  - by apply space_control_free.
  - intros Ha. rewrite Ha in Hok9. destruct (hp_key_id (hr_payload h)) as [k|]; [|done].
    exists k. split; [done|]. cbn [is_some_and] in Hok10. apply negb_false_iff in Hok10.
    by apply hex_id_chars.
  - intros pin Hp. rewrite Hp in H. by eapply check_pin_Ok.
Qed.

Lemma validate_host_jumps h u :
  validate_host h = Ok u ->
  validate_host_shape h = Ok tt /\ (hr_id h ∉ hp_jump (hr_payload h)) /\ NoDup (hp_jump (hr_payload h))
  /\ length (hp_jump (hr_payload h)) <= MAX_JUMPS.
Proof.
  unfold validate_host. intros H. ok_inv. destruct v. apply check_jumps_Ok in Hok0 as (H1 & H2 & _).
  apply Nat.ltb_ge in H. done.
Qed.

(** A host that passes validation is safe to connect with: a well-formed
    id and scope, an alias that cannot be read as an option or split on a
    command line, an endpoint without whitespace or control characters, a
    nonzero port and timeout, a key reference whenever it authenticates by key,
    a pinned key whose fingerprint is the key's own, and at most five distinct
    jumps that never include the host itself. *)
Lemma validate_host_sound (h : HostRecord) (Hv : validate_host h = Ok tt) :
  host_ok h /\ (hr_id h ∉ hp_jump (hr_payload h)) /\ NoDup (hp_jump (hr_payload h))
  /\ length (hp_jump (hr_payload h)) <= MAX_JUMPS.
Proof.
  apply validate_host_jumps in Hv as (Hs & H1 & H2 & H3).
  split; [by eapply validate_host_shape_ok|done].
Qed.

(** Replacing a host's settings never changes its identity or scope, and
    carries a host-key pin over only when both the host name and the port stay
    the same: a different endpoint always loses the pin. *)
Lemma replace_host_payload_pin (h u : HostRecord) (p : HostPayload)
    (Hok : replace_host_payload h p = Ok u) :
  hr_id u = hr_id h /\ hr_scope u = hr_scope h /\ host_ok u
  /\ hp_alias (hr_payload u) = hp_alias p /\ hp_jump (hr_payload u) = hp_jump p
  /\ (hp_hostname (hr_payload u) = hp_hostname (hr_payload h)
      /\ hp_port (hr_payload u) = hp_port (hr_payload h) -> hr_payload u = p)
  /\ (hp_hostname (hr_payload u) <> hp_hostname (hr_payload h)
      \/ hp_port (hr_payload u) <> hp_port (hr_payload h) -> hp_host_key (hr_payload u) = None).
Proof.
  unfold replace_host_payload in Hok. ok_inv.
  match goal with H : validate_host _ = Ok _ |- _ =>
    apply validate_host_jumps in H as (Hs & _); apply validate_host_shape_ok in Hs end.
  destruct (bool_decide (hp_hostname (hr_payload h) = hp_hostname p)) eqn:E1;
    destruct (hp_port (hr_payload h) =? hp_port p)%N eqn:E2; simpl in *; breflect;
    split_and!; try done; intros; destruct_and?; intuition congruence.
Qed.

(** ** Host lists *)

Lemma check_each_Ok hosts : forall ids aliases u,
  check_each ids aliases hosts = Ok u ->
  NoDup (map hr_id hosts) /\ NoDup (map (fun h => (hr_scope h, hp_alias (hr_payload h))) hosts)
  /\ (forall h, h ∈ hosts -> validate_host h = Ok tt /\ (hr_id h ∉ ids)
        /\ ((hr_scope h, hp_alias (hr_payload h)) ∉ aliases)).
Proof.
  induction hosts as [|h hosts IH]; intros ids aliases u H; simpl in H; ok_inv.
  - split_and!; [constructor|constructor|]. intros h Hh. by apply elem_of_nil in Hh.
  - apply IH in H as (H1 & H2 & H3). rewrite existsb_none in Hok0. rewrite existsb_none in Hok1.
    destruct v.
    assert (Hi : hr_id h ∉ ids).
    { intros Hin. specialize (Hok0 _ Hin). by rewrite bool_decide_true in Hok0. }
    assert (Ha : (hr_scope h, hp_alias (hr_payload h)) ∉ aliases).
    { intros Hin. specialize (Hok1 _ Hin). by rewrite bool_decide_true in Hok1. }
    split_and!; simpl.
    + constructor; [|done]. intros (h' & Heq & Hh')%list_elem_of_fmap.
      destruct (H3 _ Hh') as (_ & Hn & _). apply Hn. rewrite <-Heq. by left.
    + constructor; [|done]. intros (h' & Heq & Hh')%list_elem_of_fmap.
      destruct (H3 _ Hh') as (_ & _ & Hn). apply Hn. rewrite <-Heq. by left.
    + intros x [->|Hx]%elem_of_cons; [done|]. destruct (H3 _ Hx) as (Hv & Hn1 & Hn2).
      apply not_elem_of_cons in Hn1, Hn2. tauto.
Qed.

Lemma find_by_id_Some hosts id h :
  find_by_id hosts id = Some h -> h ∈ hosts /\ hr_id h = id.
Proof.
  intros [Hin Hid]%find_some. apply bool_decide_eq_true in Hid. by rewrite list_elem_of_In.
Qed.

Lemma find_by_id_unique hosts h :
  NoDup (map hr_id hosts) -> h ∈ hosts -> find_by_id hosts (hr_id h) = Some h.
Proof.
  unfold find_by_id. induction hosts as [|x hosts IH]; intros Hnd Hin; [by apply elem_of_nil in Hin|].
  simpl. inversion Hnd as [|? ? Hx Hnd']; subst. apply elem_of_cons in Hin as [<-|Hin].
  - by rewrite bool_decide_true.
  - rewrite bool_decide_false; [auto|]. intros Heq. apply Hx. rewrite Heq.
    by apply list_elem_of_fmap_2.
Qed.

Lemma chain_ids_Ok hosts h route :
  chain_ids hosts h = Ok route ->
  NoDup route /\ length route <= MAX_JUMPS + 1 /\ last route = Some (hr_id h)
  /\ (forall j, j ∈ hp_jump (hr_payload h) -> j ∈ route /\ exists hj, hj ∈ hosts /\ hr_id hj = j).
Proof.
  unfold chain_ids. intros H.
  pose proof (append_jumps _ _ _ _ _ _ _ _ _ H (NoDup_nil_2)) as Hj.
  apply append_Ok in H as (-> & Hnd & Hlen); [|apply NoDup_nil_2]. cbn [app].
  split_and!; [done|done|apply route_spec_last|].
  intros j Hjin. cbv beta zeta in Hj. rewrite bool_decide_true in Hj by done. cbn [from_option] in Hj. destruct (Hj _ Hjin) as (j' & Hr & Hin).
  ok_inv. split; [done|]. apply find_by_id_Some in Hok as [Hv Hid]. eauto.
Qed.

(** In a validated library every host can be routed: ids are globally
    unique, aliases unique per scope, and each host has a jump route of at most
    six distinct hosts that ends with the host itself and contains every jump
    it names, each of which exists; so no jump cycle passes validation. *)
Lemma validate_hosts_routes (hosts : list HostRecord) (Hv : validate_hosts hosts = Ok tt) :
  NoDup (map hr_id hosts)
  /\ NoDup (map (fun h => (hr_scope h, hp_alias (hr_payload h))) hosts)
  /\ forall h, h ∈ hosts -> exists route, chain_ids hosts h = Ok route
       /\ NoDup route /\ length route <= MAX_JUMPS + 1 /\ last route = Some (hr_id h)
       /\ forall j, j ∈ hp_jump (hr_payload h) ->
            j ∈ route /\ exists hj, hj ∈ hosts /\ hr_id hj = j.
Proof.
  unfold validate_hosts in Hv. ok_inv. destruct (check_each_Ok _ _ _ _ Hok) as (H1 & H2 & _).
  split_and!; [done|done|]. intros h Hh. apply try_for_Ok in Hv as [Hall _].
  specialize (Hall h Hh). destruct (chain_ids hosts h) as [route|] eqn:Hc; [|done].
  exists route. split; [done|]. by apply chain_ids_Ok.
Qed.

(** Resolving an alias is unambiguous: it succeeds exactly when the library
    is valid and one host alone carries the alias, and returns that host. *)
Lemma resolve_alias_unique (hosts : list HostRecord) (alias : str) (h : HostRecord) :
  resolve_alias hosts alias = Ok h <->
  validate_hosts hosts = Ok tt /\ h ∈ hosts /\ hp_alias (hr_payload h) = alias
  /\ forall h', h' ∈ hosts -> hp_alias (hr_payload h') = alias -> h' = h.
Proof.
  unfold resolve_alias.
  assert (Hf : forall x, x ∈ List.filter (fun h => hp_alias (hr_payload h) =?= alias) hosts
            <-> x ∈ hosts /\ hp_alias (hr_payload x) = alias).
  { intros x. rewrite list_elem_of_In, filter_In, bool_decide_eq_true, list_elem_of_In. done. }
  split.
  - intros H. ok_inv. destruct v. split; [done|].
    destruct (List.filter _ hosts) as [|x [|y l]]; ok_inv; [].
    destruct (proj1 (Hf h)) as [Hin Ha]; [by left|]. split_and!; [done|done|].
    intros h' Hin' Ha'. by apply list_elem_of_singleton, Hf.
  - intros (Hv & Hin & Ha & Huniq). rewrite Hv. cbn [mbind result_bind].
    assert (Hnd : NoDup hosts).
    { unfold validate_hosts in Hv. ok_inv. apply check_each_Ok in Hok as (H1 & _).
      by apply NoDup_fmap_1 in H1. }
    assert (HndF : NoDup (List.filter (fun h => hp_alias (hr_payload h) =?= alias) hosts)).
    { apply NoDup_ListNoDup, List.NoDup_filter. by apply NoDup_ListNoDup. }
    destruct (List.filter _ hosts) as [|x [|y l]] eqn:Hl.
    + exfalso. assert (h ∈ (@nil HostRecord)) by (by apply Hf). by apply elem_of_nil in H.
    + f_equal. apply Huniq; apply Hf; by left.
    + exfalso. inversion HndF as [|? ? Hx _]; subst. apply Hx.
      assert (x = h) as -> by (apply Huniq; apply Hf; by left).
      assert (y = h) as -> by (apply Huniq; apply Hf; right; by left). by left.
Qed.

(** ** Decoding *)

Lemma decode_host_Live `{Serde HostPayload} r scope h :
  decode_host r scope = Ok (Live h) ->
  rkind r = KHost /\ rdeleted r = false /\ hr_id h = rid r /\ hr_scope h = scope
  /\ validate_host_shape h = Ok tt /\ from_value (rpayload r) = Ok (hr_payload h).
Proof.
  unfold decode_host. intros Hd. ok_inv. destruct (rdeleted r); [done|]. ok_inv. breflect.
  units. done.
Qed.

Lemma decode_group_Live `{Serde GroupPayload} r scope g :
  decode_group r scope = Ok (Live g) ->
  rkind r = KGroup /\ rdeleted r = false /\ gr_id g = rid r /\ gr_scope g = scope
  /\ validate_group g = Ok tt /\ from_value (rpayload r) = Ok (gr_payload g).
Proof.
  unfold decode_group. intros Hd. ok_inv. destruct (rdeleted r); [done|]. ok_inv. breflect.
  units. done.
Qed.

(** A valid payload that was serialized decodes to itself. *)
Lemma decode_host_encoded `{Serde HostPayload} `{!SchemaField HostPayload hp_schema} r scope p :
  rkind r = KHost -> rdeleted r = false -> rpayload r = to_value p ->
  validate_host_shape (mkHostRecord (rid r) scope p) = Ok tt ->
  decode_host r scope = Ok (Live (mkHostRecord (rid r) scope p)).
Proof.
  intros Hk Hd Hp Hv. unfold decode_host. rewrite Hk, Hd, Hp, bool_decide_true by done.
  unfold json_u64. rewrite schema_member, from_to_value. cbn [negb guard_err mbind result_bind option_bind as_u64 default from_option id map_err].
  rewrite Hv. unfold validate_host_shape in Hv. ok_inv. cbn [hr_id hr_payload] in *. breflect.
  rewrite Hok2. cbn [negb guard_err mbind result_bind].
  change HOST_SCHEMA with 2%N in Hok. change GROUPED_HOST_SCHEMA with 3%N in Hok. by rewrite Hok.
Qed.

Lemma decode_group_encoded `{Serde GroupPayload} r scope p :
  rkind r = KGroup -> rdeleted r = false -> rpayload r = to_value p ->
  validate_group (mkGroupRecord (rid r) scope p) = Ok tt ->
  decode_group r scope = Ok (Live (mkGroupRecord (rid r) scope p)).
Proof.
  intros Hk Hd Hp Hv. unfold decode_group. rewrite Hk, Hd, Hp, bool_decide_true by done.
  rewrite from_to_value. cbn [negb guard_err mbind result_bind map_err]. rewrite Hv.
  unfold validate_group in Hv. ok_inv. cbn [gr_id gr_payload] in *.
  apply orb_false_iff in Hok0 as [Hid _]. by rewrite Hid.
Qed.

(** Stored hosts survive the round trip: serializing a host of acceptable
    shape and decoding the record gives back exactly that host, and decoding
    never produces a live host that does not have an acceptable shape. *)
Lemma decode_host_roundtrip `{Serde HostPayload} `{!SchemaField HostPayload hp_schema}
    (id dev : str) (version now : N) (scope : HostScope) (p : HostPayload) :
  decode_host (mkRec KHost id version now dev false (to_value p)) scope
    = Ok (Live (mkHostRecord id scope p))
  <-> validate_host_shape (mkHostRecord id scope p) = Ok tt.
Proof.
  split.
  - by intros (_ & _ & _ & _ & Hv & _)%decode_host_Live.
  - by apply (decode_host_encoded (mkRec KHost id version now dev false (to_value p))).
Qed.
End Props.
