(* ===== verification/RecordsState.v ===== *)
(** * RecordsState: the state of the record library

    [src-tauri/src/sync/records_v3/state.rs] with the account section of
    [state_v2.rs]: the data, the gates that block shared writes, and the checks
    of cached and sealed rows.  The check of a whole state is in [StateCheck]. *)

From S2P Require Import Prelude Text BTreeMap SlotRules Json SyncRecord RecordsTypes RecordsValidate.

Record RotationMarkerPayload := mkMarker {
  rotated_at_ms : N; by_device_id : str; by_device_name : str
}.
Record FreezeInfo := mkFreeze { detected_at_ms : N; markers : list RotationMarkerPayload }.

(** [AccountState]. *)
Record AccountState := mkAccount {
  chain_id : str;
  a_cursor_seq : N;
  a_baseline_established : bool;
  remote_schema_version : option N;
  frozen : option FreezeInfo;
  a_records : btree LocalRecord;
  a_sealed : btree SealedRecord;
  chain_deletes : list SealedRecord
}.

(** [SpaceStateV3]. *)
Record SpaceStateV3 := mkSpace {
  selected : bool;
  s_cursor_seq : N;
  s_baseline_established : bool;
  s_records : btree LocalRecord;
  s_sealed : btree SealedRecord;
  s_last_error : option str;
  missing : bool
}.

Record LocalKeyMetadata := mkLocalKey { vault_id : str; key_public : KeySlotPayload }.
Record LocalImportReceipt := mkReceipt {
  ir_source_digest : str; host_ids : list str; key_ids : list str
}.

Record LocalState := mkLocalState {
  group_order : list str;
  l_groups : btree LocalRecord;
  l_hosts : btree LocalRecord;
  l_keys : btree LocalKeyMetadata;
  import_receipts : btree LocalImportReceipt
}.

(** [RelayFeatures], [RotationStep], [RotatedSpace] and [RotationProgress]. *)
Record RelayFeatures := mkFeatures {
  rf_url : str; rf_version : option str; features : list str; checked_at_ms : N
}.
Inductive RotationStep := Prepared | LocalChangesSent | Freezing | Copying | Deleting | Switching.
Record RotatedSpace := mkRotated { new_space_id : str; rotated_key : SealedRecord }.
Record RotationProgress := mkRotation {
  rp_step : RotationStep; started_at_ms : N; new_account_chain_id : str;
  rp_spaces : btree RotatedSpace; rp_created : bset; rp_copied : bset; rp_deleted : bset;
  paused_until_ms : option N
}.

Inductive PendingAccountKind := CreateAccount | JoinAccount | CreateSpace | LeaveAccount | RotateAccount.
Inductive PendingAccountPhase := PPrepared | PRemoteCreated | PPublishing | PActivationReady | PActivated.

(** The plan for leaving an account ([record_leave.rs]): which shared record is kept
    as which local one. *)
Record HostRemap := mkRemap {
  source_space_id : str; source_host_id : str; local_host_id : str; hm_alias : str
}.
Record PlannedHost := mkPlannedHost { ph_mapping : HostRemap; ph_local : LocalRecord }.
Record PlannedGroup := mkPlannedGroup {
  pg_source_space_id : str; source_group_id : str; local_group_id : str; pg_local : LocalRecord
}.
Record LeavePlan := mkLeavePlan {
  lp_groups : list PlannedGroup; lp_source_spaces : btree SpaceStateV3;
  lp_hosts : list PlannedHost; passwords_copied : bset
}.

(** The plan of a rotation of records ([record_rotation.rs]). *)
Module RecordRotation.
Inductive RotationStep := Prepared | Freezing | Copying | Activating.
Record RotationPlan := mkRotationPlan {
  step : RotationStep; source_code_account : str; source_account : AccountState;
  source_spaces : btree SpaceStateV3; space_ids : btree str; target_spaces : btree SpaceStateV3;
  frozen_chains : bset; created : bset; rotation_digest : str
}.
End RecordRotation.

Record PendingAccountOperation := mkPending {
  op_id : str; op_device_name : str; op_kind : PendingAccountKind; op_phase : PendingAccountPhase;
  op_migration_gate : option MigrationGate; op_relay_url : str; staged_code_account : option str;
  prepared_account : AccountState; op_space_id : option str; prepared_space : option SpaceStateV3;
  op_leave : option LeavePlan; op_rotation : option RecordRotation.RotationPlan
}.

#[export] Instance pending_kind_eq_dec : EqDecision PendingAccountKind.
Proof. solve_decision. Defined.
#[export] Instance pending_phase_eq_dec : EqDecision PendingAccountPhase.
Proof. solve_decision. Defined.
#[export] Instance rotation_step_eq_dec : EqDecision RecordRotation.RotationStep.
Proof. solve_decision. Defined.

Inductive SyncNotice :=
| NUpgraded (kept_file : option str) (kept_hosts moved_files : list str)
| NSpaceDeleted (name by_device : str)
| NRenameBlocked (space_id name file_name : str)
| NLeftAccount (kept_files : list str)
| NNewSyncCode
| NOtherRotation (devices : list str)
| NKeysNeeded (names : list str).

Record SyncStateV3 := mkState {
  version : N;
  device_id : str;
  device_name : str;
  relay_url : str;
  account : option AccountState;
  spaces : btree SpaceStateV3;
  local : LocalState;
  rotation : option RotationProgress;
  relay_features : option RelayFeatures;
  legacy_v1_backup : option str;
  phrase_cleanup_pending : bool;
  migration_gate : option MigrationGate;
  shared_writes_blocked : bool;
  pending_account : option PendingAccountOperation;
  notices : list SyncNotice;
  last_sync_ms : option N;
  last_error : option str
}.

(** ** Field updates *)

Definition set_a_records (a : AccountState) (r : btree LocalRecord) : AccountState :=
  mkAccount (chain_id a) (a_cursor_seq a) (a_baseline_established a) (remote_schema_version a)
    (frozen a) r (a_sealed a) (chain_deletes a).

Definition set_s_records (s : SpaceStateV3) (r : btree LocalRecord) : SpaceStateV3 :=
  mkSpace (selected s) (s_cursor_seq s) (s_baseline_established s) r (s_sealed s) (s_last_error s)
    (missing s).

Definition set_l_hosts (l : LocalState) (h : btree LocalRecord) : LocalState :=
  mkLocalState (group_order l) (l_groups l) h (l_keys l) (import_receipts l).
Definition set_l_groups (l : LocalState) (g : btree LocalRecord) : LocalState :=
  mkLocalState (group_order l) g (l_hosts l) (l_keys l) (import_receipts l).
Definition set_l_keys (l : LocalState) (k : btree LocalKeyMetadata) : LocalState :=
  mkLocalState (group_order l) (l_groups l) (l_hosts l) k (import_receipts l).
Definition set_l_order (l : LocalState) (o : list str) : LocalState :=
  mkLocalState o (l_groups l) (l_hosts l) (l_keys l) (import_receipts l).

Definition set_core (s : SyncStateV3) (v : N) (a : option AccountState) (sp : btree SpaceStateV3)
    (l : LocalState) : SyncStateV3 :=
  mkState v (device_id s) (device_name s) (relay_url s) a sp l (rotation s) (relay_features s)
    (legacy_v1_backup s) (phrase_cleanup_pending s) (migration_gate s) (shared_writes_blocked s)
    (pending_account s) (notices s) (last_sync_ms s) (last_error s).
Definition set_version (s : SyncStateV3) (v : N) : SyncStateV3 :=
  set_core s v (account s) (spaces s) (local s).
Definition set_account (s : SyncStateV3) (a : option AccountState) : SyncStateV3 :=
  set_core s (version s) a (spaces s) (local s).
Definition set_spaces (s : SyncStateV3) (sp : btree SpaceStateV3) : SyncStateV3 :=
  set_core s (version s) (account s) sp (local s).
Definition set_local (s : SyncStateV3) (l : LocalState) : SyncStateV3 :=
  set_core s (version s) (account s) (spaces s) l.

(** ** Gates *)

Definition validate_migration_gate (g : MigrationGate) : vresult unit :=
  _ ← guard_err (negb (is_slot_id (gate_id g)))
        (v_invalid "migration_id" (lit "migration") "expected 32 lowercase hex characters");
  guard_err (negb (is_chain_id (source_digest g)))
    (v_invalid "source_digest" (lit "migration") "expected a SHA-256 digest").

Section Gates.
Context `{Serde MigrationGate}.

(** The account's metadata row. *)
Definition account_meta_row (s : SyncStateV3) : option LocalRecord :=
  a ← account s; bt_get (record_key KMeta ACCOUNT_META_ID) (a_records a).

Definition account_migration_pending (s : SyncStateV3) : bool :=
  is_some_and (fun g => negb (gate_phase g =?= Active)) (migration_gate s)
  || is_some_and
       (fun v => match from_value v with
                 | Ok g => negb (gate_phase g =?= Active)
                 | Err _ => true
                 end)
       (opt_filter (fun v => negb (json_is_null v))
          (l ← opt_filter (fun l => negb (rdeleted (lrecord l))) (account_meta_row s);
           json_get (lit "migration") (rpayload (lrecord l)))).

Definition account_writes_blocked (s : SyncStateV3) : bool :=
  is_some (pending_account s) || shared_writes_blocked s || account_migration_pending s
  || is_some_and (fun a => is_some (frozen a)
                           || is_some_and (fun v => (ACCOUNT_SCHEMA <? v)%N) (remote_schema_version a))
       (account s).
End Gates.

(** ** Cached rows *)

Definition validate_cache_key (key : str) (l : LocalRecord) : vresult unit :=
  _ ← guard_err (is_secret (rkind (lrecord l)))
        (v_invalid "records" (kind_as_str (rkind (lrecord l))) "secret records must remain sealed");
  guard_err (negb (key =?= record_key (rkind (lrecord l)) (rid (lrecord l))))
    (v_invalid "record_key" (rid (lrecord l)) "cache key does not match kind and id").

(** [read_hosts] of [state.rs]: every row of a section decodes. *)
Definition state_read_hosts `{SshKeyLib} `{Serde HostPayload} `{Serde GroupPayload}
    (records : btree LocalRecord) (scope : HostScope) : vresult unit :=
  try_for (fun '(key, l) =>
    _ ← validate_cache_key key l;
    if rkind (lrecord l) =?= KGroup
    then _ ← decode_group (lrecord l) scope; Ok tt
    else _ ← decode_host (lrecord l) scope; Ok tt) records.

Definition validate_sealed (sealed : btree SealedRecord) (acct : bool) : vresult unit :=
  try_for (fun '(key, r) =>
    let k := ekind (senvelope r) in
    _ ← guard_err (is_some_and (fun hint =>
            negb (is_valid_for hint (senvelope r))
            || negb (if acct then (k =?= lit "keyslot") || (k =?= lit "meta")
                     else (k =?= lit "host") || (k =?= lit "group"))) (spublic_identity r))
          (v_invalid "public_identity" (lit "sealed") "invalid public ordering evidence");
    guard_err (negb (key =?= sealed_key k (eid_hash (senvelope r))))
      (v_invalid "sealed_key" (eid_hash (senvelope r)) "cache key does not match envelope")) sealed.

Definition account_meta (app_version : str) : MetaPayload := mkMeta MIN_ACCOUNT_SCHEMA app_version.

Definition validate_account_meta (m : MetaPayload) : vresult unit :=
  guard_err (negb ((MIN_ACCOUNT_SCHEMA <=? schema_version m)%N && (schema_version m <=? ACCOUNT_SCHEMA)%N))
    (UnsupportedSchema (lit "account") (schema_version m)).
