(* ===== verification/RepositoryCore.v ===== *)
(** * RepositoryCore: revisions, ordering and scopes of the record repository

    The parts of [src-tauri/src/sync/record_repository.rs] that the group module
    uses too: the error type, the header and cache checks, revisions, opaque
    authority, [ordered_record], [cached] and [ensure_scope].

    [RPanic] is not an error of the source: it marks the places where the source
    would panic (an index or an [expect]). *)

From S2P Require Import Prelude Text BTreeMap SlotRules Json SyncRecord RecordsTypes RecordsValidate RecordsState.

Record RecordRevision := mkRevision { rev_version : N; rev_updated_at_ms : N; rev_device_id : str }.

#[export] Instance revision_eq_dec : EqDecision RecordRevision.
Proof. solve_decision. Defined.

Inductive RepositoryError :=
| Validation (e : RecordValidationError)
| RevisionConflict (id : str) (current : RecordRevision)
| SpaceUnavailable (id : str)
| ReadOnlyAccount
| Group (reason : str)
| UpgradeConfirmationRequired
| OpaqueHostAuthority (id : str)
| EndpointChanged (id : str)
| PinConflict (id : str)
| KeyNotFound (id : str)
| OrderingOverflow (id : str)
| RPanic (what : str).

#[export] Instance repository_error_eq_dec : EqDecision RepositoryError.
Proof. solve_decision. Defined.

Abbreviation rresult := (result RepositoryError).

(** [From<RecordValidationError>]: the [?] operator lifts a validation error. *)
Definition lift {A} (r : vresult A) : rresult A := map_err Validation r.

(** [group_order::GroupOrder]. *)
Record GroupOrder := mkOrder { go_schema : N; go_ids : list str }.

(** What the repository takes from outside: the key library, the derived
    serialization of every payload, and the [Debug] text of an error. *)
Class RecordEnv := {
  env_keys :: SshKeyLib;
  env_host :: Serde HostPayload;
  env_group :: Serde GroupPayload;
  env_keyslot :: Serde KeySlotPayload;
  env_gate :: Serde MigrationGate;
  env_order :: Serde GroupOrder;
  env_host_schema :: SchemaField HostPayload hp_schema;
  error_text : RepositoryError -> str
}.

Definition r_invalid (field : string) (id : str) (reason : string) : RepositoryError :=
  Validation (v_invalid field id reason).

Definition supported_version (v : N) : bool :=
  (v =? STATE_VERSION)%N || (v =? GROUP_STATE_VERSION)%N || (v =? NAVIGATION_STATE_VERSION)%N.

Definition validate_header (s : SyncStateV3) : rresult unit :=
  _ ← guard_err (negb (supported_version (version s)))
        (Validation (UnsupportedSchema (lit "state") (version s)));
  _ ← guard_err (negb (is_slot_id (device_id s)))
        (r_invalid "device_id" (device_id s) "expected a device id");
  _ ← guard_err (is_none (account s) && negb (bt_keys (spaces s) =?= []))
        (r_invalid "spaces" (lit "state") "spaces require an account");
  _ ← from_option (fun a => guard_err (negb (is_chain_id (chain_id a)))
        (r_invalid "chain_id" (chain_id a) "expected an account chain id")) (Ok tt) (account s);
  try_for (fun id => guard_err (negb (is_chain_id id)) (r_invalid "space_id" id "expected a chain id"))
    (bt_keys (spaces s)).

Definition validate_cache (key : str) (l : LocalRecord) : rresult unit :=
  let r := lrecord l in
  _ ← guard_err (is_secret (rkind r)) (r_invalid "records" (rid r) "secret records must remain sealed");
  _ ← guard_err (negb (key =?= record_key (rkind r) (rid r)))
        (r_invalid "record_key" (rid r) "cache key does not match kind and id");
  guard_err ((rversion r =? 0)%N || negb (is_slot_id (rdevice_id r)))
    (r_invalid "revision" (rid r) "invalid record ordering identity").

Definition revision (r : Rec) : RecordRevision :=
  mkRevision (rversion r) (rupdated_at_ms r) (rdevice_id r).

(** A sealed row this version cannot read wins over the cached row. *)
Definition opaque_shadows (sealed : SealedRecord) (l : option LocalRecord) (k : RecordKind) (id : str)
  : bool :=
  match opt_filter (fun hint => is_valid_for hint (senvelope sealed) && (vid hint =?= id)
                                && (ekind (senvelope sealed) =?= kind_as_str k))
          (spublic_identity sealed) with
  | None => false
  | Some identity => negb (merge l (identity_header identity k) =?= KeepLocal)
  end.

Section Scope.
Context `{Serde MigrationGate}.

Definition ensure_scope (s : SyncStateV3) (scope : HostScope) : rresult unit :=
  match scope with
  | Local => Ok tt
  | Space space_id =>
      _ ← ok_or (account s) (SpaceUnavailable space_id);
      _ ← guard_err (account_writes_blocked s) ReadOnlyAccount;
      space ← ok_or (bt_get space_id (spaces s)) (SpaceUnavailable space_id);
      guard_err (negb (selected space) || missing space) (SpaceUnavailable space_id)
  end.
End Scope.

(** [Iterator::max]. *)
Definition max_opt (l : list N) : option N :=
  match l with [] => None | x :: l' => Some (foldl N.max x l') end.

(** [ordered_record]: a stamp later than every previous one. *)
Definition ordered_record (s : SyncStateV3) (id : str) (payload : Json) (deleted : bool) (now_ms : N)
    (previous : list Rec) : rresult Rec :=
  let max_version := default 0%N (max_opt (map rversion previous)) in
  version ← ok_or (checked_add max_version 1) (OrderingOverflow id);
  updated_at_ms ← match max_opt (map rupdated_at_ms previous) with
                  | Some prev => if (now_ms <=? prev)%N
                                 then ok_or (checked_add prev 1) (OrderingOverflow id)
                                 else Ok now_ms
                  | None => Ok now_ms
                  end;
  Ok (mkRec KHost id version updated_at_ms (device_id s) deleted payload).

Definition is_space (scope : HostScope) : bool := match scope with Space _ => true | Local => false end.

Definition cached (r : Rec) (seq : N) (scope : HostScope) : LocalRecord := mkLocal r seq (is_space scope).

(** [row.kind = kind]. *)
Definition with_kind (r : Rec) (k : RecordKind) : Rec :=
  mkRec k (rid r) (rversion r) (rupdated_at_ms r) (rdevice_id r) (rdeleted r) (rpayload r).

(** ** Lemmas *)

Lemma lift_Ok {A} (r : vresult A) a : lift r = Ok a <-> r = Ok a.
Proof. unfold lift. destruct r; naive_solver. Qed.

Lemma max_opt_spec l m : max_opt l = Some m -> forall x, x ∈ l -> (x <= m)%N.
Proof.
  destruct l as [|y l]; [done|]. simpl. intros [= <-]. revert y.
  induction l as [|z l IH]; intros y x Hx; simpl.
  - apply list_elem_of_singleton in Hx as ->. lia.
  - rewrite !elem_of_cons in Hx. specialize (IH (N.max y z)).
    assert (Hm : forall x, x ∈ N.max y z :: l -> (x <= foldl N.max (N.max y z) l)%N) by auto.
    destruct Hx as [->|[->|Hx]].
    + etransitivity; [|apply Hm; by left]. lia.
    + etransitivity; [|apply Hm; by left]. lia.
    + apply Hm. by right.
Qed.

Lemma ordered_record_fields s id p d now prev r :
  ordered_record s id p d now prev = Ok r ->
  rkind r = KHost /\ rid r = id /\ rdeleted r = d /\ rpayload r = p /\ rdevice_id r = device_id s
  /\ (now <= rupdated_at_ms r)%N /\ (0 < rversion r)%N.
Proof.
  unfold ordered_record. intros H. ok_inv. apply checked_add_Some in Hok as [-> Hv].
  simpl. split_and!; try done; [|lia].
  destruct (max_opt (map rupdated_at_ms prev)); [|by ok_inv].
  destruct (now <=? n)%N eqn:Hn; ok_inv; breflect; [|done].
  apply checked_add_Some in Hok0 as [-> _]. lia.
Qed.

(** The new stamp beats each previous record on every replica. *)
Lemma ordered_record_dominates s id p d now prev r x :
  ordered_record s id p d now prev = Ok r -> x ∈ prev ->
  (rversion x < rversion r)%N /\ (rupdated_at_ms x < rupdated_at_ms r)%N /\ remote_wins r x = true.
Proof.
  unfold ordered_record. intros H Hx. ok_inv. apply checked_add_Some in Hok as [-> _].
  assert (Hv : (rversion x <= default 0 (max_opt (map rversion prev)))%N).
  { destruct (max_opt (map rversion prev)) eqn:Hm; [|by destruct prev; [apply elem_of_nil in Hx|]].
    simpl. eapply max_opt_spec; [done|]. by apply list_elem_of_fmap_2. }
  assert (Ht : (rupdated_at_ms x < v0)%N).
  { destruct (max_opt (map rupdated_at_ms prev)) as [m|] eqn:Hm;
      [|by destruct prev; [apply elem_of_nil in Hx|]].
    assert (Hxm : (rupdated_at_ms x <= m)%N)
      by (eapply max_opt_spec; [done|]; by apply list_elem_of_fmap_2).
    destruct (now <=? m)%N eqn:Hn; ok_inv; breflect; [|lia].
    apply checked_add_Some in Hok0 as [-> _]. lia. }
  simpl. split_and!; [lia|done|]. unfold remote_wins. simpl.
  by rewrite (proj2 (N.compare_gt_iff _ _) Ht).
Qed.

Lemma validate_cache_Ok key l u :
  validate_cache key l = Ok u ->
  is_secret (rkind (lrecord l)) = false /\ key = record_key (rkind (lrecord l)) (rid (lrecord l))
  /\ rversion (lrecord l) <> 0%N /\ is_slot_id (rdevice_id (lrecord l)) = true.
Proof. unfold validate_cache. intros H. ok_inv. breflect. done. Qed.
