(* ===== verification/RecordGroups.v ===== *)
(** * RecordGroups: group trees and the inheritance of connection settings

    [src-tauri/src/sync/record_groups.rs], reading side: looking up a group of a
    scope, the path to its root, the effective settings of a host, and the
    format checks.  The edits are in [GroupEdit]. *)

From S2P Require Import Prelude Text BTreeMap SlotRules Json SyncRecord RecordsTypes RecordsValidate RecordsState RepositoryCore.

Record EffectiveHost := mkEffective { eff_payload : HostPayload; inherited_from : btree str }.

Record GroupView := mkGroupView {
  gv_group : GroupRecord; gv_revision : RecordRevision; gv_error : option str
}.

#[export] Instance group_view_eq_dec : EqDecision GroupView.
Proof. solve_decision. Defined.

Definition g_error (reason : str) : RepositoryError := Group reason.

(** [records]: the map of a scope's group rows. *)
Definition group_records (s : SyncStateV3) (scope : HostScope) : rresult (btree LocalRecord) :=
  match scope with
  | Local => Ok (l_groups (local s))
  | Space space_id =>
      ok_or (s_records <$> opt_filter (fun sp => selected sp && negb (missing sp))
                             (bt_get space_id (spaces s)))
        (SpaceUnavailable space_id)
  end.

Section Groups.
Context {E : RecordEnv}.

(** [group]: the live group of a scope, unless an unreadable record has won. *)
Definition group (s : SyncStateV3) (scope : HostScope) (id : str) : rresult GroupRecord :=
  rows ← group_records s scope;
  let key := record_key KGroup id in
  let l := bt_get key rows in
  _ ← match scope with
      | Space space_id =>
          space ← ok_or (bt_get space_id (spaces s)) (RPanic (lit "spaces index"));
          guard_err (existsb (fun row => opaque_shadows row l KGroup id) (bt_values (s_sealed space)))
            (g_error (lit "group " ++ id ++ lit " has unsupported winning authority"))
      | Local => Ok tt
      end;
  l ← ok_or l (g_error (lit "group " ++ id ++ lit " does not exist in this scope"));
  _ ← validate_cache key l;
  typed ← lift (decode_group (lrecord l) scope);
  match typed with
  | Live g => Ok g
  | Tombstone _ => Err (g_error (lit "group " ++ id ++ lit " was deleted"))
  end.

Definition MAX_ANCESTORS : nat := 32.

(** The loop of [ancestor_path]; [room] is what is left of 32 ancestors. *)
Fixpoint ancestors (s : SyncStateV3) (scope : HostScope) (room : nat) (seen : list str)
    (cursor : option str) : rresult (list GroupRecord) :=
  match cursor with
  | None => Ok []
  | Some id =>
      let cycle := g_error (lit "group " ++ id ++ lit " has a cycle or exceeds 32 ancestors") in
      match room with
      | O => Err cycle
      | S room' =>
          _ ← guard_err (existsb (fun x => x =?= id) seen) cycle;
          g ← group s scope id;
          rest ← ancestors s scope room' (id :: seen) (gp_parent_id (gr_payload g));
          Ok (g :: rest)
      end
  end.

Definition ancestor_path (s : SyncStateV3) (scope : HostScope) (id : option str)
  : rresult (list GroupRecord) :=
  ancestors s scope MAX_ANCESTORS [] id.

(** The nearest ancestor that sets a default. *)
Fixpoint nearest {A} (f : GroupDefaults -> option A) (path : list GroupRecord) : option (str * A) :=
  match path with
  | [] => None
  | g :: rest =>
      match f (gp_defaults (gr_payload g)) with
      | Some v => Some (gr_id g, v)
      | None => nearest f rest
      end
  end.

(** One inherited field of a host. *)
Definition inherit_field (path : list GroupRecord) (st : HostPayload * btree str) (f : InheritedField)
  : HostPayload * btree str :=
  let '(p, from) := st in
  let note {A} (sel : option (str * A)) :=
    bt_insert (field_as_str f) (from_option fst (lit "default") sel) from in
  let value {A} (sel : option (str * A)) (d : A) := from_option snd d sel in
  let set port user auth key_id jump ka missed timeout :=
    mkHost (hp_schema p) (hp_group_id p) (hp_inherit p) (hp_alias p) (hp_hostname p) port user auth
      key_id jump ka missed timeout (hp_host_key p) (hp_tags p) (hp_notes p) (hp_imported p) in
  match f with
  | FPort =>
      let sel := nearest gd_port path in
      (set (value sel 22%N) (hp_user p) (hp_auth p) (hp_key_id p) (hp_jump p) (hp_keepalive_secs p)
         (hp_keepalive_max_missed p) (hp_connect_timeout_secs p), note sel)
  | FUser =>
      let sel := nearest gd_user path in
      (set (hp_port p) (value sel []) (hp_auth p) (hp_key_id p) (hp_jump p) (hp_keepalive_secs p)
         (hp_keepalive_max_missed p) (hp_connect_timeout_secs p), note sel)
  | FJump =>
      let sel := nearest gd_jump path in
      (set (hp_port p) (hp_user p) (hp_auth p) (hp_key_id p) (value sel []) (hp_keepalive_secs p)
         (hp_keepalive_max_missed p) (hp_connect_timeout_secs p), note sel)
  | FKeepaliveSecs =>
      let sel := nearest gd_keepalive_secs path in
      (set (hp_port p) (hp_user p) (hp_auth p) (hp_key_id p) (hp_jump p) (value sel 30%N)
         (hp_keepalive_max_missed p) (hp_connect_timeout_secs p), note sel)
  | FKeepaliveMaxMissed =>
      let sel := nearest gd_keepalive_max_missed path in
      (set (hp_port p) (hp_user p) (hp_auth p) (hp_key_id p) (hp_jump p) (hp_keepalive_secs p)
         (value sel 3%N) (hp_connect_timeout_secs p), note sel)
  | FConnectTimeoutSecs =>
      let sel := nearest gd_connect_timeout_secs path in
      (set (hp_port p) (hp_user p) (hp_auth p) (hp_key_id p) (hp_jump p) (hp_keepalive_secs p)
         (hp_keepalive_max_missed p) (value sel 15%N), note sel)
  | FAuthentication =>
      let sel := nearest gd_authentication path in
      let a := value sel (mkGroupAuth AuthPassword None) in
      (set (hp_port p) (hp_user p) (ga_auth a) (ga_key_id a) (hp_jump p) (hp_keepalive_secs p)
         (hp_keepalive_max_missed p) (hp_connect_timeout_secs p), note sel)
  end.

Definition resolve_effective (s : SyncStateV3) (host : HostRecord) : rresult EffectiveHost :=
  path ← ancestor_path s (hr_scope host) (hp_group_id (hr_payload host));
  let '(p, from) := foldl (inherit_field path) (hr_payload host, []) (hp_inherit (hr_payload host)) in
  _ ← lift (validate_host (with_payload host p));
  Ok (mkEffective p from).

(** [materialize]: a payload that stands on its own. *)
Definition materialize (p : HostPayload) : HostPayload :=
  mkHost HOST_SCHEMA None [] (hp_alias p) (hp_hostname p) (hp_port p) (hp_user p) (hp_auth p)
    (hp_key_id p) (hp_jump p) (hp_keepalive_secs p) (hp_keepalive_max_missed p)
    (hp_connect_timeout_secs p) (hp_host_key p) (hp_tags p) (hp_notes p) (hp_imported p).

(** The scopes a user sees: local, then the selected spaces in id order. *)
Definition visible_scopes (s : SyncStateV3) : list HostScope :=
  Local :: map (fun e => Space e.1)
             (List.filter (fun e => selected e.2 && negb (missing e.2)) (spaces s)).

Definition group_view (s : SyncStateV3) (scope : HostScope) (acc : list GroupView)
    (e : str * LocalRecord) : rresult (list GroupView) :=
  let '(key, row) := e in
  _ ← validate_cache key row;
  typed ← lift (decode_group (lrecord row) scope);
  match typed with
  | Live g =>
      let err := error_text <$> result_err (ancestor_path s scope (Some (gr_id g))) in
      Ok (acc ++ [mkGroupView g (revision (lrecord row)) err])
  | Tombstone _ => Ok acc
  end.

Definition list_groups (s : SyncStateV3) : rresult (list GroupView) :=
  try_fold (fun acc scope =>
    rows ← group_records s scope;
    try_fold (group_view s scope) acc
      (List.filter (fun e => rkind (lrecord e.2) =?= KGroup) rows))
    [] (visible_scopes s).

(** ** Format and account promotion *)

Definition account_group_enabled (s : SyncStateV3) : bool :=
  is_some_and (fun r => negb (rdeleted (lrecord r))
                        && (json_u64 (lit "schema_version") (rpayload (lrecord r)) =?= Some 4%N))
    (account_meta_row s).

Definition require_host_format (s : SyncStateV3) (p : HostPayload) (scope : HostScope) : rresult unit :=
  if (hp_schema p =? GROUPED_HOST_SCHEMA)%N then
    _ ← guard_err (version s <? GROUP_STATE_VERSION)%N UpgradeConfirmationRequired;
    guard_err (is_space scope && negb (account_group_enabled s)) UpgradeConfirmationRequired
  else Ok tt.

Definition has_group_data (s : SyncStateV3) : bool :=
  account_group_enabled s
  || existsb (fun sp => existsb (fun r => ekind (senvelope r) =?= lit "group") (bt_values (s_sealed sp)))
       (bt_values (spaces s))
  || negb (bt_keys (l_groups (local s)) =?= [])
  || existsb (fun r => (rkind (lrecord r) =?= KGroup)
                       || ((rkind (lrecord r) =?= KHost)
                           && (json_u64 (lit "schema") (rpayload (lrecord r)) =?= Some 3%N)))
       (bt_values (l_hosts (local s))
        ++ concat (map (fun sp => bt_values (s_records sp)) (bt_values (spaces s)))).
End Groups.
