(* ===== verification/Repository.v ===== *)
(** * Repository: reading and editing hosts and keys

    [src-tauri/src/sync/record_repository.rs]: the snapshot a user sees, route
    resolution, key views, and the immutable, revision-checked edits.  Every
    edit returns a candidate state and leaves its argument alone; an error
    returns no state at all. *)

From S2P Require Import Prelude Text BTreeMap SlotRules Json SyncRecord RecordsTypes RecordsValidate RecordsState RepositoryCore RecordGroups.

Inductive HostReadiness :=
| HReady | HNeedsKey (id : str) | HKeyConflict (id : str) | HNeedsReview.

#[export] Instance readiness_eq_dec : EqDecision HostReadiness.
Proof. solve_decision. Defined.

Record HostView := mkView {
  v_host : HostRecord;
  v_effective : HostPayload;
  v_inherited_from : btree str;
  v_group_error : option str;
  v_revision : RecordRevision;
  v_readiness : HostReadiness
}.

Inductive KeyAuthority := KALocal | KAAccount.
Inductive KeyStatus := Available | NeedsMaterial | Conflict | Deleted.

#[export] Instance key_authority_eq_dec : EqDecision KeyAuthority.
Proof. solve_decision. Defined.
#[export] Instance key_status_eq_dec : EqDecision KeyStatus.
Proof. solve_decision. Defined.

Record KeyView := mkKeyView {
  kv_id : str; kv_authority : KeyAuthority; kv_public : option KeySlotPayload;
  kv_vault_id : option str; kv_status : KeyStatus
}.

Record RepositorySnapshot := mkSnapshot {
  snap_hosts : list HostView; snap_keys : list KeyView; snap_groups : list GroupView
}.

Record HostEndpoint := mkEndpoint { ep_hostname : str; ep_port : N }.

Definition set_readiness (v : HostView) (r : HostReadiness) : HostView :=
  mkView (v_host v) (v_effective v) (v_inherited_from v) (v_group_error v) (v_revision v) r.

Section Repository.
Context {E : RecordEnv}.

(** ** Reading *)

(** The rows of one scope as views; a host shadowed by an unreadable record
    needs review. *)
Definition read_host (scope : HostScope) (sealed : option (btree SealedRecord))
    (out : list HostView) (e : str * LocalRecord) : rresult (list HostView) :=
  let '(key, l) := e in
  _ ← validate_cache key l;
  if rkind (lrecord l) =?= KGroup then Ok out
  else
    typed ← lift (decode_host (lrecord l) scope);
    match typed with
    | Tombstone _ => Ok out
    | Live h =>
        let shadowed := is_some_and (fun rows => existsb (fun row =>
          opaque_shadows row (Some l) KHost (rid (lrecord l))) (bt_values rows)) sealed in
        Ok (out ++ [mkView h (hr_payload h) [] None (revision (lrecord l))
                      (if shadowed then HNeedsReview else HReady)])
    end.

Definition read_hosts (records : btree LocalRecord) (scope : HostScope)
    (sealed : option (btree SealedRecord)) (out : list HostView) : rresult (list HostView) :=
  try_fold (read_host scope sealed) out records.

Definition needs_import_review (h : HostRecord) : bool :=
  is_some_and (fun i => existsb requires_review (unsupported i)) (hp_imported (hr_payload h)).

Definition count_if {A} (f : A -> bool) (l : list A) : nat := length (List.filter f l).

Definition duplicate_id (hosts : list HostView) (id : str) : bool :=
  (1 <? count_if (fun v => hr_id (v_host v) =?= id) hosts)%nat.

Definition alias_conflict (hosts : list HostView) (h : HostRecord) : bool :=
  (1 <? count_if (fun v => (hr_scope (v_host v) =?= hr_scope h)
                           && (hp_alias (hr_payload (v_host v)) =?= hp_alias (hr_payload h))) hosts)%nat.

(** [host_index]: the only view with this id. *)
Definition host_index (hosts : list HostView) (id : str) : vresult nat :=
  match position (fun v => hr_id (v_host v) =?= id) hosts with
  | None => Err (HostNotFound id)
  | Some i => if (1 <? count_if (fun v => hr_id (v_host v) =?= id) hosts)%nat
              then Err (DuplicateId id) else Ok i
  end.

Definition view_id (hosts : list HostView) (i : nat) : str :=
  from_option (fun v => hr_id (v_host v)) [] (hosts !! i).

(** [route_indices]: the jump route over indices of one snapshot. *)
Definition route_indices (hosts : list HostView) (id : str) : vresult (list nat) :=
  index ← host_index hosts id;
  append (view_id hosts)
    (fun i => from_option (fun v => hp_jump (v_effective v)) [] (hosts !! i))
    (fun i j => match host_index hosts j with
                | Err (HostNotFound _) => Err (MissingJump (view_id hosts i) j)
                | other => other
                end)
    ROUTE_FUEL index id [] [].

(** ** Keys *)

(** A local key, always available. *)
Definition local_key_view (acc : btree KeyView) (e : str * LocalKeyMetadata) : rresult (btree KeyView) :=
  let '(id, m) := e in
  _ ← lift (validate_keyslot id (key_public m));
  _ ← guard_err (negb (is_slot_id (vault_id m))) (r_invalid "vault_id" id "expected a vault id");
  Ok (bt_insert id (mkKeyView id KALocal (Some (key_public m)) (Some (vault_id m)) Available) acc).

(** An account key: the account's public metadata decides, and local material
    only counts when it is that very key. *)
Definition account_key_view (s : SyncStateV3) (acc : btree KeyView) (e : str * LocalRecord)
  : rresult (btree KeyView) :=
  let '(cache_key, l) := e in
  let r := lrecord l in
  _ ← validate_cache cache_key l;
  _ ← guard_err (rkind r =?= KHost) (Validation (WrongKind (lit "account metadata") (lit "host")));
  if negb (rkind r =?= KKeySlot) then Ok acc
  else
    typed ← lift (decode_keyslot r);
    let view :=
      match typed with
      | Tombstone _ => mkKeyView (rid r) KAAccount None None Deleted
      | Live public =>
          let material := bt_get (rid r) (l_keys (local s)) in
          let status :=
            match material with
            | None => NeedsMaterial
            | Some m => if is_ok (key_material_matches public (ks_public_key (key_public m))
                                    (ks_fingerprint (key_public m)))
                        then Available else Conflict
            end in
          let vault := if status =?= Available then vault_id <$> material else None in
          mkKeyView (rid r) KAAccount (Some public) vault status
      end in
    Ok (bt_insert (rid r) view acc).

(** An unreadable winning record hides the vault of the key it shadows. *)
Definition shadow_key_view (a : AccountState) (acc : btree KeyView) (sealed : SealedRecord)
  : btree KeyView :=
  match spublic_identity sealed with
  | None => acc
  | Some identity =>
      let l := bt_get (record_key KKeySlot (vid identity)) (a_records a) in
      if opaque_shadows sealed l KKeySlot (vid identity)
      then bt_update (vid identity)
             (fun v => mkKeyView (kv_id v) KAAccount (kv_public v) None Conflict) acc
      else acc
  end.

Definition list_keys (s : SyncStateV3) : rresult (list KeyView) :=
  _ ← validate_header s;
  keys ← try_fold local_key_view [] (l_keys (local s));
  keys ← match account s with
         | None => Ok keys
         | Some a =>
             keys ← try_fold (account_key_view s) keys (a_records a);
             Ok (foldl (shadow_key_view a) keys (bt_values (a_sealed a)))
         end;
  Ok (bt_values keys).

Definition resolve_key (s : SyncStateV3) (id : str) : rresult KeyView :=
  keys ← list_keys s;
  ok_or (List.find (fun k => kv_id k =?= id) keys) (KeyNotFound id).

(** ** The snapshot *)

(** Effective settings of a view; a host whose groups do not resolve needs review. *)
Definition with_effective (s : SyncStateV3) (v : HostView) : HostView :=
  match resolve_effective s (v_host v) with
  | Ok e => mkView (v_host v) (eff_payload e) (inherited_from e) (v_group_error v) (v_revision v)
              (v_readiness v)
  | Err e => mkView (v_host v) (v_effective v) (v_inherited_from v) (Some (error_text e)) (v_revision v)
               HNeedsReview
  end.

Definition readiness_of (hosts : list HostView) (keys : list KeyView) (v : HostView)
  : rresult HostReadiness :=
  let h := v_host v in
  if (v_readiness v =?= HNeedsReview) || needs_import_review h || alias_conflict hosts h
     || is_err (route_indices hosts (hr_id h))
  then Ok HNeedsReview
  else if hp_auth (v_effective v) =?= AuthKey then
    id ← ok_or (hp_key_id (v_effective v)) (RPanic (lit "decoded key reference"));
    match kv_status <$> List.find (fun k => kv_id k =?= id) keys with
    | Some Available => Ok HReady
    | Some Conflict => Ok (HKeyConflict id)
    | _ => Ok (HNeedsKey id)
    end
  else Ok HReady.

(** Host views of all visible scopes, before readiness. *)
Definition visible_views (s : SyncStateV3) : rresult (list HostView) :=
  out ← read_hosts (l_hosts (local s)) Local None [];
  try_fold (fun out e => read_hosts (s_records e.2) (Space e.1) (Some (s_sealed e.2)) out) out
    (List.filter (fun e => selected e.2 && negb (missing e.2)) (spaces s)).

Definition snapshot (s : SyncStateV3) : rresult RepositorySnapshot :=
  _ ← validate_header s;
  keys ← list_keys s;
  views ← visible_views s;
  let hosts := map (with_effective s) views in
  ready ← try_map (readiness_of hosts keys) hosts;
  groups ← list_groups s;
  Ok (mkSnapshot (zip_with set_readiness hosts ready) keys groups).

Definition list_hosts (s : SyncStateV3) : rresult (list HostView) :=
  snap ← snapshot s; Ok (snap_hosts snap).

Definition get_host (s : SyncStateV3) (id : str) : rresult HostView :=
  hosts ← list_hosts s;
  i ← lift (host_index hosts id);
  ok_or (hosts !! i) (RPanic (lit "hosts index")).

Definition find_by_alias (s : SyncStateV3) (alias : str) : rresult HostView :=
  hosts ← list_hosts s;
  match List.filter (fun v => hp_alias (hr_payload (v_host v)) =?= alias) hosts with
  | [] => Err (Validation (HostNotFound alias))
  | [first] => _ ← lift (host_index hosts (hr_id (v_host first))); Ok first
  | _ => Err (Validation (AmbiguousAlias alias))
  end.

Definition resolve_host_chain (s : SyncStateV3) (id : str) : rresult (list HostView) :=
  snap ← snapshot s;
  route ← lift (route_indices (snap_hosts snap) id);
  try_map (fun i => ok_or (snap_hosts snap !! i) (RPanic (lit "hosts index"))) route.

(** ** Editing *)

(** [records] and [records_mut]: the host rows of a scope. *)
Definition host_records (s : SyncStateV3) (scope : HostScope) : rresult (btree LocalRecord) :=
  match scope with
  | Local => Ok (l_hosts (local s))
  | Space space_id =>
      ok_or (s_records <$> bt_get space_id (spaces s)) (RPanic (lit "spaces index"))
  end.

Definition insert_host (s : SyncStateV3) (scope : HostScope) (key : str) (row : LocalRecord)
  : SyncStateV3 :=
  match scope with
  | Local => set_local s (set_l_hosts (local s) (bt_insert key row (l_hosts (local s))))
  | Space space_id =>
      set_spaces s (bt_update space_id
        (fun sp => set_s_records sp (bt_insert key row (s_records sp))) (spaces s))
  end.

(** [records_mut(..).insert(..)]: the [expect] fails when the scope does not exist. *)
Definition put_host (s : SyncStateV3) (scope : HostScope) (key : str) (row : LocalRecord)
  : rresult SyncStateV3 :=
  _ ← host_records s scope; Ok (insert_host s scope key row).

(** An unreadable record that wins may not be overwritten by a cached edit. *)
Definition ensure_host_authority (s : SyncStateV3) (h : HostRecord) : rresult unit :=
  match hr_scope h with
  | Local => Ok tt
  | Space space_id =>
      space ← ok_or (bt_get space_id (spaces s)) (RPanic (lit "spaces index"));
      let l := bt_get (record_key KHost (hr_id h)) (s_records space) in
      guard_err (existsb (fun sealed => opaque_shadows sealed l KHost (hr_id h))
                   (bt_values (s_sealed space))) (OpaqueHostAuthority (hr_id h))
  end.

Definition scope_requires_relationship_review (s : SyncStateV3) (scope : HostScope) : rresult bool :=
  repo ← snapshot s;
  Ok (existsb (fun v =>
        (hr_scope (v_host v) =?= scope)
        && (is_some (v_group_error v) || is_err (ensure_host_authority s (v_host v))
            || alias_conflict (snap_hosts repo) (v_host v)
            || is_err (route_indices (snap_hosts repo) (hr_id (v_host v))))) (snap_hosts repo)).

Definition checked_host (s : SyncStateV3) (id : str) (expected : RecordRevision) : rresult HostView :=
  v ← get_host s id;
  _ ← guard_err (negb (v_revision v =?= expected)) (RevisionConflict id (v_revision v));
  _ ← ensure_scope s (hr_scope (v_host v));
  _ ← ensure_host_authority s (v_host v);
  Ok v.

Definition is_missing_jump (e : RecordValidationError) : bool :=
  match e with MissingJump _ _ => true | _ => false end.

(** The checks of one view of the candidate against the views before it. *)
Definition check_view (old new : list HostView) (v : HostView) : rresult unit :=
  let h := v_host v in
  _ ← match v_group_error v with
      | Some e =>
          guard_err (negb (existsb (fun o => (hr_id (v_host o) =?= hr_id h)
                                             && (v_group_error o =?= Some e)) old)) (Group e)
      | None => Ok tt
      end;
  _ ← guard_err (duplicate_id new (hr_id h) && negb (duplicate_id old (hr_id h)))
        (Validation (DuplicateId (hr_id h)));
  _ ← guard_err (alias_conflict new h
                 && negb (existsb (fun o => (hr_scope (v_host o) =?= hr_scope h)
                      && (hp_alias (hr_payload (v_host o)) =?= hp_alias (hr_payload h))
                      && alias_conflict old (v_host o)) old))
        (Validation (AliasConflict (hp_alias (hr_payload h)) (hr_scope h)));
  match route_indices new (hr_id h) with
  | Ok _ => Ok tt
  | Err e =>
      if is_missing_jump e && needs_import_review h then Ok tt
      else guard_err (negb (result_err (route_indices old (hr_id h)) =?= Some e)) (Validation e)
  end.

(** [validate_transition]: an edit may not introduce a relationship defect. *)
Definition validate_transition (before after : SyncStateV3) : rresult unit :=
  old ← list_hosts before;
  new ← list_hosts after;
  try_for (check_view old new) new.

Definition host_id_taken (s : SyncStateV3) (key : str) : bool :=
  bt_contains_key key (l_hosts (local s))
  || existsb (fun sp => bt_contains_key key (s_records sp)) (bt_values (spaces s)).

Definition create_host (s : SyncStateV3) (id : str) (scope : HostScope) (payload : HostPayload)
    (now_ms : N) : rresult SyncStateV3 :=
  _ ← ensure_scope s scope;
  _ ← require_host_format s payload scope;
  let key := record_key KHost id in
  _ ← guard_err (host_id_taken s key) (Validation (DuplicateId id));
  let payload := with_host_key payload None in
  _ ← lift (validate_host (mkHostRecord id scope payload));
  r ← ordered_record s id (to_value payload) false now_ms [];
  next ← put_host s scope key (cached r 0 scope);
  _ ← validate_transition s next;
  Ok next.

(** The previous row of a checked host: indexing it panics when absent. *)
Definition previous_row (s : SyncStateV3) (scope : HostScope) (key : str) : rresult LocalRecord :=
  rows ← host_records s scope;
  ok_or (bt_get key rows) (RPanic (lit "records index")).

(** Common tail of the edits of one host: stamp, insert, check the transition. *)
Definition store_host (s : SyncStateV3) (v : HostView) (id : str) (payload : Json) (deleted : bool)
    (now_ms : N) : rresult SyncStateV3 :=
  let scope := hr_scope (v_host v) in
  let key := record_key KHost id in
  previous ← previous_row s scope key;
  r ← ordered_record s id payload deleted now_ms [lrecord previous];
  next ← put_host s scope key (cached r (lseq previous) scope);
  _ ← validate_transition s next;
  Ok next.

Definition same_endpoint (a b : HostPayload) : bool :=
  (hp_hostname a =?= hp_hostname b) && (hp_port a =? hp_port b)%N.

Definition update_host (s : SyncStateV3) (id : str) (expected : RecordRevision) (payload : HostPayload)
    (now_ms : N) : rresult SyncStateV3 :=
  v ← checked_host s id expected;
  _ ← require_host_format s payload (hr_scope (v_host v));
  eff ← resolve_effective s (with_payload (v_host v) payload);
  let pin := if same_endpoint (v_effective v) (eff_payload eff)
             then hp_host_key (hr_payload (v_host v)) else None in
  let payload := with_host_key payload pin in
  _ ← lift (validate_host (with_payload (v_host v) payload));
  store_host s v id (to_value payload) false now_ms.

Definition delete_host (s : SyncStateV3) (id : str) (expected : RecordRevision) (now_ms : N)
  : rresult SyncStateV3 :=
  v ← checked_host s id expected;
  store_host s v id JNull true now_ms.

(** A tombstone with the stamp of the moved record. *)
Definition tombstone_of (r : Rec) : Rec :=
  mkRec (rkind r) (rid r) (rversion r) (rupdated_at_ms r) (rdevice_id r) true JNull.

Definition move_host (s : SyncStateV3) (id : str) (expected : RecordRevision) (destination : HostScope)
    (now_ms : N) : rresult SyncStateV3 :=
  v ← checked_host s id expected;
  _ ← ensure_scope s destination;
  let from := hr_scope (v_host v) in
  if from =?= destination then Ok s
  else
    let key := record_key KHost id in
    source ← previous_row s from key;
    dest_rows ← host_records s destination;
    let existing := bt_get key dest_rows in
    _ ← guard_err (is_some_and (fun l => negb (rdeleted (lrecord l))) existing)
          (Validation (DuplicateId id));
    _ ← from_option (validate_cache key) (Ok tt) existing;
    let previous := lrecord source :: from_option (fun l => [lrecord l]) [] existing in
    eff ← resolve_effective s (v_host v);
    r ← ordered_record s id (to_value (materialize (eff_payload eff))) false now_ms previous;
    next ← put_host s from key (cached (tombstone_of r) (lseq source) from);
    next ← put_host next destination key (cached r (from_option lseq 0%N existing) destination);
    _ ← validate_transition s next;
    Ok next.

Definition same_pin (a b : StoredHostKey) : bool :=
  (pin_algorithm a =?= pin_algorithm b) && (pin_public_key a =?= pin_public_key b)
  && (pin_fingerprint a =?= pin_fingerprint b).

Definition forget_host_key (s : SyncStateV3) (id : str) (expected : RecordRevision)
    (endpoint : HostEndpoint) (pin : StoredHostKey) (now_ms : N) : rresult SyncStateV3 :=
  v ← checked_host s id expected;
  _ ← guard_err (negb (hp_hostname (v_effective v) =?= ep_hostname endpoint)
                 || negb (hp_port (v_effective v) =? ep_port endpoint)%N) (EndpointChanged id);
  _ ← guard_err (negb (hp_host_key (hr_payload (v_host v)) =?= Some pin)) (PinConflict id);
  store_host s v id (to_value (with_host_key (hr_payload (v_host v)) None)) false now_ms.

Definition pin_host_key (s : SyncStateV3) (id : str) (endpoint : HostEndpoint)
    (previous_pin : option StoredHostKey) (candidate : StoredHostKey) (now_ms : N)
  : rresult SyncStateV3 :=
  v ← get_host s id;
  _ ← ensure_scope s (hr_scope (v_host v));
  _ ← ensure_host_authority s (v_host v);
  _ ← guard_err (is_some (v_group_error v) || negb (hp_hostname (v_effective v) =?= ep_hostname endpoint)
                 || negb (hp_port (v_effective v) =? ep_port endpoint)%N) (EndpointChanged id);
  let current := hp_host_key (hr_payload (v_host v)) in
  if is_some_and (fun c => same_pin c candidate) current then Ok s
  else
    _ ← guard_err (negb match current, previous_pin with
                        | None, None => true
                        | Some c, Some p => same_pin c p
                        | _, _ => false
                        end) (PinConflict id);
    let pin := mkPin (pin_algorithm candidate) (pin_public_key candidate) (pin_fingerprint candidate)
                 now_ms (device_id s) in
    let payload := with_host_key (hr_payload (v_host v)) (Some pin) in
    _ ← lift (validate_host (with_payload (v_host v) payload));
    store_host s v id (to_value payload) false now_ms.

(** [rename_key]: public metadata only. *)
Definition with_name (k : KeySlotPayload) (name : str) : KeySlotPayload :=
  mkKeySlot (ks_schema k) name (ks_public_key k) (ks_fingerprint k) (ks_key_type k)
    (ks_has_passphrase k) (ks_created_at_ms k) (ks_origin_device_id k).

Definition rename_key (s : SyncStateV3) (id : str) (expected : KeySlotPayload) (name : str) (now_ms : N)
  : rresult SyncStateV3 :=
  let name := trim name in
  _ ← guard_err (negb (valid_slot_name name))
        (Validation (Invalid (lit "name") id
           (lit "expected 1" ++ [8211%N]
            ++ lit "64 letters, numbers, dots, dashes or underscores")));
  key ← resolve_key s id;
  _ ← guard_err ((kv_status key =?= Conflict) || (kv_status key =?= Deleted))
        (r_invalid "key" id "resolve the key conflict or deletion before renaming");
  _ ← guard_err (negb (kv_public key =?= Some expected))
        (r_invalid "key" id "key metadata changed; refresh before renaming");
  _ ← guard_err ((kv_authority key =?= KAAccount)
                 && (account_writes_blocked s || is_some (rotation s))) ReadOnlyAccount;
  if ks_name expected =?= name then Ok s
  else
    let public := with_name expected name in
    _ ← lift (validate_keyslot id public);
    next ← (if kv_authority key =?= KAAccount then
              let cache_key := record_key KKeySlot id in
              a ← ok_or (account s) (RPanic (lit "account"));
              previous ← ok_or (bt_get cache_key (a_records a)) (RPanic (lit "records index"));
              r ← ordered_record s id (to_value public) false now_ms [lrecord previous];
              let row := mkLocal (with_kind r KKeySlot) (lseq previous) true in
              Ok (set_account s (Some (set_a_records a (bt_insert cache_key row (a_records a)))))
            else Ok s);
    Ok (set_local next (set_l_keys (local next)
          (bt_update id (fun m => mkLocalKey (vault_id m) (with_name (key_public m) name))
             (l_keys (local next))))).
End Repository.
