(* ===== verification/RepositoryProps.v ===== *)
(** * RepositoryProps: the guarantees of the host edits

    Frames, revision checks, write gates, the last-writer-wins stamp of every
    edit, and the rules for host-key pins. *)

From S2P Require Import Prelude Text BTreeMap SlotRules Json SyncRecord RecordsTypes RecordsValidate RecordsValidateProps RecordsState RepositoryCore RecordGroups Repository.

(** ** Rows of a scope *)

(** The host row of an id in a scope. *)
Definition host_row (s : SyncStateV3) (scope : HostScope) (id : str) : option LocalRecord :=
  match host_records s scope with
  | Ok rows => bt_get (record_key KHost id) rows
  | Err _ => None
  end.

(** Everything a host edit leaves alone. *)
Definition same_frame (s s' : SyncStateV3) : Prop :=
  version s' = version s /\ device_id s' = device_id s /\ account s' = account s
  /\ l_keys (local s') = l_keys (local s) /\ l_groups (local s') = l_groups (local s)
  /\ group_order (local s') = group_order (local s)
  /\ import_receipts (local s') = import_receipts (local s)
  /\ migration_gate s' = migration_gate s /\ shared_writes_blocked s' = shared_writes_blocked s
  /\ pending_account s' = pending_account s /\ rotation s' = rotation s
  /\ bt_keys (spaces s') = bt_keys (spaces s).

#[export] Instance same_frame_refl : Reflexive same_frame.
Proof. intros s. unfold same_frame. naive_solver. Qed.

#[export] Instance same_frame_trans : Transitive same_frame.
Proof. intros a b c. unfold same_frame. naive_solver congruence. Qed.

Lemma insert_host_frame s scope key row : same_frame s (insert_host s scope key row).
Proof.
  unfold same_frame, insert_host. destruct scope; simpl; [naive_solver|].
  rewrite bt_keys_update. naive_solver.
Qed.

Lemma host_records_insert_eq s scope key row rows :
  host_records s scope = Ok rows ->
  host_records (insert_host s scope key row) scope = Ok (bt_insert key row rows).
Proof.
  unfold host_records, insert_host. destruct scope as [|sid]; simpl; [naive_solver|].
  rewrite bt_get_update, decide_True by done.
  destruct (bt_get sid (spaces s)); simpl; naive_solver.
Qed.

Lemma host_records_insert_ne s scope scope' key row :
  scope <> scope' -> host_records (insert_host s scope key row) scope' = host_records s scope'.
Proof.
  unfold host_records, insert_host. destruct scope as [|sid], scope' as [|sid']; simpl; try done.
  intros Hne. rewrite bt_get_update, decide_False by congruence. done.
Qed.

Lemma host_row_insert s scope id row scope' id' rows :
  host_records s scope = Ok rows ->
  host_row (insert_host s scope (record_key KHost id) row) scope' id' =
  if decide (scope = scope' /\ id = id') then Some row else host_row s scope' id'.
Proof.
  intros Hr. unfold host_row. destruct (decide (scope = scope')) as [<-|Hne].
  - rewrite (host_records_insert_eq _ _ _ _ _ Hr), Hr, bt_get_insert.
    destruct (decide (id = id')) as [->|Hid].
    + by rewrite !decide_True.
    + rewrite !decide_False; [done|naive_solver|]. intros Heq%record_key_inj. naive_solver.
  - rewrite host_records_insert_ne by done. by rewrite decide_False by naive_solver.
Qed.

Lemma put_host_Ok s scope key row s' : put_host s scope key row = Ok s' -> s' = insert_host s scope key row.
Proof. unfold put_host. intros H. by ok_inv. Qed.

(** Replace a successful [put_host] by the state it returns. *)
Ltac put_inv :=
  repeat match goal with H : put_host _ _ _ _ = Ok _ |- _ => apply put_host_Ok in H; subst end.

Section Props.
Context {E : RecordEnv}.

(** ** The common tail of the edits *)

(** One host row replaced by a stamped one, everything else untouched. *)
Definition edits_host (s s' : SyncStateV3) (scope : HostScope) (id : str) (old new : LocalRecord) : Prop :=
  same_frame s s'
  /\ host_row s scope id = Some old /\ host_row s' scope id = Some new
  /\ (forall scope' id', (scope', id') <> (scope, id) -> host_row s' scope' id' = host_row s scope' id').

Lemma previous_row_Ok s scope id prev :
  previous_row s scope (record_key KHost id) = Ok prev ->
  host_row s scope id = Some prev /\ exists rows, host_records s scope = Ok rows.
Proof.
  unfold previous_row, host_row. intros H. ok_inv. rewrite Hok. split; [done|eauto].
Qed.

Lemma store_host_Ok s v id p d now s' :
  store_host s v id p d now = Ok s' ->
  exists old r, ordered_record s id p d now [lrecord old] = Ok r
    /\ edits_host s s' (hr_scope (v_host v)) id old
         (cached r (lseq old) (hr_scope (v_host v)))
    /\ validate_transition s s' = Ok tt.
Proof.
  unfold store_host. intros H. ok_inv. put_inv. units.
  destruct (previous_row_Ok _ _ _ _ Hok) as [Hrow [rows Hrows]].
  exists v0, v1. split_and!; [done| |done]. split_and!; [apply insert_host_frame|done| |].
  - rewrite (host_row_insert _ _ _ _ _ _ _ Hrows). by rewrite decide_True.
  - intros scope' id' Hne. rewrite (host_row_insert _ _ _ _ _ _ _ Hrows).
    rewrite decide_False by naive_solver. done.
Qed.

Lemma checked_host_Ok s id expected v :
  checked_host s id expected = Ok v ->
  get_host s id = Ok v /\ v_revision v = expected /\ ensure_scope s (hr_scope (v_host v)) = Ok tt
  /\ ensure_host_authority s (v_host v) = Ok tt.
Proof. unfold checked_host. intros H. ok_inv. breflect. units. done. Qed.

(** ** Revisions and gates *)

(** C37. Optimistic concurrency: an edit made against an outdated revision of a
    host is refused with the current revision, whatever the edit is, and no
    state is produced. *)
Theorem stale_edit_refused (s : SyncStateV3) (id : str) (expected : RecordRevision) (v : HostView)
    payload dest endpoint pin now
    (Hget : get_host s id = Ok v) (Hstale : v_revision v <> expected) :
  update_host s id expected payload now = Err (RevisionConflict id (v_revision v))
  /\ delete_host s id expected now = Err (RevisionConflict id (v_revision v))
  /\ move_host s id expected dest now = Err (RevisionConflict id (v_revision v))
  /\ forget_host_key s id expected endpoint pin now = Err (RevisionConflict id (v_revision v)).
Proof.
  assert (Hc : checked_host s id expected = Err (RevisionConflict id (v_revision v))).
  { unfold checked_host. rewrite Hget. cbn [mbind result_bind].
    by rewrite bool_decide_false by done. }
  unfold update_host, delete_host, move_host, forget_host_key. by rewrite Hc.
Qed.

Lemma ensure_scope_blocked s sid :
  account_writes_blocked s = true -> forall u, ensure_scope s (Space sid) <> Ok u.
Proof. intros Hb u H. unfold ensure_scope in H. rewrite Hb in H. by ok_inv. Qed.

(** The write gate: while shared writes are blocked (a pending account
    operation, a frozen or newer account, a running migration), no host can be
    created in, changed in, pinned in, deleted from or moved into or out of a
    shared space. *)
Lemma blocked_account_read_only (s s' : SyncStateV3) (id sid : str) (v : HostView)
    expected payload endpoint prev candidate now
    (Hb : account_writes_blocked s = true) :
  create_host s id (Space sid) payload now <> Ok s'
  /\ move_host s id expected (Space sid) now <> Ok s'
  /\ (get_host s id = Ok v -> hr_scope (v_host v) = Space sid ->
      update_host s id expected payload now <> Ok s'
      /\ delete_host s id expected now <> Ok s'
      /\ move_host s id expected Local now <> Ok s'
      /\ pin_host_key s id endpoint prev candidate now <> Ok s').
Proof.
  pose proof (ensure_scope_blocked s sid Hb) as Hes.
  assert (Hc : forall w, get_host s id = Ok v -> hr_scope (v_host v) = Space sid ->
    checked_host s id expected <> Ok w).
  { intros w Hg Hs H. apply checked_host_Ok in H as (Hg' & _ & He & _).
    rewrite Hg in Hg'. injection Hg' as <-. rewrite Hs in He. by eapply Hes. }
  split_and!.
  - unfold create_host. intros H. ok_inv. by eapply Hes.
  - unfold move_host. intros H. ok_inv. by eapply Hes.
  - intros Hg Hs. split_and!; intros H.
    + unfold update_host in H. ok_inv. by eapply Hc.
    + unfold delete_host in H. ok_inv. by eapply Hc.
    + unfold move_host in H. ok_inv. by eapply Hc.
    + unfold pin_host_key in H. ok_inv. rewrite Hok in Hg. injection Hg as ->.
      rewrite Hs in Hok0. by eapply Hes.
Qed.

(** ** Edits *)

(** Updating a host replaces exactly one row by a validated payload whose
    stamp beats the old one on every replica.  The caller cannot set or keep a
    host-key pin: the stored pin is the one already on record, and it survives
    only if the effective host name and port are unchanged. *)
Lemma update_host_spec (s s' : SyncStateV3) (id : str) (expected : RecordRevision)
    (payload : HostPayload) (now : N) (Hok : update_host s id expected payload now = Ok s') :
  exists v eff old r stored, get_host s id = Ok v /\ v_revision v = expected
    /\ resolve_effective s (with_payload (v_host v) payload) = Ok eff
    /\ edits_host s s' (hr_scope (v_host v)) id old (cached r (lseq old) (hr_scope (v_host v)))
    /\ rpayload r = to_value stored /\ rid r = id /\ rdeleted r = false
    /\ remote_wins r (lrecord old) = true /\ (rversion (lrecord old) < rversion r)%N
    /\ validate_host (with_payload (v_host v) stored) = Ok tt
    /\ stored = with_host_key payload (hp_host_key stored)
    /\ (hp_host_key stored = None
        \/ (hp_host_key stored = hp_host_key (hr_payload (v_host v))
            /\ hp_hostname (v_effective v) = hp_hostname (eff_payload eff)
            /\ hp_port (v_effective v) = hp_port (eff_payload eff))).
Proof.
  unfold update_host in Hok. ok_inv. apply lift_Ok in Hok3.
  destruct (checked_host_Ok _ _ _ _ Hok0) as (Hg & Hrev & _).
  destruct (store_host_Ok _ _ _ _ _ _ _ Hok) as (old & r & Hord & Hed & _).
  destruct (ordered_record_fields _ _ _ _ _ _ _ Hord) as (_ & Hid & Hdel & Hp & _).
  destruct (ordered_record_dominates _ _ _ _ _ _ _ (lrecord old) Hord) as (Hv & _ & Hw); [by left|].
  exists v, v1, old, r. eexists. units. split_and!; try done.
  simpl. destruct (same_endpoint _ _) eqn:Hse; [right|by left].
  unfold same_endpoint in Hse. breflect. done.
Qed.

(** Deleting a host leaves a tombstone in its place that beats the deleted
    record on every replica, in one row and nowhere else. *)
Lemma delete_host_spec (s s' : SyncStateV3) (id : str) (expected : RecordRevision) (now : N)
    (Hok : delete_host s id expected now = Ok s') :
  exists v old r, get_host s id = Ok v /\ v_revision v = expected
    /\ edits_host s s' (hr_scope (v_host v)) id old (cached r (lseq old) (hr_scope (v_host v)))
    /\ rdeleted r = true /\ rpayload r = JNull /\ rid r = id
    /\ remote_wins r (lrecord old) = true.
Proof.
  unfold delete_host in Hok. ok_inv.
  destruct (checked_host_Ok _ _ _ _ Hok0) as (Hg & Hrev & _).
  destruct (store_host_Ok _ _ _ _ _ _ _ Hok) as (old & r & Hord & Hed & _).
  destruct (ordered_record_fields _ _ _ _ _ _ _ Hord) as (_ & Hid & Hdel & Hp & _).
  destruct (ordered_record_dominates _ _ _ _ _ _ _ (lrecord old) Hord) as (_ & _ & Hw); [by left|].
  exists v, old, r. done.
Qed.

Lemma ensure_scope_rows s scope u :
  ensure_scope s scope = Ok u -> exists rows, host_records s scope = Ok rows.
Proof.
  unfold ensure_scope, host_records. destruct scope as [|sid]; [eauto|]. intros H. ok_inv.
  rewrite Hok1. simpl. eauto.
Qed.

(** No scope holds a row of an id that is not taken. *)
Lemma host_not_taken s id scope :
  host_id_taken s (record_key KHost id) = false -> host_row s scope id = None.
Proof.
  unfold host_id_taken, host_row, host_records. intros [Hl Hs]%orb_false_iff.
  destruct scope as [|sid]; simpl.
  - unfold bt_contains_key in Hl. by destruct (bt_get _ _).
  - destruct (bt_get sid (spaces s)) as [sp|] eqn:Hg; simpl; [|done].
    rewrite existsb_none in Hs. specialize (Hs sp). unfold bt_contains_key in Hs.
    destruct (bt_get (record_key KHost id) (s_records sp)); [|done].
    exfalso. discriminate Hs. unfold bt_values. apply bt_get_elem in Hg.
    by apply (list_elem_of_fmap_2 snd) in Hg.
Qed.

(** Creating a host adds one row, and only where no row of that id existed
    in any scope; the new record is valid, starts at version 1 and never carries
    a host-key pin, whatever the caller passed. *)
Lemma create_host_spec (s s' : SyncStateV3) (id : str) (scope : HostScope) (payload : HostPayload)
    (now : N) (Hok : create_host s id scope payload now = Ok s') :
  let stored := with_host_key payload None in
  (forall scope', host_row s scope' id = None)
  /\ (exists r, host_row s' scope id = Some (mkLocal r 0 (is_space scope))
        /\ rid r = id /\ rversion r = 1%N /\ rupdated_at_ms r = now /\ rdevice_id r = device_id s
        /\ decode_host r scope = Ok (Live (mkHostRecord id scope stored)))
  /\ host_ok (mkHostRecord id scope stored)
  /\ (forall scope' id', (scope', id') <> (scope, id) -> host_row s' scope' id' = host_row s scope' id')
  /\ same_frame s s'.
Proof.
  intros stored. unfold create_host in Hok. ok_inv. put_inv. apply lift_Ok in Hok3.
  destruct (ensure_scope_rows _ _ _ Hok0) as [rows Hrows].
  apply validate_host_jumps in Hok3 as (Hshape & _). fold stored in Hshape |- *.
  split_and!.
  - intros scope'. by apply host_not_taken.
  - exists v3. rewrite (host_row_insert _ _ _ _ _ _ _ Hrows), decide_True by done.
    destruct (ordered_record_fields _ _ _ _ _ _ _ Hok4) as (Hk & Hid & Hdel & Hp & Hdev & _).
    unfold ordered_record in Hok4. simpl in Hok4. ok_inv. simpl in *.
    split_and!; try done.
    by apply (decode_host_encoded (mkRec KHost id 1 now (device_id s) false (to_value stored))).
  - by eapply validate_host_shape_ok.
  - intros scope' id' Hne. rewrite (host_row_insert _ _ _ _ _ _ _ Hrows).
    by rewrite decide_False by naive_solver.
  - apply insert_host_frame.
Qed.

(** Moving a host to another scope is one atomic candidate: the old scope
    gets a tombstone and the new scope a live record with the same stamp, which
    beats both the source record and any old tombstone at the destination; the
    moved settings no longer depend on groups, and no other row changes. *)
Lemma move_host_scopes (s s' : SyncStateV3) (id : str) (expected : RecordRevision)
    (dest : HostScope) (now : N) (v : HostView) (Hget : get_host s id = Ok v)
    (Hne : hr_scope (v_host v) <> dest) (Hok : move_host s id expected dest now = Ok s') :
  exists source r eff, let from := hr_scope (v_host v) in
    host_row s from id = Some source
    /\ resolve_effective s (v_host v) = Ok eff
    /\ rpayload r = to_value (materialize (eff_payload eff)) /\ rdeleted r = false
    /\ host_row s' dest id = Some (cached r (from_option lseq 0%N (host_row s dest id)) dest)
    /\ host_row s' from id = Some (cached (tombstone_of r) (lseq source) from)
    /\ remote_wins r (lrecord source) = true
    /\ (forall old, host_row s dest id = Some old ->
          rdeleted (lrecord old) = true /\ remote_wins r (lrecord old) = true)
    /\ (forall scope' id', id' <> id -> host_row s' scope' id' = host_row s scope' id')
    /\ same_frame s s'.
Proof.
  unfold move_host in Hok. ok_inv.
  destruct (checked_host_Ok _ _ _ _ Hok0) as (Hg & _). rewrite Hget in Hg. injection Hg as <-.
  rewrite bool_decide_false in Hok by done. ok_inv. put_inv.
  destruct (previous_row_Ok _ _ _ _ Hok2) as [Hsrc [rows Hrows]].
  destruct (ordered_record_fields _ _ _ _ _ _ _ Hok7) as (_ & _ & Hdel & Hp & _).
  assert (Hdest : bt_get (record_key KHost id) v2 = host_row s dest id)
    by (unfold host_row; by rewrite Hok3).
  rewrite Hdest in *.
  assert (Hins : host_records (insert_host s (hr_scope (v_host v)) (record_key KHost id)
    (cached (tombstone_of v6) (lseq v0) (hr_scope (v_host v)))) dest = Ok v2)
    by (rewrite host_records_insert_ne by done; done).
  exists v0, v6, v5. cbv zeta. split_and!; try done.
  - rewrite (host_row_insert _ _ _ _ _ _ _ Hins). by rewrite decide_True.
  - rewrite (host_row_insert _ _ _ _ _ _ _ Hins), decide_False by naive_solver.
    rewrite (host_row_insert _ _ _ _ _ _ _ Hrows). by rewrite decide_True.
  - eapply ordered_record_dominates; [done|]. by left.
  - intros old Hold. rewrite Hold in *. simpl in *. split; [by apply negb_false_iff in Hok4|].
    eapply ordered_record_dominates; [done|]. right. by left.
  - intros scope' id' Hne'. rewrite (host_row_insert _ _ _ _ _ _ _ Hins), decide_False by naive_solver.
    rewrite (host_row_insert _ _ _ _ _ _ _ Hrows). by rewrite decide_False by naive_solver.
  - etransitivity; apply insert_host_frame.
Qed.

(** Pinning a host key is compare-and-swap: it happens only for the
    effective endpoint the connection used, never replaces a pin other than the
    one the caller saw, and stores exactly the verified key, stamped with this
    device; a host that already has that key is left as it is. *)
Lemma pin_host_key_spec (s s' : SyncStateV3) (id : str) (endpoint : HostEndpoint)
    (prev : option StoredHostKey) (candidate : StoredHostKey) (now : N)
    (Hok : pin_host_key s id endpoint prev candidate now = Ok s') :
  exists v, get_host s id = Ok v
    /\ hp_hostname (v_effective v) = ep_hostname endpoint /\ hp_port (v_effective v) = ep_port endpoint
    /\ let current := hp_host_key (hr_payload (v_host v)) in
       ((exists c, current = Some c /\ same_pin c candidate = true /\ s' = s)
        \/ (exists old r pin,
              edits_host s s' (hr_scope (v_host v)) id old (cached r (lseq old) (hr_scope (v_host v)))
              /\ rpayload r = to_value (with_host_key (hr_payload (v_host v)) (Some pin))
              /\ same_pin pin candidate = true /\ pinned_by_device_id pin = device_id s
              /\ pinned_at_ms pin = now
              /\ (current = None /\ prev = None
                  \/ exists c p, current = Some c /\ prev = Some p /\ same_pin c p = true)
              /\ remote_wins r (lrecord old) = true)).
Proof.
  unfold pin_host_key in Hok. ok_inv. exists v. breflect. split_and!; try done. cbv zeta.
  destruct (is_some_and _ (hp_host_key (hr_payload (v_host v)))) eqn:Hsame.
  - left. destruct (hp_host_key (hr_payload (v_host v))) as [c|]; [|done].
    injection Hok as <-. by exists c.
  - right. ok_inv. breflect.
    destruct (store_host_Ok _ _ _ _ _ _ _ Hok) as (old & r & Hord & Hed & _).
    destruct (ordered_record_fields _ _ _ _ _ _ _ Hord) as (_ & _ & _ & Hp & _).
    exists old, r. eexists. split_and!; try done.
    + unfold same_pin. simpl. by rewrite !bool_decide_true.
    + destruct (hp_host_key (hr_payload (v_host v))) as [c|], prev as [q|]; try done;
        [right; eauto|by left].
    + eapply ordered_record_dominates; [done|]. by left.
Qed.
End Props.
