(* ===== verification/SnapshotProps.v ===== *)
(** * SnapshotProps: what the snapshot and the key views promise *)

From S2P Require Import Prelude Text BTreeMap SlotRules Json SyncRecord RecordsTypes RecordsValidate RecordsValidateProps RecordsState RepositoryCore RecordGroups Repository RepositoryProps.

Section Props.
Context {E : RecordEnv}.

(** ** Where the views come from *)

(** A view as [read_hosts] builds it from a row of its scope. *)
Definition from_row (scope : HostScope) (rows : btree LocalRecord) (v : HostView) : Prop :=
  exists key l h rd, (key, l) ∈ rows /\ validate_cache key l = Ok tt
    /\ decode_host (lrecord l) scope = Ok (Live h)
    /\ v = mkView h (hr_payload h) [] None (revision (lrecord l)) rd.

Definition view_key (v : HostView) : str := record_key KHost (hr_id (v_host v)).

Lemma from_row_key scope rows v :
  from_row scope rows v ->
  hr_scope (v_host v) = scope /\ exists l, (view_key v, l) ∈ rows
    /\ decode_host (lrecord l) scope = Ok (Live (v_host v)) /\ v_revision v = revision (lrecord l).
Proof.
  intros (key & l & h & rd & Hin & Hc & Hd & ->). unfold view_key. simpl.
  pose proof (decode_host_Live _ _ _ Hd) as (Hk & _ & Hid & Hsc & _).
  apply validate_cache_Ok in Hc as (_ & -> & _). rewrite Hk in Hin. rewrite Hid.
  split; [done|]. eauto.
Qed.

(** Reading a scope appends one view per live host row, in key order. *)
Lemma read_hosts_Ok scope sealed rows : forall out out' all,
  read_hosts rows scope sealed out = Ok out' -> (forall e, e ∈ rows -> e ∈ all) ->
  exists vs, out' = out ++ vs /\ sublist (map view_key vs) (map fst rows)
    /\ (forall v, v ∈ vs -> from_row scope all v)
    /\ (forall key l h, (key, l) ∈ rows -> decode_host (lrecord l) scope = Ok (Live h) ->
          exists v, v ∈ vs /\ v_host v = h /\ v_revision v = revision (lrecord l) /\ view_key v = key).
Proof.
  unfold read_hosts. induction rows as [|[key l] rows IH]; intros out out' all H Hall; simpl in H; ok_inv.
  { exists []. rewrite app_nil_r. split_and!; [done|constructor| |].
    - intros v Hv. by apply elem_of_nil in Hv.
    - intros key l h Hin. by apply elem_of_nil in Hin. }
  destruct (IH _ _ all H) as (vs & -> & Hsub & Hfrom & Hto); [intros e He; apply Hall; by right|].
  assert (Hskip : v = out -> (forall h, decode_host (lrecord l) scope <> Ok (Live h)) ->
    exists vs0, v ++ vs = out ++ vs0 /\ sublist (map view_key vs0) (map fst ((key, l) :: rows))
      /\ (forall x, x ∈ vs0 -> from_row scope all x)
      /\ (forall key' l' h, (key', l') ∈ (key, l) :: rows -> decode_host (lrecord l') scope = Ok (Live h) ->
          exists x, x ∈ vs0 /\ v_host x = h /\ v_revision x = revision (lrecord l') /\ view_key x = key')).
  { intros -> Hno. exists vs. split_and!; [done|by constructor|done|].
    intros key' l' h [[= -> ->]|Hin]%elem_of_cons Hd; [by destruct (Hno h)|eauto]. }
  destruct (bool_decide (rkind (lrecord l) = KGroup)) eqn:Hgk; ok_inv.
  { apply Hskip; [done|]. apply bool_decide_eq_true in Hgk.
    intros h (Hk & _)%decode_host_Live. congruence. }
  match goal with H : lift (decode_host _ _) = Ok ?t |- _ => apply lift_Ok in H; destruct t as [h|] end; ok_inv.
  2: { apply Hskip; [done|]. intros h. congruence. }
  clear Hskip. units.
  match goal with |- context [(out ++ [?x]) ++ vs] => set (nv := x) end.
  assert (Hnv : from_row scope all nv)
    by (exists key, l, h; eexists; split_and!; [apply Hall; by left|done|done|done]).
  assert (Hnk : view_key nv = key).
  { match goal with H : validate_cache _ _ = Ok _ |- _ => apply validate_cache_Ok in H as (_ & Hkey & _) end.
    match goal with H : decode_host _ _ = Ok (Live h) |- _ => apply decode_host_Live in H as (Hk & _ & Hid & _) end.
    unfold view_key. simpl. by rewrite Hid, <-Hk, <-Hkey. }
  exists (nv :: vs). rewrite <-app_assoc. split_and!; [done| | |].
  - cbn [map fst]. rewrite Hnk. by constructor.
  - intros x [->|Hx]%elem_of_cons; auto.
  - intros key' l' h' [[= -> ->]|Hin]%elem_of_cons Hd.
    + exists nv. split; [by left|]. split; [simpl; congruence|done].
    + destruct (Hto _ _ _ Hin Hd) as (x & Hx & ?). exists x. split; [by right|done].
Qed.

(** The host rows of a visible scope. *)
Definition visible_rows (s : SyncStateV3) (scope : HostScope) (rows : btree LocalRecord) : Prop :=
  match scope with
  | Local => rows = l_hosts (local s)
  | Space sid => exists sp, (sid, sp) ∈ spaces s /\ selected sp = true /\ missing sp = false
                            /\ rows = s_records sp
  end.

(** The representation invariant of the state's [BTreeMap]s. *)
Definition maps_ok (s : SyncStateV3) : Prop :=
  bt_ok (spaces s) /\ bt_ok (l_hosts (local s)) /\ bt_ok (l_keys (local s))
  /\ forall sid sp, (sid, sp) ∈ spaces s -> bt_ok (s_records sp).

Definition view_ident (v : HostView) : HostScope * str := (hr_scope (v_host v), hr_id (v_host v)).

Lemma bt_ok_keys {V} (m : btree V) : bt_ok m -> NoDup (map fst m).
Proof.
  induction 1 as [|[k v] m Hm IH Hall]; simpl; [constructor|]. constructor; [|done].
  intros (e & Heq & He)%list_elem_of_fmap. rewrite Forall_forall in Hall. specialize (Hall _ He).
  unfold key_lt in Hall. simpl in *. rewrite Heq in Hall. by rewrite str_ltb_irrefl in Hall.
Qed.

Lemma scope_views_nodup scope rows vs :
  bt_ok rows -> sublist (map view_key vs) (map fst rows) ->
  (forall v, v ∈ vs -> from_row scope rows v) -> NoDup (map view_ident vs).
Proof.
  intros Hok%bt_ok_keys Hsub Hfrom. apply (sublist_NoDup _ _ Hok) in Hsub.
  assert (Heq : map view_key vs = map (fun i => record_key KHost i.2) (map view_ident vs))
    by (rewrite map_map; done).
  rewrite Heq in Hsub. by apply NoDup_fmap_1 in Hsub.
Qed.

(** The views of the shared spaces, read one space after another. *)
Lemma space_views_Ok s views l : forall out,
  (forall e, e ∈ l -> e ∈ spaces s /\ selected e.2 = true /\ missing e.2 = false) ->
  try_fold (fun out e => read_hosts (s_records e.2) (Space e.1) (Some (s_sealed e.2)) out) out l = Ok views ->
  exists vs, views = out ++ vs
    /\ (forall v, v ∈ vs -> exists sid rows,
          (sid ∈ map fst l) /\ visible_rows s (Space sid) rows /\ from_row (Space sid) rows v)
    /\ (forall sid sp key r h, (sid, sp) ∈ l -> (key, r) ∈ s_records sp ->
          decode_host (lrecord r) (Space sid) = Ok (Live h) ->
          exists v, v ∈ vs /\ v_host v = h /\ v_revision v = revision (lrecord r) /\ view_key v = key)
    /\ (maps_ok s -> NoDup (map fst l) -> NoDup (map view_ident vs)).
Proof.
  induction l as [|[sid sp] l IH]; intros out Hl Hf; simpl in Hf; ok_inv.
  - exists []. rewrite app_nil_r. split_and!; [done| | |intros _ _; constructor].
    + intros v Hv. by apply elem_of_nil in Hv.
    + intros sid sp key r h Hin. by apply elem_of_nil in Hin.
  - destruct (Hl (sid, sp)) as (Hin & Hsel & Hmiss); [by left|]. simpl in Hsel, Hmiss.
    destruct (read_hosts_Ok _ _ _ _ _ (s_records sp) Hok (fun e He => He)) as (vs1 & -> & Hsub & Hfrom & Hto).
    destruct (IH (out ++ vs1)) as (vs2 & -> & Hfrom2 & Hto2 & Hnd2); [intros e He; apply Hl; by right|done|].
    exists (vs1 ++ vs2). rewrite <-app_assoc. split_and!; [done| | |].
    + intros v [Hv|Hv]%elem_of_app.
      * exists sid, (s_records sp). split_and!; [by left|exists sp; done|auto].
      * destruct (Hfrom2 _ Hv) as (sid' & rows & ? & ?). exists sid', rows. split; [by right|done].
    + intros sid' sp' key r h [[= -> ->]|Hin']%elem_of_cons Hr Hd.
      * destruct (Hto _ _ _ Hr Hd) as (v & ? & ?). exists v. split; [apply elem_of_app; by left|done].
      * destruct (Hto2 _ _ _ _ _ Hin' Hr Hd) as (v & ? & ?). exists v. split; [apply elem_of_app; by right|done].
    + intros Hm Hnd. inversion Hnd as [|? ? Hni Hnd']; subst. rewrite map_app. apply NoDup_app. split_and!.
      * eapply scope_views_nodup; [|done|done]. by apply Hm in Hin.
      * intros x (v & -> & Hv)%list_elem_of_fmap (v' & Heq & Hv')%list_elem_of_fmap.
        destruct (from_row_key _ _ _ (Hfrom _ Hv)) as [Hs1 _].
        destruct (Hfrom2 _ Hv') as (sid' & rows & Hsid & _ & Hf'). destruct (from_row_key _ _ _ Hf') as [Hs2 _].
        unfold view_ident in Heq. rewrite Hs1, Hs2 in Heq. injection Heq as -> _. done.
      * auto.
Qed.

(** The views of a state: exactly the live host rows of the visible scopes. *)
Lemma visible_views_Ok s views :
  visible_views s = Ok views ->
  (forall v, v ∈ views -> exists rows, visible_rows s (hr_scope (v_host v)) rows
      /\ from_row (hr_scope (v_host v)) rows v)
  /\ (forall scope rows key l h, visible_rows s scope rows -> (key, l) ∈ rows ->
        decode_host (lrecord l) scope = Ok (Live h) ->
        exists v, v ∈ views /\ v_host v = h /\ v_revision v = revision (lrecord l) /\ view_key v = key)
  /\ (maps_ok s -> NoDup (map view_ident views)).
Proof.
  unfold visible_views. intros H. ok_inv.
  destruct (read_hosts_Ok _ _ _ _ _ (l_hosts (local s)) Hok (fun e He => He)) as (vs0 & -> & Hsub0 & Hfrom0 & Hto0).
  cbn [app] in H. clear Hok.
  destruct (space_views_Ok s views (List.filter (fun e => selected e.2 && negb (missing e.2)) (spaces s)) vs0)
    as (vs & -> & Hfrom & Hto & Hnd); [|done|].
  { intros e He. apply list_elem_of_In, filter_In in He as [He Hb]. breflect. by rewrite list_elem_of_In. }
  split_and!.
  - intros v [Hv|Hv]%elem_of_app.
    + pose proof (Hfrom0 _ Hv) as Hf. destruct (from_row_key _ _ _ Hf) as [-> _]. by eexists.
    + destruct (Hfrom _ Hv) as (sid & rows & _ & Hvis & Hf). destruct (from_row_key _ _ _ Hf) as [-> _]. eauto.
  - intros scope rows key l h Hvis Hin Hd. destruct scope as [|sid].
    + simpl in Hvis. subst rows. destruct (Hto0 _ _ _ Hin Hd) as (v & ? & ?). exists v.
      split; [apply elem_of_app; by left|done].
    + destruct Hvis as (sp & Hsp & Hsel & Hmiss & ->).
      destruct (Hto sid sp key l h) as (v & ? & ?); [|done|done|].
      * apply list_elem_of_In, filter_In. rewrite <-list_elem_of_In. simpl. by rewrite Hsel, Hmiss.
      * exists v. split; [apply elem_of_app; by right|done].
  - intros Hm. rewrite map_app. apply NoDup_app. split_and!.
    + eapply scope_views_nodup; [|done|done]. by apply Hm.
    + intros x (v & -> & Hv)%list_elem_of_fmap (v' & Heq & Hv')%list_elem_of_fmap.
      destruct (from_row_key _ _ _ (Hfrom0 _ Hv)) as [Hs1 _].
      destruct (Hfrom _ Hv') as (sid' & rows & _ & _ & Hf'). destruct (from_row_key _ _ _ Hf') as [Hs2 _].
      unfold view_ident in Heq. rewrite Hs1, Hs2 in Heq. discriminate.
    + apply Hnd; [done|]. destruct Hm as (Hsp%bt_ok_keys & _).
      eapply sublist_NoDup; [exact Hsp|]. clear. induction (spaces s) as [|e l IH]; simpl; [done|].
      destruct (_ && _); simpl; by constructor.
Qed.

Lemma with_effective_host s v :
  v_host (with_effective s v) = v_host v /\ v_revision (with_effective s v) = v_revision v.
Proof. unfold with_effective. by destruct (resolve_effective s (v_host v)). Qed.

(** How the views of a snapshot are made. *)
Lemma snapshot_Ok s snap :
  snapshot s = Ok snap ->
  exists views ready, visible_views s = Ok views /\ list_keys s = Ok (snap_keys snap)
    /\ snap_hosts snap = zip_with set_readiness (map (with_effective s) views) ready
    /\ Forall2 (fun v r => readiness_of (map (with_effective s) views) (snap_keys snap) v = Ok r)
         (map (with_effective s) views) ready.
Proof.
  unfold snapshot. intros H. ok_inv. exists v1, v2. simpl. split_and!; try done.
  by apply try_map_Ok.
Qed.

Lemma snapshot_view s snap v :
  snapshot s = Ok snap -> v ∈ snap_hosts snap ->
  exists views v0 r, visible_views s = Ok views /\ v0 ∈ views
    /\ v = set_readiness (with_effective s v0) r
    /\ readiness_of (map (with_effective s) views) (snap_keys snap) (with_effective s v0) = Ok r.
Proof.
  intros (views & ready & Hv & _ & Hh & Hall)%snapshot_Ok Hin. rewrite Hh in Hin.
  apply elem_of_lookup_zip_with in Hin as (i & x & r & -> & Hx & Hr).
  destruct (Forall2_lookup_l _ _ _ _ _ Hall Hx) as (r' & Hr' & Hrd). rewrite Hr in Hr'.
  injection Hr' as <-. apply list_lookup_fmap_Some in Hx as (v0 & -> & Hv0).
  exists views, v0, r. split_and!; try done. by eapply list_elem_of_lookup_2.
Qed.

(** Routes and conflicts do not depend on the readiness of the views. *)
Lemma position_map {A B} (g : A -> B) (f : B -> bool) l : position f (map g l) = position (fun x => f (g x)) l.
Proof. induction l as [|x l IH]; simpl; [done|]. by rewrite IH. Qed.

Lemma count_if_map {A B} (g : A -> B) (f : B -> bool) l : count_if f (map g l) = count_if (fun x => f (g x)) l.
Proof.
  unfold count_if. induction l as [|x l IH]; simpl; [done|]. destruct (f (g x)); simpl; by rewrite ?IH.
Qed.

Lemma count_if_ext {A} (f g : A -> bool) l : (forall x, f x = g x) -> count_if f l = count_if g l.
Proof. intros H. unfold count_if. by rewrite (filter_ext _ _ H). Qed.

Lemma host_index_map (g : HostView -> HostView) hosts id :
  (forall v, v_host (g v) = v_host v) -> host_index (map g hosts) id = host_index hosts id.
Proof.
  intros Hg. unfold host_index. rewrite position_map, count_if_map.
  replace (position (fun x => hr_id (v_host (g x)) =?= id) hosts)
    with (position (fun v => hr_id (v_host v) =?= id) hosts)
    by (clear -Hg; induction hosts as [|v l IH]; simpl; [done|]; by rewrite Hg, IH).
  replace (count_if (fun x => hr_id (v_host (g x)) =?= id) hosts)
    with (count_if (fun v => hr_id (v_host v) =?= id) hosts); [done|].
  apply count_if_ext. intros v. by rewrite Hg.
Qed.

Lemma lookup_map {A B} (g : A -> B) l i : map g l !! i = g <$> l !! i.
Proof. apply list_lookup_fmap. Qed.

Lemma route_indices_map (g : HostView -> HostView) hosts id :
  (forall v, v_host (g v) = v_host v) -> (forall v, v_effective (g v) = v_effective v) ->
  route_indices (map g hosts) id = route_indices hosts id.
Proof.
  intros Hh He. unfold route_indices. rewrite host_index_map by done.
  destruct (host_index hosts id) as [i|]; [|done]. cbn [mbind result_bind].
  assert (Hid : forall k, view_id (map g hosts) k = view_id hosts k).
  { intros k. unfold view_id. rewrite lookup_map. destruct (hosts !! k); simpl; by rewrite ?Hh. }
  apply append_ext; [done| |].
  - intros k. rewrite lookup_map. destruct (hosts !! k); simpl; by rewrite ?He.
  - intros k j. by rewrite host_index_map, Hid.
Qed.

Lemma alias_conflict_map (g : HostView -> HostView) hosts h :
  (forall v, v_host (g v) = v_host v) -> alias_conflict (map g hosts) h = alias_conflict hosts h.
Proof.
  intros Hg. unfold alias_conflict. rewrite count_if_map.
  rewrite (count_if_ext _ (fun v => (hr_scope (v_host v) =?= hr_scope h)
    && (hp_alias (hr_payload (v_host v)) =?= hp_alias (hr_payload h)))); [done|].
  intros v. by rewrite Hg.
Qed.

(** The views of a snapshot without their readiness. *)
Definition unready (v : HostView) : HostView := set_readiness v HReady.

Lemma snapshot_unready s snap views :
  snapshot s = Ok snap -> visible_views s = Ok views ->
  map unready (snap_hosts snap) = map unready (map (with_effective s) views).
Proof.
  intros (views' & ready & Hv & _ & Hh & Hall)%snapshot_Ok Hv'. rewrite Hv in Hv'. injection Hv' as <-.
  rewrite Hh. apply Forall2_length in Hall. clear Hh. revert ready Hall.
  induction (map (with_effective s) views') as [|v l IH]; intros [|r ready] Hl; try done; simpl in *.
  f_equal. apply IH. lia.
Qed.

(** Ready means connectable: a host the snapshot reports as ready has its
    group settings resolved, no imported setting left to review, no other host
    of its scope with the same alias, a complete jump route, and, when it
    authenticates by key, a key whose material is available. *)
Lemma ready_host_connectable (s : SyncStateV3) (snap : RepositorySnapshot) (v : HostView)
    (Hsnap : snapshot s = Ok snap) (Hv : v ∈ snap_hosts snap) (Hready : v_readiness v = HReady) :
  v_group_error v = None
  /\ (exists eff, resolve_effective s (v_host v) = Ok eff /\ v_effective v = eff_payload eff)
  /\ needs_import_review (v_host v) = false
  /\ alias_conflict (snap_hosts snap) (v_host v) = false
  /\ (exists route, route_indices (snap_hosts snap) (hr_id (v_host v)) = Ok route)
  /\ (hp_auth (v_effective v) = AuthKey ->
      exists id k, hp_key_id (v_effective v) = Some id /\ k ∈ snap_keys snap
        /\ kv_id k = id /\ kv_status k = Available).
Proof.
  destruct (snapshot_view _ _ _ Hsnap Hv) as (views & v0 & r & Hviews & Hv0 & -> & Hrd).
  pose proof (snapshot_unready _ _ _ Hsnap Hviews) as Hun. simpl in Hready. subst r.
  destruct (visible_views_Ok _ _ Hviews) as (Hfrom & _ & _).
  destruct (Hfrom _ Hv0) as (rows & _ & key & l & h & rd & _ & _ & _ & Hv0eq).
  assert (Hroute : forall id, route_indices (snap_hosts snap) id
                      = route_indices (map (with_effective s) views) id).
  { intros id. rewrite <-(route_indices_map unready (snap_hosts snap)) by done.
    rewrite Hun. by apply route_indices_map. }
  assert (Halias : forall x, alias_conflict (snap_hosts snap) x
                      = alias_conflict (map (with_effective s) views) x).
  { intros x. rewrite <-(alias_conflict_map unready (snap_hosts snap)) by done.
    rewrite Hun. by apply alias_conflict_map. }
  unfold readiness_of in Hrd. rewrite <-Hroute, <-Halias in Hrd.
  cbn [v_host v_group_error v_effective set_readiness].
  destruct (bool_decide (v_readiness (with_effective s v0) = HNeedsReview)) eqn:Hnr; [done|].
  destruct (needs_import_review _) eqn:Hir; [done|].
  destruct (alias_conflict _ _) eqn:Hac; [done|].
  destruct (route_indices _ _) as [route|] eqn:Hri; [|done]. simpl in Hrd.
  apply bool_decide_eq_false in Hnr. unfold with_effective in *.
  destruct (resolve_effective s (v_host v0)) as [eff|] eqn:Heff; [|done].
  cbn [v_host v_group_error v_effective] in *. split_and!; try done.
  - by rewrite Hv0eq.
  - eauto.
  - eauto.
  - intros Hauth. rewrite bool_decide_true in Hrd by done.
    destruct (hp_key_id (eff_payload eff)) as [kid|]; [|done]. cbn [ok_or mbind result_bind] in Hrd.
    destruct (List.find _ (snap_keys snap)) as [k|] eqn:Hk; [|done].
    apply find_some in Hk as [Hin Hid%bool_decide_eq_true]. apply list_elem_of_In in Hin.
    exists kid, k. split_and!; try done. cbn in Hrd. by destruct (kv_status k).
Qed.
End Props.
