(* ===== verification/RepositoryLookup.v ===== *)
(** * RepositoryLookup: edits read back, keys stay coherent, nothing panics *)

From S2P Require Import Prelude Text BTreeMap SlotRules Json SyncRecord RecordsTypes RecordsValidate RecordsValidateProps RecordsState RepositoryCore RecordGroups Repository RepositoryProps SnapshotProps.

(** A computation that never reaches one of the source's panics. *)
Definition no_panic {A} (r : rresult A) : Prop := forall w, r <> Err (RPanic w).

Section NoPanic.
Implicit Types (A B : Type).

Lemma np_ok {A} (a : A) : no_panic (Ok a).
Proof. intros w. discriminate. Qed.

Lemma np_bind {A B} (r : rresult A) (f : A -> rresult B) :
  no_panic r -> (forall a, r = Ok a -> no_panic (f a)) -> no_panic (r ≫= f).
Proof.
  intros Hr Hf w. destruct r as [a|e]; cbn; [by apply Hf|].
  intros [= ->]. by apply (Hr w).
Qed.

Definition is_panic (e : RepositoryError) : bool := match e with RPanic _ => true | _ => false end.

Lemma np_guard b e : is_panic e = false -> no_panic (guard_err b e).
Proof. intros He w. unfold guard_err. destruct b; [|done]. intros [= ->]. done. Qed.

Lemma np_ok_or {A} (o : option A) e : is_panic e = false -> no_panic (ok_or o e).
Proof. intros He w. unfold ok_or. destruct o; [done|]. intros [= ->]. done. Qed.

Lemma np_lift {A} (r : vresult A) : no_panic (lift r).
Proof. intros w. unfold lift. by destruct r. Qed.

Lemma np_try_for {A} (f : A -> rresult unit) l : (forall x, x ∈ l -> no_panic (f x)) -> no_panic (try_for f l).
Proof.
  induction l as [|x l IH]; intros H; cbn [try_for]; [apply np_ok|].
  apply np_bind; [apply H; by left|]. intros _ _. apply IH. intros y Hy. apply H. by right.
Qed.

Lemma np_try_fold {A B} (f : B -> A -> rresult B) l : (forall acc x, x ∈ l -> no_panic (f acc x)) ->
  forall acc, no_panic (try_fold f acc l).
Proof.
  induction l as [|x l IH]; intros H acc; cbn [try_fold]; [apply np_ok|].
  apply np_bind; [apply H; by left|]. intros a _. apply IH. intros acc' y Hy. apply H. by right.
Qed.

Lemma np_try_map {A B} (f : A -> rresult B) l : (forall x, x ∈ l -> no_panic (f x)) -> no_panic (try_map f l).
Proof.
  induction l as [|x l IH]; intros H; cbn [try_map]; [apply np_ok|].
  apply np_bind; [apply H; by left|]. intros a _.
  apply np_bind; [apply IH; intros y Hy; apply H; by right|]. intros b _. apply np_ok.
Qed.
End NoPanic.

#[export] Hint Resolve np_ok np_lift : lunport.
#[export] Hint Extern 1 (no_panic (guard_err _ _)) => (apply np_guard; reflexivity) : lunport.
#[export] Hint Extern 1 (no_panic (ok_or _ ?e)) => (apply np_ok_or; reflexivity) : lunport.

(** Step through a monadic block. *)
Ltac np_step :=
  first [ solve [auto with lunport]
        | solve [intros ?; discriminate]
        | match goal with |- no_panic (match ?x with _ => _ end) => destruct x end
        | apply np_bind; [|intros ? ?]
        | apply np_try_for; intros ? ?
        | apply np_try_fold; intros ? ? ?
        | apply np_try_map; intros ? ? ].
Ltac np := repeat np_step.

Section Props.
Context {E : RecordEnv}.

(** ** Reading never panics *)

Lemma np_validate_cache key l : no_panic (validate_cache key l).
Proof. unfold validate_cache. cbv zeta. np. Qed.
#[local] Hint Resolve np_validate_cache : lunport.

Lemma np_validate_header s : no_panic (validate_header s).
Proof. unfold validate_header. np. destruct (account s); simpl; np. Qed.
#[local] Hint Resolve np_validate_header : lunport.

Lemma np_group_records s scope : no_panic (group_records s scope).
Proof. unfold group_records. destruct scope; np. Qed.
#[local] Hint Resolve np_group_records : lunport.

Lemma np_group s scope id : no_panic (group s scope id).
Proof.
  unfold group. apply np_bind; [apply np_group_records|]. intros rows Hr. cbv zeta.
  apply np_bind.
  - destruct scope as [|sid]; [np|]. unfold group_records in Hr. ok_inv.
    destruct (bt_get sid (spaces s)); [|done]. cbn [ok_or mbind result_bind]. np.
  - intros _ _. np.
Qed.
#[local] Hint Resolve np_group : lunport.

Lemma np_ancestors s scope room : forall seen cursor, no_panic (ancestors s scope room seen cursor).
Proof.
  induction room as [|room IH]; intros seen [id|]; cbn [ancestors]; try (intros w; discriminate).
  np.
Qed.
#[local] Hint Resolve np_ancestors : lunport.

Lemma np_resolve_effective s h : no_panic (resolve_effective s h).
Proof.
  unfold resolve_effective. apply np_bind; [apply np_ancestors|]. intros path _.
  destruct (foldl _ _ _). np.
Qed.
#[local] Hint Resolve np_resolve_effective : lunport.

Lemma np_list_groups s : no_panic (list_groups s).
Proof.
  unfold list_groups. apply np_try_fold. intros acc scope _. apply np_bind; [apply np_group_records|].
  intros rows _. apply np_try_fold. intros acc' [key row] _. unfold group_view.
  np.
Qed.
#[local] Hint Resolve np_list_groups : lunport.

Lemma np_list_keys s : no_panic (list_keys s).
Proof.
  unfold list_keys. apply np_bind; [apply np_validate_header|]. intros _ _.
  apply np_bind; [apply np_try_fold; intros acc [id m] _; unfold local_key_view; np|]. intros keys _.
  apply np_bind; [|intros; np]. destruct (account s) as [a|]; [|np].
  apply np_bind; [|intros; np]. apply np_try_fold. intros acc [key l] _. unfold account_key_view.
  cbv zeta. np.
Qed.
#[local] Hint Resolve np_list_keys : lunport.

Lemma np_visible_views s : no_panic (visible_views s).
Proof.
  assert (Hr : forall rows scope sealed out, no_panic (read_hosts rows scope sealed out)).
  { intros. unfold read_hosts. apply np_try_fold. intros acc [key l] _. unfold read_host.
    np. }
  unfold visible_views. apply np_bind; [apply Hr|]. intros out _. apply np_try_fold. intros; apply Hr.
Qed.
#[local] Hint Resolve np_visible_views : lunport.

(** The [expect] of the readiness loop: an effective payload that resolved has a
    key reference whenever it authenticates by key. *)
Lemma np_readiness s hosts keys v :
  no_panic (readiness_of hosts keys (with_effective s v)).
Proof.
  unfold readiness_of. cbv zeta.
  destruct (bool_decide (v_readiness (with_effective s v) = HNeedsReview)) eqn:Hn; [np|].
  destruct (_ || _); [np|]. destruct (bool_decide (hp_auth _ = AuthKey)) eqn:Ha; [|np].
  apply bool_decide_eq_false in Hn. apply bool_decide_eq_true in Ha.
  unfold with_effective in *. destruct (resolve_effective s (v_host v)) as [eff|] eqn:He; [|done].
  simpl in *. unfold resolve_effective in He. ok_inv. destruct (foldl _ _ _) as [p from]. ok_inv.
  apply lift_Ok, validate_host_jumps in Hok0 as (Hs & _). apply validate_host_shape_ok in Hs.
  destruct (ho_key _ Hs Ha) as (k & Hk & _). simpl in Hk. simpl. rewrite Hk. cbn [ok_or mbind result_bind].
  destruct (kv_status <$> _) as [[]|]; np.
Qed.
#[local] Hint Resolve np_readiness : lunport.

Lemma np_snapshot s : no_panic (snapshot s).
Proof.
  unfold snapshot. apply np_bind; [apply np_validate_header|]. intros _ _.
  apply np_bind; [apply np_list_keys|]. intros keys _.
  apply np_bind; [apply np_visible_views|]. intros views _. cbv zeta.
  apply np_bind; [|intros; apply np_bind; [apply np_list_groups|intros; np]].
  apply np_try_map. intros x (v & -> & _)%list_elem_of_fmap. apply np_readiness.
Qed.
#[local] Hint Resolve np_snapshot : lunport.

Lemma np_list_hosts s : no_panic (list_hosts s).
Proof. unfold list_hosts. apply np_bind; [apply np_snapshot|]. intros; np. Qed.
#[local] Hint Resolve np_list_hosts : lunport.

Lemma host_index_lookup hosts id i :
  host_index hosts id = Ok i -> exists v, hosts !! i = Some v /\ hr_id (v_host v) = id.
Proof.
  unfold host_index. destruct (position _ _) as [n|] eqn:Hp; [|done].
  destruct (1 <? _)%nat; [done|]. intros [= <-].
  apply position_Some in Hp as (l1 & x & l2 & -> & <- & Hx & _). exists x.
  rewrite list_lookup_middle by done. by apply bool_decide_eq_true in Hx.
Qed.

Lemma np_get_host s id : no_panic (get_host s id).
Proof.
  unfold get_host. apply np_bind; [apply np_list_hosts|]. intros hosts _.
  apply np_bind; [apply np_lift|]. intros i Hi%lift_Ok.
  destruct (host_index_lookup _ _ _ Hi) as (v & -> & _). apply np_ok.
Qed.
#[local] Hint Resolve np_get_host : lunport.

Lemma np_validate_transition s s' : no_panic (validate_transition s s').
Proof.
  unfold validate_transition. apply np_bind; [apply np_list_hosts|]. intros old _.
  apply np_bind; [apply np_list_hosts|]. intros new _. apply np_try_for. intros v _.
  unfold check_view. cbv zeta. apply np_bind; [destruct (v_group_error v); np|]. intros _ _.
  np.
Qed.
#[local] Hint Resolve np_validate_transition : lunport.

Lemma np_ordered s id p d now prev : no_panic (ordered_record s id p d now prev).
Proof.
  unfold ordered_record. cbv zeta. np.
Qed.
#[local] Hint Resolve np_ordered : lunport.

Lemma np_ensure_scope s scope : no_panic (ensure_scope s scope).
Proof. unfold ensure_scope. destruct scope; np. Qed.
#[local] Hint Resolve np_ensure_scope : lunport.

(** ** Looking up a host *)

Lemma snapshot_idents s snap views :
  snapshot s = Ok snap -> visible_views s = Ok views ->
  map v_host (snap_hosts snap) = map v_host views
  /\ map v_revision (snap_hosts snap) = map v_revision views.
Proof.
  intros Hs Hv. pose proof (snapshot_unready _ _ _ Hs Hv) as Hun.
  split.
  - apply (f_equal (map v_host)) in Hun. rewrite !map_map in Hun. etransitivity; [|etransitivity; [exact Hun|]].
    + by apply map_ext.
    + apply map_ext. intros v. apply (with_effective_host s v).
  - apply (f_equal (map v_revision)) in Hun. rewrite !map_map in Hun.
    etransitivity; [|etransitivity; [exact Hun|]].
    + by apply map_ext.
    + apply map_ext. intros v. apply (with_effective_host s v).
Qed.

Lemma list_hosts_views s hosts :
  list_hosts s = Ok hosts ->
  exists snap views, snapshot s = Ok snap /\ hosts = snap_hosts snap /\ visible_views s = Ok views.
Proof.
  unfold list_hosts. intros H. ok_inv. destruct (snapshot_Ok _ _ Hok) as (views & _ & Hv & _). eauto.
Qed.

Lemma visible_host_records s scope rows :
  maps_ok s -> visible_rows s scope rows -> host_records s scope = Ok rows /\ bt_ok rows.
Proof.
  intros (Hsp & Hh & _ & Hr) Hv. unfold host_records. destruct scope as [|sid]; simpl in Hv; [by subst|].
  destruct Hv as (sp & Hin & _ & _ & ->). rewrite (bt_ok_get _ _ _ Hsp Hin). simpl. eauto.
Qed.

(** A listed host is the live host of a visible row under its own key. *)
Lemma listed_from_row s hosts v :
  list_hosts s = Ok hosts -> v ∈ hosts ->
  exists rows l, visible_rows s (hr_scope (v_host v)) rows
    /\ (record_key KHost (hr_id (v_host v)), l) ∈ rows
    /\ decode_host (lrecord l) (hr_scope (v_host v)) = Ok (Live (v_host v))
    /\ v_revision v = revision (lrecord l).
Proof.
  intros Hl Hv. destruct (list_hosts_views _ _ Hl) as (snap & views & Hs & -> & Hviews).
  destruct (snapshot_idents _ _ _ Hs Hviews) as [Hh Hr].
  apply list_elem_of_lookup in Hv as [i Hi].
  assert (Hx : exists v0, v0 ∈ views /\ v_host v0 = v_host v /\ v_revision v0 = v_revision v).
  { pose proof (lookup_map v_host (snap_hosts snap) i) as E1.
    pose proof (lookup_map v_revision (snap_hosts snap) i) as E2.
    rewrite Hh, lookup_map, Hi in E1. rewrite Hr, lookup_map, Hi in E2.
    destruct (views !! i) as [v0|] eqn:E0; [|done]. simpl in *.
    injection E1 as E1. injection E2 as E2. exists v0. split_and!; try done.
    by eapply list_elem_of_lookup_2. }
  destruct Hx as (v0 & Hin & Eh & Er).
  destruct (visible_views_Ok _ _ Hviews) as (Hfrom & _ & _).
  destruct (Hfrom _ Hin) as (rows & Hvis & Hf). destruct (from_row_key _ _ _ Hf) as (_ & l & Hrow & Hd & Hrev).
  rewrite Eh in *. rewrite Er in Hrev. exists rows, l. split_and!; try done.
  unfold view_key in Hrow. by rewrite Eh in Hrow.
Qed.

(** A listed host stands in the row of its id and scope. *)
Lemma listed_host_row s hosts v :
  maps_ok s -> list_hosts s = Ok hosts -> v ∈ hosts ->
  exists l, host_row s (hr_scope (v_host v)) (hr_id (v_host v)) = Some l
    /\ decode_host (lrecord l) (hr_scope (v_host v)) = Ok (Live (v_host v))
    /\ v_revision v = revision (lrecord l).
Proof.
  intros Hm Hl Hv. destruct (listed_from_row _ _ _ Hl Hv) as (rows & l & Hvis & Hrow & Hd & Hrev).
  destruct (visible_host_records _ _ _ Hm Hvis) as [Hrec Hok'].
  exists l. split_and!; [|done|done]. unfold host_row. rewrite Hrec. by apply bt_ok_get.
Qed.

(** Every live row of a visible scope is listed. *)
Lemma live_row_listed s hosts scope rows key l h :
  list_hosts s = Ok hosts -> visible_rows s scope rows -> (key, l) ∈ rows ->
  decode_host (lrecord l) scope = Ok (Live h) -> exists v, v ∈ hosts /\ v_host v = h /\ view_key v = key.
Proof.
  intros Hl Hvis Hin Hd. destruct (list_hosts_views _ _ Hl) as (snap & views & Hs & -> & Hviews).
  destruct (visible_views_Ok _ _ Hviews) as (_ & Hto & _).
  destruct (Hto _ _ _ _ _ Hvis Hin Hd) as (v0 & Hv0 & <- & _ & Hkey).
  destruct (snapshot_idents _ _ _ Hs Hviews) as [Hh _].
  apply (list_elem_of_fmap_2 v_host) in Hv0. change (v_host <$> views) with (map v_host views) in Hv0.
  rewrite <-Hh in Hv0. apply list_elem_of_fmap in Hv0 as (v & Heq & Hv). exists v. split_and!; [done|done|].
  unfold view_key in *. by rewrite <-Heq.
Qed.

Lemma get_host_listed s id v :
  get_host s id = Ok v -> exists hosts, list_hosts s = Ok hosts /\ v ∈ hosts /\ hr_id (v_host v) = id
    /\ forall u, u ∈ hosts -> hr_id (v_host u) = id -> u = v.
Proof.
  intros H. unfold get_host in H. ok_inv. apply lift_Ok in Hok0.
  destruct (host_index_lookup _ _ _ Hok0) as (v' & Hl & Hid). rewrite Hl in H. injection H as ->.
  exists v0. split; [done|]. pose proof (list_elem_of_lookup_2 _ _ _ Hl) as Hv. split_and!; [done|done|].
  intros u Hu Huid. unfold host_index in Hok0. destruct (position _ _); [|done].
  destruct (1 <? _)%nat eqn:Hc; [done|]. apply Nat.ltb_ge in Hc. unfold count_if in Hc.
  assert (Hin : forall x, x ∈ v0 -> hr_id (v_host x) = id ->
    x ∈ List.filter (fun v => hr_id (v_host v) =?= id) v0).
  { intros x Hx Hxid. apply list_elem_of_In, filter_In. rewrite <-list_elem_of_In.
    split; [done|]. by apply bool_decide_eq_true. }
  apply Hin in Hu, Hv; [|done|done].
  destruct (List.filter _ _) as [|a [|b l]]; simpl in Hc; [by apply elem_of_nil in Hu| |lia].
  apply list_elem_of_singleton in Hu as ->. by apply list_elem_of_singleton in Hv.
Qed.

(** A host that was looked up stands in the row of its id and scope. *)
Lemma get_host_row s id v :
  maps_ok s -> get_host s id = Ok v ->
  hr_id (v_host v) = id
  /\ exists l, host_row s (hr_scope (v_host v)) id = Some l
       /\ decode_host (lrecord l) (hr_scope (v_host v)) = Ok (Live (v_host v))
       /\ v_revision v = revision (lrecord l).
Proof.
  intros Hm (hosts & Hl & Hv & Hid & _)%get_host_listed. split; [done|]. rewrite <-Hid.
  by eapply listed_host_row.
Qed.

(** Of views with distinct identities, one alone has its id: it is the only match. *)
Lemma filter_unique_view views v0 :
  NoDup (map view_ident views) -> v0 ∈ views ->
  (forall x, x ∈ views -> hr_id (v_host x) = hr_id (v_host v0) -> view_ident x = view_ident v0) ->
  List.filter (fun v => hr_id (v_host v) =?= hr_id (v_host v0)) views = [v0].
Proof.
  intros Hnd Hv0 Huniq. apply list_elem_of_split in Hv0 as (l1 & l2 & ->).
  rewrite map_app in Hnd. cbn [map] in Hnd. apply NoDup_app in Hnd as (_ & Hdis & Hnd2).
  inversion Hnd2 as [|? ? Hni _]; subst.
  assert (Hno : forall x, x ∈ l1 \/ x ∈ l2 -> bool_decide (hr_id (v_host x) = hr_id (v_host v0)) = false).
  { intros x Hx. apply bool_decide_eq_false. intros Heq.
    assert (Hi : view_ident x = view_ident v0).
    { apply Huniq; [|done]. rewrite elem_of_app, elem_of_cons. tauto. }
    destruct Hx as [Hx|Hx].
    - apply (Hdis (view_ident x)); [by apply list_elem_of_fmap_2|]. rewrite Hi. by left.
    - apply Hni. rewrite <-Hi. by apply list_elem_of_fmap_2. }
  rewrite List.filter_app. cbn [List.filter]. rewrite bool_decide_true by done.
  assert (Hnil : forall l, (forall x, x ∈ l -> bool_decide (hr_id (v_host x) = hr_id (v_host v0)) = false) ->
    List.filter (fun v => hr_id (v_host v) =?= hr_id (v_host v0)) l = []).
  { induction l as [|y l IH]; intros Hl; [done|]. cbn [List.filter]. rewrite Hl by (by left).
    apply IH. intros x Hx. apply Hl. by right. }
  by rewrite !Hnil by (intros; apply Hno; tauto).
Qed.

(** The only match of a test is where [position] stops. *)
Lemma position_unique {A} (p : A -> bool) l x :
  List.filter p l = [x] -> exists i, position p l = Some i /\ l !! i = Some x.
Proof.
  intros Hf. assert (Hin : forall y, y ∈ l -> p y = true -> y = x).
  { intros y Hy Hp. apply list_elem_of_singleton. rewrite <-Hf. apply list_elem_of_In, filter_In.
    by rewrite <-list_elem_of_In. }
  destruct (position p l) as [i|] eqn:Hpi.
  - exists i. split; [done|]. apply position_Some in Hpi as (l1 & y & l2 & -> & <- & Hy & _).
    rewrite list_lookup_middle by done. f_equal. apply Hin; [|done]. rewrite elem_of_app. right. by left.
  - exfalso. apply position_None in Hpi. rewrite forallb_elem in Hpi.
    assert (Hx : In x (List.filter p l)) by (rewrite Hf; by left). apply filter_In in Hx as [Hx Hp].
    apply list_elem_of_In, Hpi, negb_true_iff in Hx. congruence.
Qed.

(** A live row whose id is nowhere else visible is what [get_host] returns. *)
Lemma get_host_intro s hosts scope rows id l h :
  maps_ok s -> list_hosts s = Ok hosts -> visible_rows s scope rows ->
  bt_get (record_key KHost id) rows = Some l -> decode_host (lrecord l) scope = Ok (Live h) ->
  hr_id h = id ->
  (forall scope' rows' l' h', visible_rows s scope' rows' -> scope' <> scope ->
     bt_get (record_key KHost id) rows' = Some l' -> decode_host (lrecord l') scope' = Ok (Live h') -> False) ->
  exists v, get_host s id = Ok v /\ v_host v = h /\ v_revision v = revision (lrecord l).
Proof.
  intros Hm Hhosts Hvis Hrow Hd Hid Honly.
  destruct (list_hosts_views _ _ Hhosts) as (snap & views & Hs & -> & Hv).
  destruct (snapshot_idents _ _ _ Hs Hv) as [Hh Hr].
  destruct (visible_views_Ok _ _ Hv) as (Hfrom & Hto & Hnd). specialize (Hnd Hm).
  destruct (Hto _ _ _ _ _ Hvis (bt_get_elem _ _ _ Hrow) Hd) as (v0 & Hv0 & Ev & Er & _).
  assert (Huniq : forall x, x ∈ views -> hr_id (v_host x) = id -> view_ident x = view_ident v0).
  { intros x Hx Hxid. destruct (Hfrom _ Hx) as (rows' & Hvis' & Hf).
    destruct (from_row_key _ _ _ Hf) as (_ & l' & Hrow' & Hd' & _).
    destruct (visible_host_records _ _ _ Hm Hvis') as [_ Hok'].
    apply (bt_ok_get _ _ _ Hok') in Hrow'. unfold view_key in Hrow'. rewrite Hxid in Hrow'.
    destruct (decide (hr_scope (v_host x) = scope)) as [Hsc|Hsc].
    - unfold view_ident. rewrite Ev, Hsc, Hxid, Hid. f_equal.
      by destruct (decode_host_Live _ _ _ Hd) as (_ & _ & _ & -> & _).
    - exfalso. by eapply Honly. }
  assert (Hf : List.filter (fun v => hr_id (v_host v) =?= id) views = [v0]).
  { rewrite <-Hid, <-Ev. apply filter_unique_view; [done|done|]. rewrite Ev, Hid. done. }
  assert (Hcount : count_if (fun v => hr_id (v_host v) =?= id) (snap_hosts snap) = 1).
  { transitivity (count_if (fun h => hr_id h =?= id) (map v_host (snap_hosts snap))).
    - by rewrite count_if_map.
    - rewrite Hh, count_if_map. unfold count_if. by rewrite Hf. }
  assert (Hpos : exists i, position (fun v => hr_id (v_host v) =?= id) (snap_hosts snap) = Some i
            /\ v_host <$> views !! i = Some h /\ v_revision <$> views !! i = Some (revision (lrecord l))).
  { assert (Hp : position (fun v => hr_id (v_host v) =?= id) (snap_hosts snap)
               = position (fun v => hr_id (v_host v) =?= id) views).
    { transitivity (position (fun h => hr_id h =?= id) (map v_host (snap_hosts snap)));
        [by rewrite position_map|]. rewrite Hh. by rewrite position_map. }
    destruct (position_unique _ _ _ Hf) as (i & Hpi & Hl). exists i. rewrite Hp, Hl. cbn [fmap option_fmap option_map]. rewrite Ev, Er. done. }
  destruct Hpos as (i & Hpi & Eh & Erev).
  unfold get_host. rewrite Hhosts. cbn [mbind result_bind]. unfold host_index. rewrite Hpi, Hcount.
  cbn [lift map_err mbind result_bind Nat.ltb Nat.leb].
  pose proof (lookup_map v_host (snap_hosts snap) i) as L1. rewrite Hh, lookup_map, Eh in L1.
  pose proof (lookup_map v_revision (snap_hosts snap) i) as L2. rewrite Hr, lookup_map, Erev in L2.
  destruct (snap_hosts snap !! i) as [v|]; [|done]. simpl in *. exists v. split_and!; congruence.
Qed.

(** ** Representation *)

Lemma maps_ok_insert s scope key row : maps_ok s -> maps_ok (insert_host s scope key row).
Proof.
  intros (Hsp & Hh & Hk & Hr). unfold maps_ok, insert_host. destruct scope as [|sid]; simpl.
  - split_and!; auto with lunport.
  - split_and!; auto with lunport. intros sid' sp Hin. unfold bt_update in Hin.
    apply list_elem_of_fmap in Hin as ([k sp0] & Heq & Hin0). cbn [fst snd] in Heq.
    destruct (bool_decide (sid = k)); injection Heq as -> ->; [|by eapply Hr].
    simpl. apply bt_ok_insert. by eapply Hr.
Qed.

Lemma visible_after_insert s scope u :
  maps_ok s -> ensure_scope s scope = Ok u -> forall key row, exists rows,
    visible_rows (insert_host s scope key row) scope rows
    /\ host_records (insert_host s scope key row) scope = Ok rows.
Proof.
  intros Hm He key row. destruct (ensure_scope_rows _ _ _ He) as [rows Hrows].
  exists (bt_insert key row rows). split; [|by apply host_records_insert_eq].
  unfold ensure_scope in He. unfold host_records in Hrows. destruct scope as [|sid]; simpl.
  - by injection Hrows as ->.
  - ok_inv. rewrite Hok1 in Hrows. simpl in Hrows. injection Hrows as <-.
    apply orb_false_iff in He as [Hsel%negb_false_iff Hmiss].
    exists (set_s_records v1 (bt_insert key row (s_records v1))). split_and!; try done.
    apply bt_get_elem. by rewrite bt_get_update, decide_True, Hok1 by done.
Qed.

(** A created host is found again: right after it was created, looking the
    id up returns exactly the stored record, with version 1 of this device, in
    whatever scope it was created. *)
Lemma create_host_get (s s' : SyncStateV3) (id : str) (scope : HostScope) (payload : HostPayload)
    (now : N) (Hm : maps_ok s) (Hok : create_host s id scope payload now = Ok s') :
  exists v, get_host s' id = Ok v
    /\ v_host v = mkHostRecord id scope (with_host_key payload None)
    /\ v_revision v = mkRevision 1 now (device_id s).
Proof.
  unfold create_host in Hok. ok_inv. put_inv. apply lift_Ok in Hok3.
  assert (Hnew : exists hosts, list_hosts (insert_host s scope (record_key KHost id) (cached v3 0 scope)) = Ok hosts)
    by (unfold validate_transition in Hok6; ok_inv; eauto).
  destruct Hnew as [hosts Hnew].
  destruct (visible_after_insert _ _ _ Hm Hok0 (record_key KHost id) (cached v3 0 scope))
    as (rows & Hvis & Hrec).
  destruct (ensure_scope_rows _ _ _ Hok0) as [rows0 Hrows].
  pose proof (host_records_insert_eq _ _ (record_key KHost id) (cached v3 0 scope) _ Hrows) as Heq.
  rewrite Hrec in Heq. injection Heq as ->.
  apply validate_host_jumps in Hok3 as (Hshape & _).
  destruct (ordered_record_fields _ _ _ _ _ _ _ Hok4) as (Hk & Hid & Hdel & Hp & Hdev & _).
  edestruct (get_host_intro _ _ scope _ id (cached v3 0 scope) (mkHostRecord id scope (with_host_key payload None))
    (maps_ok_insert _ _ _ _ Hm) Hnew Hvis) as (w & Hg & Hh & Hr).
  - apply bt_get_insert_eq.
  - rewrite <-Hid at 1. apply decode_host_encoded; simpl; by rewrite ?Hid.
  - done.
  - intros scope' rows' l' h' Hvis' Hne Hrow' _.
    destruct (visible_host_records _ _ _ (maps_ok_insert _ _ _ _ Hm) Hvis') as [Hrec' _].
    pose proof (host_not_taken s id scope' Hok2) as Hnone.
    pose proof (host_row_insert s scope id (cached v3 0 scope) scope' id _ Hrows) as Hx.
    rewrite decide_False, Hnone in Hx by naive_solver.
    unfold host_row in Hx. rewrite Hrec' in Hx. congruence.
  - exists w. split_and!; [done|done|]. rewrite Hr. simpl.
    unfold ordered_record in Hok4. simpl in Hok4. by ok_inv.
Qed.
End Props.
