(* ===== verification/KeyProps.v ===== *)
(** * KeyProps: key views, and the absence of panics

    What a key view promises about the vault entry it exposes, what renaming a
    key changes, and that none of the repository operations reaches an index or
    [expect] that fails. *)

From S2P Require Import Prelude Text BTreeMap SlotRules Json SyncRecord RecordsTypes RecordsValidate RecordsValidateProps RecordsState RepositoryCore RecordGroups Repository RepositoryProps SnapshotProps RepositoryLookup.

Lemma bt_elem_get {V} (m : btree V) k v : (k, v) ∈ m -> exists v', bt_get k m = Some v'.
Proof.
  induction m as [|[k' v'] m IH]; intros H; [by apply elem_of_nil in H|]. simpl.
  case_bool_decide; [eauto|]. apply elem_of_cons in H as [[= -> ->]|H]; [done|auto].
Qed.

Lemma bt_update_elem {V} k (f : V -> V) (m : btree V) e :
  e ∈ bt_update k f m -> e ∈ m \/ exists v, (k, v) ∈ m /\ e = (k, f v).
Proof.
  unfold bt_update. intros ([k' v] & -> & Hin)%list_elem_of_fmap. cbn [fst snd].
  case_bool_decide; subst; eauto.
Qed.

Section Props.
Context {E : RecordEnv}.

(** A key view of a state: the vault entry is exposed exactly when the key is
    available, it is this device's own entry for that key, and for an account
    key its public half is the one the account publishes. *)
Definition key_view_ok (s : SyncStateV3) (k : KeyView) : Prop :=
  (kv_status k = Available <-> kv_vault_id k <> None)
  /\ (forall vid, kv_vault_id k = Some vid -> exists m public,
        (kv_id k, m) ∈ l_keys (local s) /\ vault_id m = vid /\ kv_public k = Some public
        /\ (kv_authority k = KALocal -> public = key_public m)
        /\ (kv_authority k = KAAccount ->
            key_material_matches public (ks_public_key (key_public m)) (ks_fingerprint (key_public m)) = Ok tt))
  /\ (kv_authority k = KAAccount -> kv_status k = Conflict
      \/ exists a l, account s = Some a
           /\ bt_get (record_key KKeySlot (kv_id k)) (a_records a) = Some l).

Definition keys_ok (s : SyncStateV3) (acc : btree KeyView) : Prop :=
  forall e, e ∈ acc -> e.1 = kv_id e.2 /\ key_view_ok s e.2.

Lemma keys_ok_insert s acc id k :
  keys_ok s acc -> kv_id k = id -> key_view_ok s k -> keys_ok s (bt_insert id k acc).
Proof. intros Ha <- Hk e [->|He]%bt_elem_insert; [done|by apply Ha]. Qed.

Lemma local_key_view_ok s acc e acc' :
  e ∈ l_keys (local s) -> keys_ok s acc -> local_key_view acc e = Ok acc' -> keys_ok s acc'.
Proof.
  destruct e as [id m]. unfold local_key_view. intros Hin Ha H. ok_inv.
  apply keys_ok_insert; [done|done|].
  unfold key_view_ok. simpl. split_and!; [done| |done].
  intros vid [= <-]. exists m, (key_public m). done.
Qed.

Lemma account_key_view_ok s a acc e acc' :
  account s = Some a -> e ∈ a_records a -> keys_ok s acc ->
  account_key_view s acc e = Ok acc' -> keys_ok s acc'.
Proof.
  destruct e as [key l]. unfold account_key_view. cbv zeta. intros Hacc Hin Ha H. ok_inv.
  apply validate_cache_Ok in Hok as (_ & -> & _).
  destruct (bool_decide (rkind (lrecord l) = KKeySlot)) eqn:Hk; simpl in H; ok_inv; [|done].
  apply bool_decide_eq_true in Hk. rewrite Hk in Hin. apply bt_elem_get in Hin as [l' Hl'].
  assert (Hrow : exists a0 l0, account s = Some a0
    /\ bt_get (record_key KKeySlot (rid (lrecord l))) (a_records a0) = Some l0) by eauto.
  match goal with |- keys_ok _ (bt_insert _ ?view _) =>
    assert (Hview : kv_id view = rid (lrecord l) /\ key_view_ok s view) end.
  { destruct v1 as [public|]; [|split; [done|]; unfold key_view_ok; simpl; split_and!; [done|done|by right]].
    destruct (bt_get (rid (lrecord l)) (l_keys (local s))) as [m|] eqn:Hm;
      [|split; [done|]; unfold key_view_ok; simpl; split_and!; [done|done|by right]].
    destruct (key_material_matches _ _ _) as [[]|] eqn:Hmat;
      (split; [done|]); unfold key_view_ok; simpl; split_and!; try done; try (by right).
    intros vid [= <-]. exists m, public. split_and!; try done. by apply bt_get_elem. }
  destruct Hview. by apply keys_ok_insert.
Qed.

Lemma shadow_key_view_ok s a acc sealed : keys_ok s acc -> keys_ok s (shadow_key_view a acc sealed).
Proof.
  unfold shadow_key_view. intros Ha. destruct (spublic_identity sealed) as [i|]; [|done].
  destruct (opaque_shadows _ _ _ _); [|done].
  intros e [He|(v & Hv & ->)]%bt_update_elem; [by apply Ha|].
  destruct (Ha _ Hv) as [Heq _]. simpl in Heq. split; [done|].
  unfold key_view_ok. simpl. split_and!; [done|done|by left].
Qed.

Lemma try_fold_inv {A B} (I : B -> Prop) (f : B -> A -> rresult B) l : forall acc acc',
  (forall b x b', x ∈ l -> I b -> f b x = Ok b' -> I b') -> I acc -> try_fold f acc l = Ok acc' -> I acc'.
Proof.
  induction l as [|x l IH]; intros acc acc' Hs Hi H; simpl in H; ok_inv; [done|].
  eapply IH; [|eapply Hs; [by left|done|done]|done].
  intros b y b' Hy. apply Hs. by right.
Qed.

Lemma list_keys_ok s keys :
  list_keys s = Ok keys -> forall k, k ∈ keys -> key_view_ok s k.
Proof.
  unfold list_keys. intros H. ok_inv.
  assert (H0 : keys_ok s v0).
  { eapply (try_fold_inv (keys_ok s)); [| |exact Hok0].
    - intros b x b' Hx Hb Hf. by eapply local_key_view_ok.
    - intros e He. by apply elem_of_nil in He. }
  assert (H1 : keys_ok s v1).
  { destruct (account s) as [a|] eqn:Ha; ok_inv; [|done].
    assert (Hv2 : keys_ok s v2).
    { eapply (try_fold_inv (keys_ok s)); [| |exact Hok2]; [|done].
      intros b x b' Hx Hb Hf. by eapply account_key_view_ok. }
    clear -Hv2. revert v2 Hv2. induction (bt_values (a_sealed a)) as [|x l IH]; intros acc Hacc; simpl; [done|].
    apply IH. by apply shadow_key_view_ok. }
  intros k Hk. unfold bt_values in Hk. apply list_elem_of_fmap in Hk as (e & -> & He). by apply H1.
Qed.

(** Key material is only handed out when it is the right key: a listed key
    exposes a vault entry exactly when it is available, the entry is this
    device's own for that id, and when the account is the authority the local
    public key and fingerprint agree with what the account publishes. *)
Lemma vault_exposure (s : SyncStateV3) (keys : list KeyView) (k : KeyView)
    (Hkeys : list_keys s = Ok keys) (Hk : k ∈ keys) :
  (kv_status k = Available <-> kv_vault_id k <> None)
  /\ forall vid, kv_vault_id k = Some vid -> exists m public,
       (kv_id k, m) ∈ l_keys (local s) /\ vault_id m = vid /\ kv_public k = Some public
       /\ (kv_authority k = KALocal -> public = key_public m)
       /\ (kv_authority k = KAAccount ->
           key_material_matches public (ks_public_key (key_public m)) (ks_fingerprint (key_public m)) = Ok tt).
Proof. destruct (list_keys_ok _ _ Hkeys _ Hk) as (H1 & H2 & _). done. Qed.

(** ** No panics *)

#[local] Hint Resolve np_validate_cache np_get_host np_validate_transition np_ordered np_ensure_scope
  np_resolve_effective np_list_keys np_snapshot : lunport.

Lemma np_require_host_format s p scope : no_panic (require_host_format s p scope).
Proof. unfold require_host_format. np. Qed.
#[local] Hint Resolve np_require_host_format : lunport.

Lemma np_previous_row s scope id l :
  host_row s scope id = Some l -> no_panic (previous_row s scope (record_key KHost id)).
Proof.
  unfold host_row, previous_row. destruct (host_records s scope) as [rows|]; [|done].
  intros Hl. cbn [mbind result_bind]. rewrite Hl. apply np_ok.
Qed.

Lemma np_put_host s scope key row rows : host_records s scope = Ok rows -> no_panic (put_host s scope key row).
Proof. intros Hr. unfold put_host. rewrite Hr. apply np_ok. Qed.

Lemma np_ensure_host_authority s id v :
  maps_ok s -> get_host s id = Ok v -> no_panic (ensure_host_authority s (v_host v)).
Proof.
  intros Hm Hg. destruct (get_host_row _ _ _ Hm Hg) as (_ & l & Hl & _).
  unfold ensure_host_authority. unfold host_row, host_records in Hl.
  destruct (hr_scope (v_host v)) as [|sid]; [apply np_ok|].
  destruct (bt_get sid (spaces s)); [|done]. cbn [ok_or mbind result_bind]. np.
Qed.

Lemma np_checked_host s id expected : maps_ok s -> no_panic (checked_host s id expected).
Proof.
  intros Hm. unfold checked_host. apply np_bind; [apply np_get_host|]. intros v Hv.
  apply np_bind; [np|]. intros _ _. apply np_bind; [np|]. intros _ _.
  apply np_bind; [by eapply np_ensure_host_authority|]. intros _ _. apply np_ok.
Qed.
#[local] Hint Resolve np_checked_host : lunport.

Lemma np_store_host s id v p d now :
  maps_ok s -> get_host s id = Ok v -> no_panic (store_host s v id p d now).
Proof.
  intros Hm Hg. destruct (get_host_row _ _ _ Hm Hg) as (_ & l & Hl & _).
  unfold store_host. apply np_bind; [by eapply np_previous_row|]. intros prev (_ & rows & Hrows)%previous_row_Ok.
  apply np_bind; [np|]. intros r _. apply np_bind; [by eapply np_put_host|]. intros next _. np.
Qed.
#[local] Hint Resolve np_store_host : lunport.

Lemma np_move_host s id expected dest now : maps_ok s -> no_panic (Repository.move_host s id expected dest now).
Proof.
  intros Hm. unfold Repository.move_host. apply np_bind; [auto with lunport|]. intros v Hv.
  apply checked_host_Ok in Hv as (Hg & _). destruct (get_host_row _ _ _ Hm Hg) as (_ & l & Hl & _).
  apply np_bind; [np|]. intros u Hu. destruct (bool_decide _) eqn:Hne; [apply np_ok|].
  apply bool_decide_eq_false in Hne.
  apply np_bind; [by eapply np_previous_row|]. intros src (_ & from & Hfrom)%previous_row_Ok.
  destruct (ensure_scope_rows _ _ _ Hu) as [rows Hrows]. rewrite Hrows. cbn [mbind result_bind].
  apply np_bind; [np|]. intros _ _. apply np_bind; [destruct (bt_get _ rows); simpl; np|].
  intros _ _. apply np_bind; [np|]. intros eff _. apply np_bind; [np|]. intros r _.
  apply np_bind; [by eapply np_put_host|]. intros next ->%put_host_Ok.
  apply np_bind; [eapply np_put_host; by rewrite host_records_insert_ne|]. intros next' _. np.
Qed.

Lemma np_rename_key s id expected name now : no_panic (rename_key s id expected name now).
Proof.
  unfold rename_key. cbv zeta. apply np_bind; [np|]. intros _ _.
  apply np_bind; [unfold resolve_key; np|]. intros key Hkey.
  apply np_bind; [np|]. intros u0 Hst. apply np_bind; [np|]. intros _ _. apply np_bind; [np|]. intros _ _.
  destruct (bool_decide (ks_name expected = _)); [apply np_ok|]. apply np_bind; [np|]. intros _ _.
  apply np_bind; [|intros; np].
  destruct (bool_decide (kv_authority key = KAAccount)) eqn:Ha; [|apply np_ok].
  apply bool_decide_eq_true in Ha. unfold resolve_key in Hkey. ok_inv.
  apply find_some in Hkey as [Hin Hid%bool_decide_eq_true]. apply list_elem_of_In in Hin.
  destruct (list_keys_ok _ _ Hok _ Hin) as (_ & _ & Hrow).
  apply orb_false_iff in Hst as [Hst%bool_decide_eq_false _].
  destruct (Hrow Ha) as [|(a & l & -> & Hl)]; [done|]. rewrite Hid in Hl. cbn [ok_or mbind result_bind].
  rewrite Hl. cbn [ok_or mbind result_bind]. np.
Qed.

End Props.
