(* ===== verification/GroupEdit.v ===== *)
(** * GroupEdit: revision-checked edits of groups

    [src-tauri/src/sync/record_groups.rs], writing side: promotion of the
    storage format, creation, update and subtree deletion of groups, and the
    invalidation of host-key pins whose effective endpoint changes. *)

From S2P Require Import Prelude Text BTreeMap SlotRules Json SyncRecord RecordsTypes RecordsValidate RecordsState RepositoryCore RecordGroups Repository.

(** The serializer and hash behind the deletion review token
    ([serde_json::to_vec] and [Sha256] of the reviewed snapshot). *)
Class ReviewDigest := {
  review_digest :
    str * list GroupView * list (HostRecord * RecordRevision * HostPayload * btree str * option str)
    -> option str
}.

Section GroupEdit.
Context {E : RecordEnv} {D : ReviewDigest}.

Definition checked (s : SyncStateV3) (id : str) (expected : RecordRevision) : rresult GroupView :=
  all ← list_groups s;
  match List.filter (fun g => gr_id (gv_group g) =?= id) all with
  | [] => Err (g_error (lit "group " ++ id ++ lit " not found"))
  | [g] =>
      _ ← guard_err (negb (gv_revision g =?= expected)) (RevisionConflict id (gv_revision g));
      _ ← ensure_scope s (gr_scope (gv_group g));
      _ ← group s (gr_scope (gv_group g)) id;
      Ok g
  | _ => Err (g_error (lit "duplicate group " ++ id))
  end.

(** ** Promotion *)

(** The account metadata row with schema 4. *)
Definition promote_account (s : SyncStateV3) (now : N) : rresult SyncStateV3 :=
  let key := record_key KMeta ACCOUNT_META_ID in
  old ← ok_or (account_meta_row s) (g_error (lit "account metadata missing"));
  payload ← ok_or (json_set (lit "schema_version") (JNumber (PosInt 4)) (rpayload (lrecord old)))
              (RPanic (lit "payload index"));
  row ← ordered_record s ACCOUNT_META_ID payload false now [lrecord old];
  a ← ok_or (account s) (RPanic (lit "account"));
  Ok (set_account s (Some (set_a_records a
        (bt_insert key (mkLocal (with_kind row KMeta) (lseq old) true) (a_records a))))).

Definition promote (s : SyncStateV3) (scope : HostScope) (confirmed : bool) (now : N)
  : rresult SyncStateV3 :=
  let shared := is_space scope in
  _ ← guard_err (((version s <? GROUP_STATE_VERSION)%N || (shared && negb (account_group_enabled s)))
                 && negb confirmed) UpgradeConfirmationRequired;
  let s := set_version s (N.max (version s) GROUP_STATE_VERSION) in
  if shared && negb (account_group_enabled s) then promote_account s now else Ok s.

Definition promote_for_host (s : SyncStateV3) (scope : HostScope) (payload : HostPayload)
    (confirmed : bool) (now : N) : rresult SyncStateV3 :=
  if (hp_schema payload =? GROUPED_HOST_SCHEMA)%N then
    _ ← ensure_scope s scope;
    promote s scope confirmed now
  else Ok s.

(** ** Finishing an edit *)

(** No cycle and no two siblings of the same name. *)
Fixpoint check_names (s : SyncStateV3) (scope : HostScope) (names : list (option str * str))
    (groups : list GroupView) : rresult unit :=
  match groups with
  | [] => Ok tt
  | g :: rest =>
      let p := gr_payload (gv_group g) in
      _ ← ancestor_path s scope (Some (gr_id (gv_group g)));
      _ ← guard_err (existsb (fun n => n =?= (gp_parent_id p, gp_name p)) names)
            (g_error (lit "duplicate group name under the same parent"));
      check_names s scope ((gp_parent_id p, gp_name p) :: names) rest
  end.

Definition validate_groups (s : SyncStateV3) (scope : HostScope) : rresult unit :=
  groups ← list_groups s;
  check_names s scope [] (List.filter (fun g => gr_scope (gv_group g) =?= scope) groups).

(** The view of the same host before the edit. *)
Definition find_view (old : list HostView) (v : HostView) : option HostView :=
  List.find (fun o => (hr_id (v_host o) =?= hr_id (v_host v))
                      && (hr_scope (v_host o) =?= hr_scope (v_host v))) old.

(** A host whose effective port changed loses its pin. *)
Definition clear_pin (old : list HostView) (now : N) (next : SyncStateV3) (v : HostView)
  : rresult SyncStateV3 :=
  if is_some (hp_host_key (hr_payload (v_host v)))
     && is_some_and (fun o => negb (hp_port (v_effective o) =? hp_port (v_effective v))%N)
          (find_view old v)
  then
    let id := hr_id (v_host v) in
    let scope := hr_scope (v_host v) in
    let key := record_key KHost id in
    row ← previous_row next scope key;
    let r := lrecord row in
    version ← ok_or (checked_add (rversion r) 1) (OrderingOverflow (rid r));
    later ← ok_or (checked_add (rupdated_at_ms r) 1) (OrderingOverflow (rid r));
    let stamp := mkRec (rkind r) (rid r) version (N.max now later) (device_id next) (rdeleted r)
                   (to_value (with_host_key (hr_payload (v_host v)) None)) in
    Ok (insert_host next scope key (cached stamp (lseq row) scope))
  else Ok next.

Definition finish (before next : SyncStateV3) (scope : HostScope) (now : N) : rresult SyncStateV3 :=
  _ ← validate_groups next scope;
  _ ← validate_transition before next;
  old ← list_hosts before;
  new ← list_hosts next;
  try_fold (clear_pin old now) next new.

(** [invalidate_changed_pins]: the same after a remote change, for a change of
    the effective port or of the group error. *)
Definition invalidate_pin (old : list HostView) (next : SyncStateV3) (v : HostView)
  : rresult SyncStateV3 :=
  if is_none (hp_host_key (hr_payload (v_host v))) then Ok next
  else if negb (is_some_and (fun h => negb (hp_port (v_effective h) =? hp_port (v_effective v))%N
                                      || negb (v_group_error h =?= v_group_error v)) (find_view old v))
  then Ok next
  else
    let id := hr_id (v_host v) in
    let scope := hr_scope (v_host v) in
    let key := record_key KHost id in
    row ← previous_row next scope key;
    let r := lrecord row in
    payload ← ok_or (json_set (lit "host_key") JNull (rpayload r)) (RPanic (lit "payload index"));
    version ← ok_or (checked_add (rversion r) 1) (OrderingOverflow id);
    updated ← ok_or (checked_add (rupdated_at_ms r) 1) (OrderingOverflow id);
    let stamp := mkRec (rkind r) (rid r) version updated (device_id next) (rdeleted r) payload in
    Ok (insert_host next scope key (mkLocal stamp (lseq row) (is_space scope))).

Definition invalidate_changed_pins (before next : SyncStateV3) : rresult SyncStateV3 :=
  old ← list_hosts before;
  new ← list_hosts next;
  try_fold (invalidate_pin old) next new.

(** ** Edits *)

(** [records_mut] of a scope's groups. *)
Definition insert_group (s : SyncStateV3) (scope : HostScope) (key : str) (row : LocalRecord)
  : SyncStateV3 :=
  match scope with
  | Local => set_local s (set_l_groups (local s) (bt_insert key row (l_groups (local s))))
  | Space space_id =>
      set_spaces s (bt_update space_id
        (fun sp => set_s_records sp (bt_insert key row (s_records sp))) (spaces s))
  end.

(** Its [insert]: the [expect] fails when the scope does not exist. *)
Definition put_group (s : SyncStateV3) (scope : HostScope) (key : str) (row : LocalRecord)
  : rresult SyncStateV3 :=
  match scope with
  | Local => Ok (insert_group s scope key row)
  | Space space_id =>
      _ ← ok_or (bt_get space_id (spaces s)) (RPanic (lit "validated scope"));
      Ok (insert_group s scope key row)
  end.

Definition trim_name (p : GroupPayload) : GroupPayload :=
  mkGroup (gp_schema p) (trim (gp_name p)) (gp_parent_id p) (gp_defaults p).

Definition create_group (s : SyncStateV3) (id : str) (scope : HostScope) (payload : GroupPayload)
    (confirmed : bool) (now : N) : rresult SyncStateV3 :=
  _ ← ensure_scope s scope;
  let payload := trim_name payload in
  _ ← lift (validate_group (mkGroupRecord id scope payload));
  let key := record_key KGroup id in
  _ ← guard_err (bt_contains_key key (l_groups (local s))
                 || existsb (fun sp => bt_contains_key key (s_records sp)) (bt_values (spaces s)))
        (g_error (lit "group identity already exists"));
  next ← promote s scope confirmed now;
  row ← ordered_record next id (to_value payload) false now [];
  next ← put_group next scope key (cached (with_kind row KGroup) 0 scope);
  finish s next scope now.

Definition update_group (s : SyncStateV3) (id : str) (expected : RecordRevision) (payload : GroupPayload)
    (now : N) : rresult SyncStateV3 :=
  g ← checked s id expected;
  let scope := gr_scope (gv_group g) in
  let payload := trim_name payload in
  _ ← lift (validate_group (mkGroupRecord id scope payload));
  let key := record_key KGroup id in
  rows ← group_records s scope;
  old ← ok_or (bt_get key rows) (RPanic (lit "records index"));
  row ← ordered_record s id (to_value payload) false now [lrecord old];
  next ← put_group s scope key (cached (with_kind row KGroup) (lseq old) scope);
  finish s next scope now.

Definition deletion_snapshot_token (snap : RepositorySnapshot) : rresult str :=
  ok_or (review_digest (lit "group-delete-v1", snap_groups snap,
           map (fun h => (v_host h, v_revision h, v_effective h, v_inherited_from h, v_group_error h))
             (snap_hosts snap)))
    (g_error (lit "Group deletion review could not be prepared.")).

(** One pass over the groups: a child of a removed group is removed too. *)
Definition removal_pass (groups : list GroupView) (removed : bset) : bset :=
  foldl (fun removed g =>
    if is_some_and (fun p => bs_contains p removed) (gp_parent_id (gr_payload (gv_group g)))
    then bs_insert (gr_id (gv_group g)) removed else removed) removed groups.

(** The [loop]: passes until nothing is added; [None] would mean more passes than
    groups. *)
Fixpoint removal_loop (fuel : nat) (groups : list GroupView) (removed : bset) : option bset :=
  let next := removal_pass groups removed in
  if (length removed =? length next)%nat then Some next
  else match fuel with O => None | S fuel' => removal_loop fuel' groups next end.

Definition removal_set (groups : list GroupView) (id : str) : option bset :=
  removal_loop (length groups) groups (bs_insert id []).

(** A member host of the subtree keeps its effective settings as its own. *)
Definition detach_host (s : SyncStateV3) (now : N) (next : SyncStateV3) (v : HostView)
  : rresult SyncStateV3 :=
  resolved ← resolve_effective s (v_host v);
  update_host next (hr_id (v_host v)) (v_revision v) (materialize (eff_payload resolved)) now.

(** A tombstone for one group of the subtree. *)
Definition bury_group (s : SyncStateV3) (scope : HostScope) (now : N) (next : SyncStateV3) (id : str)
  : rresult SyncStateV3 :=
  _ ← group s scope id;
  let key := record_key KGroup id in
  rows ← group_records s scope;
  old ← ok_or (bt_get key rows) (RPanic (lit "records index"));
  row ← ordered_record s id JNull true now [lrecord old];
  put_group next scope key (cached (with_kind row KGroup) (lseq old) scope).

Definition delete_group (s : SyncStateV3) (id : str) (expected : RecordRevision)
    (reviewed_snapshot : option str) (now : N) : rresult SyncStateV3 :=
  root ← checked s id expected;
  snap ← snapshot s;
  token ← deletion_snapshot_token snap;
  _ ← guard_err (negb (reviewed_snapshot =?= Some token))
        (g_error (lit "Group deletion review is missing or stale. Refresh the records and review the deletion again."));
  let scope := gr_scope (gv_group root) in
  _ ← match scope with
      | Space space_id =>
          space ← ok_or (bt_get space_id (spaces s)) (RPanic (lit "spaces index"));
          guard_err (existsb (fun r => (ekind (senvelope r) =?= lit "group")
                                       && negb (edeleted (senvelope r))) (bt_values (s_sealed space)))
            (g_error (lit "unreadable groups prevent subtree deletion"))
      | Local => Ok tt
      end;
  groups ← list_groups s;
  removed ← ok_or (removal_set (List.filter (fun g => gr_scope (gv_group g) =?= scope) groups) id)
              (RPanic (lit "loop"));
  next ← try_fold (detach_host s now) s
           (List.filter (fun h => (hr_scope (v_host h) =?= scope)
              && is_some_and (fun g => bs_contains g removed) (hp_group_id (hr_payload (v_host h))))
              (snap_hosts snap));
  next ← try_fold (bury_group s scope now) next (bt_keys removed);
  finish s next scope now.
End GroupEdit.
