(* ===== verification/GroupProps.v ===== *)
(** * GroupProps: group trees, inheritance and subtree removal *)

From S2P Require Import Prelude Text BTreeMap SlotRules Json SyncRecord RecordsTypes RecordsValidate RecordsValidateProps RecordsState RepositoryCore RecordGroups Repository RepositoryProps GroupEdit.

Section Props.
Context {E : RecordEnv}.

(** ** Ancestors *)

(** The reference: a group, then the chain of its parent, up to a root. *)
Inductive chain (s : SyncStateV3) (scope : HostScope) : option str -> list GroupRecord -> Prop :=
| chain_root : chain s scope None []
| chain_up id g rest : group s scope id = Ok g -> chain s scope (gp_parent_id (gr_payload g)) rest ->
    chain s scope (Some id) (g :: rest).

Lemma group_inv s scope id g :
  group s scope id = Ok g ->
  exists rows l, group_records s scope = Ok rows /\ bt_get (record_key KGroup id) rows = Some l
    /\ validate_cache (record_key KGroup id) l = Ok tt /\ decode_group (lrecord l) scope = Ok (Live g).
Proof.
  unfold group. cbv zeta. intros H. apply bind_Ok in H as (rows & Hr & H).
  apply bind_Ok in H as (u & _ & H). apply bind_Ok in H as (l & Hl%ok_or_Ok & H).
  apply bind_Ok in H as ([] & Hc & H). apply bind_Ok in H as (t & Ht%lift_Ok & H).
  destruct t as [g'|]; [|done]. injection H as ->. eauto 8.
Qed.

Lemma group_id s scope id g : group s scope id = Ok g -> gr_id g = id /\ gr_scope g = scope.
Proof.
  intros (rows & l & _ & _ & Hc & Hd)%group_inv.
  apply decode_group_Live in Hd as (Hk & _ & -> & -> & _).
  apply validate_cache_Ok in Hc as (_ & Hkey & _). rewrite Hk in Hkey.
  by apply record_key_inj in Hkey as [_ ->].
Qed.

Lemma chain_det s scope c p1 : chain s scope c p1 -> forall p2, chain s scope c p2 -> p1 = p2.
Proof.
  induction 1 as [|id g rest Hg _ IH]; intros p2 H2; inversion H2 as [|? g2 rest2 Hg2 Hc2]; subst; [done|].
  rewrite Hg in Hg2. injection Hg2 as <-. by rewrite (IH _ Hc2).
Qed.

Lemma chain_suffix s scope c path : chain s scope c path -> forall l1 g l2,
  path = l1 ++ g :: l2 -> chain s scope (Some (gr_id g)) (g :: l2).
Proof.
  induction 1 as [|id g rest Hg Hc IH]; intros l1 x l2 Heq; [by destruct l1|].
  destruct l1 as [|y l1]; injection Heq as -> Heq.
  - subst. destruct (group_id _ _ _ _ Hg) as [-> _]. by constructor.
  - eauto.
Qed.

(** A chain ends, so it cannot come back to a group it has passed. *)
Lemma chain_nodup s scope c path : chain s scope c path -> NoDup (map gr_id path).
Proof.
  induction 1 as [|id g rest Hg Hc IH]; simpl; [constructor|]. constructor; [|done].
  intros (g' & Heq & Hin)%list_elem_of_fmap. apply list_elem_of_split in Hin as (l1 & l2 & ->).
  pose proof (chain_suffix _ _ _ _ Hc _ _ _ eq_refl) as Hsuf. rewrite <-Heq in Hsuf.
  assert (Hwhole : chain s scope (Some (gr_id g)) (g :: l1 ++ g' :: l2))
    by (destruct (group_id _ _ _ _ Hg) as [-> _]; by constructor).
  pose proof (chain_det _ _ _ _ Hwhole _ Hsuf) as Hl. apply (f_equal length) in Hl.
  cbn [length] in Hl. rewrite length_app in Hl. simpl in Hl. lia.
Qed.

Lemma ancestors_Ok s scope room : forall seen c path,
  ancestors s scope room seen c = Ok path <->
  chain s scope c path /\ length path <= room /\ (forall g, g ∈ path -> gr_id g ∉ seen).
Proof.
  induction room as [|room IH]; intros seen [id|] path; cbn [ancestors].
  - split; [done|]. intros (Hc & Hl & _). inversion Hc; subst. simpl in Hl. lia.
  - split; [intros [= <-]; split_and!; [constructor|simpl; lia|intros g Hg; by apply elem_of_nil in Hg]|].
    intros (Hc & _). by inversion Hc.
  - split.
    + intros H. ok_inv. apply IH in Hok1 as (Hc & Hl & Hseen).
      destruct (group_id _ _ _ _ Hok0) as [Hid _].
      assert (Hni : id ∉ seen).
      { rewrite existsb_none in Hok. intros Hin. specialize (Hok _ Hin).
        by rewrite bool_decide_true in Hok. }
      split_and!; [by constructor|simpl; lia|].
      intros g [->|Hg]%elem_of_cons; [by rewrite Hid|]. specialize (Hseen _ Hg).
      rewrite not_elem_of_cons in Hseen. tauto.
    + intros (Hc & Hl & Hseen). pose proof (chain_nodup _ _ _ _ Hc) as Hnd.
      inversion Hc as [|? g rest Hg Hc']; subst. destruct (group_id _ _ _ _ Hg) as [Hid _].
      assert (Hex : existsb (fun x => x =?= id) seen = false).
      { apply existsb_none. intros x Hx. apply bool_decide_eq_false. intros ->.
        eapply Hseen; [by left|]. by rewrite Hid. }
      rewrite Hex. cbn [guard_err mbind result_bind]. rewrite Hg. cbn [mbind result_bind].
      rewrite (proj2 (IH (id :: seen) _ rest)); [done|]. simpl in Hl. split_and!; [done|lia|].
      intros g' Hg'. rewrite not_elem_of_cons. split; [|apply Hseen; by right].
      intros Heq. simpl in Hnd. apply NoDup_cons in Hnd as [Hni _]. apply Hni.
      rewrite Hid, <-Heq. by apply list_elem_of_fmap_2.
  - split; [intros [= <-]; split_and!; [constructor|simpl; lia|intros g Hg; by apply elem_of_nil in Hg]|].
    intros (Hc & _). by inversion Hc.
Qed.

Lemma ancestor_path_Ok s scope c path :
  ancestor_path s scope c = Ok path <-> chain s scope c path /\ length path <= MAX_ANCESTORS.
Proof.
  unfold ancestor_path. rewrite ancestors_Ok. split; [tauto|]. intros [Hc Hl]. split_and!; [done|done|].
  intros g _. apply not_elem_of_nil.
Qed.

(** The path to the root is exact: it is returned precisely when the parents
    of a group lead, through readable live groups of the scope, to a root in at
    most 32 steps, and then it lists those groups once each, nearest first; a
    cycle is never followed. *)
Lemma ancestor_path_exact (s : SyncStateV3) (scope : HostScope) (c : option str) (path : list GroupRecord) :
  (ancestor_path s scope c = Ok path <-> chain s scope c path /\ length path <= 32)
  /\ (chain s scope c path -> NoDup (map gr_id path)).
Proof. split; [apply ancestor_path_Ok|apply chain_nodup]. Qed.

(** ** Inheritance *)

(** The first group of a path that sets a default, with its value: the
    reference for the search of the source. *)
Definition first_set {A} (get : GroupDefaults -> option A) (path : list GroupRecord) : option (str * A) :=
  head (omap (fun g => (fun v => (gr_id g, v)) <$> get (gp_defaults (gr_payload g))) path).

Lemma nearest_first_set {A} (get : GroupDefaults -> option A) path : nearest get path = first_set get path.
Proof.
  unfold first_set. induction path as [|g path IH]; simpl; [done|].
  by destruct (get (gp_defaults (gr_payload g))).
Qed.

(** The effective value of one setting: the nearest default when the field is
    inherited, the host's own otherwise. *)
Definition inherited {A} (path : list GroupRecord) (fields : list InheritedField) (f : InheritedField)
    (get : GroupDefaults -> option A) (fallback own : A) : A :=
  if bool_decide (f ∈ fields) then from_option snd fallback (first_set get path) else own.

(** All settings at once, without the loop of the source. *)
Definition effective_spec (path : list GroupRecord) (fields : list InheritedField) (p : HostPayload)
  : HostPayload :=
  let auth := inherited path fields FAuthentication gd_authentication (mkGroupAuth AuthPassword None)
                (mkGroupAuth (hp_auth p) (hp_key_id p)) in
  mkHost (hp_schema p) (hp_group_id p) (hp_inherit p) (hp_alias p) (hp_hostname p)
    (inherited path fields FPort gd_port 22%N (hp_port p))
    (inherited path fields FUser gd_user [] (hp_user p))
    (ga_auth auth) (ga_key_id auth)
    (inherited path fields FJump gd_jump [] (hp_jump p))
    (inherited path fields FKeepaliveSecs gd_keepalive_secs 30%N (hp_keepalive_secs p))
    (inherited path fields FKeepaliveMaxMissed gd_keepalive_max_missed 3%N (hp_keepalive_max_missed p))
    (inherited path fields FConnectTimeoutSecs gd_connect_timeout_secs 15%N (hp_connect_timeout_secs p))
    (hp_host_key p) (hp_tags p) (hp_notes p) (hp_imported p).

Lemma inherited_cons {A} path f0 fields f (get : GroupDefaults -> option A) d own :
  inherited path (f0 :: fields) f get d own
  = inherited path fields f get d
      (if bool_decide (f = f0) then from_option snd d (first_set get path) else own).
Proof.
  unfold inherited. destruct (decide (f ∈ fields)) as [Hin|Hni].
  - rewrite !bool_decide_true; [done|done|by right].
  - rewrite (bool_decide_false (f ∈ fields)) by done.
    destruct (decide (f = f0)) as [->|Hne].
    + rewrite !bool_decide_true; [done|done|by left].
    + rewrite !bool_decide_false; [done|done|]. rewrite not_elem_of_cons. done.
Qed.

Lemma inherit_fold_payload path fields : forall p from,
  (foldl (inherit_field path) (p, from) fields).1 = effective_spec path fields p.
Proof.
  induction fields as [|f fields IH]; intros p from; [by destruct p|].
  cbn [foldl]. destruct (inherit_field path (p, from) f) as [p' from'] eqn:Hf. rewrite IH.
  unfold effective_spec. rewrite !inherited_cons.
  destruct f; cbn in Hf; rewrite nearest_first_set in Hf; injection Hf as <- <-; cbn [hp_schema hp_group_id hp_inherit hp_alias hp_hostname
    hp_port hp_user hp_auth hp_key_id hp_jump hp_keepalive_secs hp_keepalive_max_missed
    hp_connect_timeout_secs hp_host_key hp_tags hp_notes hp_imported]; simpl; f_equal;
    try (destruct (from_option snd _ _); done).
Qed.

(** Which group a field came from, as reported to the user. *)
Definition source_of (path : list GroupRecord) (f : InheritedField) : str :=
  let src {A} (sel : option (str * A)) := from_option fst (lit "default") sel in
  match f with
  | FPort => src (first_set gd_port path)
  | FUser => src (first_set gd_user path)
  | FAuthentication => src (first_set gd_authentication path)
  | FJump => src (first_set gd_jump path)
  | FKeepaliveSecs => src (first_set gd_keepalive_secs path)
  | FKeepaliveMaxMissed => src (first_set gd_keepalive_max_missed path)
  | FConnectTimeoutSecs => src (first_set gd_connect_timeout_secs path)
  end.

Lemma field_as_str_inj f g : field_as_str f = field_as_str g -> f = g.
Proof. destruct f, g; intros H; try reflexivity; vm_compute in H; discriminate H. Qed.

Lemma inherit_fold_from path fields f : forall p from,
  bt_get (field_as_str f) (foldl (inherit_field path) (p, from) fields).2
  = if bool_decide (f ∈ fields) then Some (source_of path f) else bt_get (field_as_str f) from.
Proof.
  induction fields as [|f0 fields IH]; intros p from.
  { by rewrite bool_decide_false by apply not_elem_of_nil. }
  cbn [foldl]. destruct (inherit_field path (p, from) f0) as [p' from'] eqn:Hf. rewrite IH.
  assert (Hfrom : from' = bt_insert (field_as_str f0) (source_of path f0) from)
    by (destruct f0; cbn in Hf; rewrite nearest_first_set in Hf; injection Hf as <- <-; reflexivity).
  rewrite Hfrom, bt_get_insert. destruct (decide (f ∈ fields)) as [Hin|Hni].
  - rewrite !bool_decide_true; [done|by right|done].
  - rewrite (bool_decide_false (f ∈ fields)) by done. destruct (decide (f = f0)) as [->|Hne].
    + rewrite decide_True by done. by rewrite bool_decide_true by (by left).
    + rewrite decide_False by (intros Heq%field_as_str_inj; congruence).
      by rewrite bool_decide_false by (rewrite not_elem_of_cons; done).
Qed.

(** Effective settings: every field a host inherits takes the value of the
    nearest ancestor that sets it (or the built-in default), every other field
    stays the host's own, the answer does not depend on the order of the
    inherited fields, the reported origin of each field is that ancestor, and
    the result is a valid host. *)
Lemma resolve_effective_nearest (s : SyncStateV3) (h : HostRecord) (e : EffectiveHost)
    (Hok : resolve_effective s h = Ok e) :
  exists path, chain s (hr_scope h) (hp_group_id (hr_payload h)) path /\ length path <= 32
    /\ eff_payload e = effective_spec path (hp_inherit (hr_payload h)) (hr_payload h)
    /\ (forall f, bt_get (field_as_str f) (inherited_from e)
          = if bool_decide (f ∈ hp_inherit (hr_payload h)) then Some (source_of path f) else None)
    /\ validate_host (with_payload h (eff_payload e)) = Ok tt.
Proof.
  unfold resolve_effective in Hok. ok_inv. rename v into path.
  apply ancestor_path_Ok in Hok0 as [Hc Hl]. exists path. split; [done|]. split; [done|].
  pose proof (inherit_fold_payload path (hp_inherit (hr_payload h)) (hr_payload h) []) as Hp.
  pose proof (fun f => inherit_fold_from path (hp_inherit (hr_payload h)) f (hr_payload h) []) as Hf.
  destruct (foldl _ _ _) as [p from]. cbn [fst snd] in *. ok_inv. apply lift_Ok in Hok0. units. done.
Qed.
End Props.
