(* ===== verification/GroupEditProps.v ===== *)
(** * GroupEditProps: what the edits of groups guarantee

    Subtree removal, the group rows an edit touches, the tree invariant every
    edit re-establishes, and the confirmation of a format upgrade. *)

From stdpp Require Import relations.
From S2P Require Import Prelude Text BTreeMap SlotRules Json SyncRecord RecordsTypes RecordsValidate RecordsValidateProps RecordsState RepositoryCore RecordGroups Repository RepositoryProps SnapshotProps RepositoryLookup GroupEdit GroupProps.

(** ** Sets of ids *)

Lemma bs_insert_present k (s : bset) : bt_ok s -> bs_contains k s = true -> bs_insert k s = s.
Proof.
  unfold bs_contains, bt_contains_key, bs_insert. induction s as [|[k' []] s IH]; intros Hok Hc; [done|].
  inversion Hok as [|? ? Hs Hall]; subst. simpl in *. case_bool_decide as Hk; [subst|].
  - by rewrite (proj2 (str_compare_eq k' k') eq_refl).
  - assert (Hlt : str_ltb k' k = true).
    { destruct (bt_get k s) as [[]|] eqn:Hg; [|done]. apply bt_get_elem in Hg.
      rewrite Forall_forall in Hall. by apply (Hall (k, tt)). }
    assert (Hcmp : str_compare k k' = Gt).
    { unfold str_ltb in Hlt. rewrite str_compare_antisym. by destruct (str_compare k' k). }
    rewrite Hcmp. f_equal. auto.
Qed.

Lemma bs_insert_absent k (s : bset) : bs_contains k s = false -> length (bs_insert k s) = S (length s).
Proof.
  unfold bs_contains, bt_contains_key, bs_insert. induction s as [|[k' []] s IH]; intros Hc; [done|].
  simpl in *. destruct (str_compare k k') eqn:Hcmp; [|done|].
  - apply str_compare_eq in Hcmp as ->. by rewrite bool_decide_true in Hc.
  - simpl. f_equal. apply IH. by case_bool_decide.
Qed.

Lemma bs_contains_elem k (s : bset) : bs_contains k s = true <-> k ∈ s.*1.
Proof.
  unfold bs_contains, bt_contains_key. induction s as [|[k' []] s IH]; simpl.
  - split; [done|]. intros H. by apply elem_of_nil in H.
  - rewrite elem_of_cons, <-IH. case_bool_decide; naive_solver.
Qed.

(** ** The subtree of a group *)

(** The groups of a subtree: the root and, for every member, its children. *)
Inductive descendant (groups : list GroupView) (root : str) : str -> Prop :=
| desc_root : descendant groups root root
| desc_child g p : g ∈ groups -> gp_parent_id (gr_payload (gv_group g)) = Some p ->
    descendant groups root p -> descendant groups root (gr_id (gv_group g)).

Definition removal_step (removed : bset) (g : GroupView) : bset :=
  if is_some_and (fun p => bs_contains p removed) (gp_parent_id (gr_payload (gv_group g)))
  then bs_insert (gr_id (gv_group g)) removed else removed.

Lemma removal_step_props removed g : bt_ok removed ->
  bt_ok (removal_step removed g)
  /\ (removal_step removed g = removed \/ length (removal_step removed g) = S (length removed))
  /\ (forall x, bs_contains x removed = true -> bs_contains x (removal_step removed g) = true).
Proof.
  intros Hok. unfold removal_step. destruct (is_some_and _ _); [|auto].
  split_and!.
  - by apply bt_ok_insert.
  - destruct (bs_contains (gr_id (gv_group g)) removed) eqn:Hc;
      [left; by apply bs_insert_present|right; by apply bs_insert_absent].
  - intros x Hx. rewrite bs_contains_insert, Hx. apply orb_true_r.
Qed.

Lemma removal_pass_props groups : forall removed, bt_ok removed ->
  bt_ok (removal_pass groups removed)
  /\ length removed <= length (removal_pass groups removed)
  /\ (forall x, bs_contains x removed = true -> bs_contains x (removal_pass groups removed) = true)
  /\ (length (removal_pass groups removed) = length removed ->
      removal_pass groups removed = removed
      /\ forall g p, g ∈ groups -> gp_parent_id (gr_payload (gv_group g)) = Some p ->
           bs_contains p removed = true -> bs_contains (gr_id (gv_group g)) removed = true).
Proof.
  unfold removal_pass. fold removal_step. induction groups as [|g groups IH]; intros removed Hok; simpl.
  { split_and!; auto. intros _. split; [done|]. intros g p Hg. by apply elem_of_nil in Hg. }
  destruct (removal_step_props removed g Hok) as (Hok1 & Hlen1 & Hin1).
  destruct (IH _ Hok1) as (Hok2 & Hlen2 & Hin2 & Hfix). fold (removal_step removed g).
  split_and!; [done| |auto|].
  - destruct Hlen1 as [->| Hl]; [by destruct (IH _ Hok) as (_ & ? & _)|lia].
  - intros Hl. destruct Hlen1 as [Heq|Hl1]; [|lia]. rewrite Heq in *.
    destruct (Hfix Hl) as [Hsame Hclosed]. split; [done|].
    intros g' p [->|Hg']%elem_of_cons Hp Hc; [|by eapply Hclosed].
    rewrite <-Heq. unfold removal_step. rewrite Hp. simpl. rewrite Hc.
    by rewrite bs_contains_insert, bool_decide_true.
Qed.

Lemma removal_pass_sound groups root all removed :
  (forall g, g ∈ groups -> g ∈ all) ->
  (forall x, bs_contains x removed = true -> descendant all root x) ->
  forall x, bs_contains x (removal_pass groups removed) = true -> descendant all root x.
Proof.
  unfold removal_pass. fold removal_step. revert removed.
  induction groups as [|g groups IH]; intros removed Hall Hs; [done|]. simpl.
  apply IH; [intros g' Hg'; apply Hall; by right|]. intros x. unfold removal_step.
  destruct (gp_parent_id (gr_payload (gv_group g))) as [p|] eqn:Hp; simpl; [|apply Hs].
  destruct (bs_contains p removed) eqn:Hc; [|apply Hs].
  rewrite bs_contains_insert, orb_true_iff, bool_decide_eq_true. intros [<-|Hx]; [|by apply Hs].
  eapply desc_child; [apply Hall; by left|done|by apply Hs].
Qed.

Lemma removed_bound groups root (removed : bset) :
  bt_ok removed -> (forall x, bs_contains x removed = true -> descendant groups root x) ->
  length removed <= S (length groups).
Proof.
  intros Hok Hs. apply bt_ok_keys in Hok.
  transitivity (length (root :: map (fun g => gr_id (gv_group g)) groups));
    [|simpl; by rewrite length_map].
  rewrite <-(length_map fst removed). apply submseteq_length, NoDup_submseteq; [done|].
  intros x Hx. apply bs_contains_elem in Hx. destruct (Hs _ Hx) as [|g p Hg]; [by left|].
  right. by apply (list_elem_of_fmap_2 (fun g => gr_id (gv_group g))).
Qed.

Lemma removal_loop_spec groups root fuel : forall removed,
  bt_ok removed -> bs_contains root removed = true ->
  (forall x, bs_contains x removed = true -> descendant groups root x) ->
  S (length groups) <= length removed + fuel ->
  exists r, removal_loop fuel groups removed = Some r /\ bt_ok r
    /\ forall x, bs_contains x r = true <-> descendant groups root x.
Proof.
  induction fuel as [|fuel IH]; intros removed Hok Hroot Hs Hf; cbn [removal_loop];
    destruct (removal_pass_props groups removed Hok) as (Hok2 & Hlen & Hin & Hfix);
    pose proof (removal_pass_sound groups root groups removed (fun _ H => H) Hs) as Hs2;
    pose proof (removed_bound _ _ _ Hok2 Hs2) as Hb.
  all: destruct (length removed =? length (removal_pass groups removed)) eqn:Heq; breflect.
  1,3: destruct (Hfix (eq_sym Heq)) as [-> Hclosed]; exists removed; split_and!; [done|done|];
    intros x; split; [apply Hs|]; induction 1 as [|g p Hg Hp _ IHd]; [done|by eapply Hclosed].
  - lia.
  - apply IH; auto. lia.
Qed.

Lemma removal_set_descendants (groups : list GroupView) (id : str) :
  exists removed, removal_set groups id = Some removed
    /\ forall x, bs_contains x removed = true <-> descendant groups id x.
Proof.
  destruct (removal_loop_spec groups id (length groups) (bs_insert id [])) as (r & Hr & _ & Hx).
  - apply bt_ok_insert. constructor.
  - by rewrite bs_contains_insert, bool_decide_true.
  - intros x. rewrite bs_contains_insert, orb_true_iff, bool_decide_eq_true. intros [<-|]; [constructor|done].
  - simpl. lia.
  - by exists r.
Qed.

(** Subtree removal is exact and terminates: the loop that collects the
    groups to delete always finishes within as many passes as there are groups,
    and collects the chosen group and its descendants, nothing else, whatever
    the shape of the parent links (cycles included). *)
Lemma removal_set_exact (groups : list GroupView) (id : str) :
  exists removed, removal_set groups id = Some removed
    /\ forall x, bs_contains x removed = true <-> descendant groups id x.
Proof. apply removal_set_descendants. Qed.

(** ** Group rows *)

(** The group row of an id in a scope. *)
Definition group_row (s : SyncStateV3) (scope : HostScope) (id : str) : option LocalRecord :=
  match scope with
  | Local => bt_get (record_key KGroup id) (l_groups (local s))
  | Space sid => sp ← bt_get sid (spaces s); bt_get (record_key KGroup id) (s_records sp)
  end.

(** What [group] reads of a space besides its rows. *)
Definition space_flags (s : SyncStateV3) (sid : str) : option (bool * bool * btree SealedRecord) :=
  (fun sp => (selected sp, missing sp, s_sealed sp)) <$> bt_get sid (spaces s).

Lemma host_group_key_ne id id' : record_key KHost id <> record_key KGroup id'.
Proof. by intros [? _]%record_key_inj. Qed.

Lemma insert_host_group_row s scope id row scope' x :
  group_row (insert_host s scope (record_key KHost id) row) scope' x = group_row s scope' x.
Proof.
  unfold group_row, insert_host. destruct scope as [|sid], scope' as [|sid']; simpl; try done.
  rewrite bt_get_update. case_decide; [subst|done]. destruct (bt_get sid' (spaces s)); [|done]. simpl.
  by rewrite bt_get_insert_ne by apply host_group_key_ne.
Qed.

Lemma insert_host_flags s scope key row sid : space_flags (insert_host s scope key row) sid = space_flags s sid.
Proof.
  unfold space_flags, insert_host. destruct scope as [|sid']; simpl; [done|].
  rewrite bt_get_update. case_decide; [subst|done]. by destruct (bt_get sid (spaces s)).
Qed.

Lemma insert_group_flags s scope key row sid : space_flags (insert_group s scope key row) sid = space_flags s sid.
Proof.
  unfold space_flags, insert_group. destruct scope as [|sid']; simpl; [done|].
  rewrite bt_get_update. case_decide; [subst|done]. by destruct (bt_get sid (spaces s)).
Qed.

(** The scope of an edit exists. *)
Definition scope_exists (s : SyncStateV3) (scope : HostScope) : Prop :=
  match scope with Local => True | Space sid => bt_get sid (spaces s) <> None end.

Lemma group_records_exists s scope rows :
  group_records s scope = Ok rows -> scope_exists s scope
  /\ forall id, group_row s scope id = bt_get (record_key KGroup id) rows.
Proof.
  unfold group_records, group_row. destruct scope as [|sid]; simpl; [intros [= ->]; done|].
  intros H. ok_inv. destruct (bt_get sid (spaces s)) as [sp|]; [|done]. simpl in H.
  destruct (_ && _); [|done]. simpl in H. injection H as <-. done.
Qed.

Lemma insert_group_row s scope id row scope' x : scope_exists s scope ->
  group_row (insert_group s scope (record_key KGroup id) row) scope' x
  = if decide (scope = scope' /\ id = x) then Some row else group_row s scope' x.
Proof.
  intros He. unfold group_row, insert_group. destruct scope as [|sid], scope' as [|sid']; simpl.
  - rewrite bt_get_insert. destruct (decide (id = x)) as [->|Hne].
    + by rewrite !decide_True.
    + rewrite !decide_False; [done|naive_solver|]. intros [_ ?]%record_key_inj. done.
  - done.
  - done.
  - rewrite bt_get_update. destruct (decide (sid = sid')) as [<-|Hs].
    + simpl in He. destruct (bt_get sid (spaces s)) as [sp|]; [|done]. simpl. rewrite bt_get_insert.
      destruct (decide (id = x)) as [->|Hne].
      * by rewrite !decide_True.
      * rewrite !decide_False; [done|naive_solver|]. intros [_ ?]%record_key_inj. done.
    + by rewrite decide_False by naive_solver.
Qed.

Lemma insert_group_host_row s scope id row scope' x :
  host_row (insert_group s scope (record_key KGroup id) row) scope' x = host_row s scope' x.
Proof.
  unfold host_row, host_records, insert_group. destruct scope as [|sid], scope' as [|sid']; simpl; try done.
  rewrite bt_get_update. case_decide; [subst|done]. destruct (bt_get sid' (spaces s)); [|done]. simpl.
  rewrite bt_get_insert_ne; [done|]. apply not_eq_sym, host_group_key_ne.
Qed.

Section Props.
Context {E : RecordEnv}.

(** Two states that [group] cannot tell apart. *)
Definition same_groups (s s' : SyncStateV3) : Prop :=
  (forall scope id, group_row s' scope id = group_row s scope id)
  /\ (forall sid, space_flags s' sid = space_flags s sid).

#[local] Instance same_groups_refl : Reflexive same_groups.
Proof. done. Qed.
#[local] Instance same_groups_trans : Transitive same_groups.
Proof. intros a b c [H1 H2] [H3 H4]. split; intros; [by rewrite H3|by rewrite H4]. Qed.

Lemma group_via_row s scope id :
  group s scope id =
  (_ ← match scope with
       | Local => Ok tt
       | Space sid =>
           flags ← ok_or (opt_filter (fun f => f.1.1 && negb f.1.2) (space_flags s sid)) (SpaceUnavailable sid);
           guard_err (existsb (fun row => opaque_shadows row (group_row s scope id) KGroup id) (bt_values flags.2))
             (g_error (lit "group " ++ id ++ lit " has unsupported winning authority"))
       end;
   l ← ok_or (group_row s scope id) (g_error (lit "group " ++ id ++ lit " does not exist in this scope"));
   _ ← validate_cache (record_key KGroup id) l;
   typed ← lift (decode_group (lrecord l) scope);
   match typed with
   | Live g => Ok g
   | Tombstone _ => Err (g_error (lit "group " ++ id ++ lit " was deleted"))
   end).
Proof.
  unfold group, group_records, group_row, space_flags. destruct scope as [|sid]; [done|].
  destruct (bt_get sid (spaces s)) as [sp|]; [|done]. simpl.
  destruct (selected sp && negb (missing sp)); done.
Qed.

Lemma group_same s s' scope id : same_groups s s' -> group s' scope id = group s scope id.
Proof. intros [Hr Hf]. rewrite !group_via_row. destruct scope; by rewrite ?Hf, Hr. Qed.

Lemma chain_same s s' scope c path : same_groups s s' -> chain s scope c path -> chain s' scope c path.
Proof. intros Hs. induction 1; constructor; [by rewrite (group_same s)|done]. Qed.

(** ** Listing *)

Lemma group_view_grows s scope rows : forall acc out,
  try_fold (group_view s scope) acc rows = Ok out ->
  (forall g, g ∈ acc -> g ∈ out)
  /\ (forall key l g, (key, l) ∈ rows -> decode_group (lrecord l) scope = Ok (Live g) ->
        exists gv, gv ∈ out /\ gv_group gv = g).
Proof.
  induction rows as [|[key l] rows IH]; intros acc out H; simpl in H; ok_inv.
  { split; [done|]. intros key l g Hin. by apply elem_of_nil in Hin. }
  destruct (IH _ _ H) as [Hgrow Hnew]. apply lift_Ok in Hok1.
  destruct v1 as [g0|]; ok_inv.
  - split.
    + intros g Hg. apply Hgrow, elem_of_app. by left.
    + intros key' l' g [[= -> ->]|Hin]%elem_of_cons Hd; [|by eapply Hnew].
      rewrite Hok1 in Hd. injection Hd as ->. eexists. split; [|].
      * apply Hgrow, elem_of_app. right. by apply list_elem_of_singleton.
      * done.
  - split; [done|]. intros key' l' g [[= -> ->]|Hin]%elem_of_cons Hd; [congruence|by eapply Hnew].
Qed.

(** Every live group row of a visible scope is listed. *)
Lemma list_groups_row s gs scope rows id l g :
  list_groups s = Ok gs -> group_records s scope = Ok rows ->
  bt_get (record_key KGroup id) rows = Some l -> decode_group (lrecord l) scope = Ok (Live g) ->
  exists gv, gv ∈ gs /\ gv_group gv = g.
Proof.
  intros Hl Hr Hrow Hd.
  assert (Hvis : scope ∈ visible_scopes s).
  { unfold visible_scopes, group_records in *. destruct scope as [|sid]; [by left|right].
    ok_inv. destruct (bt_get sid (spaces s)) as [sp|] eqn:Hsp; [|done]. simpl in Hr.
    destruct (selected sp && negb (missing sp)) eqn:Hb; [|done].
    change (Space sid) with ((fun e : str * SpaceStateV3 => Space e.1) (sid, sp)).
    apply list_elem_of_fmap_2, list_elem_of_In, filter_In.
    split; [|done]. by apply list_elem_of_In, bt_get_elem. }
  assert (Hin : (record_key KGroup id, l) ∈ List.filter (fun e => rkind (lrecord e.2) =?= KGroup) rows).
  { apply list_elem_of_In, filter_In. split; [by apply list_elem_of_In, bt_get_elem|].
    apply bool_decide_eq_true. by apply decode_group_Live in Hd as (Hk & _). }
  unfold list_groups in Hl. revert Hl. generalize (@nil GroupView) as acc.
  induction (visible_scopes s) as [|sc l0 IH]; intros acc Hl; [by apply elem_of_nil in Hvis|].
  cbn [try_fold] in Hl. apply bind_Ok in Hl as (acc' & Hstep & Hl).
  apply bind_Ok in Hstep as (rows' & Hr' & Hstep). apply elem_of_cons in Hvis as [<-|Hvis]; [|by eapply IH].
  rewrite Hr in Hr'. injection Hr' as <-. destruct (group_view_grows _ _ _ _ _ Hstep) as [_ Hnew].
  destruct (Hnew _ _ _ Hin Hd) as (gv & Hgv & Heq). exists gv. split; [|done].
  clear -Hl Hgv. revert acc' Hl Hgv. induction l0 as [|sc0 l0 IH]; intros acc Hl Hgv; simpl in Hl; ok_inv; [done|].
  eapply IH; [exact Hl|]. by eapply group_view_grows in Hok as [Hgrow _]; eauto.
Qed.

Lemma list_groups_complete s gs scope id g :
  list_groups s = Ok gs -> group s scope id = Ok g -> exists gv, gv ∈ gs /\ gv_group gv = g.
Proof. intros Hl (rows & l & Hr & Hrow & _ & Hd)%group_inv. by eapply list_groups_row. Qed.

(** ** The tree invariant *)

(** The live groups of a scope form a forest with distinct sibling names. *)
Definition forest (s : SyncStateV3) (scope : HostScope) : Prop :=
  forall id g, group s scope id = Ok g ->
    (exists path, chain s scope (Some id) path /\ length path <= 32)
    /\ (forall id' g', group s scope id' = Ok g' ->
          gp_parent_id (gr_payload g') = gp_parent_id (gr_payload g) ->
          gp_name (gr_payload g') = gp_name (gr_payload g) -> id' = id).

Lemma forest_same s s' scope : same_groups s s' -> forest s scope -> forest s' scope.
Proof.
  intros Hs Hf id g Hg. rewrite (group_same s) in Hg by done. destruct (Hf _ _ Hg) as [(p & Hc & Hl) Hu].
  split; [exists p; split; [by eapply chain_same|done]|].
  intros id' g' Hg'. rewrite (group_same s) in Hg' by done. by eapply Hu.
Qed.

Lemma check_names_Ok s scope groups : forall names u,
  check_names s scope names groups = Ok u ->
  (forall g, g ∈ groups -> (exists path, ancestor_path s scope (Some (gr_id (gv_group g))) = Ok path)
     /\ ((gp_parent_id (gr_payload (gv_group g)), gp_name (gr_payload (gv_group g))) ∉ names))
  /\ (forall g g', g ∈ groups -> g' ∈ groups ->
        gp_parent_id (gr_payload (gv_group g')) = gp_parent_id (gr_payload (gv_group g)) ->
        gp_name (gr_payload (gv_group g')) = gp_name (gr_payload (gv_group g)) -> g' = g).
Proof.
  induction groups as [|g0 groups IH]; intros names u H; cbn [check_names] in H; ok_inv.
  { split; intros g; intros; by exfalso; eapply elem_of_nil. }
  destruct (IH _ _ H) as [Hp Hu]. rewrite existsb_none in Hok0.
  assert (Hn0 : (gp_parent_id (gr_payload (gv_group g0)), gp_name (gr_payload (gv_group g0))) ∉ names).
  { intros Hin. specialize (Hok0 _ Hin). by rewrite bool_decide_true in Hok0. }
  split.
  - intros g [->|Hg]%elem_of_cons; [eauto|]. destruct (Hp _ Hg) as [? Hni].
    split; [done|]. rewrite not_elem_of_cons in Hni. tauto.
  - intros g g' Hg Hg' E1 E2. rewrite elem_of_cons in Hg, Hg'.
    destruct Hg as [->|Hg], Hg' as [->|Hg']; try done; [| |by apply Hu].
    + destruct (Hp _ Hg') as [_ Hni]. exfalso. apply Hni. rewrite E1, E2. by left.
    + destruct (Hp _ Hg) as [_ Hni]. exfalso. apply Hni. rewrite <-E1, <-E2. by left.
Qed.

Lemma validate_groups_forest s scope u : validate_groups s scope = Ok u -> forest s scope.
Proof.
  unfold validate_groups. intros H. ok_inv. destruct (check_names_Ok _ _ _ _ _ H) as [Hp Hu].
  assert (Hin : forall id g, group s scope id = Ok g -> exists gv,
    gv_group gv = g /\ gv ∈ List.filter (fun g => gr_scope (gv_group g) =?= scope) v).
  { intros id g Hg. destruct (list_groups_complete _ _ _ _ _ Hok Hg) as (gv & Hgv & Heq).
    exists gv. split; [done|]. apply list_elem_of_In, filter_In. rewrite <-list_elem_of_In. split; [done|].
    apply bool_decide_eq_true. rewrite Heq. by apply group_id in Hg as [_ ->]. }
  intros id g Hg. destruct (Hin _ _ Hg) as (gv & <- & Hgv). destruct (group_id _ _ _ _ Hg) as [Hid _].
  split.
  - destruct (Hp _ Hgv) as [(path & Hpath) _]. exists path. apply ancestor_path_Ok. by rewrite <-Hid.
  - intros id' g' Hg' E1 E2. destruct (Hin _ _ Hg') as (gv' & <- & Hgv').
    rewrite (Hu _ _ Hgv Hgv' E1 E2) in Hg'. by apply group_id in Hg' as [<- _].
Qed.

(** A listed group of a scope whose tree was checked is readable. *)
Lemma validate_groups_reads s scope u rows id l g :
  validate_groups s scope = Ok u -> group_records s scope = Ok rows ->
  bt_get (record_key KGroup id) rows = Some l -> decode_group (lrecord l) scope = Ok (Live g) ->
  gr_id g = id -> group s scope id = Ok g.
Proof.
  unfold validate_groups. intros H Hr Hrow Hd Hid. ok_inv.
  destruct (list_groups_row _ _ _ _ _ _ _ Hok Hr Hrow Hd) as (gv & Hgv & Heq).
  destruct (check_names_Ok _ _ _ _ _ H) as [Hp _].
  destruct (Hp gv) as [(path & Hpath) _].
  { apply list_elem_of_In, filter_In. rewrite <-list_elem_of_In. split; [done|].
    apply bool_decide_eq_true. rewrite Heq. by apply decode_group_Live in Hd as (_ & _ & _ & -> & _). }
  rewrite Heq in Hpath. apply ancestor_path_Ok in Hpath as [Hc _].
  inversion Hc as [|? g' rest Hg' _]; subst. rewrite Hg'. f_equal.
  destruct (group_inv _ _ _ _ Hg') as (rows' & l' & Hr' & Hrow' & _ & Hd'). congruence.
Qed.
End Props.

(** ** Creating, changing and deleting groups *)

(** ** Edits of host rows only *)

Definition host_edit (s s' : SyncStateV3) : Prop :=
  exists scope id row, s' = insert_host s scope (record_key KHost id) row.

Lemma host_edits_frame s s' : rtc host_edit s s' -> same_groups s s' /\ same_frame s s'.
Proof.
  induction 1 as [s|s s1 s2 (scope & id & row & ->) _ [[IHr IHf] IHs]]; [done|].
  split; [split|].
  - intros scope' x. rewrite IHr. apply insert_host_group_row.
  - intros sid. rewrite IHf. apply insert_host_flags.
  - etransitivity; [apply insert_host_frame|exact IHs].
Qed.

Lemma put_group_Ok s scope key row s' : put_group s scope key row = Ok s' -> s' = insert_group s scope key row.
Proof. unfold put_group. destruct scope; intros H; by ok_inv. Qed.

Section Props.
Context {E : RecordEnv} {D : ReviewDigest}.

Lemma clear_pin_Ok old now next v next' :
  clear_pin old now next v = Ok next' ->
  next' = next
  \/ exists prev r, host_row next (hr_scope (v_host v)) (hr_id (v_host v)) = Some prev
       /\ next' = insert_host next (hr_scope (v_host v)) (record_key KHost (hr_id (v_host v)))
                    (cached r (lseq prev) (hr_scope (v_host v)))
       /\ rpayload r = to_value (with_host_key (hr_payload (v_host v)) None)
       /\ remote_wins r (lrecord prev) = true.
Proof.
  unfold clear_pin. cbv zeta. destruct (_ && _); intros H; ok_inv; [right|by left].
  apply previous_row_Ok in Hok as [Hrow _]. eexists _, _. split_and!; [done|done|done|].
  apply checked_add_Some in Hok1 as [-> _].
  unfold remote_wins. simpl. by rewrite (proj2 (N.compare_gt_iff _ _)) by lia.
Qed.

Lemma clear_pins_edit old now views : forall next s',
  try_fold (clear_pin old now) next views = Ok s' -> rtc host_edit next s'.
Proof.
  induction views as [|v views IH]; intros next s' H; simpl in H; ok_inv; [done|].
  apply clear_pin_Ok in Hok as [->|(prev & r & _ & -> & _)]; [by apply IH|].
  eapply rtc_l; [|by apply IH]. by eexists _, _, _.
Qed.

Lemma finish_Ok before next scope now s' :
  finish before next scope now = Ok s' ->
  validate_groups next scope = Ok tt /\ validate_transition before next = Ok tt
  /\ rtc host_edit next s'
  /\ exists old new, list_hosts next = Ok new /\ try_fold (clear_pin old now) next new = Ok s'.
Proof.
  unfold finish. intros H. ok_inv. units. split_and!; [done|done|by eapply clear_pins_edit|eauto].
Qed.

(** ** Promotion *)

Lemma promote_Ok s scope confirmed now s1 :
  promote s scope confirmed now = Ok s1 ->
  spaces s1 = spaces s /\ local s1 = local s /\ device_id s1 = device_id s
  /\ version s1 = N.max (version s) GROUP_STATE_VERSION
  /\ (confirmed = false -> version s1 = version s /\ account s1 = account s).
Proof.
  unfold promote. cbv zeta. intros H. apply bind_Ok in H as (u & Hg%guard_err_Ok & H).
  assert (Hen : account_group_enabled (set_version s (N.max (version s) GROUP_STATE_VERSION))
                = account_group_enabled s) by done.
  rewrite Hen in H. destruct (is_space scope && negb (account_group_enabled s)) eqn:Hp.
  - unfold promote_account in H. cbv zeta in H. ok_inv. simpl. split_and!; try done.
    intros ->. rewrite orb_true_r in Hg. done.
  - ok_inv. simpl. split_and!; try done. intros ->. rewrite orb_false_r, andb_true_r in Hg.
    apply N.ltb_ge in Hg. split; [lia|done].
Qed.

Lemma promote_same s scope confirmed now s1 :
  promote s scope confirmed now = Ok s1 -> same_groups s s1.
Proof.
  intros (Hs & Hl & _)%promote_Ok. unfold same_groups, group_row, space_flags. by rewrite Hs, Hl.
Qed.

Lemma ensure_scope_group_records s scope u :
  ensure_scope s scope = Ok u -> exists rows, group_records s scope = Ok rows.
Proof.
  unfold ensure_scope, group_records. destruct scope as [|sid]; [eauto|]. intros H. ok_inv.
  apply orb_false_iff in H as [Hs%negb_false_iff Hm]. rewrite Hok1. simpl. rewrite Hs, Hm. simpl. eauto.
Qed.

(** The records of a scope after a group row was written. *)
Lemma insert_group_records s scope key row rows :
  group_records s scope = Ok rows ->
  group_records (insert_group s scope key row) scope = Ok (bt_insert key row rows).
Proof.
  unfold group_records, insert_group. destruct scope as [|sid]; simpl; [congruence|].
  rewrite bt_get_update, decide_True by done.
  destruct (bt_get sid (spaces s)) as [sp|]; [|done]. simpl. destruct (selected sp && negb (missing sp)); [|done].
  simpl. congruence.
Qed.

(** A stamped group row decodes to the group it was written from. *)
Lemma written_group s scope id p now prev r rows key seq u u' :
  validate_group (mkGroupRecord id scope p) = Ok u ->
  ordered_record s id (to_value p) false now prev = Ok r ->
  group_records s scope = Ok rows -> key = record_key KGroup id ->
  validate_groups (insert_group s scope key (cached (with_kind r KGroup) seq scope)) scope = Ok u' ->
  group (insert_group s scope key (cached (with_kind r KGroup) seq scope)) scope id = Ok (mkGroupRecord id scope p).
Proof.
  intros Hv Hr Hrec -> Hg. destruct (ordered_record_fields _ _ _ _ _ _ _ Hr) as (_ & Hid & Hd & Hp & _).
  eapply validate_groups_reads; [done|by apply insert_group_records|apply bt_get_insert_eq| |done].
  units. rewrite <-Hid in Hv |- *. by apply (decode_group_encoded (with_kind r KGroup)).
Qed.

(** Creating a group: the id was unused in every scope, afterwards the scope
    reads back exactly the given group (with its name trimmed), no other group
    row changes, the groups of the scope still form a forest of depth at most 32
    with distinct sibling names, and without the user's confirmation neither the
    state version nor the account is upgraded. *)
Lemma create_group_spec (s s' : SyncStateV3) (id : str) (scope : HostScope) (payload : GroupPayload)
    (confirmed : bool) (now : N) (Hok : create_group s id scope payload confirmed now = Ok s') :
  group s' scope id = Ok (mkGroupRecord id scope (trim_name payload))
  /\ forest s' scope
  /\ (forall scope', group_row s scope' id = None)
  /\ (forall scope' x, (scope', x) <> (scope, id) -> group_row s' scope' x = group_row s scope' x)
  /\ version s' = N.max (version s) GROUP_STATE_VERSION
  /\ (confirmed = false -> version s' = version s /\ account s' = account s).
Proof.
  unfold create_group in Hok. cbv zeta in Hok. ok_inv. apply lift_Ok in Hok1. rename v2 into s1.
  apply put_group_Ok in Hok5 as ->.
  pose proof (promote_same _ _ _ _ _ Hok3) as Hsame.
  destruct (promote_Ok _ _ _ _ _ Hok3) as (Hsp & Hl & Hdev & Hver & Hconf).
  destruct (finish_Ok _ _ _ _ _ Hok) as (Hval & _ & Hedits & _).
  destruct (host_edits_frame _ _ Hedits) as [Hgr Hfr].
  destruct (ensure_scope_group_records _ _ _ Hok0) as [rows Hrows].
  assert (Hrows1 : group_records s1 scope = Ok rows)
    by (unfold group_records in *; rewrite Hsp, Hl; done).
  destruct (group_records_exists _ _ _ Hrows1) as [Hex _].
  destruct Hfr as (Hv' & _ & Ha' & _). split_and!.
  - rewrite (group_same _ _ _ _ Hgr). by eapply written_group.
  - eapply forest_same; [done|]. by eapply validate_groups_forest.
  - intros scope'. apply orb_false_iff in Hok2 as [H1 H2]. unfold group_row.
    destruct scope' as [|sid].
    + unfold bt_contains_key in H1. by destruct (bt_get _ _).
    + destruct (bt_get sid (spaces s)) as [sp|] eqn:Hsid; [|done]. simpl.
      rewrite existsb_none in H2. specialize (H2 sp). unfold bt_contains_key in H2.
      destruct (bt_get _ (s_records sp)); [|done]. exfalso. discriminate H2.
      apply bt_get_elem in Hsid. by apply (list_elem_of_fmap_2 snd) in Hsid.
  - intros scope' x Hne. rewrite (proj1 Hgr), insert_group_row by done.
    rewrite decide_False by naive_solver. apply (proj1 Hsame).
  - rewrite Hv'. destruct scope; apply Hver.
  - intros Hc. destruct (Hconf Hc). rewrite Hv', Ha'. by destruct scope.
Qed.

Lemma checked_Ok s id expected gv :
  checked s id expected = Ok gv ->
  gr_id (gv_group gv) = id /\ gv_revision gv = expected /\ ensure_scope s (gr_scope (gv_group gv)) = Ok tt
  /\ exists g, group s (gr_scope (gv_group gv)) id = Ok g.
Proof.
  unfold checked. intros H. ok_inv.
  destruct (List.filter _ _) as [|g [|? ?]] eqn:Hf; try done. ok_inv.
  assert (Hin : gv ∈ List.filter (fun g => gr_id (gv_group g) =?= id) v) by (rewrite Hf; by left).
  apply list_elem_of_In, filter_In in Hin as [_ Hid]. breflect. units. split_and!; eauto.
Qed.

(** Changing a group: the revision must be the current one; afterwards the
    scope reads back exactly the given group, the new row beats the old one on
    every replica, no other group row changes, and the groups of the scope still
    form a forest with distinct sibling names. *)
Lemma update_group_spec (s s' : SyncStateV3) (id : str) (expected : RecordRevision)
    (payload : GroupPayload) (now : N) (Hok : update_group s id expected payload now = Ok s') :
  exists gv old r, let scope := gr_scope (gv_group gv) in
    gr_id (gv_group gv) = id /\ gv_revision gv = expected
    /\ group_row s scope id = Some old
    /\ group_row s' scope id = Some (cached r (lseq old) scope)
    /\ remote_wins r (lrecord old) = true
    /\ group s' scope id = Ok (mkGroupRecord id scope (trim_name payload))
    /\ forest s' scope
    /\ (forall scope' x, (scope', x) <> (scope, id) -> group_row s' scope' x = group_row s scope' x).
Proof.
  unfold update_group in Hok. cbv zeta in Hok. ok_inv. apply lift_Ok in Hok1.
  apply put_group_Ok in Hok5 as ->.
  destruct (checked_Ok _ _ _ _ Hok0) as (Hid & Hrev & _).
  destruct (group_records_exists _ _ _ Hok2) as [Hex Hrow].
  destruct (finish_Ok _ _ _ _ _ Hok) as (Hval & _ & Hedits & _).
  destruct (host_edits_frame _ _ Hedits) as [Hgr _].
  destruct (ordered_record_dominates _ _ _ _ _ _ _ (lrecord v2) Hok4) as (_ & _ & Hw); [by left|].
  exists v, v2, (with_kind v3 KGroup). cbv zeta. split_and!; try done.
  - by rewrite Hrow.
  - rewrite (proj1 Hgr), insert_group_row by done. by rewrite decide_True.
  - rewrite (group_same _ _ _ _ Hgr). by eapply written_group.
  - eapply forest_same; [done|]. by eapply validate_groups_forest.
  - intros scope' x Hne. rewrite (proj1 Hgr), insert_group_row by done.
    by rewrite decide_False by naive_solver.
Qed.
End Props.
