(* ===== verification/GroupDelete.v ===== *)
(** * GroupDelete: deleting a group with its subtree

    The tombstones a deletion writes, the hosts it detaches, and that nothing
    keeps referring to a deleted group. *)

From stdpp Require Import relations.
From S2P Require Import Prelude Text BTreeMap SlotRules Json SyncRecord RecordsTypes RecordsValidate RecordsValidateProps RecordsState RepositoryCore RecordGroups Repository RepositoryProps SnapshotProps RepositoryLookup GroupEdit GroupProps GroupEditProps.

Lemma maps_ok_edits s s' : rtc host_edit s s' -> maps_ok s -> maps_ok s'.
Proof. induction 1 as [|s s1 s2 (sc & i & row & ->) _ IH]; [done|]. intros H. by apply IH, maps_ok_insert. Qed.

Lemma maps_ok_insert_group s scope key row : maps_ok s -> maps_ok (insert_group s scope key row).
Proof.
  intros (Hsp & Hh & Hk & Hr). destruct scope as [|sid]; [done|].
  by apply (maps_ok_insert s (Space sid) key row).
Qed.

(** A visible scope: its live rows are listed. *)
Definition scope_visible (s : SyncStateV3) (scope : HostScope) : Prop :=
  match scope with
  | Local => True
  | Space sid => exists sealed, space_flags s sid = Some (true, false, sealed)
  end.

Lemma ensure_scope_visible `{RecordEnv} s scope u : ensure_scope s scope = Ok u -> scope_visible s scope.
Proof.
  unfold ensure_scope, scope_visible, space_flags. destruct scope as [|sid]; [done|]. intros Hs. ok_inv.
  apply orb_false_iff in Hs as [Hs%negb_false_iff Hm]. rewrite Hok1. simpl. rewrite Hs, Hm. eauto.
Qed.

Lemma scope_visible_same s s' scope : same_groups s s' -> scope_visible s scope -> scope_visible s' scope.
Proof. intros [_ Hf]. unfold scope_visible. destruct scope; [done|]. by rewrite Hf. Qed.

Lemma visible_row s scope id l :
  scope_visible s scope -> host_row s scope id = Some l ->
  exists rows, visible_rows s scope rows /\ (record_key KHost id, l) ∈ rows.
Proof.
  unfold scope_visible, host_row, host_records, visible_rows, space_flags. destruct scope as [|sid].
  - intros _ Hl. eexists. split; [done|]. by apply bt_get_elem.
  - intros [sealed Hf]. destruct (bt_get sid (spaces s)) as [sp|] eqn:Hsp; [|done]. simpl in *.
    injection Hf as Hs Hm _. intros Hl%bt_get_elem. eexists. split; [|done].
    exists sp. split_and!; try done. by apply bt_get_elem.
Qed.

Section Props.
Context {E : RecordEnv} {D : ReviewDigest}.

(** The host a lookup returns is the one in the visible row of that id. *)
Lemma get_host_is s id v scope l h :
  get_host s id = Ok v -> scope_visible s scope -> host_row s scope id = Some l ->
  decode_host (lrecord l) scope = Ok (Live h) -> hr_id h = id -> v_host v = h.
Proof.
  intros (hosts & Hl & _ & _ & Hu)%get_host_listed Hvis Hrow Hd Hid.
  destruct (visible_row _ _ _ _ Hvis Hrow) as (rows & Hrows & Hin).
  destruct (live_row_listed _ _ _ _ _ _ _ Hl Hrows Hin Hd) as (u & Hin' & Heq & _).
  rewrite <-(Hu u); [done|done|]. by rewrite Heq.
Qed.

(** How an update changes the state. *)
Lemma update_host_inv s id expected payload now s' :
  update_host s id expected payload now = Ok s' ->
  exists v pin l, get_host s id = Ok v
    /\ s' = insert_host s (hr_scope (v_host v)) (record_key KHost id) l
    /\ decode_host (lrecord l) (hr_scope (v_host v))
       = Ok (Live (mkHostRecord id (hr_scope (v_host v)) (with_host_key payload pin))).
Proof.
  unfold update_host, store_host. cbv zeta. intros H. ok_inv. put_inv. apply lift_Ok in Hok2.
  destruct (checked_host_Ok _ _ _ _ Hok) as (Hg & _).
  destruct (get_host_listed _ _ _ Hg) as (_ & _ & _ & Hid & _).
  destruct (ordered_record_fields _ _ _ _ _ _ _ Hok4) as (Hk & Hrid & Hdel & Hp & _).
  apply validate_host_jumps in Hok2 as (Hshape & _).
  unfold with_payload in Hshape. rewrite Hid in Hshape.
  eexists v, _, _. split_and!; [done|done|]. cbn [lrecord cached].
  rewrite <-Hrid at 1. apply decode_host_encoded; [done|done|done|]. rewrite Hrid. exact Hshape.
Qed.

Lemma host_row_exists s scope id l : host_row s scope id = Some l -> exists rows, host_records s scope = Ok rows.
Proof. unfold host_row. destruct (host_records s scope); [eauto|done]. Qed.

(** ** Detaching the member hosts *)

(** The row of a host that refers to no group. *)
Definition ungrouped (s : SyncStateV3) (scope : HostScope) (id : str) : Prop :=
  exists l h, host_row s scope id = Some l /\ decode_host (lrecord l) scope = Ok (Live h)
    /\ hr_id h = id /\ hp_group_id (hr_payload h) = None.

(** The hosts in [done] are detached, the rows of all others are untouched. *)
Definition detached (s next : SyncStateV3) (scope : HostScope) (done : list str) : Prop :=
  rtc host_edit s next
  /\ (forall x, x ∈ done -> ungrouped next scope x)
  /\ (forall scope' x, (scope' <> scope \/ x ∉ done) -> host_row next scope' x = host_row s scope' x).

Lemma detach_host_step s now scope done next v hosts next' :
  maps_ok s -> scope_visible s scope -> list_hosts s = Ok hosts -> v ∈ hosts -> hr_scope (v_host v) = scope ->
  detached s next scope done -> detach_host s now next v = Ok next' ->
  detached s next' scope (hr_id (v_host v) :: done).
Proof.
  intros Hm Hvis Hl Hv Hsc (Hed & Hdone & Hrest) H. unfold detach_host in H. ok_inv.
  set (id := hr_id (v_host v)) in *.
  assert (Hlive : exists l h, host_row next (hr_scope (v_host v)) id = Some l
    /\ decode_host (lrecord l) (hr_scope (v_host v)) = Ok (Live h) /\ hr_id h = id).
  { destruct (decide (id ∈ done)) as [Hin|Hni].
    - destruct (Hdone _ Hin) as (l & h & ? & ? & ? & _). eauto 6.
    - destruct (listed_host_row _ _ _ Hm Hl Hv) as (l & Hrow & Hd & _).
      exists l, (v_host v). rewrite Hrest by (by right). done. }
  destruct Hlive as (l & h & Hrow & Hd & Hid).
  destruct (update_host_inv _ _ _ _ _ _ H) as (v' & pin & l' & Hg & -> & Hd').
  destruct (host_edits_frame _ _ Hed) as [Hsame _].
  pose proof (scope_visible_same _ _ _ Hsame Hvis) as Hvis'.
  pose proof (get_host_is _ _ _ _ _ _ Hg Hvis' Hrow Hd Hid) as Heq.
  assert (Hsc' : hr_scope (v_host v') = hr_scope (v_host v))
    by (rewrite Heq; by apply decode_host_Live in Hd as (_ & _ & _ & -> & _)).
  rewrite Hsc' in *. destruct (host_row_exists _ _ _ _ Hrow) as [rows Hrows].
  split_and!.
  - eapply rtc_r; [done|]. by eexists _, _, _.
  - intros x Hx. unfold ungrouped. rewrite (host_row_insert _ _ _ _ _ _ _ Hrows).
    destruct (decide (id = x)) as [<-|Hne].
    + rewrite decide_True by done. eexists _, _. split_and!; [done|done|done|done].
    + rewrite decide_False by naive_solver. apply Hdone. apply elem_of_cons in Hx as [->|]; done.
  - intros scope' x Hx. rewrite not_elem_of_cons in Hx. rewrite (host_row_insert _ _ _ _ _ _ _ Hrows).
    rewrite decide_False by naive_solver. apply Hrest. naive_solver.
Qed.

Lemma detach_hosts s now scope hosts members : forall done next next',
  maps_ok s -> scope_visible s scope -> list_hosts s = Ok hosts ->
  (forall v, v ∈ members -> v ∈ hosts /\ hr_scope (v_host v) = scope) ->
  detached s next scope done -> try_fold (detach_host s now) next members = Ok next' ->
  exists done', detached s next' scope done'
    /\ forall x, x ∈ done' <-> x ∈ done \/ x ∈ map (fun v => hr_id (v_host v)) members.
Proof.
  intros done next next' Hm Hvis Hl. revert done next.
  induction members as [|v members IH]; intros done next Hmem Hd H; simpl in H; ok_inv.
  - exists done. split; [done|]. intros x. simpl. rewrite elem_of_nil. tauto.
  - destruct (Hmem v) as [Hv Hsc]; [by left|].
    destruct (IH (hr_id (v_host v) :: done) v0) as (done' & Hd' & Hx); [| |done|].
    + intros u Hu. apply Hmem. by right.
    + by eapply detach_host_step.
    + exists done'. split; [done|]. intros x. rewrite Hx. simpl. rewrite !elem_of_cons. tauto.
Qed.

(** ** Burying the groups *)

(** A tombstone that beats the row it replaces. *)
Definition buried (s s' : SyncStateV3) (scope : HostScope) (id : str) : Prop :=
  exists old r, group_row s scope id = Some old /\ group_row s' scope id = Some (cached r (lseq old) scope)
    /\ rdeleted r = true /\ remote_wins r (lrecord old) = true.

Lemma bury_groups s scope now ids : forall next next' (done : list str),
  maps_ok next -> (forall sid, space_flags next sid = space_flags s sid) ->
  (forall x, x ∈ done -> buried s next scope x) ->
  (forall scope' x, (scope' <> scope \/ x ∉ done) -> group_row next scope' x = group_row s scope' x) ->
  try_fold (bury_group s scope now) next ids = Ok next' ->
  maps_ok next' /\ (forall sid, space_flags next' sid = space_flags s sid)
  /\ (forall x, x ∈ done \/ x ∈ ids -> buried s next' scope x)
  /\ (forall scope' x, (scope' <> scope \/ (x ∉ done) /\ (x ∉ ids)) -> group_row next' scope' x = group_row s scope' x)
  /\ (forall scope' x, host_row next' scope' x = host_row next scope' x).
Proof.
  induction ids as [|id ids IH]; intros next next' done Hm Hf Hdone Hrest H; simpl in H; ok_inv.
  { split_and!; try done.
    - intros x [Hx|Hx]; [by apply Hdone|by apply elem_of_nil in Hx].
    - intros scope' x Hx. apply Hrest. tauto. }
  unfold bury_group in Hok. cbv zeta in Hok. ok_inv. apply put_group_Ok in Hok as ->.
  destruct (group_records_exists _ _ _ Hok1) as [Hex Hrow].
  assert (Hex' : scope_exists next scope).
  { destruct scope as [|sid]; [done|]. simpl in *. specialize (Hf sid). unfold space_flags in Hf.
    destruct (bt_get sid (spaces next)), (bt_get sid (spaces s)); done. }
  destruct (ordered_record_dominates _ _ _ _ _ _ _ (lrecord v2) Hok3) as (_ & _ & Hw); [by left|].
  destruct (ordered_record_fields _ _ _ _ _ _ _ Hok3) as (_ & _ & Hdel & _).
  destruct (IH _ next' (id :: done) (maps_ok_insert_group _ scope (record_key KGroup id)
    (cached (with_kind v3 KGroup) (lseq v2) scope) Hm)) as (H1 & H2 & H3 & H4 & H5); [ | | |exact H|].
  - intros sid. by rewrite insert_group_flags.
  - intros x Hx. unfold buried. rewrite insert_group_row by done.
    destruct (decide (id = x)) as [<-|Hne].
    + rewrite decide_True by done. exists v2, (with_kind v3 KGroup). rewrite Hrow. done.
    + rewrite decide_False by naive_solver. apply Hdone. apply elem_of_cons in Hx as [->|]; done.
  - intros scope' x Hx. rewrite not_elem_of_cons in Hx. rewrite insert_group_row by done.
    rewrite decide_False by naive_solver. apply Hrest. naive_solver.
  - split_and!; [done|done| | |].
    + intros x Hx. apply H3. rewrite elem_of_cons in *. tauto.
    + intros scope' x Hx. apply H4. rewrite !not_elem_of_cons in *. tauto.
    + intros scope' x. rewrite H5. apply insert_group_host_row.
Qed.

(** ** Pins *)

Lemma clear_pins_rows old now views : forall next s',
  try_fold (clear_pin old now) next views = Ok s' ->
  forall scope x l, host_row s' scope x = Some l ->
    host_row next scope x = Some l
    \/ exists v, v ∈ views /\ hr_scope (v_host v) = scope
         /\ rpayload (lrecord l) = to_value (with_host_key (hr_payload (v_host v)) None).
Proof.
  induction views as [|v views IH]; intros next s' H scope x l Hl; simpl in H; ok_inv; [by left|].
  destruct (IH _ _ H _ _ _ Hl) as [Hl0|(u & Hu & ?)]; [|right; exists u; split; [by right|done]].
  apply clear_pin_Ok in Hok as [->|(prev & r & Hrow & -> & Hp & _)]; [by left|].
  destruct (host_row_exists _ _ _ _ Hrow) as [rows Hrows].
  rewrite (host_row_insert _ _ _ _ _ _ _ Hrows) in Hl0. case_decide as Hd; [|by left].
  destruct Hd as [Hs _]. right. exists v. injection Hl0 as <-. split_and!; [by left|done|done].
Qed.

(** ** The whole deletion *)

(** No live host of the scope refers to a removed group. *)
Definition free_of (s : SyncStateV3) (scope : HostScope) (removed : bset) : Prop :=
  forall x l h g, host_row s scope x = Some l -> decode_host (lrecord l) scope = Ok (Live h) ->
    hp_group_id (hr_payload h) = Some g -> bs_contains g removed = false.

Lemma detached_free s next scope removed snap (done : list str) :
  scope_visible s scope -> snapshot s = Ok snap ->
  detached s next scope done ->
  (forall x, x ∈ done <-> x ∈ map (fun v => hr_id (v_host v))
     (List.filter (fun h => (hr_scope (v_host h) =?= scope)
        && is_some_and (fun g => bs_contains g removed) (hp_group_id (hr_payload (v_host h)))) (snap_hosts snap))) ->
  free_of next scope removed.
Proof.
  intros Hvis Hs (_ & Hdone & Hrest) Hx x l h g Hrow Hd Hg.
  destruct (decide (x ∈ done)) as [Hin|Hni].
  - destruct (Hdone _ Hin) as (l' & h' & Hrow' & Hd' & _ & Hn). rewrite Hrow in Hrow'. injection Hrow' as <-.
    rewrite Hd in Hd'. injection Hd' as <-. congruence.
  - rewrite Hrest in Hrow by (by right).
    assert (Hl : list_hosts s = Ok (snap_hosts snap)) by (unfold list_hosts; by rewrite Hs).
    destruct (visible_row _ _ _ _ Hvis Hrow) as (rows & Hrows & Hkey).
    destruct (live_row_listed _ _ _ _ _ _ _ Hl Hrows Hkey Hd) as (v & Hv & <- & Hvk).
    destruct (bs_contains g removed) eqn:Hc; [|done]. exfalso. apply Hni, Hx.
    pose proof (decode_host_Live _ _ _ Hd) as (_ & _ & _ & Hsc & _).
    apply list_elem_of_fmap. exists v. split; [by apply record_key_inj in Hvk as [_ ->]|].
    apply list_elem_of_In, filter_In. rewrite <-list_elem_of_In. split; [done|].
    rewrite Hsc, bool_decide_true by done. rewrite Hg. exact Hc.
Qed.

(** Clearing pins keeps the group of every host. *)
Lemma clear_pins_free old now next new scope removed s' :
  maps_ok next -> list_hosts next = Ok new -> try_fold (clear_pin old now) next new = Ok s' ->
  free_of next scope removed -> free_of s' scope removed.
Proof.
  intros Hm Hl Hf Hfree x l h g Hrow Hd Hg.
  destruct (clear_pins_rows _ _ _ _ _ Hf _ _ _ Hrow) as [Hrow0|(v & Hv & <- & Hp)]; [by eapply Hfree|].
  destruct (listed_host_row _ _ _ Hm Hl Hv) as (l0 & Hrow0 & Hd0 & _).
  apply (Hfree _ _ _ g Hrow0 Hd0).
  apply decode_host_Live in Hd as (_ & _ & _ & _ & _ & Hval). rewrite Hp, from_to_value in Hval.
  injection Hval as Hval. rewrite <-Hval in Hg. exact Hg.
Qed.

(** C16. Deleting a group deletes its subtree and nothing else: the deletion was
    reviewed on the very snapshot it is applied to; every group of the subtree is
    replaced by a tombstone that beats it on every replica, every other group
    row of every scope is unchanged; no live host of the scope refers to a
    deleted group afterwards, and the remaining groups still form a forest. *)
Theorem delete_group_spec (s s' : SyncStateV3) (id : str) (expected : RecordRevision)
    (reviewed : option str) (now : N) (Hm : maps_ok s)
    (Hok : delete_group s id expected reviewed now = Ok s') :
  exists gv gs snap token, let scope := gr_scope (gv_group gv) in
    let sub := List.filter (fun g => gr_scope (gv_group g) =?= scope) gs in
    gr_id (gv_group gv) = id /\ gv_revision gv = expected
    /\ list_groups s = Ok gs /\ snapshot s = Ok snap
    /\ deletion_snapshot_token snap = Ok token /\ reviewed = Some token
    /\ (forall x, descendant sub id x -> buried s s' scope x)
    /\ (forall scope' x, ~ (scope' = scope /\ descendant sub id x) ->
          group_row s' scope' x = group_row s scope' x)
    /\ (forall x l h g, host_row s' scope x = Some l -> decode_host (lrecord l) scope = Ok (Live h) ->
          hp_group_id (hr_payload h) = Some g -> ~ descendant sub id g)
    /\ forest s' scope.
Proof.
  unfold delete_group in Hok. cbv zeta in Hok. ok_inv. breflect.
  rename v into gv, v0 into snap, v1 into token, v4 into gs, v5 into removed, v6 into next1, v7 into next2.
  destruct (checked_Ok _ _ _ _ Hok0) as (Hid & Hrev & Hscope & _).
  pose proof (ensure_scope_visible _ _ _ Hscope) as Hvis. set (scope := gr_scope (gv_group gv)) in *.
  destruct (removal_set_descendants (List.filter (fun g => gr_scope (gv_group g) =?= scope) gs) id)
    as (r & Hr & Hdesc).
  rewrite Hok6 in Hr. injection Hr as <-.
  assert (Hl : list_hosts s = Ok (snap_hosts snap)) by (unfold list_hosts; by rewrite Hok1).
  match type of Hok7 with try_fold _ _ ?m = _ =>
    destruct (detach_hosts s now scope (snap_hosts snap) m [] s next1 Hm Hvis Hl) as (done & Hdet & Hdone) end;
    [|split_and!; [done|intros x Hx; by apply elem_of_nil in Hx|done]|exact Hok7|].
  { intros v Hv. apply list_elem_of_In, filter_In in Hv as [Hv Hb]. breflect. by rewrite list_elem_of_In. }
  pose proof Hdet as (Hed & _). destruct (host_edits_frame _ _ Hed) as [[Hgr Hfl] _].
  destruct (bury_groups s scope now (bt_keys removed) next1 next2 [] (maps_ok_edits _ _ Hed Hm) Hfl)
    as (Hm2 & Hfl2 & Hbur & Hrest & Hhost);
    [intros x Hx; by apply elem_of_nil in Hx|intros scope' x _; apply Hgr|done|].
  destruct (finish_Ok _ _ _ _ _ Hok) as (Hval & _ & Hedits & old & new & Hnew & Hclear).
  destruct (host_edits_frame _ _ Hedits) as [Hgr2 _].
  assert (Hfree : free_of s' scope removed).
  { eapply clear_pins_free; [exact Hm2|done|done|]. intros x l h g Hrow. rewrite Hhost in Hrow. revert x l h g Hrow.
    eapply detached_free; [done|done|exact Hdet|]. intros x. rewrite Hdone, elem_of_nil. tauto. }
  exists gv, gs, snap, token. cbv zeta. fold scope. split_and!; try done.
  - intros x Hx%Hdesc%bs_contains_elem. destruct (Hbur x) as (o & rr & ? & ? & ? & ?); [by right|].
    exists o, rr. rewrite (proj1 Hgr2). done.
  - intros scope' x Hx. rewrite (proj1 Hgr2). apply Hrest.
    destruct (decide (scope' = scope)) as [->|]; [right|by left]. split; [apply not_elem_of_nil|].
    intros Hin%bs_contains_elem%Hdesc. by apply Hx.
  - intros x l h g Hrow Hd Hg Hin%Hdesc. by rewrite (Hfree _ _ _ _ Hrow Hd Hg) in Hin.
  - eapply forest_same; [done|]. by eapply validate_groups_forest.
Qed.
End Props.
