(* ===== verification/GroupOrderEdit.v ===== *)
(** * GroupOrderEdit: the navigation order of groups

    [src-tauri/src/sync/group_order.rs].  [GroupOrder] and its record id are in
    [RepositoryCore] and [SyncRecord]. *)

From S2P Require Import Prelude Text BTreeMap SlotRules Json SyncRecord RecordsTypes RecordsValidate RecordsState RepositoryCore RecordGroups.

Definition MAX_GROUPS : nat := 4096.

Definition valid_ids (ids : list str) : bool :=
  (length ids <=? MAX_GROUPS)%nat && forallb is_host_id ids && bool_decide (NoDup ids).

Record OrderView := mkOrderView {
  ov_ids : list str; ov_revision : option RecordRevision; ov_blocked : bool
}.

Definition order_key : str := record_key KMeta ORDER_RECORD_ID.

Section GroupOrder.
Context {E : RecordEnv}.

(** [decode]. *)
Definition decode_order (r : Rec) : option GroupOrder :=
  if negb (rkind r =?= KMeta) || negb (rid r =?= ORDER_RECORD_ID) || (rversion r =? 0)%N
     || negb (is_slot_id (rdevice_id r))
  then None
  else if rdeleted r then (if json_is_null (rpayload r) then Some (mkOrder 1 []) else None)
  else
    p ← result_ok (from_value (rpayload r));
    if (go_schema p =? 1)%N && valid_ids (go_ids p) then Some p else None.

Definition has_navigation_data (s : SyncStateV3) : bool :=
  negb (group_order (local s) =?= [])
  || is_some_and (fun a =>
       bt_contains_key order_key (a_records a)
       || existsb (fun row => (ekind (senvelope row) =?= lit "meta")
            && is_some_and (fun hint => vid hint =?= ORDER_RECORD_ID) (spublic_identity row))
            (bt_values (a_sealed a))) (account s).

(** [blocked_by_opaque]; [keys] are the loaded account keys, given by their chain
    id and their hash of the order record's id ([crypto::id_hash]). *)
Definition blocked_by_opaque (s : SyncStateV3) (keys : option (str * str)) : bool :=
  match account s with
  | None => false
  | Some a =>
      let opaque := List.filter (fun r => (ekind (senvelope r) =?= lit "meta")
                                          && is_none (spublic_identity r)) (bt_values (a_sealed a)) in
      match opaque with
      | [] => false
      | _ =>
          match opt_filter (fun k => k.1 =?= chain_id a) keys with
          | None => true
          | Some (_, hash) => existsb (fun r => eid_hash (senvelope r) =?= hash) opaque
          end
      end
  end.

(** [view]. *)
Definition order_view (s : SyncStateV3) : OrderView :=
  match account s with
  | None => mkOrderView (group_order (local s)) None false
  | Some a =>
      let row := bt_get order_key (a_records a) in
      let shadowed := existsb (fun o => opaque_shadows o row KMeta ORDER_RECORD_ID)
                        (bt_values (a_sealed a)) in
      mkOrderView
        (if shadowed then []
         else from_option go_ids (group_order (local s)) (r ← row; decode_order (lrecord r)))
        ((fun r => revision (lrecord r)) <$> row)
        (shadowed || account_writes_blocked s)
  end.

Definition order_invalid (id : str) (reason : string) : RepositoryError :=
  r_invalid "group_order" id reason.

(** [set]. *)
Definition set_order (s : SyncStateV3) (expected_ids : list str)
    (expected_revision : option RecordRevision) (ids : list str) (now : N) : rresult SyncStateV3 :=
  let current := order_view s in
  _ ← guard_err (ov_blocked current) ReadOnlyAccount;
  _ ← guard_err (negb (ov_ids current =?= expected_ids)
                 || negb (ov_revision current =?= expected_revision))
        (order_invalid ORDER_RECORD_ID "Group order changed; refresh and try again.");
  _ ← guard_err (negb (valid_ids ids))
        (order_invalid ORDER_RECORD_ID "Invalid or duplicate group identities.");
  groups ← list_groups s;
  _ ← try_for (fun id =>
        guard_err (negb (existsb (fun x => x =?= id) (ov_ids current))
                   && negb (existsb (fun g => gr_id (gv_group g) =?= id) groups))
          (order_invalid id "Group is no longer available.")) ids;
  if ids =?= ov_ids current then Ok s
  else
    let next := set_version s (N.max (version s) NAVIGATION_STATE_VERSION) in
    match account s with
    | Some a =>
        let previous := bt_get order_key (a_records a) in
        r ← ordered_record s ORDER_RECORD_ID (to_value (mkOrder 1 ids)) false now
              (from_option (fun l => [lrecord l]) [] previous);
        let row := mkLocal (with_kind r KMeta) (from_option lseq 0%N previous) true in
        Ok (set_account next (Some (set_a_records a (bt_insert order_key row (a_records a)))))
    | None => Ok (set_local next (set_l_order (local next) ids))
    end.

Definition publish_local (s : SyncStateV3) (keys : option (str * str)) (now : N) : rresult SyncStateV3 :=
  match account s with
  | None => Ok s
  | Some a =>
      if (group_order (local s) =?= []) || bt_contains_key order_key (a_records a) then Ok s
      else
        _ ← guard_err (blocked_by_opaque s keys) ReadOnlyAccount;
        _ ← guard_err (existsb (fun o => opaque_shadows o None KMeta ORDER_RECORD_ID)
                         (bt_values (a_sealed a))) ReadOnlyAccount;
        r ← ordered_record s ORDER_RECORD_ID (to_value (mkOrder 1 (group_order (local s)))) false now [];
        Ok (set_account s (Some (set_a_records a
              (bt_insert order_key (mkLocal (with_kind r KMeta) 0 true) (a_records a)))))
  end.
End GroupOrder.

(** ** The navigation order reads back *)

Section Props.
Context {E : RecordEnv}.

(** A record that beats the cached one is shadowed by no more sealed rows. *)
Lemma opaque_shadows_newer sealed l r seq dirty k id :
  opaque_shadows sealed l k id = false ->
  (forall old, l = Some old -> remote_wins r (lrecord old) = true) ->
  opaque_shadows sealed (Some (mkLocal r seq dirty)) k id = false.
Proof.
  unfold opaque_shadows. destruct (opt_filter _ _) as [i|]; [|done].
  destruct l as [old|]; simpl; [|done]. intros Hs Hw. specialize (Hw _ eq_refl).
  destruct (remote_wins (identity_header i k) r) eqn:H1; simpl; [|done].
  rewrite (remote_wins_trans _ _ _ H1 Hw) in Hs. simpl in Hs. by destruct (ldirty old).
Qed.

Lemma order_key_ne : order_key <> record_key KMeta ACCOUNT_META_ID.
Proof. intros [_ H]%record_key_inj. vm_compute in H. discriminate H. Qed.

(** Writing the order row does not touch the write gate. *)
Lemma writes_blocked_order s a row v :
  account s = Some a ->
  account_writes_blocked (set_account (set_version s v) (Some (set_a_records a (bt_insert order_key row (a_records a)))))
  = account_writes_blocked s.
Proof.
  intros Ha. unfold account_writes_blocked, account_migration_pending, account_meta_row. simpl.
  rewrite Ha. simpl. by rewrite bt_get_insert_ne by apply order_key_ne.
Qed.

Lemma decode_order_written r ids :
  rkind r = KMeta -> rid r = ORDER_RECORD_ID -> (0 < rversion r)%N -> is_slot_id (rdevice_id r) = true ->
  rdeleted r = false -> rpayload r = to_value (mkOrder 1 ids) -> valid_ids ids = true ->
  decode_order r = Some (mkOrder 1 ids).
Proof.
  intros Hk Hi Hv Hdev Hd Hp Hids. unfold decode_order. rewrite Hk, Hi, Hdev, Hd, Hp, from_to_value.
  rewrite !bool_decide_true by done. rewrite (proj2 (N.eqb_neq _ _)) by lia. simpl. by rewrite Hids.
Qed.

(** Setting the group order: on a device with a valid id, an accepted order
    is the one the view shows afterwards and stays editable; it has no
    duplicates, names only groups that were listed before or exist now, and the
    view it replaces was the one the caller had seen. *)
Lemma set_order_roundtrip (s s' : SyncStateV3) (expected_ids : list str)
    (expected_revision : option RecordRevision) (ids : list str) (now : N)
    (Hdev : is_slot_id (device_id s) = true)
    (Hok : set_order s expected_ids expected_revision ids now = Ok s') :
  ov_ids (order_view s') = ids /\ ov_blocked (order_view s') = false
  /\ ov_ids (order_view s) = expected_ids /\ ov_revision (order_view s) = expected_revision
  /\ NoDup ids /\ length ids <= 4096
  /\ (exists groups, list_groups s = Ok groups
        /\ forall id, id ∈ ids -> id ∈ expected_ids \/ exists g, g ∈ groups /\ gr_id (gv_group g) = id).
Proof.
  unfold set_order in Hok. cbv zeta in Hok. ok_inv. breflect.
  assert (Hval : valid_ids ids = true) by done.
  assert (Hids : NoDup ids /\ length ids <= 4096)
    by (unfold valid_ids in Hval; breflect; done).
  assert (Hview : ov_ids (order_view s') = ids /\ ov_blocked (order_view s') = false).
  { destruct (bool_decide (ids = ov_ids (order_view s))) eqn:Hsame; ok_inv; breflect; [by split|].
    destruct (account s) as [a|] eqn:Ha; ok_inv; [|unfold order_view; simpl; by rewrite Ha].
    destruct (ordered_record_fields _ _ _ _ _ _ _ Hok1) as (_ & Hid & Hd & Hp & Hdv & _ & Hver).
    unfold order_view in Hok0 |- *. cbn [account set_account set_core a_records set_a_records a_sealed].
    rewrite Ha in Hok0. cbn [ov_blocked] in Hok0. apply orb_false_iff in Hok0 as [Hsh Hbl].
    rewrite bt_get_insert_eq. rewrite existsb_none in Hsh.
    assert (Hsh' : forall row, row = mkLocal (with_kind v4 KMeta) (from_option lseq 0%N (bt_get order_key (a_records a))) true ->
      existsb (fun o => opaque_shadows o (Some row) KMeta ORDER_RECORD_ID) (bt_values (a_sealed a)) = false).
    { intros row ->. apply existsb_none. intros o Ho. eapply opaque_shadows_newer; [by apply Hsh|].
      intros old Hold. rewrite Hold in Hok1.
      destruct (ordered_record_dominates _ _ _ _ _ _ _ (lrecord old) Hok1) as (_ & _ & Hw); [by left|done]. }
    rewrite Hsh' by done. simpl. split.
    - rewrite (decode_order_written (with_kind v4 KMeta) ids); try done. simpl. by rewrite Hdv.
    - rewrite writes_blocked_order by done. done. }
  destruct Hview, Hids. split_and!; try done. exists v2. split; [done|]. intros id Hin.
  apply try_for_Ok in Hok4 as [Hall _]. specialize (Hall _ Hin). ok_inv.
  apply andb_false_iff in Hall as [Hl|Hl]; apply negb_false_iff, existsb_elem in Hl as (x & Hx & Heq); breflect.
  - left. by rewrite <-Heq.
  - right. eauto.
Qed.
End Props.
