(* ===== verification/StateCheck.v ===== *)
(** * StateCheck: when a whole state may be stored or used

    [validate_state] of [src-tauri/src/sync/records_v3/state.rs], the check of a pending
    account operation ([validate_pending] of [record_account.rs]) and of the plans inside
    it ([validate_plan] of [record_leave.rs] and [record_rotation.rs]).  Every state is
    checked when it is read and before it is written. *)

From S2P Require Import Prelude Text BTreeMap SlotRules Json SyncRecord RecordsTypes RecordsValidate RecordsState RepositoryCore RecordGroups GroupOrderEdit.

(** What [reqwest::Url] says of a parsed URL. *)
Record Url := mkUrl {
  url_scheme : str; url_host_str : option str; url_query : option str; url_fragment : option str;
  url_username : str; url_password : option str
}.

(** The URL parser, the relay the build was made for, and the derived decoder of the
    account metadata. *)
Class StateEnv := {
  url_parse : str -> option Url;
  SSHELTER_RELAY_URL : option str;
  debug_assertions : bool;
  se_meta :: Serde MetaPayload
}.

Definition PENDING_CODE_PREFIX : str := lit "sync:records-pending:".
Definition SOURCE_CODE_PREFIX : str := lit "sync:records-rotation-source:".
Definition MNEMONIC_ACCOUNT : str := lit "sync:mnemonic".
Definition LOCAL_RELAY_URL : str := lit "http://127.0.0.1:8787".

Definition default_relay_url (injected : option str) (debug : bool) : str :=
  match opt_filter (fun u => negb (u =?= [])) injected with
  | Some u => u
  | None => if debug then LOCAL_RELAY_URL else []
  end.

(** [str::trim_end_matches] with one character. *)
Definition trim_end_char (c : N) (s : str) : str := reverse (drop_while (N.eqb c) (reverse s)).

Definition app_error (reason : string) : AppError := AOther (lit reason).

Section Url.
Context {S : StateEnv}.

Definition DEFAULT_RELAY_URL : str := default_relay_url SSHELTER_RELAY_URL debug_assertions.

(** [RelayClient::validate_url]. *)
Definition validate_url (base_url : str) : result AppError str :=
  let trimmed := trim_end_char 47 (trim base_url) in
  url ← ok_or (url_parse trimmed)
          (app_error "relay URL must be a full URL such as https://relay.example.com");
  let loopback := is_some_and (fun h => (h =?= lit "127.0.0.1") || (h =?= lit "localhost") || (h =?= lit "[::1]"))
                    (url_host_str url) in
  _ ← (if url_scheme url =?= lit "https" then Ok tt
       else if url_scheme url =?= lit "http" then
         guard_err (negb loopback)
           (app_error "relay URL must use https:// (plain http is only allowed for 127.0.0.1 / localhost)")
       else Err (app_error "relay URL must start with https://"));
  _ ← guard_err (is_some (url_query url) || is_some (url_fragment url) || negb (url_username url =?= [])
                 || is_some (url_password url))
        (app_error "relay URL must not contain a query, fragment or credentials");
  Ok trimmed.
End Url.

(** ** The plan for leaving an account *)

Definition live_in (s : SpaceStateV3) : nat :=
  length (List.filter (fun r => negb (rdeleted (lrecord r))) (bt_values (s_records s))).

(** [chars().take(111)] and the new id. *)
Definition remapped_group_name (name id : str) : str := take 111 name ++ lit "-" ++ id.

(** A map from the sources' ids: [collect] into a [BTreeMap], the last entry wins. *)
Definition collect_map (l : list (str * str)) : btree str := foldl (fun m e => bt_insert e.1 e.2 m) [] l.

Definition lp_remap (p : LeavePlan) : btree str :=
  collect_map (map (fun h => (source_host_id (ph_mapping h), local_host_id (ph_mapping h))) (lp_hosts p)).
Definition lp_group_remap (p : LeavePlan) : btree str :=
  collect_map (map (fun g => (source_group_id g, local_group_id g)) (lp_groups p)).

Definition remap_jump (remap : btree str) (j : str) : str := default j (bt_get j remap).

(** A payload with another alias, group and other jumps. *)
Definition remapped_host (p : HostPayload) (alias : str) (group_id : option str) (jump : list str) : HostPayload :=
  mkHost (hp_schema p) group_id (hp_inherit p) alias (hp_hostname p) (hp_port p) (hp_user p) (hp_auth p)
    (hp_key_id p) jump (hp_keepalive_secs p) (hp_keepalive_max_missed p) (hp_connect_timeout_secs p)
    (hp_host_key p) (hp_tags p) (hp_notes p) (hp_imported p).

Definition remapped_group (p : GroupPayload) (name : str) (parent : option str) (jump : option (list str))
  : GroupPayload :=
  let d := gp_defaults p in
  mkGroup (gp_schema p) name parent
    (mkDefaults (gd_port d) (gd_user d) (gd_authentication d) jump (gd_keepalive_secs d)
       (gd_keepalive_max_missed d) (gd_connect_timeout_secs d)).

(** An id that has to be remapped. *)
Definition remap_id {E} (remap : btree str) (missing : E) (id : option str) : result E (option str) :=
  match id with
  | None => Ok None
  | Some i => i' ← ok_or (bt_get i remap) missing; Ok (Some i')
  end.

Section Plans.
Context {R : RecordEnv} {S : StateEnv}.

(** The first loop: one row of a source space. *)
Definition check_source_row (id : str) (e : str * LocalRecord) : result AppError unit :=
  let '(key, row) := e in
  let k := rkind (lrecord row) in
  _ ← guard_err (negb (key =?= record_key k (rid (lrecord row))) || negb ((k =?= KHost) || (k =?= KGroup)))
        (app_error "invalid leave source row");
  if k =?= KGroup
  then _ ← map_err (fun _ => app_error "invalid leave source group") (decode_group (lrecord row) (Space id)); Ok tt
  else _ ← map_err (fun _ => app_error "invalid leave source host") (decode_host (lrecord row) (Space id)); Ok tt.

Definition check_source_space (e : str * SpaceStateV3) : result AppError unit :=
  let '(id, space) := e in
  _ ← guard_err (negb (is_chain_id id) || negb (selected space) || missing space)
        (app_error "invalid leave source space");
  try_for (check_source_row id) (s_records space).

(** The sets [ids] and [sources] of the mappings seen so far. *)
Definition Seen : Type := list str * list (str * str).
Definition seen_new (seen : Seen) (local : str) (source : str * str) : bool :=
  negb (existsb (fun x => x =?= local) seen.1) && negb (existsb (fun x => x =?= source) seen.2).
Definition see (seen : Seen) (local : str) (source : str * str) : Seen := (local :: seen.1, source :: seen.2).

(** A row of a source space. *)
Definition source_row (p : LeavePlan) (space id : str) (k : RecordKind) : option LocalRecord :=
  s ← bt_get space (lp_source_spaces p); bt_get (record_key k id) (s_records s).

Definition live_host (e1 e2 : string) (r : Rec) (scope : HostScope) : result AppError HostRecord :=
  t ← map_err (fun _ => app_error e1) (decode_host r scope);
  match t with Live h => Ok h | Tombstone _ => Err (app_error e2) end.

Definition live_group (e1 e2 : string) (r : Rec) (scope : HostScope) : result AppError GroupRecord :=
  t ← map_err (fun _ => app_error e1) (decode_group r scope);
  match t with Live g => Ok g | Tombstone _ => Err (app_error e2) end.

Definition check_planned_host (p : LeavePlan) (seen : Seen) (h : PlannedHost) : result AppError Seen :=
  let m := ph_mapping h in
  let src := (source_space_id m, source_host_id m) in
  _ ← guard_err (negb (is_host_id (local_host_id m)) || negb (seen_new seen (local_host_id m) src))
        (app_error "invalid leave mapping identity");
  source ← ok_or (opt_filter (fun r => negb (rdeleted (lrecord r)))
                    (source_row p (source_space_id m) (source_host_id m) KHost))
             (app_error "leave mapping has no source");
  local ← live_host "invalid planned local host" "leave plan cannot copy a tombstone" (lrecord (ph_local h)) Local;
  expected ← live_host "invalid leave source host" "leave source is deleted" (lrecord source) Local;
  let e := hr_payload expected in
  _ ← guard_err (negb (hm_alias m =?= hp_alias e)
                 && negb (hm_alias m =?= hp_alias e ++ lit "-" ++ local_host_id m))
        (app_error "leave alias is not a stable source remap");
  group ← remap_id (lp_group_remap p) (app_error "missing preserved group") (hp_group_id e);
  let e := remapped_host e (hm_alias m) group (map (remap_jump (lp_remap p)) (hp_jump e)) in
  _ ← guard_err (negb (hr_payload local =?= e)) (app_error "leave plan does not preserve its source host");
  _ ← guard_err (negb (hr_id local =?= local_host_id m) || negb (hp_alias (hr_payload local) =?= hm_alias m)
                 || negb (lseq (ph_local h) =? 0)%N || ldirty (ph_local h)
                 || negb (rid (lrecord source) =?= source_host_id m))
        (app_error "inconsistent leave mapping");
  Ok (see seen (local_host_id m) src).

Definition check_planned_group (p : LeavePlan) (seen : Seen) (g : PlannedGroup) : result AppError Seen :=
  let src := (pg_source_space_id g, source_group_id g) in
  _ ← guard_err (negb (seen_new seen (local_group_id g) src)) (app_error "duplicate preserved group identity");
  source ← ok_or (source_row p (pg_source_space_id g) (source_group_id g) KGroup)
             (app_error "group source missing");
  expected ← live_group "invalid group source" "deleted group source" (lrecord source) Local;
  local ← live_group "invalid preserved group" "deleted preserved group" (lrecord (pg_local g)) Local;
  let e := gr_payload expected in
  parent ← remap_id (lp_group_remap p) (app_error "missing preserved parent") (gp_parent_id e);
  let name := gp_name (gr_payload local) in
  _ ← guard_err (negb (name =?= gp_name e) && negb (name =?= remapped_group_name (gp_name e) (local_group_id g)))
        (app_error "group name is not a stable remap");
  let e := remapped_group e name parent (map (remap_jump (lp_remap p)) <$> gd_jump (gp_defaults e)) in
  _ ← guard_err (negb (gr_id local =?= local_group_id g) || negb (gr_payload local =?= e)
                 || negb (lseq (pg_local g) =? 0)%N || ldirty (pg_local g))
        (app_error "group preservation mismatch");
  Ok (see seen (local_group_id g) src).

(** [record_leave::validate_plan]. *)
Definition validate_leave_plan (p : LeavePlan) : result AppError unit :=
  _ ← try_for check_source_space (lp_source_spaces p);
  seen ← try_fold (check_planned_host p) ([], []) (lp_hosts p);
  _ ← try_fold (check_planned_group p) seen (lp_groups p);
  _ ← guard_err (existsb (fun id => negb (existsb (fun h => local_host_id (ph_mapping h) =?= id) (lp_hosts p)))
                   (bt_keys (passwords_copied p)))
        (app_error "invalid leave credential receipt");
  guard_err (negb (sum_list (map live_in (bt_values (lp_source_spaces p)))
                   =? length (lp_hosts p) + length (lp_groups p))%nat)
    (app_error "incomplete leave plan").

(** ** A whole state *)

(** What a file of version 3 may not hold. *)
Definition has_schema_three (s : SyncStateV3) : bool :=
  negb (bt_keys (l_groups (local s)) =?= [])
  || existsb (fun r => (rkind (lrecord r) =?= KGroup) || (json_u64 (lit "schema") (rpayload (lrecord r)) =?= Some 3%N))
       (bt_values (l_hosts (local s))
        ++ concat (map (fun sp => bt_values (s_records sp)) (bt_values (spaces s)))).

Definition check_local_group (e : str * LocalRecord) : vresult unit :=
  let '(key, row) := e in
  _ ← validate_cache_key key row; _ ← decode_group (lrecord row) Local; Ok tt.

Definition check_local_key (e : str * LocalKeyMetadata) : vresult unit :=
  let '(id, material) := e in
  _ ← validate_keyslot id (key_public material);
  guard_err (negb (is_slot_id (vault_id material))) (v_invalid "vault_id" id "expected a vault id").

Definition check_import_receipt (e : str * LocalImportReceipt) : vresult unit :=
  let '(id, receipt) := e in
  guard_err (negb (is_slot_id id) || negb (is_chain_id (ir_source_digest receipt))
             || existsb (fun id => negb (is_host_id id)) (host_ids receipt)
             || existsb (fun id => negb (is_slot_id id)) (key_ids receipt))
    (v_invalid "import_receipt" (lit "state") "invalid import receipt identity").

Definition check_space (e : str * SpaceStateV3) : vresult unit :=
  let '(space_id, space) := e in
  _ ← guard_err (negb (is_chain_id space_id)) (v_invalid "space_id" space_id "expected a chain id");
  _ ← state_read_hosts (s_records space) (Space space_id);
  validate_sealed (s_sealed space) false.

(** The migration marker inside the account metadata. *)
Definition check_marker (payload : Json) : vresult unit :=
  match opt_filter (fun v => negb (json_is_null v)) (json_get (lit "migration") payload) with
  | None => Ok tt
  | Some v =>
      gate ← map_err (fun _ => Decode (lit "migration") (lit "migration marker is invalid")) (from_value v);
      validate_migration_gate gate
  end.

Definition check_account_row (e : str * LocalRecord) : vresult unit :=
  let '(key, l) := e in
  let r := lrecord l in
  _ ← validate_cache_key key l;
  match rkind r with
  | KKeySlot => _ ← decode_keyslot r; Ok tt
  | KMeta =>
      if rid r =?= ORDER_RECORD_ID then
        guard_err (is_none (decode_order r)) (v_invalid "group_order" (rid r) "invalid navigation metadata")
      else if (rid r =?= ACCOUNT_META_ID) && negb (rdeleted r) then
        meta ← map_err (fun e => Decode (lit "state") e) (from_value (T := MetaPayload) (rpayload r));
        _ ← validate_account_meta meta;
        check_marker (rpayload r)
      else Ok tt
  | KHost | KGroup => Err (WrongKind (lit "account metadata") (lit "host"))
  | _ => Ok tt
  end.

Definition check_account (a : AccountState) : vresult unit :=
  _ ← guard_err (negb (is_chain_id (chain_id a))) (v_invalid "chain_id" (chain_id a) "expected an account chain id");
  _ ← try_for check_account_row (a_records a);
  validate_sealed (a_sealed a) true.

(** The part of [validate_state] before a pending operation is looked at. *)
Definition check_head (s : SyncStateV3) : vresult unit :=
  _ ← guard_err (negb (supported_version (version s))) (UnsupportedSchema (lit "state") (version s));
  _ ← guard_err (negb (is_slot_id (device_id s))) (v_invalid "device_id" (device_id s) "expected a device id");
  _ ← guard_err (is_none (account s) && negb (bt_keys (spaces s) =?= []))
        (v_invalid "spaces" (lit "state") "spaces require an account");
  _ ← match migration_gate s with
      | Some gate =>
          _ ← guard_err (is_none (account s))
                (v_invalid "migration_gate" (lit "state") "a migration gate requires an account");
          validate_migration_gate gate
      | None => Ok tt
      end;
  guard_err (shared_writes_blocked s && is_none (account s))
    (v_invalid "shared_writes_blocked" (lit "state") "a shared write gate requires an account").

(** The part after it. *)
Definition check_sections (s : SyncStateV3) : vresult unit :=
  _ ← guard_err (negb (valid_ids (group_order (local s)))
                 || negb (group_order (local s) =?= []) && (version s <? NAVIGATION_STATE_VERSION)%N)
        (v_invalid "group_order" (lit "local") "invalid navigation format");
  _ ← state_read_hosts (l_hosts (local s)) Local;
  _ ← try_for check_local_group (l_groups (local s));
  _ ← guard_err ((version s =? STATE_VERSION)%N && has_schema_three s)
        (v_invalid "version" (lit "state") "groups require state version 4");
  _ ← try_for check_local_key (l_keys (local s));
  _ ← try_for check_import_receipt (import_receipts (local s));
  _ ← try_for check_space (spaces s);
  from_option check_account (Ok tt) (account s).

(** [validate_state] of a state without a pending operation. *)
Definition validate_settled (s : SyncStateV3) : vresult unit := _ ← check_head s; check_sections s.

(** ** A pending operation *)

(** [record_rotation::minimal]. *)
Definition minimal (a : AccountState) (sp : btree SpaceStateV3) (device : str) : SyncStateV3 :=
  mkState GROUP_STATE_VERSION device (lit "rotation validation") DEFAULT_RELAY_URL (Some a) sp
    (mkLocalState [] [] [] [] []) None None None false None false None [] None None.

(** Set equality of the keys, as [BTreeSet]s. *)
Definition same_set (a b : list str) : bool :=
  forallb (fun x => existsb (fun y => y =?= x) b) a && forallb (fun x => existsb (fun y => y =?= x) a) b.

Definition has_value (m : btree str) (id : str) : bool := existsb (fun v => v =?= id) (bt_values m).

(** [op.prepared_account.records.values().next().or_else(..)]. *)
Definition first_device (a b : AccountState) : str :=
  match bt_values (a_records a), bt_values (a_records b) with
  | r :: _, _ => rdevice_id (lrecord r)
  | [], r :: _ => rdevice_id (lrecord r)
  | [], [] => lit "00000000000000000000000000000001"
  end.

Definition check_rotation_marker (op : PendingAccountOperation) (p : RecordRotation.RotationPlan)
  : result AppError unit :=
  meta ← ok_or (bt_get (record_key KMeta ACCOUNT_META_ID) (a_records (prepared_account op)))
           (app_error "rotation metadata missing");
  m ← map_err (fun _ => app_error "rotation marker missing")
        (from_value (default JNull (json_get (lit "migration") (rpayload (lrecord meta)))));
  guard_err (negb (gate_id m =?= op_id op) || negb (source_digest m =?= RecordRotation.rotation_digest p)
             || negb (gate_phase m =?= (if RecordRotation.step p =?= RecordRotation.Activating then Active else Publishing)))
    (app_error "rotation marker does not match the durable phase").

(** [record_rotation::validate_plan]. *)
Definition validate_rotation_plan (op : PendingAccountOperation) : result AppError unit :=
  p ← ok_or (op_rotation op) (app_error "rotation plan missing");
  let source := RecordRotation.source_account p in
  let ids := RecordRotation.space_ids p in
  let frozen := RecordRotation.frozen_chains p in
  _ ← guard_err (negb (RecordRotation.source_code_account p =?= SOURCE_CODE_PREFIX ++ op_id op)
                 || (chain_id source =?= chain_id (prepared_account op))
                 || negb (is_chain_id (RecordRotation.rotation_digest p))
                 || existsb (fun '(a, b) => negb (is_chain_id a) || negb (is_chain_id b) || (a =?= b)) ids
                 || negb (bool_decide (NoDup (bt_values ids)))
                 || existsb (fun id => negb (id =?= chain_id (prepared_account op)) && negb (has_value ids id))
                      (bt_keys (RecordRotation.created p))
                 || existsb (fun id => negb (id =?= chain_id source) && negb (bt_contains_key id ids)) (bt_keys frozen))
        (app_error "invalid rotation identity or receipt");
  _ ← (if (RecordRotation.step p =?= RecordRotation.Copying) || (RecordRotation.step p =?= RecordRotation.Activating)
       then
         _ ← guard_err (negb (same_set (bt_keys (RecordRotation.source_spaces p)) (bt_keys ids))
                        || negb (same_set (bt_keys (RecordRotation.target_spaces p)) (bt_values ids))
                        || negb (bs_contains (chain_id source) frozen)
                        || existsb (fun id => negb (bs_contains id frozen)) (bt_keys (RecordRotation.source_spaces p)))
               (app_error "incomplete frozen source or destination plan");
         check_rotation_marker op p
       else Ok tt);
  let device := first_device (prepared_account op) source in
  _ ← map_err (fun _ => app_error "invalid rotation source")
        (validate_settled (minimal source (RecordRotation.source_spaces p) device));
  _ ← map_err (fun _ => app_error "invalid rotation target")
        (validate_settled (minimal (prepared_account op) (RecordRotation.target_spaces p) device));
  guard_err (existsb (fun id => negb (has_value ids id)) (bt_keys (RecordRotation.target_spaces p)))
    (app_error "invalid target space mapping").

Definition invalid_pending : AppError := app_error "invalid pending record account operation".

(** The staged code account, the space and its state, per kind of operation. *)
Definition check_pending_kind (op : PendingAccountOperation) : result AppError unit :=
  let staged := Some (PENDING_CODE_PREFIX ++ op_id op) in
  match op_kind op with
  | CreateAccount | JoinAccount =>
      guard_err (negb (staged_code_account op =?= staged) || is_some (op_space_id op) || is_some (prepared_space op))
        invalid_pending
  | RotateAccount =>
      _ ← guard_err (negb (staged_code_account op =?= staged) || is_some (op_space_id op)
                     || is_some (prepared_space op) || is_some (op_leave op)) invalid_pending;
      validate_rotation_plan op
  | LeaveAccount =>
      _ ← guard_err (is_some (staged_code_account op) || is_some (op_space_id op) || is_some (prepared_space op))
            invalid_pending;
      plan ← ok_or (op_leave op) invalid_pending;
      validate_leave_plan plan
  | CreateSpace =>
      guard_err (is_some (staged_code_account op) || negb (is_some_and is_chain_id (op_space_id op))
                 || is_none (prepared_space op)) invalid_pending
  end.

Definition validate_pending (op : PendingAccountOperation) : result AppError unit :=
  _ ← guard_err (negb (is_slot_id (op_id op)) || negb (trim (op_device_name op) =?= op_device_name op)
                 || (op_device_name op =?= []) || (128 <? str_len (op_device_name op))%nat
                 || negb (is_chain_id (chain_id (prepared_account op))) || is_err (validate_url (op_relay_url op)))
        invalid_pending;
  _ ← from_option (fun m => map_err (fun _ => invalid_pending) (validate_migration_gate m)) (Ok tt)
        (op_migration_gate op);
  _ ← guard_err (negb (op_kind op =?= LeaveAccount) && is_some (op_leave op)) invalid_pending;
  _ ← guard_err (negb (op_kind op =?= RotateAccount) && is_some (op_rotation op)) invalid_pending;
  _ ← check_pending_kind op;
  _ ← try_for (fun '(key, row) => guard_err (is_secret (rkind (lrecord row))
                 || negb (key =?= record_key (rkind (lrecord row)) (rid (lrecord row)))) invalid_pending)
        (a_records (prepared_account op));
  try_for (fun '(key, row) => guard_err (negb (key =?= sealed_key (ekind (senvelope row)) (eid_hash (senvelope row))))
                                invalid_pending)
    (a_sealed (prepared_account op)).

(** The state a pending operation prepares. *)
Definition prepared_state (s : SyncStateV3) (op : PendingAccountOperation) : SyncStateV3 :=
  let sp := match op_space_id op, prepared_space op with
            | Some id, Some space => [(id, space)]
            | _, _ => []
            end in
  mkState (version s) (device_id s) (device_name s) (relay_url s) (Some (prepared_account op)) sp (local s)
    (rotation s) (relay_features s) (legacy_v1_backup s) (phrase_cleanup_pending s) (migration_gate s)
    (shared_writes_blocked s) None (notices s) (last_sync_ms s) (last_error s).

Definition check_pending (s : SyncStateV3) (op : PendingAccountOperation) : vresult unit :=
  _ ← map_err (fun _ => v_invalid "pending_account" (lit "state") "invalid pending account operation")
        (validate_pending op);
  validate_settled (prepared_state s op).

Definition validate_state (s : SyncStateV3) : vresult unit :=
  _ ← check_head s;
  _ ← from_option (check_pending s) (Ok tt) (pending_account s);
  check_sections s.
End Plans.
