(* ===== verification/StateProps.v ===== *)
(** * StateProps: every edit keeps the state well-formed

    A state is written only if [validate_state] accepts it, and read only then.  The
    edits of the repository are sequences of elementary writes, each of which keeps
    the state valid, so that no edit is ever refused when it is saved, and what was
    saved is read again. *)

From stdpp Require Import relations.
From S2P Require Import Prelude Text BTreeMap SlotRules Json SyncRecord RecordsTypes RecordsValidate RecordsValidateProps RecordsState RepositoryCore RecordGroups Repository RepositoryProps SnapshotProps RepositoryLookup KeyProps GroupEdit GroupProps GroupEditProps GroupDelete GroupOrderEdit StateCheck.

(** What serde documents of three derived payloads: a host that was read has the schema
    number of its JSON text, a key slot is written with its schema number, and account
    metadata stays readable when its schema number is replaced. *)
Class PayloadLaws `{RecordEnv} `{StateEnv} := {
  host_schema_read : forall j (p : HostPayload), from_value j = Ok p -> json_u64 (lit "schema") j = Some (hp_schema p);
  keyslot_schema :: SchemaField KeySlotPayload ks_schema;
  meta_schema_written : forall j (m : MetaPayload) n j', (n <= u32_max)%N -> from_value j = Ok m ->
    json_set (lit "schema_version") (JNumber (PosInt n)) j = Some j' ->
    from_value j' = Ok (mkMeta n (created_by_app_version m))
}.

Section Props.
Context {E : RecordEnv} {D : ReviewDigest} {SE : StateEnv} {L : PayloadLaws}.

(** ** The parts of a valid state *)

Definition plain_format (v : N) (r : Rec) : Prop :=
  v = STATE_VERSION -> rkind r <> KGroup /\ json_u64 (lit "schema") (rpayload r) <> Some 3%N.

(** A row that may stand under its key among the hosts of a scope. *)
Definition good_row (v : N) (scope : HostScope) (key : str) (l : LocalRecord) : Prop :=
  validate_cache_key key l = Ok tt
  /\ (if rkind (lrecord l) =?= KGroup then exists t, decode_group (lrecord l) scope = Ok t
      else exists t, decode_host (lrecord l) scope = Ok t)
  /\ plain_format v (lrecord l).

Definition good_group (v : N) (key : str) (l : LocalRecord) : Prop :=
  validate_cache_key key l = Ok tt /\ (exists t, decode_group (lrecord l) Local = Ok t) /\ v <> STATE_VERSION.

Definition good_space (v : N) (e : str * SpaceStateV3) : Prop :=
  is_chain_id e.1 = true /\ (forall key l, (key, l) ∈ s_records e.2 -> good_row v (Space e.1) key l)
  /\ validate_sealed (s_sealed e.2) false = Ok tt.

Record sections_ok (s : SyncStateV3) : Prop := {
  so_order : valid_ids (group_order (local s)) = true;
  so_order_version : group_order (local s) <> [] -> (NAVIGATION_STATE_VERSION <= version s)%N;
  so_hosts : forall key l, (key, l) ∈ l_hosts (local s) -> good_row (version s) Local key l;
  so_groups : forall key l, (key, l) ∈ l_groups (local s) -> good_group (version s) key l;
  so_spaces : forall e, e ∈ spaces s -> good_space (version s) e;
  so_keys : try_for check_local_key (l_keys (local s)) = Ok tt;
  so_receipts : try_for check_import_receipt (import_receipts (local s)) = Ok tt;
  so_account : from_option check_account (Ok tt) (account s) = Ok tt
}.

Lemma read_hosts_rows rows scope :
  state_read_hosts rows scope = Ok tt <->
  forall key l, (key, l) ∈ rows -> validate_cache_key key l = Ok tt
    /\ (if rkind (lrecord l) =?= KGroup then exists t, decode_group (lrecord l) scope = Ok t
        else exists t, decode_host (lrecord l) scope = Ok t).
Proof.
  unfold state_read_hosts. rewrite try_for_Ok. split.
  - intros [H _] key l Hin. specialize (H _ Hin). simpl in H. ok_inv. units. split; [done|].
    destruct (rkind (lrecord l) =?= KGroup); ok_inv; eauto.
  - intros H. split; [|done]. intros [key l] Hin. destruct (H _ _ Hin) as [-> Hd]. cbn [mbind result_bind].
    destruct (rkind (lrecord l) =?= KGroup); destruct Hd as [t ->]; done.
Qed.

Lemma schema_three_free s :
  has_schema_three s = false <->
  l_groups (local s) = []
  /\ (forall key l, (key, l) ∈ l_hosts (local s) ->
        rkind (lrecord l) <> KGroup /\ json_u64 (lit "schema") (rpayload (lrecord l)) <> Some 3%N)
  /\ (forall e key l, e ∈ spaces s -> (key, l) ∈ s_records e.2 ->
        rkind (lrecord l) <> KGroup /\ json_u64 (lit "schema") (rpayload (lrecord l)) <> Some 3%N).
Proof.
  unfold has_schema_three. rewrite orb_false_iff, negb_false_iff, bool_decide_eq_true, existsb_none.
  assert (Hk : bt_keys (l_groups (local s)) = [] <-> l_groups (local s) = [])
    by (unfold bt_keys; by destruct (l_groups (local s))).
  rewrite Hk. apply and_iff_compat_l. split.
  - intros H. split.
    + intros key l Hin. specialize (H l). rewrite orb_false_iff, !bool_decide_eq_false in H. apply H.
      apply elem_of_app. left. by apply (list_elem_of_fmap_2 snd) in Hin.
    + intros e key l He Hin. specialize (H l). rewrite orb_false_iff, !bool_decide_eq_false in H. apply H.
      apply elem_of_app. right. apply list_elem_of_In, in_concat. exists (bt_values (s_records e.2)).
      rewrite <-!list_elem_of_In. split; [|by apply (list_elem_of_fmap_2 snd) in Hin].
      apply (list_elem_of_fmap_2 (fun sp => bt_values (s_records sp)) (bt_values (spaces s)) e.2).
      by apply (list_elem_of_fmap_2 snd).
  - intros [Hh Hs] l [Hl|Hl]%elem_of_app; rewrite orb_false_iff, !bool_decide_eq_false.
    + apply list_elem_of_fmap in Hl as ([key l'] & -> & Hin). by eapply Hh.
    + apply list_elem_of_In, in_concat in Hl as (rows & Hrows & Hl).
      rewrite <-!list_elem_of_In in *. apply list_elem_of_fmap in Hrows as (sp & -> & Hsp).
      apply list_elem_of_fmap in Hsp as ([sid sp'] & -> & Hsp).
      apply list_elem_of_fmap in Hl as ([key l'] & -> & Hin). by eapply Hs.
Qed.

Lemma check_sections_Ok s : check_sections s = Ok tt <-> sections_ok s.
Proof.
  split.
  - unfold check_sections. intros H. ok_inv. units.
    apply orb_false_iff in Hok as [Ho%negb_false_iff Hov].
    assert (Hplain : version s = STATE_VERSION -> has_schema_three s = false).
    { intros Hv. rewrite Hv, N.eqb_refl in Hok2. done. }
    rewrite read_hosts_rows in Hok0. rewrite try_for_Ok in Hok1. rewrite try_for_Ok in Hok5.
    destruct Hok1 as [Hgr _], Hok5 as [Hsp _]. split; try done.
    + intros Hne. rewrite bool_decide_false in Hov by done. simpl in Hov. by apply N.ltb_ge in Hov.
    + intros key l Hin. destruct (Hok0 _ _ Hin) as [Hc Hd]. split_and!; [done|done|].
      intros Hv. destruct (proj1 (schema_three_free s) (Hplain Hv)) as (_ & Hh & _). by eapply Hh.
    + intros key l Hin. specialize (Hgr _ Hin). unfold check_local_group in Hgr. ok_inv. units. split_and!; [done|eauto|].
      intros Hv. destruct (proj1 (schema_three_free s) (Hplain Hv)) as (Hg & _). rewrite Hg in Hin.
      by apply elem_of_nil in Hin.
    + intros [sid sp] Hin. specialize (Hsp _ Hin). unfold check_space in Hsp. ok_inv. units.
      apply negb_false_iff in Hok. rewrite read_hosts_rows in Hok1. split_and!; [done| |done].
      intros key l Hl. destruct (Hok1 _ _ Hl) as [Hc Hd]. split_and!; [done|done|].
      intros Hv. destruct (proj1 (schema_three_free s) (Hplain Hv)) as (_ & _ & Hs). by eapply Hs.
  - intros [Ho Hov Hh Hg Hs Hk Hr Ha]. unfold check_sections. rewrite Ho. cbn [negb orb].
    assert (negb (group_order (local s) =?= []) && (version s <? NAVIGATION_STATE_VERSION)%N = false) as ->.
    { case_bool_decide as Hn; [done|]. simpl. apply N.ltb_ge. by apply Hov. }
    cbn [guard_err mbind result_bind].
    rewrite (proj2 (read_hosts_rows _ _)) by (intros key l Hin; destruct (Hh _ _ Hin) as (? & ? & _); done).
    cbn [mbind result_bind].
    assert (try_for check_local_group (l_groups (local s)) = Ok tt) as ->.
    { apply try_for_Ok. split; [|done]. intros [key l] Hin. destruct (Hg _ _ Hin) as (Hc & [t Ht] & _).
      simpl. by rewrite Hc, Ht. }
    cbn [mbind result_bind].
    assert ((version s =? STATE_VERSION)%N && has_schema_three s = false) as ->.
    { destruct (version s =? STATE_VERSION)%N eqn:Hv; [|done]. apply N.eqb_eq in Hv. simpl.
      apply schema_three_free. split_and!.
      - destruct (l_groups (local s)) as [|[key l] gs]; [done|].
        destruct (Hg key l) as (_ & _ & Hn); [by left|done].
      - intros key l Hin. destruct (Hh _ _ Hin) as (_ & _ & Hp). auto.
      - intros e key l He Hin. destruct (Hs _ He) as (_ & Hrows & _).
        destruct (Hrows _ _ Hin) as (_ & _ & Hp). auto. }
    cbn [guard_err mbind result_bind]. rewrite Hk, Hr. cbn [mbind result_bind].
    assert (try_for check_space (spaces s) = Ok tt) as ->; [|done].
    apply try_for_Ok. split; [|done]. intros [sid sp] Hin.
    destruct (Hs _ Hin) as (Hc & Hrows & Hse). unfold check_space. simpl in *. rewrite Hc. simpl.
    rewrite (proj2 (read_hosts_rows _ _)); [done|].
    intros key l Hl. destruct (Hrows _ _ Hl) as (? & ? & _). done.
Qed.

(** The head of a state, its sections, and the state a pending operation prepares. *)
Lemma validate_state_Ok s :
  validate_state s = Ok tt <->
  check_head s = Ok tt /\ sections_ok s
  /\ forall op, pending_account s = Some op ->
       validate_pending op = Ok tt /\ check_head (prepared_state s op) = Ok tt
       /\ sections_ok (prepared_state s op).
Proof.
  unfold validate_state. split.
  - intros H. ok_inv. units. split_and!; [done|by apply check_sections_Ok|]. intros op Hop.
    rewrite Hop in Hok0. simpl in Hok0. unfold check_pending, validate_settled in Hok0. ok_inv. units.
    split_and!; [done|done|by apply check_sections_Ok].
  - intros (Hh & Hs%check_sections_Ok & Hp). rewrite Hh. cbn [mbind result_bind].
    destruct (pending_account s) as [op|]; [|done]. destruct (Hp _ eq_refl) as (Hv & H1 & H2%check_sections_Ok).
    simpl. unfold check_pending, validate_settled. rewrite Hv. cbn [map_err mbind result_bind].
    rewrite H1. cbn [mbind result_bind]. by rewrite H2.
Qed.

(** ** Elementary writes *)

Definition META_KEY : str := record_key KMeta ACCOUNT_META_ID.

(** The metadata of the account is not a tombstone: nothing buries it. *)
Definition meta_live (s : SyncStateV3) : Prop :=
  forall l, account_meta_row s = Some l -> rdeleted (lrecord l) = false.

Definition library_valid (s : SyncStateV3) : Prop := validate_state s = Ok tt /\ meta_live s.

Inductive write : SyncStateV3 -> SyncStateV3 -> Prop :=
| w_host s scope key row :
    good_row (version s) scope key row -> write s (insert_host s scope key row)
| w_group s key row :
    good_group (version s) key row -> write s (insert_group s Local key row)
| w_account s a key row :
    account s = Some a -> check_account_row (key, row) = Ok tt ->
    (key = META_KEY -> rdeleted (lrecord row) = false) ->
    write s (set_account s (Some (set_a_records a (bt_insert key row (a_records a)))))
| w_version s v :
    (version s <= v)%N -> supported_version v = true -> write s (set_version s v)
| w_keys s keys :
    try_for check_local_key keys = Ok tt -> write s (set_local s (set_l_keys (local s) keys))
| w_order s ids :
    valid_ids ids = true -> (NAVIGATION_STATE_VERSION <= version s)%N ->
    write s (set_local s (set_l_order (local s) ids)).

Definition writes := rtc write.

Lemma writes_once s s' : write s s' -> writes s s'.
Proof. apply rtc_once. Qed.

Lemma plain_raised v v' r : (v <= v')%N -> supported_version v = true -> plain_format v r -> plain_format v' r.
Proof.
  unfold plain_format, supported_version, STATE_VERSION, GROUP_STATE_VERSION, NAVIGATION_STATE_VERSION.
  intros Hle Hs Hp ->. breflect. apply Hp. rewrite !orb_true_iff, !N.eqb_eq in Hs. lia.
Qed.

Lemma good_row_raised v v' scope key l :
  (v <= v')%N -> supported_version v = true -> good_row v scope key l -> good_row v' scope key l.
Proof. intros Hle Hs (Hc & Hd & Hp). split_and!; [done|done|by eapply plain_raised]. Qed.

Lemma supported_not_less v v' : (v <= v')%N -> supported_version v = true -> v <> STATE_VERSION -> v' <> STATE_VERSION.
Proof.
  unfold supported_version, STATE_VERSION, GROUP_STATE_VERSION, NAVIGATION_STATE_VERSION.
  rewrite !orb_true_iff, !N.eqb_eq. lia.
Qed.

(** A row written into a space keeps the space good. *)
Lemma good_spaces_update v sid key row (sps : btree SpaceStateV3) :
  (forall e, e ∈ sps -> good_space v e) -> good_row v (Space sid) key row ->
  forall e, e ∈ bt_update sid (fun sp => set_s_records sp (bt_insert key row (s_records sp))) sps -> good_space v e.
Proof.
  intros Hs Hrow e [He|(sp & Hin & ->)]%bt_update_elem; [by apply Hs|].
  destruct (Hs _ Hin) as (Hc & Hrows & Hse). split_and!; [done| |done].
  intros k l [[= -> ->]|Hl]%bt_elem_insert; [done|by apply Hrows].
Qed.

Lemma check_account_insert a key row :
  check_account a = Ok tt -> check_account_row (key, row) = Ok tt ->
  check_account (set_a_records a (bt_insert key row (a_records a))) = Ok tt.
Proof.
  unfold check_account. intros H Hrow. ok_inv. units. simpl. rewrite Hok. simpl.
  rewrite try_for_Ok in Hok0. destruct Hok0 as [Hall _].
  assert (try_for check_account_row (bt_insert key row (a_records a)) = Ok tt) as ->; [|done].
  apply try_for_Ok. split; [|done]. intros e [->|He]%bt_elem_insert; [done|by apply Hall].
Qed.

Lemma write_sections s s' : write s s' -> supported_version (version s) = true -> sections_ok s -> sections_ok s'.
Proof.
  intros Hw Hsv [Ho Hov Hh Hg Hs Hk Hr Ha]. destruct Hw as [s scope key row Hrow|s key row Hrow|s a key row Hacc Hrow _|s v Hle Hv|s keys Hkeys|s ids Hids Hv].
  - destruct scope as [|sid]; split; try done; simpl.
    + intros k l [[= -> ->]|Hin]%bt_elem_insert; auto.
    + by apply good_spaces_update.
  - split; try done; simpl. intros k l [[= -> ->]|Hin]%bt_elem_insert; auto.
  - split; try done; simpl. rewrite Hacc in Ha. by apply check_account_insert.
  - split; try done; simpl.
    + intros Hne. specialize (Hov Hne). lia.
    + intros k l Hin. eapply good_row_raised; [done|done|by apply Hh].
    + intros k l Hin. destruct (Hg _ _ Hin) as (? & ? & Hn). split_and!; [done|done|by eapply supported_not_less].
    + intros e He. destruct (Hs _ He) as (? & Hrows & ?). split_and!; [done| |done].
      intros k l Hin. eapply good_row_raised; [done|done|by apply Hrows].
  - by split.
  - by split.
Qed.

Lemma write_head s s' : write s s' -> check_head s = Ok tt -> check_head s' = Ok tt.
Proof.
  intros [s0 scope key row _|s0 key row _|s0 a key row Ha _ _|s0 v _ Hv|s0 keys _|s0 ids _ _]; unfold check_head; try done.
  - destruct scope as [|sid]; [done|]. simpl. rewrite bt_keys_update. done.
  - simpl. rewrite Ha. done.
  - simpl. rewrite Hv. intros H. ok_inv. units. rewrite Hok0. simpl.
    match goal with H : is_none _ && _ = false |- _ => rewrite H end. simpl.
    match goal with H : match migration_gate _ with _ => _ end = _ |- _ => rewrite H end. simpl.
    by match goal with H : shared_writes_blocked _ && _ = false |- _ => rewrite H end.
Qed.

Lemma head_supported s : check_head s = Ok tt -> supported_version (version s) = true.
Proof. unfold check_head. intros H. ok_inv. by breflect. Qed.

(** A write commutes with the state a pending operation prepares, or does not reach it. *)
Lemma write_prepared s s' op :
  write s s' -> write (prepared_state s op) (prepared_state s' op) \/ prepared_state s' op = prepared_state s op.
Proof.
  intros [s0 scope key row Hrow|s0 key row Hrow|s0 a key row Ha _ _|s0 v Hle Hv|s0 keys Hk|s0 ids Hi Hv]; try by right.
  - destruct scope as [|sid]; [|by right]. left. by apply (w_host (prepared_state s0 op) Local).
  - left. by apply (w_group (prepared_state s0 op)).
  - left. by apply (w_version (prepared_state s0 op)).
  - left. by apply (w_keys (prepared_state s0 op)).
  - left. by apply (w_order (prepared_state s0 op)).
Qed.

Lemma write_pending s s' : write s s' -> pending_account s' = pending_account s.
Proof. by intros []; try destruct scope. Qed.

Lemma write_live s s' : write s s' -> meta_live s -> meta_live s'.
Proof.
  unfold meta_live, account_meta_row.
  intros [s0 scope key row _|s0 key row _|s0 a key row Ha _ Hl|s0 v _ _|s0 keys _|s0 ids _ _]; try done.
  - by destruct scope.
  - rewrite Ha. simpl. intros H l. rewrite bt_get_insert. case_decide as Hk; [|apply H].
    intros [= <-]. by apply Hl.
Qed.

Lemma write_valid s s' : write s s' -> library_valid s -> library_valid s'.
Proof.
  intros Hw [(Hh & Hs & Hp)%validate_state_Ok Hl]. split; [|by eapply write_live].
  pose proof (head_supported _ Hh) as Hsv. apply validate_state_Ok.
  split_and!; [by eapply write_head|by eapply write_sections|].
  rewrite (write_pending _ _ Hw). intros op Hop. destruct (Hp _ Hop) as (Hv & Hh2 & Hs2). split; [done|].
  destruct (write_prepared _ _ op Hw) as [Hw2| ->]; [|done].
  split; [by eapply write_head|]. eapply write_sections; [done| |done]. by apply head_supported.
Qed.

Lemma writes_valid s s' : writes s s' -> library_valid s -> library_valid s'.
Proof. induction 1 as [|s s1 s2 Hw _ IH]; [done|]. intros H. by apply IH, (write_valid s). Qed.

(** ** Good rows *)

Lemma cache_key_ok k id r seq d :
  rkind r = k -> rid r = id -> is_secret k = false -> validate_cache_key (record_key k id) (mkLocal r seq d) = Ok tt.
Proof. intros <- <- Hs. unfold validate_cache_key. simpl. by rewrite Hs, bool_decide_true by done. Qed.

Lemma shape_id id scope p u : validate_host_shape (mkHostRecord id scope p) = Ok u -> is_host_id id = true.
Proof. unfold validate_host_shape. cbv zeta. simpl. intros H. ok_inv. by breflect. Qed.

Lemma shape_host_id h u : validate_host_shape h = Ok u -> is_host_id (hr_id h) = true.
Proof. destruct h. apply shape_id. Qed.

Lemma good_live v scope id r p seq d :
  rkind r = KHost -> rid r = id -> rpayload r = to_value p ->
  validate_host_shape (mkHostRecord id scope p) = Ok tt -> (v = STATE_VERSION -> hp_schema p <> 3%N) ->
  good_row v scope (record_key KHost id) (mkLocal r seq d).
Proof.
  intros Hk <- Hp Hv Hplain. split_and!; [by apply cache_key_ok| |].
  - simpl. rewrite Hk, bool_decide_false by done. destruct (rdeleted r) eqn:Hd.
    + unfold decode_host. rewrite Hk, Hd, (shape_id _ _ _ _ Hv), bool_decide_true by done. simpl. eauto.
    + eexists. by apply decode_host_encoded.
  - intros Hver. simpl. rewrite Hk, Hp. unfold json_u64. rewrite schema_member. simpl.
    split; [done|]. intros [= Heq]. by apply Hplain.
Qed.

Lemma good_dead v scope id r seq d :
  rkind r = KHost -> rid r = id -> rpayload r = JNull -> rdeleted r = true -> is_host_id id = true ->
  good_row v scope (record_key KHost id) (mkLocal r seq d).
Proof.
  intros Hk <- Hp Hd Hid. split_and!; [by apply cache_key_ok| |].
  - simpl. rewrite Hk, bool_decide_false by done.
    unfold decode_host. rewrite Hk, Hd, Hid, bool_decide_true by done. simpl. eauto.
  - intros _. simpl. rewrite Hk, Hp. done.
Qed.

Lemma decoded_group_row scope id r p :
  rkind r = KGroup -> rid r = id -> rpayload r = to_value p ->
  validate_group (mkGroupRecord id scope p) = Ok tt -> exists t, decode_group r scope = Ok t.
Proof.
  intros Hk <- Hp Hv. destruct (rdeleted r) eqn:Hd; [|eexists; by apply decode_group_encoded].
  unfold decode_group. rewrite Hk, Hd, bool_decide_true by done. simpl.
  unfold validate_group in Hv. cbv zeta in Hv. ok_inv. simpl in *.
  match goal with H : negb (is_host_id _) || _ = false |- _ => apply orb_false_iff in H as [Hid%negb_false_iff _] end.
  rewrite Hid. simpl. eauto.
Qed.

(** A group row of a scope, written. *)
Lemma write_group_row s scope id r seq d :
  rkind r = KGroup -> rid r = id -> (exists t, decode_group r scope = Ok t) -> version s <> STATE_VERSION ->
  write s (insert_group s scope (record_key KGroup id) (mkLocal r seq d)).
Proof.
  intros Hk Hid Hd Hv. destruct scope as [|sid].
  - apply w_group. split_and!; [by apply cache_key_ok|done|done].
  - apply (w_host s (Space sid)). split_and!; [by apply cache_key_ok| |done].
    simpl. by rewrite Hk, bool_decide_true by done.
Qed.

(** ** What the rows of a valid state tell *)

Lemma good_row_key v scope k id l :
  good_row v scope (record_key k id) l -> rkind (lrecord l) = k /\ rid (lrecord l) = id.
Proof.
  intros (Hc & _). unfold validate_cache_key in Hc. ok_inv. breflect.
  match goal with H : record_key _ _ = record_key _ _ |- _ => apply record_key_inj in H as [-> ->] end. done.
Qed.

Lemma host_records_good s scope rows key l :
  sections_ok s -> host_records s scope = Ok rows -> (key, l) ∈ rows -> good_row (version s) scope key l.
Proof.
  intros Hs. unfold host_records. destruct scope as [|sid].
  - intros [= <-]. by apply so_hosts.
  - intros H. ok_inv. destruct (bt_get sid (spaces s)) as [sp|] eqn:Hsp; [|done]. simpl in H. injection H as <-.
    apply bt_get_elem in Hsp. apply (so_spaces _ Hs) in Hsp as (_ & Hrows & _). auto.
Qed.

Lemma visible_good s scope rows key l :
  sections_ok s -> visible_rows s scope rows -> (key, l) ∈ rows -> good_row (version s) scope key l.
Proof.
  intros Hs. unfold visible_rows. destruct scope as [|sid].
  - intros ->. by apply so_hosts.
  - intros (sp & Hsp & _ & _ & ->). apply (so_spaces _ Hs) in Hsp as (_ & Hrows & _). auto.
Qed.

Lemma listed_good s hosts v :
  sections_ok s -> list_hosts s = Ok hosts -> v ∈ hosts ->
  validate_host_shape (v_host v) = Ok tt
  /\ (version s = STATE_VERSION -> hp_schema (hr_payload (v_host v)) <> 3%N).
Proof.
  intros Hs Hl Hv. destruct (listed_from_row _ _ _ Hl Hv) as (rows & l & Hvis & Hrow & Hd & _).
  destruct (decode_host_Live _ _ _ Hd) as (_ & _ & _ & _ & Hshape & Hp). split; [done|].
  intros Hver. destruct (visible_good _ _ _ _ _ Hs Hvis Hrow) as (_ & _ & Hplain).
  destruct (Hplain Hver) as [_ Hn]. intros H3. apply Hn. rewrite (host_schema_read _ _ Hp). by rewrite H3.
Qed.

Lemma got_good s id v :
  sections_ok s -> get_host s id = Ok v ->
  hr_id (v_host v) = id /\ validate_host_shape (v_host v) = Ok tt
  /\ (version s = STATE_VERSION -> hp_schema (hr_payload (v_host v)) <> 3%N).
Proof.
  intros Hs (hosts & Hl & Hv & Hid & _)%get_host_listed. split; [done|]. by eapply listed_good.
Qed.

Lemma grouped_version s scope rows id l :
  sections_ok s -> group_records s scope = Ok rows -> bt_get (record_key KGroup id) rows = Some l ->
  version s <> STATE_VERSION.
Proof.
  intros Hs Hr Hl%bt_get_elem Hv. unfold group_records in Hr. destruct scope as [|sid].
  - injection Hr as <-. by destruct (so_groups _ Hs _ _ Hl) as (_ & _ & Hn).
  - ok_inv. destruct (bt_get sid (spaces s)) as [sp|] eqn:Hsp; [|done]. simpl in Hr.
    destruct (_ && _); [|done]. simpl in Hr. injection Hr as <-. apply bt_get_elem in Hsp.
    apply (so_spaces _ Hs) in Hsp as (_ & Hrows & _). specialize (Hrows _ _ Hl).
    destruct (good_row_key _ _ _ _ _ Hrows) as [Hk _]. destruct Hrows as (_ & _ & Hp). by destruct (Hp Hv).
Qed.

(** The branch an accepted edit took. *)
Ltac branch H := match type of H with (if ?b then _ else _) = _ => destruct b end; ok_inv.

(** ** Edits of hosts *)

Lemma format_plain s p scope u :
  require_host_format s p scope = Ok u -> version s = STATE_VERSION -> hp_schema p <> 3%N.
Proof.
  unfold require_host_format. intros H Hv H3. rewrite H3 in H. simpl in H. rewrite Hv in H. simpl in H. by ok_inv.
Qed.

Lemma create_host_writes s id scope payload now s' :
  create_host s id scope payload now = Ok s' -> writes s s' /\ version s' = version s.
Proof.
  unfold create_host. cbv zeta. intros H. ok_inv. put_inv. units. apply lift_Ok, validate_host_jumps in Hok2 as [Hshape _].
  match goal with H : ordered_record _ _ _ _ _ _ = Ok _ |- _ =>
    destruct (ordered_record_fields _ _ _ _ _ _ _ H) as (Hk & Hid & _ & Hp & _) end.
  split; [|by destruct scope]. apply writes_once, w_host. eapply good_live; [done|done|done|done|].
  by eapply (format_plain s payload).
Qed.

Lemma store_host_row s v id p d now s' :
  store_host s v id p d now = Ok s' ->
  exists r seq, s' = insert_host s (hr_scope (v_host v)) (record_key KHost id) (cached r seq (hr_scope (v_host v)))
    /\ rkind r = KHost /\ rid r = id /\ rdeleted r = d /\ rpayload r = p.
Proof.
  unfold store_host. cbv zeta. intros H. ok_inv. put_inv. units.
  match goal with H : ordered_record _ _ _ _ _ _ = Ok _ |- _ =>
    destruct (ordered_record_fields _ _ _ _ _ _ _ H) as (Hk & Hid & Hd & Hp & _) end.
  eexists _, _. done.
Qed.

(** Storing a valid payload is one write. *)
Lemma store_host_writes s v id p now s' :
  store_host s v id (to_value p) false now = Ok s' -> hr_id (v_host v) = id ->
  validate_host_shape (with_payload (v_host v) p) = Ok tt -> (version s = STATE_VERSION -> hp_schema p <> 3%N) ->
  writes s s' /\ version s' = version s.
Proof.
  intros (r & seq & -> & Hk & Hid & _ & Hp)%store_host_row Hv Hshape Hplain. split; [|by destruct (hr_scope _)].
  unfold with_payload in Hshape. rewrite Hv in Hshape.
  apply writes_once, w_host. by eapply good_live.
Qed.

Lemma update_host_writes s id expected payload now s' :
  update_host s id expected payload now = Ok s' -> writes s s' /\ version s' = version s.
Proof.
  unfold update_host. cbv zeta. intros H. ok_inv. units. apply lift_Ok, validate_host_jumps in Hok2 as [Hshape _].
  destruct (checked_host_Ok _ _ _ _ Hok) as (Hg & _). destruct (get_host_listed _ _ _ Hg) as (_ & _ & _ & Hid & _).
  eapply store_host_writes; [exact H|done|done|]. by eapply (format_plain s payload).
Qed.

Lemma delete_host_writes s id expected now s' :
  sections_ok s -> delete_host s id expected now = Ok s' -> writes s s'.
Proof.
  intros Hs. unfold delete_host. intros H. ok_inv. destruct (checked_host_Ok _ _ _ _ Hok) as (Hg & _).
  destruct (got_good _ _ _ Hs Hg) as (Hid & Hshape & _).
  destruct (store_host_row _ _ _ _ _ _ _ H) as (r & seq & -> & Hk & Hrid & Hd & Hp).
  apply writes_once, w_host. apply good_dead; try done. rewrite <-Hid.
  by eapply shape_host_id.
Qed.

(** Dropping or replacing the pin keeps the shape. *)
Lemma shape_without_pin h u :
  validate_host_shape h = Ok u -> validate_host_shape (with_payload h (with_host_key (hr_payload h) None)) = Ok tt.
Proof.
  unfold validate_host_shape, with_payload, with_host_key. cbv zeta. simpl. intros H.
  repeat (apply bind_Ok in H as (? & Hx & H); rewrite Hx; clear Hx; cbn [mbind result_bind]). done.
Qed.

Lemma forget_host_key_writes s id expected endpoint pin now s' :
  sections_ok s -> forget_host_key s id expected endpoint pin now = Ok s' -> writes s s'.
Proof.
  intros Hs. unfold forget_host_key. intros H. ok_inv. destruct (checked_host_Ok _ _ _ _ Hok) as (Hg & _).
  destruct (got_good _ _ _ Hs Hg) as (Hid & Hshape & Hplain).
  eapply store_host_writes; [exact H|done|by eapply shape_without_pin|done].
Qed.

Lemma pin_host_key_writes s id endpoint previous candidate now s' :
  sections_ok s -> pin_host_key s id endpoint previous candidate now = Ok s' -> writes s s'.
Proof.
  intros Hs. unfold pin_host_key. cbv zeta. intros H. ok_inv.
  destruct (got_good _ _ _ Hs Hok) as (Hid & _ & Hplain).
  destruct (is_some_and _ _); ok_inv; [apply rtc_refl|]. units. apply lift_Ok, validate_host_jumps in Hok4 as [Hshape _].
  eapply store_host_writes; [exact H|done|done|done].
Qed.

(** The settings of a host that stands on its own, in another scope. *)
Lemma materialized_shape id scope dest p u :
  validate_host_shape (mkHostRecord id scope p) = Ok u ->
  check_scope dest (v_invalid "space_id" id "expected a valid chain id") = Ok tt ->
  validate_host_shape (mkHostRecord id dest (materialize p)) = Ok tt.
Proof.
  unfold validate_host_shape, materialize. cbv zeta. simpl. intros H Hd.
  do 3 apply bind_Ok in H as (? & _ & H).
  apply bind_Ok in H as (? & Hx & H). rewrite Hx. clear Hx. cbn [mbind result_bind].
  apply bind_Ok in H as (? & _ & H). rewrite Hd. cbn [mbind result_bind]. units.
  repeat (apply bind_Ok in H as (? & Hx & H); rewrite Hx; clear Hx; cbn [mbind result_bind]).
  done.
Qed.

Lemma scope_chain s scope u e : sections_ok s -> ensure_scope s scope = Ok u -> check_scope scope e = Ok tt.
Proof.
  intros Hs. unfold ensure_scope, check_scope. destruct scope as [|sid]; [done|]. intros H. ok_inv.
  match goal with H : bt_get sid (spaces s) = Some _ |- _ => apply bt_get_elem in H;
    apply (so_spaces _ Hs) in H as (Hc & _) end.
  simpl in Hc. by rewrite Hc.
Qed.

Lemma move_host_writes s id expected dest now s' :
  sections_ok s -> Repository.move_host s id expected dest now = Ok s' -> writes s s'.
Proof.
  intros Hs. unfold Repository.move_host. cbv zeta. intros H. ok_inv. units.
  destruct (checked_host_Ok _ _ _ _ Hok) as (Hg & _). destruct (got_good _ _ _ Hs Hg) as (Hid & Hshape & _).
  destruct (bool_decide (hr_scope (v_host v) = dest)); ok_inv; [apply rtc_refl|]. put_inv. units.
  match goal with H : ordered_record _ _ _ _ _ _ = Ok _ |- _ =>
    destruct (ordered_record_fields _ _ _ _ _ _ _ H) as (Hk & Hrid & Hdel & Hp & _) end.
  match goal with H : resolve_effective _ _ = Ok _ |- _ => unfold resolve_effective in H; ok_inv end.
  match goal with H : (let '(_, _) := ?x in _) = Ok _ |- _ => destruct x as [p from]; ok_inv end. units.
  match goal with H : lift (validate_host _) = Ok _ |- _ => apply lift_Ok, validate_host_jumps in H as [Hs2 _] end.
  unfold with_payload in Hs2. simpl in Hp.
  eapply rtc_l; [|apply writes_once, w_host]; [apply w_host|].
  - apply good_dead; try done. by eapply shape_host_id.
  - eapply good_live; [done|done|exact Hp| |done].
    eapply materialized_shape; [done|]. by eapply scope_chain.
Qed.

(** ** Renaming a key *)

Lemma keyslot_row_ok id r seq d p :
  rkind r = KKeySlot -> rid r = id -> rpayload r = to_value p -> validate_keyslot id p = Ok tt ->
  check_account_row (record_key KKeySlot id, mkLocal r seq d) = Ok tt.
Proof.
  intros Hk <- Hp Hv. unfold check_account_row. cbn [lrecord].
  rewrite (cache_key_ok KKeySlot (rid r)) by done. cbn [mbind result_bind]. rewrite Hk. unfold decode_keyslot.
  assert (Hv' := Hv). unfold validate_keyslot, check_schema in Hv'. ok_inv. breflect.
  rewrite Hk, Hok0, bool_decide_true by done. cbn [negb guard_err mbind result_bind].
  destruct (rdeleted r); [done|]. unfold payload_schema, json_u64, check_schema.
  rewrite Hp, schema_member, from_to_value. simpl. rewrite Hok. simpl. by rewrite Hv.
Qed.

Lemma keyslot_renamed id k name :
  (trim name =?= []) || existsb is_control name = false -> validate_keyslot id k = Ok tt ->
  validate_keyslot id (with_name k name) = Ok tt.
Proof.
  unfold validate_keyslot, with_name. simpl. intros -> H.
  do 2 (apply bind_Ok in H as (? & Hx & H); rewrite Hx; clear Hx; cbn [mbind result_bind]).
  apply bind_Ok in H as (? & _ & H). simpl.
  repeat (apply bind_Ok in H as (? & Hx & H); rewrite Hx; clear Hx; cbn [mbind result_bind]). done.
Qed.

Lemma renamed_name id k name : validate_keyslot id (with_name k name) = Ok tt ->
  (trim name =?= []) || existsb is_control name = false.
Proof. unfold validate_keyslot, with_name. simpl. intros H. by ok_inv. Qed.

Lemma local_keys_renamed id name (keys : btree LocalKeyMetadata) :
  (trim name =?= []) || existsb is_control name = false -> try_for check_local_key keys = Ok tt ->
  try_for check_local_key (bt_update id (fun m => mkLocalKey (vault_id m) (with_name (key_public m) name)) keys) = Ok tt.
Proof.
  rewrite !try_for_Ok. intros Hn [H _]. split; [|done].
  intros e [He|(m & Hm & ->)]%bt_update_elem; [by apply H|]. specialize (H _ Hm). unfold check_local_key in *.
  ok_inv. units. simpl. rewrite (keyslot_renamed id) by done. by rewrite H.
Qed.

Lemma rename_key_writes s id expected name now s' :
  sections_ok s -> rename_key s id expected name now = Ok s' -> writes s s'.
Proof.
  intros Hs. unfold rename_key. cbv zeta. intros H. ok_inv.
  destruct (bool_decide (ks_name expected = trim name)); ok_inv; [apply rtc_refl|]. units.
  match goal with H : lift (validate_keyslot _ _) = Ok _ |- _ => apply lift_Ok in H; rename H into Hv end.
  match goal with H : (if _ then _ else Ok s) = Ok ?x |- _ => rename H into Hn; rename x into next end.
  pose proof (renamed_name _ _ _ Hv) as Hname.
  assert (Hw : writes s next /\ local next = local s).
  { branch Hn; [|split; [apply rtc_refl|done]].
    match goal with H : ordered_record _ _ _ _ _ _ = Ok _ |- _ =>
      destruct (ordered_record_fields _ _ _ _ _ _ _ H) as (_ & Hrid & _ & Hp & _) end.
    split; [|done]. apply writes_once, w_account; [done|by eapply keyslot_row_ok|].
    intros [Hk _]%record_key_inj. done. }
  destruct Hw as [Hw Hl]. eapply rtc_r; [exact Hw|]. apply w_keys. rewrite Hl.
  apply local_keys_renamed; [done|]. apply (so_keys _ Hs).
Qed.

(** ** Promotion *)

Lemma marker_kept payload payload' :
  json_set (lit "schema_version") (JNumber (PosInt 4)) payload = Some payload' ->
  check_marker payload = Ok tt -> check_marker payload' = Ok tt.
Proof.
  unfold check_marker, json_set. destruct payload as [| | | | |m]; intros [= <-]; [done|]. simpl.
  by rewrite bt_get_insert_ne by (intros Heq; vm_compute in Heq; discriminate Heq).
Qed.

(** Reading an account row under its key. *)
Lemma account_row_ok s a key l :
  sections_ok s -> account s = Some a -> bt_get key (a_records a) = Some l -> check_account_row (key, l) = Ok tt.
Proof.
  intros Hs Ha Hl%bt_get_elem. pose proof (so_account _ Hs) as Hc. rewrite Ha in Hc. simpl in Hc.
  unfold check_account in Hc. ok_inv. rewrite try_for_Ok in Hok0. by apply Hok0.
Qed.

Lemma account_key_row key l k id :
  check_account_row (key, l) = Ok tt -> key = record_key k id -> rkind (lrecord l) = k /\ rid (lrecord l) = id.
Proof.
  unfold check_account_row. intros H ->. ok_inv. clear H. unfold validate_cache_key in Hok. ok_inv. breflect.
  by match goal with H : record_key _ _ = record_key _ _ |- _ => apply record_key_inj in H as [-> ->] end.
Qed.

Lemma meta_row_Ok l :
  rkind (lrecord l) = KMeta -> rid (lrecord l) = ACCOUNT_META_ID -> rdeleted (lrecord l) = false ->
  check_account_row (META_KEY, l) = Ok tt <->
  exists m, from_value (T := MetaPayload) (rpayload (lrecord l)) = Ok m /\ validate_account_meta m = Ok tt
    /\ check_marker (rpayload (lrecord l)) = Ok tt.
Proof.
  intros Hk Hid Hd. destruct l as [r seq d]. simpl in *. unfold check_account_row, META_KEY. cbn [lrecord].
  rewrite (cache_key_ok KMeta ACCOUNT_META_ID) by done. cbn [mbind result_bind]. rewrite Hk, Hid, Hd.
  change (bool_decide (ACCOUNT_META_ID = ORDER_RECORD_ID)) with false. rewrite bool_decide_true by done. simpl. split.
  - intros H. ok_inv. units. eauto.
  - intros (m & -> & Hv & Hm). simpl. by rewrite Hv.
Qed.

Lemma promote_account_writes s now s' :
  sections_ok s -> meta_live s -> promote_account s now = Ok s' -> writes s s'.
Proof.
  intros Hs Hlive. unfold promote_account. cbv zeta. intros H. ok_inv.
  rename v into old. pose proof (Hlive _ Hok) as Hd. unfold account_meta_row in Hok. rewrite Hok2 in Hok.
  pose proof (account_row_ok _ _ _ _ Hs Hok2 Hok) as Hrow.
  destruct (account_key_row _ _ _ _ Hrow eq_refl) as [Hk Hid].
  destruct (ordered_record_fields _ _ _ _ _ _ _ Hok1) as (_ & Hrid & Hdel & Hp & _).
  apply writes_once, w_account; [done| |done].
  apply meta_row_Ok in Hrow as (m & Hm & _ & Hmark); [|done..].
  apply meta_row_Ok; [done..|]. cbn [lrecord with_kind rpayload]. rewrite Hp.
  eexists. split_and!; [by eapply (meta_schema_written _ _ 4)|done|by eapply marker_kept].
Qed.

Lemma raised_version s v :
  supported_version (version s) = true -> supported_version v = true -> write s (set_version s (N.max (version s) v)).
Proof.
  intros H1 H2. apply w_version; [lia|]. by destruct (N.max_spec (version s) v) as [[_ ->]|[_ ->]].
Qed.

Lemma promote_writes s scope confirmed now s' :
  library_valid s -> promote s scope confirmed now = Ok s' -> writes s s'.
Proof.
  intros Hv. unfold promote. cbv zeta. intros H. ok_inv.
  assert (Hw : write s (set_version s (N.max (version s) GROUP_STATE_VERSION))).
  { apply raised_version; [|done]. destruct Hv as [(Hh & _)%validate_state_Ok _]. by apply head_supported. }
  eapply rtc_l; [exact Hw|]. branch H; [|apply rtc_refl].
  apply (write_valid _ _ Hw) in Hv as [(_ & Hs & _)%validate_state_Ok Hl]. by eapply promote_account_writes.
Qed.

Lemma promote_for_host_writes s scope payload confirmed now s' :
  library_valid s -> promote_for_host s scope payload confirmed now = Ok s' -> writes s s'.
Proof.
  intros Hv. unfold promote_for_host. intros H. branch H; [|apply rtc_refl].
  by eapply promote_writes.
Qed.

(** ** Groups *)

Lemma writes_sections s s' : library_valid s -> writes s s' -> sections_ok s'.
Proof. intros Hv Hw. apply (writes_valid _ _ Hw) in Hv as [(_ & Hs & _)%validate_state_Ok _]. done. Qed.

(** The row of a valid state's host, as [previous_row] finds it. *)
Lemma previous_good s scope id prev :
  sections_ok s -> previous_row s scope (record_key KHost id) = Ok prev -> good_row (version s) scope (record_key KHost id) prev.
Proof.
  intros Hs. unfold previous_row. intros H. ok_inv. apply bt_get_elem in H. by eapply host_records_good.
Qed.

(** Dropping the pin of a listed host. *)
Lemma clear_pin_writes old now next0 next v hosts next' :
  sections_ok next0 -> list_hosts next0 = Ok hosts -> v ∈ hosts -> sections_ok next -> version next = version next0 ->
  clear_pin old now next v = Ok next' -> writes next next' /\ version next' = version next.
Proof.
  intros Hs0 Hl Hv Hs Hver. unfold clear_pin. cbv zeta. intros H. branch H; [|split; [apply rtc_refl|done]].
  destruct (listed_good _ _ _ Hs0 Hl Hv) as [Hshape Hplain].
  pose proof (previous_good _ _ _ _ Hs Hok) as Hg. destruct (good_row_key _ _ _ _ _ Hg) as [Hk Hid].
  split; [|by destruct (hr_scope _)].
  apply writes_once, w_host. eapply good_live; [done|done|done| |by rewrite Hver].
  apply shape_without_pin in Hshape. exact Hshape.
Qed.

Lemma clear_pins_writes old now next0 hosts views : forall next s',
  library_valid next0 -> list_hosts next0 = Ok hosts -> (forall v, v ∈ views -> v ∈ hosts) ->
  library_valid next -> version next = version next0 ->
  try_fold (clear_pin old now) next views = Ok s' -> writes next s'.
Proof.
  induction views as [|v views IH]; intros next s' Hv0 Hl Hin Hv Hver H; simpl in H; ok_inv; [apply rtc_refl|].
  rename v0 into next1.
  assert (Hs0 : sections_ok next0) by (apply (writes_sections next0); [done|apply rtc_refl]).
  assert (Hs : sections_ok next) by (apply (writes_sections next); [done|apply rtc_refl]).
  destruct (clear_pin_writes _ _ _ _ _ _ _ Hs0 Hl (Hin v ltac:(by left)) Hs Hver Hok) as [Hw Hv1].
  etransitivity; [exact Hw|]. apply IH; [done|done| |by eapply writes_valid|by rewrite Hv1|done].
  intros u Hu. apply Hin. by right.
Qed.

Lemma finish_writes before next scope now s' :
  library_valid next -> finish before next scope now = Ok s' -> writes next s'.
Proof.
  intros Hv (_ & _ & _ & old & new & Hl & Hf)%finish_Ok.
  by eapply (clear_pins_writes old now next new new).
Qed.

(** A group row that was stamped, written. *)
Lemma put_group_writes s scope id r seq s' :
  rkind r = KGroup -> rid r = id -> (exists t, decode_group r scope = Ok t) -> version s <> STATE_VERSION ->
  put_group s scope (record_key KGroup id) (cached r seq scope) = Ok s' ->
  writes s s' /\ version s' = version s /\ (forall sc rows, group_records s sc = Ok rows -> exists rows', group_records s' sc = Ok rows').
Proof.
  intros Hk Hid Hd Hv ->%put_group_Ok. split_and!; [by apply writes_once, write_group_row|by destruct scope|].
  intros sc rows. unfold group_records, insert_group. destruct scope as [|sid], sc as [|sid']; simpl; try by eauto.
  rewrite bt_get_update. destruct (bt_get sid' (spaces s)) as [sp|]; [|done]. simpl.
  case_decide; simpl; destruct (selected sp && negb (missing sp)); simpl; eauto; done.
Qed.

Lemma create_group_writes s id scope payload confirmed now s' :
  library_valid s -> create_group s id scope payload confirmed now = Ok s' -> writes s s'.
Proof.
  intros Hv. unfold create_group. cbv zeta. intros H. ok_inv. apply lift_Ok in Hok0. units.
  rename v2 into s1. pose proof (promote_writes _ _ _ _ _ Hv Hok2) as Hw1.
  destruct (promote_Ok _ _ _ _ _ Hok2) as (_ & _ & _ & Hver & _).
  destruct (ordered_record_fields _ _ _ _ _ _ _ Hok3) as (_ & Hid & Hd & Hp & _).
  apply put_group_writes in Hok4 as (Hw2 & _); [| |done|by eapply decoded_group_row|]; [|done|].
  - etransitivity; [exact Hw1|]. etransitivity; [exact Hw2|]. eapply finish_writes; [|done].
    by eapply writes_valid, writes_valid.
  - rewrite Hver. unfold GROUP_STATE_VERSION, STATE_VERSION. lia.
Qed.

Lemma update_group_writes s id expected payload now s' :
  library_valid s -> update_group s id expected payload now = Ok s' -> writes s s'.
Proof.
  intros Hv. unfold update_group. cbv zeta. intros H. ok_inv. apply lift_Ok in Hok0. units.
  assert (Hs : sections_ok s) by (apply (writes_sections s); [done|apply rtc_refl]).
  destruct (ordered_record_fields _ _ _ _ _ _ _ Hok3) as (_ & Hid & Hd & Hp & _).
  apply put_group_writes in Hok4 as (Hw & _);
    [|done|done|by eapply decoded_group_row|by eapply grouped_version].
  etransitivity; [exact Hw|]. eapply finish_writes; [|done]. by eapply writes_valid.
Qed.

Lemma group_host_id s scope id g : group s scope id = Ok g -> is_host_id id = true.
Proof.
  intros Hg. destruct (group_id _ _ _ _ Hg) as [<- _]. apply group_inv in Hg as (rows & l & _ & _ & _ & Hd).
  apply decode_group_Live in Hd as (_ & _ & _ & _ & Hv & _). unfold validate_group in Hv. cbv zeta in Hv. ok_inv.
  match goal with H : negb (is_host_id _) || _ = false |- _ => by apply orb_false_iff in H as [Hid%negb_false_iff _] end.
Qed.

Lemma bury_group_writes s scope now next id s' :
  sections_ok s -> version next = version s -> bury_group s scope now next id = Ok s' ->
  writes next s' /\ version s' = version next.
Proof.
  intros Hs Hver. unfold bury_group. cbv zeta. intros H. ok_inv.
  destruct (ordered_record_fields _ _ _ _ _ _ _ Hok2) as (_ & Hid & Hd & Hp & _).
  apply put_group_writes in H as (Hw & Hv & _); [done|done|done| |].
  - exists (Tombstone id). unfold decode_group. cbn [with_kind rkind rid rdeleted].
    change (bool_decide (KGroup = KGroup)) with true. cbn [negb guard_err mbind result_bind].
    by rewrite Hid, (group_host_id _ _ _ _ Hok), Hd.
  - rewrite Hver. by eapply grouped_version.
Qed.

(** Elementary edits that keep the version, in sequence. *)
Lemma fold_writes {A} (f : SyncStateV3 -> A -> rresult SyncStateV3) l : forall s s',
  (forall s1 x s2, version s1 = version s -> x ∈ l -> f s1 x = Ok s2 -> writes s1 s2 /\ version s2 = version s1) ->
  try_fold f s l = Ok s' -> writes s s' /\ version s' = version s.
Proof.
  induction l as [|x l IH]; intros s s' Hf H; simpl in H; ok_inv; [split; [apply rtc_refl|done]|].
  destruct (Hf s x v) as [Hw Hv]; [done|by left|done|].
  destruct (IH v s') as [Hw' Hv']; [|done|].
  - intros s1 y s2 H1 Hy. apply Hf; [by rewrite H1|by right].
  - split; [by etransitivity|by rewrite Hv'].
Qed.

Lemma delete_group_writes s id expected reviewed now s' :
  library_valid s -> delete_group s id expected reviewed now = Ok s' -> writes s s'.
Proof.
  intros Hv. unfold delete_group. cbv zeta. intros H. ok_inv. units.
  assert (Hs : sections_ok s) by (apply (writes_sections s); [done|apply rtc_refl]).
  match goal with H : try_fold (detach_host s now) s _ = Ok _ |- _ => apply fold_writes in H as [Hw1 Hv1] end.
  2: { intros s1 x s2 _ _ Hd. unfold detach_host in Hd. ok_inv. by eapply update_host_writes. }
  match goal with H : try_fold (bury_group s _ now) _ _ = Ok _ |- _ => apply fold_writes in H as [Hw2 Hv2] end.
  2: { intros s1 x s2 Hver _ Hb. eapply bury_group_writes; [exact Hs| |exact Hb]. by rewrite Hver. }
  etransitivity; [exact Hw1|]. etransitivity; [exact Hw2|]. eapply finish_writes; [|done].
  eapply writes_valid; [exact Hw2|]. by eapply writes_valid.
Qed.

(** ** The navigation order *)

Lemma order_row_ok r ids seq :
  rid r = ORDER_RECORD_ID -> rdeleted r = false -> (0 < rversion r)%N -> is_slot_id (rdevice_id r) = true ->
  rpayload r = to_value (mkOrder 1 ids) -> valid_ids ids = true ->
  check_account_row (order_key, mkLocal (with_kind r KMeta) seq true) = Ok tt.
Proof.
  intros Hid Hd Hv Hdev Hp Hids. unfold check_account_row. cbn [lrecord].
  rewrite (cache_key_ok KMeta ORDER_RECORD_ID) by done. cbn [mbind result_bind with_kind rkind rid].
  rewrite Hid, bool_decide_true by done. by rewrite (decode_order_written _ ids).
Qed.

Lemma head_device s : check_head s = Ok tt -> is_slot_id (device_id s) = true.
Proof. unfold check_head. intros H. ok_inv. by breflect. Qed.

(** Writing the order into the account. *)
Lemma account_order_write s a ids now prev r seq :
  is_slot_id (device_id s) = true -> account s = Some a -> valid_ids ids = true ->
  ordered_record s ORDER_RECORD_ID (to_value (mkOrder 1 ids)) false now prev = Ok r ->
  write s (set_account s (Some (set_a_records a (bt_insert order_key (mkLocal (with_kind r KMeta) seq true) (a_records a))))).
Proof.
  intros Hd Ha Hids Hr. destruct (ordered_record_fields _ _ _ _ _ _ _ Hr) as (_ & Hid & Hdel & Hp & Hdev & _ & Hver).
  apply w_account; [done| |done]. eapply order_row_ok; try done. by rewrite Hdev.
Qed.

Lemma set_order_writes s expected revision ids now s' :
  library_valid s -> set_order s expected revision ids now = Ok s' -> writes s s'.
Proof.
  intros Hv. unfold set_order. cbv zeta. intros H. ok_inv. units.
  destruct Hv as [(Hh & Hs & _)%validate_state_Ok _]. pose proof (head_device _ Hh) as Hd.
  branch H; [apply rtc_refl|].
  assert (Hw : write s (set_version s (N.max (version s) NAVIGATION_STATE_VERSION)))
    by (apply raised_version; [by apply head_supported|done]).
  eapply rtc_l; [exact Hw|]. breflect. destruct (account s) as [a|] eqn:Ha; ok_inv; apply writes_once.
  - match goal with |- write ?t _ => apply (account_order_write t a ids now (from_option (λ l, [lrecord l]) [] (bt_get order_key (a_records a)))) end; done.
  - apply (w_order (set_version s (N.max (version s) NAVIGATION_STATE_VERSION))); [done|]. simpl. lia.
Qed.

Lemma publish_local_writes s keys now s' :
  library_valid s -> publish_local s keys now = Ok s' -> writes s s'.
Proof.
  intros [(Hh & Hs & _)%validate_state_Ok _]. pose proof (head_device _ Hh) as Hd. unfold publish_local. intros H.
  destruct (account s) as [a|] eqn:Ha; ok_inv; [|apply rtc_refl]. branch H; [apply rtc_refl|]. units.
  apply writes_once. eapply account_order_write; [done|done|apply (so_order _ Hs)|done].
Qed.

(** ** Every edit *)

(** The edits of the library: what the commands of the repository, of the groups, of
    the keys and of the navigation order run on the stored state. *)
Inductive library_edit : SyncStateV3 -> SyncStateV3 -> Prop :=
| e_create s id scope p now s' : create_host s id scope p now = Ok s' -> library_edit s s'
| e_update s id expected p now s' : update_host s id expected p now = Ok s' -> library_edit s s'
| e_delete s id expected now s' : delete_host s id expected now = Ok s' -> library_edit s s'
| e_move s id expected dest now s' : Repository.move_host s id expected dest now = Ok s' -> library_edit s s'
| e_pin s id endpoint previous candidate now s' :
    pin_host_key s id endpoint previous candidate now = Ok s' -> library_edit s s'
| e_forget s id expected endpoint pin now s' :
    forget_host_key s id expected endpoint pin now = Ok s' -> library_edit s s'
| e_rename_key s id expected name now s' : rename_key s id expected name now = Ok s' -> library_edit s s'
| e_promote s scope p confirmed now s' : promote_for_host s scope p confirmed now = Ok s' -> library_edit s s'
| e_create_group s id scope p confirmed now s' :
    create_group s id scope p confirmed now = Ok s' -> library_edit s s'
| e_update_group s id expected p now s' : update_group s id expected p now = Ok s' -> library_edit s s'
| e_delete_group s id expected reviewed now s' :
    delete_group s id expected reviewed now = Ok s' -> library_edit s s'
| e_set_order s expected revision ids now s' : set_order s expected revision ids now = Ok s' -> library_edit s s'
| e_publish_order s keys now s' : publish_local s keys now = Ok s' -> library_edit s s'.

Lemma library_edit_writes s s' : library_edit s s' -> library_valid s -> writes s s'.
Proof.
  intros He Hv. assert (Hs : sections_ok s) by (apply (writes_sections s); [done|apply rtc_refl]).
  destruct He;
    [by eapply create_host_writes|by eapply update_host_writes|by eapply delete_host_writes|by eapply move_host_writes
    |by eapply pin_host_key_writes|by eapply forget_host_key_writes|by eapply rename_key_writes
    |by eapply promote_for_host_writes|by eapply create_group_writes|by eapply update_group_writes
    |by eapply delete_group_writes|by eapply set_order_writes|by eapply publish_local_writes].
Qed.

Lemma write_frame s s' :
  write s s' -> (version s <= version s')%N /\ device_id s' = device_id s /\ pending_account s' = pending_account s
    /\ bt_keys (spaces s') = bt_keys (spaces s).
Proof.
  intros [s0 scope key row _|s0 key row _|s0 a key row _ _ _|s0 v Hv _|s0 keys _|s0 ids _ _]; try done.
  destruct scope as [|sid]; [done|]. simpl. by rewrite bt_keys_update.
Qed.

(** C2. A valid library stays valid: whatever sequence of edits the commands make (hosts,
    pins, groups, keys, the navigation order, the promotion of the formats), a state
    that [validate_state] accepts is taken to a state it accepts, with a pending
    account operation or without, so that no edit that succeeded is refused when it is
    saved or when it is read again. The version never falls, the device and the set of
    spaces stay, and the pending operation is untouched. *)
Theorem edits_keep_state_valid (s s' : SyncStateV3) (Hedits : rtc library_edit s s')
    (Hvalid : validate_state s = Ok tt) (Hlive : meta_live s) :
  validate_state s' = Ok tt /\ meta_live s' /\ (version s <= version s')%N /\ device_id s' = device_id s
  /\ pending_account s' = pending_account s /\ bt_keys (spaces s') = bt_keys (spaces s).
Proof.
  assert (Hv : library_valid s) by done. clear Hvalid Hlive.
  induction Hedits as [s|s s1 s2 He _ IH]; [destruct Hv; split_and!; done|].
  pose proof (library_edit_writes _ _ He Hv) as Hw. pose proof (writes_valid _ _ Hw Hv) as Hv1.
  destruct (IH Hv1) as (H1 & H2 & H3 & -> & -> & ->). split_and!; [done|done| | | |];
    clear -Hw H3; induction Hw as [s|s s0 s1 Hw _ IHw]; try done;
    destruct (write_frame _ _ Hw) as (? & ? & ? & ?); try (by etransitivity; [apply IHw|]).
  etransitivity; [done|by apply IHw].
Qed.
End Props.
