(* ===== verification/Crypto.v ===== *)
(** * Crypto: chain keys, record identities and sealing

    [src-tauri/src/sync/crypto.rs] over the primitives of its crates (HMAC,
    XChaCha20-Poly1305, base64).  The random nonce of [seal] is an argument;
    [None] is a failing generator. *)

From S2P Require Import Prelude Text SlotRules Json SyncRecord.

(** The crates: what a ciphertext was made from is what opens it, and base64 is
    read back. *)
Class CryptoLib := {
  hmac_sha256 : list N -> list N -> list N;
  aead_encrypt : list N -> list N -> list N -> list N -> option (list N);
  aead_decrypt : list N -> list N -> list N -> list N -> option (list N);
  b64_encode : list N -> str;
  b64_decode : str -> option (list N);
  aead_roundtrip : forall key nonce aad msg c,
    aead_encrypt key nonce aad msg = Some c -> aead_decrypt key nonce aad c = Some msg;
  b64_roundtrip : forall b, b64_decode (b64_encode b) = Some b
}.

Definition NONCE_LEN : nat := 24.

Record ChainKeys := mkKeys { ck_chain_id : str; ck_auth_token : str; ck_enc_key : list N }.

(** [format!("{b:02x}")]. *)
Definition hex_digit (n : N) : N := if (n <? 10)%N then (48 + n)%N else (87 + n)%N.
Definition hex (bytes : list N) : str := flat_map (fun b => [hex_digit (b / 16); hex_digit (b mod 16)]) bytes.

Record Sealed := mkSealedBody { sb_id_hash : str; sb_nonce : str; sb_ciphertext : str }.

Section Crypto.
Context `{CryptoLib}.

Definition from_parts (chain_id auth_token enc_key_b64 : str) : result AppError ChainKeys :=
  _ ← guard_err (negb (is_chain_id chain_id) || negb (is_chain_id auth_token))
        (AOther (lit "space key record has a malformed chain id or token"));
  let malformed := AOther (lit "space key record has a malformed key") in
  key ← ok_or (b64_decode enc_key_b64) malformed;
  _ ← guard_err (negb (length key =? 32)%nat) malformed;
  Ok (mkKeys chain_id auth_token key).

Definition enc_key_b64 (keys : ChainKeys) : str := b64_encode (ck_enc_key keys).

Definition id_hash (keys : ChainKeys) (kind id : str) : str :=
  hex (hmac_sha256 (ck_enc_key keys) (utf8 kind ++ [10%N] ++ utf8 id)).

Definition aad (keys : ChainKeys) (kind id_hash : str) : list N :=
  utf8 (ck_chain_id keys ++ [10%N] ++ kind ++ [10%N] ++ id_hash).

Definition seal (keys : ChainKeys) (kind id : str) (plaintext : list N) (nonce : option (list N))
  : result AppError Sealed :=
  nonce ← ok_or nonce (AOther (lit "cannot draw nonce"));
  let hash := id_hash keys kind id in
  c ← ok_or (aead_encrypt (ck_enc_key keys) nonce (aad keys kind hash) plaintext)
        (AOther (lit "encryption failed"));
  Ok (mkSealedBody hash (b64_encode nonce) (b64_encode c)).

Definition open (keys : ChainKeys) (kind id_hash : str) (sealed : Sealed) : result AppError (list N) :=
  nonce ← ok_or (b64_decode (sb_nonce sealed)) (AOther (lit "record nonce is not valid base64"));
  _ ← guard_err (negb (length nonce =? NONCE_LEN)%nat) (AOther (lit "record nonce has the wrong length"));
  c ← ok_or (b64_decode (sb_ciphertext sealed)) (AOther (lit "record ciphertext is not valid base64"));
  ok_or (aead_decrypt (ck_enc_key keys) nonce (aad keys kind id_hash) c)
    (AOther (lit "record cannot be decrypted with this chain")).

(** What was sealed opens under the same keys, kind and identity. *)
Lemma open_seal keys kind id plaintext nonce sealed :
  length nonce = NONCE_LEN -> seal keys kind id plaintext (Some nonce) = Ok sealed ->
  sb_id_hash sealed = id_hash keys kind id /\ open keys kind (sb_id_hash sealed) sealed = Ok plaintext.
Proof.
  intros Hlen Hs. unfold seal in Hs. ok_inv. injection Hok as <-. split; [done|].
  unfold open. simpl. rewrite !b64_roundtrip. cbn [ok_or mbind result_bind].
  rewrite Hlen, Nat.eqb_refl. simpl. by rewrite (aead_roundtrip _ _ _ _ _ Hok0).
Qed.

(** A space's keys survive being written to and read from its key record. *)
Lemma from_parts_roundtrip keys :
  is_chain_id (ck_chain_id keys) = true -> is_chain_id (ck_auth_token keys) = true ->
  length (ck_enc_key keys) = 32 ->
  from_parts (ck_chain_id keys) (ck_auth_token keys) (enc_key_b64 keys) = Ok keys.
Proof.
  intros H1 H2 H3. unfold from_parts, enc_key_b64. rewrite H1, H2, b64_roundtrip. simpl.
  rewrite H3. simpl. by destruct keys.
Qed.
End Crypto.

(** ** Keys from the sync code *)

(** The crates: BIP39 words to a mnemonic and to its seed (with an empty passphrase), the
    words of a mnemonic made from random bytes, and HKDF-SHA256, which expands a salted
    secret under a label to 32 bytes. *)
Class MnemonicLib := {
  Mnemonic : Type;
  parse_in : str -> result str Mnemonic;
  to_seed : Mnemonic -> list N;
  hkdf_sha256 : list N -> list N -> list N -> list N;
  hkdf_length : forall salt seed info, length (hkdf_sha256 salt seed info) = 32;
  hkdf_bytes : forall salt seed info b, b ∈ hkdf_sha256 salt seed info -> (b < 256)%N
}.

Definition HKDF_SALT : list N := lit "sshelter-sync-v1".
Definition HKDF_SALT_V2 : list N := lit "sshelter-sync-v2".

Section Derive.
Context {U : Unicode} {L : MnemonicLib}.

Definition invalid_code (e : str) : AppError := AOther (lit "invalid sync code: " ++ e).

Definition normalize_mnemonic (input : str) : result AppError str :=
  let words := map to_lowercase (split_whitespace input) in
  _ ← guard_err (negb (length words =? 24)%nat)
        (AOther (lit "a sync code has 24 words (got " ++ dec (N.of_nat (length words)) ++ lit ")"));
  let joined := join [32%N] words in
  _ ← map_err invalid_code (parse_in joined);
  Ok joined.

Definition seed_of (mnemonic : str) : result AppError (list N) :=
  normalized ← normalize_mnemonic mnemonic;
  m ← map_err invalid_code (parse_in normalized);
  Ok (to_seed m).

Definition hkdf_expand (salt seed : list N) (info : str) : list N := hkdf_sha256 salt seed (utf8 info).

Definition chain_keys (salt seed : list N) (prefix : str) : ChainKeys :=
  mkKeys (hex (hkdf_expand salt seed (prefix ++ lit "/chain-id")))
    (hex (hkdf_expand salt seed (prefix ++ lit "/auth")))
    (hkdf_expand salt seed (prefix ++ lit "/enc")).

Definition derive_keys (mnemonic : str) : result AppError ChainKeys :=
  seed ← seed_of mnemonic; Ok (chain_keys HKDF_SALT seed (lit "sshelter/v1")).
Definition derive_account (mnemonic : str) : result AppError ChainKeys :=
  seed ← seed_of mnemonic; Ok (chain_keys HKDF_SALT_V2 seed (lit "sshelter/v2/account")).
Definition derive_space0 (mnemonic : str) : result AppError ChainKeys :=
  seed ← seed_of mnemonic; Ok (chain_keys HKDF_SALT_V2 seed (lit "sshelter/v2/space0")).

(** [ChainKeys::generate] from 96 random bytes. *)
Definition generate (random : option (list N)) : result AppError ChainKeys :=
  b ← ok_or random (AOther (lit "cannot draw random space keys"));
  Ok (mkKeys (hex (take 32 b)) (hex (take 32 (drop 32 b))) (drop 64 b)).

Lemma hex_digit_lower n : (n < 16)%N -> is_lower_hex (hex_digit n) = true /\ (hex_digit n < 128)%N.
Proof.
  intros Hn. unfold hex_digit, is_lower_hex, in_range, is_ascii_digit, in_range.
  destruct (n <? 10)%N eqn:H10; [apply N.ltb_lt in H10|apply N.ltb_ge in H10]; split; try lia;
    rewrite ?orb_true_iff, ?andb_true_iff, ?N.leb_le; lia.
Qed.

Lemma utf8_ascii s : (forall c, c ∈ s -> (c < 128)%N) -> utf8 s = s.
Proof.
  induction s as [|c s IH]; intros H; [done|]. unfold utf8 in *. simpl. rewrite IH by (intros x Hx; apply H; by right).
  assert (Hc : (c < 128)%N) by (apply H; by left). unfold utf8_char. by rewrite (proj2 (N.ltb_lt _ _) Hc).
Qed.

(** The hexadecimal text of 32 bytes is a chain id. *)
Lemma hex_chain_id b : length b = 32 -> (forall x, x ∈ b -> (x < 256)%N) -> is_chain_id (hex b) = true.
Proof.
  intros Hlen Hb.
  assert (Hall : forall c, c ∈ hex b -> is_lower_hex c = true /\ (c < 128)%N).
  { intros c Hc. unfold hex in Hc. rewrite list_elem_of_In, in_flat_map in Hc. destruct Hc as (x & Hx & Hc).
    rewrite <-list_elem_of_In in Hx. specialize (Hb _ Hx). destruct Hc as [<-|[<-|[]]]; apply hex_digit_lower.
    - apply N.Div0.div_lt_upper_bound; lia.
    - by apply N.mod_lt. }
  assert (Hl : length (hex b) = 64).
  { assert (Hlen2 : length (hex b) = 2 * length b); [|lia]. unfold hex. clear. induction b; simpl; lia. }
  unfold is_chain_id, str_len. rewrite utf8_ascii by (intros c Hc; by apply Hall). rewrite Hl. simpl.
  apply forallb_forall. intros c Hc%list_elem_of_In. by apply Hall.
Qed.

(** Every sync code that is accepted leads to well-formed chains. *)
Lemma derive_account_wf (m : str) (k : ChainKeys) :
  derive_account m = Ok k -> is_chain_id (ck_chain_id k) = true /\ is_chain_id (ck_auth_token k) = true
    /\ length (ck_enc_key k) = 32.
Proof.
  unfold derive_account. intros H. ok_inv. unfold chain_keys, hkdf_expand. simpl.
  split_and!; [apply hex_chain_id; [apply hkdf_length|apply hkdf_bytes]..|apply hkdf_length].
Qed.
End Derive.
