(* ===== verification/Relay.v ===== *)
(** * Relay: the client of the sync relay, and pushing in batches

    [src-tauri/src/sync/relay.rs]: the relay client over an HTTP client that is a
    parameter, with every check of a request before it is sent and of an answer
    before it is used, and the waiting times between rounds; [push_outgoing] of
    [src-tauri/src/sync/merge.rs] over any relay. *)

From S2P Require Import Prelude Text SlotRules SyncRecord.

(** ** Wire types *)

Record PushItem := mkPush {
  pu_id_hash : str; pu_kind : str; pu_nonce : str; pu_ciphertext : str; pu_deleted : bool; pu_base_seq : N
}.
Record PullResponse := mkPull { pull_records : list Envelope; pull_latest_seq : N }.
Inductive PushResult := Accepted (seq : N) | Conflict (current : Envelope).
Inductive WirePushResult := WireOk (seq : N) | WireConflict (current : Envelope).
Inductive PushOutcome := Applied (results : list PushResult) | Frozen.
Record BatchPullItem := mkBatchItem { bp_chain : str; bp_token : str; bp_since : N }.
Inductive BatchPullResult := BOk (r : PullResponse) | BNotFound | BRateLimited | BDeferred.
Record BatchPullEntry := mkBatchEntry { be_chain : str; be_result : BatchPullResult }.
Inductive WireBatchEntry :=
| WOk (chain : str) (records : list Envelope) (latest_seq : N)
| WNotFound (chain : str)
| WRateLimited (chain : str)
| WDeferred (chain : str).
Record RelayInfo := mkInfo { info_version : option str; info_features : list str }.
Record WireInfo := mkWireInfo { wi_relay : str; wi_version : str; wi_features : list str }.

Inductive RelayError :=
| RNotFound
| RateLimited
| QuotaExceeded
| RUnsupported (feature : str)
| InvalidRequest (what : str)
| Http (code : N)
| Unreachable (why : str)
| BadResponse (why : str).

Abbreviation lresult := (result RelayError).

Definition MAX_BATCH_PULL : nat := 64.
Definition MAX_PUSH_ITEMS : nat := 200.
Definition MAX_SAFE_INTEGER : N := 9007199254740991.
Definition FEATURE_PULL_BATCH : str := lit "pull-batch".

Definition push_results (body : list WirePushResult) : list PushResult :=
  map (fun r => match r with WireOk seq => Accepted seq | WireConflict current => Conflict current end) body.

(** ** Waiting times, in milliseconds *)

Definition MIN_POLL_INTERVAL : N := 45000.
Definition POLL_INTERVAL_PER_CHAIN : N := 2000.
Definition IDLE_POLL_INTERVAL : N := 300000.
Definition ACTIVE_WINDOW : N := 300000.
Definition FIRST_BACKOFF_SECS : N := 90.
Definition MAX_BACKOFF : N := 900000.

(** A product of two u32 values in seconds never saturates a [Duration]. *)
Definition poll_interval (chains : N) : N :=
  N.max MIN_POLL_INTERVAL (POLL_INTERVAL_PER_CHAIN * N.min chains u32_max).

Definition backoff_delay (consecutive_failures : N) : N :=
  if (consecutive_failures =? 0)%N then 0%N
  else N.min (1000 * N.shiftl FIRST_BACKOFF_SECS (N.min consecutive_failures 10 - 1)) MAX_BACKOFF.

Definition next_poll_delay (chains : N) (focused : bool) (last_activity_ms now_ms consecutive_failures : N) : N :=
  let recent := (last_activity_ms <=? N.min (now_ms + ACTIVE_WINDOW) u64_max)%N
                && (now_ms - last_activity_ms <? ACTIVE_WINDOW)%N in
  let normal := if focused || recent then poll_interval chains
                else N.max IDLE_POLL_INTERVAL (poll_interval chains) in
  N.max normal (backoff_delay consecutive_failures).

(** ** Checks *)

Definition check_chain (chain_id token : str) : lresult unit :=
  guard_err (negb (is_chain_id chain_id && is_chain_id token))
    (InvalidRequest (lit "chain id and token must be 64 lowercase hex characters")).

Definition status_error (code : N) : RelayError :=
  if (code =? 404)%N then RNotFound
  else if (code =? 413)%N then QuotaExceeded
  else if (code =? 429)%N then RateLimited
  else Http code.

Definition check_cursor (since : N) : lresult unit :=
  guard_err (MAX_SAFE_INTEGER <? since)%N (InvalidRequest (lit "a pull cursor is out of range")).

Definition checked_seqs (resp : PullResponse) : lresult PullResponse :=
  _ ← guard_err ((MAX_SAFE_INTEGER <? pull_latest_seq resp)%N
                 || existsb (fun r => (MAX_SAFE_INTEGER <? eseq r)%N) (pull_records resp))
        (BadResponse (lit "the relay answered with a sequence number out of range"));
  Ok resp.

Definition result_seq (r : PushResult) : N := match r with Accepted seq => seq | Conflict current => eseq current end.

Definition checked_push_results (results : list PushResult) : lresult (list PushResult) :=
  _ ← guard_err (existsb (fun r => (MAX_SAFE_INTEGER <? result_seq r)%N) results)
        (BadResponse (lit "the relay answered a push with a sequence number out of range"));
  Ok results.

(** [iter().all(|x| seen.insert(x))]. *)
Fixpoint all_new (seen l : list str) : bool :=
  match l with
  | [] => true
  | x :: l' => negb (existsb (fun y => y =?= x) seen) && all_new (x :: seen) l'
  end.

Definition check_push (items : list PushItem) : lresult unit :=
  _ ← guard_err ((length items =? 0)%nat || (MAX_PUSH_ITEMS <? length items)%nat)
        (InvalidRequest (lit "a push takes 1 to 200 records"));
  guard_err (negb (all_new [] (map pu_id_hash items)))
    (InvalidRequest (lit "a record appears twice in one push")).

Definition check_batch_item (seen : list str) (item : BatchPullItem) : lresult (list str) :=
  _ ← check_chain (bp_chain item) (bp_token item);
  _ ← check_cursor (bp_since item);
  _ ← guard_err (existsb (fun c => c =?= bp_chain item) seen)
        (InvalidRequest (lit "a chain appears twice in one batch pull"));
  Ok (bp_chain item :: seen).

Definition check_batch (items : list BatchPullItem) : lresult unit :=
  _ ← guard_err (MAX_BATCH_PULL <? length items)%nat
        (InvalidRequest (lit "a batch pull takes at most 64 chains"));
  _ ← try_fold check_batch_item [] items;
  Ok tt.

Definition batch_entry (e : BatchPullItem * WireBatchEntry) : lresult BatchPullEntry :=
  '(chain, r) ← match e.2 with
                | WOk chain records latest_seq =>
                    resp ← checked_seqs (mkPull records latest_seq); Ok (chain, BOk resp)
                | WNotFound chain => Ok (chain, BNotFound)
                | WRateLimited chain => Ok (chain, BRateLimited)
                | WDeferred chain => Ok (chain, BDeferred)
                end;
  _ ← guard_err (negb (chain =?= bp_chain e.1))
        (BadResponse (lit "the batch pull answered chains out of order"));
  Ok (mkBatchEntry chain r).

Definition batch_entries (items : list BatchPullItem) (body : list WireBatchEntry)
  : lresult (list BatchPullEntry) :=
  _ ← guard_err (negb (length body =? length items)%nat)
        (BadResponse (lit "the batch pull answered a different number of chains"));
  try_map batch_entry (zip items body).

(** ** The HTTP client *)

Inductive Method := GET | PUT | POST | DELETE.
Inductive RequestBody := NoBody | EmptyObject | PullItems (items : list BatchPullItem) | PushItems (items : list PushItem).
Record Request := mkRequest { method : Method; path : str; bearer : option str; rbody : RequestBody }.

(** The body of an answer may break off while it is read. *)
Inductive Body := Read (bytes : list N) | TimedOut | Broken.
Record Response := mkResponse { status : N; rsbody : Body }.

(** [reqwest] and the derived JSON decoders; a decoding error has a position. *)
Class HttpLib := {
  Net : Type;
  send : Net -> Request -> Net * result str Response;
  parse_info : list N -> result (N * N) WireInfo;
  parse_pull : list N -> result (N * N) PullResponse;
  parse_batch : list N -> result (N * N) (list WireBatchEntry);
  parse_push : list N -> result (N * N) (list WirePushResult);
  parse_status : list N -> result (N * N) str
}.

(** [trait RelayApi]: what the rounds use of a relay. *)
Class RelayApi := {
  RelayState : Type;
  api_info : RelayState -> RelayState * lresult RelayInfo;
  api_create_chain : RelayState -> str -> str -> RelayState * lresult unit;
  api_delete_chain : RelayState -> str -> str -> RelayState * lresult unit;
  api_freeze_chain : RelayState -> str -> str -> RelayState * lresult unit;
  api_pull : RelayState -> str -> str -> N -> RelayState * lresult PullResponse;
  api_pull_batch : RelayState -> list BatchPullItem -> RelayState * lresult (list BatchPullEntry);
  api_push : RelayState -> str -> str -> list PushItem -> RelayState * lresult PushOutcome
}.

Section Client.
Context `{HttpLib}.

Definition read_body (resp : Response) : lresult (list N) :=
  match rsbody resp with
  | Read bytes => Ok bytes
  | TimedOut => Err (Unreachable (lit "the relay's answer timed out"))
  | Broken => Err (Unreachable (lit "the connection broke off while reading the relay's answer"))
  end.

Definition read_json {T} (parse : list N -> result (N * N) T) (resp : Response) : lresult T :=
  body ← read_body resp;
  map_err (fun '(line, column) =>
    BadResponse (lit "the answer is not the expected JSON (line " ++ dec line ++ lit ", column " ++ dec column
                 ++ lit ")")) (parse body).

(** A request that passed its checks is sent and its answer read; one that did
    not is never sent. *)
Definition exchange {T} (net : Net) (checks : lresult unit) (r : Request) (read : Response -> lresult T)
  : Net * lresult T :=
  match checks with
  | Err e => (net, Err e)
  | Ok _ =>
      let '(net, resp) := send net r in
      (net, resp ← map_err Unreachable resp; read resp)
  end.

Definition is_success (code : N) : bool := (200 <=? code)%N && (code <? 300)%N.

Definition read_success (resp : Response) : lresult unit :=
  if is_success (status resp) then Ok tt else Err (status_error (status resp)).

Definition chain_path (chain_id suffix : str) : str := lit "/v1/chains/" ++ chain_id ++ suffix.

Definition info (net : Net) : Net * lresult RelayInfo :=
  exchange net (Ok tt) (mkRequest GET (lit "/v1/info") None NoBody) (fun resp =>
    if (status resp =? 200)%N then
      wire ← read_json parse_info resp;
      _ ← guard_err (negb (wi_relay wire =?= lit "sshelter-relay"))
            (BadResponse (lit "this server is not a Lunport relay"));
      Ok (mkInfo (Some (wi_version wire)) (wi_features wire))
    else if (status resp =? 404)%N then Ok (mkInfo None [])
    else Err (status_error (status resp))).

Definition create_chain (net : Net) (chain_id token : str) : Net * lresult unit :=
  exchange net (check_chain chain_id token)
    (mkRequest PUT (chain_path chain_id []) (Some token) EmptyObject) read_success.

Definition delete_chain (net : Net) (chain_id token : str) : Net * lresult unit :=
  exchange net (check_chain chain_id token)
    (mkRequest DELETE (chain_path chain_id []) (Some token) NoBody) read_success.

Definition freeze_chain (net : Net) (chain_id token : str) : Net * lresult unit :=
  exchange net (check_chain chain_id token)
    (mkRequest POST (chain_path chain_id (lit "/freeze")) (Some token) NoBody) read_success.

Definition pull (net : Net) (chain_id token : str) (since : N) : Net * lresult PullResponse :=
  exchange net (_ ← check_chain chain_id token; check_cursor since)
    (mkRequest GET (chain_path chain_id (lit "/records?since=" ++ dec since)) (Some token) NoBody)
    (fun resp =>
       if (status resp =? 200)%N then r ← read_json parse_pull resp; checked_seqs r
       else Err (status_error (status resp))).

Definition pull_batch (net : Net) (items : list BatchPullItem) : Net * lresult (list BatchPullEntry) :=
  match items with
  | [] => (net, Ok [])
  | _ =>
      exchange net (check_batch items) (mkRequest POST (lit "/v1/pull") None (PullItems items)) (fun resp =>
        if (status resp =? 200)%N then body ← read_json parse_batch resp; batch_entries items body
        else if (status resp =? 404)%N then Err (RUnsupported FEATURE_PULL_BATCH)
        else Err (status_error (status resp)))
  end.

Definition push (net : Net) (chain_id token : str) (items : list PushItem) : Net * lresult PushOutcome :=
  exchange net (_ ← check_chain chain_id token; check_push items)
    (mkRequest POST (chain_path chain_id (lit "/records")) (Some token) (PushItems items)) (fun resp =>
    if (status resp =? 200)%N then
      body ← read_json parse_push resp;
      results ← checked_push_results (push_results body);
      _ ← guard_err (negb (length results =? length items)%nat)
            (BadResponse (lit "the relay answered a push with the wrong number of results"));
      Ok (Applied results)
    else if (status resp =? 409)%N then
      body ← read_body resp;
      match parse_status body with
      | Ok s => if s =?= lit "frozen" then Ok Frozen else Err (Http 409)
      | Err _ => Err (Http 409)
      end
    else Err (status_error (status resp))).

#[export] Instance RelayClient : RelayApi := {
  RelayState := Net;
  api_info := info;
  api_create_chain := create_chain;
  api_delete_chain := delete_chain;
  api_freeze_chain := freeze_chain;
  api_pull := pull;
  api_pull_batch := pull_batch;
  api_push := push
}.
End Client.

(** ** Pushing in batches ([merge.rs]) *)

Definition PUSH_BATCH_ITEMS : nat := 200.
Definition PUSH_BATCH_BYTES : N := 512 * 1024.

Record Outgoing := mkOutgoing { o_key : str; o_item : PushItem; o_version : N; o_updated_at_ms : N }.
Record Pushed := mkPushed {
  accepted : list (str * N); pu_conflicts : N; pu_frozen : bool; pu_error : option RelayError
}.

Definition item_size (o : Outgoing) : N :=
  N.of_nat (str_len (pu_ciphertext (o_item o)) + str_len (pu_nonce (o_item o))).

(** The inner loop: a batch of [count] items and [bytes] bytes so far takes as many
    of the next items as fit, and the first one always. *)
Fixpoint fill_batch (count : nat) (bytes : N) (l : list Outgoing) : list Outgoing * list Outgoing :=
  match l with
  | [] => ([], [])
  | o :: l' =>
      if (0 <? count)%nat && ((PUSH_BATCH_ITEMS <=? count)%nat || (PUSH_BATCH_BYTES <? bytes + item_size o)%N)
      then ([], l)
      else let '(batch, rest) := fill_batch (S count) (bytes + item_size o) l' in (o :: batch, rest)
  end.

Definition note_result (p : Pushed) (e : Outgoing * PushResult) : Pushed :=
  match e.2 with
  | Accepted seq => mkPushed (accepted p ++ [(o_key e.1, seq)]) (pu_conflicts p) (pu_frozen p) (pu_error p)
  | Conflict _ => mkPushed (accepted p) (pu_conflicts p + 1) (pu_frozen p) (pu_error p)
  end.

Definition with_error (p : Pushed) (e : RelayError) : Pushed :=
  mkPushed (accepted p) (pu_conflicts p) (pu_frozen p) (Some e).
Definition with_frozen (p : Pushed) : Pushed := mkPushed (accepted p) (pu_conflicts p) true (pu_error p).

Definition misaligned (batch results : nat) : RelayError :=
  BadResponse (lit "a push of " ++ dec (N.of_nat batch) ++ lit " records was answered with "
               ++ dec (N.of_nat results) ++ lit " results").

Section Push.
Context `{RelayApi}.

(** The outer loop; every pass takes at least one item. *)
Fixpoint push_loop (fuel : nat) (relay : RelayState) (chain_id token : str) (outgoing : list Outgoing) (p : Pushed)
  : RelayState * Pushed :=
  match fuel, outgoing with
  | S fuel, _ :: _ =>
      let '(batch, rest) := fill_batch 0 0 outgoing in
      let '(relay, answer) := api_push relay chain_id token (map o_item batch) in
      match answer with
      | Err e => (relay, with_error p e)
      | Ok Frozen => (relay, with_frozen p)
      | Ok (Applied results) =>
          if negb (length results =? length batch)%nat
          then (relay, with_error p (misaligned (length batch) (length results)))
          else push_loop fuel relay chain_id token rest (foldl note_result p (zip batch results))
      end
  | _, _ => (relay, p)
  end.

Definition push_outgoing (relay : RelayState) (chain_id token : str) (outgoing : list Outgoing)
  : RelayState * Pushed :=
  push_loop (length outgoing) relay chain_id token outgoing (mkPushed [] 0 false None).
End Push.

(** ** What the relay client guarantees, and pushing in batches *)

(** ** Waiting times *)

(** Polling is bounded on both sides: a round never follows sooner than the
    interval for the number of chains (at least 45 seconds) nor sooner than the
    back-off, never later than the longest of five minutes, that interval and 15
    minutes; another failure never shortens the back-off, and the shift that
    doubles it stays within 64 bits however many rounds failed. *)
Lemma next_poll_delay_bounds (chains last_activity_ms now_ms failures : N) (focused : bool) :
  let d := next_poll_delay chains focused last_activity_ms now_ms failures in
  (MIN_POLL_INTERVAL <= poll_interval chains <= d)%N /\ (backoff_delay failures <= d)%N
  /\ (d <= N.max (N.max IDLE_POLL_INTERVAL (poll_interval chains)) MAX_BACKOFF)%N
  /\ (backoff_delay failures <= backoff_delay (failures + 1))%N
  /\ (N.shiftl FIRST_BACKOFF_SECS (N.min failures 10 - 1) <= u64_max)%N.
Proof.
  cbv zeta. assert (Hb : (backoff_delay failures <= MAX_BACKOFF)%N).
  { unfold backoff_delay. destruct (failures =? 0)%N; [apply N.le_0_l|apply N.le_min_r]. }
  assert (Hp : (MIN_POLL_INTERVAL <= poll_interval chains)%N) by apply N.le_max_l.
  unfold next_poll_delay. cbv zeta.
  assert (Hshift : forall a b, (a <= b)%N -> (N.shiftl FIRST_BACKOFF_SECS a <= N.shiftl FIRST_BACKOFF_SECS b)%N).
  { intros a b Hab. rewrite !N.shiftl_mul_pow2. apply N.mul_le_mono_l, N.pow_le_mono_r; [done|done]. }
  split_and!.
  - done.
  - destruct (_ || _); lia.
  - lia.
  - destruct (_ || _); lia.
  - unfold backoff_delay. replace (failures + 1 =? 0)%N with false by (symmetry; apply N.eqb_neq; lia).
    destruct (failures =? 0)%N; [apply N.le_0_l|].
    apply N.min_le_compat_r, N.mul_le_mono_l, Hshift. lia.
  - transitivity (N.shiftl FIRST_BACKOFF_SECS 9); [apply Hshift; lia|done].
Qed.

(** ** Requests and answers *)

Section Client.
Context `{HttpLib}.

Definition in_range (r : PullResponse) : Prop :=
  (pull_latest_seq r <= MAX_SAFE_INTEGER)%N /\ forall e, e ∈ pull_records r -> (eseq e <= MAX_SAFE_INTEGER)%N.

Lemma existsb_false {A} (p : A -> bool) l : existsb p l = false -> forall x, x ∈ l -> p x = false.
Proof.
  intros Hn x Hx. destruct (p x) eqn:Hp; [|done]. exfalso.
  assert (existsb p l = true) by (apply existsb_exists; exists x; by rewrite <-list_elem_of_In). congruence.
Qed.

Lemma checked_seqs_Ok r r' : checked_seqs r = Ok r' -> r' = r /\ in_range r.
Proof.
  unfold checked_seqs. intros Hc. ok_inv. apply orb_false_iff in Hok as [H1 H2].
  split; [done|]. split; [by apply N.ltb_ge|]. intros e He.
  by apply N.ltb_ge, (existsb_false _ _ H2 e).
Qed.

Lemma all_new_NoDup l : forall seen, all_new seen l = true -> NoDup l /\ forall x, x ∈ l -> x ∉ seen.
Proof.
  induction l as [|x l IH]; intros seen Ha; cbn [all_new] in Ha.
  { split; [constructor|]. intros x Hx. by apply elem_of_nil in Hx. }
  apply andb_true_iff in Ha as [Hn Ha]. apply negb_true_iff in Hn. destruct (IH _ Ha) as [Hnd Hout].
  split.
  - constructor; [|done]. intros Hx. apply (Hout _ Hx). by left.
  - intros y [->|Hy]%elem_of_cons.
    + intros Hs. apply (existsb_false _ _ Hn) in Hs. by apply bool_decide_eq_false in Hs.
    + intros Hs. apply (Hout _ Hy). by right.
Qed.

Lemma exchange_Ok {T} net checks r (read : Response -> lresult T) net' v :
  exchange net checks r read = (net', Ok v) ->
  exists u resp, checks = Ok u /\ send net r = (net', Ok resp) /\ read resp = Ok v.
Proof.
  unfold exchange. destruct checks as [u|]; [|done]. destruct (send net r) as [n resp]. intros [= -> Hr].
  ok_inv. eauto.
Qed.

Lemma batch_entry_Ok item wire entry : batch_entry (item, wire) = Ok entry ->
  be_chain entry = bp_chain item /\ forall r, be_result entry = BOk r -> in_range r.
Proof.
  unfold batch_entry. cbn [fst snd]. intros Hb. ok_inv. destruct v as [chain r]. ok_inv. breflect.
  cbn [be_chain be_result]. split; [done|]. intros resp ->.
  destruct wire; ok_inv; simplify_eq. by apply checked_seqs_Ok in Hok1 as [-> ?].
Qed.

Lemma batch_entries_Ok items body entries : batch_entries items body = Ok entries ->
  map be_chain entries = map bp_chain items
  /\ forall e r, e ∈ entries -> be_result e = BOk r -> in_range r.
Proof.
  unfold batch_entries. intros Hb. ok_inv. breflect. apply try_map_Ok in Hb. rename Hok into Hlen.
  revert body entries Hlen Hb. induction items as [|item items IH]; intros [|w body] entries Hlen Hb; try done;
    cbn [zip zip_with] in Hb; inversion Hb as [|? entry ? entries' He Hes]; subst.
  { split; [done|]. intros e r He. by apply elem_of_nil in He. }
  destruct (IH body entries') as [IHm IHr]; [by injection Hlen|done|].
  destruct (batch_entry_Ok _ _ _ He) as [Hc Hr]. split.
  - cbn [map]. congruence.
  - intros e r [->|Hin]%elem_of_cons; [apply Hr|by apply IHr].
Qed.

(** Nothing leaves unchecked and nothing comes in unchecked.  A pull, a batch
    pull or a push with a malformed chain, token, cursor or batch is refused
    without a request.  An answer that is accepted has only sequence numbers in
    the relay's integer range; the entries of a batch pull are the requested
    chains in order, so that no record is attributed to another chain; a push is
    answered for each of its one to 200 distinct items. *)
Lemma relay_answers_checked (net net' : Net) :
  (forall chain token since r, pull net chain token since = (net', Ok r) ->
     is_chain_id chain = true /\ is_chain_id token = true /\ (since <= MAX_SAFE_INTEGER)%N /\ in_range r)
  /\ (forall items entries, pull_batch net items = (net', Ok entries) ->
        map be_chain entries = map bp_chain items
        /\ forall e r, e ∈ entries -> be_result e = BOk r -> in_range r)
  /\ (forall chain token items results, push net chain token items = (net', Ok (Applied results)) ->
        is_chain_id chain = true /\ is_chain_id token = true /\ 1 <= length items <= MAX_PUSH_ITEMS
        /\ NoDup (map pu_id_hash items) /\ length results = length items
        /\ forall r, r ∈ results -> (result_seq r <= MAX_SAFE_INTEGER)%N)
  /\ (forall chain token items, is_err (check_chain chain token) || is_err (check_push items) = true ->
        (push net chain token items).1 = net)
  /\ (forall chain token since, is_err (check_chain chain token) || is_err (check_cursor since) = true ->
        (pull net chain token since).1 = net)
  /\ (forall items, is_err (check_batch items) = true -> (pull_batch net items).1 = net).
Proof.
  split_and!.
  - intros chain token since r (u & resp & Hc & _ & Hr)%exchange_Ok. unfold check_chain, check_cursor in Hc.
    ok_inv. breflect. destruct (status resp =? 200)%N; [|done]. ok_inv. apply checked_seqs_Ok in Hr as [-> Hr]. done.
  - intros [|i items] entries Hp; unfold pull_batch in Hp.
    { injection Hp as -> <-. split; [done|]. intros e r He. by apply elem_of_nil in He. }
    apply exchange_Ok in Hp as (u & resp & _ & _ & Hr). destruct (status resp =? 200)%N;
      [|by destruct (status resp =? 404)%N]. ok_inv. by eapply batch_entries_Ok.
  - intros chain token items results (u & resp & Hc & _ & Hr)%exchange_Ok.
    unfold check_chain, check_push in Hc. ok_inv. breflect. destruct (status resp =? 200)%N.
    2: { destruct (status resp =? 409)%N; [|done]. ok_inv. destruct (parse_status _); [|done]. by destruct (_ =?= _). }
    ok_inv. unfold checked_push_results in Hok0. ok_inv. apply negb_false_iff, Nat.eqb_eq in Hok1.
    destruct (all_new_NoDup _ _ Hc) as [Hnd _].
    split_and!; [done|done|lia|lia|done|done|]. intros r Hr. by apply N.ltb_ge, (existsb_false _ _ Hok2 r).
  - intros chain token items Hb. unfold push, exchange. destruct (check_chain chain token); [|done].
    simpl. by destruct (check_push items).
  - intros chain token since Hb. unfold pull, exchange. destruct (check_chain chain token); [|done].
    simpl. by destruct (check_cursor since).
  - intros [|i items] Hb; [done|]. unfold pull_batch, exchange. by destruct (check_batch (i :: items)).
Qed.
End Client.

(** ** Batches *)

Definition total_size (l : list Outgoing) : N := foldr (fun o n => item_size o + n)%N 0%N l.

(** A batch the relay takes: not empty, at most 200 items, at most 512 KiB unless
    it is a single item. *)
Definition batch_ok (batch : list Outgoing) : Prop :=
  1 <= length batch <= PUSH_BATCH_ITEMS /\ ((total_size batch <= PUSH_BATCH_BYTES)%N \/ length batch = 1).

Lemma fill_batch_spec l : forall count bytes batch rest, fill_batch count bytes l = (batch, rest) ->
  l = batch ++ rest
  /\ (0 < count -> count <= PUSH_BATCH_ITEMS -> count + length batch <= PUSH_BATCH_ITEMS)
  /\ (0 < count -> batch = [] \/ (bytes + total_size batch <= PUSH_BATCH_BYTES)%N).
Proof.
  induction l as [|o l IH]; intros count bytes batch rest Hf; cbn [fill_batch] in Hf.
  { injection Hf as <- <-. split_and!; [done|simpl; lia|by left]. }
  destruct (_ && _) eqn:Hc in Hf.
  { injection Hf as <- <-. split_and!; [done|simpl; lia|by left]. }
  destruct (fill_batch (S count) _ l) as [b r] eqn:Hr. injection Hf as <- <-.
  destruct (IH _ _ _ _ Hr) as (-> & Hlen & Hsize). cbn [length total_size foldr]. split_and!; [done| |].
  - intros H0 H1. assert (count < PUSH_BATCH_ITEMS).
    { destruct (Nat.leb_spec PUSH_BATCH_ITEMS count) as [Hle|]; [|done].
      apply andb_false_iff in Hc as [Hc|Hc]; breflect; lia. }
    specialize (Hlen ltac:(lia) ltac:(lia)). lia.
  - intros H0. right. destruct (Hsize ltac:(lia)) as [->|Hs].
    + cbn [total_size foldr]. apply andb_false_iff in Hc as [Hc|Hc]; [breflect; lia|].
      apply orb_false_iff in Hc as [_ Hc]. apply N.ltb_ge in Hc. lia.
    + fold (total_size b). lia.
Qed.

Lemma next_batch_ok o l batch rest : fill_batch 0 0 (o :: l) = (batch, rest) -> batch_ok batch /\ o :: l = batch ++ rest.
Proof.
  intros Hf. cbn [fill_batch Nat.ltb Nat.leb andb] in Hf.
  destruct (fill_batch 1 _ l) as [b r] eqn:Hr. injection Hf as <- <-.
  destruct (fill_batch_spec _ _ _ _ _ Hr) as (-> & Hlen & Hsize). split; [|done].
  assert (Hone : 1 <= PUSH_BATCH_ITEMS) by (apply Nat.leb_le; reflexivity).
  specialize (Hlen ltac:(lia) Hone). split; [cbn [length]; lia|].
  destruct (Hsize ltac:(lia)) as [->|Hs]; [by right|left]. cbn [total_size foldr]. fold (total_size b). lia.
Qed.

Section Push.
Context `{RelayApi}.
Context (chain_id token : str).

(** The relay answered these batches, one after another. *)
Inductive answered : RelayState -> list (list Outgoing * list PushResult) -> RelayState -> Prop :=
| answered_nil relay : answered relay [] relay
| answered_cons relay relay1 relay2 batch results more :
    batch_ok batch -> length results = length batch ->
    api_push relay chain_id token (map o_item batch) = (relay1, Ok (Applied results)) ->
    answered relay1 more relay2 -> answered relay ((batch, results) :: more) relay2.

(** The batch that ended the push, and what it is reported as. *)
Definition stopped (relay relay' : RelayState) (batch : list Outgoing) (frozen : bool) (error : option RelayError) : Prop :=
  batch_ok batch /\ exists answer, api_push relay chain_id token (map o_item batch) = (relay', answer)
  /\ match answer with
     | Err e => frozen = false /\ error = Some e
     | Ok Frozen => frozen = true /\ error = None
     | Ok (Applied results) => length results <> length batch /\ frozen = false
                               /\ error = Some (misaligned (length batch) (length results))
     end.

Definition accepted_in (x : list Outgoing * list PushResult) : list (str * N) :=
  flat_map (fun e => match e.2 with Accepted seq => [(o_key e.1, seq)] | Conflict _ => [] end) (zip x.1 x.2).
Definition is_conflict (e : Outgoing * PushResult) : bool :=
  match e.2 with Conflict _ => true | Accepted _ => false end.
Definition conflicts_in (x : list Outgoing * list PushResult) : N :=
  N.of_nat (length (List.filter is_conflict (zip x.1 x.2))).

Lemma note_results l : forall p,
  let p' := foldl note_result p l in
  accepted p' = accepted p ++ flat_map (fun e => match e.2 with Accepted seq => [(o_key e.1, seq)] | Conflict _ => [] end) l
  /\ pu_conflicts p' = (pu_conflicts p
       + N.of_nat (length (List.filter is_conflict l)))%N
  /\ pu_frozen p' = pu_frozen p /\ pu_error p' = pu_error p.
Proof.
  induction l as [|[o r] l IH]; intros p; cbn [foldl flat_map].
  { rewrite app_nil_r. simpl. split_and!; [done|lia|done|done]. }
  destruct (IH (note_result p (o, r))) as (Ha & Hc & Hf & He). cbv zeta in *. rewrite Ha, Hc, Hf, He.
  destruct r as [seq|cur]; unfold note_result, is_conflict; cbn [fst snd List.filter length accepted pu_conflicts pu_frozen pu_error app].
  - rewrite <-app_assoc. split_and!; (done || lia).
  - split_and!; (done || lia).
Qed.

(** Everything [push_outgoing] can do. *)
Definition push_spec (relay : RelayState) (out : list Outgoing) (p : Pushed) (relay' : RelayState) (p' : Pushed) : Prop :=
  exists done rest relay1,
    out = concat (map fst done) ++ rest /\ answered relay done relay1
    /\ accepted p' = accepted p ++ concat (map accepted_in done)
    /\ pu_conflicts p' = foldl (fun n x => (n + conflicts_in x)%N) (pu_conflicts p) done
    /\ ((rest = [] /\ relay' = relay1 /\ pu_frozen p' = false /\ pu_error p' = None)
        \/ exists batch later, rest = batch ++ later
             /\ stopped relay1 relay' batch (pu_frozen p') (pu_error p')).

Lemma push_loop_spec fuel : forall relay out p relay' p',
  length out <= fuel -> pu_frozen p = false -> pu_error p = None ->
  push_loop fuel relay chain_id token out p = (relay', p') -> push_spec relay out p relay' p'.
Proof.
  induction fuel as [|fuel IH]; intros relay [|o out] p relay' p' Hfuel Hpf Hpe Hp; cbn [push_loop length] in *;
    [|lia| |]; try (injection Hp as <- <-; exists [], [], relay; split_and!;
      [done|constructor|by rewrite app_nil_r|done|left; by rewrite Hpf, Hpe]).
  destruct (fill_batch 0 0 (o :: out)) as [batch rest] eqn:Hb.
  destruct (next_batch_ok _ _ _ _ Hb) as [Hok Hsplit].
  destruct (api_push relay chain_id token (map o_item batch)) as [relay1 answer] eqn:Ha.
  assert (Hstop : forall q, relay' = relay1 -> p' = q -> accepted q = accepted p -> pu_conflicts q = pu_conflicts p ->
    stopped relay relay1 batch (pu_frozen q) (pu_error q) -> push_spec relay (o :: out) p relay' p').
  { intros q -> -> Hqa Hqc Hs. exists [], (o :: out), relay. split_and!; [done|constructor| |done|].
    - by rewrite app_nil_r.
    - right. by exists batch, rest. }
  destruct answer as [[results|]|e]; cbn [with_error with_frozen] in Hp.
  - destruct (length results =? length batch) eqn:Hl; cbn [negb] in Hp.
    + apply Nat.eqb_eq in Hl. destruct (note_results (zip batch results) p) as (Na & Nc & Nf & Ne). cbv zeta in *.
      apply IH in Hp as (done & rest' & relay2 & -> & Hans & Hacc & Hcon & Hend);
        [|destruct Hok as [[Hlen _] _]; apply (f_equal length) in Hsplit; rewrite length_app in Hsplit; simpl in Hsplit; lia
         |congruence|congruence].
      exists ((batch, results) :: done), rest', relay2. rewrite Hsplit. cbn [map concat fst foldl].
      split_and!; [by rewrite app_assoc|by econstructor|by rewrite Hacc, Na, <-app_assoc|by rewrite Hcon, Nc|done].
    + injection Hp as <- <-. eapply Hstop; try done. split; [done|]. eexists. split; [exact Ha|].
      by apply Nat.eqb_neq in Hl.
  - injection Hp as <- <-. eapply Hstop; try done. split; [done|]. eexists. by split; [exact Ha|].
  - injection Hp as <- <-. eapply Hstop; try done. split; [done|]. eexists. by split; [exact Ha|].
Qed.

(** C33. A push sends every item once, in order, in batches the relay takes, and
    reports exactly what the relay answered: the items are cut into non-empty
    batches of at most 200 items and 512 KiB; the batches that were answered item
    by item give, in order, the accepted keys with the relay's numbers and the
    number of conflicts; and either all items were answered, with no error, or the
    push stopped at the first batch that failed, was frozen or was answered with
    the wrong number of results, which is what it reports, and nothing of that
    batch counts as accepted. *)
Theorem push_outgoing_exact (relay : RelayState) (out : list Outgoing) :
  let '(relay', pushed) := push_outgoing relay chain_id token out in
  exists done rest relay1,
    out = concat (map fst done) ++ rest /\ answered relay done relay1
    /\ accepted pushed = concat (map accepted_in done)
    /\ pu_conflicts pushed = foldl (fun n x => (n + conflicts_in x)%N) 0%N done
    /\ ((rest = [] /\ relay' = relay1 /\ pu_frozen pushed = false /\ pu_error pushed = None)
        \/ exists batch later, rest = batch ++ later
             /\ stopped relay1 relay' batch (pu_frozen pushed) (pu_error pushed)).
Proof.
  destruct (push_outgoing relay chain_id token out) as [relay' pushed] eqn:Hp. unfold push_outgoing in Hp.
  by apply push_loop_spec in Hp.
Qed.
End Push.
