(* ===== verification/RecordMerge.v ===== *)
(** * RecordMerge: merging what the relay sends, and what is sent to it

    [src-tauri/src/sync/record_merge.rs]: opening envelopes, the gate an account
    must pass, the last-writer-wins merge of a pull into a section, the rows to
    push and the receipts of a push.  A row this version cannot read stays
    sealed; a pull is applied as a whole or not at all.

    Clearing decrypted values from memory is not part of the model. *)

From S2P Require Import Prelude Text BTreeMap SlotRules Json SyncRecord RecordsTypes RecordsValidate RecordsState RepositoryCore GroupOrderEdit Crypto Relay.

Definition MAX_RELAY_SEQ : N := 9007199254740991.

Record MetaPayloadV3 := mkMetaV3 {
  m_schema_version : N; m_created_by : str; m_migration : option MigrationGate
}.

(** [record::SpacePayload] and [record::DevicePayload]. *)
Record SpacePayload := mkSpacePayload {
  sp_schema : N; sp_name : str; sp_slug : str; sp_created_at_ms : N; sp_previous_id : option str
}.
Record DeviceSlot := mkDeviceSlot {
  ds_slot_id : str; ds_fingerprint : option str; ds_synced_copy : bool; ds_in_vault : bool
}.
Record DevicePayload := mkDevicePayload {
  dp_schema : N; dp_name : str; dp_platform : str; dp_joined_at_ms : N; dp_last_seen_ms : N;
  dp_keys : list str; dp_spaces : list str; dp_slots : list DeviceSlot
}.

Inductive AccountGate :=
| Compatible
| NeedsMigration (schema : N)
| NeedsUpdate (schema : N)
| MigrationPending (g : MigrationGate)
| InvalidMigration
| InvalidPull.

Inductive DiagnosticCode := Unreadable | Unsupported | InvalidShape | OpaqueConflict.

Record MergeDiagnostic := mkDiagnostic { d_kind : str; d_id_hash : str; d_code : DiagnosticCode }.

Record TypedMergeOutcome (S : Type) := mkOutcome {
  mo_section : S; mo_gate : AccountGate; mo_observed_schema : option N; mo_skipped : N;
  mo_conflicts : list str; mo_diagnostics : list MergeDiagnostic; mo_baseline_established : bool
}.
Arguments mkOutcome {S}.
Arguments mo_section {S}.
Arguments mo_gate {S}.
Arguments mo_observed_schema {S}.
Arguments mo_skipped {S}.
Arguments mo_conflicts {S}.
Arguments mo_diagnostics {S}.
Arguments mo_baseline_established {S}.

Inductive ExpectedRevision := EPublic (r : Rec) | ESealed (e : Envelope).
Record TypedOutgoing := mkTypedOutgoing { outgoing_of : Outgoing; expected_of : ExpectedRevision }.

#[export] Instance migration_gate_eq_dec : EqDecision MigrationGate.
Proof. solve_decision. Defined.
#[export] Instance account_gate_eq_dec : EqDecision AccountGate.
Proof. solve_decision. Defined.

(** [Value::as_str], [Value::as_bool], [Value::as_object]. *)
Definition as_str (v : Json) : option str := match v with JString s => Some s | _ => None end.
Definition as_bool (v : Json) : option bool := match v with JBool b => Some b | _ => None end.
Definition as_object (v : Json) : option (btree Json) := match v with JObject m => Some m | _ => None end.

(** The members [serde] writes for a [Record], in the order of a JSON map. *)
Definition record_json (r : Rec) : Json :=
  JObject [(lit "deleted", JBool (rdeleted r)); (lit "device_id", JString (rdevice_id r));
           (lit "id", JString (rid r)); (lit "kind", JString (kind_as_str (rkind r)));
           (lit "payload", rpayload r); (lit "updated_at_ms", JNumber (PosInt (rupdated_at_ms r)));
           (lit "version", JNumber (PosInt (rversion r)))].

(** What the merge takes from outside: the cryptography, the JSON text of a
    value and of a record, and the derived serialization of three payloads. *)
Class MergeEnv := {
  me_records :: RecordEnv;
  me_crypto :: CryptoLib;
  me_meta :: Serde MetaPayloadV3;
  me_space :: Serde SpacePayload;
  me_device :: Serde DevicePayload;
  json_from_slice : list N -> option Json;
  record_to_vec : Rec -> option (list N);
  record_text : forall r b, record_to_vec r = Some b -> json_from_slice b = Some (record_json r)
}.

Definition failure : AppError := AOther (lit "typed sync record is invalid or unavailable").

Definition RECORD_FIELDS : list str :=
  [lit "kind"; lit "id"; lit "version"; lit "updated_at_ms"; lit "device_id"; lit "deleted"; lit "payload"].
Definition LEGACY_OWN_FIELDS : list str :=
  [lit "schema"; lit "name"; lit "mode"; lit "origin_device_id"; lit "created_at_ms"; lit "public_key";
   lit "fingerprint"; lit "key_type"; lit "has_passphrase"].

Definition in_strs (l : list str) (x : str) : bool := existsb (fun y => y =?= x) l.

(** [u32::try_from(n).unwrap_or(u32::MAX)]. *)
Definition clamp_u32 (n : N) : N := N.min n u32_max.

(** [schema.into_iter().chain(other).max()]. *)
Definition opt_max (a b : option N) : option N :=
  match a, b with Some x, Some y => Some (N.max x y) | Some x, None => Some x | None, o => o end.

Section Merge.
Context {E : MergeEnv}.

Definition envelope_body (e : Envelope) : Sealed := mkSealedBody (eid_hash e) (enonce e) (eciphertext e).

(** ** Opening and sealing *)

Definition open_record (keys : ChainKeys) (e : Envelope) : result DiagnosticCode Rec :=
  kind ← ok_or (kind_parse (ekind e)) Unsupported;
  bytes ← map_err (fun _ => Unreadable) (open keys (ekind e) (eid_hash e) (envelope_body e));
  value ← ok_or (json_from_slice bytes) Unreadable;
  fields ← ok_or (as_object value) InvalidShape;
  _ ← guard_err (existsb (fun k => negb (in_strs RECORD_FIELDS k)) (bt_keys fields)) Unsupported;
  wire_kind ← ok_or (s ← bt_get (lit "kind") fields ≫= as_str; kind_parse s) InvalidShape;
  id ← ok_or (bt_get (lit "id") fields ≫= as_str) InvalidShape;
  version ← ok_or (bt_get (lit "version") fields ≫= as_u64) InvalidShape;
  updated ← ok_or (bt_get (lit "updated_at_ms") fields ≫= as_u64) InvalidShape;
  device ← ok_or (bt_get (lit "device_id") fields ≫= as_str) InvalidShape;
  deleted ← ok_or (bt_get (lit "deleted") fields ≫= as_bool) InvalidShape;
  payload ← ok_or (bt_get (lit "payload") fields) InvalidShape;
  let r := mkRec wire_kind id version updated device deleted payload in
  _ ← guard_err (negb (rkind r =?= kind) || negb (Bool.eqb (rdeleted r) (edeleted e))
                 || negb (id_hash keys (kind_as_str kind) (rid r) =?= eid_hash e)) InvalidShape;
  Ok r.

Definition encode_record (keys : ChainKeys) (r : Rec) (base_seq : N) (nonce : option (list N))
  : result AppError PushItem :=
  bytes ← ok_or (record_to_vec r) failure;
  sealed ← seal keys (kind_as_str (rkind r)) (rid r) bytes nonce;
  Ok (mkPush (sb_id_hash sealed) (kind_as_str (rkind r)) (sb_nonce sealed) (sb_ciphertext sealed)
        (rdeleted r) base_seq).

(** An uploaded item as the relay returns it with its sequence number. *)
Definition envelope_of (i : PushItem) (seq : N) : Envelope :=
  mkEnvelope (pu_id_hash i) (pu_kind i) seq (pu_nonce i) (pu_ciphertext i) (pu_deleted i).

Definition json_schema (v : Json) : option N := json_u64 (lit "schema") v.
Definition json_str (k : str) (v : Json) : option str := json_get k v ≫= as_str.

Definition valid_secret (r : Rec) : bool :=
  let id_valid := match rkind r with
                  | KKey => is_slot_id (rid r)
                  | KSpaceKey => is_chain_id (rid r)
                  | _ => false
                  end in
  if negb id_valid then false
  else if rdeleted r then json_is_null (rpayload r) || (json_schema (rpayload r) =?= Some 1%N)
  else if negb (json_schema (rpayload r) =?= Some 1%N) then false
  else match rkind r with
       | KKey => is_some_and (fun t => negb (t =?= []) && (str_len t <=? 16 * 1024)%nat)
                   (json_str (lit "private_key") (rpayload r))
       | KSpaceKey =>
           is_some_and is_chain_id (json_str (lit "auth_token") (rpayload r))
           && is_some_and (fun b => (length b =? 32)%nat)
                (json_str (lit "enc_key") (rpayload r) ≫= b64_decode)
       | _ => false
       end.

Definition seal_secret_record (keys : ChainKeys) (r : Rec) (base_seq : N) (nonce : option (list N))
  : result AppError SealedRecord :=
  _ ← guard_err (negb (is_secret (rkind r)) || negb (valid_secret r)) failure;
  item ← encode_record keys r base_seq nonce;
  Ok (mkSealed (envelope_of item base_seq) true None).

(** ** The account gate *)

Definition meta_schema (r : Rec) : option N :=
  clamp_u32 <$> json_u64 (lit "schema_version") (rpayload r).

Definition valid_meta (r : Rec) : result AccountGate MetaPayloadV3 :=
  _ ← guard_err (rdeleted r) InvalidMigration;
  meta ← map_err (fun _ => InvalidMigration) (from_value (T := MetaPayloadV3) (rpayload r));
  _ ← guard_err (negb ((MIN_ACCOUNT_SCHEMA <=? m_schema_version meta)%N
                       && (m_schema_version meta <=? ACCOUNT_SCHEMA)%N))
        (NeedsMigration (m_schema_version meta));
  _ ← match m_migration meta with
      | Some marker => map_err (fun _ => InvalidMigration) (validate_migration_gate marker)
      | None => Ok tt
      end;
  Ok meta.

Definition authenticated_future_schema (keys : ChainKeys) (e : Envelope) : option N :=
  bytes ← result_ok (open keys (lit "meta") (eid_hash e) (envelope_body e));
  value ← json_from_slice bytes;
  fields ← as_object value;
  kind ← bt_get (lit "kind") fields ≫= as_str;
  if negb (kind =?= lit "meta") then None else
  id ← bt_get (lit "id") fields ≫= as_str;
  if negb (id =?= ACCOUNT_META_ID) then None else
  deleted ← bt_get (lit "deleted") fields ≫= as_bool;
  if negb (Bool.eqb deleted (edeleted e))
     || negb (id_hash keys (lit "meta") ACCOUNT_META_ID =?= eid_hash e) then None else
  schema ← bt_get (lit "payload") fields ≫= json_u64 (lit "schema_version");
  if (ACCOUNT_SCHEMA <? schema)%N then Some (clamp_u32 schema) else None.

(** What the loop over the pulled metadata rows keeps. *)
Record GateScan := mkScan { gs_schema : option N; gs_winner : option LocalRecord; gs_unreadable : bool }.

Definition gate_row (keys : ChainKeys) (g : GateScan) (e : Envelope) : GateScan :=
  match open_record keys e with
  | Ok remote =>
      mkScan (opt_max (gs_schema g) (meta_schema remote))
        (if negb (merge (gs_winner g) remote =?= KeepLocal)
         then Some (mkLocal remote (eseq e) false) else gs_winner g)
        (gs_unreadable g)
  | Err _ => mkScan (opt_max (gs_schema g) (authenticated_future_schema keys e)) (gs_winner g) true
  end.

Definition gate_scan (a : AccountState) (keys : ChainKeys) (pulled : PullResponse) : GateScan :=
  let winner := bt_get (record_key KMeta ACCOUNT_META_ID) (a_records a) in
  let schema := match winner with
                | Some l => opt_max (remote_schema_version a) (meta_schema (lrecord l))
                | None => remote_schema_version a
                end in
  let meta_hash := id_hash keys (lit "meta") ACCOUNT_META_ID in
  foldl (gate_row keys) (mkScan schema winner false)
    (List.filter (fun e => (ekind e =?= lit "meta") && (eid_hash e =?= meta_hash)) (pull_records pulled)).

Definition account_gate (a : AccountState) (keys : ChainKeys) (pulled : PullResponse)
  : AccountGate * option N :=
  if negb (chain_id a =?= ck_chain_id keys) then (InvalidPull, None)
  else
    let g := gate_scan a keys pulled in
    let schema := gs_schema g in
    match opt_filter (fun s => (ACCOUNT_SCHEMA <? s)%N) schema with
    | Some s => (NeedsUpdate s, Some s)
    | None =>
        if gs_unreadable g then (InvalidMigration, schema)
        else match gs_winner g with
             | None => (NeedsMigration (default 0%N schema), schema)
             | Some winner =>
                 match meta_schema (lrecord winner) with
                 | None => (InvalidMigration, schema)
                 | Some winning =>
                     if (winning <? MIN_ACCOUNT_SCHEMA)%N then (NeedsMigration winning, schema)
                     else match valid_meta (lrecord winner) with
                          | Ok meta =>
                              match opt_filter (fun m => negb (gate_phase m =?= Active)) (m_migration meta) with
                              | Some marker => (MigrationPending marker, schema)
                              | None => (Compatible, schema)
                              end
                          | Err gate => (gate, schema)
                          end
                 end
             end
    end.

(** ** Unreadable rows *)

Definition legacy_own_payload (payload : Json) : bool :=
  match as_object payload with
  | None => false
  | Some fields =>
      negb (existsb (fun k => negb (in_strs LEGACY_OWN_FIELDS k)) (bt_keys fields))
      && (json_schema payload =?= Some 1%N)
      && (json_str (lit "mode") payload =?= Some (lit "own"))
      && is_some_and valid_slot_name (json_str (lit "name") payload)
      && is_some_and is_slot_id (json_str (lit "origin_device_id") payload)
      && is_some (json_u64 (lit "created_at_ms") payload)
      && forallb (fun k => is_none_or json_is_null (json_get k payload))
           [lit "public_key"; lit "fingerprint"; lit "key_type"; lit "has_passphrase"]
  end.

(** The alias and text of a host of the earlier format. *)
Definition legacy_alias_payload (payload : Json) : bool :=
  match as_object payload with
  | None => false
  | Some fields => (length fields =? 2)%nat && (json_schema payload =?= Some 1%N)
                   && is_some (json_str (lit "text") payload)
  end.

Definition verified_public_identity (keys : ChainKeys) (e : Envelope) (acct : bool)
  : option VerifiedPublicIdentity :=
  if negb (if acct then (ekind e =?= lit "keyslot") || (ekind e =?= lit "meta")
           else (ekind e =?= lit "host") || (ekind e =?= lit "group")) then None else
  bytes ← result_ok (open keys (ekind e) (eid_hash e) (envelope_body e));
  value ← json_from_slice bytes;
  fields ← as_object value;
  id ← bt_get (lit "id") fields ≫= as_str;
  kind ← bt_get (lit "kind") fields ≫= as_str;
  if negb (kind =?= ekind e) || negb (id_hash keys (ekind e) id =?= eid_hash e) then None else
  actor ← bt_get (lit "device_id") fields ≫= as_str;
  version ← bt_get (lit "version") fields ≫= as_u64;
  deleted ← bt_get (lit "deleted") fields ≫= as_bool;
  let known_id := if acct && (ekind e =?= lit "meta") then id =?= ORDER_RECORD_ID
                  else if acct then is_slot_id id else is_host_id id in
  if negb known_id || negb (is_slot_id actor) || (version =? 0)%N || negb (Bool.eqb deleted (edeleted e))
  then None else
  updated ← bt_get (lit "updated_at_ms") fields ≫= as_u64;
  if (length fields =? 7)%nat && negb deleted
     && is_some_and (fun payload => (ekind e =?= lit "host") && legacy_alias_payload payload
                                    || (ekind e =?= lit "keyslot") && legacy_own_payload payload)
          (bt_get (lit "payload") fields)
  then None else Some (mkIdentity id version updated actor deleted).

Definition is_legacy_alias_host (keys : ChainKeys) (e : Envelope) : bool :=
  match open_record keys e with
  | Err _ => false
  | Ok r => (rkind r =?= KHost) && negb (rdeleted r) && legacy_alias_payload (rpayload r)
  end.

(** ** Rows a section may hold *)

Definition valid_public (r : Rec) (acct : bool) (keys : ChainKeys) : bool :=
  let gone := rdeleted r && json_is_null (rpayload r) in
  if acct then
    match rkind r with
    | KMeta => if rid r =?= ACCOUNT_META_ID then is_ok (valid_meta r)
               else if rid r =?= ORDER_RECORD_ID then is_some (decode_order r) else false
    | KKeySlot => is_ok (decode_keyslot r)
                  && (negb (rdeleted r) || json_is_null (rpayload r) || (json_schema (rpayload r) =?= Some 2%N))
    | KSpace => is_chain_id (rid r)
                && (gone || is_some_and (fun p => (sp_schema p =? 1)%N && negb (trim (sp_name p) =?= [])
                                                  && is_none_or is_chain_id (sp_previous_id p))
                              (result_ok (from_value (T := SpacePayload) (rpayload r))))
    | KDevice => is_slot_id (rid r)
                 && (gone || is_some_and (fun p => (dp_schema p =? 1)%N && forallb is_chain_id (dp_spaces p))
                               (result_ok (from_value (T := DevicePayload) (rpayload r))))
    | _ => false
    end
  else if rkind r =?= KGroup then
    is_ok (decode_group r (Space (ck_chain_id keys))) && (negb (rdeleted r) || json_is_null (rpayload r))
  else
    is_ok (decode_host r (Space (ck_chain_id keys)))
    && (negb (rdeleted r) || json_is_null (rpayload r) || (json_schema (rpayload r) =?= Some 2%N)).

Definition header_view (r : Rec) (seq : N) (dirty : bool) : LocalRecord :=
  mkLocal (mkRec (rkind r) (rid r) (rversion r) (rupdated_at_ms r) (rdevice_id r) (rdeleted r) JNull) seq dirty.

Definition same_ciphertext (a b : Envelope) : bool :=
  (ekind a =?= ekind b) && (eid_hash a =?= eid_hash b) && (enonce a =?= enonce b)
  && (eciphertext a =?= eciphertext b) && Bool.eqb (edeleted a) (edeleted b).

Definition with_seq (e : Envelope) (seq : N) : Envelope :=
  mkEnvelope (eid_hash e) (ekind e) seq (enonce e) (eciphertext e) (edeleted e).

(** The local envelope stays, with the later sequence number and fresh evidence. *)
Definition keep_sealed (keys : ChainKeys) (acct : bool) (seq : N) (l : SealedRecord) : SealedRecord :=
  let e := with_seq (senvelope l) seq in
  mkSealed e (sdirty l) (verified_public_identity keys e acct).

Definition retain_opaque (sealed : btree SealedRecord) (keys : ChainKeys) (e : Envelope) (acct : bool)
  : bool * btree SealedRecord :=
  let key := sealed_key (ekind e) (eid_hash e) in
  let replace := bt_insert key (mkSealed e false (verified_public_identity keys e acct)) sealed in
  match bt_get key sealed with
  | None => (true, replace)
  | Some l =>
      if sdirty l && negb (same_ciphertext (senvelope l) e) then (false, sealed)
      else
        let seq := eseq (senvelope l) in
        let keeps := match open_record keys (senvelope l), open_record keys e with
                     | Ok old, Ok remote =>
                         merge (Some (header_view old seq (sdirty l))) remote =?= KeepLocal
                     | _, _ => false
                     end in
        if keeps then (true, bt_update key (keep_sealed keys acct (N.max seq (eseq e))) sealed)
        else if (eseq e <? seq)%N then (true, bt_update key (keep_sealed keys acct seq) sealed)
        else (true, replace)
  end.

(** ** Merging a pull *)

Record MergeState := mkMerge {
  ms_records : btree LocalRecord; ms_sealed : btree SealedRecord;
  ms_conflicts : list str; ms_diagnostics : list MergeDiagnostic
}.

Definition note_conflict (o : MergeOutcome) (key : str) (conflicts : list str) : list str :=
  if o =?= RemoteWinsOverDirtyLocal then conflicts ++ [key] else conflicts.

(** A secret row stays sealed; only headers are compared. *)
Definition merge_secret (keys : ChainKeys) (st : MergeState) (e : Envelope) (remote : Rec) : MergeState :=
  let wire_key := sealed_key (ekind e) (eid_hash e) in
  let l := row ← bt_get wire_key (ms_sealed st);
           old ← result_ok (open_record keys (senvelope row));
           Some (header_view old (eseq (senvelope row)) (sdirty row)) in
  let outcome := merge l remote in
  if outcome =?= KeepLocal then
    mkMerge (ms_records st)
      (bt_update wire_key (fun row => mkSealed (with_seq (senvelope row) (N.max (eseq (senvelope row)) (eseq e)))
                                        (sdirty row) (spublic_identity row)) (ms_sealed st))
      (ms_conflicts st) (ms_diagnostics st)
  else
    mkMerge (ms_records st) (bt_insert wire_key (mkSealed e false None) (ms_sealed st))
      (note_conflict outcome wire_key (ms_conflicts st)) (ms_diagnostics st).

(** An older sealed copy of the row that must not be discarded. *)
Definition blocked_by_sealed (keys : ChainKeys) (st : MergeState) (e : Envelope) (remote : Rec) : bool :=
  is_some_and (fun opaque =>
    match open_record keys (senvelope opaque) with
    | Ok old => merge (Some (header_view old (eseq (senvelope opaque)) (sdirty opaque))) remote =?= KeepLocal
    | Err _ => (eseq e <? eseq (senvelope opaque))%N
    end) (bt_get (sealed_key (ekind e) (eid_hash e)) (ms_sealed st)).

(** A plain row: last writer wins; the sealed copy goes once it is read. *)
Definition merge_public (st : MergeState) (e : Envelope) (remote : Rec) : MergeState :=
  let wire_key := sealed_key (ekind e) (eid_hash e) in
  let key := record_key (rkind remote) (rid remote) in
  let outcome := merge (bt_get key (ms_records st)) remote in
  let records :=
    if outcome =?= KeepLocal
    then bt_update key (fun l => mkLocal (lrecord l) (N.max (lseq l) (eseq e)) (ldirty l)) (ms_records st)
    else bt_insert key (mkLocal remote (eseq e) false) (ms_records st) in
  let sealed :=
    if is_some_and sdirty (bt_get wire_key (ms_sealed st)) then ms_sealed st
    else bt_remove wire_key (ms_sealed st) in
  mkMerge records sealed (note_conflict outcome key (ms_conflicts st)) (ms_diagnostics st).

Definition row_valid (keys : ChainKeys) (acct : bool) (r : Rec) : bool :=
  if is_secret (rkind r) then acct && valid_secret r else valid_public r acct keys.

(** One row of [merge_rows]; [false] gives the pull up. *)
Definition merge_row (keys : ChainKeys) (acct : bool) (st : MergeState) (e : Envelope) : bool * MergeState :=
  let opaque code :=
    let diagnostics := ms_diagnostics st ++ [mkDiagnostic (ekind e) (eid_hash e) code] in
    let '(ok, sealed) := retain_opaque (ms_sealed st) keys e acct in
    (ok, mkMerge (ms_records st) sealed (ms_conflicts st) diagnostics) in
  match open_record keys e with
  | Err code => opaque code
  | Ok remote =>
      if negb (row_valid keys acct remote) then opaque Unsupported
      else if is_secret (rkind remote) then (true, merge_secret keys st e remote)
      else if blocked_by_sealed keys st e remote then (false, st)
      else (true, merge_public st e remote)
  end.

Fixpoint merge_rows (keys : ChainKeys) (acct : bool) (rows : list Envelope) (st : MergeState)
  : bool * MergeState :=
  match rows with
  | [] => (true, st)
  | e :: rows' =>
      let '(ok, st') := merge_row keys acct st e in
      if ok then merge_rows keys acct rows' st' else (false, st')
  end.

(** The group order an older client kept sealed. *)
Definition admit_retained_group_order (keys : ChainKeys) (st : MergeState) : bool * MergeState :=
  let wire_key := sealed_key (lit "meta") (id_hash keys (lit "meta") ORDER_RECORD_ID) in
  match bt_get wire_key (ms_sealed st) with
  | None => (true, st)
  | Some retained =>
      if sdirty retained then (true, st)
      else
        let e := senvelope retained in
        if negb (is_some_and (fun r => is_some (decode_order r)) (result_ok (open_record keys e)))
        then (true, mkMerge (ms_records st)
                      (bt_update wire_key (fun row => mkSealed (senvelope row) (sdirty row)
                                                        (verified_public_identity keys e true)) (ms_sealed st))
                      (ms_conflicts st) (ms_diagnostics st))
        else merge_rows keys true [e]
               (mkMerge (ms_records st) (bt_remove wire_key (ms_sealed st)) (ms_conflicts st) (ms_diagnostics st))
  end.

(** [valid_pull]. *)
Fixpoint distinct_rows (since latest : N) (seqs : list N) (ids : list (str * str)) (rows : list Envelope) : bool :=
  match rows with
  | [] => true
  | e :: rows' =>
      (since <? eseq e)%N && (eseq e <=? latest)%N && negb (existsb (N.eqb (eseq e)) seqs)
      && negb (existsb (fun i => i =?= (ekind e, eid_hash e)) ids)
      && distinct_rows since latest (eseq e :: seqs) ((ekind e, eid_hash e) :: ids) rows'
  end.

Definition valid_pull (cursor : N) (baseline : bool) (known_seq : N) (pulled : PullResponse) (since : N) : bool :=
  let latest := pull_latest_seq pulled in
  if (MAX_RELAY_SEQ <? latest)%N || (negb baseline && negb (since =? 0)%N)
     || (baseline && negb (since =? 0)%N && negb (since =? cursor)%N)
     || (latest <? cursor)%N || (latest <? known_seq)%N || (latest <? since)%N
  then false
  else distinct_rows since latest [] [] (pull_records pulled).

Definition max_seq (records : btree LocalRecord) (sealed : btree SealedRecord) : N :=
  default 0%N (max_opt (map lseq (bt_values records) ++ map (fun r => eseq (senvelope r)) (bt_values sealed))).

Definition diagnostics_count (l : list MergeDiagnostic) : N := clamp_u32 (N.of_nat (length l)).

Definition set_account_rows (a : AccountState) (records : btree LocalRecord) (sealed : btree SealedRecord)
    (cursor : N) (schema : option N) : AccountState :=
  mkAccount (chain_id a) cursor true schema (frozen a) records sealed (chain_deletes a).

Definition set_space_rows (s : SpaceStateV3) (records : btree LocalRecord) (sealed : btree SealedRecord)
    (cursor : N) : SpaceStateV3 :=
  mkSpace (selected s) cursor true records sealed (s_last_error s) (missing s).

(** A pull that cannot be applied leaves the section as it was. *)
Definition rejected {S} (section : S) (schema : option N) (baseline : bool) (st : MergeState)
  : TypedMergeOutcome S :=
  mkOutcome section InvalidPull schema (diagnostics_count (ms_diagnostics st)) []
    (ms_diagnostics st ++ [mkDiagnostic [] [] OpaqueConflict]) baseline.

Definition merge_account (a : AccountState) (keys : ChainKeys) (pulled : PullResponse) (since : N)
  : TypedMergeOutcome AccountState :=
  let '(gate, schema) := account_gate a keys pulled in
  let baseline := a_baseline_established a in
  if negb (gate =?= Compatible) then mkOutcome a gate schema 0 [] [] baseline
  else if negb (valid_pull (a_cursor_seq a) baseline (max_seq (a_records a) (a_sealed a)) pulled since)
  then mkOutcome a InvalidPull schema 0 [] [] baseline
  else
    let '(ok, st) := admit_retained_group_order keys (mkMerge (a_records a) (a_sealed a) [] []) in
    let '(ok, st) := if ok then merge_rows keys true (pull_records pulled) st else (false, st) in
    if negb ok then rejected a schema baseline st
    else mkOutcome (set_account_rows a (ms_records st) (ms_sealed st) (pull_latest_seq pulled) schema)
           Compatible schema (diagnostics_count (ms_diagnostics st)) (ms_conflicts st) (ms_diagnostics st) true.

Definition merge_space (s : SpaceStateV3) (keys : ChainKeys) (pulled : PullResponse) (since : N)
    (gate : AccountGate) : TypedMergeOutcome SpaceStateV3 :=
  let baseline := s_baseline_established s in
  if negb (gate =?= Compatible) then mkOutcome s gate None 0 [] [] baseline
  else if negb (valid_pull (s_cursor_seq s) baseline (max_seq (s_records s) (s_sealed s)) pulled since)
  then mkOutcome s InvalidPull None 0 [] [] baseline
  else
    let '(ok, st) := merge_rows keys false (pull_records pulled) (mkMerge (s_records s) (s_sealed s) [] []) in
    if negb ok then rejected s None baseline st
    else mkOutcome (set_space_rows s (ms_records st) (ms_sealed st) (pull_latest_seq pulled))
           Compatible None (diagnostics_count (ms_diagnostics st)) (ms_conflicts st) (ms_diagnostics st) true.
End Merge.
