(* ===== verification/RecordPush.v ===== *)
(** * RecordPush: the rows to push, their receipts, and the secrets of a section

    [src-tauri/src/sync/record_merge.rs], the sending side.  The nonces of the
    envelopes that are sealed on the way are an argument, one per position. *)

From S2P Require Import Prelude Text BTreeMap SlotRules Json SyncRecord RecordsTypes RecordsValidate RecordsState RepositoryCore Crypto Relay RecordMerge.

Record SecretRevision := mkSecretRevision {
  sr_version : N; sr_updated_at_ms : N; sr_device_id : str; sr_deleted : bool
}.

Abbreviation aresult := (result AppError).

Section Push.
Context {E : MergeEnv}.

(** ** Secrets *)

Definition opened_secret (a : AccountState) (keys : ChainKeys) (kind : RecordKind) (id : str)
  : aresult (option Rec) :=
  _ ← guard_err (negb (chain_id a =?= ck_chain_id keys)) failure;
  match bt_get (sealed_key (kind_as_str kind) (id_hash keys (kind_as_str kind) id)) (a_sealed a) with
  | None => Ok None
  | Some sealed =>
      r ← map_err (fun _ => failure) (open_record keys (senvelope sealed));
      _ ← guard_err (negb (rkind r =?= kind) || negb (rid r =?= id) || negb (valid_secret r)) failure;
      Ok (if rdeleted r then None else Some r)
  end.

Definition live_metadata (a : AccountState) (keys : ChainKeys) (kind : RecordKind) (id : str)
  : aresult bool :=
  _ ← guard_err (negb (chain_id a =?= ck_chain_id keys)) failure;
  match bt_get (record_key kind id) (a_records a) with
  | None => Ok false
  | Some row =>
      if rdeleted (lrecord row) then Ok false
      else
        _ ← guard_err (negb (valid_public (lrecord row) true keys)
                       || bt_contains_key (sealed_key (kind_as_str kind) (id_hash keys (kind_as_str kind) id))
                            (a_sealed a)) failure;
        Ok true
  end.

Definition space_keys (a : AccountState) (keys : ChainKeys) (id : str) : aresult (option ChainKeys) :=
  live ← live_metadata a keys KSpace id;
  if negb live then Ok None
  else
    opened ← opened_secret a keys KSpaceKey id;
    match opened with
    | None => Ok None
    | Some r =>
        token ← ok_or (json_str (lit "auth_token") (rpayload r)) failure;
        encoded ← ok_or (json_str (lit "enc_key") (rpayload r)) failure;
        k ← from_parts id token encoded;
        Ok (Some k)
    end.

Definition key_secret (a : AccountState) (keys : ChainKeys) (id : str) : aresult (option str) :=
  live ← live_metadata a keys KKeySlot id;
  if negb live then Ok None
  else
    opened ← opened_secret a keys KKey id;
    match opened with
    | None => Ok None
    | Some r =>
        text ← ok_or (json_str (lit "private_key") (rpayload r)) failure;
        Ok (Some text)
    end.

Definition secret_revision (a : AccountState) (keys : ChainKeys) (kind : RecordKind) (id : str)
  : aresult (option SecretRevision) :=
  _ ← guard_err (negb (chain_id a =?= ck_chain_id keys) || negb ((kind =?= KKey) || (kind =?= KSpaceKey))) failure;
  match bt_get (sealed_key (kind_as_str kind) (id_hash keys (kind_as_str kind) id)) (a_sealed a) with
  | None => Ok None
  | Some sealed =>
      r ← map_err (fun _ => failure) (open_record keys (senvelope sealed));
      _ ← guard_err (negb (rkind r =?= kind) || negb (rid r =?= id) || negb (valid_secret r)) failure;
      Ok (Some (mkSecretRevision (rversion r) (rupdated_at_ms r) (rdevice_id r) (rdeleted r)))
  end.

Definition legacy_own_slot_revision (a : AccountState) (keys : ChainKeys) (id : str)
  : aresult (option SecretRevision) :=
  _ ← guard_err (negb (chain_id a =?= ck_chain_id keys) || negb (is_slot_id id)) failure;
  match bt_get (sealed_key (lit "keyslot") (id_hash keys (lit "keyslot") id)) (a_sealed a) with
  | None => Ok None
  | Some sealed =>
      r ← map_err (fun _ => failure) (open_record keys (senvelope sealed));
      _ ← guard_err (negb (rkind r =?= KKeySlot) || negb (rid r =?= id) || rdeleted r
                     || negb (legacy_own_payload (rpayload r))) failure;
      Ok (Some (mkSecretRevision (rversion r) (rupdated_at_ms r) (rdevice_id r) false))
  end.

(** ** Outgoing rows *)

(** A dirty plain row is sealed under its current sequence number. *)
Definition public_outgoing (sealed : btree SealedRecord) (keys : ChainKeys) (acct : bool)
    (nonce : nat -> option (list N)) (out : list TypedOutgoing) (e : str * LocalRecord)
  : aresult (list TypedOutgoing) :=
  let '(key, row) := e in
  let r := lrecord row in
  _ ← guard_err (is_secret (rkind r) || negb (key =?= record_key (rkind r) (rid r))
                 || negb (valid_public r acct keys)
                 || bt_contains_key (sealed_key (kind_as_str (rkind r))
                      (id_hash keys (kind_as_str (rkind r)) (rid r))) sealed) failure;
  item ← encode_record keys r (lseq row) (nonce (length out));
  Ok (out ++ [mkTypedOutgoing (mkOutgoing key item (rversion r) (rupdated_at_ms r)) (EPublic r)]).

(** A dirty secret row is sent as it is stored. *)
Definition sealed_outgoing (keys : ChainKeys) (acct : bool) (out : list TypedOutgoing)
    (e : str * SealedRecord) : aresult (list TypedOutgoing) :=
  let '(key, row) := e in
  let env := senvelope row in
  r ← map_err (fun _ => failure) (open_record keys env);
  _ ← guard_err (negb acct || negb (is_secret (rkind r)) || negb (valid_secret r)
                 || negb (key =?= sealed_key (ekind env) (eid_hash env))) failure;
  let item := mkPush (eid_hash env) (ekind env) (enonce env) (eciphertext env) (edeleted env) (eseq env) in
  Ok (out ++ [mkTypedOutgoing (mkOutgoing key item (rversion r) (rupdated_at_ms r)) (ESealed env)]).

Definition outgoing (records : btree LocalRecord) (sealed : btree SealedRecord) (keys : ChainKeys) (acct : bool)
    (nonce : nat -> option (list N)) : aresult (list TypedOutgoing) :=
  out ← try_fold (public_outgoing sealed keys acct nonce) [] (List.filter (fun e => ldirty e.2) records);
  try_fold (sealed_outgoing keys acct) out (List.filter (fun e => sdirty e.2) sealed).

Definition account_outgoing (a : AccountState) (keys : ChainKeys) (nonce : nat -> option (list N))
  : aresult (list TypedOutgoing) :=
  let '(gate, _) := account_gate a keys (mkPull [] (a_cursor_seq a)) in
  _ ← guard_err (negb (gate =?= Compatible) || negb (a_baseline_established a) || is_some (frozen a)) failure;
  outgoing (a_records a) (a_sealed a) keys true nonce.

Definition space_outgoing (s : SpaceStateV3) (keys : ChainKeys) (gate : AccountGate)
    (nonce : nat -> option (list N)) : aresult (list TypedOutgoing) :=
  _ ← guard_err (negb (gate =?= Compatible) || negb (s_baseline_established s) || negb (selected s)
                 || missing s) failure;
  outgoing (s_records s) (s_sealed s) keys false nonce.

(** ** Receipts *)

Definition public_receipt (expected : Rec) (seq : N) (row : LocalRecord) : LocalRecord :=
  if ldirty row && (lrecord row =?= expected) && (lseq row <=? seq)%N
  then mkLocal (lrecord row) seq false else row.

Definition sealed_receipt (expected : Envelope) (seq : N) (row : SealedRecord) : SealedRecord :=
  if sdirty row && same_ciphertext (senvelope row) expected && (eseq (senvelope row) <=? seq)%N
  then mkSealed (with_seq (senvelope row) seq) false (spublic_identity row) else row.

(** One accepted row: it becomes clean only if it still is what was sent. *)
Definition apply_receipt (sent : list TypedOutgoing) (st : btree LocalRecord * btree SealedRecord)
    (e : str * N) : btree LocalRecord * btree SealedRecord :=
  let '(records, sealed) := st in
  let '(key, seq) := e in
  match List.find (fun o => o_key (outgoing_of o) =?= key) sent with
  | None => st
  | Some o =>
      if (seq =? 0)%N || (MAX_RELAY_SEQ <? seq)%N || (seq <? pu_base_seq (o_item (outgoing_of o)))%N then st
      else match expected_of o with
           | EPublic expected => (bt_update key (public_receipt expected seq) records, sealed)
           | ESealed expected => (records, bt_update key (sealed_receipt expected seq) sealed)
           end
  end.

Definition apply_receipts (records : btree LocalRecord) (sealed : btree SealedRecord)
    (sent : list TypedOutgoing) (pushed : Pushed) : btree LocalRecord * btree SealedRecord :=
  foldl (apply_receipt sent) (records, sealed) (accepted pushed).

Definition apply_account_receipts (a : AccountState) (sent : list TypedOutgoing) (pushed : Pushed)
  : AccountState :=
  let '(records, sealed) := apply_receipts (a_records a) (a_sealed a) sent pushed in
  mkAccount (chain_id a) (a_cursor_seq a) (a_baseline_established a) (remote_schema_version a) (frozen a)
    records sealed (chain_deletes a).

Definition apply_space_receipts (s : SpaceStateV3) (sent : list TypedOutgoing) (pushed : Pushed)
  : SpaceStateV3 :=
  let '(records, sealed) := apply_receipts (s_records s) (s_sealed s) sent pushed in
  mkSpace (selected s) (s_cursor_seq s) (s_baseline_established s) records sealed (s_last_error s) (missing s).
End Push.
