(* ===== verification/RecordMergeProps.v ===== *)
(** * RecordMergeProps: what merging a pull guarantees *)

From S2P Require Import Prelude Text BTreeMap SlotRules Json SyncRecord RecordsTypes RecordsValidate RecordsState RepositoryCore GroupOrderEdit Crypto Relay RecordMerge RecordPush.

Lemma kind_parse_inv s k : kind_parse s = Some k -> kind_as_str k = s.
Proof. unfold kind_parse. repeat case_bool_decide; intros [= <-]; by subst. Qed.

Section Props.
Context {E : MergeEnv}.

(** ** Envelopes *)

Lemma open_record_binds keys e r :
  open_record keys e = Ok r ->
  kind_as_str (rkind r) = ekind e /\ rdeleted r = edeleted e
  /\ id_hash keys (ekind e) (rid r) = eid_hash e.
Proof.
  unfold open_record. cbv zeta. intros H. ok_inv. breflect.
  match goal with H : kind_parse (ekind e) = Some _ |- _ => apply kind_parse_inv in H; rename H into Hk end.
  repeat match goal with H : Bool.eqb _ _ = true |- _ => apply eqb_prop in H end.
  simpl in *. subst. rewrite <-Hk. done.
Qed.

Lemma record_json_opens keys r e kind :
  kind_parse (ekind e) = Some kind -> rkind r = kind -> rdeleted r = edeleted e ->
  id_hash keys (kind_as_str kind) (rid r) = eid_hash e ->
  (bytes ← map_err (fun _ => Unreadable) (open keys (ekind e) (eid_hash e) (envelope_body e));
   ok_or (json_from_slice bytes) Unreadable) = Ok (record_json r) ->
  open_record keys e = Ok r.
Proof.
  intros Hk <- Hd Hh Hopen. unfold open_record. rewrite Hk. cbn [ok_or mbind result_bind].
  apply bind_Ok in Hopen as (bytes & Hb & Hj). rewrite Hb. cbn [mbind result_bind]. rewrite Hj.
  cbn [mbind result_bind]. unfold record_json, as_object. cbn [ok_or mbind result_bind].
  set (fields := [(lit "deleted", JBool (rdeleted r)); _; _; _; _; _; _]).
  assert (Hkeys : existsb (fun k => negb (in_strs RECORD_FIELDS k)) (bt_keys fields) = false)
    by (vm_compute; reflexivity).
  rewrite Hkeys. cbn [guard_err mbind result_bind].
  assert (H1 : bt_get (lit "kind") fields = Some (JString (kind_as_str (rkind r)))) by reflexivity.
  assert (H2 : bt_get (lit "id") fields = Some (JString (rid r))) by reflexivity.
  assert (H3 : bt_get (lit "version") fields = Some (JNumber (PosInt (rversion r)))) by reflexivity.
  assert (H4 : bt_get (lit "updated_at_ms") fields = Some (JNumber (PosInt (rupdated_at_ms r)))) by reflexivity.
  assert (H5 : bt_get (lit "device_id") fields = Some (JString (rdevice_id r))) by reflexivity.
  assert (H6 : bt_get (lit "deleted") fields = Some (JBool (rdeleted r))) by reflexivity.
  assert (H7 : bt_get (lit "payload") fields = Some (rpayload r)) by reflexivity.
  rewrite H1, H2, H3, H4, H5, H6, H7. clearbody fields. clear H1 H2 H3 H4 H5 H6 H7.
  cbn [mbind option_bind as_str as_u64 as_bool]. rewrite kind_parse_as_str.
  cbn [ok_or mbind result_bind rkind rdeleted rid]. rewrite Hh, Hd, eqb_reflx, !bool_decide_true by done.
  cbn [negb orb guard_err mbind result_bind]. f_equal. by destruct r; simpl in *; subst.
Qed.

Lemma encode_opens keys r base seq nonce item :
  length nonce = NONCE_LEN -> encode_record keys r base (Some nonce) = Ok item ->
  open_record keys (envelope_of item seq) = Ok r.
Proof.
  intros Hlen Henc. unfold encode_record in Henc. ok_inv. rename v into bytes, v0 into sealed.
  destruct (open_seal _ _ _ _ _ _ Hlen Hok0) as [Hhash Hopen].
  apply (record_json_opens _ _ _ (rkind r)); simpl; try done.
  - apply kind_parse_as_str.
  - replace (envelope_body _) with sealed by (by destruct sealed).
    rewrite Hopen. cbn [map_err mbind result_bind]. by rewrite (record_text _ _ Hok).
Qed.

(** End to end: a record sealed by one device opens on another to exactly
    that record, and an envelope only ever opens to a record whose kind, identity
    and deletion flag are the ones the envelope claims. *)
Lemma seal_open_record (keys : ChainKeys) (r : Rec) (base seq : N) (nonce : list N) (item : PushItem)
    (Hlen : length nonce = NONCE_LEN) (Henc : encode_record keys r base (Some nonce) = Ok item) :
  open_record keys (envelope_of item seq) = Ok r
  /\ forall e r', open_record keys e = Ok r' ->
       kind_as_str (rkind r') = ekind e /\ rdeleted r' = edeleted e
       /\ id_hash keys (ekind e) (rid r') = eid_hash e.
Proof.
  split; [by eapply encode_opens|intros e r'; apply open_record_binds].
Qed.

(** ** Rows *)

(** How a cached row may change: it catches up with the relay, or a newer record
    replaces it, and then a local edit that was not sent is reported. *)
Definition advances (conflicts : list str) (key : str) (l l' : LocalRecord) : Prop :=
  (lrecord l' = lrecord l /\ ldirty l' = ldirty l /\ (lseq l <= lseq l')%N)
  \/ (remote_wins (lrecord l') (lrecord l) = true /\ ldirty l' = false
      /\ (ldirty l = true -> key ∈ conflicts)).

Definition rows_advance (conflicts : list str) (before after : btree LocalRecord) : Prop :=
  forall key l, bt_get key before = Some l ->
    exists l', bt_get key after = Some l' /\ advances conflicts key l l'.

Lemma advances_refl conflicts key l : advances conflicts key l l.
Proof. left. split_and!; [done|done|lia]. Qed.

Lemma advances_trans c1 c2 key l1 l2 l3 :
  (forall k, k ∈ c1 -> k ∈ c2) -> advances c1 key l1 l2 -> advances c2 key l2 l3 -> advances c2 key l1 l3.
Proof.
  intros Hc [(E1 & D1 & S1)|(W1 & D1 & C1)] [(E2 & D2 & S2)|(W2 & D2 & C2)].
  - left. split_and!; [congruence|congruence|lia].
  - right. rewrite <-E1, <-D1. done.
  - right. rewrite E2, D2. split_and!; auto.
  - right. split_and!; [by eapply remote_wins_trans|done|auto].
Qed.

Lemma merge_public_rows st e r :
  rows_advance (ms_conflicts (merge_public st e r)) (ms_records st) (ms_records (merge_public st e r))
  /\ (forall k, k ∈ ms_conflicts st -> k ∈ ms_conflicts (merge_public st e r))
  /\ exists l', bt_get (record_key (rkind r) (rid r)) (ms_records (merge_public st e r)) = Some l'
       /\ (lrecord l' = r \/ remote_wins r (lrecord l') = false).
Proof.
  unfold merge_public. cbv zeta. set (key := record_key (rkind r) (rid r)).
  destruct (bt_get key (ms_records st)) as [l0|] eqn:Hl0; unfold merge.
  - destruct (remote_wins r (lrecord l0)) eqn:Hw; cbn [negb].
    + assert (Ho : (if ldirty l0 then RemoteWinsOverDirtyLocal else TakeRemote) <> KeepLocal)
        by (by destruct (ldirty l0)).
      rewrite bool_decide_false by done. cbn [ms_records ms_conflicts]. split_and!.
      * intros k l Hl. rewrite bt_get_insert. case_decide as Hk; [subst|exists l; split; [done|apply advances_refl]].
        rewrite Hl0 in Hl. injection Hl as <-. eexists. split; [done|]. right. split_and!; [done|done|].
        intros Hd. rewrite Hd. unfold note_conflict. rewrite bool_decide_true by done.
        apply elem_of_app. right. by left.
      * intros k Hk. unfold note_conflict. destruct (bool_decide _); [|done]. apply elem_of_app. by left.
      * rewrite bt_get_insert_eq. eexists. split; [done|]. by left.
    + rewrite bool_decide_true by done. cbn [ms_records ms_conflicts]. unfold note_conflict.
      rewrite bool_decide_false by done. split_and!; [|done|].
      * intros k l Hl. rewrite bt_get_update. case_decide as Hk; [subst|exists l; split; [done|apply advances_refl]].
        rewrite Hl. eexists. split; [done|]. left. simpl. split_and!; [done|done|lia].
      * rewrite bt_get_update, decide_True by done. rewrite Hl0. eexists. split; [done|]. by right.
  - rewrite bool_decide_false by done. cbn [ms_records ms_conflicts]. unfold note_conflict.
    rewrite bool_decide_false by done. split_and!; [|done|].
    + intros k l Hl. rewrite bt_get_insert. case_decide as Hk; [congruence|].
      exists l. split; [done|apply advances_refl].
    + rewrite bt_get_insert_eq. eexists. split; [done|]. by left.
Qed.

(** A row of a pull that a section accepts as a plain record. *)
Definition plain_row (keys : ChainKeys) (acct : bool) (e : Envelope) (r : Rec) : Prop :=
  open_record keys e = Ok r /\ is_secret (rkind r) = false /\ valid_public r acct keys = true.

(** The rows after one step. *)
Definition row_step (keys : ChainKeys) (acct : bool) (st st' : MergeState) (rows : list Envelope) : Prop :=
  rows_advance (ms_conflicts st') (ms_records st) (ms_records st')
  /\ (forall k, k ∈ ms_conflicts st -> k ∈ ms_conflicts st')
  /\ (forall e r, e ∈ rows -> plain_row keys acct e r ->
        exists l', bt_get (record_key (rkind r) (rid r)) (ms_records st') = Some l'
          /\ (lrecord l' = r \/ remote_wins r (lrecord l') = false)).

Lemma same_rows_step keys acct st st' rows :
  ms_records st' = ms_records st -> (forall k, k ∈ ms_conflicts st -> k ∈ ms_conflicts st') ->
  (forall e r, e ∈ rows -> ~ plain_row keys acct e r) -> row_step keys acct st st' rows.
Proof.
  intros Hr Hc Hno. split_and!; [|done|].
  - intros k l Hl. rewrite Hr. exists l. split; [done|apply advances_refl].
  - intros e r He Hp. by destruct (Hno _ _ He Hp).
Qed.

Lemma merge_row_step keys acct st e st' :
  merge_row keys acct st e = (true, st') -> row_step keys acct st st' [e].
Proof.
  unfold merge_row. intros H.
  assert (Hop : forall code, (forall r, ~ plain_row keys acct e r) ->
    (let '(ok, sealed) := retain_opaque (ms_sealed st) keys e acct in
     (ok, mkMerge (ms_records st) sealed (ms_conflicts st)
            (ms_diagnostics st ++ [mkDiagnostic (ekind e) (eid_hash e) code]))) = (true, st') ->
    row_step keys acct st st' [e]).
  { intros code Hno Heq. destruct (retain_opaque _ _ _ _) as [ok sealed]. injection Heq as -> <-.
    apply same_rows_step; [done|done|]. intros e' r ->%list_elem_of_singleton. apply Hno. }
  destruct (open_record keys e) as [r|code] eqn:Ho.
  2: { eapply Hop; [|exact H]. intros r [Ho' _]. congruence. }
  destruct (row_valid keys acct r) eqn:Hv; cbn [negb] in H.
  2: { eapply Hop; [|exact H]. intros r' (Ho' & Hs & Hp). rewrite Ho in Ho'. injection Ho' as <-.
       unfold row_valid in Hv. rewrite Hs in Hv. congruence. }
  destruct (is_secret (rkind r)) eqn:Hs.
  - injection H as <-. apply same_rows_step.
    + unfold merge_secret. cbv zeta. by destruct (bool_decide _).
    + intros k Hk. unfold merge_secret, note_conflict. cbv zeta.
      repeat destruct (bool_decide _); simpl; try done. apply elem_of_app. by left.
    + intros e' r' ->%list_elem_of_singleton (Ho' & Hs' & _). congruence.
  - destruct (blocked_by_sealed keys st e r); [done|]. injection H as <-.
    destruct (merge_public_rows st e r) as (Hadv & Hc & Hrow). split_and!; [done|done|].
    intros e' r' ->%list_elem_of_singleton (Ho' & _). rewrite Ho in Ho'. injection Ho' as <-. done.
Qed.

Lemma row_step_trans keys acct st1 st2 st3 rows1 rows2 :
  row_step keys acct st1 st2 rows1 -> row_step keys acct st2 st3 rows2 ->
  row_step keys acct st1 st3 (rows1 ++ rows2).
Proof.
  intros (A1 & C1 & R1) (A2 & C2 & R2). split_and!.
  - intros k l Hl. destruct (A1 _ _ Hl) as (l2 & Hl2 & Had). destruct (A2 _ _ Hl2) as (l3 & Hl3 & Had').
    exists l3. split; [done|]. by eapply advances_trans.
  - auto.
  - intros e r [He|He]%elem_of_app Hp; [|by eapply R2].
    destruct (R1 _ _ He Hp) as (l2 & Hl2 & Hr). destruct (A2 _ _ Hl2) as (l3 & Hl3 & Had).
    exists l3. split; [done|]. destruct Had as [(E3 & _)|(W3 & _)]; [by rewrite E3|]. right.
    destruct Hr as [<-|Hr]; [by apply remote_wins_asym|].
    destruct (remote_wins r (lrecord l3)) eqn:Hw; [|done].
    by rewrite (remote_wins_trans _ _ _ Hw W3) in Hr.
Qed.

Lemma merge_rows_step keys acct rows : forall st st',
  merge_rows keys acct rows st = (true, st') -> row_step keys acct st st' rows.
Proof.
  induction rows as [|e rows IH]; intros st st' H; cbn [merge_rows] in H.
  - injection H as <-. apply same_rows_step; [done|done|]. intros e r He. by apply elem_of_nil in He.
  - destruct (merge_row keys acct st e) as [ok st1] eqn:Hs. destruct ok; [|done].
    apply (row_step_trans _ _ _ st1 _ [e]); [by apply merge_row_step|by apply IH].
Qed.

Lemma admit_step keys st st' :
  admit_retained_group_order keys st = (true, st') -> row_step keys true st st' [].
Proof.
  unfold admit_retained_group_order. cbv zeta. intros H.
  assert (Hid : forall st0, ms_records st0 = ms_records st -> ms_conflicts st0 = ms_conflicts st ->
    row_step keys true st st0 []).
  { intros st0 Hr Hc. apply same_rows_step; [done|by rewrite Hc|]. intros e r He. by apply elem_of_nil in He. }
  destruct (bt_get _ (ms_sealed st)) as [retained|]; [|injection H as <-; by apply Hid].
  destruct (sdirty retained); [injection H as <-; by apply Hid|].
  destruct (negb _); [injection H as <-; by apply Hid|].
  apply merge_rows_step in H as (A & C & _). split_and!; [done|done|].
  intros e r He. by apply elem_of_nil in He.
Qed.

(** ** Sections *)

(** A space after a pull: untouched, or all rows merged. *)
Lemma merge_space_cases s keys pulled since gate :
  let out := merge_space s keys pulled since gate in
  (mo_gate out <> Compatible /\ mo_section out = s /\ mo_conflicts out = []
   /\ mo_baseline_established out = s_baseline_established s)
  \/ (exists st, gate = Compatible /\ mo_gate out = Compatible
       /\ valid_pull (s_cursor_seq s) (s_baseline_established s) (max_seq (s_records s) (s_sealed s)) pulled since = true
       /\ merge_rows keys false (pull_records pulled) (mkMerge (s_records s) (s_sealed s) [] []) = (true, st)
       /\ mo_section out = set_space_rows s (ms_records st) (ms_sealed st) (pull_latest_seq pulled)
       /\ mo_conflicts out = ms_conflicts st /\ mo_baseline_established out = true).
Proof.
  unfold merge_space. destruct (bool_decide (gate = Compatible)) eqn:Hg; cbn [negb].
  2: { left. apply bool_decide_eq_false in Hg. done. }
  apply bool_decide_eq_true in Hg. destruct (valid_pull _ _ _ _ _) eqn:Hv; cbn [negb]; [|by left].
  destruct (merge_rows _ _ _ _) as [[] st] eqn:Hm; cbn [negb]; [|by left].
  right. exists st. done.
Qed.

Lemma merge_account_cases a keys pulled since :
  let out := merge_account a keys pulled since in
  (mo_gate out <> Compatible /\ mo_section out = a /\ mo_conflicts out = []
   /\ mo_baseline_established out = a_baseline_established a)
  \/ (exists st1 st, fst (account_gate a keys pulled) = Compatible /\ mo_gate out = Compatible
       /\ valid_pull (a_cursor_seq a) (a_baseline_established a) (max_seq (a_records a) (a_sealed a)) pulled since = true
       /\ admit_retained_group_order keys (mkMerge (a_records a) (a_sealed a) [] []) = (true, st1)
       /\ merge_rows keys true (pull_records pulled) st1 = (true, st)
       /\ mo_section out = set_account_rows a (ms_records st) (ms_sealed st) (pull_latest_seq pulled)
            (snd (account_gate a keys pulled))
       /\ mo_conflicts out = ms_conflicts st /\ mo_baseline_established out = true).
Proof.
  unfold merge_account. destruct (account_gate a keys pulled) as [gate schema].
  destruct (bool_decide (gate = Compatible)) eqn:Hg; cbn [negb].
  2: { left. apply bool_decide_eq_false in Hg. done. }
  apply bool_decide_eq_true in Hg. destruct (valid_pull _ _ _ _ _) eqn:Hv; cbn [negb]; [|by left].
  destruct (admit_retained_group_order _ _) as [[] st1] eqn:Ha; cbn [negb]; [|by left].
  destruct (merge_rows _ _ _ _) as [[] st] eqn:Hm; cbn [negb]; [|by left].
  right. exists st1, st. done.
Qed.

(** A pull is applied as a whole or not at all: unless the outcome is
    compatible, the section that comes back is the one that went in, with no
    conflict reported; and when it is, the cursor is the relay's latest number,
    never behind the old cursor nor beyond the relay's integer range, and the
    parts of the section a pull does not own are unchanged. *)
Lemma merge_all_or_nothing (s : SpaceStateV3) (a : AccountState) (keys : ChainKeys) (pulled : PullResponse)
    (since : N) (gate : AccountGate) :
  (let out := merge_space s keys pulled since gate in
   (mo_gate out <> Compatible -> mo_section out = s /\ mo_conflicts out = [])
   /\ (mo_gate out = Compatible ->
       s_cursor_seq (mo_section out) = pull_latest_seq pulled
       /\ (s_cursor_seq s <= s_cursor_seq (mo_section out) <= MAX_RELAY_SEQ)%N
       /\ s_baseline_established (mo_section out) = true
       /\ selected (mo_section out) = selected s /\ missing (mo_section out) = missing s))
  /\ (let out := merge_account a keys pulled since in
      (mo_gate out <> Compatible -> mo_section out = a /\ mo_conflicts out = [])
      /\ (mo_gate out = Compatible ->
          a_cursor_seq (mo_section out) = pull_latest_seq pulled
          /\ (a_cursor_seq a <= a_cursor_seq (mo_section out) <= MAX_RELAY_SEQ)%N
          /\ a_baseline_established (mo_section out) = true
          /\ chain_id (mo_section out) = chain_id a /\ frozen (mo_section out) = frozen a)).
Proof.
  assert (Hb : forall cursor base known, valid_pull cursor base known pulled since = true ->
    (cursor <= pull_latest_seq pulled <= MAX_RELAY_SEQ)%N).
  { unfold valid_pull. cbv zeta. intros cursor base known Hv.
    destruct (_ || _) eqn:Ho in Hv; [done|]. breflect. lia. }
  split.
  - destruct (merge_space_cases s keys pulled since gate) as [(Hg & Hs & Hc & _)|(st & _ & Hg & Hv & _ & Hs & _)].
    + cbv zeta in *. split; [done|]. intros Hg'. by rewrite Hg' in Hg.
    + cbv zeta in *. split; [intros Hn; by rewrite Hg in Hn|]. intros _. rewrite Hs. simpl.
      apply Hb in Hv. done.
  - destruct (merge_account_cases a keys pulled since) as [(Hg & Hs & Hc & _)|(st1 & st & _ & Hg & Hv & _ & _ & Hs & _)].
    + cbv zeta in *. split; [done|]. intros Hg'. by rewrite Hg' in Hg.
    + cbv zeta in *. split; [intros Hn; by rewrite Hg in Hn|]. intros _. rewrite Hs. simpl.
      apply Hb in Hv. done.
Qed.

(** What an accepted pull does to the plain rows of a space. *)
Lemma merge_space_reflects s keys pulled since gate :
  mo_gate (merge_space s keys pulled since gate) = Compatible ->
  let out := merge_space s keys pulled since gate in
  rows_advance (mo_conflicts out) (s_records s) (s_records (mo_section out))
  /\ forall e r, e ∈ pull_records pulled -> plain_row keys false e r ->
       exists l, bt_get (record_key (rkind r) (rid r)) (s_records (mo_section out)) = Some l
         /\ (lrecord l = r \/ remote_wins r (lrecord l) = false).
Proof.
  intros Hok. destruct (merge_space_cases s keys pulled since gate) as [(Hg & _)|(st & _ & _ & _ & Hm & Hs & Hc & _)].
  - by rewrite Hok in Hg.
  - cbv zeta in *. rewrite Hs, Hc. apply merge_rows_step in Hm as (A & _ & R). done.
Qed.


(** The same for the account section, whose retained group order is read first. *)
Theorem merge_account_keeps_newest (a : AccountState) (keys : ChainKeys) (pulled : PullResponse) (since : N)
    (Hok : mo_gate (merge_account a keys pulled since) = Compatible) :
  let out := merge_account a keys pulled since in
  rows_advance (mo_conflicts out) (a_records a) (a_records (mo_section out))
  /\ forall e r, e ∈ pull_records pulled -> plain_row keys true e r ->
       exists l, bt_get (record_key (rkind r) (rid r)) (a_records (mo_section out)) = Some l
         /\ (lrecord l = r \/ remote_wins r (lrecord l) = false).
Proof.
  destruct (merge_account_cases a keys pulled since) as [(Hg & _)|(st1 & st & _ & _ & _ & Ha & Hm & Hs & Hc & _)].
  - by rewrite Hok in Hg.
  - cbv zeta in *. rewrite Hs, Hc. apply admit_step in Ha. apply merge_rows_step in Hm.
    destruct (row_step_trans _ _ _ _ _ _ _ Ha Hm) as (A & _ & R). done.
Qed.

(** ** Secrets stay sealed *)

(** The plain rows a section may hold: under their own key, of a kind without
    secrets, and of a shape this version understands. *)
Definition rows_ok (keys : ChainKeys) (acct : bool) (records : btree LocalRecord) : Prop :=
  forall key l, (key, l) ∈ records ->
    key = record_key (rkind (lrecord l)) (rid (lrecord l)) /\ is_secret (rkind (lrecord l)) = false
    /\ valid_public (lrecord l) acct keys = true.

Lemma merge_public_ok keys acct st e r :
  is_secret (rkind r) = false -> valid_public r acct keys = true ->
  rows_ok keys acct (ms_records st) -> rows_ok keys acct (ms_records (merge_public st e r)).
Proof.
  intros Hs Hp Hok key l. unfold merge_public. cbv zeta. cbn [ms_records].
  destruct (bool_decide _).
  - unfold bt_update. intros ([k l0] & Heq & Hin)%list_elem_of_fmap. cbn [fst snd] in Heq.
    destruct (bool_decide _); injection Heq as -> ->; simpl; by apply Hok in Hin.
  - intros [[= -> ->]|Hin]%bt_elem_insert; [done|by apply Hok].
Qed.

Lemma merge_row_ok keys acct st e ok st' :
  merge_row keys acct st e = (ok, st') -> rows_ok keys acct (ms_records st) -> rows_ok keys acct (ms_records st').
Proof.
  unfold merge_row. intros H Hok.
  destruct (open_record keys e) as [r|code].
  2: { destruct (retain_opaque _ _ _ _). by injection H as _ <-. }
  destruct (row_valid keys acct r) eqn:Hv; cbn [negb] in H.
  2: { destruct (retain_opaque _ _ _ _). by injection H as _ <-. }
  unfold row_valid in Hv. destruct (is_secret (rkind r)) eqn:Hs.
  - injection H as _ <-. unfold merge_secret. cbv zeta. by destruct (bool_decide _).
  - destruct (blocked_by_sealed _ _ _ _); injection H as _ <-; [done|]. by apply merge_public_ok.
Qed.

Lemma merge_rows_ok keys acct rows : forall st ok st',
  merge_rows keys acct rows st = (ok, st') -> rows_ok keys acct (ms_records st) -> rows_ok keys acct (ms_records st').
Proof.
  induction rows as [|e rows IH]; intros st ok st' H Hok; cbn [merge_rows] in H; [by injection H as _ <-|].
  destruct (merge_row keys acct st e) as [o st1] eqn:Hs. apply (merge_row_ok _ _ _ _ _ _ Hs) in Hok.
  destruct o; [by eapply IH|by injection H as _ <-].
Qed.

Lemma admit_ok keys st ok st' :
  admit_retained_group_order keys st = (ok, st') -> rows_ok keys true (ms_records st) -> rows_ok keys true (ms_records st').
Proof.
  unfold admit_retained_group_order. cbv zeta. intros H Hok.
  destruct (bt_get _ (ms_sealed st)) as [retained|]; [|by injection H as _ <-].
  destruct (sdirty retained); [by injection H as _ <-|].
  destruct (negb _); [by injection H as _ <-|]. by eapply merge_rows_ok.
Qed.

(** C19. Plaintext secrets never reach the state: whatever the relay sends, a
    merge keeps every plain row of a section under its own key, of a kind that
    holds no secret and of a shape this version understands; everything else
    stays encrypted. *)
Theorem merge_keeps_secrets_sealed (s : SpaceStateV3) (a : AccountState) (keys akeys : ChainKeys)
    (pulled : PullResponse) (since : N) (gate : AccountGate)
    (Hs : rows_ok keys false (s_records s)) (Ha : rows_ok akeys true (a_records a)) :
  rows_ok keys false (s_records (mo_section (merge_space s keys pulled since gate)))
  /\ rows_ok akeys true (a_records (mo_section (merge_account a akeys pulled since))).
Proof.
  split.
  - destruct (merge_space_cases s keys pulled since gate) as [(_ & -> & _)|(st & _ & _ & _ & Hm & -> & _)]; [done|].
    by eapply merge_rows_ok.
  - destruct (merge_account_cases a akeys pulled since) as [(_ & -> & _)|(st1 & st & _ & _ & _ & Hd & Hm & -> & _)]; [done|].
    eapply merge_rows_ok; [exact Hm|]. by eapply admit_ok.
Qed.
End Props.
