(* ===== verification/RecordPushProps.v ===== *)
(** * RecordPushProps: what a push sends and what its receipts settle *)

From S2P Require Import Prelude Text BTreeMap SlotRules Json SyncRecord RecordsTypes RecordsValidate RecordsState RepositoryCore GroupOrderEdit Crypto Relay RecordMerge RecordPush RecordMergeProps.

Section Props.
Context {E : MergeEnv}.

(** ** Receipts *)

(** A plain row after some receipts: its record is untouched; a clean row stays
    as it is; a dirty row becomes clean only by a receipt for what it holds now. *)
Definition settled (sent : list TypedOutgoing) (acc : list (str * N)) (key : str) (row row' : LocalRecord) : Prop :=
  lrecord row' = lrecord row /\ (lseq row <= lseq row')%N
  /\ (ldirty row = false -> row' = row)
  /\ (ldirty row = true -> ldirty row' = false -> exists o seq, o ∈ sent /\ o_key (outgoing_of o) = key
        /\ (key, seq) ∈ acc /\ expected_of o = EPublic (lrecord row) /\ lseq row' = seq).

Lemma public_receipt_settled sent key seq o row :
  o ∈ sent -> o_key (outgoing_of o) = key -> forall expected, expected_of o = EPublic expected ->
  settled sent [(key, seq)] key row (public_receipt expected seq row).
Proof.
  intros Ho Hk expected He. unfold public_receipt.
  destruct (ldirty row && (lrecord row =?= expected) && (lseq row <=? seq)%N) eqn:Hc.
  - breflect. split_and!; [done|done|intros; congruence|]. intros _ _. exists o, seq.
    split_and!; [done|done|by left|congruence|done].
  - split_and!; [done|lia|done|intros; congruence].
Qed.

Lemma settled_trans sent a1 a2 key r1 r2 r3 :
  settled sent a1 key r1 r2 -> settled sent a2 key r2 r3 -> settled sent (a1 ++ a2) key r1 r3.
Proof.
  intros (E1 & S1 & C1 & D1) (E2 & S2 & C2 & D2). split_and!; [congruence|lia| |].
  - intros Hd. rewrite <-(C1 Hd). apply C2. by rewrite (C1 Hd).
  - intros Hd Hd'. destruct (ldirty r2) eqn:Hm.
    + destruct (D2 eq_refl Hd') as (o & seq & Ho & Hk & Hin & He & Hs). exists o, seq.
      split_and!; [done|done|apply elem_of_app; by right|congruence|done].
    + destruct (D1 Hd eq_refl) as (o & seq & Ho & Hk & Hin & He & Hs). exists o, seq.
      rewrite (C2 eq_refl). split_and!; [done|done|apply elem_of_app; by left|done|done].
Qed.

Lemma apply_receipt_settled sent st e :
  forall key row, bt_get key (fst st) = Some row ->
  exists row', bt_get key (fst (apply_receipt sent st e)) = Some row' /\ settled sent [e] key row row'.
Proof.
  destruct st as [records sealed], e as [k seq]. intros key row Hrow. unfold apply_receipt.
  assert (Hsame : exists row', bt_get key records = Some row' /\ settled sent [(k, seq)] key row row').
  { exists row. split; [done|]. split_and!; [done|lia|done|intros; congruence]. }
  destruct (List.find _ sent) as [o|] eqn:Hf; [|done].
  apply find_some in Hf as [Ho Hk]. apply list_elem_of_In in Ho. apply bool_decide_eq_true in Hk.
  destruct (_ || _); [done|]. destruct (expected_of o) as [expected|expected] eqn:He; [|done].
  cbn [fst]. rewrite bt_get_update. case_decide as Hd; [subst|done].
  cbn [fst] in Hrow. rewrite Hrow. eexists. split; [done|]. by eapply public_receipt_settled.
Qed.

Lemma receipts_settled sent acc : forall st key row, bt_get key (fst st) = Some row ->
  exists row', bt_get key (fst (foldl (apply_receipt sent) st acc)) = Some row' /\ settled sent acc key row row'.
Proof.
  induction acc as [|e acc IH]; intros st key row Hrow; cbn [foldl].
  - exists row. split; [done|]. split_and!; [done|lia|done|intros; congruence].
  - destruct (apply_receipt_settled sent st e key row Hrow) as (r1 & H1 & S1).
    destruct (IH _ _ _ H1) as (r2 & H2 & S2). exists r2. split; [done|]. by apply (settled_trans _ [e] acc _ _ r1).
Qed.

(** A receipt settles only what was sent: applying the receipts of a push
    never changes a record or drops a row; a row edited while the push was under
    way stays dirty; a row becomes clean only when the relay accepted exactly the
    record it still holds, and then it carries the accepted number. *)
Lemma receipts_exact (s : SpaceStateV3) (sent : list TypedOutgoing) (pushed : Pushed)
    (key : str) (row : LocalRecord) (Hrow : bt_get key (s_records s) = Some row) :
  exists row', bt_get key (s_records (apply_space_receipts s sent pushed)) = Some row'
    /\ settled sent (accepted pushed) key row row'.
Proof.
  unfold apply_space_receipts, apply_receipts.
  destruct (receipts_settled sent (accepted pushed) (s_records s, s_sealed s) key row Hrow) as (row' & Hr & Hs).
  destruct (foldl _ _ _) as [records sealed]. cbn [fst s_records] in *. eauto.
Qed.

(** ** Outgoing rows *)

Definition nonces_ok (nonce : nat -> option (list N)) : Prop :=
  forall i n, nonce i = Some n -> length n = NONCE_LEN.

(** The item that carries a dirty row: anyone with the keys opens it to the row. *)
Definition carries (keys : ChainKeys) (out : list TypedOutgoing) (key : str) (row : LocalRecord) : Prop :=
  exists o, o ∈ out /\ o_key (outgoing_of o) = key /\ expected_of o = EPublic (lrecord row)
    /\ pu_base_seq (o_item (outgoing_of o)) = lseq row
    /\ (forall seq, open_record keys (envelope_of (o_item (outgoing_of o)) seq) = Ok (lrecord row)).

(** What is sent is a plain row a receiving section admits. *)
Definition admissible (keys : ChainKeys) (acct : bool) (key : str) (r : Rec) : Prop :=
  key = record_key (rkind r) (rid r) /\ is_secret (rkind r) = false /\ valid_public r acct keys = true.

Lemma public_outgoing_carries sealed keys acct nonce rows : nonces_ok nonce -> forall out out',
  try_fold (public_outgoing sealed keys acct nonce) out rows = Ok out' ->
  (forall o, o ∈ out -> o ∈ out')
  /\ forall key row, (key, row) ∈ rows -> carries keys out' key row /\ admissible keys acct key (lrecord row).
Proof.
  intros Hn. induction rows as [|[key row] rows IH]; intros out out' H; cbn [try_fold] in H; ok_inv.
  { split; [done|]. intros key row Hin. by apply elem_of_nil in Hin. }
  unfold public_outgoing in Hok. cbv zeta in Hok. ok_inv. rename v1 into item.
  destruct (IH _ _ H) as [Hgrow Hall]. split.
  - intros o Ho. apply Hgrow, elem_of_app. by left.
  - intros k r [[= -> ->]|Hin]%elem_of_cons; [|by apply Hall].
    split; [|unfold admissible; breflect; done].
    eexists. split; [apply Hgrow, elem_of_app; right; by apply list_elem_of_singleton|].
    cbn [outgoing_of o_key expected_of o_item]. split_and!; [done|done| |].
    + unfold encode_record in Hok1. by ok_inv.
    + intros seq. destruct (nonce (length out)) as [n|] eqn:Hnn.
      * eapply encode_opens; [by eapply Hn|done].
      * unfold encode_record, seal in Hok1. by ok_inv.
Qed.

Lemma sealed_outgoing_grows keys acct rows : forall out out',
  try_fold (sealed_outgoing keys acct) out rows = Ok out' -> forall o, o ∈ out -> o ∈ out'.
Proof.
  induction rows as [|[key row] rows IH]; intros out out' H o Ho; cbn [try_fold] in H; ok_inv; [done|].
  eapply IH; [exact H|]. unfold sealed_outgoing in Hok. cbv zeta in Hok. ok_inv. apply elem_of_app. by left.
Qed.

(** Every edit is sent: each dirty row of a space has an item based on the number
    the device last saw, which opens to exactly the row's record. *)
Lemma space_outgoing_carries s keys gate nonce out : nonces_ok nonce ->
  space_outgoing s keys gate nonce = Ok out -> forall key row, (key, row) ∈ s_records s -> ldirty row = true ->
  carries keys out key row /\ admissible keys false key (lrecord row).
Proof.
  intros Hn Hok key row Hin Hd. unfold space_outgoing, outgoing in Hok. ok_inv.
  destruct (public_outgoing_carries _ _ _ _ _ Hn _ _ Hok1) as [_ Hall].
  destruct (Hall key row) as [(o & Ho & Hrest) Hadm].
  { apply list_elem_of_In, filter_In. rewrite <-list_elem_of_In. done. }
  split; [|done]. exists o. split; [|done]. by eapply sealed_outgoing_grows.
Qed.


(** ** The account gate *)

Definition schema_le (a b : option N) : Prop := forall x, a = Some x -> exists y, b = Some y /\ (x <= y)%N.

Lemma schema_le_max_l a b : schema_le a (opt_max a b).
Proof. intros x ->. destruct b; simpl; eexists; (split; [done|lia]). Qed.
Lemma schema_le_max_r a b : schema_le b (opt_max a b).
Proof. intros x ->. destruct a; simpl; eexists; (split; [done|lia]). Qed.
Lemma schema_le_trans a b c : schema_le a b -> schema_le b c -> schema_le a c.
Proof. intros H1 H2 x Hx. destruct (H1 _ Hx) as (y & Hy & ?). destruct (H2 _ Hy) as (z & ? & ?). exists z. split; [done|lia]. Qed.

(** The winner of the scan is at least as new as a record. *)
Definition winner_covers (g : GateScan) (r : Rec) : Prop :=
  exists w, gs_winner g = Some w /\ (lrecord w = r \/ remote_wins r (lrecord w) = false).

Lemma gate_row_spec keys g e :
  let g' := gate_row keys g e in
  schema_le (gs_schema g) (gs_schema g')
  /\ (forall r, winner_covers g r -> winner_covers g' r)
  /\ (gs_unreadable g' = false -> gs_unreadable g = false
      /\ exists r, open_record keys e = Ok r /\ schema_le (meta_schema r) (gs_schema g') /\ winner_covers g' r).
Proof.
  unfold gate_row. cbv zeta. destruct (open_record keys e) as [r|]; cbn [gs_schema gs_winner gs_unreadable].
  2: { split_and!; [apply schema_le_max_l|done|done]. }
  split_and!; [apply schema_le_max_l| |].
  - intros x (w & Hw & Hx). unfold winner_covers. cbn [gs_winner]. rewrite Hw. unfold merge.
    destruct (remote_wins r (lrecord w)) eqn:Hrw; cbn [negb].
    + rewrite bool_decide_false by (by destruct (ldirty w)). cbn [negb]. eexists. split; [done|]. right. simpl.
      destruct Hx as [<-|Hx]; [by apply remote_wins_asym|].
      destruct (remote_wins x r) eqn:Hxr; [|done]. by rewrite (remote_wins_trans _ _ _ Hxr Hrw) in Hx.
    + rewrite bool_decide_true by done. eauto.
  - intros Hu. split; [done|]. exists r. split_and!; [done|apply schema_le_max_r|].
    unfold winner_covers. cbn [gs_winner]. destruct (gs_winner g) as [w|]; unfold merge.
    + destruct (remote_wins r (lrecord w)) eqn:Hrw; cbn [negb].
      * rewrite bool_decide_false by (by destruct (ldirty w)). eexists. split; [done|]. by left.
      * rewrite bool_decide_true by done. eexists. split; [done|]. by right.
    + rewrite bool_decide_false by done. eexists. split; [done|]. by left.
Qed.

Lemma gate_fold_spec keys rows : forall g,
  let g' := foldl (gate_row keys) g rows in
  schema_le (gs_schema g) (gs_schema g')
  /\ (forall r, winner_covers g r -> winner_covers g' r)
  /\ (gs_unreadable g' = false -> gs_unreadable g = false /\ forall e, e ∈ rows ->
        exists r, open_record keys e = Ok r /\ schema_le (meta_schema r) (gs_schema g') /\ winner_covers g' r).
Proof.
  induction rows as [|e rows IH]; intros g; cbn [foldl].
  { split_and!; [intros x Hx; exists x; split; [done|lia]|done|]. intros Hu. split; [done|].
    intros e He. by apply elem_of_nil in He. }
  destruct (gate_row_spec keys g e) as (S1 & W1 & U1). destruct (IH (gate_row keys g e)) as (S2 & W2 & U2).
  cbv zeta in *. split_and!; [by eapply schema_le_trans|auto|].
  intros Hu. destruct (U2 Hu) as [Hu1 Hall]. destruct (U1 Hu1) as [Hu0 (r & Ho & Hs & Hw)]. split; [done|].
  intros e' [->|He]%elem_of_cons; [|by apply Hall]. exists r. split_and!; [done|by eapply schema_le_trans|auto].
Qed.

(** Metadata that is refused never makes the account compatible. *)
Lemma valid_meta_refuses r : valid_meta r <> Err Compatible.
Proof.
  unfold valid_meta. destruct (rdeleted r); [done|]. cbn [guard_err mbind result_bind].
  destruct (from_value _) as [meta|]; [|done]. cbn [map_err mbind result_bind].
  destruct (negb _); [done|]. cbn [guard_err mbind result_bind].
  destruct (m_migration meta) as [m|]; [|done]. by destruct (validate_migration_gate m).
Qed.

(** The account gate only opens for a format this version knows: if it does,
    every pulled copy of the account metadata was readable, none of them and none
    seen before announces a newer format, and the newest copy is valid metadata
    of format 3 or 4 with no migration under way. *)
Lemma gate_compatible_sound (a : AccountState) (keys : ChainKeys) (pulled : PullResponse)
    (Hg : fst (account_gate a keys pulled) = Compatible) :
  chain_id a = ck_chain_id keys
  /\ (forall v, remote_schema_version a = Some v -> (v <= ACCOUNT_SCHEMA)%N)
  /\ exists w meta, valid_meta (lrecord w) = Ok meta
       /\ (MIN_ACCOUNT_SCHEMA <= m_schema_version meta <= ACCOUNT_SCHEMA)%N
       /\ (forall m, m_migration meta = Some m -> gate_phase m = Active)
       /\ forall e, e ∈ pull_records pulled -> ekind e = lit "meta" ->
            eid_hash e = id_hash keys (lit "meta") ACCOUNT_META_ID ->
            exists r, open_record keys e = Ok r
              /\ (forall v, meta_schema r = Some v -> (v <= ACCOUNT_SCHEMA)%N)
              /\ (lrecord w = r \/ remote_wins r (lrecord w) = false).
Proof.
  unfold account_gate in Hg. destruct (bool_decide (chain_id a = ck_chain_id keys)) eqn:Hc; [|done].
  apply bool_decide_eq_true in Hc. cbn [negb] in Hg. split; [done|].
  match type of Hg with context [gate_scan a keys pulled] =>
    set (g := gate_scan a keys pulled) in * end.
  destruct (opt_filter _ (gs_schema g)) as [?|] eqn:Hf; [done|].
  destruct (gs_unreadable g) eqn:Hu; [done|]. destruct (gs_winner g) as [w|] eqn:Hw; [|done].
  destruct (meta_schema (lrecord w)) as [winning|]; [|done].
  destruct (winning <? MIN_ACCOUNT_SCHEMA)%N; [done|].
  destruct (valid_meta (lrecord w)) as [meta|e] eqn:Hm; cbn [fst] in Hg.
  2: { subst e. by destruct (valid_meta_refuses (lrecord w)). }
  assert (Hbound : forall v, schema_le (Some v) (gs_schema g) -> (v <= ACCOUNT_SCHEMA)%N).
  { intros v Hle. destruct (Hle v eq_refl) as (y & Hy & Hvy). rewrite Hy in Hf. simpl in Hf.
    destruct (ACCOUNT_SCHEMA <? y)%N eqn:Hlt; [done|]. apply N.ltb_ge in Hlt. lia. }
  unfold gate_scan in g. cbv zeta in g.
  match goal with g := foldl _ ?g0 ?rows : _ |- _ =>
    destruct (gate_fold_spec keys rows g0) as (S1 & _ & U1) end.
  fold g in S1, U1. cbv zeta in U1. destruct (U1 Hu) as [_ Hall].
  split.
  - intros v Hv. apply Hbound. eapply schema_le_trans; [|exact S1]. cbn [gs_schema].
    rewrite <-Hv. destruct (bt_get _ (a_records a)); [apply schema_le_max_l|].
    intros x Hx. exists x. split; [done|lia].
  - exists w, meta. split_and!; [done| | | |].
    + unfold valid_meta in Hm. ok_inv. breflect. lia.
    + unfold valid_meta in Hm. ok_inv. breflect. lia.
    + intros m Hmig. rewrite Hmig in Hg. simpl in Hg.
      destruct (bool_decide (gate_phase m = Active)) eqn:Ha; [by apply bool_decide_eq_true in Ha|done].
    + intros e He Hk Hh. destruct (Hall e) as (r & Ho & Hs & (w' & Hw' & Hcov)).
      { apply list_elem_of_In, filter_In. rewrite <-list_elem_of_In. split; [done|].
        by rewrite Hk, Hh, !bool_decide_true by done. }
      rewrite Hw in Hw'. injection Hw' as <-. exists r. split_and!; [done| |done].
      intros v Hv. apply Hbound. by rewrite <-Hv.
Qed.
End Props.
