(* ===== verification/RecordLibrary.v ===== *)
(** * RecordLibrary: one user-facing library

    [src-tauri/src/sync/record_library.rs]: whether this device keeps its records in the
    synced library, where a new record goes, the move of all local records into the
    library, and the edits of a host that may change its scope. *)

From S2P Require Import Prelude Text BTreeMap SlotRules Json SyncRecord RecordsTypes RecordsValidate RecordsState RepositoryCore RecordGroups Repository RepositoryProps SnapshotProps RepositoryLookup GroupEdit GroupProps GroupEditProps GroupOrderEdit StateCheck Crypto Relay RecordMerge RecordPush.

Module RecordLibrary.
Definition LIBRARY_SLUG : str := lit "sshelter-library".
Definition DEVICE_FLAG : str := lit "sync_library".

Definition enabled (s : SyncStateV3) : bool :=
  is_some_and (fun r => negb (rdeleted (lrecord r))
                        && ((json_get DEVICE_FLAG (rpayload (lrecord r)) ≫= as_bool) =?= Some true))
    (a ← account s; bt_get (record_key KDevice (device_id s)) (a_records a)).

(** [Iterator::min] of strings. *)
Definition min_str (l : list str) : option str :=
  match l with
  | [] => None
  | x :: l' => Some (foldl (fun m y => if str_ltb y m then y else m) x l')
  end.

Definition is_library_space (r : LocalRecord) : bool :=
  (rkind (lrecord r) =?= KSpace) && negb (rdeleted (lrecord r))
  && (json_str (lit "slug") (rpayload (lrecord r)) =?= Some LIBRARY_SLUG).

Definition space_id (s : SyncStateV3) : option str :=
  a ← account s;
  min_str (map (fun r => rid (lrecord r)) (List.filter is_library_space (bt_values (a_records a)))).

(** A [BTreeSet] of pairs, of which only membership is asked. *)
Definition Aliases : Type := list (str * str).
Definition retains (retained : Aliases) (space wire : str) : bool :=
  existsb (fun x => x =?= (space, wire)) retained.

Definition live_record (r : LocalRecord) : bool := negb (rdeleted (lrecord r)).

(** The rows that [include_existing] moves, in their order. *)
Definition local_rows (s : SyncStateV3) : list LocalRecord :=
  List.filter live_record (bt_values (l_groups (local s)) ++ bt_values (l_hosts (local s))).

(** [source.insert] and the insertion into the destination space. *)
Definition bury_local (s : SyncStateV3) (k : RecordKind) (key : str) (row : LocalRecord) : SyncStateV3 :=
  if k =?= KGroup then set_local s (set_l_groups (local s) (bt_insert key row (l_groups (local s))))
  else set_local s (set_l_hosts (local s) (bt_insert key row (l_hosts (local s)))).

Section Library.
Context {E : MergeEnv} {SE : StateEnv}.

Definition creation_scope (s : SyncStateV3) : rresult HostScope :=
  if negb (enabled s) then Ok Local
  else
    id ← ok_or (space_id s) (SpaceUnavailable (lit "library"));
    let scope := Space id in
    _ ← ensure_scope s scope;
    Ok scope.

(** [retained_legacy_aliases]. *)
Definition retained_in_space (account : AccountState) (keys : ChainKeys) (host_ids : list str)
    (e : str * SpaceStateV3) : Aliases :=
  let '(id, space) := e in
  if negb (existsb (fun r => (ekind (senvelope r) =?= lit "host") && is_none (spublic_identity r))
             (bt_values (s_sealed space)))
  then []
  else match space_keys account keys id with
       | Ok (Some child) =>
           map (fun x => (id, x.1))
             (List.filter (fun x : str * SealedRecord =>
                let row := x.2 in
                (ekind (senvelope row) =?= lit "host") && is_none (spublic_identity row)
                && is_legacy_alias_host child (senvelope row)
                && negb (existsb (fun id => id_hash child (lit "host") id =?= eid_hash (senvelope row)) host_ids))
              (s_sealed space))
       | _ => []
       end.

Definition retained_legacy_aliases (s : SyncStateV3) (keys : option ChainKeys) : Aliases :=
  match account s, keys with
  | Some account, Some keys =>
      let host_ids :=
        map (fun r => rid (lrecord r))
          (List.filter (fun r => rkind (lrecord r) =?= KHost)
             (bt_values (l_hosts (local s)) ++ concat (map (fun sp => bt_values (s_records sp)) (bt_values (spaces s))))) in
      concat (map (retained_in_space account keys host_ids) (spaces s))
  | _, _ => []
  end.

(** No space may hold the same record, or one whose identity cannot be read. *)
Definition check_destination (retained : Aliases) (k : RecordKind) (id : str) (e : str * SpaceStateV3)
  : rresult unit :=
  let '(space_id, space) := e in
  let of_kind (x : str * SealedRecord) :=
    (ekind (senvelope x.2) =?= kind_as_str k) && negb (retains retained space_id x.1) in
  _ ← guard_err (existsb (fun x => of_kind x && is_none (spublic_identity x.2)) (s_sealed space))
        (SpaceUnavailable (lit "Some synced record identities cannot be read"));
  guard_err (is_some_and live_record (bt_get (record_key k id) (s_records space))
             || existsb (fun x => of_kind x && (is_none (spublic_identity x.2)
                                  || is_some_and (fun p => vid p =?= id) (spublic_identity x.2))) (s_sealed space))
    (Validation (DuplicateId id)).

(** One row of the loop; the stamps are drawn against the state before the move. *)
Definition include_row (s : SyncStateV3) (destination : str) (retained : Aliases) (now : N)
    (next : SyncStateV3) (row : LocalRecord) : rresult SyncStateV3 :=
  let id := rid (lrecord row) in
  let k := rkind (lrecord row) in
  let key := record_key k id in
  _ ← try_for (check_destination retained k id) (spaces s);
  target ← ok_or (bt_get destination (spaces s)) (RPanic (lit "spaces index"));
  let existing := bt_get key (s_records target) in
  _ ← from_option (validate_cache key) (Ok tt) existing;
  r ← ordered_record s id (rpayload (lrecord row)) false now
        (lrecord row :: from_option (fun e => [lrecord e]) [] existing);
  let r := with_kind r k in
  let next := bury_local next k key (cached (tombstone_of r) (lseq row) Local) in
  Ok (set_spaces next (bt_update destination
        (fun sp => set_s_records sp (bt_insert key (cached r (from_option lseq 0%N existing) (Space destination))
                                       (s_records sp))) (spaces next))).

Definition check_source (expected : RecordKind) (e : str * LocalRecord) : rresult unit :=
  let '(key, row) := e in
  _ ← validate_cache key row;
  guard_err (negb (rkind (lrecord row) =?= expected))
    (r_invalid "library" (rid (lrecord row)) "record kind does not match its source collection").

(** The account keys as the navigation order needs them. *)
Definition order_keys (keys : option ChainKeys) : option (str * str) :=
  (fun k => (ck_chain_id k, id_hash k (lit "meta") ORDER_RECORD_ID)) <$> keys.

Definition include_existing (s : SyncStateV3) (destination : str) (confirmed : bool) (now : N)
    (keys : option ChainKeys) : rresult SyncStateV3 :=
  let scope := Space destination in
  _ ← ensure_scope s scope;
  target ← ok_or (bt_get destination (spaces s)) (RPanic (lit "spaces index"));
  _ ← guard_err (negb (s_baseline_established target)
                 || existsb (fun sp => selected sp && negb (missing sp) && negb (s_baseline_established sp))
                      (bt_values (spaces s)))
        (SpaceUnavailable (lit "Finish downloading the library before including existing records"));
  _ ← try_for (check_source KGroup) (l_groups (local s));
  _ ← try_for (check_source KHost) (l_hosts (local s));
  let rows := local_rows s in
  match rows with
  | [] => Ok s
  | _ =>
      let retained := retained_legacy_aliases s keys in
      next ← (if existsb (fun r => (rkind (lrecord r) =?= KGroup)
                                   || (json_u64 (lit "schema") (rpayload (lrecord r)) =?= Some 3%N)) rows
              then promote s scope confirmed now else Ok s);
      next ← try_fold (include_row s destination retained now) next rows;
      _ ← validate_groups next scope;
      next ← publish_local next (order_keys keys) now;
      _ ← validate_transition s next;
      _ ← lift (validate_state next);
      Ok next
  end.

(** What a publication does with local records of an enabled library. *)
Definition include_new_records (s : SyncStateV3) (keys : option ChainKeys) : SyncStateV3 :=
  if negb (enabled s) || account_writes_blocked s then s
  else if negb (existsb live_record (bt_values (l_hosts (local s)) ++ bt_values (l_groups (local s)))) then s
  else match space_id s with
       | None => s
       | Some id => match include_existing s id false 0 keys with Ok s' => s' | Err _ => s end
       end.

Definition select_space (sp : SpaceStateV3) : SpaceStateV3 :=
  if negb (missing sp)
  then mkSpace true (s_cursor_seq sp) (s_baseline_established sp) (s_records sp) (s_sealed sp) (s_last_error sp)
         (missing sp)
  else sp.

Definition select_library_spaces (s : SyncStateV3) : SyncStateV3 :=
  if enabled s then set_spaces s (map (fun e => (e.1, select_space e.2)) (spaces s)) else s.

Definition unreviewed_group : RepositoryError := g_error (lit "Group is unavailable or needs review").

Definition group_scope (s : SyncStateV3) (id : str) : rresult HostScope :=
  groups ← list_groups s;
  match List.filter (fun g => gr_id (gv_group g) =?= id) groups with
  | [g] =>
      _ ← guard_err (is_some (gv_error g)) unreviewed_group;
      _ ← ensure_scope s (gr_scope (gv_group g));
      Ok (gr_scope (gv_group g))
  | _ => Err unreviewed_group
  end.

Definition update_host (s : SyncStateV3) (id : str) (expected : RecordRevision) (payload : HostPayload)
    (confirmed : bool) (now : N) : rresult SyncStateV3 :=
  saved ← get_host s id;
  destination ← (if enabled s
                 then match hp_group_id payload with
                      | Some g => scope ← group_scope s g; Ok (Some scope)
                      | None => Ok None
                      end
                 else Ok None);
  moved ← match opt_filter (fun scope => negb (scope =?= hr_scope (v_host saved))) destination with
          | Some scope => Repository.move_host s id expected scope now
          | None => Ok s
          end;
  current ← get_host moved id;
  let expected := if negb (hr_scope (v_host current) =?= hr_scope (v_host saved)) then v_revision current
                  else expected in
  next ← promote_for_host moved (hr_scope (v_host current)) payload confirmed now;
  Repository.update_host next id expected payload now.

(** Schema 3 and a group, or none. *)
Definition with_group (p : HostPayload) (group_id : option str) : HostPayload :=
  mkHost (if is_some group_id then GROUPED_HOST_SCHEMA else hp_schema p) group_id (hp_inherit p) (hp_alias p)
    (hp_hostname p) (hp_port p) (hp_user p) (hp_auth p) (hp_key_id p) (hp_jump p) (hp_keepalive_secs p)
    (hp_keepalive_max_missed p) (hp_connect_timeout_secs p) (hp_host_key p) (hp_tags p) (hp_notes p) (hp_imported p).

Definition set_host_group (s : SyncStateV3) (id : str) (expected : RecordRevision) (group_id : option str) (now : N)
  : rresult SyncStateV3 :=
  host ← get_host s id;
  _ ← guard_err (negb (v_revision host =?= expected)) (RevisionConflict id (v_revision host));
  if hp_group_id (hr_payload (v_host host)) =?= group_id then Ok s
  else
    destination ← match group_id with
                  | Some g =>
                      groups ← list_groups s;
                      match List.filter (fun v => gr_id (gv_group v) =?= g) groups with
                      | [v] =>
                          _ ← guard_err (is_some (gv_error v)) unreviewed_group;
                          Ok (gr_scope (gv_group v))
                      | _ => Err unreviewed_group
                      end
                  | None => Ok (hr_scope (v_host host))
                  end;
    next ← (if negb (destination =?= hr_scope (v_host host)) then Repository.move_host s id expected destination now
            else Ok s);
    current ← get_host next id;
    Repository.update_host next id (v_revision current) (with_group (materialize (v_effective current)) group_id) now.
End Library.

(** ** Including the local records *)

(** The local row of a kind, and the one of a space, under a key. *)
Definition local_get (s : SyncStateV3) (k : RecordKind) (key : str) : option LocalRecord :=
  bt_get key (if k =?= KGroup then l_groups (local s) else l_hosts (local s)).
Definition space_get (s : SyncStateV3) (sid key : str) : option LocalRecord :=
  sp ← bt_get sid (spaces s); bt_get key (s_records sp).

(** A local record that was moved: the same id and payload in the space, as a change to
    be sent, and a tombstone in its place; both beat what they replace. *)
Definition moved_row (s s' : SyncStateV3) (dest : str) (row : LocalRecord) : Prop :=
  let k := rkind (lrecord row) in
  let key := record_key k (rid (lrecord row)) in
  exists r seq,
    space_get s' dest key = Some (mkLocal r seq true)
    /\ local_get s' k key = Some (mkLocal (tombstone_of r) (lseq row) false)
    /\ rkind r = k /\ rid r = rid (lrecord row) /\ rdeleted r = false /\ rpayload r = rpayload (lrecord row)
    /\ remote_wins r (lrecord row) = true
    /\ (forall old, space_get s dest key = Some old -> remote_wins r (lrecord old) = true).

Definition row_key (row : LocalRecord) : str := record_key (rkind (lrecord row)) (rid (lrecord row)).

Section Props.
Context {E : MergeEnv} {SE : StateEnv}.

(** What a move leaves alone. *)
Definition untouched (s s' : SyncStateV3) (dest : str) (moved : list str) : Prop :=
  (forall k key, key ∉ moved -> local_get s' k key = local_get s k key)
  /\ (forall sid key, (sid <> dest \/ key ∉ moved) -> space_get s' sid key = space_get s sid key)
  /\ l_keys (local s') = l_keys (local s) /\ group_order (local s') = group_order (local s).

Lemma local_get_bury_ne s k k' key key' row :
  key <> key' -> local_get (bury_local s k key row) k' key' = local_get s k' key'.
Proof.
  intros Hne. unfold local_get, bury_local. destruct (k =?= KGroup), (k' =?= KGroup); simpl; try done; by rewrite bt_get_insert_ne.
Qed.

Lemma local_get_bury_eq s k key row : local_get (bury_local s k key row) k key = Some row.
Proof. unfold local_get, bury_local. destruct (k =?= KGroup); simpl; by rewrite bt_get_insert_eq. Qed.

Lemma bury_spaces s k key row : spaces (bury_local s k key row) = spaces s.
Proof. unfold bury_local. by destruct (k =?= KGroup). Qed.

Lemma bury_frame s k key row :
  let s' := bury_local s k key row in
  l_keys (local s') = l_keys (local s) /\ group_order (local s') = group_order (local s)
  /\ version s' = version s /\ account s' = account s.
Proof. unfold bury_local. by destruct (k =?= KGroup). Qed.

Lemma space_get_update s dest key row sid key' :
  bt_get dest (spaces s) <> None ->
  space_get (set_spaces s (bt_update dest (fun sp => set_s_records sp (bt_insert key row (s_records sp))) (spaces s))) sid key'
  = if decide (sid = dest /\ key = key') then Some row else space_get s sid key'.
Proof.
  unfold space_get. simpl. rewrite bt_get_update. intros Hd.
  destruct (decide (dest = sid)) as [<-|Hne]; [|by rewrite decide_False by naive_solver].
  destruct (bt_get dest (spaces s)) as [sp|]; [|done]. simpl. rewrite bt_get_insert. repeat case_decide; naive_solver.
Qed.

(** The rows moved so far, and everything else. *)
Record including (s next : SyncStateV3) (dest : str) (moved : list LocalRecord) : Prop := {
  in_moved : forall row, row ∈ moved -> moved_row s next dest row;
  in_untouched : untouched s next dest (map row_key moved);
  in_dest : bt_get dest (spaces next) <> None;
  in_groups : forall e, e ∈ l_groups (local next) -> live_record e.2 = true -> e ∈ l_groups (local s);
  in_hosts : forall e, e ∈ l_hosts (local next) -> live_record e.2 = true -> e ∈ l_hosts (local s);
  in_sorted : bt_ok (l_groups (local next)) /\ bt_ok (l_hosts (local next))
}.

Lemma include_row_step s dest retained now next row next' moved :
  including s next dest moved -> row_key row ∉ map row_key moved ->
  include_row s dest retained now next row = Ok next' ->
  including s next' dest (row :: moved) /\ version next' = version next /\ account next' = account next.
Proof.
  intros [Hm (Hl & Hs & Hk & Ho) Hd Hg Hh [Hbg Hbh]] Hnew. unfold include_row. cbv zeta. intros H. ok_inv.
  fold (row_key row) in *. set (key := row_key row) in *. rename v0 into target, v2 into r.
  match goal with H : ordered_record _ _ _ _ _ _ = Ok _ |- _ => rename H into Hr end.
  destruct (ordered_record_fields _ _ _ _ _ _ _ Hr) as (_ & Hid & Hdel & Hp & _).
  assert (Hd' : bt_get dest (spaces (bury_local next (rkind (lrecord row)) key
    (cached (tombstone_of (with_kind r (rkind (lrecord row)))) (lseq row) Local))) <> None) by (by rewrite bury_spaces).
  split; [|apply (bury_frame next)]. split.
  - intros x [->|Hx]%elem_of_cons.
    + exists (with_kind r (rkind (lrecord row))). eexists. unfold moved_row. fold key.
      change (record_key (rkind (lrecord row)) (rid (lrecord row))) with key.
      rewrite space_get_update, decide_True by done. change (local_get (set_spaces ?s ?x) ?k ?y) with (local_get s k y).
      rewrite local_get_bury_eq. split_and!; try done.
      * destruct (ordered_record_dominates _ _ _ _ _ _ _ (lrecord row) Hr) as (_ & _ & Hw); [by left|done].
      * intros old Hold. unfold space_get in Hold.
        match goal with H : bt_get dest (spaces s) = Some _ |- _ => rewrite H in Hold end. simpl in Hold. rewrite Hold in Hr.
        destruct (ordered_record_dominates _ _ _ _ _ _ _ (lrecord old) Hr) as (_ & _ & Hw); [by right; left|done].
    + destruct (Hm _ Hx) as (r' & seq & H1 & H2 & H3). exists r', seq. fold (row_key x) in *.
      assert (Hne : key <> row_key x) by (intros ->; apply Hnew; by apply (list_elem_of_fmap_2 row_key)).
      rewrite space_get_update, decide_False by naive_solver. change (local_get (set_spaces ?s ?x) ?k ?y) with (local_get s k y).
      rewrite local_get_bury_ne by done. unfold space_get. rewrite bury_spaces. done.
  - split_and!.
    + intros k key'. simpl. rewrite not_elem_of_cons. intros [Hne Hni].
      change (local_get (set_spaces ?s ?x) ?k ?y) with (local_get s k y). rewrite local_get_bury_ne by done. by apply Hl.
    + intros sid key'. simpl. rewrite not_elem_of_cons. intros Hor. rewrite space_get_update, decide_False by naive_solver.
      unfold space_get. rewrite bury_spaces. apply Hs. naive_solver.
    + rewrite <-Hk. apply (bury_frame next).
    + rewrite <-Ho. apply (bury_frame next).
  - simpl. rewrite bt_get_update, decide_True by done. by intros ?%fmap_None.
  - intros e. simpl. unfold bury_local. destruct (rkind (lrecord row) =?= KGroup); simpl; [|apply Hg].
    intros [->|He]%bt_elem_insert; [done|by apply Hg].
  - intros e. simpl. unfold bury_local. destruct (rkind (lrecord row) =?= KGroup); simpl; [apply Hh|].
    intros [->|He]%bt_elem_insert; [done|by apply Hh].
  - simpl. unfold bury_local. destruct (rkind (lrecord row) =?= KGroup); simpl; split; try done; by apply bt_ok_insert.
Qed.

Lemma include_rows s dest retained now rows : forall next moved next',
  including s next dest moved -> NoDup (map row_key (rows ++ moved)) ->
  try_fold (include_row s dest retained now) next rows = Ok next' ->
  including s next' dest (rev rows ++ moved) /\ version next' = version next /\ account next' = account next.
Proof.
  induction rows as [|row rows IH]; intros next moved next' Hi Hnd H; simpl in H; ok_inv; [done|].
  simpl in Hnd. inversion Hnd as [|? ? Hni Hnd']; subst. rewrite map_app, elem_of_app in Hni.
  destruct (include_row_step _ _ _ _ _ _ _ _ Hi ltac:(by intros Hin; apply Hni; right) Hok) as (Hi' & Hv & Ha).
  destruct (IH v (row :: moved) next' Hi') as (H1 & H2 & H3); [|exact H|].
  - rewrite map_app. simpl. rewrite <-Permutation_middle, <-map_app. by constructor; [rewrite map_app, elem_of_app|].
  - simpl. rewrite <-app_assoc. split_and!; [done|by rewrite H2|by rewrite H3].
Qed.

(** The rows to move have distinct keys. *)
Lemma checked_source_rows k (m : btree LocalRecord) u :
  try_for (check_source k) m = Ok u -> forall key l, (key, l) ∈ m -> key = row_key l /\ rkind (lrecord l) = k.
Proof.
  rewrite try_for_Ok. intros [H _] key l Hin. specialize (H _ Hin). unfold check_source in H. ok_inv. breflect.
  units. by apply validate_cache_Ok in Hok as (_ & -> & _).
Qed.

Lemma source_keys k (m : btree LocalRecord) u :
  bt_ok m -> try_for (check_source k) m = Ok u -> NoDup (map row_key (List.filter live_record (bt_values m))).
Proof.
  intros Hb Hc. pose proof (checked_source_rows _ _ _ Hc) as Hk. pose proof (bt_ok_keys _ Hb) as Hnd. clear Hb Hc.
  assert (Hmap : map row_key (bt_values m) = map fst m).
  { unfold bt_values. rewrite map_map. apply map_ext_in. intros [key l] Hin%list_elem_of_In. by destruct (Hk _ _ Hin). }
  rewrite <-Hmap in Hnd. clear -Hnd. induction (bt_values m) as [|l ls IH]; simpl; [done|].
  simpl in Hnd. inversion Hnd as [|? ? Hni Hnd']; subst. destruct (live_record l); [|by apply IH].
  simpl. constructor; [|by apply IH]. rewrite list_elem_of_In, in_map_iff. intros (x & Hx & [Hin _]%filter_In).
  apply Hni. rewrite <-Hx. apply list_elem_of_In. by apply in_map.
Qed.

Lemma local_rows_keys s u u' :
  bt_ok (l_groups (local s)) -> bt_ok (l_hosts (local s)) ->
  try_for (check_source KGroup) (l_groups (local s)) = Ok u -> try_for (check_source KHost) (l_hosts (local s)) = Ok u' ->
  NoDup (map row_key (local_rows s)).
Proof.
  intros Hg Hh Hcg Hch. unfold local_rows. rewrite List.filter_app, map_app. apply NoDup_app.
  split_and!; [by eapply source_keys| |by eapply source_keys].
  intros key. rewrite !list_elem_of_In, !in_map_iff. intros (x & <- & [Hx _]%filter_In) (y & Hy & [Hy' _]%filter_In).
  rewrite <-list_elem_of_In in *. apply list_elem_of_fmap in Hx as ([kx x'] & -> & Hx).
  apply list_elem_of_fmap in Hy' as ([ky y'] & -> & Hy'). simpl in *.
  destruct (checked_source_rows _ _ _ Hcg _ _ Hx) as [_ Hkx]. destruct (checked_source_rows _ _ _ Hch _ _ Hy') as [_ Hky].
  unfold row_key in Hy. apply record_key_inj in Hy as [Hy _]. congruence.
Qed.

Lemma elem_of_reverse_rev {A} (x : A) l : x ∈ rev l <-> x ∈ l.
Proof. rewrite !list_elem_of_In. symmetry. apply in_rev. Qed.

Lemma in_local_rows s x :
  x ∈ bt_values (l_groups (local s)) \/ x ∈ bt_values (l_hosts (local s)) -> live_record x = true -> x ∈ local_rows s.
Proof. intros Hx Hl. unfold local_rows. rewrite list_elem_of_In, filter_In, <-list_elem_of_In, elem_of_app. done. Qed.

Lemma library_filter_none {A} (f : A -> bool) l : (forall x, x ∈ l -> f x = false) -> List.filter f l = [].
Proof.
  induction l as [|x l IH]; intros H; simpl; [done|]. rewrite H by (by left). apply IH. intros y Hy. apply H. by right.
Qed.

(** Where every live local row was moved, none is left. *)
Lemma no_live_left s s' dest u u' :
  try_for (check_source KGroup) (l_groups (local s)) = Ok u -> try_for (check_source KHost) (l_hosts (local s)) = Ok u' ->
  bt_ok (l_groups (local s')) /\ bt_ok (l_hosts (local s')) ->
  (forall e, e ∈ l_groups (local s') -> live_record e.2 = true -> e ∈ l_groups (local s)) ->
  (forall e, e ∈ l_hosts (local s') -> live_record e.2 = true -> e ∈ l_hosts (local s)) ->
  (forall row, row ∈ local_rows s -> moved_row s s' dest row) ->
  forall x, x ∈ bt_values (l_groups (local s')) ++ bt_values (l_hosts (local s')) -> live_record x = false.
Proof.
  intros Hcg Hch [Hbg Hbh] Hg Hh Hmoved x Hin. destruct (live_record x) eqn:Hx; [|done]. exfalso.
  rewrite elem_of_app in Hin. destruct Hin as [Hin|Hin]; apply list_elem_of_fmap in Hin as ([key x'] & -> & Hin); simpl in *.
  - pose proof (Hg _ Hin Hx) as Hin0. destruct (checked_source_rows _ _ _ Hcg _ _ Hin0) as [-> Hk].
    destruct (Hmoved x') as (r & seq & _ & Hget & _); [by apply in_local_rows; [left; apply (list_elem_of_fmap_2 snd) in Hin0|]|].
    unfold local_get in Hget. rewrite Hk in Hget. simpl in Hget.
    pose proof (bt_ok_get _ _ _ Hbg Hin) as Hget'. unfold row_key in Hget'. rewrite Hk, Hget in Hget'.
    injection Hget' as Heq. rewrite <-Heq in Hx. discriminate Hx.
  - pose proof (Hh _ Hin Hx) as Hin0. destruct (checked_source_rows _ _ _ Hch _ _ Hin0) as [-> Hk].
    destruct (Hmoved x') as (r & seq & _ & Hget & _); [by apply in_local_rows; [right; apply (list_elem_of_fmap_2 snd) in Hin0|]|].
    unfold local_get in Hget. rewrite Hk in Hget. simpl in Hget.
    pose proof (bt_ok_get _ _ _ Hbh Hin) as Hget'. unfold row_key in Hget'. rewrite Hk, Hget in Hget'.
    injection Hget' as Heq. rewrite <-Heq in Hx. discriminate Hx.
Qed.

Lemma publish_local_frame s keys now s' :
  publish_local s keys now = Ok s' -> spaces s' = spaces s /\ local s' = local s /\ version s' = version s.
Proof.
  unfold publish_local. intros H. destruct (account s) as [a|]; ok_inv; [|done].
  match type of H with (if ?b then _ else _) = _ => destruct b end; ok_inv; done.
Qed.

End Props.
End RecordLibrary.
