(* ===== verification/RecordInstances.v ===== *)
(** * RecordInstances: a concrete environment for the record library

    The parameters of the record files (the OpenSSH key parser, the derived
    serialization of the payloads, the review digest) instantiated by small
    concrete functions that satisfy their laws, and a sample library.  The
    witnesses of the theorems with hypotheses evaluate the operations on it. *)

From S2P Require Import Prelude Text BTreeMap SlotRules Json SyncRecord RecordsTypes RecordsValidate RecordsState RepositoryCore RecordGroups Repository GroupEdit GroupOrderEdit StateCheck.

(** ** Codecs: values as JSON, read back *)

Class Codec (A : Type) := {
  enc : A -> Json;
  dec : Json -> option A;
  dec_enc : forall a, dec (enc a) = Some a
}.

#[export] Instance codec_str : Codec str :=
  { enc := JString; dec j := match j with JString s => Some s | _ => None end; dec_enc a := eq_refl }.
#[export] Instance codec_N : Codec N :=
  { enc n := JNumber (PosInt n); dec := as_u64; dec_enc a := eq_refl }.
#[export] Instance codec_bool : Codec bool :=
  { enc := JBool; dec j := match j with JBool b => Some b | _ => None end; dec_enc a := eq_refl }.

#[export] Instance codec_option {A} `{Codec A} : Codec (option A).
Proof.
  refine {| enc o := match o with None => JNull | Some a => JArray [enc a] end;
            dec j := match j with
                     | JNull => Some None
                     | JArray [x] => a ← dec x; Some (Some a)
                     | _ => None
                     end |}.
  intros [a|]; simpl; [by rewrite dec_enc|done].
Defined.

Fixpoint dec_all {A} `{Codec A} (l : list Json) : option (list A) :=
  match l with
  | [] => Some []
  | x :: l' => a ← dec x; rest ← dec_all l'; Some (a :: rest)
  end.

#[export] Instance codec_list {A} `{Codec A} : Codec (list A).
Proof.
  refine {| enc l := JArray (map enc l); dec j := match j with JArray l => dec_all l | _ => None end |}.
  induction a as [|a l IH]; simpl; [done|]. simpl in IH. by rewrite dec_enc, IH.
Defined.

#[export] Instance codec_prod {A B} `{Codec A} `{Codec B} : Codec (A * B).
Proof.
  refine {| enc p := JArray [enc p.1; enc p.2];
            dec j := match j with JArray [x; y] => a ← dec x; b ← dec y; Some (a, b) | _ => None end |}.
  intros [a b]. simpl. by rewrite !dec_enc.
Defined.

(** A type that is read from and written to another one. *)
Definition codec_via {A B} `{Codec B} (f : A -> B) (g : B -> option A)
    (Hfg : forall a, g (f a) = Some a) : Codec A.
Proof.
  refine {| enc a := enc (f a); dec j := dec j ≫= g |}.
  intros a. rewrite dec_enc. apply Hfg.
Defined.

(** ** Payloads *)

Definition auth_code (a : AuthKind) : N :=
  match a with AuthKey => 0 | AuthPassword => 1 | AuthInteractive => 2 end.
#[export] Instance codec_auth : Codec AuthKind.
Proof.
  refine (codec_via auth_code
    (fun n => if (n =? 0)%N then Some AuthKey else if (n =? 1)%N then Some AuthPassword
              else if (n =? 2)%N then Some AuthInteractive else None) _).
  by intros [].
Defined.

Definition fields : list InheritedField :=
  [FPort; FUser; FAuthentication; FJump; FKeepaliveSecs; FKeepaliveMaxMissed; FConnectTimeoutSecs].
#[export] Instance codec_field : Codec InheritedField.
Proof.
  refine (codec_via field_as_str (fun s => List.find (fun f => field_as_str f =?= s) fields) _).
  by intros [].
Defined.

#[export] Instance codec_pin : Codec StoredHostKey.
Proof.
  refine (codec_via (fun p => (pin_algorithm p, pin_public_key p, pin_fingerprint p, pinned_at_ms p, pinned_by_device_id p))
    (fun '(a, b, c, d, e) => Some (mkPin a b c d e)) _).
  by intros [].
Defined.

#[export] Instance codec_unsupported : Codec UnsupportedSetting.
Proof.
  refine (codec_via (fun u => (us_keyword u, us_value u, requires_review u))
    (fun '(a, b, c) => Some (mkUnsupported a b c)) _).
  by intros [].
Defined.

#[export] Instance codec_imported : Codec ImportedSettings.
Proof.
  refine (codec_via (fun i => (is_source i, is_at_ms i, unsupported i))
    (fun '(a, b, c) => Some (mkImported a b c)) _).
  by intros [].
Defined.

#[export] Instance codec_host : Codec HostPayload.
Proof.
  refine (codec_via
    (fun p => ((hp_schema p, hp_group_id p, hp_inherit p, hp_alias p, hp_hostname p, hp_port p),
               (hp_user p, hp_auth p, hp_key_id p, hp_jump p, hp_keepalive_secs p, hp_keepalive_max_missed p),
               (hp_connect_timeout_secs p, hp_host_key p, hp_tags p, hp_notes p, hp_imported p)))
    (fun '((a, b, c, d, e, f), (g, h, i, j, k, l), (m, n, o, p, q)) =>
       Some (mkHost a b c d e f g h i j k l m n o p q)) _).
  by intros [].
Defined.

#[export] Instance codec_group_auth : Codec GroupAuthentication.
Proof.
  refine (codec_via (fun a => (ga_auth a, ga_key_id a)) (fun '(a, b) => Some (mkGroupAuth a b)) _).
  by intros [].
Defined.

#[export] Instance codec_defaults : Codec GroupDefaults.
Proof.
  refine (codec_via
    (fun d => (gd_port d, gd_user d, gd_authentication d, gd_jump d, gd_keepalive_secs d,
               gd_keepalive_max_missed d, gd_connect_timeout_secs d))
    (fun '(a, b, c, d, e, f, g) => Some (mkDefaults a b c d e f g)) _).
  by intros [].
Defined.

#[export] Instance codec_group : Codec GroupPayload.
Proof.
  refine (codec_via (fun g => (gp_schema g, gp_name g, gp_parent_id g, gp_defaults g))
    (fun '(a, b, c, d) => Some (mkGroup a b c d)) _).
  by intros [].
Defined.

#[export] Instance codec_keyslot : Codec KeySlotPayload.
Proof.
  refine (codec_via
    (fun k => (ks_schema k, ks_name k, ks_public_key k, ks_fingerprint k, ks_key_type k,
               ks_has_passphrase k, ks_created_at_ms k, ks_origin_device_id k))
    (fun '(a, b, c, d, e, f, g, h) => Some (mkKeySlot a b c d e f g h)) _).
  by intros [].
Defined.

#[export] Instance codec_phase : Codec MigrationPhase.
Proof.
  refine (codec_via (fun p => match p with AccountGated => 0 | Publishing => 1 | Active => 2 end%N)
    (fun n => if (n =? 0)%N then Some AccountGated else if (n =? 1)%N then Some Publishing
              else if (n =? 2)%N then Some Active else None) _).
  by intros [].
Defined.

#[export] Instance codec_gate : Codec MigrationGate.
Proof.
  refine (codec_via (fun g => (gate_id g, source_digest g, gate_phase g))
    (fun '(a, b, c) => Some (mkGate a b c)) _).
  by intros [].
Defined.

#[export] Instance codec_order : Codec GroupOrder.
Proof.
  refine (codec_via (fun o => (go_schema o, go_ids o)) (fun '(a, b) => Some (mkOrder a b)) _).
  by intros [].
Defined.

(** An object with the payload's schema number beside its data; reading it back checks
    that both agree. *)
Definition serde_under {T} `{Codec T} (name : str) (schema_of : T -> N) (Hname : bool_decide (name = lit "data") = false)
  : Serde T.
Proof.
  refine {| to_value x := JObject [(lit "data", enc x); (name, JNumber (PosInt (schema_of x)))];
            from_value v := match json_get (lit "data") v ≫= dec with
                            | Some x => if json_u64 name v =?= Some (schema_of x) then Ok x else Err (lit "unreadable")
                            | None => Err (lit "unreadable")
                            end |}.
  intros x. unfold json_u64. cbn [json_get bt_get].
  rewrite (bool_decide_true (lit "data" = lit "data")), Hname, (bool_decide_true (name = name)) by done.
  cbn [option_bind mbind as_u64]. rewrite dec_enc. by rewrite bool_decide_true.
Defined.
Definition serde_of {T} `{Codec T} (schema_of : T -> N) : Serde T := serde_under (lit "schema") schema_of eq_refl.

(** What was read has the schema number of its text. *)
Lemma serde_of_schema {T} `{Codec T} (schema_of : T -> N) j p :
  from_value (Serde := serde_of schema_of) j = Ok p -> json_u64 (lit "schema") j = Some (schema_of p).
Proof.
  unfold serde_of, serde_under. cbn [from_value]. destruct (json_get (lit "data") j ≫= dec) as [x|]; [|done].
  case_bool_decide as Hb; [|done]. by intros [= <-].
Qed.

(** A toy OpenSSH line: the algorithm, a space, the key data. *)
#[export] Instance sample_keys : SshKeyLib := {
  PublicKey := str * str;
  from_openssh line :=
    match break_at (N.eqb 32) line with
    | (alg, _ :: data) => if (alg =?= []) || (data =?= []) then None else Some (alg, data)
    | _ => None
    end;
  pk_algorithm := fst;
  pk_fingerprint k := lit "SHA256:" ++ k.2;
  pk_key_data_eqb a b := a =?= b
}.

#[export] Instance sample_host : Serde HostPayload := serde_of hp_schema.
#[export] Instance sample_group : Serde GroupPayload := serde_of gp_schema.
#[export] Instance sample_keyslot : Serde KeySlotPayload := serde_of ks_schema.
#[export] Instance sample_gate : Serde MigrationGate := serde_of (fun _ => 1%N).
#[export] Instance sample_order : Serde GroupOrder := serde_of go_schema.
#[export] Instance sample_host_schema : SchemaField HostPayload hp_schema.
Proof. intros x. reflexivity. Defined.

#[export] Instance sample_env : RecordEnv := {
  env_keys := sample_keys;
  env_host := sample_host;
  env_group := sample_group;
  env_keyslot := sample_keyslot;
  env_gate := sample_gate;
  env_order := sample_order;
  env_host_schema := sample_host_schema;
  error_text e := match e with Group reason => reason | _ => lit "error" end
}.

#[export] Instance sample_digest : ReviewDigest := {
  review_digest '(tag, groups, hosts) :=
    Some (tag ++ concat (map (fun g => gr_id (gv_group g)) groups)
              ++ concat (map (fun h => hr_id h.1.1.1.1) hosts))
}.

(** A toy URL: everything up to the colon is the scheme. *)
#[export] Instance sample_meta_payload : Serde MetaPayload.
Proof.
  refine {| to_value m := JObject [(lit "created_by_app_version", JString (created_by_app_version m));
                                   (lit "schema_version", JNumber (PosInt (schema_version m)))];
            from_value v := match json_get (lit "created_by_app_version") v, json_u64 (lit "schema_version") v with
                            | Some (JString app), Some n => Ok (mkMeta n app)
                            | _, _ => Err (lit "unreadable")
                            end |}.
  by intros [].
Defined.

#[export] Instance sample_state_env : StateEnv := {
  url_parse s := match break_at (N.eqb 58) s with
                 | (scheme, _ :: rest) => Some (mkUrl scheme (Some rest) None None [] None)
                 | _ => None
                 end;
  SSHELTER_RELAY_URL := None;
  debug_assertions := true;
  se_meta := sample_meta_payload
}.

(** ** A sample library *)

Definition dev1 : str := lit "0123456789abcdef0123456789abcdef".
Definition key1 : str := lit "00000000000000000000000000000001".
Definition vault1 : str := lit "00000000000000000000000000000002".
Definition chain1 : str := lit "0123456789abcdef0123456789abcdef0123456789abcdef0123456789abcdef".
Definition space1 : str := lit "aaaaaaaaaaaaaaaaaaaaaaaaaaaaaaaaaaaaaaaaaaaaaaaaaaaaaaaaaaaaaaaa".
Definition web : str := lit "00000000000000a1".
Definition db : str := lit "00000000000000b2".
Definition fresh_id : str := lit "00000000000000c3".
Definition team : str := lit "00000000000000d4".
Definition prod : str := lit "00000000000000e5".
Definition fresh_group : str := lit "00000000000000f6".

Definition pin1 : StoredHostKey :=
  mkPin (lit "ssh-ed25519") (lit "AAAA") (lit "SHA256:AAAA") 5 dev1.
Definition pin2 : StoredHostKey :=
  mkPin (lit "ssh-ed25519") (lit "BBBB") (lit "SHA256:BBBB") 6 dev1.

Definition plain_host (alias : string) (key : option StoredHostKey) : HostPayload :=
  mkHost 2 None [] (lit alias) (lit "example.org") 22 (lit "root") AuthKey (Some key1) [] 30 3 15 key [] [] None.

(** A host of the group [prod] that inherits its port and jumps through [web]. *)
Definition grouped_host : HostPayload :=
  mkHost 3 (Some prod) [FPort; FUser] (lit "db") (lit "db.example.org") 22 (lit "me") AuthPassword None [web]
    30 3 15 None [] [] None.

Definition defaults (port : option N) (user : option str) : GroupDefaults :=
  mkDefaults port user None None None None None.
Definition team_group : GroupPayload := mkGroup 1 (lit "team") None (defaults (Some 2222%N) (Some (lit "ops"))).
Definition prod_group : GroupPayload := mkGroup 1 (lit "prod") (Some team) (defaults (Some 2200%N) None).

Definition row (k : RecordKind) (id : str) (payload : Json) : str * LocalRecord :=
  (record_key k id, mkLocal (mkRec k id 1 100 dev1 false payload) 0 false).

Definition slot1 : KeySlotPayload :=
  mkKeySlot 2 (lit "laptop") (lit "ssh-ed25519 CCCC") (lit "SHA256:CCCC") (lit "ssh-ed25519") false 50 dev1.

Definition sample_account : AccountState :=
  mkAccount chain1 7 true (Some 4%N) None
    [row KKeySlot key1 (to_value slot1)] [] [].

Definition sample : SyncStateV3 :=
  mkState 5 dev1 (lit "laptop") (lit "https://relay.example") (Some sample_account)
    [(space1, mkSpace true 3 true [] [] None false)]
    (mkLocalState []
       [row KGroup team (to_value team_group); row KGroup prod (to_value prod_group)]
       [row KHost web (to_value (plain_host "web" (Some pin1))); row KHost db (to_value grouped_host)]
       [(key1, mkLocalKey vault1 slot1)] [])
    None None None false None false None [] None None.

(** The revision of every row of the sample. *)
Definition rev1 : RecordRevision := mkRevision 1 100 dev1.

(** The state an edit returns. *)
Definition after (r : rresult SyncStateV3) : SyncStateV3 := match r with Ok s => s | Err _ => sample end.
