(* ===== verification/RecordWitnesses.v ===== *)
(** * RecordWitnesses: the record theorems on a concrete library

    Each theorem of the record files that has a hypothesis, applied to the
    sample library of [RecordInstances], where the hypothesis is evaluated. *)

From stdpp Require Import relations.
From S2P Require Import Prelude Text BTreeMap SlotRules Json SyncRecord RecordsTypes RecordsValidate RecordsValidateProps RecordsState RepositoryCore RecordGroups Repository RepositoryProps SnapshotProps RepositoryLookup KeyProps GroupEdit GroupProps GroupEditProps GroupDelete GroupOrderEdit StateCheck StateProps RecordInstances.

(** ** States reached from the sample *)

Definition new_host : HostPayload := plain_host "new" (Some pin1).
Definition web2 : HostPayload := plain_host "web2" None.
Definition here : HostEndpoint := mkEndpoint (lit "example.org") 22.

Definition created : SyncStateV3 := after (create_host sample fresh_id (Space space1) new_host 200).
Definition updated : SyncStateV3 := after (update_host sample web rev1 web2 200).
Definition deleted : SyncStateV3 := after (delete_host sample db rev1 200).
Definition moved : SyncStateV3 := after (Repository.move_host sample web rev1 (Space space1) 200).
Definition pinned : SyncStateV3 := after (pin_host_key sample web here (Some pin1) pin2 200).

Definition new_group : GroupPayload := mkGroup 1 (lit " staging ") (Some team) (defaults None None).
Definition team2 : GroupPayload := mkGroup 1 (lit "team2") None (defaults None None).
Definition with_group : SyncStateV3 := after (create_group sample fresh_group Local new_group false 200).
Definition renamed_group : SyncStateV3 := after (update_group sample team rev1 team2 200).
Definition review : option str :=
  match snapshot sample with Ok s => result_ok (deletion_snapshot_token s) | Err _ => None end.
Definition without_team : SyncStateV3 := after (delete_group sample team rev1 review 200).
Definition ordered : SyncStateV3 := after (set_order sample [] None [prod; team] 200).

(** The sample with shared writes blocked. *)
Definition blocked : SyncStateV3 :=
  mkState (version sample) (device_id sample) (device_name sample) (relay_url sample) (account sample)
    (spaces sample) (local sample) None None None false None true None [] None None.

Definition web_host : HostRecord := mkHostRecord web Local (plain_host "web" (Some pin1)).
Definition db_host : HostRecord := mkHostRecord db Local grouped_host.
Definition web_view : HostView := mkView web_host (hr_payload web_host) [] None rev1 HReady.

Definition sample_snap : RepositorySnapshot :=
  match snapshot sample with Ok s => s | Err _ => mkSnapshot [] [] [] end.
Definition sample_keys_view : list KeyView := match list_keys sample with Ok l => l | Err _ => [] end.
Definition key_view1 : KeyView := mkKeyView key1 KAAccount (Some slot1) (Some vault1) Available.

Lemma sample_maps_ok : maps_ok sample.
Proof.
  split_and!; try (repeat constructor).
  intros sid sp Hin. apply list_elem_of_singleton in Hin as [= -> ->]. constructor.
Qed.

(** ** Validation *)

(** ** Host edits *)

Lemma stale_edit_refused_witness :
  delete_host sample web (mkRevision 9 9 dev1) 200 = Err (RevisionConflict web rev1).
Proof.
  destruct (stale_edit_refused sample web (mkRevision 9 9 dev1) web_view web2 (Space space1) here pin1 200)
    as (_ & H & _ & _); [vm_compute; reflexivity|discriminate|exact H].
Defined.

(** ** Reading *)


(** ** Groups *)

Lemma delete_group_spec_witness :
  exists scope, buried sample without_team scope team /\ forest without_team scope.
Proof.
  destruct (delete_group_spec sample without_team team rev1 review 200 sample_maps_ok)
    as (gv & gs & snap & token & _ & _ & _ & _ & _ & _ & Hb & _ & _ & Hf); [vm_compute; reflexivity|].
  exists (gr_scope (gv_group gv)). split; [apply Hb; constructor|exact Hf].
Defined.

(** ** Whole states *)

#[export] Instance sample_payload_laws : PayloadLaws.
Proof.
  split.
  - intros j p. apply (serde_of_schema hp_schema).
  - intros x. reflexivity.
  - intros j m n j' _ Hm Hset. destruct j as [| | | | |o]; try done. injection Hset as <-.
    unfold from_value in *. cbn [se_meta sample_state_env sample_meta_payload] in *. unfold json_u64 in *.
    cbn [json_get] in *. rewrite bt_get_insert_ne by (intros Heq; vm_compute in Heq; discriminate Heq).
    rewrite bt_get_insert_eq. destruct (bt_get (lit "created_by_app_version") o) as [[]|]; try done.
    cbn. destruct (bt_get _ o ≫= as_u64); [|done]. by injection Hm as <-.
Defined.

Definition created_both : SyncStateV3 := after (create_group created fresh_group Local new_group false 250).
Definition edited : SyncStateV3 := after (delete_host created_both db rev1 300).

Lemma edits_keep_state_valid_witness :
  validate_state sample = Ok tt /\ validate_state edited = Ok tt /\ meta_live edited.
Proof.
  split; [vm_compute; reflexivity|]. destruct (edits_keep_state_valid sample edited) as (H1 & H2 & _).
  - eapply rtc_l; [apply (e_create sample fresh_id (Space space1) new_host 200 created); vm_compute; reflexivity|].
    eapply rtc_l; [apply (e_create_group created fresh_group Local new_group false 250 created_both); vm_compute; reflexivity|].
    eapply rtc_l; [apply (e_delete created_both db rev1 300 edited); vm_compute; reflexivity|apply rtc_refl].
  - vm_compute. reflexivity.
  - intros l. vm_compute. discriminate.
  - by split.
Defined.
