(* ===== verification/MergeInstances.v ===== *)
(** * MergeInstances: a concrete environment for the merge

    The parameters of [RecordMerge] and [RecordPush] (the cryptography, the JSON
    text, three derived serializations) instantiated by small functions that
    satisfy their laws, and the sections and pulls the witnesses use. *)

From S2P Require Import Prelude Text BTreeMap SlotRules Json SyncRecord RecordsTypes RecordsValidate RecordsState RepositoryCore RecordGroups Repository GroupEdit GroupEditProps GroupOrderEdit StateCheck Crypto Relay RecordMerge RecordPush RecordMergeProps RecordPushProps RecordLibrary RecordInstances.

(** ** A text for JSON values: a tag, lengths, contents *)

Definition put_str (s : str) : list N := N.of_nat (length s) :: s.

Fixpoint put_json (v : Json) : list N :=
  match v with
  | JNull => [0%N]
  | JBool b => [1%N; if b then 1%N else 0%N]
  | JNumber (PosInt n) => [2%N; n]
  | JNumber (NegInt z) => [3%N; Z.to_N (- z); Z.to_N z]
  | JNumber (Float t) => 4%N :: put_str t
  | JString s => 5%N :: put_str s
  | JArray l => 6%N :: N.of_nat (length l) :: flat_map put_json l
  | JObject m => 7%N :: N.of_nat (length m) :: flat_map (fun e => put_str e.1 ++ put_json e.2) m
  end.

Definition take_str (l : list N) : option (str * list N) :=
  match l with
  | [] => None
  | n :: l => Some (take (N.to_nat n) l, drop (N.to_nat n) l)
  end.

(** [n] items read one after another. *)
Fixpoint read_many {A} (read : list N -> option (A * list N)) (n : nat) (l : list N)
  : option (list A * list N) :=
  match n with
  | O => Some ([], l)
  | S n => '(x, l) ← read l; '(xs, l) ← read_many read n l; Some (x :: xs, l)
  end.

Fixpoint get_json (fuel : nat) (l : list N) : option (Json * list N) :=
  match fuel with
  | O => None
  | S fuel =>
      match l with
      | 0%N :: l => Some (JNull, l)
      | 1%N :: b :: l => Some (JBool (b =? 1)%N, l)
      | 2%N :: n :: l => Some (JNumber (PosInt n), l)
      | 3%N :: a :: b :: l => Some (JNumber (NegInt (Z.of_N b - Z.of_N a)), l)
      | 4%N :: l => '(t, l) ← take_str l; Some (JNumber (Float t), l)
      | 5%N :: l => '(s, l) ← take_str l; Some (JString s, l)
      | 6%N :: n :: l => '(xs, l) ← read_many (get_json fuel) (N.to_nat n) l; Some (JArray xs, l)
      | 7%N :: n :: l =>
          '(xs, l) ← read_many (fun l => '(k, l) ← take_str l; '(v, l) ← get_json fuel l; Some ((k, v), l))
                       (N.to_nat n) l;
          Some (JObject xs, l)
      | _ => None
      end
  end.

Lemma take_put_str s rest : take_str (put_str s ++ rest) = Some (s, rest).
Proof. simpl. by rewrite Nat2N.id, take_app_length, drop_app_length. Qed.

Lemma read_many_put {A} (read : list N -> option (A * list N)) (put : A -> list N) rest l :
  Forall (fun x => forall rest, read (put x ++ rest) = Some (x, rest)) l ->
  read_many read (length l) (flat_map put l ++ rest) = Some (l, rest).
Proof.
  induction 1 as [|x l Hx _ IH]; simpl; [done|]. rewrite <-app_assoc, Hx. simpl. by rewrite IH.
Qed.

Lemma flat_map_fits {A} (put : A -> list N) l fuel :
  (length (flat_map put l) <= fuel)%nat -> Forall (fun x => (length (put x) <= fuel)%nat) l.
Proof.
  induction l as [|x l IH]; simpl; rewrite ?length_app; intros H; constructor; [lia|apply IH; lia].
Qed.

Lemma get_put_json v : forall fuel rest,
  (length (put_json v) <= fuel)%nat -> get_json fuel (put_json v ++ rest) = Some (v, rest).
Proof.
  induction v as [|b|n|s|l IH|m IH] using json_rec; intros [|fuel] rest Hf;
    try (exfalso; destruct_or?; try destruct n; simpl in Hf; lia); cbn [put_json] in *.
  - done.
  - by destruct b.
  - destruct n as [n|z|t]; [done| |].
    + simpl. do 3 f_equal. f_equal. lia.
    + change (get_json (S fuel) ((4%N :: put_str t) ++ rest))
        with ('(t, l) ← take_str (put_str t ++ rest); Some (JNumber (Float t), l)).
      by rewrite take_put_str.
  - change (get_json (S fuel) ((5%N :: put_str s) ++ rest))
      with ('(t, l) ← take_str (put_str s ++ rest); Some (JString t, l)).
    by rewrite take_put_str.
  - cbn [length] in Hf. cbn [app get_json]. rewrite Nat2N.id, read_many_put; [done|].
    assert (Hfit := flat_map_fits put_json l fuel ltac:(lia)).
    rewrite Forall_forall in *. intros x Hx rest'. apply IH; [done|]. by apply Hfit.
  - cbn [length] in Hf. cbn [app get_json].
    rewrite Nat2N.id, (read_many_put _ (fun e => put_str e.1 ++ put_json e.2)); [done|].
    assert (Hfit := flat_map_fits (fun e => put_str e.1 ++ put_json e.2) m fuel ltac:(lia)).
    rewrite Forall_forall in *. intros [k v] Hx rest'. rewrite <-app_assoc, take_put_str. cbn [mbind option_bind].
    specialize (Hfit _ Hx). cbn [fst snd] in *. rewrite length_app in Hfit.
    rewrite (IH _ Hx); [done|]. cbn [snd]. lia.
Qed.

(** ** The environment *)

(** A toy cipher: the ciphertext shows key, nonce and associated data. *)
#[export] Instance sample_crypto : CryptoLib.
Proof.
  refine {|
    hmac_sha256 key msg := msg;
    aead_encrypt key nonce aad msg := Some ((key ++ nonce ++ aad) ++ msg);
    aead_decrypt key nonce aad c :=
      let p := key ++ nonce ++ aad in
      if take (length p) c =?= p then Some (drop (length p) c) else None;
    b64_encode b := b;
    b64_decode s := Some s
  |}; [|done].
  intros key nonce ad msg c [= <-]. cbv zeta. by rewrite take_app_length, bool_decide_true, drop_app_length.
Defined.

#[export] Instance codec_slot : Codec DeviceSlot.
Proof.
  refine (codec_via (fun d => (ds_slot_id d, ds_fingerprint d, ds_synced_copy d, ds_in_vault d))
    (fun '(a, b, c, d) => Some (mkDeviceSlot a b c d)) _).
  by intros [].
Defined.

#[export] Instance codec_device : Codec DevicePayload.
Proof.
  refine (codec_via
    (fun d => (dp_schema d, dp_name d, dp_platform d, dp_joined_at_ms d, dp_last_seen_ms d, dp_keys d,
               dp_spaces d, dp_slots d))
    (fun '(a, b, c, d, e, f, g, h) => Some (mkDevicePayload a b c d e f g h)) _).
  by intros [].
Defined.

#[export] Instance codec_space : Codec SpacePayload.
Proof.
  refine (codec_via (fun s => (sp_schema s, sp_name s, sp_slug s, sp_created_at_ms s, sp_previous_id s))
    (fun '(a, b, c, d, e) => Some (mkSpacePayload a b c d e)) _).
  by intros [].
Defined.

#[export] Instance codec_meta : Codec MetaPayloadV3.
Proof.
  refine (codec_via (fun m => (m_schema_version m, m_created_by m, m_migration m))
    (fun '(a, b, c) => Some (mkMetaV3 a b c)) _).
  by intros [].
Defined.

#[export] Instance sample_meta : Serde MetaPayloadV3 := serde_under (lit "schema_version") m_schema_version eq_refl.

#[export] Instance sample_merge : MergeEnv.
Proof.
  refine {|
    me_records := sample_env;
    me_crypto := sample_crypto;
    me_meta := sample_meta;
    me_space := serde_of sp_schema;
    me_device := serde_of dp_schema;
    json_from_slice b := fst <$> get_json (length b) b;
    record_to_vec r := Some (put_json (record_json r))
  |}.
  intros r b [= <-].
  replace (put_json (record_json r)) with (put_json (record_json r) ++ []) at 2 by apply app_nil_r.
  by rewrite get_put_json.
Defined.

(** ** Sections and pulls *)

Definition account_keys : ChainKeys := mkKeys chain1 chain1 (repeat 7%N 32).
Definition space_chain : ChainKeys := mkKeys space1 chain1 (repeat 9%N 32).
Definition sample_nonce (i : nat) : option (list N) := Some (repeat (N.of_nat i) 24).

Definition meta_rec (v : N) : Rec :=
  mkRec KMeta ACCOUNT_META_ID v (100 + v) dev1 false (to_value (mkMetaV3 4 dev1 None)).
Definition host_rec (id : str) (v : N) (alias : string) : Rec :=
  mkRec KHost id v (100 + v) dev1 false (to_value (plain_host alias None)).

(** A record as the relay returns it. *)
Definition envelope (keys : ChainKeys) (r : Rec) (seq : N) : Envelope :=
  match encode_record keys r 0 (sample_nonce 1) with
  | Ok item => envelope_of item seq
  | Err _ => mkEnvelope [] [] 0 [] [] false
  end.

(** [web] is clean, [db] holds an edit that was not sent. *)
Definition shared : SpaceStateV3 :=
  mkSpace true 3 true
    [(record_key KHost web, mkLocal (host_rec web 1 "web") 2 false);
     (record_key KHost db, mkLocal (host_rec db 1 "db") 3 true)] [] None false.

Definition shared_account : AccountState :=
  mkAccount chain1 7 true (Some 4%N) None
    [row KKeySlot key1 (to_value slot1); (record_key KMeta ACCOUNT_META_ID, mkLocal (meta_rec 1) 7 false)] [] [].

(** A newer [web], a newer [db], and a row nobody can read. *)
Definition space_pull : PullResponse :=
  mkPull [envelope space_chain (host_rec web 2 "web2") 4; envelope space_chain (host_rec db 3 "db3") 5;
          mkEnvelope (lit "ff") (lit "host") 6 [] [] false] 6.
Definition account_pull : PullResponse := mkPull [envelope account_keys (meta_rec 2) 8] 8.

Definition to_send : list TypedOutgoing :=
  match space_outgoing shared space_chain Compatible sample_nonce with Ok l => l | Err _ => [] end.

(** ** A scripted HTTP client *)

(** The answers it will give; an accepted item is answered by one byte, its number. *)
#[export] Instance sample_http : HttpLib := {
  Net := list Response;
  send net _ := match net with
                | [] => ([], Err (lit "offline"))
                | r :: net => (net, Ok r)
                end;
  parse_info _ := Err (1, 1)%N;
  parse_pull b := Ok (mkPull [] (hd 0%N b));
  parse_batch b := Ok (map (fun n => WDeferred [n]) b);
  parse_push b := Ok (map WireOk b);
  parse_status b := Ok b
}.

(** ** The merge theorems on concrete sections *)


Lemma shared_rows_ok : rows_ok space_chain false (s_records shared).
Proof.
  intros key l. cbv [shared shared_account s_records a_records row]. rewrite !elem_of_cons. intros [[= -> ->]|[[= -> ->]|H%elem_of_nil]]; [| |done];
    split_and!; vm_compute; reflexivity.
Qed.

Lemma acct_rows_ok : rows_ok account_keys true (a_records shared_account).
Proof.
  intros key l. cbv [shared shared_account s_records a_records row]. rewrite !elem_of_cons. intros [[= -> ->]|[[= -> ->]|H%elem_of_nil]]; [| |done];
    split_and!; vm_compute; reflexivity.
Qed.

Lemma merge_keeps_secrets_sealed_witness :
  rows_ok space_chain false (s_records (mo_section (merge_space shared space_chain space_pull 3 Compatible))).
Proof.
  apply (merge_keeps_secrets_sealed shared shared_account space_chain account_keys space_pull 3 Compatible);
    [apply shared_rows_ok|apply acct_rows_ok].
Defined.


(** A device whose only local record is the host [web]. *)
Definition before_library : SyncStateV3 :=
  set_local sample (mkLocalState [] [] [row KHost web (to_value (plain_host "web" (Some pin1)))] [(key1, mkLocalKey vault1 slot1)] []).
Definition in_library : SyncStateV3 := after (RecordLibrary.include_existing before_library space1 false 400 None).

