(* ===== verification/ByteStream.v ===== *)
(** * ByteStream: [std::io] streams and big-endian lengths

    What the wire protocols of the agent ([agent/protocol.rs]) and of the broker
    ([session/protocol.rs]) use of the standard library: a reader that delivers its
    bytes in pieces of any size, interruptions that are retried, failures, the end
    of the stream; a writer that may stop taking bytes; [u32::to_be_bytes]. *)

From S2P Require Import Prelude Text.

(** ** Readers *)

(** What one call of [Read::read] meets: bytes (as many as fit are taken, the rest
    stays), [ErrorKind::Interrupted], or another error.  The end of the list and
    an empty piece are the end of the stream. *)
Inductive Input :=
| Piece (b : list N)
| Interrupted
| Failing (e : str).

Definition Reader : Type := list Input.

(** The bytes of a reader that never fails and is never interrupted. *)
Definition pieces (r : Reader) : list N :=
  flat_map (fun i => match i with Piece b => b | _ => [] end) r.

Definition reader_size (r : Reader) : nat :=
  list_sum (map (fun i => match i with Piece b => S (length b) | _ => 1 end) r).

(** How filling a buffer ends. *)
Inductive Filled :=
| Full (b : list N)
| Ended (b : list N)
| Failed (e : str).

(** Put the rest of a piece back. *)
Definition unread (b : list N) (r : Reader) : Reader :=
  match b with [] => r | _ => Piece b :: r end.

(** The loop of [read_exact] and of [read_full]: read until [want] more bytes are
    there; [have] is what was read before. *)
Fixpoint fill (want : nat) (have : list N) (r : Reader) : Filled * Reader :=
  match want with
  | O => (Full have, r)
  | S _ =>
      match r with
      | [] => (Ended have, [])
      | Interrupted :: r' => fill want have r'
      | Failing e :: r' => (Failed e, r')
      | Piece [] :: r' => (Ended have, r')
      | Piece b :: r' =>
          if (want <=? length b)%nat
          then (Full (have ++ take want b), unread (drop want b) r')
          else fill (want - length b) (have ++ b) r'
      end
  end.

(** [io::Error]: its kind and its message. *)
Inductive IoKind := UnexpectedEof | InvalidData | InvalidInput | OtherIo.
Record IoError := mkIoError { io_kind : IoKind; io_text : str }.

#[export] Instance io_kind_eq_dec : EqDecision IoKind.
Proof. solve_decision. Defined.

(** [Read::read_exact]. *)
Definition read_exact (n : nat) (r : Reader) : result IoError (list N) * Reader :=
  match fill n [] r with
  | (Full b, r') => (Ok b, r')
  | (Ended _, r') => (Err (mkIoError UnexpectedEof (lit "failed to fill whole buffer")), r')
  | (Failed e, r') => (Err (mkIoError OtherIo e), r')
  end.

(** ** Writers *)

(** What was written, and how many more bytes the other side takes ([None]: any). *)
Record Writer := mkWriter { written : list N; room : option nat }.

(** [write_all] and [flush]. *)
Definition write_all (w : Writer) (b : list N) : result IoError unit * Writer :=
  match room w with
  | None => (Ok tt, mkWriter (written w ++ b) None)
  | Some n =>
      if (length b <=? n)%nat then (Ok tt, mkWriter (written w ++ b) (Some (n - length b)%nat))
      else (Err (mkIoError OtherIo (lit "broken pipe")), mkWriter (written w ++ take n b) (Some 0%nat))
  end.

(** ** Lengths *)

Definition to_be32 (n : N) : list N :=
  [n / 16777216 mod 256; n / 65536 mod 256; n / 256 mod 256; n mod 256]%N.

Definition of_be32 (b : list N) : N :=
  foldl (fun acc x => acc * 256 + x)%N 0%N b.

(** [n as u32]. *)
Definition as_u32 (n : N) : N := (n mod 4294967296)%N.

(** ** Lemmas *)

Lemma of_to_be32 n : (n < 4294967296)%N -> of_be32 (to_be32 n) = n.
Proof. intros H. unfold of_be32, to_be32. cbn [foldl]. zify; Z.to_euclidean_division_equations; lia. Qed.

Lemma of_be32_lt b : length b = 4 -> Forall (fun x => x < 256)%N b -> (of_be32 b < 4294967296)%N.
Proof.
  intros Hl Hb. destruct b as [|a [|b0 [|c [|d [|? ?]]]]]; try discriminate.
  repeat match goal with H : Forall _ (_ :: _) |- _ => inversion H; clear H; subst end.
  unfold of_be32. cbn [foldl]. lia.
Qed.

Lemma length_to_be32 n : length (to_be32 n) = 4.
Proof. done. Qed.

(** A reader that only delivers bytes: no failure, no interruption, no empty piece. *)
Definition plain_reader (r : Reader) : bool :=
  forallb (fun i => match i with Piece (_ :: _) => true | _ => false end) r.

Lemma pieces_unread b r : pieces (unread b r) = b ++ pieces r.
Proof. by destruct b. Qed.

Lemma plain_unread b r : plain_reader r = true -> plain_reader (unread b r) = true.
Proof. by destruct b. Qed.

(** Filling a buffer does not depend on how the bytes are cut into pieces. *)
Lemma fill_pieces r : plain_reader r = true -> forall want have,
  want <= length (pieces r) ->
  exists r', fill want have r = (Full (have ++ take want (pieces r)), r')
    /\ pieces r' = drop want (pieces r) /\ plain_reader r' = true.
Proof.
  induction r as [|i r IH]; intros Hp want have Hw.
  { destruct want; [|simpl in Hw; lia]. exists []. by rewrite take_0, app_nil_r. }
  destruct want as [|want]; [exists (i :: r); by rewrite take_0, app_nil_r|].
  cbn [plain_reader forallb] in Hp. destruct i as [b| |]; [|done|done].
  destruct b as [|x b]; [done|]. change (plain_reader r = true) in Hp. cbn [fill]. set (w := S want) in *. set (xb := x :: b) in *.
  change (pieces (Piece xb :: r)) with (xb ++ pieces r) in *.
  destruct (w <=? length xb) eqn:Hc; breflect.
  - exists (unread (drop w xb) r). rewrite pieces_unread.
    rewrite take_app_le, drop_app_le by lia. split_and!; [done|done|]. by apply plain_unread.
  - rewrite length_app in Hw. destruct (IH Hp (w - length xb) (have ++ xb)) as (r' & Hf & Hr & Hpr); [lia|].
    exists r'. rewrite Hf, <-app_assoc. rewrite take_app_ge, drop_app_ge by lia. done.
Qed.

Lemma fill_short r : plain_reader r = true -> forall want have,
  length (pieces r) < want -> fill want have r = (Ended (have ++ pieces r), []).
Proof.
  induction r as [|i r IH]; intros Hp want have Hw; (destruct want as [|want]; [lia|]).
  { cbn [fill pieces flat_map]. by rewrite app_nil_r. }
  cbn [plain_reader forallb] in Hp. destruct i as [b| |]; [|done|done].
  destruct b as [|x b]; [done|]. change (plain_reader r = true) in Hp. cbn [fill]. set (w := S want) in *. set (xb := x :: b) in *.
  change (pieces (Piece xb :: r)) with (xb ++ pieces r) in *. rewrite length_app in Hw.
  destruct (w <=? length xb) eqn:Hc; breflect; [lia|]. rewrite IH; [by rewrite app_assoc|done|lia].
Qed.

Lemma reader_size_unread b r : reader_size (unread b r) <= S (length b) + reader_size r.
Proof. destruct b; unfold reader_size; simpl; lia. Qed.

(** Filling a non-empty buffer uses up some of the reader. *)
Lemma fill_size r : forall want have b r', 0 < want ->
  fill want have r = (Full b, r') -> reader_size r' < reader_size r.
Proof.
  induction r as [|i r IH]; intros want have b r' Hw Hf; (destruct want as [|want]; [lia|]); cbn [fill] in Hf; [done|].
  assert (Hsz : forall j, reader_size (j :: r) = (match j with Piece b => S (length b) | _ => 1 end) + reader_size r) by done.
  rewrite Hsz. destruct i as [[|x c]| |]; try done.
  - destruct (S want <=? length (x :: c)) eqn:Hc; breflect.
    + injection Hf as _ <-. cbn [drop]. pose proof (reader_size_unread (drop want c) r) as H.
      rewrite length_drop in H. cbn [length] in *. lia.
    + apply IH in Hf; lia.
  - apply IH in Hf; lia.
Qed.

Lemma fill_size_le r : forall want have f r', fill want have r = (f, r') -> reader_size r' <= reader_size r.
Proof.
  induction r as [|i r IH]; intros want have f r' Hf; (destruct want as [|want]; [by injection Hf as _ <-|]);
    cbn [fill] in Hf; [by injection Hf as _ <-|].
  assert (Hsz : forall j, reader_size (j :: r) = (match j with Piece b => S (length b) | _ => 1 end) + reader_size r) by done.
  rewrite Hsz. destruct i as [[|x c]| |]; try (injection Hf as _ <-; lia).
  - destruct (S want <=? length (x :: c)) eqn:Hc; breflect.
    + injection Hf as _ <-. cbn [drop]. pose proof (reader_size_unread (drop want c) r) as H.
      rewrite length_drop in H. cbn [length] in *. lia.
    + apply IH in Hf; lia.
  - apply IH in Hf; lia.
Qed.

Lemma fill_length r : forall want have b r', fill want have r = (Full b, r') -> length b = length have + want.
Proof.
  induction r as [|i r IH]; intros want have b r' Hf;
    (destruct want as [|want]; [injection Hf as <- _; lia|]); cbn [fill] in Hf; [done|].
  destruct i as [[|x c]| |]; try done.
  - destruct (S want <=? length (x :: c)) eqn:Hc; breflect.
    + injection Hf as <- _. rewrite length_app. cbn [take length] in *. rewrite length_take. lia.
    + apply IH in Hf. rewrite length_app in Hf. lia.
  - by apply IH in Hf.
Qed.
