(* ===== verification/AgentProtocol.v ===== *)
(** * AgentProtocol: frames and messages of the SSH agent, and when it asks

    [src-tauri/src/agent/protocol.rs]: the frames of the agent protocol (RFC 9987),
    the requests it understands, its answers, and the userauth data a login signs.
    The field codecs of the crate [ssh-encoding] and the key and signature types of
    [ssh-key] are a parameter with the documented laws of the SSH wire format. *)

From stdpp Require Import gmap.
From S2P Require Import Prelude Text ByteStream.

Definition MAX_MESSAGE : N := 256 * 1024.
Definition SSH_AGENT_FAILURE : N := 5.
Definition SSH_AGENT_SUCCESS : N := 6.
Definition SSH_AGENTC_REQUEST_IDENTITIES : N := 11.
Definition SSH_AGENT_IDENTITIES_ANSWER : N := 12.
Definition SSH_AGENTC_SIGN_REQUEST : N := 13.
Definition SSH_AGENT_SIGN_RESPONSE : N := 14.
Definition SSH_AGENTC_EXTENSION : N := 27.
Definition SSH_AGENT_EXTENSION_FAILURE : N := 28.
Definition SESSION_BIND : str := lit "session-bind@openssh.com".

(** The crates.  A [decode] takes its value off the front of the bytes; a [string]
    is a length and that many bytes, and is read back whatever follows it. *)
Class SshWire := {
  KeyData : Type;
  key_data_eq :: EqDecision KeyData;
  Signature : Type;
  decode_bytes : list N -> option (list N * list N);
  encode_bytes : list N -> list N;
  decode_u32 : list N -> option (N * list N);
  encode_u32 : N -> list N;
  decode_u8 : list N -> option (N * list N);
  decode_text : list N -> option (str * list N);
  encode_text : str -> list N;
  decode_key : list N -> option (KeyData * list N);
  encode_key : KeyData -> list N;
  decode_signature : list N -> option (Signature * list N);
  (** [host_key.verify(session_id, signature)]. *)
  verifies : KeyData -> list N -> Signature -> bool;
  fingerprint : KeyData -> str;
  decode_encode_bytes : forall b rest, (N.of_nat (length b) <= MAX_MESSAGE)%N ->
    decode_bytes (encode_bytes b ++ rest) = Some (b, rest);
  decode_bytes_inv : forall x b rest, decode_bytes x = Some (b, rest) -> x = encode_bytes b ++ rest;
  decode_encode_u32 : forall n rest, (n < 4294967296)%N -> decode_u32 (encode_u32 n ++ rest) = Some (n, rest);
  decode_u32_inv : forall x n rest, decode_u32 x = Some (n, rest) -> x = encode_u32 n ++ rest;
  decode_u32_lt : forall x n rest, decode_u32 x = Some (n, rest) -> (n < 4294967296)%N;
  decode_u8_cons : forall b rest, decode_u8 (b :: rest) = Some (b, rest);
  decode_u8_nil : decode_u8 [] = None;
  decode_encode_text : forall s rest, (N.of_nat (str_len s) <= MAX_MESSAGE)%N ->
    decode_text (encode_text s ++ rest) = Some (s, rest);
  decode_text_inv : forall x s rest, decode_text x = Some (s, rest) -> x = encode_text s ++ rest;
  decode_encode_key : forall k, decode_key (encode_key k) = Some (k, [])
}.

(** ** Frames *)

Abbreviation ioresult := (result IoError).

(** The end of the stream before or inside the length is a closed connection. *)
Definition read_frame (r : Reader) : ioresult (option (list N)) * Reader :=
  match read_exact 4 r with
  | (Err e, r') => if io_kind e =?= UnexpectedEof then (Ok None, r') else (Err e, r')
  | (Ok header, r') =>
      let len := of_be32 header in
      if (len =? 0)%N || (MAX_MESSAGE <? len)%N
      then (Err (mkIoError InvalidData (lit "bad agent frame length " ++ dec len)), r')
      else match read_exact (N.to_nat len) r' with
           | (Ok msg, r'') => (Ok (Some msg), r'')
           | (Err e, r'') => (Err e, r'')
           end
  end.

Definition frame (body : list N) : list N := to_be32 (as_u32 (N.of_nat (length body))) ++ body.

Definition write_frame (w : Writer) (body : list N) : ioresult unit * Writer := write_all w (frame body).

(** ** Requests *)

Section Messages.
Context {W : SshWire}.

Inductive Request :=
| Identities
| Sign (key : KeyData) (data : list N) (flags : N)
| SessionBind (host_key : KeyData) (session_id : list N) (signature : Signature) (forwarding : bool)
| Extension (name : str)
| Unsupported.

(** [Reader::finish]: nothing may be left. *)
Definition finish {A} (rest : list N) (v : A) : option A :=
  match rest with [] => Some v | _ => None end.

(** A length and a value that uses up exactly that many bytes. *)
Definition read_prefixed_exact {A} (decode : list N -> option (A * list N)) (r : list N) : option (A * list N) :=
  '(nested, rest) ← decode_bytes r;
  '(v, remaining) ← decode nested;
  v ← finish remaining v;
  Some (v, rest).

Definition parse_sign (body : list N) : option Request :=
  '(key, body) ← read_prefixed_exact decode_key body;
  '(data, body) ← decode_bytes body;
  '(flags, body) ← decode_u32 body;
  finish body (Sign key data flags).

Definition parse_extension (body : list N) : option Request :=
  '(name, body) ← decode_text body;
  if negb (name =?= SESSION_BIND) then Some (Extension name)
  else
    '(host_key, body) ← read_prefixed_exact decode_key body;
    '(session_id, body) ← decode_bytes body;
    '(sig, body) ← read_prefixed_exact decode_signature body;
    '(b, body) ← decode_u8 body;
    finish body (SessionBind host_key session_id sig (negb (b =? 0)%N)).

Definition parse_request (msg : list N) : Request :=
  match msg with
  | [] => Unsupported
  | kind :: body =>
      default Unsupported
        (if (kind =? SSH_AGENTC_REQUEST_IDENTITIES)%N then finish body Identities
         else if (kind =? SSH_AGENTC_SIGN_REQUEST)%N then parse_sign body
         else if (kind =? SSH_AGENTC_EXTENSION)%N then parse_extension body
         else Some Unsupported)
  end.

(** ** Answers *)

Definition identities_answer (keys : list (KeyData * str)) : list N :=
  SSH_AGENT_IDENTITIES_ANSWER :: encode_u32 (as_u32 (N.of_nat (length keys)))
    ++ flat_map (fun k => encode_bytes (encode_key k.1) ++ encode_text k.2) keys.

Definition sign_response (signature_blob : list N) : list N :=
  SSH_AGENT_SIGN_RESPONSE :: encode_bytes signature_blob.

(** ** The data a login signs *)

Record Userauth := mkUserauth {
  ua_session_id : list N; ua_user : str; ua_key : KeyData; ua_hostbound_host_key : option KeyData
}.

(** [None] when the login method is not one of the two public-key methods. *)
Definition hostbound_method (m : str) : option bool :=
  if m =?= lit "publickey" then Some false
  else if m =?= lit "publickey-hostbound-v00@openssh.com" then Some true
  else None.

Definition parse_userauth (data : list N) : option Userauth :=
  '(session_id, r) ← decode_bytes data;
  '(kind, r) ← decode_u8 r;
  if negb (kind =? 50)%N then None else
  '(user, r) ← decode_text r;
  '(service, r) ← decode_text r;
  if negb (service =?= lit "ssh-connection") then None else
  '(m, r) ← decode_text r;
  hostbound ← hostbound_method m;
  '(has_signature, r) ← decode_u8 r;
  if negb (has_signature =? 1)%N then None else
  '(_, r) ← decode_text r;
  '(key, r) ← read_prefixed_exact decode_key r;
  '(host_key, r) ← (if hostbound : bool
                    then '(k, r) ← read_prefixed_exact decode_key r; Some (Some k, r)
                    else Some (None, r));
  finish r (mkUserauth session_id user key host_key).
End Messages.

(** ** The agent reads what a client sent, and nothing more *)

(** ** Frames *)

Lemma read_exact_pieces n r : plain_reader r = true -> n <= length (pieces r) ->
  exists r', read_exact n r = (Ok (take n (pieces r)), r')
    /\ pieces r' = drop n (pieces r) /\ plain_reader r' = true.
Proof.
  intros Hp Hn. unfold read_exact. destruct (fill_pieces r Hp n [] Hn) as (r' & -> & ? & ?). eauto.
Qed.

Lemma as_u32_small n : (n < 4294967296)%N -> as_u32 n = n.
Proof. intros H. unfold as_u32. by apply N.mod_small. Qed.

Lemma frame_header (body : list N) : (N.of_nat (length body) <= MAX_MESSAGE)%N ->
  of_be32 (to_be32 (as_u32 (N.of_nat (length body)))) = N.of_nat (length body).
Proof.
  intros H. assert (Hm : (MAX_MESSAGE < 4294967296)%N) by done.
  rewrite as_u32_small, of_to_be32 by lia. done.
Qed.

Lemma read_frame_frame r body rest :
  plain_reader r = true -> pieces r = frame body ++ rest -> body <> [] ->
  (N.of_nat (length body) <= MAX_MESSAGE)%N ->
  exists r', read_frame r = (Ok (Some body), r') /\ pieces r' = rest /\ plain_reader r' = true.
Proof.
  intros Hp Hr Hne Hmax. unfold read_frame.
  assert (Hhd : take 4 (pieces r) = to_be32 (as_u32 (N.of_nat (length body)))) by (rewrite Hr; done).
  assert (Htl : drop 4 (pieces r) = body ++ rest) by (rewrite Hr; done).
  destruct (read_exact_pieces 4 r Hp) as (r1 & -> & Hr1 & Hp1).
  { rewrite Hr. unfold frame. rewrite !length_app, length_to_be32. lia. }
  rewrite Hhd, frame_header by done. rewrite Htl in Hr1.
  replace ((_ =? 0)%N || (MAX_MESSAGE <? _)%N) with false.
  2: { symmetry. apply orb_false_iff. split; [apply N.eqb_neq|by apply N.ltb_ge]. destruct body; [done|simpl; lia]. }
  rewrite Nat2N.id. destruct (read_exact_pieces (length body) r1 Hp1) as (r2 & -> & Hr2 & Hp2).
  { rewrite Hr1, length_app. lia. }
  exists r2. rewrite Hr2, Hr1, take_app_length, drop_app_length. done.
Qed.

Lemma read_frame_bounds r msg r' : read_frame r = (Ok (Some msg), r') ->
  1 <= length msg /\ (N.of_nat (length msg) <= MAX_MESSAGE)%N /\ reader_size r' < reader_size r.
Proof.
  unfold read_frame, read_exact. destruct (fill 4 [] r) as [[h|h|e] r1] eqn:H1; cbn [io_kind].
  2, 3: by repeat case_bool_decide.
  destruct ((of_be32 h =? 0)%N || (MAX_MESSAGE <? of_be32 h)%N) eqn:Hc; [done|]. breflect.
  destruct (fill (N.to_nat (of_be32 h)) [] r1) as [[m|m|e] r2] eqn:H2; [|done|done].
  intros [= <- <-]. apply fill_length in H2 as Hl. cbn [length] in Hl.
  apply fill_size in H1; [|lia]. apply fill_size_le in H2. split_and!; lia.
Qed.

(** Frames are framed: whatever pieces the stream arrives in, reading a stream
    that starts with a frame of one to 256 KiB of payload returns exactly that
    payload and leaves exactly the bytes after it; and no frame that is read is
    empty or larger. *)
Lemma agent_frame_roundtrip (r : Reader) (body rest : list N)
    (Hr : plain_reader r = true) (Hbytes : pieces r = frame body ++ rest) (Hne : body <> [])
    (Hmax : (N.of_nat (length body) <= MAX_MESSAGE)%N) :
  (exists r', read_frame r = (Ok (Some body), r') /\ pieces r' = rest)
  /\ forall any msg any', read_frame any = (Ok (Some msg), any') ->
       1 <= length msg /\ (N.of_nat (length msg) <= MAX_MESSAGE)%N.
Proof.
  split.
  - destruct (read_frame_frame r body rest) as (r' & ? & ? & _); eauto.
  - intros any msg any' H. by apply read_frame_bounds in H as (? & ? & _).
Qed.

(** ** Requests *)

Section Messages.
Context {W : SshWire}.

Lemma finish_Some {A} rest (v v' : A) : finish rest v = Some v' <-> rest = [] /\ v' = v.
Proof. destruct rest; simpl; naive_solver. Qed.

(** A value of a [string] field that is used up completely. *)
Definition is_field {A} (decode : list N -> option (A * list N)) (nested : list N) (v : A) : Prop :=
  decode nested = Some (v, []).

Lemma read_prefixed_exact_inv {A} (decode : list N -> option (A * list N)) r v rest :
  read_prefixed_exact decode r = Some (v, rest) ->
  exists nested, r = encode_bytes nested ++ rest /\ is_field decode nested v.
Proof.
  unfold read_prefixed_exact. intros H.
  destruct (decode_bytes r) as [[nested r']|] eqn:Hd; [|done]. apply decode_bytes_inv in Hd as ->. simpl in H.
  destruct (decode nested) as [[v0 left]|] eqn:Hn; [|done]. simpl in H.
  destruct (finish left v0) as [v1|] eqn:Hf; [|done]. apply finish_Some in Hf as [-> ->].
  injection H as <- <-. by exists nested.
Qed.

Lemma read_prefixed_exact_intro {A} (decode : list N -> option (A * list N)) nested v rest :
  (N.of_nat (length nested) <= MAX_MESSAGE)%N -> is_field decode nested v ->
  read_prefixed_exact decode (encode_bytes nested ++ rest) = Some (v, rest).
Proof.
  intros Hl Hf. unfold read_prefixed_exact. rewrite decode_encode_bytes by done. simpl. by rewrite Hf.
Qed.

(** The bytes of a request, as a client writes them. *)
Inductive request_bytes : Request -> list N -> Prop :=
| bytes_identities : request_bytes Identities [SSH_AGENTC_REQUEST_IDENTITIES]
| bytes_sign key kb data flags : is_field decode_key kb key ->
    request_bytes (Sign key data flags)
      (SSH_AGENTC_SIGN_REQUEST :: encode_bytes kb ++ encode_bytes data ++ encode_u32 flags)
| bytes_bind host kb sid sig sb b : is_field decode_key kb host -> is_field decode_signature sb sig ->
    request_bytes (SessionBind host sid sig (negb (b =? 0)%N))
      (SSH_AGENTC_EXTENSION :: encode_text SESSION_BIND ++ encode_bytes kb ++ encode_bytes sid
         ++ encode_bytes sb ++ [b])
| bytes_extension name rest : name <> SESSION_BIND ->
    request_bytes (Extension name) (SSH_AGENTC_EXTENSION :: encode_text name ++ rest).

Lemma decode_u8_inv x b rest : decode_u8 x = Some (b, rest) -> x = b :: rest.
Proof. destruct x; [by rewrite decode_u8_nil|]. rewrite decode_u8_cons. by intros [= -> ->]. Qed.

(** Invert one step of an option-monad parser. *)
Ltac step_inv H :=
  match type of H with
  | (?x ≫= _) = Some _ => let E := fresh "E" in destruct x as [[? ?]|] eqn:E; [cbn [mbind option_bind] in H|done]
  end.

Lemma parse_sign_inv body q : parse_sign body = Some q ->
  request_bytes q (SSH_AGENTC_SIGN_REQUEST :: body).
Proof.
  unfold parse_sign. intros H. repeat step_inv H. apply finish_Some in H as [-> ->].
  apply read_prefixed_exact_inv in E as (kb & -> & Hk). apply decode_bytes_inv in E0 as ->.
  apply decode_u32_inv in E1 as ->. rewrite app_nil_r. by constructor.
Qed.

Lemma parse_extension_inv body q : parse_extension body = Some q ->
  request_bytes q (SSH_AGENTC_EXTENSION :: body).
Proof.
  unfold parse_extension. intros H. step_inv H. apply decode_text_inv in E as ->.
  case_bool_decide as Hn; cbn [negb] in H.
  - repeat step_inv H. apply finish_Some in H as [-> ->]. apply read_prefixed_exact_inv in E as (kb & -> & Hk).
    apply decode_bytes_inv in E0 as ->. apply read_prefixed_exact_inv in E1 as (sb & -> & Hs).
    apply decode_u8_inv in E2 as ->. rewrite Hn. by constructor.
  - injection H as <-. by constructor.
Qed.

(** The agent acts on exactly what was sent.  A message is taken for a request
    only if it consists of that request's fields and nothing else (other
    extensions excepted, which are refused unread); and every well-formed identity
    list, sign and session-bind message whose fields fit in a frame is understood. *)
Lemma parse_request_exact (msg : list N) :
  (forall q, parse_request msg = q -> q <> Unsupported -> request_bytes q msg)
  /\ (forall key kb data flags, is_field decode_key kb key -> (flags < 4294967296)%N ->
        (N.of_nat (length kb) <= MAX_MESSAGE)%N -> (N.of_nat (length data) <= MAX_MESSAGE)%N ->
        parse_request (SSH_AGENTC_SIGN_REQUEST :: encode_bytes kb ++ encode_bytes data ++ encode_u32 flags)
        = Sign key data flags)
  /\ (forall host kb sid sig sb b, is_field decode_key kb host -> is_field decode_signature sb sig ->
        (N.of_nat (length kb) <= MAX_MESSAGE)%N -> (N.of_nat (length sid) <= MAX_MESSAGE)%N ->
        (N.of_nat (length sb) <= MAX_MESSAGE)%N ->
        parse_request (SSH_AGENTC_EXTENSION :: encode_text SESSION_BIND ++ encode_bytes kb ++ encode_bytes sid
                         ++ encode_bytes sb ++ [b])
        = SessionBind host sid sig (negb (b =? 0)%N)).
Proof.
  split_and!.
  - intros q Hq Hne. destruct msg as [|kind body]; [by subst|]. unfold parse_request in Hq.
    destruct (kind =? SSH_AGENTC_REQUEST_IDENTITIES)%N eqn:K1; breflect; [subst kind|].
    { destruct body; simpl in Hq; subst q; [constructor|done]. }
    destruct (kind =? SSH_AGENTC_SIGN_REQUEST)%N eqn:K2; breflect; [subst kind|].
    { destruct (parse_sign body) as [q'|] eqn:Hp; simpl in Hq; subst q; [by apply parse_sign_inv|done]. }
    destruct (kind =? SSH_AGENTC_EXTENSION)%N eqn:K3; breflect; [subst kind|by subst q].
    destruct (parse_extension body) as [q'|] eqn:Hp; simpl in Hq; subst q; [by apply parse_extension_inv|done].
  - intros key kb data flags Hk Hf Hl1 Hl2. unfold parse_request. cbn [N.eqb Pos.eqb SSH_AGENTC_SIGN_REQUEST SSH_AGENTC_REQUEST_IDENTITIES].
    unfold parse_sign. rewrite (read_prefixed_exact_intro _ kb key) by done. cbn [mbind option_bind].
    rewrite decode_encode_bytes by done. cbn [mbind option_bind].
    rewrite <-(app_nil_r (encode_u32 flags)), decode_encode_u32 by done. done.
  - intros host kb sid sig sb b Hk Hs H1 H2 H3. unfold parse_request. cbn [N.eqb Pos.eqb SSH_AGENTC_SIGN_REQUEST SSH_AGENTC_REQUEST_IDENTITIES SSH_AGENTC_EXTENSION].
    unfold parse_extension. rewrite decode_encode_text by done. cbn [mbind option_bind].
    rewrite bool_decide_true by done. cbn [negb].
    rewrite (read_prefixed_exact_intro _ kb host) by done. cbn [mbind option_bind].
    rewrite decode_encode_bytes by done. cbn [mbind option_bind].
    rewrite (read_prefixed_exact_intro _ sb sig) by done. cbn [mbind option_bind].
    rewrite decode_u8_cons. done.
Qed.
End Messages.

(** ** When the agent asks, and what it remembers

    [src-tauri/src/agent/approval.rs]: the remembered approvals of a key for a host
    and a program, and the rule that decides whether a request must be asked. *)

(** [vault::store::AgentSettings]. *)
Record AgentSettings := mkSettings { st_remember_minutes : N; always_ask : bool }.

Definition DEFAULT_REMEMBER_MINUTES : N := 240.
Definition REMEMBER_CHOICES_MINUTES : list N := [15; 60; 240; 720]%N.

Definition remember_minutes (s : AgentSettings) : N :=
  if existsb (N.eqb (st_remember_minutes s)) REMEMBER_CHOICES_MINUTES
  then st_remember_minutes s else DEFAULT_REMEMBER_MINUTES.

Record ApprovalKey := mkApprovalKey { ak_key_fingerprint : str; ak_host_fingerprint : str; ak_program : str }.

#[export] Instance approval_key_eq_dec : EqDecision ApprovalKey.
Proof. solve_decision. Defined.
#[export] Instance approval_key_countable : Countable ApprovalKey.
Proof.
  apply (inj_countable' (fun k => (ak_key_fingerprint k, ak_host_fingerprint k, ak_program k))
    (fun '(a, b, c) => mkApprovalKey a b c)).
  by intros [].
Defined.

Record KeyProtection := mkProtection { ask_every_time : bool; require_user_presence : bool }.
Definition default_protection : KeyProtection := mkProtection false false.

Inductive Verdict :=
| Remembered
| Ask (rememberable : bool).

Definition verdict (p : KeyProtection) (s : AgentSettings) (context_known remembered : bool) : Verdict :=
  if ask_every_time p || always_ask s || negb context_known then Ask false
  else if remembered then Remembered
  else Ask true.

(** The expiry time of each remembered approval, in milliseconds. *)
Definition ApprovalCache : Type := gmap ApprovalKey N.

(** [u64::saturating_add]. *)
Definition saturating_add (a b : N) : N := N.min (a + b) u64_max.

Definition prune (now_ms : N) (c : ApprovalCache) : ApprovalCache :=
  filter (fun e => (now_ms < e.2)%N) c.

Definition is_remembered (key : ApprovalKey) (now_ms : N) (c : ApprovalCache) : bool * ApprovalCache :=
  let c' := prune now_ms c in (is_some (c' !! key), c').

(** How long a decision is kept. *)
Definition until (now_ms minutes : N) : N := saturating_add now_ms (minutes * 60000).

Definition remember (key : ApprovalKey) (now_ms minutes : N) (c : ApprovalCache) : ApprovalCache :=
  <[key := until now_ms minutes]> c.

(** ** Lemmas *)

Lemma prune_lookup now c key e : prune now c !! key = Some e <-> c !! key = Some e /\ (now < e)%N.
Proof. apply (map_lookup_filter_Some (M := gmap ApprovalKey)). Qed.

Lemma is_remembered_true key now c :
  (is_remembered key now c).1 = true <-> exists e, c !! key = Some e /\ (now < e)%N.
Proof.
  unfold is_remembered. cbn [fst]. destruct (prune now c !! key) as [e|] eqn:H; simpl.
  - apply prune_lookup in H. naive_solver.
  - split; [done|]. intros (e & He). by rewrite (proj2 (prune_lookup now c key e) He) in H.
Qed.

Lemma remember_minutes_choice s : remember_minutes s ∈ REMEMBER_CHOICES_MINUTES.
Proof.
  unfold remember_minutes. destruct (existsb _ _) eqn:H.
  - apply existsb_elem in H as (x & Hx & Heq). by apply N.eqb_eq in Heq as ->.
  - unfold DEFAULT_REMEMBER_MINUTES, REMEMBER_CHOICES_MINUTES. set_solver.
Qed.

Lemma remember_minutes_bounds s : (15 <= remember_minutes s <= 720)%N.
Proof.
  pose proof (remember_minutes_choice s) as H. unfold REMEMBER_CHOICES_MINUTES in H.
  rewrite !elem_of_cons, elem_of_nil in H. lia.
Qed.
