(* ===== verification/AgentSession.v ===== *)
(** * AgentSession: one connection to the agent

    [src-tauri/src/agent/session.rs]: the host a connection is bound to, the sign
    requests handed to whoever decides about them, and the loop that serves a
    connection until it is closed. *)

From Equations Require Import Equations.
From S2P Require Import Prelude Text ByteStream AgentProtocol.

Section Session.
Context {W : SshWire}.

Record SignRequest := mkSignRequest {
  sq_key : KeyData; sq_data : list N; sq_flags : N;
  sq_user : option str; sq_host_key : option KeyData; sq_forwarded : bool
}.

(** [trait SignAuthority]: the keys it offers and the signatures it gives; both may
    change what it knows. *)
Class SignAuthority := {
  Auth : Type;
  auth_identities : Auth -> Auth * list (KeyData * str);
  auth_sign : Auth -> SignRequest -> Auth * option (list N)
}.

Record Session := mkSession { bound : option (KeyData * list N); forwarded : bool }.
Definition new_session : Session := mkSession None false.

(** The host of a login: the userauth data names the session the connection was
    last bound to, and its host key if it names one. *)
Definition bound_host (s : Session) (u : option Userauth) : option KeyData :=
  match u, bound s with
  | Some u, Some (host, sid) =>
      if (ua_session_id u =?= sid) && is_none_or (fun h => h =?= host) (ua_hostbound_host_key u)
      then Some host else None
  | _, _ => None
  end.

Definition sign_request (s : Session) (key : KeyData) (data : list N) (flags : N) : SignRequest :=
  let userauth := opt_filter (fun u => ua_key u =?= key) (parse_userauth data) in
  mkSignRequest key data flags (ua_user <$> userauth) (bound_host s userauth) (forwarded s).

Context {A : SignAuthority}.

(** One message: the new session, the authority and the answer. *)
Definition handle (s : Session) (a : Auth) (msg : list N) : Session * Auth * list N :=
  match parse_request msg with
  | Identities => let '(a, keys) := auth_identities a in (s, a, identities_answer keys)
  | Sign key data flags =>
      let '(a, answer) := auth_sign a (sign_request s key data flags) in
      (s, a, match answer with Some blob => sign_response blob | None => [SSH_AGENT_FAILURE] end)
  | SessionBind host_key session_id sig forwarding =>
      if negb (verifies host_key session_id sig) then (s, a, [SSH_AGENT_EXTENSION_FAILURE])
      else (mkSession (Some (host_key, session_id)) (forwarded s || forwarding), a, [SSH_AGENT_SUCCESS])
  | Extension _ => (s, a, [SSH_AGENT_FAILURE])
  | Unsupported => (s, a, [SSH_AGENT_FAILURE])
  end.

(** A value with the equation it satisfies. *)
Definition inspect {A} (x : A) : {y : A | x = y} := exist _ x eq_refl.

(** [serve]'s loop; every pass takes a frame off the reader. *)
Equations? serve_loop (s : Session) (a : Auth) (r : Reader) (w : Writer)
  : ioresult unit * (Session * Auth * Reader * Writer) by wf (reader_size r) lt :=
  serve_loop s a r w with inspect (read_frame r) => {
    | exist _ (Err e, r') _ => (Err e, (s, a, r', w));
    | exist _ (Ok None, r') _ => (Ok tt, (s, a, r', w));
    | exist _ (Ok (Some msg), r') Hf with handle s a msg => {
        | (s', a', reply) with write_frame w reply => {
            | (Err e, w') => (Err e, (s', a', r', w'));
            | (Ok _, w') => serve_loop s' a' r' w'
        }
    }
  }.
Proof. by apply read_frame_bounds in Hf as (_ & _ & ?). Qed.

Definition serve (a : Auth) (r : Reader) (w : Writer) : ioresult unit * (Session * Auth * Reader * Writer) :=
  serve_loop new_session a r w.
End Session.

(** ** Bound hosts are verified, every message is answered *)

Section Props.
Context {W : SshWire} {A : SignAuthority}.

(** The messages of a connection, one after another. *)
Fixpoint run (s : Session) (a : Auth) (msgs : list (list N)) : Session * Auth * list (list N) :=
  match msgs with
  | [] => (s, a, [])
  | m :: msgs =>
      let '(s, a, reply) := handle s a m in
      let '(s, a, replies) := run s a msgs in
      (s, a, reply :: replies)
  end.

(** ** The bound host *)

(** The host and session a message binds, and whether it announces forwarding: only
    a signature of the host key over the session id counts. *)
Definition binds (m : list N) : option (KeyData * list N * bool) :=
  match parse_request m with
  | SessionBind host sid sig f => if verifies host sid sig then Some (host, sid, f) else None
  | _ => None
  end.

Lemma handle_binds s a m s' a' reply : handle s a m = (s', a', reply) ->
  s' = match binds m with
       | Some (host, sid, f) => mkSession (Some (host, sid)) (forwarded s || f)
       | None => s
       end.
Proof.
  unfold handle, binds. destruct (parse_request m) as [|key data flags|host sid sig f|name|].
  - destruct (auth_identities a). by intros [= <- _ _].
  - destruct (auth_sign a _). by intros [= <- _ _].
  - destruct (verifies host sid sig); cbn [negb]; by intros [= <- _ _].
  - by intros [= <- _ _].
  - by intros [= <- _ _].
Qed.

Lemma run_binds msgs : forall s a s' a' replies, run s a msgs = (s', a', replies) ->
  bound s' = match last (omap binds msgs) with Some (host, sid, _) => Some (host, sid) | None => bound s end
  /\ forwarded s' = forwarded s || existsb (fun b => b.2) (omap binds msgs).
Proof.
  induction msgs as [|m msgs IH]; intros s a s' a' replies H; cbn [run omap list_omap] in *.
  { injection H as <- _ _. simpl. by rewrite orb_false_r. }
  destruct (handle s a m) as [[s1 a1] reply] eqn:Hh. destruct (run s1 a1 msgs) as [[s2 a2] rs] eqn:Hr.
  injection H as <- _ _. apply IH in Hr as [Hb Hf]. apply handle_binds in Hh.
  destruct (binds m) as [[[host sid] f]|]; subst s1; [|done]. rewrite last_cons.
  cbn [existsb snd bound forwarded] in *. rewrite Hf, orb_assoc. split; [|done].
  rewrite Hb. by destruct (last (omap binds msgs)) as [[[? ?] ?]|].
Qed.

(** C34. A sign request carries a host only if that host proved itself: after any
    messages, the bound host is the one of the last message that bound a host with
    a valid signature over its session id, the connection counts as forwarded
    exactly if one of those messages said so, and a sign request names a host and
    a user only when the signed data is a login with this very key, for the bound
    session (and the bound host key, if the data names one). *)
Theorem session_host_verified (msgs : list (list N)) (a : Auth) :
  let '(s, _, _) := run new_session a msgs in
  bound s = (match last (omap binds msgs) with Some (host, sid, _) => Some (host, sid) | None => None end)
  /\ forwarded s = existsb (fun b => b.2) (omap binds msgs)
  /\ forall key data flags host, sq_host_key (sign_request s key data flags) = Some host ->
       exists m u, m ∈ msgs /\ parse_userauth data = Some u /\ ua_key u = key
         /\ sq_user (sign_request s key data flags) = Some (ua_user u)
         /\ (exists f, binds m = Some (host, ua_session_id u, f))
         /\ (forall h, ua_hostbound_host_key u = Some h -> h = host).
Proof.
  destruct (run new_session a msgs) as [[s a'] replies] eqn:Hr. apply run_binds in Hr as [Hb Hf].
  split_and!; [done|done|]. intros key data flags host Hh. unfold sign_request in *. cbn [sq_host_key sq_user] in *.
  destruct (parse_userauth data) as [u|] eqn:Hu; [|done]. cbn [opt_filter] in *.
  destruct (ua_key u =?= key) eqn:Hk; [|done]. cbn [bound_host] in Hh. rewrite Hb in Hh.
  destruct (last (omap binds msgs)) as [[[h sid] f]|] eqn:Hl; [|done].
  destruct (_ && _) eqn:Hc in Hh; [|done]. injection Hh as ->. breflect.
  apply last_Some_elem_of in Hl. apply list_elem_of_omap in Hl as (m & Hm & Hbm).
  exists m, u. split_and!; [done|done|done|done| |].
  - exists f. congruence.
  - intros h Hh. match goal with H : is_none_or _ _ = true |- _ => rewrite Hh in H; simpl in H end. by breflect.
Qed.

(** ** Serving a connection *)

Lemma serve_loop_step s a r w : serve_loop s a r w =
  match read_frame r with
  | (Err e, r') => (Err e, (s, a, r', w))
  | (Ok None, r') => (Ok tt, (s, a, r', w))
  | (Ok (Some msg), r') =>
      let '(s', a', reply) := handle s a msg in
      match write_frame w reply with
      | (Err e, w') => (Err e, (s', a', r', w'))
      | (Ok _, w') => serve_loop s' a' r' w'
      end
  end.
Proof.
  funelim (serve_loop s a r w).
  all: try match goal with H : read_frame _ = _ |- _ => rewrite H end.
  all: try done.
  all: by repeat match goal with H : handle _ _ _ = _ |- _ => rewrite H | H : write_frame _ _ = _ |- _ => rewrite H end.
Qed.

Definition frameable (m : list N) : Prop := m <> [] /\ (N.of_nat (length m) <= MAX_MESSAGE)%N.

Lemma plain_reader_empty r : plain_reader r = true -> pieces r = [] -> r = [].
Proof. destruct r as [|[[|x b]| |] r]; done. Qed.

Lemma serve_run msgs : forall s a r out, plain_reader r = true -> pieces r = concat (map frame msgs) ->
  Forall frameable msgs ->
  let '(s', a', replies) := run s a msgs in
  serve_loop s a r (mkWriter out None)
  = (Ok tt, (s', a', [], mkWriter (out ++ concat (map frame replies)) None)).
Proof.
  induction msgs as [|m msgs IH]; intros s a r out Hp Hr Hms; rewrite serve_loop_step; cbn [run map concat] in *.
  { rewrite (plain_reader_empty r) by done. cbn. by rewrite app_nil_r. }
  inversion Hms as [|? ? [Hne Hmax] Hms']; subst.
  destruct (read_frame_frame r m (concat (map frame msgs))) as (r' & -> & Hr' & Hp'); [done..|].
  destruct (handle s a m) as [[s1 a1] reply].
  cbn [write_frame write_all room written]. specialize (IH s1 a1 r' (out ++ frame reply) Hp' Hr' Hms').
  destruct (run s1 a1 msgs) as [[s2 a2] replies]. rewrite IH. cbn [map concat]. by rewrite <-app_assoc.
Qed.

(** C35. A connection is served to its end: whatever pieces the stream arrives in,
    a client that sends messages of legal size and closes gets one answer frame per
    message, in order, each the answer of the session to that message, and the
    connection ends without an error with the session and the authority exactly
    where the messages take them. *)
Theorem serve_answers_each (a : Auth) (r : Reader) (msgs : list (list N)) (out : list N)
    (Hr : plain_reader r = true) (Hbytes : pieces r = concat (map frame msgs)) (Hms : Forall frameable msgs) :
  let '(s', a', replies) := run new_session a msgs in
  serve a r (mkWriter out None)
  = (Ok tt, (s', a', [], mkWriter (out ++ concat (map frame replies)) None)).
Proof. by apply serve_run. Qed.
End Props.
