(* ===== verification/AgentBroker.v ===== *)
(** * AgentBroker: which keys the agent lists, and when it signs

    [src-tauri/src/agent/broker.rs]: finding the key a request names, deciding whether
    to ask, asking, opening the private key (the one in memory, the remembered
    passphrase, the passphrase of the window), remembering the decision, signing.
    The vault, the keychain, the clock, known hosts and the approval window are the
    interface [AgentHost]; every call of it may change the world.  The state also
    logs the questions that were asked with their answers; nothing reads the log. *)

From stdpp Require Import gmap.
From S2P Require Import Prelude Text ByteStream AgentProtocol VaultMaterial AgentSession.

Definition PASSPHRASE_ATTEMPTS : nat := 3.
Definition WRONG_PASSPHRASE : str := lit "That passphrase didn't work.".
Definition MAX_SHOWN_CHARS : nat := 256.

Definition passphrase_account (slot_id : str) : str := lit "vault:passphrase:" ++ slot_id.

Record VaultKey := mkVaultKey {
  vk_slot_id : str; vk_name : str; vk_fingerprint : str; vk_public_key : str; vk_has_passphrase : bool
}.

(** [ipc::peer::Program]. *)
Record Program := mkProgram { pg_chain : list str; pg_identity : str }.

(** [agent::prompt::AgentApprovalRequest] and [AgentApprovalAnswer]. *)
Record AgentApprovalRequest := mkPrompt {
  pr_id : str; pr_key_name : str; pr_key_fingerprint : str; pr_program_chain : list str;
  pr_user : option str; pr_host : option str; pr_host_fingerprint : option str;
  pr_rememberable : bool; pr_remember_minutes : N; pr_needs_passphrase : bool;
  pr_passphrase_error : option str; pr_preapproved : bool
}.
Record AgentApprovalAnswer := mkAnswer {
  an_allow : bool; an_remember : bool; an_passphrase : option str; an_remember_passphrase : bool
}.

Record Grant := mkGrant { gr_slot_id : str }.

Definition shorten (text : str) (max : nat) : str :=
  if (length text <=? max)%nat then text else take max text ++ [8230%N].

Section Broker.
Context {C : SshKeyCrate}.

Record Unlocked := mkUnlocked { un_material : PrivateKey; un_expires_ms : N }.

Definition live (now_ms : N) (u : Unlocked) : bool := (now_ms <? un_expires_ms u)%N.

Record Broker := mkBroker {
  approvals : ApprovalCache;
  unlocked : gmap str Unlocked;
  asking : list ApprovalKey
}.
Definition new_broker : Broker := mkBroker ∅ ∅ [].

(** [trait AgentHost] with its keychain; [h_wait] is the answer of the request that
    is asking for a key when another one for the same key arrives. *)
Class AgentHost := {
  World : Type;
  h_keys : World -> World * list VaultKey;
  h_private_key : World -> str -> World * result AppError (option str);
  h_settings : World -> World * AgentSettings;
  kc_get : World -> str -> World * result AppError (option str);
  kc_set : World -> str -> str -> World * result AppError unit;
  kc_delete : World -> str -> World * result AppError unit;
  h_now_ms : World -> World * N;
  h_host_name : World -> KeyData -> World * option str;
  h_ask : World -> AgentApprovalRequest -> World * option AgentApprovalAnswer;
  h_wait : World -> ApprovalKey -> World * bool
}.
Context {H : AgentHost}.

Record St := mkSt {
  world : World; broker : Broker; asked : list (AgentApprovalRequest * option AgentApprovalAnswer)
}.

(** ** The effects *)

Definition M (A : Type) : Type := St -> St * A.
#[local] Instance M_ret : MRet M := fun A a s => (s, a).
#[local] Instance M_bind : MBind M := fun A B f m s => let '(s', a) := m s in f a s'.

(** [?] on an [Option]. *)
Definition bind_some {A B} (m : M (option A)) (k : A -> M (option B)) : M (option B) :=
  o ← m; match o with Some a => k a | None => mret None end.
Notation "x ←? m ; k" := (bind_some m (fun x => k))
  (at level 20, m at level 100, k at level 200, only parsing).

Definition host {A} (f : World -> World * A) : M A :=
  fun s => let '(w, a) := f (world s) in (mkSt w (broker s) (asked s), a).
Definition get_broker : M Broker := fun s => (s, broker s).
Definition put_broker (b : Broker) : M unit := fun s => (mkSt (world s) b (asked s), tt).

Definition now_ms : M N := host h_now_ms.

Definition ask_user (r : AgentApprovalRequest) : M (option AgentApprovalAnswer) :=
  fun s => let '(w, a) := h_ask (world s) r in (mkSt w (broker s) (asked s ++ [(r, a)]), a).

Definition set_approvals (c : ApprovalCache) (b : Broker) : Broker := mkBroker c (unlocked b) (asking b).
Definition set_unlocked (u : gmap str Unlocked) (b : Broker) : Broker := mkBroker (approvals b) u (asking b).
Definition set_asking (l : list ApprovalKey) (b : Broker) : Broker := mkBroker (approvals b) (unlocked b) l.

(** ** One request *)

Record AskInfo := mkAsk {
  ask_key : VaultKey; ask_request : SignRequest; ask_program : option Program;
  ask_host_fingerprint : option str; ask_host_display : option str; ask_minutes : N
}.

Definition prompt (a : AskInfo) (preapproved needs_passphrase rememberable : bool) (error : option str)
  : AgentApprovalRequest :=
  mkPrompt [] (vk_name (ask_key a)) (vk_fingerprint (ask_key a)) (default [] (pg_chain <$> ask_program a))
    ((fun u => shorten u MAX_SHOWN_CHARS) <$> sq_user (ask_request a)) (ask_host_display a) (ask_host_fingerprint a)
    rememberable (ask_minutes a) needs_passphrase error preapproved.

(** The opened key is the one the request names. *)
Definition names (a : AskInfo) (m : PrivateKey) : bool := private_key_data m =?= sq_key (ask_request a).

Definition signable_public_key (k : VaultKey) : option KeyData :=
  opt_filter agent_can_sign (public_key_data (vk_public_key k)).

(** A key that is unreadable in the keychain counts as not remembered. *)
Definition remembered_passphrase (slot_id : str) : M (option str) :=
  r ← host (fun w => kc_get w (passphrase_account slot_id));
  mret (match r with Ok o => o | Err _ => None end).

Definition cached (slot_id : str) (key : KeyData) (now : N) : M (option PrivateKey) :=
  b ← get_broker;
  let u := filter (fun e => live now e.2 = true) (unlocked b) in
  match u !! slot_id with
  | None => _ ← put_broker (set_unlocked u b); mret None
  | Some opened =>
      if private_key_data (un_material opened) =?= key
      then _ ← put_broker (set_unlocked u b); mret (Some (un_material opened))
      else _ ← put_broker (set_unlocked (delete slot_id u) b); mret None
  end.

(** [Broker::remember]. *)
Definition remember_approval (key : ApprovalKey) (slot_id : str) (now minutes : N) : M unit :=
  b ← get_broker;
  put_broker (mkBroker (remember key now minutes (approvals b))
    (alter (fun u => mkUnlocked (un_material u) (N.max (un_expires_ms u) (until now minutes))) slot_id (unlocked b))
    (asking b)).

(** The key a passphrase opened is kept: in the keychain as its passphrase, or
    opened in memory until it expires. *)
Definition keep_opened (a : AskInfo) (m : PrivateKey) (passphrase : str) (remember_it : bool) : M unit :=
  let slot_id := vk_slot_id (ask_key a) in
  saved ← (if remember_it
           then r ← host (fun w => kc_set w (passphrase_account slot_id) passphrase); mret (is_ok r)
           else mret false);
  if saved : bool then mret tt
  else
    now ← now_ms;
    b ← get_broker;
    put_broker (set_unlocked (<[slot_id := mkUnlocked m (until now (ask_minutes a))]> (unlocked b)) b).

(** The passphrase: the one that was given with the approval, or one that is asked
    for, at most [attempts] times in all. *)
Fixpoint try_passphrases (attempts : nat) (a : AskInfo) (text : str) (supplied : option (str * bool))
    (error : option str) : M (option PrivateKey) :=
  match attempts with
  | O => mret None
  | S attempts' =>
      given ←? (match supplied with
                | Some given => mret (Some given)
                | None =>
                    answer ←? ask_user (prompt a true true false error);
                    if negb (an_allow answer) then mret None
                    else mret (Some (default [] (an_passphrase answer), an_remember_passphrase answer))
                end);
      let '(passphrase, remember_it) := given in
      match open text (Some passphrase) with
      | Ok m =>
          if negb (names a m) then mret None
          else _ ← keep_opened a m passphrase remember_it; mret (Some m)
      | Err WrongPassphrase => try_passphrases attempts' a text None (Some WRONG_PASSPHRASE)
      | Err _ => mret None
      end
  end.

(** What the remembered passphrase gives: an opened key, nothing (and it is
    forgotten), or a reason to give up. *)
Definition try_remembered (slot_id text : str) : M (option (option PrivateKey)) :=
  saved ← remembered_passphrase slot_id;
  match saved with
  | None => mret (Some None)
  | Some p =>
      match open text (Some p) with
      | Ok m => mret (Some (Some m))
      | Err WrongPassphrase =>
          _ ← host (fun w => kc_delete w (passphrase_account slot_id)); mret (Some None)
      | Err _ => mret None
      end
  end.

Definition unlock (a : AskInfo) (supplied : option (str * bool)) : M (option PrivateKey) :=
  let slot_id := vk_slot_id (ask_key a) in
  now ← now_ms;
  hit ← cached slot_id (sq_key (ask_request a)) now;
  match hit with
  | Some m => mret (Some m)
  | None =>
      entry ← host (fun w => h_private_key w slot_id);
      match entry with
      | Err _ => mret None
      | Ok None => mret None
      | Ok (Some text) =>
          match open text None with
          | Ok m => mret (Some m)
          | Err NeedsPassphrase =>
              match supplied with
              | Some _ => try_passphrases PASSPHRASE_ATTEMPTS a text supplied None
              | None =>
                  found ←? try_remembered slot_id text;
                  match found with
                  | Some m => mret (Some m)
                  | None => try_passphrases PASSPHRASE_ATTEMPTS a text None None
                  end
              end
          | Err _ => mret None
          end
      end
  end.

(** [needs_passphrase]: the conditions are evaluated in order. *)
Definition needs_passphrase (a : AskInfo) : M bool :=
  let slot_id := vk_slot_id (ask_key a) in
  if negb (vk_has_passphrase (ask_key a)) then mret false
  else
    now ← now_ms;
    hit ← cached slot_id (sq_key (ask_request a)) now;
    if is_some hit then mret false
    else p ← remembered_passphrase slot_id; mret (is_none p).

Definition ask_and_unlock (a : AskInfo) (key : option ApprovalKey) : M (option PrivateKey) :=
  needs ← needs_passphrase a;
  answer ←? ask_user (prompt a false needs (is_some key) None);
  if negb (an_allow answer) then mret None
  else
    let supplied := (fun p => (p, an_remember_passphrase answer)) <$> opt_filter (fun _ => needs) (an_passphrase answer) in
    m ←? unlock a supplied;
    match key with
    | Some k =>
        if an_remember answer then
          now ← now_ms;
          _ ← remember_approval k (vk_slot_id (ask_key a)) now (ask_minutes a);
          mret (Some m)
        else mret (Some m)
    | None => mret (Some m)
    end.

Definition check_remembered (key : ApprovalKey) (now : N) : M bool :=
  b ← get_broker;
  let '(found, c) := is_remembered key now (approvals b) in
  _ ← put_broker (set_approvals c b);
  mret found.

(** The same key, host and program are asked about once at a time: the first request
    asks, the others wait for its answer. *)
Definition ask_once (a : AskInfo) (key : ApprovalKey) : M (option PrivateKey) :=
  b ← get_broker;
  if existsb (fun k => k =?= key) (asking b) then
    allowed ← host (fun w => h_wait w key);
    if allowed : bool then unlock a None else mret None
  else
    _ ← put_broker (set_asking (key :: asking b) b);
    now ← now_ms;
    found ← check_remembered key now;
    m ← (if found : bool then unlock a None else ask_and_unlock a (Some key));
    b ← get_broker;
    _ ← put_broker (set_asking (List.filter (fun k => negb (k =?= key)) (asking b)) b);
    mret m.

Definition approval_key (a : AskInfo) : option ApprovalKey :=
  match ask_host_fingerprint a, ask_program a with
  | Some h, Some p => Some (mkApprovalKey (vk_fingerprint (ask_key a)) h (pg_identity p))
  | _, _ => None
  end.

Definition approve (a : AskInfo) (settings : AgentSettings) : M (option PrivateKey) :=
  now ← now_ms;
  found ← (match approval_key a with Some k => check_remembered k now | None => mret false end);
  match verdict default_protection settings (is_some (approval_key a)) found with
  | Remembered => unlock a None
  | Ask false => ask_and_unlock a None
  | Ask true =>
      match approval_key a with
      | Some k => ask_once a k
      | None => ask_and_unlock a None
      end
  end.

(** The key a request names: with a grant, the granted slot if it holds that key. *)
Definition find_key (keys : list VaultKey) (request : SignRequest) (grant : option Grant) : option VaultKey :=
  let names_the_request k := signable_public_key k =?= Some (sq_key request) in
  match grant with
  | Some g => opt_filter names_the_request (List.find (fun k => vk_slot_id k =?= gr_slot_id g) keys)
  | None => List.find names_the_request keys
  end.

Definition broker_sign (request : SignRequest) (program : option Program) (grant : option Grant)
  : M (option (list N)) :=
  if sq_forwarded request then mret None
  else
    keys ← host h_keys;
    match find_key keys request grant with
    | None => mret None
    | Some key =>
        settings ← host h_settings;
        let host_fp := fingerprint <$> sq_host_key request in
        display ← (match sq_host_key request with
                   | Some k => n ← host (fun w => h_host_name w k); mret (Some (default (fingerprint k) n))
                   | None => mret None
                   end);
        let a := mkAsk key request program host_fp display (remember_minutes settings) in
        m ←? (if is_some grant then unlock a None else approve a settings);
        if negb (names a m) then mret None
        else mret (result_ok (sign m (sq_data request) (sq_flags request)))
    end.

Definition identities (grant : option Grant) : M (list (KeyData * str)) :=
  keys ← host h_keys;
  mret (omap (fun k => (fun d => (d, vk_name k)) <$> signable_public_key k)
          (List.filter (fun k => is_none_or (fun g => gr_slot_id g =?= vk_slot_id k) grant) keys)).

(** [Broker::clear] and [Broker::expire]. *)
Definition clear (b : Broker) : Broker := mkBroker ∅ ∅ (asking b).
Definition expire (now : N) (b : Broker) : Broker :=
  mkBroker (prune now (approvals b)) (filter (fun e => live now e.2 = true) (unlocked b)) (asking b).

(** [impl SignAuthority for Connection]. *)
Definition Connection (program : option Program) (grant : option Grant) : SignAuthority := {|
  Auth := St;
  auth_identities := identities grant;
  auth_sign s r := broker_sign r program grant s
|}.
End Broker.
