(* ===== verification/AgentBrokerProps.v ===== *)
(** * AgentBrokerProps: the agent signs what the user approved, and nothing else

    A weakest-precondition calculus for the broker's effects, the specification of
    each routine in it, and the theorems about whole requests. *)

From stdpp Require Import gmap.
From S2P Require Import Prelude Text ByteStream AgentProtocol VaultMaterial AgentSession AgentBroker.

Section Props.
Context {C : SshKeyCrate} {H : AgentHost}.

#[local] Existing Instances M_ret M_bind.

(** ** Weakest preconditions *)

Definition wp {A} (m : M A) (Q : St -> A -> Prop) (s : St) : Prop := Q (m s).1 (m s).2.

Lemma wp_ret {A} (a : A) Q s : Q s a -> wp (mret a) Q s.
Proof. done. Qed.

Lemma wp_bind {A B} (m : M A) (f : A -> M B) Q s :
  wp m (fun s' a => wp (f a) Q s') s -> wp (m ≫= f) Q s.
Proof. unfold wp, mbind, M_bind. by destruct (m s). Qed.

Lemma wp_mono {A} (m : M A) (P Q : St -> A -> Prop) s :
  wp m P s -> (forall s' a, P s' a -> Q s' a) -> wp m Q s.
Proof. unfold wp. auto. Qed.

Lemma wp_some {A B} (m : M (option A)) (k : A -> M (option B)) Q s :
  wp m (fun s' o => match o with Some a => wp (k a) Q s' | None => Q s' None end) s ->
  wp (bind_some m k) Q s.
Proof. intros Hm. apply wp_bind. apply (wp_mono _ _ _ _ Hm). by intros s' []. Qed.

(** The facts about a call of the outside world that later reasoning needs. *)
Lemma wp_host {A} (f : World -> World * A) Q s :
  (forall w, Q (mkSt w (broker s) (asked s)) (f (world s)).2) -> wp (host f) Q s.
Proof. intros HQ. unfold wp, host. destruct (f (world s)) eqn:E. cbn in *. apply HQ. Qed.

Lemma wp_get Q s : Q s (broker s) -> wp get_broker Q s.
Proof. done. Qed.
Lemma wp_put b Q s : Q (mkSt (world s) b (asked s)) tt -> wp (put_broker b) Q s.
Proof. done. Qed.
Lemma wp_ask r Q s :
  (forall w a, Q (mkSt w (broker s) (asked s ++ [(r, a)])) a) -> wp (ask_user r) Q s.
Proof. intros HQ. unfold wp, ask_user. destruct (h_ask (world s) r). cbn. apply HQ. Qed.

(** One step of symbolic execution. *)
Ltac wp_step :=
  match goal with
  | |- wp (mret _) _ _ => apply wp_ret
  | |- wp (_ ≫= _) _ _ => apply wp_bind
  | |- wp (bind_some _ _) _ _ => apply wp_some
  | |- wp get_broker _ _ => apply wp_get
  | |- wp (put_broker _) _ _ => apply wp_put
  | |- wp now_ms _ _ => unfold now_ms
  | |- wp (host _) _ _ => apply wp_host; intros ?
  | |- wp (ask_user _) _ _ => apply wp_ask; intros ? ?
  | |- wp (match ?x with _ => _ end) _ _ => destruct x eqn:?
  | |- match ?x with Some _ => wp _ _ _ | None => _ end => destruct x eqn:?
  end.

(** ** What is kept *)

(** A time the clock gave. *)
Definition clock (now : N) : Prop := exists w, now = (h_now_ms w).2.

(** Nothing is kept longer than the longest choice of the settings. *)
Definition LONGEST : N := 720.
Definition expiry_ok (e : N) : Prop := exists now, clock now /\ (e <= until now LONGEST)%N.

Lemma until_mono now m n : (m <= n)%N -> (until now m <= until now n)%N.
Proof. unfold until, saturating_add. lia. Qed.

Lemma expiry_until now m : clock now -> (m <= LONGEST)%N -> expiry_ok (until now m).
Proof. intros. exists now. split; [done|]. by apply until_mono. Qed.

Lemma expiry_max a b : expiry_ok a -> expiry_ok b -> expiry_ok (N.max a b).
Proof. intros. by destruct (N.max_spec a b) as [[_ ->]|[_ ->]]. Qed.

Definition Unlocks : Type := gmap str Unlocked.
Definition unlocked_ok (u : Unlocks) : Prop := map_Forall (fun _ u => expiry_ok (un_expires_ms u)) u.

(** ** Steps that ask for no approval

    They add no approval, leave the requests being asked alone and open at most [n]
    windows, each of them for a passphrase only. *)
Record quiet (n : nat) (s s' : St) : Prop := mkQuiet {
  quiet_approvals : approvals (broker s') ⊆ approvals (broker s);
  quiet_asking : asking (broker s') = asking (broker s);
  quiet_asked : exists new, asked s' = asked s ++ new /\ (length new <= n)%nat
    /\ Forall (fun e => pr_preapproved e.1 = true) new;
  quiet_unlocked : unlocked_ok (unlocked (broker s)) -> unlocked_ok (unlocked (broker s'))
}.

Lemma quiet_refl n s : quiet n s s.
Proof. split; try done. exists []. rewrite app_nil_r. split_and!; [done|simpl; lia|done]. Qed.

Lemma quiet_trans n m s1 s2 s3 : quiet n s1 s2 -> quiet m s2 s3 -> quiet (n + m) s1 s3.
Proof.
  intros [A1 B1 (l1 & L1 & Hl1 & F1) U1] [A2 B2 (l2 & L2 & Hl2 & F2) U2].
  split; [by etrans|congruence| |auto]. exists (l1 ++ l2).
  rewrite L2, L1, app_assoc, length_app. split_and!; [done|lia|]. by apply Forall_app.
Qed.

Lemma quiet_weaken n m s s' : (n <= m)%nat -> quiet n s s' -> quiet m s s'.
Proof. intros Hnm [A B (l & ? & ? & ?) U]. split; try done. exists l. split_and!; [done|lia|done]. Qed.

Lemma quiet_world n s s' w : quiet n s s' -> quiet n s (mkSt w (broker s') (asked s')).
Proof. by intros []. Qed.

Lemma quiet_unlocks n s s' u : quiet n s s' ->
  (unlocked_ok (unlocked (broker s')) -> unlocked_ok u) ->
  quiet n s (mkSt (world s') (set_unlocked u (broker s')) (asked s')).
Proof. intros [? ? ? HU] Hu. split; try done. cbn. auto. Qed.

Lemma quiet_ask n s s' w r a : pr_preapproved r = true -> quiet n s s' ->
  quiet (S n) s (mkSt w (broker s') (asked s' ++ [(r, a)])).
Proof.
  intros Hr [A B (l & L & Hl & F) U]. split; try done. exists (l ++ [(r, a)]). cbn.
  rewrite L, app_assoc, length_app. split_and!; [done|simpl; lia|]. apply Forall_app. by split; [|constructor].
Qed.

#[local] Hint Resolve quiet_refl quiet_world : core.

Lemma remembered_passphrase_spec slot s0 n s : quiet n s0 s ->
  wp (remembered_passphrase slot) (fun s' _ => quiet n s0 s') s.
Proof. intros Hq. unfold remembered_passphrase. repeat wp_step. auto. Qed.

Lemma unlocked_ok_filter now (u : Unlocks) :
  unlocked_ok u -> unlocked_ok (filter (fun e => live now e.2 = true) u).
Proof. intros Hu i x Hx. apply map_lookup_filter_Some in Hx as [Hx _]. exact (Hu i x Hx). Qed.

Lemma cached_spec slot key now s0 n s : quiet n s0 s ->
  wp (cached slot key now) (fun s' _ => quiet n s0 s') s.
Proof.
  intros Hq. unfold cached. repeat wp_step; (apply quiet_unlocks; [done|]); intros Hok; auto using unlocked_ok_filter.
  apply map_Forall_delete. by apply unlocked_ok_filter.
Qed.

Lemma keep_opened_spec a m p r s0 n s : (ask_minutes a <= LONGEST)%N -> quiet n s0 s ->
  wp (keep_opened a m p r) (fun s' _ => quiet n s0 s') s.
Proof.
  intros Hm Hq. unfold keep_opened. apply wp_bind.
  apply (wp_mono _ (fun s' _ => quiet n s0 s')); [by destruct r; repeat wp_step; auto|].
  intros s1 saved Hq1. repeat wp_step; [done|].
  apply (quiet_unlocks n s0 (mkSt _ (broker s1) (asked s1))); [auto|]. intros Hok.
  apply map_Forall_insert_2; [|done]. apply expiry_until; [by eexists|done].
Qed.

Lemma try_remembered_spec slot text s0 n s : quiet n s0 s ->
  wp (try_remembered slot text) (fun s' _ => quiet n s0 s') s.
Proof.
  intros Hq. unfold try_remembered. apply wp_bind.
  eapply wp_mono; [by apply remembered_passphrase_spec|]. intros s1 o Hq1. cbn beta in Hq1.
  repeat wp_step; auto.
Qed.

Lemma try_passphrases_spec attempts : forall a text supplied error s0 n s,
  (ask_minutes a <= LONGEST)%N -> quiet n s0 s ->
  wp (try_passphrases attempts a text supplied error) (fun s' _ => quiet (n + attempts) s0 s') s.
Proof.
  induction attempts as [|attempts IH]; intros a text supplied error s0 n s Hm Hq; cbn [try_passphrases].
  { wp_step. by rewrite Nat.add_0_r. }
  rewrite Nat.add_succ_r, <- Nat.add_succ_l. apply wp_some.
  apply (wp_mono _ (fun s' _ => quiet (S n) s0 s')).
  { destruct supplied; repeat wp_step; [apply (quiet_weaken n); [lia|done]|..];
      by apply quiet_ask. }
  intros s1 [[p r]|] Hq1; [|apply (quiet_weaken (S n)); [lia|done]].
  repeat wp_step; try (apply (quiet_weaken (S n)); [lia|done]); [|by apply IH].
  eapply wp_mono; [by apply keep_opened_spec|]. intros s2 u Hq2. wp_step. apply (quiet_weaken (S n)); [lia|done].
Qed.

(** Opening a key asks for a passphrase at most three times, and for no approval. *)
Lemma unlock_spec a supplied s0 n s : (ask_minutes a <= LONGEST)%N -> quiet n s0 s ->
  wp (unlock a supplied) (fun s' _ => quiet (n + PASSPHRASE_ATTEMPTS) s0 s') s.
Proof.
  intros Hm Hq. unfold unlock. do 3 wp_step.
  apply wp_bind. eapply wp_mono; [apply cached_spec, quiet_world, Hq|]. intros s1 hit Hq1. cbn beta in Hq1.
  assert (forall s', quiet n s0 s' -> quiet (n + PASSPHRASE_ATTEMPTS) s0 s') as Hw
    by (intros s' Hs; apply (quiet_weaken n); [lia|done]).
  repeat wp_step; auto.
  - by apply try_passphrases_spec; auto.
  - eapply wp_mono; [by apply (try_remembered_spec _ _ s0 n); auto|]. intros s2 [[found|]|] Hq2; repeat wp_step; auto.
    by apply try_passphrases_spec.
Qed.

Lemma needs_passphrase_spec a s0 n s : quiet n s0 s ->
  wp (needs_passphrase a) (fun s' _ => quiet n s0 s') s.
Proof.
  intros Hq. unfold needs_passphrase. wp_step; [by wp_step|]. do 3 wp_step.
  apply wp_bind. eapply wp_mono; [by apply cached_spec, quiet_world, Hq|]. intros s1 hit Hq1.
  wp_step; [by wp_step|]. wp_step. by apply remembered_passphrase_spec.
Qed.

Lemma check_remembered_spec k now s0 n s : quiet n s0 s ->
  wp (check_remembered k now) (fun s' found => quiet n s0 s'
    /\ (found = true -> exists e, approvals (broker s) !! k = Some e /\ (now < e)%N)) s.
Proof.
  intros Hq. unfold check_remembered. do 2 wp_step.
  destruct (is_remembered k now (approvals (broker s))) as [found c] eqn:E. do 3 wp_step. split.
  - destruct Hq as [A ? ? ?]. split; try done. cbn. injection E as _ <-. etrans; [|done].
    apply map_filter_subseteq.
  - intros ->. apply is_remembered_true. by rewrite E.
Qed.

(** ** What a request comes to *)

Definition Log : Type := list (AgentApprovalRequest * option AgentApprovalAnswer).

(** A window that asks for an approval, not for a passphrase only. *)
Definition approval_window (e : AgentApprovalRequest * option AgentApprovalAnswer) : bool :=
  negb (pr_preapproved e.1).

(** The user allowed the use of a key for a host by a program. *)
Definition allowed (key_fp : str) (host_fp : option str) (chain : list str)
    (e : AgentApprovalRequest * option AgentApprovalAnswer) (remembered : bool) : Prop :=
  approval_window e = true /\ pr_key_fingerprint e.1 = key_fp /\ pr_host_fingerprint e.1 = host_fp
  /\ pr_program_chain e.1 = chain
  /\ exists a, e.2 = Some a /\ an_allow a = true
       /\ (remembered = true -> an_remember a = true /\ pr_rememberable e.1 = true).

Definition ask_chain (a : AskInfo) : list str := default [] (pg_chain <$> ask_program a).
Definition ask_allowed (a : AskInfo) e (remembered : bool) : Prop :=
  allowed (vk_fingerprint (ask_key a)) (ask_host_fingerprint a) (ask_chain a) e remembered.

(** The approvals a request may add. *)
Definition fresh (a : AskInfo) (new : Log) (k : ApprovalKey) (e : N) : Prop :=
  approval_key a = Some k /\ expiry_ok e /\ exists entry, entry ∈ new /\ ask_allowed a entry true.

Record outcome (n : nat) (a : AskInfo) (why : Log -> Prop) (s s' : St) (ok : bool) : Prop := mkOutcome {
  oc_asking : asking (broker s') = asking (broker s);
  oc_unlocked : unlocked_ok (unlocked (broker s)) -> unlocked_ok (unlocked (broker s'));
  oc_log : exists new, asked s' = asked s ++ new
    /\ (length new <= n + PASSPHRASE_ATTEMPTS)%nat
    /\ (length (List.filter approval_window new) <= n)%nat
    /\ (forall k e, approvals (broker s') !! k = Some e -> approvals (broker s) !! k = Some e \/ fresh a new k e)
    /\ (ok = true -> why new)
}.

Lemma windows_quiet (new : Log) : Forall (fun e => pr_preapproved e.1 = true) new ->
  List.filter approval_window new = [].
Proof. induction 1 as [|e new He _ IH]; [done|]. cbn [List.filter]. unfold approval_window at 1. by rewrite He. Qed.

Lemma quiet_outcome n a why s s' ok : quiet PASSPHRASE_ATTEMPTS s s' ->
  (ok = true -> forall new, why new) -> outcome n a why s s' ok.
Proof.
  intros [A B (new & L & Hl & F) U] Hok. split; [done|done|]. exists new.
  rewrite (windows_quiet new F). split_and!; [done|lia|simpl; lia| |auto].
  intros k e He. left. by apply (lookup_weaken _ _ _ _ He A).
Qed.

Lemma outcome_why n a (why why' : Log -> Prop) s s' ok :
  (forall new, why new -> why' new) -> outcome n a why s s' ok -> outcome n a why' s s' ok.
Proof. intros Hw [A U (new & ? & ? & ? & ? & ?)]. split; [done..|]. exists new. split_and!; auto. Qed.

Lemma window_outcome a (why : Log -> Prop) s0 s1 s3 w r ans ok :
  quiet 0 s0 s1 -> quiet PASSPHRASE_ATTEMPTS (mkSt w (broker s1) (asked s1 ++ [(r, ans)])) s3 ->
  (forall new, (r, ans) ∈ new -> ok = true -> why new) -> outcome 1 a why s0 s3 ok.
Proof.
  intros [A1 B1 (l1 & L1 & Hl1 & F1) U1] [A3 B3 (l3 & L3 & Hl3 & F3) U3] Hwhy.
  destruct l1; [|simpl in Hl1; lia]. rewrite app_nil_r in L1. cbn [broker asked] in *. rewrite L1, <- app_assoc in L3.
  split; [congruence|auto|]. exists ([(r, ans)] ++ l3). rewrite List.filter_app, !length_app, (windows_quiet l3 F3).
  split_and!; [done|simpl; lia|cbn [List.filter]; destruct (approval_window _); simpl; lia| |].
  - intros k e He. left. by apply (lookup_weaken _ _ _ _ He), (transitivity A3).
  - intros Hok. apply Hwhy; [set_solver|done].
Qed.

Definition answered (a : AskInfo) (remembered : bool) (new : Log) : Prop :=
  exists e, e ∈ new /\ ask_allowed a e remembered.

Lemma answered_any a b new : answered a b new -> answered a false new.
Proof. intros (e & He & ? & ? & ? & ? & an & ? & ? & _). exists e. split; [done|]. repeat (split; [done|]). by exists an. Qed.

Lemma remember_outcome a k now s0 s :
  approval_key a = Some k -> clock now -> (ask_minutes a <= LONGEST)%N ->
  outcome 1 a (answered a true) s0 s true ->
  wp (remember_approval k (vk_slot_id (ask_key a)) now (ask_minutes a))
     (fun s' _ => outcome 1 a (answered a true) s0 s' true) s.
Proof.
  intros Hk Hnow Hm [A U (new & L & Hl & Hw & Hap & Hwhy)]. unfold remember_approval. do 3 wp_step.
  assert (expiry_ok (until now (ask_minutes a))) as Hexp by by apply expiry_until.
  split; cbn [broker asked approvals asking unlocked]; [done|intros Hu|exists new; split_and!; try done].
  - intros slot u Hs. apply lookup_alter_Some in Hs as [(<- & u' & Hu' & ->)|[_ Hs]]; [|exact (U Hu _ _ Hs)].
    apply expiry_max; [exact (U Hu _ _ Hu')|done].
  - intros k' e. unfold remember. intros [[<- <-]|[_ He]]%lookup_insert_Some; [right|by apply Hap].
    split_and!; [done|done|]. by apply Hwhy.
Qed.

Lemma ask_and_unlock_spec a key s0 s : (ask_minutes a <= LONGEST)%N ->
  (forall k, key = Some k -> approval_key a = Some k) -> quiet 0 s0 s ->
  wp (ask_and_unlock a key) (fun s' o => outcome 1 a (answered a false) s0 s' (is_some o)) s.
Proof.
  intros Hm Hkey Hq. unfold ask_and_unlock. wp_step.
  eapply wp_mono; [by apply (needs_passphrase_spec a s0 0)|]. intros s1 needs Hq1. cbn beta in Hq1.
  do 2 wp_step. set (r := prompt a false needs (is_some key) None).
  destruct a0 as [ans|]; [|by eapply window_outcome; [done|apply quiet_refl|]].
  wp_step; [by wp_step; eapply window_outcome; [done|apply quiet_refl|]|]. apply negb_false_iff in Heqb.
  do 1 wp_step. set (s2 := mkSt w (broker s1) (asked s1 ++ [(r, Some ans)])).
  eapply wp_mono; [apply (unlock_spec a _ s2 0); [done|apply quiet_refl]|]. intros s3 m Hq3. cbn beta in Hq3.
  assert (forall b, (b = true -> an_remember ans = true /\ is_some key = true) ->
    outcome 1 a (answered a b) s0 s3 (is_some m)) as Hout.
  { intros b Hb. eapply window_outcome; [done|done|]. intros new Hin _. exists (r, Some ans). split; [done|].
    repeat (split; [done|]). exists ans. split_and!; [done|done|]. intros Hbt. by apply Hb. }
  destruct m as [m|]; [|by apply Hout].
  destruct key as [k|]; [|by wp_step; apply Hout].
  wp_step; [|by wp_step; apply Hout]. do 4 wp_step.
  eapply wp_mono; [|intros s' u Ho; wp_step; exact (outcome_why _ _ _ _ _ _ _ (answered_any a true) Ho)].
  apply remember_outcome; [by apply Hkey|by eexists|done|].
  destruct (Hout true) as [? ? ?]; [done|]. by split.
Qed.

(** The reasons for which a request is granted without a window of its own. *)
Definition remembered_before (a : AskInfo) (s : St) : Prop :=
  exists k e now, approval_key a = Some k /\ approvals (broker s) !! k = Some e /\ clock now /\ (now < e)%N.
Definition followed (a : AskInfo) (s : St) : Prop :=
  exists k w, approval_key a = Some k /\ k ∈ asking (broker s) /\ (h_wait w k).2 = true.
Definition granted (a : AskInfo) (s : St) (new : Log) : Prop :=
  answered a false new \/ remembered_before a s \/ followed a s.

Lemma outcome_after n a why s0 s s' ok : quiet 0 s0 s -> outcome n a why s s' ok -> outcome n a why s0 s' ok.
Proof.
  intros [A B (l & L & Hl & _) U] [A' U' (new & L' & Hl' & Hw & Hap & Hwhy)].
  destruct l; [|simpl in Hl; lia]. rewrite app_nil_r in L. rewrite L in L'.
  split; [congruence|auto|]. exists new. split_and!; try done.
  intros k e He. destruct (Hap k e He) as [Hs|]; [left|by right]. by apply (lookup_weaken _ _ _ _ Hs A).
Qed.

Definition with_asking (l : list ApprovalKey) (s : St) : St := mkSt (world s) (set_asking l (broker s)) (asked s).

Lemma outcome_asking n a why l s s' ok : outcome n a why (with_asking l s) s' ok ->
  asking (broker s') = l /\ outcome n a why s (with_asking (asking (broker s)) s') ok.
Proof. by intros []. Qed.

Lemma remove_asking (k : ApprovalKey) l : existsb (fun k' => k' =?= k) l = false ->
  List.filter (fun k' => negb (k' =?= k)) (k :: l) = l.
Proof.
  intros Hn. cbn [List.filter]. rewrite bool_decide_eq_true_2 by done. cbn [negb].
  induction l as [|k' l IH]; [done|]. cbn [existsb List.filter] in *. apply orb_false_iff in Hn as [-> Hn].
  cbn [negb]. by rewrite IH.
Qed.

Lemma ask_once_spec a k s : (ask_minutes a <= LONGEST)%N -> approval_key a = Some k ->
  wp (ask_once a k) (fun s' o => outcome 1 a (granted a s) s s' (is_some o)) s.
Proof.
  intros Hm Hk. unfold ask_once. do 2 wp_step. wp_step.
  { do 2 wp_step. apply existsb_elem in Heqb as (k' & Hin & ->%bool_decide_eq_true_1). wp_step.
    - eapply wp_mono; [apply (unlock_spec a None s 0); auto|]. intros s1 o Hq1. apply quiet_outcome; [done|].
      intros _ new. right. right. by exists k, (world s).
    - wp_step. apply quiet_outcome; [auto|done]. }
  do 5 wp_step. fold (with_asking (k :: asking (broker s)) s). set (s1 := mkSt w _ _).
  wp_step. eapply wp_mono; [by apply (check_remembered_spec _ _ s1 0); apply quiet_refl|].
  intros s2 found [Hq2 Hfound]. wp_step.
  apply (wp_mono _ (fun s' o => outcome 1 a (granted a s) (with_asking (k :: asking (broker s)) s) s' (is_some o))).
  - destruct found.
    + eapply wp_mono; [apply (unlock_spec a None s1 0); auto|]. intros s3 o Hq3.
      assert (quiet PASSPHRASE_ATTEMPTS (with_asking (k :: asking (broker s)) s) s3) as Hq by by destruct Hq3.
      apply quiet_outcome; [done|]. intros _ new. right. left. destruct Hfound as (e & He & Hlt); [done|].
      eexists k, e, _. split_and!; [done|exact He|by eexists|exact Hlt].
    + eapply wp_mono; [apply (ask_and_unlock_spec a (Some k) s1); [done|by intros ? [= <-]|done]|].
      intros s3 o Ho. eapply outcome_why; [|by destruct Ho; split]. intros new. by left.
  - intros s3 o Ho. apply outcome_asking in Ho as [Has Ho]. repeat wp_step. by rewrite Has, remove_asking.
Qed.

Lemma granted_quiet a s0 s new : quiet 0 s0 s -> granted a s new -> granted a s0 new.
Proof.
  intros [A B _ _] [?|[(k & e & now & ? & Hl & ? & ?)|(k & w & ? & Hk & ?)]]; [by left|right; left|right; right].
  - exists k, e, now. split_and!; try done. by apply (lookup_weaken _ _ _ _ Hl A).
  - exists k, w. by rewrite <- B.
Qed.

(** A request without a grant is granted by the answer to a window, by a remembered
    approval or by the request it follows; with [always_ask] only by a window. *)
Definition approved (settings : AgentSettings) (a : AskInfo) (s : St) (new : Log) : Prop :=
  if always_ask settings then answered a false new else granted a s new.

Lemma verdict_memory s b r : verdict default_protection s b r = Remembered ->
  r = true /\ always_ask s = false.
Proof. unfold verdict. cbn. destruct (always_ask s), b, r; naive_solver. Qed.
Lemma verdict_rememberable s b r : verdict default_protection s b r = Ask true -> always_ask s = false.
Proof. unfold verdict. cbn. destruct (always_ask s), b, r; naive_solver. Qed.

Lemma approve_spec a settings s : (ask_minutes a <= LONGEST)%N ->
  wp (approve a settings) (fun s' o => outcome 1 a (approved settings a s) s s' (is_some o)) s.
Proof.
  intros Hm. unfold approve. do 3 wp_step. set (s0 := mkSt w _ _). set (now := (h_now_ms (world s)).2).
  assert (quiet 0 s s0) as Hq0 by by apply quiet_world.
  wp_step. apply (wp_mono _ (fun s' found => quiet 0 s s' /\ (found = true -> remembered_before a s))).
  { destruct (approval_key a) as [k|] eqn:Hk; [|by wp_step].
    eapply wp_mono; [by apply (check_remembered_spec k now s 0)|]. intros s1 found [Hq1 Hf]. split; [done|].
    intros Ht. destruct (Hf Ht) as (e & He & Hlt). exists k, e, now. split_and!; try done. by eexists. }
  intros s1 found [Hq1 Hf].
  assert (wp (ask_and_unlock a None) (fun s' o => outcome 1 a (approved settings a s) s s' (is_some o)) s1) as Hask.
  { eapply wp_mono; [by apply (ask_and_unlock_spec a None s)|]. intros s2 o Ho. eapply outcome_why; [|exact Ho].
    intros new Hn. unfold approved, granted. destruct (always_ask settings); auto. }
  destruct (verdict _ _ _ _) as [|[|]] eqn:Hv; [|destruct (approval_key a) as [k|] eqn:Hk|]; try done.
  - apply verdict_memory in Hv as [-> Ha]. eapply wp_mono; [by apply (unlock_spec a None s 0)|].
    intros s2 o Hq2. apply quiet_outcome; [done|]. intros _ new. unfold approved. rewrite Ha. right. left. auto.
  - apply verdict_rememberable in Hv as Ha. eapply wp_mono; [by apply (ask_once_spec a k s1)|].
    intros s2 o Ho. eapply outcome_after; [done|]. eapply outcome_why; [|exact Ho]. intros new Hn.
    unfold approved. rewrite Ha. by apply (granted_quiet a s s1).
Qed.

(** ** Whole requests *)

(** What the broker shows and checks for a request, as [broker_sign] puts it together. *)
Definition ask_of (request : SignRequest) (program : option Program) (key : VaultKey) (settings : AgentSettings)
    (display : option str) : AskInfo :=
  mkAsk key request program (fingerprint <$> sq_host_key request) display (remember_minutes settings).

(** A signature was given: with this key, for this data, for a reason. *)
Definition signed (request : SignRequest) (keys : list VaultKey) (grant : option Grant) (key : VaultKey)
    (blob : list N) : Prop :=
  sq_forwarded request = false /\ key ∈ keys /\ signable_public_key key = Some (sq_key request)
  /\ (forall g, grant = Some g -> vk_slot_id key = gr_slot_id g)
  /\ exists m, private_key_data m = sq_key request /\ sign m (sq_data request) (sq_flags request) = Ok blob.

Lemma find_key_spec keys request grant key : find_key keys request grant = Some key ->
  key ∈ keys /\ signable_public_key key = Some (sq_key request)
  /\ (forall g, grant = Some g -> vk_slot_id key = gr_slot_id g).
Proof.
  unfold find_key. destruct grant as [g|].
  - destruct (List.find _ keys) as [k|] eqn:Hf; [|done]. cbn.
    destruct (_ =?= _) eqn:Hk; [|done]. intros [= <-]. apply bool_decide_eq_true_1 in Hk.
    apply List.find_some in Hf as [Hin Hs]. apply bool_decide_eq_true_1 in Hs. apply list_elem_of_In in Hin.
    split_and!; [done|done|]. by intros g' [= <-].
  - intros Hf. apply List.find_some in Hf as [Hin Hk]. apply bool_decide_eq_true_1 in Hk.
    apply list_elem_of_In in Hin. split_and!; [done|done|]. by intros.
Qed.

(** The outcome of a whole request: nothing happened, or the outcome for the key. *)
Definition sign_outcome (request : SignRequest) (program : option Program) (grant : option Grant) (s s' : St)
    (o : option (list N)) : Prop :=
  (s' = mkSt (world s') (broker s) (asked s) /\ o = None)
  \/ exists key settings w display, let a := ask_of request program key settings display in
       settings = (h_settings w).2
       /\ outcome (if is_some grant then 0 else 1) a
            (fun new => if is_some grant then True else approved settings a s new) s s' (is_some o)
       /\ forall blob, o = Some blob -> signed request (h_keys (world s)).2 grant key blob.

Lemma outcome_ok n a why s s' (b b' : bool) : (b' = true -> b = true) ->
  outcome n a why s s' b -> outcome n a why s s' b'.
Proof. intros Hb [A U (new & ? & ? & ? & ? & ?)]. split; [done..|]. exists new. split_and!; auto. Qed.

Lemma broker_sign_spec request program grant s :
  wp (broker_sign request program grant) (sign_outcome request program grant s) s.
Proof.
  unfold broker_sign. destruct (sq_forwarded request) eqn:Hfw; [wp_step; left; by destruct s|]. do 2 wp_step.
  destruct (find_key _ _ _) as [key|] eqn:Hkey; [|by wp_step; left]. do 2 wp_step. cbn [broker asked].
  wp_step. match goal with |- wp _ _ (mkSt ?w _ _) => set (s1 := mkSt w (broker s) (asked s)) end.
  set (settings := (h_settings _).2).
  apply (wp_mono _ (fun s' _ => s' = mkSt (world s') (broker s) (asked s))).
  { destruct (sq_host_key request); repeat wp_step; done. }
  intros s2 display Hs2. wp_step. fold (ask_of request program key settings display).
  set (a := ask_of request program key settings display).
  assert (ask_minutes a <= LONGEST)%N as Hm by apply remember_minutes_bounds.
  assert (quiet 0 s s2) as Hq2 by (rewrite Hs2; apply quiet_world, quiet_refl).
  apply find_key_spec in Hkey as (Hin & Hpub & Hg).
  apply (wp_mono _ (fun s' o => outcome (if is_some grant then 0 else 1) a
     (fun new => if is_some grant then True else approved settings a s new) s s' (is_some o))).
  { destruct grant; cbn [is_some].
    - eapply wp_mono; [by apply (unlock_spec a None s 0)|]. intros s3 o Hq3. by apply quiet_outcome.
    - eapply wp_mono; [by apply (approve_spec a settings s2)|]. intros s3 o Ho. eapply outcome_after; [done|].
      eapply outcome_why; [|exact Ho]. unfold approved. intros new Hn. destruct (always_ask settings); [done|].
      by apply (granted_quiet a s s2). }
  intros s3 [m|] Ho; [|by right; exists key, settings; eexists _, display].
  wp_step; wp_step; right; exists key, settings; eexists _, display; (split_and!; [done|by eapply outcome_ok; [|exact Ho]|]);
    [done|]. intros blob Hb. unfold signed. split_and!; [done..|]. exists m. split.
  - apply negb_false_iff in Heqb. by apply bool_decide_eq_true_1 in Heqb.
  - destruct (sign m _ _); [|done]. cbn in Hb. congruence.
Qed.

(** C21. The agent signs only what was approved: a signature is given only for a
    request that was not forwarded, with a key of the vault whose public key is the
    one the request names (the granted slot, for a one-time channel), by a private
    key with that very public key; and without a grant only if a window of this
    request was answered with allow, or, unless the settings ask every time, an
    approval of this key, host and program was remembered and had not expired at the
    time the clock gave, or the same question was being asked and was allowed. *)
Theorem agent_signs_only_approved (request : SignRequest) (program : option Program) (grant : option Grant)
    (s s' : St) (blob : list N) :
  broker_sign request program grant s = (s', Some blob) ->
  exists key settings display new, let a := ask_of request program key settings display in
    signed request (h_keys (world s)).2 grant key blob
    /\ asked s' = asked s ++ new
    /\ (grant = None -> approved settings a s new).
Proof.
  intros Hs. pose proof (broker_sign_spec request program grant s) as Hspec. unfold wp in Hspec.
  rewrite Hs in Hspec. destruct Hspec as [[_ ?]|(key & settings & w & display & _ & Ho & Hb)]; [done|].
  destruct Ho as [_ _ (new & L & _ & _ & _ & Hwhy)]. exists key, settings, display, new.
  split_and!; [by apply Hb|done|]. intros ->. by apply Hwhy.
Qed.

(** A request opens at most one approval window and at most three windows for
    a passphrase; a one-time channel that is already approved, and a forwarded
    request, open no approval window; and whatever happens, the questions other
    requests are asking are left alone. *)
Lemma agent_windows_bounded (request : SignRequest) (program : option Program) (grant : option Grant) (s : St) :
  let s' := (broker_sign request program grant s).1 in
  asking (broker s') = asking (broker s)
  /\ exists new, asked s' = asked s ++ new
       /\ (length new <= 1 + PASSPHRASE_ATTEMPTS)%nat
       /\ (length (List.filter approval_window new) <= if is_some grant || sq_forwarded request then 0 else 1)%nat.
Proof.
  pose proof (broker_sign_spec request program grant s) as Hspec. unfold wp in Hspec. cbv zeta.
  assert (sq_forwarded request = true -> (broker_sign request program grant s).1 = s) as Hfw
    by (intros Hf; unfold broker_sign; by rewrite Hf).
  destruct (sq_forwarded request) eqn:Hf.
  { rewrite Hfw by done. split; [done|]. exists []. rewrite app_nil_r. split_and!; simpl; [done|lia|lia]. }
  destruct Hspec as [[-> _]|(key & settings & w & display & _ & Ho & _)].
  { split; [done|]. exists []. rewrite app_nil_r. split_and!; simpl; [done|lia|lia]. }
  destruct Ho as [? _ (new & L & Hl & Hw & _)]. split; [done|]. exists new. rewrite orb_false_r.
  destruct grant; split_and!; simpl in *; [done|lia|lia|done|lia|lia].
Qed.

(** ** One request after another *)

(** Requests, the locked screen, the expiry timer, and the world going its own way. *)
Inductive step : St -> St -> Prop :=
| step_sign request program grant s : step s (broker_sign request program grant s).1
| step_clear s : step s (mkSt (world s) (clear (broker s)) (asked s))
| step_expire now s : step s (mkSt (world s) (expire now (broker s)) (asked s))
| step_world w s : step s (mkSt w (broker s) (asked s)).

Definition reachable (s : St) : Prop := exists w, rtc step (mkSt w new_broker []) s.

(** Every approval that is kept was given by the user, to be remembered, in a window
    that showed the key, the host and the program. *)
Definition justified (log : Log) (k : ApprovalKey) (e : N) : Prop :=
  expiry_ok e /\ exists entry p, entry ∈ log /\ pg_identity p = ak_program k
    /\ allowed (ak_key_fingerprint k) (Some (ak_host_fingerprint k)) (pg_chain p) entry true.

Record inv (s : St) : Prop := mkInv {
  inv_asking : asking (broker s) = [];
  inv_unlocked : unlocked_ok (unlocked (broker s));
  inv_approvals : map_Forall (justified (asked s)) (approvals (broker s))
}.

Lemma justified_more log new k e : justified log k e -> justified (log ++ new) k e.
Proof. intros [? (entry & p & ? & ? & ?)]. split; [done|]. exists entry, p. split_and!; [set_solver|done..]. Qed.

Lemma approval_key_parts a k : approval_key a = Some k ->
  ak_key_fingerprint k = vk_fingerprint (ask_key a) /\ ask_host_fingerprint a = Some (ak_host_fingerprint k)
  /\ exists p, ask_program a = Some p /\ pg_identity p = ak_program k.
Proof.
  unfold approval_key. destruct (ask_host_fingerprint a), (ask_program a) as [p|]; try done.
  intros [= <-]. cbn. eauto.
Qed.

Lemma fresh_justified a log new k e : fresh a new k e -> justified (log ++ new) k e.
Proof.
  intros (Hk & Hexp & entry & Hin & Hall). split; [done|].
  apply approval_key_parts in Hk as (Hfp & Hh & p & Hp & Hid).
  exists entry, p. split_and!; [set_solver|done|]. unfold ask_allowed, ask_chain in Hall.
  by rewrite Hh, Hp, <- Hfp in Hall.
Qed.

Lemma inv_step s s' : inv s -> step s s' -> inv s'.
Proof.
  intros Hi Hs. destruct Hs as [request program grant s0|s0|now s0|w s0]; destruct Hi as [Ha Hu Hj].
  - pose proof (broker_sign_spec request program grant s0) as Hspec. unfold wp in Hspec.
    destruct Hspec as [[-> _]|(key & settings & w & display & _ & [A U (new & L & _ & _ & Hap & _)] & _)]; [by split|].
    split; [congruence|auto|]. rewrite L. intros k e He.
    destruct (Hap k e He) as [Hold|Hnew]; [by apply justified_more, Hj|by eapply fresh_justified].
  - by split; [|apply map_Forall_empty|apply map_Forall_empty].
  - split; [done|by apply unlocked_ok_filter|]. intros k e [Hk _]%prune_lookup. exact (Hj k e Hk).
  - by split.
Qed.

Lemma reachable_inv s : reachable s -> inv s.
Proof.
  intros [w Hr]. remember (mkSt w new_broker []) as s0 eqn:E0.
  assert (inv s0) as Hi by (subst; split; [done|apply map_Forall_empty|apply map_Forall_empty]).
  clear E0. induction Hr; eauto using inv_step.
Qed.


(** After the screen was locked, only a new window lets the agent sign. *)
Lemma clear_forgets (s s' : St) (request : SignRequest) (program : option Program) (blob : list N) :
  asking (broker s) = [] ->
  broker_sign request program None (mkSt (world s) (clear (broker s)) (asked s)) = (s', Some blob) ->
  exists new key, asked s' = asked s ++ new /\ exists entry, entry ∈ new
    /\ allowed (vk_fingerprint key) (fingerprint <$> sq_host_key request) (default [] (pg_chain <$> program)) entry false.
Proof.
  intros Ha Hs. pose proof (broker_sign_spec request program None (mkSt (world s) (clear (broker s)) (asked s))) as Hspec.
  unfold wp in Hspec. rewrite Hs in Hspec.
  destruct Hspec as [[_ ?]|(key & settings & w & display & _ & [_ _ (new & L & _ & _ & _ & Hwhy)] & _)]; [done|].
  exists new, key. split; [done|]. specialize (Hwhy eq_refl). cbn [is_some] in Hwhy.
  assert (granted (ask_of request program key settings display) (mkSt (world s) (clear (broker s)) (asked s)) new) as Hg
    by (revert Hwhy; unfold approved, granted; destruct (always_ask settings); auto).
  destruct Hg as [(entry & He & Hall)|[(k & e & now & _ & Hl & _)|(k & w' & _ & Hf & _)]].
  { by exists entry. }
  { cbn in Hl. by apply lookup_empty_Some in Hl. }
  cbn in Hf. rewrite Ha in Hf. by apply not_elem_of_nil in Hf.
Qed.

(** The keys that are listed are those a request finds. *)
Lemma identities_found (s : St) (request : SignRequest) :
  is_some (find_key (h_keys (world s)).2 request None) = true <->
  exists name, (sq_key request, name) ∈ (identities None s).2.
Proof.
  unfold identities, mbind, M_bind, host. destruct (h_keys (world s)) as [w keys]. cbn.
  unfold find_key. induction keys as [|k keys IH]; cbn [List.find List.filter omap list_omap is_none_or];
    [split; [done|intros (? & ?%not_elem_of_nil); done]|].
  destruct (signable_public_key k =?= Some (sq_key request)) eqn:Hk; cbn.
  - apply bool_decide_eq_true_1 in Hk. rewrite Hk. cbn. split; [|done]. intros _. exists (vk_name k). left.
  - apply bool_decide_eq_false_1 in Hk. rewrite IH. destruct (signable_public_key k) as [d|]; cbn; [|done].
    split; intros [name Hn]; exists name; [by right|]. apply elem_of_cons in Hn as [Heq|]; [|done]. congruence.
Qed.

End Props.
