(* ===== verification/AgentPrompt.v ===== *)
(** * AgentPrompt: the approval window and the requests that wait for it

    [src-tauri/src/agent/prompt.rs]: [PromptHub] and the threads that call [ask].
    Threads interleave between two operations on the locks, the counter or the
    channels; [resolve] and [deny_all], which the window calls, hold the list's lock
    from beginning to end and are one step.  The list of answers that were accepted
    and the lists that were shown are kept beside the state; nothing reads them. *)

From stdpp Require Import gmap.
From stdpp Require Import gmap pretty.
From S2P Require Import Prelude Text ByteStream AgentProtocol AgentSession VaultMaterial AgentBroker.

Definition default_answer : AgentApprovalAnswer := mkAnswer false false None false.

Definition with_id (r : AgentApprovalRequest) (id : str) : AgentApprovalRequest :=
  mkPrompt id (pr_key_name r) (pr_key_fingerprint r) (pr_program_chain r) (pr_user r) (pr_host r)
    (pr_host_fingerprint r) (pr_rememberable r) (pr_remember_minutes r) (pr_needs_passphrase r)
    (pr_passphrase_error r) (pr_preapproved r).

(** A request in the list; its channel is the one of the thread that asks. *)
Record Waiting := mkWaiting { wt_request : AgentApprovalRequest; wt_answer : nat; answered : bool }.

(** A channel of capacity one whose receiver is alive; the others are gone. *)
Abbreviation Channels := (gmap nat (option AgentApprovalAnswer)).

Record PromptHub := mkHub { hub_pending : list Waiting; notify : option nat; next_id : N; channels : Channels }.

Definition try_send (c : nat) (a : AgentApprovalAnswer) (chs : Channels) : Channels * bool :=
  match chs !! c with
  | Some None => (<[c := Some a]> chs, true)
  | _ => (chs, false)
  end.

Definition set_pending (l : list Waiting) (h : PromptHub) : PromptHub := mkHub l (notify h) (next_id h) (channels h).
Definition set_notify (o : option nat) (h : PromptHub) : PromptHub := mkHub (hub_pending h) o (next_id h) (channels h).
Definition set_channels (c : Channels) (h : PromptHub) : PromptHub := mkHub (hub_pending h) (notify h) (next_id h) c.

Definition forget (id : str) (h : PromptHub) : PromptHub :=
  set_pending (List.filter (fun w => negb (pr_id (wt_request w) =?= id)) (hub_pending h)) h.

Definition pending (h : PromptHub) : list AgentApprovalRequest :=
  map wt_request (List.filter (fun w => negb (answered w)) (hub_pending h)).

Definition gone : AppError := ANotFound (lit "that request was already answered or has expired").

(** The first request of the list with this id that has no answer is marked; the
    channel it answers to is returned. *)
Fixpoint mark_answered (id : str) (l : list Waiting) : option (nat * list Waiting) :=
  match l with
  | [] => None
  | w :: l' =>
      if (pr_id (wt_request w) =?= id) && negb (answered w)
      then Some (wt_answer w, mkWaiting (wt_request w) (wt_answer w) true :: l')
      else '(c, l') ← mark_answered id l'; Some (c, w :: l')
  end.

Definition resolve (id : str) (answer : AgentApprovalAnswer) (h : PromptHub) : PromptHub * result AppError unit :=
  match mark_answered id (hub_pending h) with
  | None => (h, Err gone)
  | Some (c, l) =>
      let '(chs, sent) := try_send c answer (channels h) in
      (set_channels chs (set_pending l h), if sent : bool then Ok tt else Err gone)
  end.

Definition deny_all (h : PromptHub) : PromptHub :=
  set_channels (fold_left (fun chs w => (try_send (wt_answer w) default_answer chs).1) (hub_pending h) (channels h))
    (set_pending [] h).

(** [note_head]. *)
Definition note_head (shown : option str) (l : list AgentApprovalRequest) : option str * bool :=
  let head := match l with [] => None | r :: _ => Some (pr_id r) end in
  (head, is_some head && negb (shown =?= head)).

(** ** The threads *)

(** [publish]: waiting for the order lock, holding it, about to call [changed]. *)
Inductive Publish :=
| WantLock
| Locked
| Snapshot (l : list AgentApprovalRequest).

(** Where a call of [ask] is. *)
Inductive Phase :=
| Fetch
| Push
| First (p : Publish)
| Recv
| Forget (o : option AgentApprovalAnswer)
| TryRecv
| Second (o : option AgentApprovalAnswer) (p : Publish)
| Leave (o : option AgentApprovalAnswer)
| Unwind
| Done (o : option AgentApprovalAnswer)
| Dead.

Record Thread := mkThread { th_request : AgentApprovalRequest; th_phase : Phase }.
Definition th_id (t : Thread) : str := pr_id (th_request t).
Definition at_phase (t : Thread) (p : Phase) : Thread := mkThread (th_request t) p.

Record Sys := mkSys {
  hub : PromptHub; threads : gmap nat Thread;
  shown : list (list AgentApprovalRequest);
  answers : list (nat * AgentApprovalAnswer)
}.

Definition new_hub : PromptHub := mkHub [] None 0 ∅.
Definition init : Sys := mkSys new_hub ∅ [] [].

(** How a thread goes on: in the ordinary way, because the wait ended without an
    answer, or unwinding because [changed] panicked. *)
Inductive Move := Go | Timeout | Panic.

Definition put (h : PromptHub) (t : nat) (th : Thread) (s : Sys) : Sys :=
  mkSys h (<[t := th]> (threads s)) (shown s) (answers s).

(** [publish] of thread [t], inside its call of [ask]; [at_] puts the thread where it
    is in [publish], [after] where it is when [publish] returned. *)
Definition advance_publish (m : Move) (t : nat) (th : Thread) (s : Sys) (p : Publish)
    (at_ : Publish -> Phase) (after : Phase) : option Sys :=
  let h := hub s in
  match p, m with
  | WantLock, Go =>
      match notify h with
      | None => Some (put (set_notify (Some t) h) t (at_phase th (at_ Locked)) s)
      | Some _ => None
      end
  | Locked, Go => Some (put h t (at_phase th (at_ (Snapshot (pending h)))) s)
  | Snapshot l, Go =>
      Some (mkSys (set_notify None h) (<[t := at_phase th after]> (threads s)) (shown s ++ [l]) (answers s))
  | Snapshot l, Panic => Some (put (set_notify None h) t (at_phase th Unwind) s)
  | _, _ => None
  end.

(** [format!("approval-{}", next_id + 1)]. *)
Definition approval_id (n : N) : str := lit "approval-" ++ dec (n + 1).

(** The end of [ask], by returning or unwinding: the guard takes the request off the
    list, and the receiver is gone. *)
Definition leave (t : nat) (th : Thread) (h : PromptHub) : PromptHub :=
  let h := forget (th_id th) h in set_channels (delete t (channels h)) h.

(** One step of thread [t]. *)
Definition advance (m : Move) (t : nat) (s : Sys) : option Sys :=
  let h := hub s in
  th ← threads s !! t;
  match th_phase th, m with
  | Fetch, Go =>
      Some (put (mkHub (hub_pending h) (notify h) ((next_id h + 1) mod 18446744073709551616) (<[t := None]> (channels h))) t
             (mkThread (with_id (th_request th) (approval_id (next_id h))) Push) s)
  | Push, Go =>
      Some (put (set_pending (hub_pending h ++ [mkWaiting (th_request th) t false]) h) t
             (at_phase th (First WantLock)) s)
  | First p, m => advance_publish m t th s p First Recv
  | Recv, Go =>
      match channels h !! t with
      | Some (Some a) => Some (put (set_channels (<[t := None]> (channels h)) h) t (at_phase th (Forget (Some a))) s)
      | _ => None
      end
  | Recv, Timeout =>
      match channels h !! t with
      | Some None => Some (put h t (at_phase th (Forget None)) s)
      | _ => None
      end
  | Forget o, Go =>
      Some (put (forget (th_id th) h) t
             (at_phase th (match o with Some _ => Second o WantLock | None => TryRecv end)) s)
  | TryRecv, Go =>
      let o := match channels h !! t with Some o => o | None => None end in
      Some (put (set_channels (<[t := None]> (channels h)) h) t (at_phase th (Second o WantLock)) s)
  | Second o p, m => advance_publish m t th s p (Second o) (Leave o)
  | Leave o, Go => Some (put (leave t th h) t (at_phase th (Done o)) s)
  | Unwind, Go => Some (put (leave t th h) t (at_phase th Dead) s)
  | _, _ => None
  end.

(** The answer that is accepted is logged, under the thread whose request it is. *)
Definition resolve_sys (id : str) (answer : AgentApprovalAnswer) (s : Sys) : Sys * result AppError unit :=
  let '(h, r) := resolve id answer (hub s) in
  let log := match r, mark_answered id (hub_pending (hub s)) with
             | Ok _, Some (c, _) => [(c, answer)]
             | _, _ => []
             end in
  (mkSys h (threads s) (shown s) (answers s ++ log), r).

(** Closing the window answers every request that has no answer yet. *)
Definition deny_all_sys (s : Sys) : Sys :=
  mkSys (deny_all (hub s)) (threads s) (shown s)
    (answers s ++ map (fun w => (wt_answer w, default_answer)) (List.filter (fun w => negb (answered w)) (hub_pending (hub s)))).

(** A new call of [ask]. *)
Definition start (t : nat) (r : AgentApprovalRequest) (s : Sys) : Sys :=
  mkSys (hub s) (<[t := mkThread r Fetch]> (threads s)) (shown s) (answers s).

(** The counter has 64 bits: fewer requests than that are ever made. *)
Inductive hub_step : Sys -> Sys -> Prop :=
| hub_start t r s : threads s !! t = None -> (N.of_nat (size (threads s)) < u64_max)%N ->
    hub_step s (start t r s)
| hub_advance m t s s' : advance m t s = Some s' -> hub_step s s'
| hub_resolve id answer s : hub_step s (resolve_sys id answer s).1
| hub_deny s : hub_step s (deny_all_sys s).

Definition hub_reachable (s : Sys) : Prop := rtc hub_step init s.

(** ** Every question gets its own answer, and every wait ends

    The invariants of the threads that ask, for all their interleavings with the
    window's answers. *)

(** ** Identifiers *)

Lemma approval_id_inj m n : approval_id m = approval_id n -> m = n.
Proof.
  unfold approval_id. intros Heq%app_inv_head%dec_inj. lia.
Qed.

(** ** What concerns one thread *)

Definition entries (t : nat) (l : list Waiting) : list bool :=
  map answered (List.filter (fun w => (wt_answer w =? t)%nat) l).
Definition logged (t : nat) (l : list (nat * AgentApprovalAnswer)) : list AgentApprovalAnswer :=
  map snd (List.filter (fun e => (e.1 =? t)%nat) l).

(** A request whose thread has not taken it off the list: what the channel holds is
    the one answer that was accepted; the entry is marked exactly if there is one,
    or gone because the window was closed. *)
Definition awaiting (ch : option (option AgentApprovalAnswer)) (es : list bool) (lg : list AgentApprovalAnswer) : Prop :=
  exists c, ch = Some c /\ lg = option_list c /\ (es = [is_some c] \/ (es = [] /\ is_some c = true)).

Definition local (ph : option Phase) (ch : option (option AgentApprovalAnswer)) (es : list bool)
    (lg : list AgentApprovalAnswer) : Prop :=
  match ph with
  | None | Some Fetch => ch = None /\ es = [] /\ lg = []
  | Some Push => ch = Some None /\ es = [] /\ lg = []
  | Some (First _) | Some Recv | Some (Forget None) => awaiting ch es lg
  | Some (Forget (Some a)) => is_Some ch /\ (es = [true] \/ es = []) /\ lg = [a]
  | Some TryRecv => es = [] /\ exists c, ch = Some c /\ lg = option_list c
  | Some (Second o _) | Some (Leave o) => is_Some ch /\ es = [] /\ lg = option_list o
  | Some Unwind => awaiting ch es lg \/ (is_Some ch /\ es = [] /\ (length lg <= 1)%nat)
  | Some (Done o) => ch = None /\ es = [] /\ lg = option_list o
  | Some Dead => ch = None /\ es = [] /\ (length lg <= 1)%nat
  end.

Definition phase_of (s : Sys) (t : nat) : option Phase := th_phase <$> threads s !! t.

Record hinv (s : Sys) : Prop := mkHinv {
  hi_local : forall t, local (phase_of s t) (channels (hub s) !! t) (entries t (hub_pending (hub s))) (logged t (answers s));
  hi_request : forall w, w ∈ hub_pending (hub s) ->
    exists th, threads s !! wt_answer w = Some th /\ th_request th = wt_request w;
  hi_named : forall t th, threads s !! t = Some th -> th_phase th <> Fetch ->
    exists n, (n < next_id (hub s))%N /\ th_id th = approval_id n;
  hi_unique : forall t t' th th', threads s !! t = Some th -> threads s !! t' = Some th' ->
    th_phase th <> Fetch -> th_phase th' <> Fetch -> th_id th = th_id th' -> t = t'
}.

Lemma entries_app t l1 l2 : entries t (l1 ++ l2) = entries t l1 ++ entries t l2.
Proof. unfold entries. by rewrite List.filter_app, map_app. Qed.
Lemma logged_app t l1 l2 : logged t (l1 ++ l2) = logged t l1 ++ logged t l2.
Proof. unfold logged. by rewrite List.filter_app, map_app. Qed.
Lemma entries_cons t w l :
  entries t (w :: l) = if (wt_answer w =? t)%nat then answered w :: entries t l else entries t l.
Proof. unfold entries. cbn. by destruct (_ =? _)%nat. Qed.

Lemma local_entries ph ch es lg : local ph ch es lg -> es = [] \/ (length es = 1 /\ ph <> Some Fetch /\ ph <> None).
Proof.
  unfold local, awaiting. intros Hl. repeat case_match; destruct_and?; try tauto;
    repeat match goal with H : exists _, _ |- _ => destruct H | H : _ /\ _ |- _ => destruct H
                         | H : _ \/ _ |- _ => destruct H end; subst; auto.
Qed.

Lemma entry_phase s w : hinv s -> w ∈ hub_pending (hub s) ->
  entries (wt_answer w) (hub_pending (hub s)) = [answered w] /\ phase_of s (wt_answer w) <> Some Fetch.
Proof.
  intros Hi Hw. pose proof (hi_local s Hi (wt_answer w)) as Hl. apply list_elem_of_split in Hw as (l1 & l2 & Hw).
  assert (answered w ∈ entries (wt_answer w) (hub_pending (hub s))) as Hin.
  { rewrite Hw, entries_app, entries_cons, Nat.eqb_refl. set_solver. }
  destruct (local_entries _ _ _ _ Hl) as [He|(He & Hph & _)]; [rewrite He in Hin; by apply not_elem_of_nil in Hin|].
  destruct (entries _ _) as [|b [|]]; try done. by apply list_elem_of_singleton in Hin as ->.
Qed.

(** The requests a thread takes off the list are its own. *)
Lemma forget_own s t th : hinv s -> threads s !! t = Some th -> th_phase th <> Fetch ->
  forall w, w ∈ hub_pending (hub s) -> (pr_id (wt_request w) =?= th_id th) = (wt_answer w =? t)%nat.
Proof.
  intros Hi Ht Hph w Hw. destruct (entry_phase s w Hi Hw) as [_ Hnf].
  destruct (hi_request s Hi w Hw) as (th' & Ht' & Hr). unfold phase_of in Hnf. rewrite Ht' in Hnf.
  destruct (Nat.eqb_spec (wt_answer w) t) as [Heq|Hne].
  - apply bool_decide_eq_true_2. rewrite Heq, Ht in Ht'. injection Ht' as <-. by rewrite <- Hr.
  - apply bool_decide_eq_false_2. intros Heq. apply Hne. apply (hi_unique s Hi _ _ th' th); try done.
    + intros Hf. by rewrite <- Hf in Hnf.
    + unfold th_id. by rewrite Hr.
Qed.

Lemma filter_ext_in {A} (f g : A -> bool) l : (forall x, x ∈ l -> f x = g x) -> List.filter f l = List.filter g l.
Proof. intros H. apply List.filter_ext_in. intros x Hx. apply H. by apply list_elem_of_In. Qed.

Lemma entries_forget s t th t' : hinv s -> threads s !! t = Some th -> th_phase th <> Fetch ->
  entries t' (hub_pending (forget (th_id th) (hub s)))
  = if (t' =? t)%nat then [] else entries t' (hub_pending (hub s)).
Proof.
  intros Hi Ht Hph. cbn [forget hub_pending set_pending].
  rewrite (filter_ext_in _ (fun w => negb (wt_answer w =? t)%nat)).
  2:{ intros w Hw. by rewrite (forget_own s t th). }
  clear. induction (hub_pending (hub s)) as [|w l IH]; [by destruct (_ =? _)%nat|]. cbn [List.filter].
  rewrite (entries_cons t' w l).
  destruct (Nat.eqb_spec (wt_answer w) t) as [Hw|Hw]; cbn [negb]; [|rewrite entries_cons];
    rewrite IH; destruct (Nat.eqb_spec t' t) as [Ht|Ht]; destruct (Nat.eqb_spec (wt_answer w) t'); congruence.
Qed.

(** ** Steps keep the invariant *)

Lemma phase_insert s h t th sh an t' :
  phase_of (mkSys h (<[t := th]> (threads s)) sh an) t' = if (t' =? t)%nat then Some (th_phase th) else phase_of s t'.
Proof.
  unfold phase_of. cbn [threads]. destruct (Nat.eqb_spec t' t) as [->|Hne].
  - by rewrite lookup_insert_eq.
  - by rewrite lookup_insert_ne.
Qed.

(** A step of one named thread: it is enough to look at what concerns the thread. *)
Lemma hinv_put s h t th th' sh :
  hinv s -> threads s !! t = Some th -> th_phase th <> Fetch -> th_phase th' <> Fetch ->
  th_request th' = th_request th -> next_id h = next_id (hub s) ->
  (forall w, w ∈ hub_pending h -> w ∈ hub_pending (hub s) \/ (wt_answer w = t /\ wt_request w = th_request th)) ->
  (forall t', t' <> t -> channels h !! t' = channels (hub s) !! t'
                      /\ entries t' (hub_pending h) = entries t' (hub_pending (hub s))) ->
  local (Some (th_phase th')) (channels h !! t) (entries t (hub_pending h)) (logged t (answers s)) ->
  hinv (mkSys h (<[t := th']> (threads s)) sh (answers s)).
Proof.
  intros Hi Ht Hph Hph' Hreq Hnext Hpend Hother Hloc.
  assert (forall t0 th0, <[t := th']> (threads s) !! t0 = Some th0 -> th_phase th0 <> Fetch ->
    exists th1, threads s !! t0 = Some th1 /\ th_phase th1 <> Fetch /\ th_request th1 = th_request th0) as Hback.
  { intros t0 th0 [[<- <-]|[_ H0]]%lookup_insert_Some Hf; [by exists th|by exists th0]. }
  split; cbn [hub threads answers].
  - intros t0. rewrite phase_insert. destruct (Nat.eqb_spec t0 t) as [->|Hne]; [done|].
    destruct (Hother t0 Hne) as [-> ->]. apply (hi_local s Hi).
  - intros w Hw. destruct (Hpend w Hw) as [Hold|[<- Hr]].
    + destruct (hi_request s Hi w Hold) as (th0 & H0 & Hr0).
      destruct (decide (wt_answer w = t)) as [Heq|Hne].
      * rewrite Heq, Ht in H0. injection H0 as <-. exists th'. rewrite Heq, lookup_insert_eq. split; [done|congruence].
      * exists th0. by rewrite lookup_insert_ne.
    + exists th'. rewrite lookup_insert_eq. split; [done|congruence].
  - intros t0 th0 H0 Hf. destruct (Hback _ _ H0 Hf) as (th1 & H1 & Hf1 & Hr1).
    destruct (hi_named s Hi _ _ H1 Hf1) as (n & Hn & Hid). exists n. rewrite Hnext. split; [done|].
    unfold th_id in *. by rewrite <- Hr1.
  - intros t0 t1 th0 th1 H0 H1 Hf0 Hf1 Hid. destruct (Hback _ _ H0 Hf0) as (u0 & U0 & F0 & R0).
    destruct (Hback _ _ H1 Hf1) as (u1 & U1 & F1 & R1). apply (hi_unique s Hi _ _ u0 u1); try done.
    unfold th_id in *. by rewrite R0, R1.
Qed.

Lemma hinv_local s t th : hinv s -> threads s !! t = Some th ->
  local (Some (th_phase th)) (channels (hub s) !! t) (entries t (hub_pending (hub s))) (logged t (answers s)).
Proof. intros Hi Ht. pose proof (hi_local s Hi t) as Hl. unfold phase_of in Hl. by rewrite Ht in Hl. Qed.

(** A step that leaves the list and the channels alone. *)
Lemma hinv_move s t th th' sh h :
  hinv s -> threads s !! t = Some th -> th_phase th <> Fetch -> th_phase th' <> Fetch ->
  th_request th' = th_request th ->
  next_id h = next_id (hub s) -> hub_pending h = hub_pending (hub s) -> channels h = channels (hub s) ->
  (forall ch es lg, local (Some (th_phase th)) ch es lg -> ch = channels (hub s) !! t -> local (Some (th_phase th')) ch es lg) ->
  hinv (mkSys h (<[t := th']> (threads s)) sh (answers s)).
Proof.
  intros Hi Ht Hph Hph' Hreq Hn Hp Hc Himp.
  apply (hinv_put s h t th th'); try done; rewrite ?Hp, ?Hc; try done.
  - by left.
  - by apply Himp; [apply (hinv_local s t th)|].
Qed.

Lemma advance_publish_inv m t th s p at_ after s' :
  hinv s -> threads s !! t = Some th -> th_phase th = at_ p -> (forall p, at_ p <> Fetch) -> after <> Fetch ->
  (forall p ch es lg, local (Some (at_ p)) ch es lg ->
     (forall p', local (Some (at_ p')) ch es lg) /\ local (Some after) ch es lg /\ local (Some Unwind) ch es lg) ->
  advance_publish m t th s p at_ after = Some s' -> hinv s'.
Proof.
  intros Hi Ht Hph Hat Hafter Hloc Hs. unfold advance_publish, put in Hs.
  repeat case_match; simplify_eq; apply (hinv_move s t th); try done; cbn [th_phase at_phase];
    rewrite ?Hph; try done; intros ch es lg Hl _; by eapply Hloc.
Qed.

Lemma local_first p ch es lg : local (Some (First p)) ch es lg ->
  (forall p', local (Some (First p')) ch es lg) /\ local (Some Recv) ch es lg /\ local (Some Unwind) ch es lg.
Proof. intros H. split_and!; [by intros p'|done|by left]. Qed.

Lemma local_second o p ch es lg : local (Some (Second o p)) ch es lg ->
  (forall p', local (Some (Second o p')) ch es lg) /\ local (Some (Leave o)) ch es lg /\ local (Some Unwind) ch es lg.
Proof.
  intros H. split_and!; [by intros p'|done|right]. destruct H as (? & ? & ->). split_and!; [done|done|destruct o; simpl; lia].
Qed.

(** Taking the request off the list. *)
Lemma hinv_forget s t th th' chs sh :
  hinv s -> threads s !! t = Some th -> th_phase th <> Fetch -> th_phase th' <> Fetch ->
  th_request th' = th_request th -> (forall t', t' <> t -> chs !! t' = channels (hub s) !! t') ->
  local (Some (th_phase th')) (chs !! t) [] (logged t (answers s)) ->
  hinv (mkSys (set_channels chs (forget (th_id th) (hub s))) (<[t := th']> (threads s)) sh (answers s)).
Proof.
  intros Hi Ht Hph Hph' Hreq Hchs Hloc. apply (hinv_put s _ t th th'); try done.
  - intros w Hw. left. cbn in Hw. apply list_elem_of_In, List.filter_In in Hw as [Hw _]. by apply list_elem_of_In.
  - intros t' Hne. split; [by apply Hchs|]. cbn [hub_pending set_channels].
    rewrite (entries_forget s t th t') by done. by destruct (Nat.eqb_spec t' t).
  - cbn [hub_pending set_channels channels]. rewrite (entries_forget s t th t) by done. by rewrite Nat.eqb_refl.
Qed.

(** Reading from the channel, or giving it back. *)
Lemma hinv_channel s t th th' o sh :
  hinv s -> threads s !! t = Some th -> th_phase th <> Fetch -> th_phase th' <> Fetch ->
  th_request th' = th_request th ->
  local (Some (th_phase th')) (Some o) (entries t (hub_pending (hub s))) (logged t (answers s)) ->
  hinv (mkSys (set_channels (<[t := o]> (channels (hub s))) (hub s)) (<[t := th']> (threads s)) sh (answers s)).
Proof.
  intros Hi Ht Hph Hph' Hreq Hloc. apply (hinv_put s _ t th th'); try done.
  - by left.
  - intros t' Hne. cbn [channels set_channels hub_pending]. by rewrite lookup_insert_ne.
  - cbn [channels set_channels hub_pending]. by rewrite lookup_insert_eq.
Qed.

Lemma hinv_fetch s t th sh : hinv s -> threads s !! t = Some th -> th_phase th = Fetch ->
  (next_id (hub s) + 1 < 18446744073709551616)%N ->
  hinv (mkSys (mkHub (hub_pending (hub s)) (notify (hub s)) ((next_id (hub s) + 1) mod 18446744073709551616)
                     (<[t := None]> (channels (hub s))))
          (<[t := mkThread (with_id (th_request th) (approval_id (next_id (hub s)))) Push]> (threads s)) sh (answers s)).
Proof.
  intros Hi Ht Hph Hlt. rewrite N.mod_small by done.
  pose proof (hinv_local s t th Hi Ht) as Hl. rewrite Hph in Hl. destruct Hl as (_ & He & Hlg).
  assert (forall t0 th0, t0 <> t -> threads s !! t0 = Some th0 -> th_phase th0 <> Fetch ->
    th_id th0 <> approval_id (next_id (hub s))) as Hnew.
  { intros t0 th0 Hne H0 Hf0 Hid. destruct (hi_named s Hi _ _ H0 Hf0) as (n & Hn & Hid').
    rewrite Hid in Hid'. apply approval_id_inj in Hid'. lia. }
  split; cbn [hub threads answers hub_pending channels next_id].
  - intros t0. rewrite phase_insert. destruct (Nat.eqb_spec t0 t) as [->|Hne].
    + rewrite lookup_insert_eq, He, Hlg. by split_and!.
    + rewrite lookup_insert_ne by done. apply (hi_local s Hi).
  - intros w Hw. destruct (hi_request s Hi w Hw) as (th0 & H0 & Hr0). exists th0.
    destruct (entry_phase s w Hi Hw) as [_ Hf]. rewrite lookup_insert_ne; [done|]. intros Heq.
    apply Hf. unfold phase_of. rewrite <- Heq, Ht. cbn. by rewrite Hph.
  - intros t0 th0 [[<- <-]|[Hne H0]]%lookup_insert_Some Hf.
    + exists (next_id (hub s)). split; [lia|done].
    + destruct (hi_named s Hi _ _ H0 Hf) as (n & ? & ?). exists n. split; [lia|done].
  - intros t0 t1 th0 th1 [[<- <-]|[Hn0 H0]]%lookup_insert_Some [[<- <-]|[Hn1 H1]]%lookup_insert_Some F0 F1 Hid.
    + done.
    + by destruct (Hnew t1 th1).
    + by destruct (Hnew t0 th0).
    + by apply (hi_unique s Hi _ _ th0 th1).
Qed.

Lemma hinv_push s t th sh : hinv s -> threads s !! t = Some th -> th_phase th = Push ->
  hinv (mkSys (set_pending (hub_pending (hub s) ++ [mkWaiting (th_request th) t false]) (hub s))
          (<[t := at_phase th (First WantLock)]> (threads s)) sh (answers s)).
Proof.
  intros Hi Ht Hph. pose proof (hinv_local s t th Hi Ht) as Hl. rewrite Hph in Hl. destruct Hl as (Hc & He & Hlg).
  apply (hinv_put s _ t th); try done; [by rewrite Hph|..].
  - cbn. intros w [Hw|Hw%list_elem_of_singleton]%elem_of_app; [by left|right]. by subst w.
  - intros t' Hne. split; [done|]. cbn [set_pending hub_pending].
    rewrite entries_app, entries_cons. cbn [wt_answer]. destruct (Nat.eqb_spec t t'); [done|]. by rewrite app_nil_r.
  - cbn [set_pending hub_pending th_phase at_phase channels].
    rewrite entries_app, entries_cons, He, Hlg, Hc. cbn [wt_answer]. rewrite Nat.eqb_refl.
    exists None. split_and!; [done|done|by left].
Qed.

Lemma advance_inv m t s s' : hinv s ->
  (forall th, threads s !! t = Some th -> th_phase th = Fetch -> (next_id (hub s) + 1 < 18446744073709551616)%N) ->
  advance m t s = Some s' -> hinv s'.
Proof.
  intros Hi Hid Hs. unfold advance in Hs. apply bind_Some in Hs as (th & Ht & Hs). specialize (Hid th Ht).
  pose proof (hinv_local s t th Hi Ht) as Hl.
  destruct (th_phase th) as [| |p| |o| |o p|o| |o|] eqn:Hph.
  - destruct m; [|done|done]. injection Hs as <-. apply (hinv_fetch s t th); auto.
  - destruct m; [|done|done]. injection Hs as <-. by apply (hinv_push s t th).
  - eapply advance_publish_inv; [..|exact Hs]; try done. apply local_first.
  - destruct m; [| |done]; destruct (channels (hub s) !! t) as [[a|]|] eqn:Hc; try done; injection Hs as <-.
    + apply (hinv_channel s t th); try done; [by rewrite Hph|]. cbn.
      destruct Hl as (c & [= <-] & Hlg & Hes). cbn in Hlg, Hes. rewrite Hlg. split_and!; [done|naive_solver|done].
    + apply (hinv_move s t th); try done; [by rewrite Hph|]. by rewrite Hph.
  - destruct m; [|done|done]. injection Hs as <-.
    apply (hinv_forget s t th _ (channels (hub s))); try done; [by rewrite Hph|by destruct o|].
    destruct o as [a|]; cbn in *.
    + destruct Hl as (Hc & _ & Hlg). by split_and!.
    + destruct Hl as (c & Hc & Hlg & _). split; [done|]. by exists c.
  - destruct m; [|done|done]. injection Hs as <-. apply (hinv_channel s t th); try done; [by rewrite Hph|].
    destruct Hl as (He & c & Hc & Hlg). cbn. rewrite Hc, Hlg. by split_and!.
  - eapply (advance_publish_inv _ _ _ _ p (Second o)); [..|exact Hs]; try done. apply local_second.
  - destruct m; [|done|done]. injection Hs as <-. destruct Hl as (_ & _ & Hlg). unfold put, leave.
    apply (hinv_forget s t th _ (delete t (channels (hub s)))); try done; [by rewrite Hph|..].
    + intros t' Hne. by rewrite lookup_delete_ne.
    + cbn. by rewrite lookup_delete_eq.
  - destruct m; [|done|done]. injection Hs as <-. unfold put, leave.
    apply (hinv_forget s t th _ (delete t (channels (hub s)))); try done; [by rewrite Hph|..].
    + intros t' Hne. by rewrite lookup_delete_ne.
    + cbn. rewrite lookup_delete_eq. split_and!; [done|done|].
      destruct Hl as [(c & _ & -> & _)|(_ & _ & ?)]; [by destruct c; simpl; lia|done].
  - by destruct m.
  - by destruct m.
Qed.

(** ** The window's answers *)

Lemma mark_answered_spec id l c l' : mark_answered id l = Some (c, l') ->
  exists l1 w l2, l = l1 ++ w :: l2 /\ wt_answer w = c /\ pr_id (wt_request w) = id /\ answered w = false
    /\ l' = l1 ++ mkWaiting (wt_request w) c true :: l2.
Proof.
  revert l'. induction l as [|w l IH]; intros l' Hm; [done|]. cbn [mark_answered] in Hm.
  destruct (_ && _) eqn:Hg.
  - injection Hm as <- <-. apply andb_true_iff in Hg as [Hid%bool_decide_eq_true_1 Ha%negb_true_iff].
    by exists [], w, l.
  - destruct (mark_answered id l) as [[c0 l0]|]; [|done]. injection Hm as <- <-.
    destruct (IH l0 eq_refl) as (l1 & w' & l2 & -> & Hc & Hid & Ha & ->). by exists (w :: l1), w', l2.
Qed.

(** Only the channels, the entries and the log changed, in a way each thread admits. *)
Lemma hinv_answers s h an : hinv s -> next_id h = next_id (hub s) ->
  (forall w, w ∈ hub_pending h -> exists w', w' ∈ hub_pending (hub s) /\ wt_answer w' = wt_answer w
                                   /\ wt_request w' = wt_request w) ->
  (forall t, local (phase_of s t) (channels h !! t) (entries t (hub_pending h)) (logged t an)) ->
  hinv (mkSys h (threads s) (shown s) an).
Proof.
  intros Hi Hn Hw Hl. split; cbn [hub threads answers]; [done| |rewrite Hn|]; try apply Hi.
  intros w Hin. destruct (Hw w Hin) as (w' & Hin' & <- & <-). by apply Hi.
Qed.

(** An answer is accepted for a request that has none. *)
Lemma local_answer ph ch lg a : local ph ch [false] lg ->
  ch = Some None /\ lg = [] /\ local ph (Some (Some a)) [true] [a] /\ local ph (Some (Some a)) [] [a].
Proof.
  assert (forall ch lg, awaiting ch [false] lg -> ch = Some None /\ lg = []) as Haw.
  { intros ch0 lg0 (c & -> & -> & [Hc|[? _]]); [|done]. destruct c; [done|by split]. }
  assert (awaiting (Some (Some a)) [true] [a] /\ awaiting (Some (Some a)) [] [a]) as [H1 H2]
    by (split; exists (Some a); auto).
  unfold local. intros Hl. repeat case_match; try naive_solver.
Qed.

Lemma logged_one t c a : logged t [(c, a)] = if (c =? t)%nat then [a] else [].
Proof. unfold logged. cbn. by destruct (_ =? _)%nat. Qed.

(** The answer is accepted exactly if the list has the request without an answer. *)
Lemma resolve_spec s id a : hinv s ->
  hinv (resolve_sys id a s).1
  /\ ((resolve_sys id a s).2 = Ok tt <-> exists w, w ∈ hub_pending (hub s) /\ pr_id (wt_request w) = id /\ answered w = false)
  /\ ((resolve_sys id a s).2 = Ok tt ->
        exists w, w ∈ hub_pending (hub s) /\ pr_id (wt_request w) = id
          /\ answers (resolve_sys id a s).1 = answers s ++ [(wt_answer w, a)])
  /\ ((resolve_sys id a s).2 <> Ok tt -> (resolve_sys id a s).1 = s).
Proof.
  intros Hi. unfold resolve_sys, resolve. destruct (mark_answered id (hub_pending (hub s))) as [[c l']|] eqn:Hm.
  - apply mark_answered_spec in Hm as (l1 & w & l2 & Hl & <- & Hid & Ha & ->).
    assert (w ∈ hub_pending (hub s)) as Hw by (rewrite Hl; set_solver).
    destruct (entry_phase s w Hi Hw) as [He _]. pose proof (hi_local s Hi (wt_answer w)) as Hloc.
    rewrite He, Ha in Hloc. apply (local_answer _ _ _ a) in Hloc as (Hc & Hlg & Hnew & _).
    unfold try_send. rewrite Hc. cbn [fst snd]. split_and!; [|naive_solver|naive_solver|done].
    apply hinv_answers; [done|done|..]; cbn [set_channels set_pending hub_pending channels].
    + rewrite Hl. intros w' [Hw'|[->|Hw']%elem_of_cons]%elem_of_app; [exists w'; set_solver|exists w; set_solver|exists w'; set_solver].
    + intros t. rewrite logged_app, logged_one. destruct (Nat.eqb_spec (wt_answer w) t) as [<-|Hne].
      * rewrite lookup_insert_eq, Hlg. rewrite Hl, entries_app, entries_cons, Nat.eqb_refl, Ha in He.
        rewrite entries_app, entries_cons. cbn [wt_answer answered]. rewrite Nat.eqb_refl.
        destruct (entries (wt_answer w) l1) as [|b [|]]; try done. cbn in He. by injection He as ->.
      * rewrite lookup_insert_ne, app_nil_r, !entries_app, entries_cons by done. cbn [wt_answer].
        destruct (Nat.eqb_spec (wt_answer w) t) as [?|_]; [done|]. pose proof (hi_local s Hi t) as Ht.
        rewrite Hl, entries_app, entries_cons in Ht. by destruct (Nat.eqb_spec (wt_answer w) t).
  - cbn [fst snd]. rewrite app_nil_r. split_and!; [by destruct s|split; [done|]|done|by destruct s].
    intros (w & Hw & Hid & Ha). exfalso. revert Hw Hm. induction (hub_pending (hub s)) as [|w' l IH]; [set_solver|].
    cbn [mark_answered]. intros [<-|Hw]%elem_of_cons.
    + by rewrite Ha, bool_decide_eq_true_2.
    + destruct (_ && _); [done|]. destruct (mark_answered id l) as [[]|] eqn:E; [done|]. by apply IH.
Qed.

Lemma deny_channels t l : forall chs,
  fold_left (fun chs w => (try_send (wt_answer w) default_answer chs).1) l chs !! t
  = match entries t l with
    | [] => chs !! t
    | _ => match chs !! t with Some None => Some (Some default_answer) | o => o end
    end.
Proof.
  induction l as [|w l IH]; intros chs; [done|]. cbn [fold_left]. rewrite IH, entries_cons. unfold try_send.
  destruct (Nat.eqb_spec (wt_answer w) t) as [->|Hne].
  - destruct (chs !! t) as [[a|]|] eqn:Hc; cbn [fst]; rewrite ?lookup_insert_eq, ?Hc; by destruct (entries t l).
  - destruct (chs !! wt_answer w) as [[a|]|]; cbn [fst]; rewrite ?lookup_insert_ne by done; done.
Qed.

Lemma deny_logged t l :
  logged t (map (fun w => (wt_answer w, default_answer)) (List.filter (fun w => negb (answered w)) l))
  = map (fun _ => default_answer) (List.filter negb (entries t l)).
Proof.
  induction l as [|w l IH]; [done|]. cbn [List.filter]. rewrite entries_cons. unfold logged in *.
  destruct (answered w) eqn:Ha; cbn; destruct (Nat.eqb_spec (wt_answer w) t); cbn; rewrite ?Ha; cbn; congruence.
Qed.

Lemma deny_inv s : hinv s -> hinv (deny_all_sys s).
Proof.
  intros Hi. apply hinv_answers; [done|done|set_solver|]. intros t. cbn [deny_all set_channels set_pending hub_pending channels].
  rewrite logged_app, deny_logged, deny_channels. pose proof (hi_local s Hi t) as Hl.
  destruct (local_entries _ _ _ _ Hl) as [He|(He & _)].
  - rewrite He in *. cbn. by rewrite app_nil_r.
  - destruct (entries t (hub_pending (hub s))) as [|b [|]]; try done. destruct b; cbn.
    + rewrite app_nil_r. change (entries t []) with (@nil bool). clear He.
      assert (forall ch lg, awaiting ch [true] lg -> awaiting (match ch with Some None => Some (Some default_answer) | o => o end) [] lg) as Haw.
      { intros ch lg (c & -> & -> & [Hc|[? _]]); [|done]. destruct c; [|done]. eexists (Some _). auto. }
      assert (forall ch : option (option AgentApprovalAnswer), is_Some ch ->
        is_Some (match ch with Some None => Some (Some default_answer) | o => o end)) as His by (by intros ? [[] ->]).
      unfold local in *. repeat case_match; naive_solver.
    + apply (local_answer _ _ _ default_answer) in Hl as (-> & -> & _ & Hl). exact Hl.
Qed.

Lemma start_inv t r s : hinv s -> threads s !! t = None -> hinv (start t r s).
Proof.
  intros Hi Ht. assert (forall t0 th0, <[t := mkThread r Fetch]> (threads s) !! t0 = Some th0 -> th_phase th0 <> Fetch ->
    threads s !! t0 = Some th0) as Hback by (intros t0 th0 [[<- <-]|[_ ?]]%lookup_insert_Some; done).
  split; unfold start; cbn [hub threads answers].
  - intros t0. rewrite phase_insert. destruct (Nat.eqb_spec t0 t) as [->|]; [|apply (hi_local s Hi)].
    pose proof (hi_local s Hi t) as Hl. unfold phase_of in Hl. by rewrite Ht in Hl.
  - intros w Hw. destruct (hi_request s Hi w Hw) as (th & Hth & ?). exists th. rewrite lookup_insert_ne; [done|congruence].
  - intros t0 th0 H0 Hf. by apply (hi_named s Hi t0), Hf; apply Hback.
  - intros t0 t1 th0 th1 H0 H1 F0 F1. apply (hi_unique s Hi); auto.
Qed.

(** ** The counter *)

Definition has_id (p : Phase) : bool := match p with Fetch => false | _ => true end.
Lemma has_id_spec p : has_id p = true <-> p <> Fetch.
Proof. by destruct p. Qed.

Abbreviation named := (filter (fun e => has_id (th_phase e.2) = true)).

Record counted (s : Sys) : Prop := mkCounted {
  ct_next : next_id (hub s) = N.of_nat (size (named (threads s)));
  ct_few : (N.of_nat (size (threads s)) <= u64_max)%N
}.

Lemma named_insert (m : gmap nat Thread) t th : th_phase th <> Fetch -> named (<[t := th]> m) = <[t := th]> (named m).
Proof. intros. rewrite map_filter_insert_True; [done|]. by apply has_id_spec. Qed.

Lemma named_le (m : gmap nat Thread) : (size (named m) <= size m)%nat.
Proof. apply map_subseteq_size, map_filter_subseteq. Qed.

Lemma counted_room s t th : counted s -> threads s !! t = Some th -> th_phase th = Fetch ->
  (next_id (hub s) + 1 < 18446744073709551616)%N.
Proof.
  intros [Hn Hf] Ht Hph. set (th' := mkThread (th_request th) Push).
  assert (size (named (<[t := th']> (threads s))) = S (size (named (threads s)))) as Hs.
  { rewrite named_insert by done. apply map_size_insert_None. apply map_lookup_filter_None. right.
    intros x Hx. rewrite Ht in Hx. injection Hx as <-. cbn. by rewrite Hph. }
  pose proof (named_le (<[t := th']> (threads s))) as Hle. rewrite Hs in Hle.
  rewrite map_size_insert_Some in Hle by (by rewrite Ht). unfold u64_max in Hf. lia.
Qed.

(** What a step of a thread does to the threads and the counter. *)
Lemma advance_threads m t s s' : advance m t s = Some s' ->
  exists th th', threads s !! t = Some th /\ threads s' = <[t := th']> (threads s) /\ th_phase th' <> Fetch
    /\ next_id (hub s') = (if has_id (th_phase th) then next_id (hub s)
                           else (next_id (hub s) + 1) mod 18446744073709551616)%N
    /\ answers s' = answers s.
Proof.
  unfold advance, advance_publish, put, leave. intros Hs. apply bind_Some in Hs as (th & Ht & Hs). exists th.
  repeat case_match; simplify_eq; eexists; (split; [done|]; split; [reflexivity|]); done.
Qed.

Lemma advance_counted m t s s' : counted s -> advance m t s = Some s' -> counted s'.
Proof.
  intros Hc Hs. pose proof Hc as [Hn Hf]. destruct (advance_threads _ _ _ _ Hs) as (th & th' & Ht & Hts & Hph & Hid & _).
  split; [|rewrite Hts, map_size_insert_Some by (by rewrite Ht); done].
  rewrite Hid, Hts, named_insert by done. destruct (has_id (th_phase th)) eqn:Hfe; cycle 1.
  - assert (th_phase th = Fetch) as Hfetch by by destruct (th_phase th).
    rewrite N.mod_small by by apply (counted_room s t th).
    rewrite map_size_insert_None; [lia|]. apply map_lookup_filter_None. right.
    intros x Hx. rewrite Ht in Hx. injection Hx as <-. cbn. rewrite Hfe. done.
  - rewrite map_size_insert_Some; [done|]. exists th. apply map_lookup_filter_Some. by split.
Qed.

(** ** What the window was shown last *)

Definition holds (p : Phase) : bool :=
  match p with First (Locked | Snapshot _) | Second _ (Locked | Snapshot _) => true | _ => false end.
Definition taken (p : Phase) : option (list AgentApprovalRequest) :=
  match p with First (Snapshot l) | Second _ (Snapshot l) => Some l | _ => None end.

(** The thread will still tell the window that its request is gone, or it died. *)
Definition will_lock (p : Phase) : bool :=
  match p with
  | First _ | Recv | Forget _ | TryRecv | Second _ WantLock | Unwind | Dead => true
  | _ => false
  end.
Definition will_show (p : Phase) : bool := will_lock p || match p with Second _ _ => true | _ => false end.

Definition shown_by (s : Sys) (P : Phase -> bool) (r : AgentApprovalRequest) : Prop :=
  exists t th, threads s !! t = Some th /\ th_request th = r /\ P (th_phase th) = true.

Record winv (s : Sys) : Prop := mkWinv {
  wi_lock : forall t, notify (hub s) = Some t <-> exists th, threads s !! t = Some th /\ holds (th_phase th) = true;
  wi_last : forall l r, last (shown s) = Some l -> r ∈ l -> shown_by s will_show r;
  wi_taken : forall t th l r, threads s !! t = Some th -> taken (th_phase th) = Some l -> r ∈ l -> shown_by s will_lock r
}.

Lemma taken_holds p l : taken p = Some l -> holds p = true.
Proof. by destruct p as [| |[]| | | |? []| | | |]. Qed.

Lemma shown_by_insert s h t th th' sh an (P : Phase -> bool) r :
  threads s !! t = Some th -> (P (th_phase th) = true -> P (th_phase th') = true /\ th_request th' = th_request th) ->
  shown_by s P r -> shown_by (mkSys h (<[t := th']> (threads s)) sh an) P r.
Proof.
  intros Ht HP (t0 & th0 & H0 & Hr & Hp). destruct (decide (t0 = t)) as [->|Hne].
  - rewrite Ht in H0. injection H0 as <-. destruct (HP Hp) as [? Hreq]. exists t, th'. cbn [threads].
    rewrite lookup_insert_eq. split_and!; [done|congruence|done].
  - exists t0, th0. cbn [threads]. by rewrite lookup_insert_ne.
Qed.

(** A step of a thread that neither takes nor gives back the lock. *)
Lemma winv_move s h t th th' an : winv s -> threads s !! t = Some th -> notify h = notify (hub s) ->
  holds (th_phase th') = holds (th_phase th) ->
  (will_lock (th_phase th) = true -> will_lock (th_phase th') = true) ->
  (will_show (th_phase th) = true -> will_show (th_phase th') = true) ->
  (th_request th' = th_request th \/ will_show (th_phase th) = false) ->
  (forall l r, taken (th_phase th') = Some l -> r ∈ l -> shown_by s will_lock r) ->
  winv (mkSys h (<[t := th']> (threads s)) (shown s) an).
Proof.
  intros [Hl Hlast Htk] Ht Hn Hh Hwl Hws Hreq Hnew.
  assert (forall r, shown_by s will_lock r -> shown_by (mkSys h (<[t := th']> (threads s)) (shown s) an) will_lock r) as Hk1.
  { intros r. apply (shown_by_insert _ _ _ th); [done|]. intros Hp. split; [auto|]. destruct Hreq as [|Hno]; [done|].
    unfold will_show in Hno. by rewrite Hp in Hno. }
  split; cbn [hub threads shown].
  - intros t0. rewrite Hn, Hl. destruct (decide (t0 = t)) as [->|Hne].
    + rewrite lookup_insert_eq. split; intros (th0 & H0 & Hh0); simplify_eq; eexists; (split; [done|]); congruence.
    + by rewrite lookup_insert_ne.
  - intros l r Hls Hr. apply (shown_by_insert _ _ _ th); [done| |by eapply Hlast]. intros Hp. split; [auto|].
    destruct Hreq as [|Hno]; [done|congruence].
  - intros t0 th0 l r [[<- <-]|[_ H0]]%lookup_insert_Some Htk0 Hr; apply Hk1; eauto.
Qed.

(** Taking the lock. *)
Lemma winv_lock s t th th' an : winv s -> threads s !! t = Some th -> notify (hub s) = None ->
  th_request th' = th_request th -> holds (th_phase th') = true -> taken (th_phase th') = None ->
  (will_show (th_phase th) = true -> will_show (th_phase th') = true) ->
  winv (mkSys (set_notify (Some t) (hub s)) (<[t := th']> (threads s)) (shown s) an).
Proof.
  intros [Hl Hlast Htk] Ht Hn Hreq Hh Htk' Hws. split; cbn [hub threads shown].
  - intros t0. cbn. split.
    + intros [= <-]. exists th'. by rewrite lookup_insert_eq.
    + intros (th0 & [[<- _]|[_ H0]]%lookup_insert_Some & Hh0); [done|].
      assert (notify (hub s) = Some t0) by (apply Hl; by exists th0). congruence.
  - intros l r Hls Hr. apply (shown_by_insert _ _ _ th); [by auto|by auto|by eapply Hlast].
  - intros t0 th0 l r [[<- <-]|[_ H0]]%lookup_insert_Some Htk0 Hr; [congruence|].
    assert (notify (hub s) = Some t0) by (apply Hl; exists th0; eauto using taken_holds). congruence.
Qed.

(** Giving the lock back, with or without having called [changed]. *)
Lemma winv_unlock s t th th' an l sh : winv s -> threads s !! t = Some th ->
  taken (th_phase th) = Some l -> th_request th' = th_request th -> holds (th_phase th') = false ->
  (will_lock (th_phase th) = true -> will_lock (th_phase th') = true) ->
  (sh = shown s ++ [l] \/ (sh = shown s /\ (will_show (th_phase th) = true -> will_show (th_phase th') = true))) ->
  winv (mkSys (set_notify None (hub s)) (<[t := th']> (threads s)) sh an).
Proof.
  intros [Hl Hlast Htk] Ht Htaken Hreq Hh Hwl Hsh.
  assert (notify (hub s) = Some t) as Hn by (apply Hl; exists th; eauto using taken_holds).
  split; cbn [hub threads shown].
  - intros t0. cbn. split; [done|]. intros (th0 & [[_ <-]|[Hne H0]]%lookup_insert_Some & Hh0); [congruence|].
    assert (notify (hub s) = Some t0) by (apply Hl; by exists th0). congruence.
  - intros l0 r Hls Hr. destruct Hsh as [->|[-> Hws]].
    + rewrite last_snoc in Hls. injection Hls as <-. destruct (Htk t th l r Ht Htaken Hr) as (t1 & th1 & H1 & Hr1 & Hp1).
      assert (shown_by s will_lock r) as Hs by by exists t1, th1.
      destruct (shown_by_insert s (set_notify None (hub s)) t th th' (shown s ++ [l]) an _ _ Ht (fun H => conj (Hwl H) Hreq) Hs)
        as (t2 & th2 & ? & ? & Hp). exists t2, th2. split_and!; [done|done|]. unfold will_show. by rewrite Hp.
    + apply (shown_by_insert _ _ _ th); [done|by auto|by eapply Hlast].
  - intros t0 th0 l0 r [[<- <-]|[Hne H0]]%lookup_insert_Some Htk0 Hr.
    + apply taken_holds in Htk0. congruence.
    + assert (notify (hub s) = Some t0) by (apply Hl; exists th0; eauto using taken_holds). congruence.
Qed.

(** What is on the list belongs to threads that will lock again. *)
Lemma pending_shown s r : hinv s -> r ∈ pending (hub s) -> shown_by s will_lock r.
Proof.
  intros Hi Hr. unfold pending in Hr. apply list_elem_of_In, in_map_iff in Hr as (w & <- & Hw).
  apply List.filter_In in Hw as [Hw Ha]. apply list_elem_of_In in Hw. apply negb_true_iff in Ha.
  destruct (entry_phase s w Hi Hw) as [He _]. destruct (hi_request s Hi w Hw) as (th & Ht & Hreq).
  pose proof (hinv_local s _ th Hi Ht) as Hl. rewrite He, Ha in Hl. exists (wt_answer w), th. split_and!; [done|done|].
  destruct (th_phase th) as [| |[]| |[]| |? []| | | |]; try done; cbn in Hl; naive_solver.
Qed.

Lemma publish_winv m t th s p at_ after s' :
  hinv s -> winv s -> threads s !! t = Some th -> th_phase th = at_ p ->
  (forall l, taken (at_ (Snapshot l)) = Some l) -> (forall p, holds (at_ p) = true <-> p <> WantLock) ->
  (forall p, taken (at_ p) <> None -> exists l, p = Snapshot l) ->
  holds after = false -> (forall p, will_show (at_ p) = true) ->
  (forall l, will_lock (at_ (Snapshot l)) = will_lock (at_ Locked)) ->
  (forall l, will_lock (at_ (Snapshot l)) = true -> will_lock after = true) ->
  advance_publish m t th s p at_ after = Some s' -> winv s'.
Proof.
  intros Hi Hw Ht Hph Htk Hh Hnt Hha Hws Hwl Hwa Hs. unfold advance_publish, put in Hs.
  destruct p as [| |l].
  - destruct m; [|done|done]. destruct (notify (hub s)) eqn:Hn; [done|]. injection Hs as <-.
    apply (winv_lock s t th); try done; cbn [th_phase at_phase].
    + by apply Hh.
    + destruct (taken (at_ Locked)) eqn:E; [|done]. destruct (Hnt Locked) as [l0 [=]]. by rewrite E.
    + auto.
  - destruct m; [|done|done]. injection Hs as <-. apply (winv_move s _ t th); try done; cbn [th_phase at_phase]; rewrite ?Hph; try done.
    + rewrite (proj2 (Hh Locked)), (proj2 (Hh (Snapshot _))); done.
    + by rewrite Hwl.
    + by left.
    + intros l r. rewrite Htk. intros [= <-] Hr. by apply pending_shown.
  - destruct m; [|done|]; injection Hs as <-.
    + apply (winv_unlock s t th _ _ l); try done; cbn [th_phase at_phase]; rewrite ?Hph; eauto.
    + apply (winv_unlock s t th _ _ l); try done; cbn [th_phase at_phase]; rewrite ?Hph; eauto.
Qed.

Lemma advance_winv m t s s' : hinv s -> winv s -> advance m t s = Some s' -> winv s'.
Proof.
  intros Hi Hw Hs. unfold advance in Hs. apply bind_Some in Hs as (th & Ht & Hs).
  destruct (th_phase th) as [| |p| |o| |o p|o| |o|] eqn:Hph.
  3: { eapply (publish_winv _ _ _ _ p First); [..|exact Hs]; try done; try (by intros []); intros []; try done; by eexists. }
  6: { eapply (publish_winv _ _ _ _ p (Second o)); [..|exact Hs]; try done; try (by intros []); intros []; try done; by eexists. }
  all: repeat case_match; simplify_eq; unfold put, leave;
    apply (winv_move s _ t th); try done; cbn [th_phase at_phase th_request]; rewrite ?Hph; try done; try (by left); by right.
Qed.

(** Answering changes the list, the channels and the log only. *)
Lemma resolve_frame s id a : let s' := (resolve_sys id a s).1 in
  notify (hub s') = notify (hub s) /\ next_id (hub s') = next_id (hub s) /\ threads s' = threads s /\ shown s' = shown s.
Proof.
  unfold resolve_sys, resolve. destruct (mark_answered _ _) as [[c l]|]; [|done].
  by destruct (try_send c a (channels (hub s))) as [chs []].
Qed.

Lemma winv_frame s s' : notify (hub s') = notify (hub s) -> threads s' = threads s -> shown s' = shown s ->
  winv s -> winv s'.
Proof.
  intros Hn Ht Hs [Hl Hlast Htk]. unfold shown_by in *. split; unfold shown_by; rewrite ?Hn, ?Ht, ?Hs; done.
Qed.

Lemma start_winv t r s : winv s -> threads s !! t = None -> winv (start t r s).
Proof.
  intros [Hl Hlast Htk] Ht.
  assert (forall (P : Phase -> bool) r0, shown_by s P r0 -> shown_by (start t r s) P r0) as Hk.
  { intros P r0 (t0 & th0 & H0 & ? & ?). exists t0, th0. unfold start. cbn [threads].
    rewrite lookup_insert_ne by congruence. done. }
  split; unfold start; cbn [hub threads shown].
  - intros t0. rewrite Hl. destruct (decide (t0 = t)) as [->|Hne].
    + rewrite lookup_insert_eq, Ht. split; intros (th & H0 & Hh); [done|]. injection H0 as <-. done.
    + by rewrite lookup_insert_ne.
  - intros l r0 ? ?. by eapply Hk, Hlast.
  - intros t0 th0 l r0 [[<- <-]|[_ H0]]%lookup_insert_Some Htk0 Hr; [done|]. by eapply Hk, Htk.
Qed.

Record hub_inv (s : Sys) : Prop := mkHubInv { hb_inv : hinv s; hb_count : counted s; hb_win : winv s }.

Lemma hub_inv_advance m t s s' : hub_inv s -> advance m t s = Some s' -> hub_inv s'.
Proof.
  intros [Hi Hc Hw] Hs. split.
  - eapply advance_inv; [done| |done]. intros. by eapply counted_room.
  - by eapply advance_counted.
  - by eapply advance_winv.
Qed.

Lemma hub_inv_step s s' : hub_inv s -> hub_step s s' -> hub_inv s'.
Proof.
  intros Hv Hs. destruct Hs as [t r s Ht Hfew|m t s s' Hs|id a s|s]; [|by eapply hub_inv_advance|..]; destruct Hv as [Hi Hc Hw].
  - split; [by apply start_inv| |by apply start_winv]. destruct Hc as [Hn _]. split; unfold start; cbn [hub threads].
    + rewrite map_filter_insert_False by done. by rewrite delete_id.
    + rewrite map_size_insert_None by done. lia.
  - destruct (resolve_frame s id a) as (Hn & Hid & Ht & Hs).
    split; [by apply resolve_spec| |by apply (winv_frame s)]. destruct Hc. split; by rewrite ?Hid, ?Ht.
  - split; [by apply deny_inv|by destruct Hc; split|by apply (winv_frame s)].
Qed.

Lemma hub_inv_init : hub_inv init.
Proof.
  split; split; try done.
  - intros w Hw. by apply not_elem_of_nil in Hw.
  - intros t. split; [done|]. by intros (th & ? & _).
Qed.

Lemma reachable_hub_inv s : hub_reachable s -> hub_inv s.
Proof.
  intros Hr. pose proof hub_inv_init as Hi. unfold hub_reachable in Hr. revert Hi.
  generalize dependent init. intros s0 Hr. induction Hr as [|s1 s2 s3 Hs _ IH]; [done|].
  intros Hi. apply IH. by eapply hub_inv_step.
Qed.

(** C23. Every question gets its own answer, whatever the order in which threads
    ask, time out and leave and the window answers or is closed: no question is
    answered twice; a call of [ask] that returned gives exactly the answer that was
    accepted for its request (also one that arrived in the moment it timed out), and
    none if none was accepted; the request is then off the list; two requests never
    have the same identifier; and [resolve] succeeds exactly for a request that is
    on the list without an answer. *)
Theorem hub_delivers_answers (s : Sys) : hub_reachable s ->
  (forall t, (length (logged t (answers s)) <= 1)%nat)
  /\ (forall t th o, threads s !! t = Some th -> th_phase th = Done o ->
        (forall a, o = Some a <-> (t, a) ∈ answers s) /\ (forall w, w ∈ hub_pending (hub s) -> wt_answer w <> t))
  /\ (forall t t' th th', threads s !! t = Some th -> threads s !! t' = Some th' -> th_phase th <> Fetch ->
        th_phase th' <> Fetch -> th_id th = th_id th' -> t = t')
  /\ (forall id a, (resolve_sys id a s).2 = Ok tt <->
        exists w, w ∈ hub_pending (hub s) /\ pr_id (wt_request w) = id /\ answered w = false).
Proof.
  intros Hr. apply reachable_hub_inv in Hr as [Hi _ _]. split_and!; [| |apply Hi|by intros; apply resolve_spec].
  - intros t. pose proof (hi_local s Hi t) as Hl. unfold local, awaiting in Hl.
    assert (forall c : option AgentApprovalAnswer, length (option_list c) <= 1)%nat as Hlen by (by intros []; simpl; lia).
    repeat case_match; destruct_and?; repeat match goal with H : exists _, _ |- _ => destruct H | H : _ /\ _ |- _ => destruct H
      | H : _ \/ _ |- _ => destruct H end; match goal with H : logged _ _ = _ |- _ => rewrite H; simpl; auto | _ => auto end.
  - intros t th o Ht Hph. pose proof (hinv_local s t th Hi Ht) as Hl. rewrite Hph in Hl. destruct Hl as (_ & He & Hlg). split.
    + intros a. transitivity (a ∈ logged t (answers s)).
      * rewrite Hlg. destruct o; simpl; set_solver.
      * unfold logged. rewrite list_elem_of_In, in_map_iff. split.
        -- intros ([t0 a0] & <- & [Hin Heq%Nat.eqb_eq]%List.filter_In). cbn in *. subst t0. by apply list_elem_of_In.
        -- intros Hin%list_elem_of_In. exists (t, a). split; [done|]. apply List.filter_In. split; [done|]. apply Nat.eqb_refl.
    + intros w Hw Heq. destruct (entry_phase s w Hi Hw) as [Hw' _]. rewrite Heq, He in Hw'. done.
Qed.

(** The window is never left open, or reopened, for a request that is gone:
    once every call of [ask] has returned, the last list the window was given is
    empty. *)
Lemma hub_window_closed (s : Sys) (l : list AgentApprovalRequest) :
  hub_reachable s -> (forall t th, threads s !! t = Some th -> exists o, th_phase th = Done o) ->
  last (shown s) = Some l -> l = [].
Proof.
  intros Hr Hdone Hl. apply reachable_hub_inv in Hr as [_ _ Hw]. destruct l as [|r l]; [done|exfalso].
  destruct (wi_last s Hw _ r Hl) as (t & th & Ht & _ & Hp); [left|]. destruct (Hdone t th Ht) as [o Ho]. by rewrite Ho in Hp.
Qed.

(** ** Every call of [ask] ends *)

(** How many steps a thread may still take. *)
Definition publish_work (p : Publish) : nat := match p with WantLock => 3 | Locked => 2 | Snapshot _ => 1 end.
Definition work (p : Phase) : nat :=
  match p with
  | Fetch => 12 | Push => 11 | First p => 7 + publish_work p | Recv => 7 | Forget _ => 6 | TryRecv => 5
  | Second _ p => 1 + publish_work p | Leave _ => 1 | Unwind => 1 | Done _ | Dead => 0
  end.

Definition total (s : Sys) : nat := map_fold (fun _ th n => work (th_phase th) + n) 0 (threads s).

Lemma total_insert (m : gmap nat Thread) t th th' : m !! t = Some th ->
  map_fold (fun _ th n => work (th_phase th) + n) 0 (<[t := th']> m) + work (th_phase th)
  = map_fold (fun _ th n => work (th_phase th) + n) 0 m + work (th_phase th').
Proof.
  intros Ht. rewrite (map_fold_delete_L _ _ t th' (<[t := th']> m)); [|intros; lia|by rewrite lookup_insert_eq].
  rewrite (map_fold_delete_L _ _ t th m); [|intros; lia|done]. rewrite delete_insert_eq. lia.
Qed.

(** A step that is not a panic, so a thread that goes on in the ordinary way or stops
    waiting. *)
Definition goes_on (s s' : Sys) : Prop := exists m t, m <> Panic /\ advance m t s = Some s'.

Lemma advance_work m t s s' : advance m t s = Some s' -> (total s' < total s)%nat.
Proof.
  intros Hs. unfold advance, advance_publish, put, leave in Hs. apply bind_Some in Hs as (th & Ht & Hs). unfold total.
  assert (forall th', (work (th_phase th') < work (th_phase th))%nat ->
    (map_fold (fun _ th n => work (th_phase th) + n) 0 (<[t := th']> (threads s))
     < map_fold (fun _ th n => work (th_phase th) + n) 0 (threads s))%nat) as Hlt.
  { intros th' Hw. pose proof (total_insert (threads s) t th th' Ht). lia. }
  destruct (th_phase th) as [| |[]| |o| |o []|o| |o|]; repeat case_match; simplify_eq; apply Hlt; cbn; lia.
Qed.

(** Unless every call has ended, some thread can go on. *)
Lemma can_go_on s t th : hub_inv s -> threads s !! t = Some th -> (0 < work (th_phase th))%nat -> exists s', goes_on s s'.
Proof.
  intros [Hi _ Hw] Ht Hwork.
  assert (forall t th, threads s !! t = Some th -> holds (th_phase th) = true -> exists s', goes_on s s') as Hholder.
  { intros t0 th0 H0 Hh. enough (exists s', advance Go t0 s = Some s') as [s' Hs] by by exists s', Go, t0.
    unfold advance. rewrite H0. cbn. destruct (th_phase th0) as [| |[]| | | |? []| | | |]; try done; by eexists. }
  destruct (notify (hub s)) as [t0|] eqn:Hn.
  { apply (wi_lock s Hw) in Hn as (th0 & H0 & Hh). eauto. }
  pose proof (hinv_local s t th Hi Ht) as Hl.
  enough (exists m s', m <> Panic /\ advance m t s = Some s') as (m & s' & Hm & Hs) by by exists s', m, t.
  unfold advance. rewrite Ht. cbn. destruct (th_phase th) as [| |[]| |o| |o []|o| |o|]; cbn in Hwork; try lia;
    try (by exists Go; eexists); try (exists Go; cbn; rewrite Hn; by eexists).
  destruct Hl as (c & -> & _ & _). destruct c as [a|]; [exists Go|exists Timeout]; by eexists.
Qed.

(** C24. Every call of [ask] ends: from any state the program can reach, the
    threads can go on, without anybody answering, until every call has returned or
    unwound; they get there whatever order they run in, since every run of them is
    bounded and one that cannot be continued has ended every call. *)
Theorem hub_asks_end (s : Sys) : hub_reachable s ->
  (exists s', rtc goes_on s s' /\ forall t th, threads s' !! t = Some th -> work (th_phase th) = 0)
  /\ (forall n s', nsteps goes_on n s s' -> (n <= total s)%nat)
  /\ (forall s', rtc goes_on s s' -> (forall s'', ~ goes_on s' s'') ->
        forall t th, threads s' !! t = Some th -> work (th_phase th) = 0).
Proof.
  intros Hr. apply reachable_hub_inv in Hr as Hi.
  assert (forall s s', hub_inv s -> rtc goes_on s s' -> hub_inv s') as Hkeep.
  { intros s0 s' Hi0 Hrun. induction Hrun as [|s1 s2 s3 (m & t & _ & Hs) _ IH]; [done|]. by eapply IH, hub_inv_advance. }
  assert (forall s', hub_inv s' -> (forall s'', ~ goes_on s' s'') ->
    forall t th, threads s' !! t = Some th -> work (th_phase th) = 0) as Hstuck.
  { intros s' Hi' Hno t th Ht. destruct (work (th_phase th)) eqn:Hw; [done|].
    destruct (can_go_on s' t th) as [s'' Hs]; [done|done|lia|by destruct (Hno s'')]. }
  split_and!.
  - clear Hr. remember (total s) as k eqn:Hk. revert s Hk Hi. induction (lt_wf k) as [k _ IH]. intros s -> Hi.
    destruct (decide (map_Forall (fun _ th => work (th_phase th) = 0) (threads s))) as [Hall|Hnot].
    { exists s. split; [done|]. intros t th Ht. exact (Hall t th Ht). }
    apply map_not_Forall in Hnot as (t & th & Ht & Hw); [|apply _].
    destruct (can_go_on s t th) as [s1 Hs]; [done|done|lia|].
    destruct Hs as (m & t1 & Hm & Hs). destruct (IH (total s1)) with (s := s1) as (s' & Hrun & Hend); [by eapply advance_work|done| |].
    + by eapply hub_inv_advance.
    + exists s'. split; [|done]. eapply rtc_l; [|done]. by exists m, t1.
  - intros n s' Hn. clear Hr Hi. induction Hn as [|n s1 s2 s3 (m & t & _ & Hs) _ IH]; [lia|].
    apply advance_work in Hs. lia.
  - intros s' Hrun. by apply Hstuck, (Hkeep s).
Qed.
