(* ===== verification/AgentInstances.v ===== *)
(** * AgentInstances: concrete crates and a concrete world for the agent

    Small functions that satisfy the laws the agent's definitions assume of the wire
    format, the key crate and the host, used by the witnesses. *)

From stdpp Require Import gmap.
From S2P Require Import Prelude Text ByteStream AgentProtocol AgentSession VaultMaterial AgentBroker AgentBrokerProps AgentPrompt.

(** ** The wire format *)

Definition is_byte (x : N) : bool := (x <? 256)%N.

Definition toy_decode_u32 (x : list N) : option (N * list N) :=
  match x with
  | a :: b :: c :: d :: rest =>
      if is_byte a && is_byte b && is_byte c && is_byte d then Some (of_be32 [a; b; c; d], rest) else None
  | _ => None
  end.

Definition toy_encode (b : list N) : list N := to_be32 (N.of_nat (length b)) ++ b.
Definition toy_decode (x : list N) : option (list N * list N) :=
  '(n, r) ← toy_decode_u32 x;
  if (n <=? N.of_nat (length r))%N then Some (take (N.to_nat n) r, drop (N.to_nat n) r) else None.

Lemma to_of_be32 a b c d : is_byte a && is_byte b && is_byte c && is_byte d = true ->
  to_be32 (of_be32 [a; b; c; d]) = [a; b; c; d].
Proof.
  unfold is_byte. rewrite !andb_true_iff, !N.ltb_lt. intros [[[Ha Hb] Hc] Hd]. unfold to_be32, of_be32. cbn [foldl].
  repeat f_equal; zify; Z.to_euclidean_division_equations; lia.
Qed.

Lemma toy_u32_spec x n rest : toy_decode_u32 x = Some (n, rest) -> x = to_be32 n ++ rest /\ (n < 4294967296)%N.
Proof.
  destruct x as [|a [|b [|c [|d r]]]]; try done. cbn [toy_decode_u32]. destruct (_ && _) eqn:Hb; [|done].
  intros [= <- <-]. rewrite to_of_be32 by done. split; [done|]. apply of_be32_lt; [done|].
  revert Hb. unfold is_byte. rewrite !andb_true_iff, !N.ltb_lt. naive_solver.
Qed.

Lemma toy_u32_encode n rest : (n < 4294967296)%N -> toy_decode_u32 (to_be32 n ++ rest) = Some (n, rest).
Proof.
  intros Hn. unfold to_be32. cbn [app toy_decode_u32]. unfold is_byte.
  rewrite !(fun x => proj2 (N.ltb_lt (x mod 256) 256) (N.mod_lt x 256 ltac:(done))). cbn [andb].
  f_equal. f_equal. exact (of_to_be32 n Hn).
Qed.

Lemma toy_decode_encode b rest : (N.of_nat (length b) < 4294967296)%N ->
  toy_decode (toy_encode b ++ rest) = Some (b, rest).
Proof.
  intros Hn. unfold toy_decode, toy_encode. rewrite <- app_assoc, toy_u32_encode by done. cbn [mbind option_bind].
  rewrite (proj2 (N.leb_le _ _)) by (rewrite length_app; lia).
  by rewrite Nat2N.id, take_app_length, drop_app_length.
Qed.

Lemma toy_decode_inv x b rest : toy_decode x = Some (b, rest) -> x = toy_encode b ++ rest.
Proof.
  unfold toy_decode, toy_encode. destruct (toy_decode_u32 x) as [[n r]|] eqn:Hu; [|done]. cbn [mbind option_bind].
  apply toy_u32_spec in Hu as [-> Hn]. destruct (N.leb_spec n (N.of_nat (length r))) as [Hle|]; [|done].
  intros [= <- <-]. rewrite length_take_le, N2Nat.id by lia. by rewrite <- !app_assoc, take_drop.
Qed.

Lemma length_utf8 s : (length s <= str_len s)%nat.
Proof.
  unfold str_len. induction s as [|c s IH]; [done|]. cbn [length]. unfold utf8 in *. cbn.
  rewrite length_app. enough (1 <= length (utf8_char c))%nat by lia. unfold utf8_char. by repeat case_match; simpl; lia.
Qed.

#[export] Instance toy_wire : SshWire.
Proof.
  refine {|
    KeyData := N; Signature := N;
    decode_bytes := toy_decode; encode_bytes := toy_encode;
    decode_u32 := toy_decode_u32; encode_u32 := to_be32;
    decode_u8 := fun x => match x with [] => None | b :: r => Some (b, r) end;
    decode_text := toy_decode; encode_text := toy_encode;
    decode_key := fun x => match x with [] => None | b :: r => Some (b, r) end; encode_key := fun k => [k];
    decode_signature := fun x => match x with [] => None | b :: r => Some (b, r) end;
    verifies := fun host sid sig => (sig =? host + N.of_nat (length sid))%N;
    fingerprint := fun k => lit "SHA256:" ++ dec k
  |}; try done.
  - intros b rest Hb. apply toy_decode_encode. revert Hb. unfold MAX_MESSAGE. lia.
  - apply toy_decode_inv.
  - apply toy_u32_encode.
  - intros x n rest Hx. by apply toy_u32_spec in Hx as [-> _].
  - intros x n rest Hx. by apply toy_u32_spec in Hx as [_ ?].
  - intros s rest Hs. apply toy_decode_encode. pose proof (length_utf8 s). revert Hs. unfold MAX_MESSAGE. lia.
  - apply toy_decode_inv.
Defined.

(** ** The key crate

    A private key text is the key, or the key and the character of its passphrase. *)

Definition toy_private (s : str) : option (option N * N) :=
  match s with [k] => Some (None, k) | [k; p] => Some (Some p, k) | _ => None end.

#[export] Instance toy_crate : SshKeyCrate.
Proof.
  refine {|
    crate_wire := toy_wire;
    Cipher := unit; cipher_none := tt; cipher_is_some := fun _ => false;
    decode_cipher := fun x => Some (tt, x); encode_cipher := fun _ => [];
    block_size := fun _ => 8; has_tag := fun _ => false;
    cipher_decrypt := fun _ _ _ x _ => Some x;
    Kdf := unit; kdf_none := tt; kdf_is_some := fun _ => false;
    decode_kdf := fun x => Some (tt, x); encode_kdf := fun _ => [];
    derive_key_and_iv := fun _ _ _ => None;
    base64_decode := fun _ => None;
    PrivateKey := option N * N;
    private_from_openssh := toy_private;
    private_from_bytes := fun _ => None;
    is_encrypted := fun k => is_some k.1;
    cipher_name := fun _ => lit "aes256-ctr";
    private_decrypt := fun k p => if Some p =?= (fun c => [c]) <$> k.1 then Ok (None, k.2) else Err OtherError;
    private_key_data := fun k => k.2;
    public_from_openssh := fun s => match s with [k] => Some k | _ => None end;
    algorithm := fun _ => Ed25519;
    rsa_components := fun _ => None;
    RsaPrivateKey := unit;
    rsa_from_components := fun _ _ _ _ => None;
    rsa_sign := fun _ _ _ => Err [];
    key_sign := fun k data => Ok (k.2 :: data)
  |}.
  done.
Defined.

(** ** The world

    One key with a passphrase; the world counts the times it was asked for the time,
    ten seconds apart, and its user allows everything, to be remembered. *)

Definition toy_key : VaultKey := mkVaultKey (lit "slot") (lit "id_mac") (lit "SHA256:200") [200]%N true.

#[export] Instance toy_host : AgentHost.
Proof.
  refine {|
    World := N;
    h_keys := fun w => (w, [toy_key]);
    h_private_key := fun w slot => (w, Ok (if slot =?= lit "slot" then Some [200; 112]%N else None));
    h_settings := fun w => (w, mkSettings 60 false);
    kc_get := fun w _ => (w, Ok None);
    kc_set := fun w _ _ => (w, Err (AOther []));
    kc_delete := fun w _ => (w, Ok tt);
    h_now_ms := fun w => ((w + 1)%N, (w * 10000)%N);
    h_host_name := fun w _ => (w, None);
    h_ask := fun w r => (w, Some (mkAnswer true true (Some [112%N]) false));
    h_wait := fun w _ => (w, false)
  |}.
Defined.

(** A request of the user for the toy key, for a host. *)
Definition toy_request : SignRequest := mkSignRequest 200%N [1; 2; 3]%N 0%N (Some (lit "root")) (Some 7%N) false.
Definition toy_program : Program := mkProgram [lit "zsh"; lit "ssh"] (lit "/usr/bin/ssh").
Definition toy_start : St := mkSt (0%N : World) new_broker [].

(** The first request asks; the second one is remembered. *)
Definition toy_sign (s : St) : St := (broker_sign toy_request (Some toy_program) None s).1.
Definition toy_later : St := toy_sign toy_start.

Lemma toy_signs s : (broker_sign toy_request (Some toy_program) None s).2 = Some [200; 1; 2; 3]%N ->
  broker_sign toy_request (Some toy_program) None s = (toy_sign s, Some [200; 1; 2; 3]%N).
Proof. intros <-. apply surjective_pairing. Qed.

Lemma toy_first : broker_sign toy_request (Some toy_program) None toy_start = (toy_later, Some [200; 1; 2; 3]%N).
Proof. apply toy_signs. vm_compute. reflexivity. Qed.
Lemma toy_second : broker_sign toy_request (Some toy_program) None toy_later = (toy_sign toy_later, Some [200; 1; 2; 3]%N).
Proof. apply toy_signs. vm_compute. reflexivity. Qed.
Example toy_asked : length (asked toy_later) = 1 /\ length (asked (toy_sign toy_later)) = 1.
Proof. vm_compute. by split. Qed.

(** A connection of an unknown program, without a grant. *)
Definition toy_connection : @SignAuthority (@crate_wire toy_crate) := Connection (C := toy_crate) (H := toy_host) None None.

(** ** The agent's theorems at concrete inputs *)


(** A frame in two pieces, followed by another byte. *)
Definition wit_stream : Reader := [Piece [0; 0; 0]; Piece [2; 7; 8; 9]]%N.

(** A client that asks for the keys and sends nonsense. *)
Definition wit_messages : list (list N) := [[11]; [99]]%N.

Lemma serve_answers_each_witness :
  let r : Reader := [Piece (concat (map frame wit_messages))] in
  let '(s', a', replies) := run (W := @crate_wire toy_crate) (A := toy_connection) new_session toy_start wit_messages in
  serve (W := @crate_wire toy_crate) (A := toy_connection) toy_start r (mkWriter [] None)
  = (Ok tt, (s', a', [], mkWriter ([] ++ concat (map frame replies)) None)).
Proof.
  apply (serve_answers_each (W := @crate_wire toy_crate) (A := toy_connection)); [reflexivity|reflexivity|].
  repeat constructor; done.
Defined.

(** A session is bound by a host that signed its session id; a signed login for that
    session carries the host. *)
Lemma session_host_verified_witness :
  let '(s, _, _) := run (W := @crate_wire toy_crate) (A := toy_connection) new_session toy_start
    [SSH_AGENTC_EXTENSION :: encode_text SESSION_BIND ++ toy_encode [7%N] ++ toy_encode [5]%N ++ toy_encode [8%N] ++ [0%N]] in
  bound s = Some (7, [5])%N.
Proof.
  pose proof (session_host_verified (W := @crate_wire toy_crate) (A := toy_connection)
    [SSH_AGENTC_EXTENSION :: encode_text SESSION_BIND ++ toy_encode [7%N] ++ toy_encode [5]%N ++ toy_encode [8%N] ++ [0%N]] toy_start) as H.
  destruct (run _ _ _) as [[s a] replies]. destruct H as (-> & _). vm_compute. reflexivity.
Defined.

Lemma agent_signs_only_approved_witness :
  broker_sign toy_request (Some toy_program) None toy_start = (toy_later, Some [200; 1; 2; 3]%N)
  /\ exists key settings display new, let a := ask_of toy_request (Some toy_program) key settings display in
    signed toy_request (h_keys (world toy_start)).2 None key [200; 1; 2; 3]%N
    /\ asked toy_later = asked toy_start ++ new
    /\ (None (A := Grant) = None -> approved settings a toy_start new).
Proof.
  split; [exact toy_first|].
  exact (agent_signs_only_approved toy_request (Some toy_program) None toy_start _ _ toy_first).
Defined.


(** A private section whose scalar lost a byte. *)
Definition wit_fields : Fields :=
  mkFields 1 1 (lit "ecdsa-sha2-nistp256") (lit "nistp256") [4; 5]%N (replicate 31 9%N) (lit "me") [1; 2; 3]%N.

Definition wit_out : list N := default [] (repadded (section_bytes wit_fields) 8).

(** ** The approval window *)

(** The schedule: thread 1 asks, the window answers, thread 1 goes on to the end. *)
Definition go (t : nat) (s : Sys) : Sys := default s (advance Go t s).
Definition wit_request : AgentApprovalRequest := mkPrompt [] [] [] [] None None None true 60%N false None false.
Definition wit_answered : Sys :=
  (resolve_sys (approval_id 0) (mkAnswer true false None false) (Nat.iter 5 (go 1) (start 1 wit_request init))).1.
Definition wit_done : Sys := Nat.iter 7 (go 1) wit_answered.

Lemma go_reachable t s : hub_reachable s -> hub_reachable (go t s).
Proof.
  intros Hs. unfold go. destruct (advance Go t s) as [s'|] eqn:Ha; [|done].
  eapply rtc_r; [exact Hs|]. by apply (hub_advance Go t).
Qed.

Lemma iter_reachable n t s : hub_reachable s -> hub_reachable (Nat.iter n (go t) s).
Proof. intros Hs. induction n as [|n IH]; [done|]. by apply go_reachable. Qed.

Lemma wit_answered_reachable : hub_reachable wit_answered.
Proof.
  eapply rtc_r; [|apply hub_resolve]. apply iter_reachable.
  eapply rtc_r; [apply rtc_refl|]. by apply hub_start.
Qed.

Lemma hub_delivers_answers_witness : hub_reachable wit_done
  /\ (th_phase <$> threads wit_done !! 1) = Some (Done (Some (mkAnswer true false None false)))
  /\ forall a, Some (mkAnswer true false None false) = Some a <-> (1, a) ∈ answers wit_done.
Proof.
  assert (hub_reachable wit_done) as Hr by apply iter_reachable, wit_answered_reachable.
  split; [exact Hr|]. assert (th_phase <$> threads wit_done !! 1 = Some (Done (Some (mkAnswer true false None false)))) as Hp
    by (vm_compute; reflexivity).
  split; [exact Hp|]. apply fmap_Some in Hp as (th & Ht & Hp).
  exact (proj1 (proj1 (proj2 (hub_delivers_answers wit_done Hr)) 1 th _ Ht (eq_sym Hp))).
Defined.

Lemma hub_asks_end_witness : hub_reachable wit_answered
  /\ forall n s', nsteps goes_on n wit_answered s' -> n <= total wit_answered.
Proof.
  split; [exact wit_answered_reachable|].
  exact (proj1 (proj2 (hub_asks_end wit_answered wit_answered_reachable))).
Defined.
