(* ===== verification/SessionProtocol.v ===== *)
(** * SessionProtocol: frames between the broker and its clients

    [src-tauri/src/session/protocol.rs]: frames of a length, a type byte and a
    payload, read from streams that deliver bytes in pieces, and the messages the
    frames carry.  Derived serde code is a parameter of the clients of this file. *)

From S2P Require Import Prelude Text ByteStream Json AgentProtocol.

Definition PROTOCOL_VERSION : N := 1.
Definition MCP_PROTOCOL_VERSION : N := 2.
Definition CONTROL : N := 1.
Definition DATA : N := 2.
Definition MAX_FRAME : N := 1048576.
Definition DATA_CHUNK : N := 32 * 1024.

Inductive Frame :=
| Control (payload : list N)
| Data (payload : list N).

Inductive FrameError :=
| FrIo (e : str)
| TooLarge (length : N)
| UnknownType (kind : N)
| EmptyFrame
| Truncated.

(** [read_full]: [Ok (Some bytes)] when the buffer was filled, [Ok None] when the
    stream ended before the first byte. *)
Definition read_full (n : nat) (r : Reader) : result FrameError (option (list N)) * Reader :=
  match fill n [] r with
  | (Full b, r') => (Ok (Some b), r')
  | (Ended [], r') => (Ok None, r')
  | (Ended _, r') => (Err Truncated, r')
  | (Failed e, r') => (Err (FrIo e), r')
  end.

(** A read in the middle of a frame: the end of the stream is an error. *)
Definition read_rest (n : nat) (r : Reader) : result FrameError (list N) * Reader :=
  match read_full n r with
  | (Ok (Some b), r') => (Ok b, r')
  | (Ok None, r') => (Err Truncated, r')
  | (Err e, r') => (Err e, r')
  end.

Definition frame_of (kind : N) (payload : list N) : result FrameError (option Frame) :=
  if (kind =? CONTROL)%N then Ok (Some (Control payload))
  else if (kind =? DATA)%N then Ok (Some (Data payload))
  else Err (UnknownType kind).

Definition read_frame (r : Reader) : result FrameError (option Frame) * Reader :=
  match read_full 4 r with
  | (Err e, r) => (Err e, r)
  | (Ok None, r) => (Ok None, r)
  | (Ok (Some header), r) =>
      let length := of_be32 header in
      if (length =? 0)%N then (Err EmptyFrame, r)
      else if (MAX_FRAME <? length)%N then (Err (TooLarge length), r)
      else match read_rest 1 r with
           | (Err e, r) => (Err e, r)
           | (Ok kind, r) =>
               match (if (length =? 1)%N then (Ok [], r) else read_rest (N.to_nat (length - 1)) r) with
               | (Err e, r) => (Err e, r)
               | (Ok payload, r) => (frame_of (hd 0%N kind) payload, r)
               end
           end
  end.

(** The bytes of a frame. *)
Definition frame_bytes (kind : N) (payload : list N) : list N :=
  to_be32 (as_u32 (N.of_nat (length payload) + 1)) ++ kind :: payload.

Definition write_frame (w : Writer) (kind : N) (payload : list N) : result IoError unit * Writer :=
  let size := (N.of_nat (length payload) + 1)%N in
  if (MAX_FRAME <? size)%N
  then (Err (mkIoError InvalidInput (lit "a frame of " ++ dec size ++ lit " bytes is larger than the limit of 1048576")), w)
  else write_all w (frame_bytes kind payload).

Definition write_data (w : Writer) (bytes : list N) : result IoError unit * Writer := write_frame w DATA bytes.

(** ** Messages *)

Inductive ClientKind := Connect | Mcp.
Inductive HostQuery := QAlias (alias : str) | QId (id : str).
Record PtyRequest := mkPty { pty_cols : N; pty_rows : N; pty_term : str }.

Inductive ClientMessage :=
| Hello (client : ClientKind) (version : N) (client_info : option Json)
| OpenShell (host : HostQuery) (pty : PtyRequest)
| Exec
| WindowChange (cols rows : N)
| Answer (question_id : str) (value : option str) (cancel : bool)
| Close
| UnknownMessage.

Inductive QuestionKind := HostKeyNotice | Passphrase | Password | Interactive.
Record Question := mkQuestion {
  qu_id : str; qu_kind : QuestionKind; qu_text : str; qu_echo : bool; qu_deadline_ms : option N
}.
Inductive Event :=
| Connected
| Disconnected (reason : str)
| EvError (kind text : str)
| Banner (text : str).
Inductive ServerMessage :=
| Opened (session_id : str)
| SrvQuestion (q : Question)
| SrvEvent (e : Event)
| Exited (code : option N) (signal : option str).

(** ** Lemmas *)

Lemma read_full_pieces n r : plain_reader r = true -> n <= length (pieces r) ->
  exists r', read_full n r = (Ok (Some (take n (pieces r))), r') /\ pieces r' = drop n (pieces r) /\ plain_reader r' = true.
Proof.
  intros Hp Hn. unfold read_full. destruct (fill_pieces r Hp n [] Hn) as (r' & -> & ? & ?). eauto.
Qed.

Lemma read_rest_pieces n r : plain_reader r = true -> n <= length (pieces r) ->
  exists r', read_rest n r = (Ok (take n (pieces r)), r') /\ pieces r' = drop n (pieces r) /\ plain_reader r' = true.
Proof.
  intros Hp Hn. unfold read_rest. destruct (read_full_pieces n r Hp Hn) as (r' & -> & ? & ?). eauto.
Qed.

Lemma frame_size (payload : list N) : (N.of_nat (length payload) + 1 <= MAX_FRAME)%N ->
  of_be32 (to_be32 (as_u32 (N.of_nat (length payload) + 1))) = (N.of_nat (length payload) + 1)%N.
Proof. unfold MAX_FRAME. intros H. rewrite as_u32_small, of_to_be32 by lia. done. Qed.

Lemma frame_of_known kind payload f : frame_of kind payload = Ok (Some f) ->
  (f = Control payload /\ kind = CONTROL) \/ (f = Data payload /\ kind = DATA).
Proof.
  unfold frame_of. destruct (N.eqb_spec kind CONTROL) as [->|]; [intros [= <-]; auto|].
  destruct (N.eqb_spec kind DATA) as [->|]; [intros [= <-]; auto|done].
Qed.

(** A frame is read back from any pieces of a stream, and what follows it is left. *)
Lemma read_frame_bytes r kind payload rest : plain_reader r = true ->
  pieces r = frame_bytes kind payload ++ rest -> (N.of_nat (length payload) + 1 <= MAX_FRAME)%N ->
  exists r', read_frame r = (frame_of kind payload, r') /\ pieces r' = rest /\ plain_reader r' = true.
Proof.
  intros Hp Hr Hsize. unfold read_frame.
  assert (take 4 (pieces r) = to_be32 (as_u32 (N.of_nat (length payload) + 1))) as Hhd by (rewrite Hr; done).
  assert (drop 4 (pieces r) = kind :: payload ++ rest) as Htl by (rewrite Hr; done).
  destruct (read_full_pieces 4 r Hp) as (r1 & -> & Hr1 & Hp1).
  { rewrite Hr. unfold frame_bytes. rewrite !length_app, length_to_be32. lia. }
  rewrite Hhd, frame_size by done. rewrite Htl in Hr1.
  destruct (N.eqb_spec (N.of_nat (length payload) + 1) 0) as [?|_]; [lia|].
  destruct (N.ltb_spec MAX_FRAME (N.of_nat (length payload) + 1)) as [?|_]; [lia|].
  destruct (read_rest_pieces 1 r1 Hp1) as (r2 & -> & Hr2 & Hp2); [rewrite Hr1; simpl; lia|].
  rewrite Hr1 in Hr2 |- *. change (drop 1 (kind :: payload ++ rest)) with (payload ++ rest) in Hr2. cbn [take hd firstn].
  destruct (N.eqb_spec (N.of_nat (length payload) + 1) 1) as [He|He].
  - destruct payload; [|simpl in He; lia]. by exists r2.
  - replace (N.to_nat (N.of_nat (length payload) + 1 - 1)) with (length payload) by lia.
    destruct (read_rest_pieces (length payload) r2 Hp2) as (r3 & -> & Hr3 & Hp3); [rewrite Hr2, length_app; lia|].
    exists r3. by rewrite Hr3, Hr2, take_app_length, drop_app_length.
Qed.
