(* ===== verification/PinStore.v ===== *)
(** * PinStore: the pinned host keys

    [src-tauri/src/session/directory.rs] (the decisions about a pin) and
    [src-tauri/src/session/pins.rs] (the file that keeps them).  Every operation runs
    under the store's lock and is one step.  JSON, base64 and the file system are
    parameters; a write is atomic, as [fsutil::atomic_write] is: it replaces the file
    or leaves it as it was. *)

From stdpp Require Import gmap countable.
From S2P Require Import Prelude Text BTreeMap Json.

(** [ssh::HostKey]. *)
Record HostKey := mkHostKey { hk_algorithm : str; hk_public_key : list N; hk_fingerprint : str }.

Record PinnedKey := mkPinned { pk_key : HostKey; pk_pinned_at_ms : N }.

(** ** Decisions *)

Inductive PinDecision :=
| AlreadyPinned
| WritePin
| Refuse (sentence : str).

Definition decide_pin (host : str) (pinned : option str) (key : HostKey) : PinDecision :=
  match pinned with
  | Some p =>
      if p =?= hk_fingerprint key then AlreadyPinned
      else Refuse (lit "Lunport did not pin the key of " ++ host ++ lit ": another key was pinned for it in the meantime.")
  | None => WritePin
  end.

Definition decide_replace (host : str) (pinned : option str) (previous key : HostKey) : PinDecision :=
  let refuse := Refuse (lit "Lunport did not replace the key of " ++ host ++ lit ": the pinned key is not the one you were shown.") in
  match pinned with
  | Some p =>
      if p =?= hk_fingerprint key then AlreadyPinned
      else if p =?= hk_fingerprint previous then WritePin
      else refuse
  | None => refuse
  end.

(** ** The file *)

Definition FILE_VERSION : N := 1.

Record StoredPin := mkStoredPin {
  sp_algorithm : str; sp_public_key : str; sp_fingerprint : str; sp_pinned_at_ms : N
}.
Record PinFile := mkPinFile { pf_version : N; pf_pins : gmap str StoredPin }.

(** serde and base64: what is written is read back, with the version it has. *)
Class PinFormat := {
  json_from_slice : list N -> option Json;
  pins_from_value : Json -> option PinFile;
  pins_to_vec : PinFile -> list N;
  b64_encode : list N -> str;
  b64_decode : str -> option (list N);
  pins_roundtrip : forall f, pf_version f = FILE_VERSION ->
    exists v, json_from_slice (pins_to_vec f) = Some v /\ pins_from_value v = Some f;
  pins_version : forall v f, pins_from_value v = Some f -> json_u64 (lit "version") v = Some (pf_version f);
  b64_roundtrip : forall b, b64_decode (b64_encode b) = Some b
}.

Inductive Disk :=
| NoFile
| CannotRead (e : str)
| Content (bytes : list N).

Section Store.
Context {F : PinFormat} (path : str).

Definition stored_of (key : HostKey) (now : N) : StoredPin :=
  mkStoredPin (hk_algorithm key) (b64_encode (hk_public_key key)) (hk_fingerprint key) now.

Definition pinned_key (s : StoredPin) : option PinnedKey :=
  public_key ← b64_decode (sp_public_key s);
  Some (mkPinned (mkHostKey (sp_algorithm s) public_key (sp_fingerprint s)) (sp_pinned_at_ms s)).

Definition unreadable (why : str) : str :=
  lit "Lunport cannot read its pinned host keys in " ++ path ++ lit " (" ++ why ++ lit ").".
Definition damaged : str := unreadable (lit "the file is damaged").

Definition read (d : Disk) : result str PinFile :=
  match d with
  | NoFile => Ok (mkPinFile FILE_VERSION ∅)
  | CannotRead e => Err (unreadable e)
  | Content bytes =>
      value ← ok_or (json_from_slice bytes) damaged;
      match json_u64 (lit "version") value with
      | Some version =>
          if (version =? FILE_VERSION)%N then ok_or (pins_from_value value) damaged
          else Err (unreadable (lit "it is in format " ++ dec version ++ lit ", which this version of Lunport does not know"))
      | None => Err damaged
      end
  end.

(** [atomic_write]; [fault] is the error it ends with, if it fails. *)
Definition write (fault : option str) (f : PinFile) (d : Disk) : result str unit * Disk :=
  match fault with
  | None => (Ok tt, Content (pins_to_vec f))
  | Some e => (Err (lit "Lunport cannot save the pinned host key in " ++ path ++ lit ": " ++ e), d)
  end.

Definition get (host : str) (d : Disk) : result str (option PinnedKey) :=
  file ← read d;
  match pf_pins file !! host with
  | None => Ok None
  | Some stored => k ← ok_or (pinned_key stored) (unreadable (lit "the pin of " ++ host ++ lit " is damaged")); Ok (Some k)
  end.

(** What [pin] and [replace] do with the decision. *)
Definition apply_decision (decision : PinDecision) (host : str) (key : HostKey) (now : N) (fault : option str)
    (file : PinFile) (d : Disk) : result str unit * Disk :=
  match decision with
  | AlreadyPinned => (Ok tt, d)
  | Refuse sentence => (Err sentence, d)
  | WritePin => write fault (mkPinFile (pf_version file) (<[host := stored_of key now]> (pf_pins file))) d
  end.

Definition pin (host : str) (key : HostKey) (now : N) (fault : option str) (d : Disk) : result str unit * Disk :=
  match read d with
  | Err e => (Err e, d)
  | Ok file => apply_decision (decide_pin host (sp_fingerprint <$> pf_pins file !! host) key) host key now fault file d
  end.

Definition replace (host : str) (previous key : HostKey) (now : N) (fault : option str) (d : Disk) : result str unit * Disk :=
  match read d with
  | Err e => (Err e, d)
  | Ok file =>
      apply_decision (decide_replace host (sp_fingerprint <$> pf_pins file !! host) previous key) host key now fault file d
  end.
End Store.

(** ** The specification: one register per host, compared and swapped *)

Abbreviation Pins := (gmap str str).

Inductive PinOp :=
| OpPin (host : str) (key : HostKey)
| OpReplace (host : str) (previous key : HostKey).

(** Whether an operation is accepted, and the pins after it. *)
Definition pin_spec (op : PinOp) (m : Pins) : option Pins :=
  match op with
  | OpPin host key =>
      match m !! host with
      | None => Some (<[host := hk_fingerprint key]> m)
      | Some f => if f =?= hk_fingerprint key then Some m else None
      end
  | OpReplace host previous key =>
      match m !! host with
      | None => None
      | Some f =>
          if f =?= hk_fingerprint key then Some m
          else if f =?= hk_fingerprint previous then Some (<[host := hk_fingerprint key]> m) else None
      end
  end.

Section Refinement.
Context {F : PinFormat} (path : str).

Definition run_op (op : PinOp) (now : N) (fault : option str) (d : Disk) : result str unit * Disk :=
  match op with
  | OpPin host key => pin path host key now fault d
  | OpReplace host previous key => replace path host previous key now fault d
  end.

(** The pins a file holds; nothing, when it cannot be read. *)
Definition view (d : Disk) : option Pins :=
  match read path d with Ok f => Some (sp_fingerprint <$> pf_pins f) | Err _ => None end.

Lemma read_version d f : read path d = Ok f -> pf_version f = FILE_VERSION.
Proof.
  destruct d as [|e|bytes]; cbn [read]; [by intros [= <-]|done|].
  destruct (json_from_slice bytes) as [v|]; [|done]. cbn.
  destruct (json_u64 (lit "version") v) as [n|] eqn:Hv; [|done]. destruct (N.eqb_spec n FILE_VERSION) as [->|]; [|done].
  destruct (pins_from_value v) as [f'|] eqn:Hf; [|done]. intros [= <-]. apply pins_version in Hf. congruence.
Qed.

Lemma read_written f : pf_version f = FILE_VERSION -> read path (Content (pins_to_vec f)) = Ok f.
Proof.
  intros Hv. destruct (pins_roundtrip f Hv) as (v & Hj & Hf). cbn [read]. rewrite Hj. cbn.
  apply pins_version in Hf as Hver. rewrite Hver, Hv. cbn. by rewrite Hf.
Qed.

(** A decision against the register. *)
Lemma decision_spec decision host key now fault file d :
  read path d = Ok file ->
  let '(r, d') := apply_decision path decision host key now fault file d in
  match decision with
  | AlreadyPinned => r = Ok tt /\ d' = d
  | Refuse sentence => r = Err sentence /\ d' = d
  | WritePin =>
      match fault with
      | Some _ => r <> Ok tt /\ d' = d
      | None => r = Ok tt /\ read path d' = Ok (mkPinFile FILE_VERSION (<[host := stored_of key now]> (pf_pins file)))
      end
  end.
Proof.
  intros Hr. apply read_version in Hr as Hv. destruct decision as [| |sentence]; [done| |done].
  cbn [apply_decision write]. destruct fault; [done|]. split; [done|]. by rewrite read_written, Hv.
Qed.

(** The decision an operation takes on a file. *)
Definition decision_of (op : PinOp) (pins : gmap str StoredPin) : PinDecision * str * HostKey :=
  match op with
  | OpPin host key => (decide_pin host (sp_fingerprint <$> pins !! host) key, host, key)
  | OpReplace host previous key => (decide_replace host (sp_fingerprint <$> pins !! host) previous key, host, key)
  end.

Lemma run_op_decision (op : PinOp) now fault d : run_op op now fault d =
  match read path d with
  | Err e => (Err e, d)
  | Ok file => let '(decision, host, key) := decision_of op (pf_pins file) in
               apply_decision path decision host key now fault file d
  end.
Proof. by destruct op; cbn; unfold pin, replace; destruct (read path d). Qed.

Lemma decision_refines (op : PinOp) (pins : gmap str StoredPin) :
  let '(decision, host, key) := decision_of op pins in
  match decision with
  | AlreadyPinned => pin_spec op (sp_fingerprint <$> pins) = Some (sp_fingerprint <$> pins)
  | WritePin => pin_spec op (sp_fingerprint <$> pins) = Some (<[host := hk_fingerprint key]> (sp_fingerprint <$> pins))
  | Refuse _ => pin_spec op (sp_fingerprint <$> pins) = None
  end.
Proof.
  destruct op as [host key|host previous key]; cbn [decision_of pin_spec]; rewrite lookup_fmap;
    destruct (pins !! host) as [s|]; cbn [fmap option_fmap option_map decide_pin decide_replace]; try done;
    repeat match goal with |- context [?a =?= ?b] => destruct (a =?= b) end; done.
Qed.

(** One operation against the registers. *)
Definition op_refines (fault : option str) (op : PinOp) (d d' : Disk) (r : result str unit) : Prop :=
  match view d with
  | None => r <> Ok tt /\ d' = d
  | Some m =>
      (r = Ok tt -> exists m', pin_spec op m = Some m' /\ view d' = Some m')
      /\ (fault = None -> pin_spec op m <> None -> r = Ok tt)
      /\ (r <> Ok tt -> d' = d)
  end.

Lemma run_op_spec (op : PinOp) now fault d :
  op_refines fault op d (run_op op now fault d).2 (run_op op now fault d).1.
Proof.
  unfold op_refines. rewrite run_op_decision. unfold view at 1. destruct (read path d) as [file|e] eqn:Hr; [|done].
  pose proof (decision_refines op (pf_pins file)) as Href. destruct (decision_of op (pf_pins file)) as [[decision host] key].
  pose proof (decision_spec decision host key now fault file d Hr) as Hdec. unfold view.
  destruct (apply_decision _ _ _ _ _ _ _ _) as [r d']. cbn [fst snd]. destruct decision as [| |sentence].
  - destruct Hdec as [-> ->]. rewrite Href, Hr. split_and!; [|done|done]. eauto.
  - destruct fault as [e|]; [by destruct Hdec as [? ->]|]. destruct Hdec as [-> Hrd]. rewrite Href, Hrd.
    split_and!; [|done|done]. intros _. eexists. split; [done|]. cbn. by rewrite fmap_insert.
  - destruct Hdec as [-> ->]. by rewrite Href.
Qed.

(** An operation that may change the pin of a host from [f] to another key. *)
Definition replaces (host f : str) (op : PinOp) : bool :=
  match op with
  | OpPin _ _ => false
  | OpReplace h previous _ => (h =?= host) && (hk_fingerprint previous =?= f)
  end.

Lemma pin_spec_keeps op m m' host f : pin_spec op m = Some m' -> m !! host = Some f -> replaces host f op = false ->
  m' !! host = Some f.
Proof.
  intros Hs Hm Hr. destruct op as [h key|h previous key]; cbn [pin_spec replaces] in *.
  - destruct (m !! h) as [f'|] eqn:Hh; [by destruct (f' =?= _); simplify_eq|]. injection Hs as <-.
    rewrite lookup_insert_ne by congruence. done.
  - destruct (m !! h) as [f'|] eqn:Hh; [|done]. destruct (f' =?= hk_fingerprint key); [by simplify_eq|].
    destruct (f' =?= hk_fingerprint previous) eqn:Hp; [|done]. injection Hs as <-. apply bool_decide_eq_true_1 in Hp.
    destruct (decide (h = host)) as [->|Hne]; [|by rewrite lookup_insert_ne].
    rewrite Hm in Hh. injection Hh as ->. rewrite Hp, !bool_decide_eq_true_2 in Hr by done. done.
Qed.

(** Operations one after another, each at its time and with its fault. *)
Fixpoint run_ops (ops : list (PinOp * N * option str)) (d : Disk) : Disk :=
  match ops with
  | [] => d
  | (op, now, fault) :: ops => run_ops ops (run_op op now fault d).2
  end.

End Refinement.

(** ** A concrete format of the pin file, and the pin store on it *)

#[export] Instance stored_pin_eq_dec : EqDecision StoredPin.
Proof. solve_decision. Defined.
#[export] Instance stored_pin_countable : Countable StoredPin.
Proof.
  apply (inj_countable' (fun s => (sp_algorithm s, sp_public_key s, sp_fingerprint s, sp_pinned_at_ms s))
    (fun '(a, b, c, d) => mkStoredPin a b c d)).
  by intros [].
Defined.

Definition toy_value (p : positive) : Json :=
  JObject [(lit "pins", JNumber (PosInt (Npos p))); (lit "version", JNumber (PosInt FILE_VERSION))].

Definition toy_pins (v : Json) : option PinFile :=
  version ← json_u64 (lit "version") v;
  n ← json_u64 (lit "pins") v;
  match n with
  | N0 => None
  | Npos p => pins ← decode p; Some (mkPinFile version pins)
  end.

#[export] Instance toy_pin_format : PinFormat.
Proof.
  refine {|
    json_from_slice := fun b => match b with [Npos p] => Some (toy_value p) | _ => None end;
    pins_from_value := toy_pins;
    pins_to_vec := fun f => [Npos (encode (pf_pins f))];
    b64_encode := fun b => b;
    b64_decode := Some
  |}.
  - intros [version pins] Hv. cbn in Hv. subst version. eexists. split; [done|].
    unfold toy_pins, toy_value. cbn [pf_pins].
    change (json_u64 (lit "version") _) with (Some FILE_VERSION). cbn [mbind option_bind].
    change (json_u64 (lit "pins") _) with (Some (Npos (encode pins))). cbn [mbind option_bind]. by rewrite decode_encode.
  - intros v f. unfold toy_pins. destruct (json_u64 (lit "version") v) as [version|]; [|done]. cbn.
    destruct (json_u64 (lit "pins") v) as [[|p]|]; [done| |done]. cbn. by destruct (decode p); [intros [= <-]|].
  - done.
Defined.

Definition wit_host_key : HostKey := mkHostKey (lit "ssh-ed25519") [1; 2]%N (lit "SHA256:k").

