(* ===== verification/ImportText.v ===== *)
(** * ImportText: the texts of an ssh_config that is imported

    The text functions of [src-tauri/src/sync/records_v3/importer/source.rs] and
    [resolve.rs]: arguments, paths, host patterns and jump endpoints, none of them
    evaluated beyond what is static. *)

From S2P Require Import Prelude Text BTreeMap RecordsValidate.

(** [str::contains] with a list of characters. *)
Definition contains_any (cs : list N) (s : str) : bool := existsb (fun c => existsb (N.eqb c) cs) s.

(** [str::split_once] and [str::find] of one character. *)
Fixpoint split_once (c : N) (s : str) : option (str * str) :=
  match s with
  | [] => None
  | x :: s' => if (x =? c)%N then Some ([], s') else '(a, b) ← split_once c s'; Some (x :: a, b)
  end.

(** [str::parse] of an unsigned integer of at most [max]: an optional plus sign and
    at least one digit. *)
Fixpoint parse_digits (max acc : N) (s : str) : option N :=
  match s with
  | [] => Some acc
  | c :: s' =>
      if is_ascii_digit c
      then let n := (acc * 10 + (c - 48))%N in if (n <=? max)%N then parse_digits max n s' else None
      else None
  end.
Definition parse_uint (max : N) (s : str) : option N :=
  match s with
  | [] => None
  | 43%N :: [] => None
  | 43%N :: s' => parse_digits max 0 s'
  | _ => parse_digits max 0 s
  end.
Definition u16_max : N := 65535.

(** ** Arguments *)

(** [u8::is_ascii_whitespace]. *)
Definition is_ascii_whitespace (c : N) : bool := existsb (N.eqb c) [32; 9; 10; 12; 13]%N.

(** A backslash in front of white space or a quote: [windows(2)]. *)
Fixpoint escapes (s : str) : bool :=
  match s with
  | a :: (b :: _) as s' => ((a =? 92)%N && (is_ascii_whitespace b || (b =? 34)%N)) || escapes s'
  | _ => false
  end.

(** The loop of [arguments]: what was put out, the current argument, and whether a
    quote is open. *)
Fixpoint arguments_loop (out : list str) (current : str) (quoted : bool) (s : str) : option (list str) :=
  match s with
  | [] => if quoted then None else Some (if current =?= [] then out else out ++ [current])
  | ch :: s' =>
      if (ch =? 34)%N then arguments_loop out current (negb quoted) s'
      else if is_whitespace ch && negb quoted
      then arguments_loop (if current =?= [] then out else out ++ [current]) [] quoted s'
      else arguments_loop out (current ++ [ch]) quoted s'
  end.

Definition arguments (value : str) : option (list str) :=
  if contains_char 39 value || escapes value then None else arguments_loop [] [] false value.

Definition scalar (value : str) : option str :=
  match arguments value with Some [v] => Some v | _ => None end.

(** ** Paths *)

(** [Path::is_absolute] and [Path::join] on Unix; a path is its text. *)
Definition is_absolute (p : str) : bool := starts_with (lit "/") p.
Definition path_join (base p : str) : str :=
  if is_absolute p then p
  else if ends_with (lit "/") base || (base =?= []) then base ++ p else base ++ lit "/" ++ p.

(** [str::replace] of a text of two characters. *)
Fixpoint replace2 (a b : N) (by_ : str) (s : str) : str :=
  match s with
  | x :: (y :: s') as t => if (x =? a)%N && (y =? b)%N then by_ ++ replace2 a b by_ s' else x :: replace2 a b by_ t
  | _ => s
  end.

(** The [${NAME}]s of a value, from explicit values; [n] bounds the text
    that is left. *)
Fixpoint expand_env (n : nat) (env : btree str) (expanded rest : str) : result str str :=
  match n with
  | O => Ok (expanded ++ rest)
  | S n' =>
      match split_once 36 rest with
      | None => Ok (expanded ++ rest)
      | Some (before, after) =>
          match strip_prefix (lit "{") after with
          | None => Err (lit "unsupported environment expansion")
          | Some e =>
              match split_once 125 e with
              | None => Err (lit "unterminated environment expansion")
              | Some (name, rest') =>
                  match bt_get name env with
                  | None => Err (lit "explicit environment value is missing for " ++ name)
                  | Some v => expand_env n' env (expanded ++ before ++ v) rest'
                  end
              end
          end
      end
  end.

Definition expand_path (value home : str) (env : btree str) (relative_include : bool) : result str str :=
  expanded ← expand_env (length value) env [] value;
  let expanded := replace2 37 100 home expanded in
  if contains_char 37 expanded then Err (lit "host-dependent tokens require review")
  else if expanded =?= lit "~" then Ok home
  else match strip_prefix (lit "~/") expanded with
       | Some tail => Ok (path_join home tail)
       | None =>
           if starts_with (lit "~") expanded then Err (lit "another user's home requires review")
           else if is_absolute expanded then Ok expanded
           else if relative_include then Ok (path_join (path_join home (lit ".ssh")) expanded)
           else Err (lit "relative key paths require review")
       end.

(** ** Host patterns *)

(** The state of [wildcard]'s loop. *)
Record Scan := mkScan { sc_p : nat; sc_v : nat; sc_star : option nat; sc_retry : nat }.

(** One pass of the loop: the next state, or [None] when it returns [false]. *)
Definition scan_step (pattern value : list N) (s : Scan) : option Scan :=
  let here := pattern !! sc_p s in
  if match here with Some b => (b =? 63)%N || (Some b =?= value !! sc_v s) | None => false end
  then Some (mkScan (S (sc_p s)) (S (sc_v s)) (sc_star s) (sc_retry s))
  else if here =?= Some 42%N then Some (mkScan (S (sc_p s)) (sc_v s) (Some (sc_p s)) (sc_v s))
  else match sc_star s with
       | Some st => Some (mkScan (S st) (S (sc_retry s)) (Some st) (S (sc_retry s)))
       | None => None
       end.

(** The loop while a byte of the value is left; [None] when the fuel ran out. *)
Fixpoint scan (fuel : nat) (pattern value : list N) (s : Scan) : option bool :=
  if (sc_v s <? length value)%nat then
    match fuel with
    | O => None
    | S fuel' =>
        match scan_step pattern value s with
        | Some s' => scan fuel' pattern value s'
        | None => Some false
        end
    end
  else Some (forallb (N.eqb 42) (drop (sc_p s) pattern)).

Definition scan_fuel (pattern value : list N) : nat :=
  (S (length value)) * (S (length pattern + length value)) + length pattern + length value.

Definition wildcard (pattern value : list N) : bool :=
  default false (scan (scan_fuel pattern value) pattern value (mkScan 0 0 None 0)).

Fixpoint matches_from (positive : bool) (patterns : list str) (alias : str) : bool :=
  match patterns with
  | [] => positive
  | p :: ps =>
      match strip_prefix (lit "!") p with
      | Some negative => if wildcard (utf8 negative) (utf8 alias) then false else matches_from positive ps alias
      | None => matches_from (positive || wildcard (utf8 p) (utf8 alias)) ps alias
      end
  end.
Definition matches_patterns (patterns : list str) (alias : str) : bool := matches_from false patterns alias.

(** ** Jump endpoints *)

Record JumpTarget := mkJump { jt_name : str; jt_user : option str; jt_port : option N }.

Definition parse_port (s : str) : option N := parse_uint u16_max s.

(** The name and the port of an endpoint. *)
Definition parse_endpoint (endpoint : str) : option (str * option N) :=
  match strip_prefix (lit "[") endpoint with
  | Some rest =>
      '(name, tail) ← split_once 93 rest;
      match tail with
      | [] => Some (name, None)
      | _ => p ← strip_prefix (lit ":") tail; port ← parse_port p; Some (name, Some port)
      end
  | None =>
      match rsplit_once 58 endpoint with
      | Some (name, port) =>
          if contains_char 58 name then None else port ← parse_port port; Some (name, Some port)
      | None => Some (endpoint, None)
      end
  end.

Definition parse_jump (value : str) : option JumpTarget :=
  if (value =?= []) || contains_any [37; 36]%N value || existsb (fun c => is_whitespace c || is_control c) value then None
  else
    '(user, endpoint) ← match split_once 64 value with
                        | Some (user, endpoint) =>
                            if (user =?= []) || contains_char 64 endpoint then None else Some (Some user, endpoint)
                        | None => Some (None, value)
                        end;
    '(name, port) ← parse_endpoint endpoint;
    if (name =?= []) || (port =?= Some 0%N) then None else Some (mkJump name user port).

(** ** The pattern matcher is the usual one, and ends *)

(** The reference matcher: a star stands for any bytes, a question mark for one. *)
Fixpoint glob (pattern value : list N) : bool :=
  match pattern with
  | [] => match value with [] => true | _ => false end
  | a :: p =>
      if (a =? 42)%N then
        (fix stars (value : list N) : bool :=
           glob p value || match value with [] => false | _ :: value' => stars value' end) value
      else match value with
           | [] => false
           | c :: value' => ((a =? 63)%N || (a =? c)%N) && glob p value'
           end
  end.

Lemma glob_star p v : glob (42%N :: p) v = glob p v || match v with [] => false | _ :: v' => glob (42%N :: p) v' end.
Proof. by destruct v. Qed.

Lemma glob_char a p c v : a <> 42%N -> glob (a :: p) (c :: v) = ((a =? 63)%N || (a =? c)%N) && glob p v.
Proof. intros Ha. cbn. by destruct (N.eqb_spec a 42). Qed.

(** A star matches at some later place. *)
Lemma glob_star_drop p v : glob (42%N :: p) v = true <-> exists k, (k <= length v)%nat /\ glob p (drop k v) = true.
Proof.
  induction v as [|c v IH]; rewrite glob_star, orb_true_iff.
  - split; [intros [?|?]; [by exists 0|done]|]. intros (k & Hk & Hg). left. by destruct k; [|simpl in Hk; lia].
  - rewrite IH. split.
    + intros [Hg|(k & Hk & Hg)]; [by exists 0; split; [lia|]|exists (S k); split; [simpl; lia|done]].
    + intros ([|k] & Hk & Hg); [by left|right]. exists k. split; [simpl in Hk; lia|done].
Qed.

(** Bytes without a star match bytes one by one. *)
Definition literal (seg : list N) : bool := forallb (fun a => negb (a =? 42)%N) seg.

Lemma glob_literal seg p v : literal seg = true -> glob (seg ++ p) v = true ->
  (length seg <= length v)%nat /\ glob p (drop (length seg) v) = true.
Proof.
  revert v. induction seg as [|a seg IH]; intros v Hl Hg; [split; [simpl; lia|done]|].
  cbn in Hl. apply andb_true_iff in Hl as [Ha%negb_true_iff%N.eqb_neq Hl].
  destruct v as [|c v]; [by cbn in Hg; destruct (N.eqb_spec a 42)|].
  cbn [app] in Hg. rewrite glob_char in Hg by done. apply andb_true_iff in Hg as [_ Hg].
  destruct (IH v Hl Hg). simpl. split; [lia|done].
Qed.

Lemma glob_all_stars p : glob p [] = forallb (N.eqb 42) p.
Proof.
  induction p as [|a p IH]; [done|]. cbn [forallb]. destruct (N.eqb_spec a 42) as [->|Ha].
  - rewrite glob_star, IH. by rewrite orb_false_r.
  - cbn [glob]. rewrite (proj2 (N.eqb_neq a 42)), (proj2 (N.eqb_neq 42 a)) by done. done.
Qed.

Section Scan.
Context (P V : list N).
Hypothesis (no_star : 42%N ∉ V).

(** What the loop knows: the pattern matches if the rest of it does from here, or
    from a later place than the last star was tried. *)
Definition later (s : Scan) : bool :=
  match sc_star s with
  | Some st => (sc_retry s <? length V)%nat && glob (drop st P) (drop (S (sc_retry s)) V)
  | None => false
  end.

Record good (s : Scan) : Prop := mkGood {
  gd_p : (sc_p s <= length P)%nat;
  gd_v : (sc_v s <= length V)%nat;
  gd_star : match sc_star s with
            | Some st => P !! st = Some 42%N /\ (sc_retry s <= sc_v s)%nat /\ (st < sc_p s)%nat
                         /\ sc_p s - S st = sc_v s - sc_retry s
                         /\ literal (take (sc_p s - S st) (drop (S st) P)) = true
            | None => sc_retry s = 0 /\ sc_p s = sc_v s
            end;
  gd_same : glob P V = glob (drop (sc_p s) P) (drop (sc_v s) V) || later s
}.

(** A later place after the last star also matches from here, if a star is here. *)
Lemma later_subsumed s : good s -> P !! sc_p s = Some 42%N -> later s = true ->
  glob (drop (sc_p s) P) (drop (sc_v s) V) = true.
Proof.
  intros [Hp Hv Hs _] Hstar Hl. unfold later in Hl. destruct (sc_star s) as [st|]; [|done].
  destruct Hs as (Hst & Hr & Hlt & Hlen & Hlit). apply andb_true_iff in Hl as [Hrn%Nat.ltb_lt Hg].
  rewrite (drop_S _ _ _ Hst) in Hg. apply glob_star_drop in Hg as (k & Hk & Hg).
  rewrite <- (take_drop (sc_p s - S st) (drop (S st) P)) in Hg. apply glob_literal in Hg as [Hle Hg]; [|done].
  rewrite length_take_le in Hle, Hg by (rewrite length_drop; lia). rewrite !drop_drop in Hg.
  replace (S st + (sc_p s - S st)) with (sc_p s) in Hg by lia. rewrite (drop_S _ _ _ Hstar) in Hg |- *.
  apply glob_star_drop in Hg as (j & Hj & Hg). apply glob_star_drop.
  rewrite !length_drop in *. rewrite drop_drop in Hg.
  exists (S (sc_retry s) + k + (sc_p s - S st) + j - sc_v s). split; [lia|]. rewrite drop_drop.
  rewrite <- Hg. f_equal. f_equal. lia.
Qed.

(** The star a step goes back to is tried at the next place. *)
Lemma back_good s st : good s -> sc_star s = Some st -> (sc_v s < length V)%nat ->
  glob (drop (sc_p s) P) (drop (sc_v s) V) = false ->
  good (mkScan (S st) (S (sc_retry s)) (Some st) (S (sc_retry s))).
Proof.
  intros [Hp Hv Hs Hsame] Hst Hlt Hno. rewrite Hst in Hs. destruct Hs as (HP & Hr & Hlt' & _ & _).
  split; cbn [sc_p sc_v sc_star sc_retry]; [lia|lia| |].
  - rewrite Nat.sub_diag. split_and!; [done|lia|lia|lia|done].
  - rewrite Hsame, Hno. unfold later. rewrite Hst. cbn [orb sc_star sc_retry].
    rewrite (proj2 (Nat.ltb_lt _ _)) by lia. cbn [andb]. rewrite (drop_S P _ _ HP), glob_star. f_equal.
    destruct (Nat.ltb_spec (S (sc_retry s)) (length V)) as [Hl|Hl].
    + destruct (lookup_lt_is_Some_2 V _ Hl) as [c Hc]. by rewrite (drop_S V _ _ Hc).
    + by rewrite (drop_ge V (S (sc_retry s))).
Qed.

Lemma step_good s s' : good s -> (sc_v s < length V)%nat -> scan_step P V s = Some s' -> good s'.
Proof.
  intros Hg Hlt. pose proof Hg as [Hp Hv Hs Hsame]. unfold scan_step.
  destruct (lookup_lt_is_Some_2 V (sc_v s) Hlt) as [c Hc]. rewrite Hc.
  assert (c <> 42%N) as Hc42 by (intros ->; apply no_star; by eapply list_elem_of_lookup_2).
  destruct (P !! sc_p s) as [b|] eqn:Hb.
  2: { destruct (sc_star s) as [st|] eqn:Hst; [|done]. intros [= <-]. apply back_good; try done.
       apply lookup_ge_None in Hb. rewrite (drop_ge P) by done. by rewrite (drop_S V _ _ Hc). }
  pose proof (lookup_lt_Some _ _ _ Hb) as HpP.
  destruct ((b =? 63)%N || (Some b =?= Some c)) eqn:Hm.
  - intros [= <-]. assert (b <> 42%N) as Hb42.
    { intros ->. apply orb_true_iff in Hm as [Hm|Hm]; [done|]. apply bool_decide_eq_true_1 in Hm. congruence. }
    split; cbn [sc_p sc_v sc_star sc_retry]; [lia|lia| |].
    + destruct (sc_star s) as [st|]; [|by destruct Hs as [-> ->]].
      destruct Hs as (Hst & Hr & Hlt' & Hlen & Hlit). split_and!; [done|lia|lia|lia|].
      replace (S (sc_p s) - S st) with (S (sc_p s - S st)) by lia.
      rewrite (take_S_r _ _ b); [|rewrite lookup_drop; replace (S st + (sc_p s - S st)) with (sc_p s) by lia; done].
      unfold literal in *. rewrite forallb_app, Hlit. cbn [forallb]. by rewrite (proj2 (N.eqb_neq b 42)).
    + rewrite Hsame, (drop_S V _ _ Hc), (drop_S P _ _ Hb), glob_char by done. f_equal.
      replace ((b =? 63)%N || (b =? c)%N) with true; [done|]. symmetry. apply orb_true_iff in Hm as [->|Hm]; [done|].
      apply bool_decide_eq_true_1 in Hm. injection Hm as ->. by rewrite N.eqb_refl, orb_true_r.
  - destruct (Some b =?= Some 42%N) eqn:Hb42.
    + apply bool_decide_eq_true_1 in Hb42. injection Hb42 as ->. intros [= <-].
      assert (glob P V = glob (drop (sc_p s) P) (drop (sc_v s) V)) as Heq.
      { rewrite Hsame. destruct (later s) eqn:Hl; [|by rewrite orb_false_r]. rewrite orb_true_r. symmetry.
        by apply later_subsumed. }
      split; cbn [sc_p sc_v sc_star sc_retry]; [lia|lia| |].
      * split_and!; [done|lia|lia|lia|]. by rewrite Nat.sub_diag.
      * rewrite Heq. unfold later. cbn [sc_star sc_retry]. rewrite (proj2 (Nat.ltb_lt _ _)) by done. cbn [andb].
        by rewrite (drop_S P _ _ Hb), (drop_S V _ _ Hc), glob_star.
    + apply bool_decide_eq_false_1 in Hb42. destruct (sc_star s) as [st|] eqn:Hst; [|done]. intros [= <-].
      apply back_good; try done. rewrite (drop_S P _ _ Hb), (drop_S V _ _ Hc), glob_char by congruence.
      apply orb_false_iff in Hm as [-> Hm]. apply bool_decide_eq_false_1 in Hm.
      rewrite (proj2 (N.eqb_neq b c)) by congruence. done.
Qed.

(** A step that fails, and the end of the loop, give the pattern's answer. *)
Lemma step_false s : good s -> (sc_v s < length V)%nat -> scan_step P V s = None -> glob P V = false.
Proof.
  intros [Hp Hv Hs Hsame] Hlt. unfold scan_step. destruct (lookup_lt_is_Some_2 V (sc_v s) Hlt) as [c Hc].
  rewrite Hc, Hsame, (drop_S V _ _ Hc). destruct (sc_star s) as [st|] eqn:Hst; [by repeat case_match|].
  unfold later. rewrite Hst, orb_false_r. destruct (P !! sc_p s) as [b|] eqn:Hb.
  - rewrite (drop_S P _ _ Hb). destruct ((b =? 63)%N || (Some b =?= Some c)) eqn:Hm; [done|].
    destruct (Some b =?= Some 42%N) eqn:H42; [done|]. intros _. apply bool_decide_eq_false_1 in H42.
    rewrite glob_char by congruence. apply orb_false_iff in Hm as [-> Hm]. apply bool_decide_eq_false_1 in Hm.
    rewrite (proj2 (N.eqb_neq b c)) by congruence. done.
  - intros _. apply lookup_ge_None in Hb. by rewrite (drop_ge P).
Qed.

Lemma end_answer s : good s -> sc_v s = length V -> glob P V = forallb (N.eqb 42) (drop (sc_p s) P).
Proof.
  intros [Hp Hv Hs Hsame] Hend. rewrite Hsame, (drop_ge V), glob_all_stars by lia.
  destruct (later s) eqn:Hl; [|by rewrite orb_false_r]. exfalso. unfold later in Hl.
  destruct (sc_star s) as [st|]; [|done]. destruct Hs as (Hst & Hr & Hlt & Hlen & Hlit).
  apply andb_true_iff in Hl as [Hrn%Nat.ltb_lt Hg]. rewrite (drop_S _ _ _ Hst) in Hg.
  apply glob_star_drop in Hg as (k & Hk & Hg).
  rewrite <- (take_drop (sc_p s - S st) (drop (S st) P)) in Hg. apply glob_literal in Hg as [Hle _]; [|done].
  rewrite length_take_le in Hle by (rewrite length_drop; lia). rewrite !length_drop in *. lia.
Qed.

(** The work that is left: places to try the star at, and bytes to pass. *)
Definition scan_work (s : Scan) : nat :=
  (length V - sc_retry s) * S (length P + length V) + (length P - sc_p s) + (length V - sc_v s).

Lemma step_work s s' : good s -> (sc_v s < length V)%nat -> scan_step P V s = Some s' -> (scan_work s' < scan_work s)%nat.
Proof.
  intros Hg Hlt Hs. pose proof (step_good s s' Hg Hlt Hs) as [Hp' Hv' _ _]. destruct Hg as [Hp Hv Hst _].
  unfold scan_step in Hs. unfold scan_work.
  destruct (match P !! sc_p s with Some b => _ | None => false end) eqn:Hm;
    [injection Hs as <-; cbn [sc_p sc_v sc_star sc_retry] in *; lia|].
  destruct (P !! sc_p s =?= Some 42%N) eqn:Hb.
  - injection Hs as <-. cbn [sc_p sc_v sc_star sc_retry] in *.
    assert (sc_retry s <= sc_v s)%nat by (destruct (sc_star s); destruct_and!; lia). nia.
  - destruct (sc_star s) as [st|]; [|done]. injection Hs as <-. cbn [sc_p sc_v sc_star sc_retry] in *.
    destruct Hst as (_ & Hr & Hps & _). nia.
Qed.

Lemma scan_glob fuel : forall s, good s -> (scan_work s <= fuel)%nat -> scan fuel P V s = Some (glob P V).
Proof.
  induction fuel as [|fuel IH]; intros s Hg Hw; cbn [scan]; destruct (Nat.ltb_spec (sc_v s) (length V)) as [Hlt|Hge].
  - exfalso. unfold scan_work in Hw. lia.
  - f_equal. symmetry. apply end_answer; [done|]. destruct Hg. lia.
  - destruct (scan_step P V s) as [s'|] eqn:Hs.
    + apply IH; [by eapply step_good|]. pose proof (step_work s s' Hg Hlt Hs). lia.
    + f_equal. symmetry. by apply (step_false s).
  - f_equal. symmetry. apply end_answer; [done|]. destruct Hg. lia.
Qed.

Lemma start_good : good (mkScan 0 0 None 0).
Proof. split; cbn; [lia|lia|done|]. unfold later. cbn. by rewrite orb_false_r. Qed.
End Scan.

Lemma wildcard_glob P V : 42%N ∉ V -> wildcard P V = glob P V.
Proof.
  intros Hn. unfold wildcard. rewrite (scan_glob P V Hn _ _ (start_good P V)); [done|].
  unfold scan_work, scan_fuel. cbn [sc_p sc_v sc_retry]. nia.
Qed.

(** ** Host patterns *)

Definition matches_pattern (alias p : str) : bool := glob (utf8 p) (utf8 alias).

(** A pattern that excludes the alias. *)
Definition excludes (alias p : str) : bool :=
  match strip_prefix (lit "!") p with Some negative => matches_pattern alias negative | None => false end.
Definition includes (alias p : str) : bool :=
  match strip_prefix (lit "!") p with Some _ => false | None => matches_pattern alias p end.

Lemma valid_alias_no_star alias : valid_alias alias = true -> 42%N ∉ utf8 alias.
Proof.
  unfold valid_alias. intros H. apply andb_true_iff in H as [_ H]. rewrite forallb_forall in H.
  intros Hin. apply list_elem_of_In, H in Hin. done.
Qed.

Lemma matches_from_exact patterns alias : 42%N ∉ utf8 alias -> forall positive,
  matches_from positive patterns alias
  = (positive || existsb (includes alias) patterns) && negb (existsb (excludes alias) patterns).
Proof.
  intros Hn. induction patterns as [|p ps IH]; intros positive; cbn [matches_from existsb]; [by rewrite orb_false_r, andb_true_r|].
  unfold includes at 1, excludes at 1, matches_pattern. destruct (strip_prefix (lit "!") p) as [negative|].
  - rewrite wildcard_glob by done. destruct (glob (utf8 negative) (utf8 alias)); cbn [orb negb].
    + by rewrite andb_false_r.
    + apply IH.
  - rewrite IH, wildcard_glob by done. cbn [orb]. by rewrite orb_assoc.
Qed.

(** The patterns of a [Host] line select exactly the aliases OpenSSH's rules
    name: an alias is matched when some pattern without an exclamation mark matches
    it and no pattern with one does, wherever they stand, and a pattern matches as
    the usual reading of its stars and question marks says; the scan with one
    remembered star decides this within its bounded number of steps. *)
Lemma matches_patterns_exact (patterns : list str) (alias : str) : valid_alias alias = true ->
  matches_patterns patterns alias
  = existsb (includes alias) patterns && negb (existsb (excludes alias) patterns)
  /\ forall p, scan (scan_fuel (utf8 p) (utf8 alias)) (utf8 p) (utf8 alias) (mkScan 0 0 None 0)
               = Some (matches_pattern alias p).
Proof.
  intros Ha%valid_alias_no_star. split; [by apply matches_from_exact|]. intros p.
  apply scan_glob; [done|apply start_good|]. unfold scan_work, scan_fuel. cbn [sc_p sc_v sc_retry]. nia.
Qed.

(** The code looks for a literal byte first: against a byte that is itself a star, a
    star in the pattern only stands for that byte. *)
Example wildcard_star_byte : wildcard (lit "*") (lit "*x") = false /\ glob (lit "*") (lit "*x") = true.
Proof. by vm_compute. Qed.

(** ** Arguments *)

(** Words without quotes and white space, put together with blanks, are read back. *)
Definition word (w : str) : bool :=
  negb (w =?= []) && forallb (fun c => negb (is_whitespace c) && negb (c =? 34)%N && negb (c =? 39)%N && negb (c =? 92)%N) w.

Lemma arguments_loop_word w : forall out current s,
  forallb (fun c => negb (is_whitespace c) && negb (c =? 34)%N && negb (c =? 39)%N && negb (c =? 92)%N) w = true ->
  arguments_loop out current false (w ++ s) = arguments_loop out (current ++ w) false s.
Proof.
  induction w as [|c w IH]; intros out current s Hw; [by rewrite app_nil_r|]. cbn [forallb] in Hw.
  apply andb_true_iff in Hw as [Hc Hw]. rewrite !andb_true_iff, !negb_true_iff in Hc. destruct Hc as [[[Hws Hq] _] _].
  cbn [app arguments_loop]. rewrite Hq, Hws. cbn [andb negb]. rewrite IH by done. by rewrite <- app_assoc.
Qed.

Lemma arguments_loop_words ws : forall out, Forall (fun w => word w = true) ws ->
  arguments_loop out [] false (join [32%N] ws) = Some (out ++ ws).
Proof.
  induction ws as [|w ws IH]; intros out Hws; [by rewrite app_nil_r|]. inversion Hws as [|? ? Hw Hws']; subst.
  unfold word in Hw. apply andb_true_iff in Hw as [Hne%negb_true_iff%bool_decide_eq_false_1 Hw].
  destruct ws as [|w' ws].
  - cbn [join]. rewrite <- (app_nil_r w) at 1. rewrite arguments_loop_word by done. cbn [app arguments_loop].
    by rewrite bool_decide_eq_false_2.
  - cbn [join]. rewrite arguments_loop_word by done. cbn [app arguments_loop].
    change ((32 =? 34)%N) with false. change (is_whitespace 32) with true. cbn [andb negb].
    rewrite bool_decide_eq_false_2 by done. rewrite IH by done. by rewrite <- app_assoc.
Qed.
