(* ===== verification/ImportLoad.v ===== *)
(** * ImportLoad: reading an ssh_config and what it includes

    [src-tauri/src/sync/records_v3/importer/types.rs] and [source.rs]: the loader
    that reads a file and its includes within fixed limits, and the events it makes
    of them.  The file system, glob and SHA-256 are a parameter. *)

From S2P Require Import Prelude Text BTreeMap ConfigParser ConfigEdit RecordsTypes Crypto ByteStream ImportText.

Definition MAX_DEPTH : nat := 16.
Definition MAX_FILES : nat := 128.
Definition MAX_FILE_BYTES : N := 1024 * 1024.
Definition MAX_TOTAL_BYTES : N := 4 * 1024 * 1024.

Record ImportOptions := mkOptions {
  io_home : str; io_env : btree str; io_at_ms : N;
  io_host_ids : btree str; io_key_ids : btree str;
  io_excluded_sources : list str; io_reserved_host_ids : list str
}.

Record SourceLocation := mkLocation { sl_path : str; sl_line : nat }.
Record SourceFile := mkSourceFile { sf_path : str; sf_canonical : str; sf_digest : str; sf_bytes : N }.

Inductive ImportError :=
| ImIo (location : SourceLocation) (message : str)
| InvalidSource (location : SourceLocation) (reason : str)
| Cycle (location : SourceLocation)
| Limit (location : SourceLocation) (limit : str)
| PrivateKeyContent (location : SourceLocation)
| InvalidRecords (e : RecordValidationError)
| UnsupportedLegacySchema (found : N).

(** The outside: canonical paths, whether a path is a regular file and its size, at
    most so many bytes of a file, the paths a pattern matches (or [None] for a
    pattern that is not valid), and the hash. *)
Class FileSystem := {
  canonicalize : str -> result str str;
  metadata : str -> result str (bool * N);
  read_up_to : str -> N -> result str (list N);
  glob_paths : str -> option (list (result str str));
  import_sha256 : list N -> list N;
  read_up_to_bound : forall p cap b, read_up_to p cap = Ok b -> (N.of_nat (length b) <= cap)%N
}.

(** ** Events *)

Inductive Event :=
| mkEvent (directive : Directive) (location : SourceLocation) (children : list (list Event)) (issue : option (str * bool)).

Definition ev_directive (e : Event) : Directive := let '(mkEvent d _ _ _) := e in d.
Definition ev_location (e : Event) : SourceLocation := let '(mkEvent _ l _ _) := e in l.
Definition ev_children (e : Event) : list (list Event) := let '(mkEvent _ _ c _) := e in c.
Definition ev_issue (e : Event) : option (str * bool) := let '(mkEvent _ _ _ i) := e in i.
Definition set_issue (i : option (str * bool)) (e : Event) : Event := mkEvent (ev_directive e) (ev_location e) (ev_children e) i.
Definition add_child (c : list Event) (e : Event) : Event :=
  mkEvent (ev_directive e) (ev_location e) (ev_children e ++ [c]) (ev_issue e).

Record Snapshot := mkSnapshot { sn_events : list Event; sn_files : list SourceFile; sn_digest : str }.

(** [flatten]: every directive with the line it is on, the ones of a block after its
    header. *)
Fixpoint flatten_item (path : str) (i : Item) (line : nat) {struct i} : list Event * nat :=
  let go := fix go (l : list Item) (line : nat) : list Event * nat :=
    match l with
    | [] => ([], line)
    | i :: l => let '(a, n) := flatten_item path i line in let '(b, n) := go l n in (a ++ b, n)
    end in
  let event d := mkEvent d (mkLocation path line) [] None in
  match i with
  | Blank _ | Comment _ => ([], S line)
  | DirectiveItem d => ([event d], S line)
  | Host (mkHostBlock d _ b) => let '(es, n) := go b (S line) in (event d :: es, n)
  | Match (mkMatchBlock d _ b) => let '(es, n) := go b (S line) in (event d :: es, n)
  end.
Fixpoint flatten (path : str) (l : list Item) (line : nat) : list Event * nat :=
  match l with
  | [] => ([], line)
  | i :: l => let '(a, n) := flatten_item path i line in let '(b, n) := flatten path l n in (a ++ b, n)
  end.

(** ** UTF-8 and paths *)

Definition is_continuation (b : N) : bool := in_range 128 191 b.

(** [String::from_utf8]. *)
Fixpoint from_utf8 (b : list N) : option str :=
  match b with
  | [] => Some []
  | a :: r =>
      if (a <? 128)%N then s ← from_utf8 r; Some (a :: s)
      else if in_range 194 223 a then
        match r with
        | b1 :: r => if is_continuation b1 then s ← from_utf8 r; Some (((a - 192) * 64 + (b1 - 128))%N :: s) else None
        | _ => None
        end
      else if in_range 224 239 a then
        match r with
        | b1 :: b2 :: r =>
            let c := ((a - 224) * 4096 + (b1 - 128) * 64 + (b2 - 128))%N in
            if is_continuation b1 && is_continuation b2 && (2048 <=? c)%N && negb (in_range 55296 57343 c)
            then s ← from_utf8 r; Some (c :: s) else None
        | _ => None
        end
      else if in_range 240 244 a then
        match r with
        | b1 :: b2 :: b3 :: r =>
            let c := ((a - 240) * 262144 + (b1 - 128) * 4096 + (b2 - 128) * 64 + (b3 - 128))%N in
            if is_continuation b1 && is_continuation b2 && is_continuation b3 && in_range 65536 1114111 c
            then s ← from_utf8 r; Some (c :: s) else None
        | _ => None
        end
      else None
  end.

(** [[u8]::windows(n)] has a window equal to [needle]. *)
Fixpoint contains_window (needle s : list N) : bool :=
  starts_with needle s || match s with [] => false | _ :: s' => contains_window needle s' end.
Definition PRIVATE_KEY_MARK : str := lit "PRIVATE KEY-----".

(** The order of [PathBuf]: component by component. *)
Definition components (p : str) : list str :=
  (if is_absolute p then [lit "/"] else []) ++ List.filter (fun c => negb ((c =?= []) || (c =?= lit "."))) (split_char 47 p).
Fixpoint components_leb (a b : list str) : bool :=
  match a, b with
  | [], _ => true
  | _, [] => false
  | x :: a, y :: b => match str_compare x y with Lt => true | Gt => false | Eq => components_leb a b end
  end.
Fixpoint insert_path (p : str) (l : list str) : list str :=
  match l with
  | [] => [p]
  | q :: l' => if components_leb (components p) (components q) then p :: l else q :: insert_path p l'
  end.
Definition sort_paths (l : list str) : list str := foldr insert_path [] l.

(** ** The loader *)

Record Loader := mkLoader {
  ld_files : list SourceFile; ld_stack : list str; ld_visited : list str; ld_bytes : N
}.

Section Load.
Context {U : Unicode} {F : FileSystem} (options : ImportOptions).

Definition io_error (location : SourceLocation) (e : str) : ImportError := ImIo location e.

Definition expand (value : str) (relative_include : bool) : result str str :=
  expand_path value (io_home options) (io_env options) relative_include.

Definition excluded (path canonical : str) : bool :=
  existsb (fun e => (e =?= path) || match canonicalize e with Ok p => p =?= canonical | Err _ => false end)
    (io_excluded_sources options).

Definition hash_hex (b : list N) : str := hex (import_sha256 b).

(** The checks of one file and its bytes. *)
Definition read_source (path canonical : str) (s : Loader) (from : SourceLocation) : result ImportError (list N) :=
  let location := mkLocation path 1 in
  _ ← guard_err (MAX_FILES <=? length (ld_files s))%nat (Limit from (lit "files"));
  '(is_file, len) ← map_err (io_error location) (metadata canonical);
  _ ← guard_err (negb is_file) (InvalidSource location (lit "configuration source must be a regular file"));
  _ ← guard_err (MAX_FILE_BYTES <? len)%N (Limit location (lit "file bytes"));
  _ ← guard_err (MAX_TOTAL_BYTES - ld_bytes s <? len)%N (Limit location (lit "total bytes"));
  let cap := N.min (MAX_FILE_BYTES + 1) (MAX_TOTAL_BYTES - ld_bytes s + 1) in
  bytes ← map_err (io_error location) (read_up_to canonical cap);
  let size := N.of_nat (length bytes) in
  _ ← guard_err (MAX_FILE_BYTES <? size)%N (Limit location (lit "file bytes"));
  _ ← guard_err (MAX_TOTAL_BYTES <? ld_bytes s + size)%N (Limit location (lit "total bytes"));
  _ ← guard_err (contains_window PRIVATE_KEY_MARK bytes) (PrivateKeyContent location);
  Ok bytes.

(** The matches of one pattern, at most [MAX_FILES] of them, sorted. *)
Fixpoint collect (location : SourceLocation) (found : list str) (l : list (result str str)) : result ImportError (list str) :=
  match l with
  | [] => Ok (sort_paths found)
  | Err e :: _ => Err (ImIo location e)
  | Ok p :: l =>
      if (MAX_FILES <=? length found)%nat then Err (Limit location (lit "files"))
      else collect location (found ++ [p]) l
  end.

Definition or_issue (i : str * bool) (e : Event) : Event :=
  set_issue (Some (default i (ev_issue e))) e.

(** An issue of a file does not replace one that blocks the connection. *)
Definition note_issue (i : option (str * bool)) (e : Event) : Event :=
  match i with
  | Some i => if is_none_or (fun x => negb x.2) (ev_issue e) then set_issue (Some i) e else e
  | None => e
  end.

(** What [file] returns: the events, and an issue for the include that named it. *)
Definition Loaded : Type := list Event * option (str * bool).

Section Includes.
(** The recursive call, for a file one level deeper. *)
Variable (file : str -> SourceLocation -> Loader -> result ImportError (Loaded * Loader)).

Fixpoint include_files (event : Event) (paths : list str) (s : Loader) : result ImportError (Event * Loader) :=
  match paths with
  | [] => Ok (event, s)
  | p :: paths =>
      '((child, issue), s) ← file p (ev_location event) s;
      include_files (add_child child (note_issue issue event)) paths s
  end.

Fixpoint include_arguments (event : Event) (args : list str) (s : Loader) : result ImportError (Event * Loader) :=
  match args with
  | [] => Ok (event, s)
  | a :: args =>
      match expand a true with
      | Err reason => include_arguments (set_issue (Some (reason, true)) event) args s
      | Ok pattern =>
          entries ← ok_or (glob_paths pattern) (InvalidSource (ev_location event) (lit "invalid Include glob"));
          matches ← collect (ev_location event) [] entries;
          let event := if matches =?= [] then or_issue (lit "Include matched no files", false) event else event in
          '(event, s) ← include_files event matches s;
          include_arguments event args s
      end
  end.

Definition include_event (event : Event) (s : Loader) : result ImportError (Event * Loader) :=
  if negb (key (ev_directive event) =?= lit "include") then Ok (event, s)
  else match arguments (value (ev_directive event)) with
       | None => Ok (set_issue (Some (lit "Include arguments cannot be resolved statically", true)) event, s)
       | Some args =>
           let event := if args =?= [] then set_issue (Some (lit "Include has no paths", true)) event else event in
           include_arguments event args s
       end.

Fixpoint include_events (events : list Event) (s : Loader) : result ImportError (list Event * Loader) :=
  match events with
  | [] => Ok ([], s)
  | e :: events =>
      '(e, s) ← include_event e s;
      '(es, s) ← include_events events s;
      Ok (e :: es, s)
  end.
End Includes.

(** [Loader::file]; [room] is how many levels may follow: [MAX_DEPTH + 1 - depth]. *)
Fixpoint load_file (room : nat) (path : str) (from : SourceLocation) (s : Loader) : result ImportError (Loaded * Loader) :=
  match room with
  | O => Err (Limit from (lit "depth"))
  | S room' =>
      canonical ← map_err (io_error from) (canonicalize path);
      _ ← guard_err (existsb (fun p => p =?= canonical) (ld_stack s)) (Cycle from);
      if excluded path canonical
      then Ok (([], Some (lit "managed source is already represented by synced records", false)), s)
      else if existsb (fun p => p =?= canonical) (ld_visited s)
      then Ok (([], Some (lit "repeated physical Include was deduplicated; review conditional semantics", true)), s)
      else
        let s := mkLoader (ld_files s) (ld_stack s) (canonical :: ld_visited s) (ld_bytes s) in
        bytes ← read_source path canonical s from;
        text ← ok_or (from_utf8 bytes) (InvalidSource (mkLocation path 1) (lit "configuration must be UTF-8 text"));
        let size := N.of_nat (length bytes) in
        let s := mkLoader (ld_files s ++ [mkSourceFile path canonical (hash_hex bytes) size]) (canonical :: ld_stack s)
                   (ld_visited s) (ld_bytes s + size) in
        let events := (flatten path (parse_file text).1 1).1 in
        '(events, s) ← include_events (load_file room') events s;
        Ok ((events, None),
            mkLoader (ld_files s) (List.filter (fun p => negb (p =?= canonical)) (ld_stack s)) (ld_visited s) (ld_bytes s))
  end.

(** [u64::to_be_bytes], and one length-prefixed field of the digest. *)
Definition to_be64 (n : N) : list N := to_be32 (n / 4294967296 mod 4294967296) ++ to_be32 (n mod 4294967296).
Definition field (b : list N) : list N := to_be64 (N.of_nat (length b)) ++ b.

Definition snapshot_digest (files : list SourceFile) : str :=
  hash_hex (lit "sshelter-import-snapshot-v1" ++ field (utf8 (io_home options))
    ++ flat_map (fun e => field (utf8 e.1) ++ field (utf8 e.2)) (io_env options)
    ++ flat_map (fun f => field (utf8 (sf_path f)) ++ field (utf8 (sf_canonical f)) ++ field (utf8 (sf_digest f))) files).

Definition load (path : str) : result ImportError Snapshot :=
  let location := mkLocation path 1 in
  if negb (is_absolute path) || negb (is_absolute (io_home options))
  then Err (InvalidSource location (lit "source and home must be explicit absolute paths"))
  else
    '((events, _), s) ← load_file (S MAX_DEPTH) path location (mkLoader [] [] [] 0);
    Ok (mkSnapshot events (ld_files s) (snapshot_digest (ld_files s))).

Definition memory_snapshot (label text : str) : result ImportError Snapshot :=
  let location := mkLocation label 1 in
  _ ← guard_err (MAX_FILE_BYTES <? N.of_nat (str_len text))%N (Limit location (lit "file bytes"));
  _ ← guard_err (contains_window PRIVATE_KEY_MARK text) (PrivateKeyContent location);
  let events := map (fun e => if key (ev_directive e) =?= lit "include"
                              then set_issue (Some (lit "legacy relay Include belongs to another device and is not opened", true)) e
                              else e) (flatten label (parse_file text).1 1).1 in
  let files := [mkSourceFile label label (hash_hex (utf8 text)) (N.of_nat (str_len text))] in
  Ok (mkSnapshot events files (snapshot_digest files)).
End Load.

(** ** The limits of an import

    Whatever files an ssh_config includes, the loader reads at most [MAX_FILES] of
    them, each once, each within [MAX_FILE_BYTES] and all within [MAX_TOTAL_BYTES],
    and none that holds a private key. *)

Definition total_bytes (l : list SourceFile) : N := foldr (fun f n => sf_bytes f + n)%N 0%N l.

Section Limits.
Context {U : Unicode} {F : FileSystem} (options : ImportOptions).

(** What the record of a file that was read says of its bytes. *)
Definition source_ok (f : SourceFile) : Prop := exists bytes text,
  sf_digest f = hash_hex bytes /\ sf_bytes f = N.of_nat (length bytes) /\ from_utf8 bytes = Some text /\
  contains_window PRIVATE_KEY_MARK bytes = false /\ (sf_bytes f <= MAX_FILE_BYTES)%N.

Record within_limits (l : list SourceFile) : Prop := {
  wl_count : length l <= MAX_FILES;
  wl_total : (total_bytes l <= MAX_TOTAL_BYTES)%N;
  wl_sources : Forall source_ok l;
  wl_distinct : NoDup (map sf_canonical l)
}.

(** The loader between two files. *)
Record loader_ok (s : Loader) : Prop := {
  lo_limits : within_limits (ld_files s);
  lo_bytes : ld_bytes s = total_bytes (ld_files s);
  lo_visited f : f ∈ ld_files s -> sf_canonical f ∈ ld_visited s
}.

Lemma total_bytes_snoc l f : total_bytes (l ++ [f]) = (total_bytes l + sf_bytes f)%N.
Proof. induction l as [|g l IH]; cbn; [lia|]. unfold total_bytes in *. cbn. rewrite IH. lia. Qed.

Lemma read_source_ok path canonical s from bytes : read_source path canonical s from = Ok bytes ->
  length (ld_files s) < MAX_FILES /\ (N.of_nat (length bytes) <= MAX_FILE_BYTES)%N /\
  (ld_bytes s + N.of_nat (length bytes) <= MAX_TOTAL_BYTES)%N /\ contains_window PRIVATE_KEY_MARK bytes = false.
Proof.
  unfold read_source. intros H. ok_inv. destruct v0 as [is_file len]. ok_inv. breflect. split_and!; [lia..|done].
Qed.

(** Reading one more file that has not been read. *)
Lemma loader_ok_read path canonical s from bytes text st vis :
  loader_ok s -> canonical ∉ ld_visited s -> read_source path canonical (mkLoader (ld_files s) st vis (ld_bytes s)) from = Ok bytes ->
  from_utf8 bytes = Some text ->
  loader_ok (mkLoader (ld_files s ++ [mkSourceFile path canonical (hash_hex bytes) (N.of_nat (length bytes))])
               (canonical :: ld_stack s) (canonical :: ld_visited s) (ld_bytes s + N.of_nat (length bytes))).
Proof.
  intros [[Hc Ht Hs Hd] Hb Hv] Hnew (H1 & H2 & H3 & H4)%read_source_ok Htext. cbn in H1, H2, H3.
  split; [split| |]; cbn [ld_files ld_bytes ld_visited].
  - rewrite length_app. cbn. lia.
  - rewrite total_bytes_snoc. cbn. lia.
  - apply Forall_app. split; [done|]. apply Forall_singleton. by exists bytes, text.
  - rewrite map_app. apply NoDup_app. split_and!; [done| |apply NoDup_singleton].
    intros c Hin Hc'%list_elem_of_singleton. cbn in Hc'. subst c. apply list_elem_of_fmap in Hin as (f & -> & Hf). apply Hnew. by apply Hv.
  - rewrite total_bytes_snoc. cbn. lia.
  - intros f [Hf| ->%list_elem_of_singleton]%elem_of_app; apply elem_of_cons; [right; by apply Hv|by left].
Qed.

Definition keeps (file : str -> SourceLocation -> Loader -> result ImportError (Loaded * Loader)) : Prop :=
  forall path from s r s', loader_ok s -> file path from s = Ok (r, s') -> loader_ok s'.

Section Includes.
Context (file : str -> SourceLocation -> Loader -> result ImportError (Loaded * Loader)) (Hfile : keeps file).

Lemma include_files_keeps paths : forall event s e s', loader_ok s ->
  include_files file event paths s = Ok (e, s') -> loader_ok s'.
Proof.
  induction paths as [|p paths IH]; intros event s e s' Hs; cbn [include_files]; intros H; ok_inv; [done|].
  destruct v as [[child issue] s1]. apply (IH _ _ _ _ (Hfile _ _ _ _ _ Hs Hok) H).
Qed.

Lemma include_arguments_keeps args : forall event s e s', loader_ok s ->
  include_arguments options file event args s = Ok (e, s') -> loader_ok s'.
Proof.
  induction args as [|a args IH]; intros event s e s' Hs; cbn [include_arguments]; intros H; ok_inv; [done|].
  destruct (expand options a true); [|by eapply IH]. ok_inv. destruct v1 as [e1 s1].
  apply include_files_keeps in Hok1; [|done]. by eapply IH.
Qed.

Lemma include_event_keeps event s e s' : loader_ok s -> include_event options file event s = Ok (e, s') -> loader_ok s'.
Proof.
  intros Hs. unfold include_event. repeat case_match; intros Hok; ok_inv; simplify_eq; try done; by eapply include_arguments_keeps.
Qed.

Lemma include_events_keeps events : forall s es s', loader_ok s ->
  include_events options file events s = Ok (es, s') -> loader_ok s'.
Proof.
  induction events as [|ev events IH]; intros s es s' Hs; cbn [include_events]; intros H; ok_inv; simplify_eq; [done|].
  destruct v as [e1 s1]. ok_inv. destruct v as [e2 s2]. ok_inv. simplify_eq.
  apply include_event_keeps in Hok; [|done]. by eapply IH.
Qed.
End Includes.

Lemma load_file_keeps room : keeps (load_file options room).
Proof.
  induction room as [|room IH]; intros path from s r s' Hs; cbn [load_file]; intros H; ok_inv.
  destruct (excluded _ _ _); [ok_inv; by simplify_eq|]. destruct (existsb _ (ld_visited s)) eqn:Hv; [ok_inv; by simplify_eq|].
  ok_inv. destruct v3 as [events s1]. ok_inv. simplify_eq. cbn [ld_files ld_stack ld_visited ld_bytes] in *.
  apply (include_events_keeps _ IH) in Hok3.
  - destruct Hok3 as [? ? ?]. by split.
  - apply (loader_ok_read _ _ _ from _ v2 (ld_stack s) (v :: ld_visited s)); try done.
    rewrite existsb_none in Hv. intros Hin%Hv. by apply bool_decide_eq_false_1 in Hin.
Qed.

Lemma loader_ok_empty : loader_ok (mkLoader [] [] [] 0).
Proof. split; [split|done|]; cbn; [unfold MAX_FILES; lia|done|constructor|constructor|by intros f ?%not_elem_of_nil]. Qed.

(** C36.  Whatever a configuration includes, an import reads at most 128 files, no file
    twice, none of more than one mebibyte and no more than four mebibytes in all, and takes no file
    that holds a private key or is not text; each file is recorded with the digest of the bytes that were read. *)
Theorem import_within_limits path snapshot : load options path = Ok snapshot -> within_limits (sn_files snapshot).
Proof.
  unfold load. destruct (negb _ || negb _); [done|]. intros H. ok_inv. destruct v as [[events issue] s]. ok_inv. cbn.
  apply (lo_limits s), (load_file_keeps _ _ _ _ _ _ loader_ok_empty Hok).
Qed.
End Limits.
