(* ===== verification/ImportResolve.v ===== *)
(** * ImportResolve: from the events of an ssh_config to host records

    [src-tauri/src/sync/records_v3/importer/resolve.rs]: the aliases that are
    defined, the settings each of them gets, their keys and their jump hosts, and
    what is left for review.  Random identifiers are a stream that is passed along. *)

From S2P Require Import Prelude Text BTreeMap Json ConfigParser RecordsTypes RecordsValidate Crypto ImportText ImportLoad.

Record ImportWarning := mkWarning {
  iw_location : SourceLocation; iw_keyword : str; iw_reason : str; iw_blocks_connection : bool; iw_alias : option str
}.
Record KeyReferenceSuggestion := mkKeyRef {
  kr_host_id : str; kr_key_id : str; kr_value : str; kr_resolved_path : option str;
  kr_fingerprint : option str; kr_will_copy : bool
}.
Record ImportPreview := mkPreview {
  candidates : list HostRecord; warnings : list ImportWarning; provenance : list SourceFile;
  key_references : list KeyReferenceSuggestion; host_ids : btree str; source_digest : str
}.

Inductive Gate := Active | Inactive | Unknown.
#[export] Instance gate_eq_dec : EqDecision Gate.
Proof. solve_decision. Defined.

(** The payload that is being evaluated, without the settings that cannot be
    imported: those are kept apart and put in when it is done. *)
Record Evaluated := mkEvaluated {
  e_defined : bool; e_payload : HostPayload; e_seen : list str;
  e_keys : list (str * SourceLocation); e_jump : option (str * SourceLocation);
  e_unsupported : list UnsupportedSetting; e_warnings : list ImportWarning
}.

Definition set_defined (e : Evaluated) : Evaluated :=
  mkEvaluated true (e_payload e) (e_seen e) (e_keys e) (e_jump e) (e_unsupported e) (e_warnings e).
Definition set_payload (p : HostPayload) (e : Evaluated) : Evaluated :=
  mkEvaluated (e_defined e) p (e_seen e) (e_keys e) (e_jump e) (e_unsupported e) (e_warnings e).
Definition set_seen (k : str) (e : Evaluated) : Evaluated :=
  mkEvaluated (e_defined e) (e_payload e) (k :: e_seen e) (e_keys e) (e_jump e) (e_unsupported e) (e_warnings e).
Definition add_key (k : str * SourceLocation) (e : Evaluated) : Evaluated :=
  mkEvaluated (e_defined e) (e_payload e) (e_seen e) (e_keys e ++ [k]) (e_jump e) (e_unsupported e) (e_warnings e).
Definition set_jump (j : str * SourceLocation) (e : Evaluated) : Evaluated :=
  mkEvaluated (e_defined e) (e_payload e) (e_seen e) (e_keys e) (Some j) (e_unsupported e) (e_warnings e).

(** [unsupported]. *)
Definition report (alias keyword value : str) (location : SourceLocation) (reason : str) (blocks : bool) (e : Evaluated) : Evaluated :=
  mkEvaluated (e_defined e) (e_payload e) (e_seen e) (e_keys e) (e_jump e)
    (e_unsupported e ++ [mkUnsupported keyword value blocks])
    (e_warnings e ++ [mkWarning location keyword reason blocks (Some alias)]).
Definition report_event (alias : str) (ev : Event) (reason : str) (blocks : bool) (e : Evaluated) : Evaluated :=
  report alias (keyword (ev_directive ev)) (value (ev_directive ev)) (ev_location ev) reason blocks e.

(** ** Fields of a payload *)

Definition with_hostname (v : str) (p : HostPayload) : HostPayload :=
  mkHost (hp_schema p) (hp_group_id p) (hp_inherit p) (hp_alias p) v (hp_port p) (hp_user p) (hp_auth p) (hp_key_id p)
    (hp_jump p) (hp_keepalive_secs p) (hp_keepalive_max_missed p) (hp_connect_timeout_secs p) (hp_host_key p) (hp_tags p) (hp_notes p) (hp_imported p).
Definition with_port (v : N) (p : HostPayload) : HostPayload :=
  mkHost (hp_schema p) (hp_group_id p) (hp_inherit p) (hp_alias p) (hp_hostname p) v (hp_user p) (hp_auth p) (hp_key_id p)
    (hp_jump p) (hp_keepalive_secs p) (hp_keepalive_max_missed p) (hp_connect_timeout_secs p) (hp_host_key p) (hp_tags p) (hp_notes p) (hp_imported p).
Definition with_user (v : str) (p : HostPayload) : HostPayload :=
  mkHost (hp_schema p) (hp_group_id p) (hp_inherit p) (hp_alias p) (hp_hostname p) (hp_port p) v (hp_auth p) (hp_key_id p)
    (hp_jump p) (hp_keepalive_secs p) (hp_keepalive_max_missed p) (hp_connect_timeout_secs p) (hp_host_key p) (hp_tags p) (hp_notes p) (hp_imported p).
Definition with_auth (v : AuthKind) (p : HostPayload) : HostPayload :=
  mkHost (hp_schema p) (hp_group_id p) (hp_inherit p) (hp_alias p) (hp_hostname p) (hp_port p) (hp_user p) v (hp_key_id p)
    (hp_jump p) (hp_keepalive_secs p) (hp_keepalive_max_missed p) (hp_connect_timeout_secs p) (hp_host_key p) (hp_tags p) (hp_notes p) (hp_imported p).
Definition with_key_id (v : option str) (p : HostPayload) : HostPayload :=
  mkHost (hp_schema p) (hp_group_id p) (hp_inherit p) (hp_alias p) (hp_hostname p) (hp_port p) (hp_user p) (hp_auth p) v
    (hp_jump p) (hp_keepalive_secs p) (hp_keepalive_max_missed p) (hp_connect_timeout_secs p) (hp_host_key p) (hp_tags p) (hp_notes p) (hp_imported p).
Definition with_jump (v : list str) (p : HostPayload) : HostPayload :=
  mkHost (hp_schema p) (hp_group_id p) (hp_inherit p) (hp_alias p) (hp_hostname p) (hp_port p) (hp_user p) (hp_auth p) (hp_key_id p)
    v (hp_keepalive_secs p) (hp_keepalive_max_missed p) (hp_connect_timeout_secs p) (hp_host_key p) (hp_tags p) (hp_notes p) (hp_imported p).
Definition with_timing (secs missed timeout : N) (p : HostPayload) : HostPayload :=
  mkHost (hp_schema p) (hp_group_id p) (hp_inherit p) (hp_alias p) (hp_hostname p) (hp_port p) (hp_user p) (hp_auth p) (hp_key_id p)
    (hp_jump p) secs missed timeout (hp_host_key p) (hp_tags p) (hp_notes p) (hp_imported p).
Definition with_imported (v : option ImportedSettings) (p : HostPayload) : HostPayload :=
  mkHost (hp_schema p) (hp_group_id p) (hp_inherit p) (hp_alias p) (hp_hostname p) (hp_port p) (hp_user p) (hp_auth p) (hp_key_id p)
    (hp_jump p) (hp_keepalive_secs p) (hp_keepalive_max_missed p) (hp_connect_timeout_secs p) (hp_host_key p) (hp_tags p) (hp_notes p) v.

Definition empty_payload (alias : str) (location : SourceLocation) (options : ImportOptions) : HostPayload :=
  mkHost 2 None [] alias alias 22 [] AuthPassword None [] 30 3 15 None [] []
    (Some (mkImported (sl_path location) (io_at_ms options) [])).

(** ** Aliases *)

(** [discover]: the patterns of every [Host] line that name one host, in order and
    without repetition, the ones of included files after the line that includes. *)
Definition plain_alias (p : str) : bool :=
  negb (contains_any [42; 63]%N p) && negb (starts_with (lit "!") p) && valid_alias p.
Fixpoint add_aliases (location : SourceLocation) (ps : list str) (aliases : list (str * SourceLocation)) : list (str * SourceLocation) :=
  match ps with
  | [] => aliases
  | p :: ps =>
      add_aliases location ps
        (if plain_alias p && negb (existsb (fun a => a.1 =?= p) aliases) then aliases ++ [(p, location)] else aliases)
  end.
Fixpoint discover_event (ev : Event) (aliases : list (str * SourceLocation)) {struct ev} : list (str * SourceLocation) :=
  match ev with
  | mkEvent d location children _ =>
      let aliases := if key d =?= lit "host"
                     then match arguments (value d) with Some ps => add_aliases location ps aliases | None => aliases end
                     else aliases in
      fold_left (fun a c => fold_left (fun a e => discover_event e a) c a) children aliases
  end.
Definition discover (events : list Event) (aliases : list (str * SourceLocation)) : list (str * SourceLocation) :=
  fold_left (fun a e => discover_event e a) events aliases.

(** ** Settings *)

(** A host name or user that is what it says. *)
Definition static_name (v : str) : bool :=
  negb (v =?= []) && negb (contains_any [37; 36]%N v) && negb (existsb (fun c => is_whitespace c || is_control c) v).

(** The value of one setting, if it can be imported: what it changes. *)
Definition import_setting (k : str) (location : SourceLocation) (v : option str) (e : Evaluated) : option Evaluated :=
  let p := e_payload e in
  if k =?= lit "hostname" then s ← opt_filter static_name v; Some (set_payload (with_hostname s p) e)
  else if k =?= lit "user" then s ← opt_filter static_name v; Some (set_payload (with_user s p) e)
  else if k =?= lit "port" then
    n ← opt_filter (fun n => negb (n =? 0)%N) (v ≫= parse_uint u16_max); Some (set_payload (with_port n p) e)
  else if k =?= lit "connecttimeout" then
    n ← opt_filter (fun n => negb (n =? 0)%N) (v ≫= parse_uint u32_max);
    Some (set_payload (with_timing (hp_keepalive_secs p) (hp_keepalive_max_missed p) n p) e)
  else if k =?= lit "serveraliveinterval" then
    n ← v ≫= parse_uint u32_max;
    Some (set_payload (with_timing n (hp_keepalive_max_missed p) (hp_connect_timeout_secs p) p) e)
  else if k =?= lit "serveralivecountmax" then
    n ← v ≫= parse_uint u32_max;
    Some (set_payload (with_timing (hp_keepalive_secs p) n (hp_connect_timeout_secs p) p) e)
  else if k =?= lit "proxyjump" then
    s ← opt_filter (fun s => negb (contains_any [37; 36]%N s)) v; Some (set_jump (s, location) e)
  else if k =?= lit "preferredauthentications" then
    if v =?= Some (lit "publickey,password,keyboard-interactive") then Some (set_payload (with_auth AuthKey p) e)
    else if v =?= Some (lit "password,keyboard-interactive") then Some (set_payload (with_auth AuthPassword p) e)
    else if v =?= Some (lit "keyboard-interactive") then Some (set_payload (with_auth AuthInteractive p) e)
    else None
  else None.

(** A directive in an active scope. *)
Definition apply_directive (alias : str) (ev : Event) (e : Evaluated) : Evaluated :=
  let d := ev_directive ev in
  if key d =?= lit "identityfile" then
    match scalar (value d) with
    | Some v => add_key (v, ev_location ev) e
    | None => report_event alias ev (lit "IdentityFile value cannot be parsed statically") true e
    end
  else if existsb (fun k => k =?= key d) (e_seen e) then e
  else if key d =?= lit "loglevel" then
    set_seen (key d) (report_event alias ev (lit "logging annotation is preserved") false e)
  else match import_setting (key d) (ev_location ev) (scalar (value d)) e with
       | Some e => set_seen (key d) e
       | None => report_event alias ev (lit "setting is unsupported, invalid, or needs runtime/token evaluation") true e
       end.

(** One event: the gate after it, and what was evaluated.  An included file starts
    with the gate in force and does not change it. *)
Fixpoint evaluate_event (alias : str) (inherited : Gate) (st : Gate * Evaluated) (ev : Event) {struct ev} : Gate * Evaluated :=
  let '(gate, e) := st in
  match ev with
  | mkEvent d location children issue =>
      if key d =?= lit "host" then
        match arguments (value d) with
        | Some patterns =>
            let gate := if matches_patterns patterns alias then inherited else Inactive in
            (gate, if negb (gate =?= Inactive) && existsb (fun p => p =?= alias) patterns then set_defined e else e)
        | None => (Unknown, report_event alias ev (lit "Host patterns cannot be evaluated statically") true e)
        end
      else if key d =?= lit "match" then
        (Unknown, report_event alias ev (lit "Match conditions are preserved and never executed") true e)
      else if gate =?= Inactive then (gate, e)
      else if key d =?= lit "include" then
        let e := match issue with Some (reason, blocks) => report_event alias ev reason blocks e | None => e end in
        (gate, fold_left (fun e file =>
                 if gate =?= Inactive then e else (fold_left (evaluate_event alias gate) file (gate, e)).2) children e)
      else if gate =?= Unknown then
        (gate, report_event alias ev (lit "value depends on an unevaluated Match condition") true e)
      else (gate, apply_directive alias ev e)
  end.

(** The events of one file: it starts with the gate it inherits. *)
Definition evaluate (events : list Event) (alias : str) (inherited : Gate) (e : Evaluated) : Evaluated :=
  if inherited =?= Inactive then e else (fold_left (evaluate_event alias inherited) events (inherited, e)).2.

(** ** Identifiers *)

(** The bytes [getrandom] gives, one list per call; none left is its failure. *)
Definition Random : Type := list (list N).

Definition random_id (r : Random) : result ImportError (str * Random) :=
  match r with
  | b :: r => Ok (hex b, r)
  | [] => Err (InvalidSource (mkLocation (lit "preview") 0) (lit "cannot create preview record id"))
  end.

(** A known identifier, or a new one. *)
Definition id_for (known : option str) (r : Random) : result ImportError (str * Random) :=
  match known with Some id => Ok (id, r) | None => random_id r end.

(** ** Keys *)

Definition is_none_word (v : str) : bool := eq_ignore_ascii_case v (lit "none").

Record KeyState := mkKeyState {
  ks_eval : Evaluated; ks_ids : btree str; ks_known : list str; ks_refs : list KeyReferenceSuggestion; ks_random : Random
}.

(** One [IdentityFile]: the first key becomes the host's, further ones need review. *)
Definition add_identity (options : ImportOptions) (alias id : str) (explicit_auth : bool)
    (k : str * SourceLocation) (s : KeyState) : result ImportError KeyState :=
  let '(v, location) := k in
  if is_none_word v then Ok s
  else
    let resolved := result_ok (expand options v false) in
    let identity := default v resolved in
    if existsb (fun i => i =?= identity) (ks_known s) then Ok s
    else
      '(key_id, r) ← id_for (bt_get identity (ks_ids s)) (ks_random s);
      let ids := bt_insert identity key_id (ks_ids s) in
      let e := ks_eval s in
      let e := match hp_key_id (e_payload e) with
               | None =>
                   let p := with_key_id (Some key_id) (e_payload e) in
                   set_payload (if explicit_auth then p else with_auth AuthKey p) e
               | Some _ => report alias (lit "IdentityFile") v location
                             (lit "the current host schema has one key reference; review additional keys") true e
               end in
      let e := if is_none resolved || ends_with (lit ".pub") (to_ascii_lowercase v)
               then report alias (lit "IdentityFile") v location (lit "key source is not a static private-key file path") true e
               else e in
      Ok (mkKeyState e ids (identity :: ks_known s) (ks_refs s ++ [mkKeyRef id key_id v resolved None false]) r).

Fixpoint add_identities (options : ImportOptions) (alias id : str) (explicit_auth : bool)
    (l : list (str * SourceLocation)) (s : KeyState) : result ImportError KeyState :=
  match l with
  | [] => Ok s
  | k :: l => s ← add_identity options alias id explicit_auth k s; add_identities options alias id explicit_auth l s
  end.

(** A host that logs in with a key, but names none. *)
Definition missing_key (alias id : str) (s : KeyState) : result ImportError KeyState :=
  let e := ks_eval s in
  match hp_auth (e_payload e), hp_key_id (e_payload e) with
  | AuthKey, None =>
      let identity := lit "missing key for " ++ alias in
      '(key_id, r) ← id_for (bt_get identity (ks_ids s)) (ks_random s);
      Ok (mkKeyState (set_payload (with_key_id (Some key_id) (e_payload e)) e) (bt_insert identity key_id (ks_ids s)) (ks_known s)
            (ks_refs s ++ [mkKeyRef id key_id identity None None false]) r)
  | _, _ => Ok s
  end.

(** ** One alias *)

Record ImportState := mkImportState {
  im_preview : ImportPreview; im_key_ids : btree str; im_jumps : list (nat * (str * SourceLocation)); im_random : Random
}.

Definition empty_evaluated (p : HostPayload) : Evaluated := mkEvaluated false p [] [] None [] [].

(** The evaluated payload with the settings that were not imported. *)
Definition finish_payload (e : Evaluated) : HostPayload :=
  with_imported ((fun i => mkImported (is_source i) (is_at_ms i) (unsupported i ++ e_unsupported e)) <$> hp_imported (e_payload e))
    (e_payload e).

Definition add_alias (options : ImportOptions) (events : list Event) (alias : str) (location : SourceLocation)
    (s : ImportState) : result ImportError ImportState :=
  '(id, r) ← id_for (bt_get alias (io_host_ids options)) (im_random s);
  let e := evaluate events alias Active (empty_evaluated (empty_payload alias location options)) in
  if negb (e_defined e) then Ok (mkImportState (im_preview s) (im_key_ids s) (im_jumps s) r)
  else
    let explicit_auth := existsb (fun k => k =?= lit "preferredauthentications") (e_seen e) in
    ks ← add_identities options alias id explicit_auth (e_keys e) (mkKeyState e (im_key_ids s) [] [] r);
    ks ← missing_key alias id ks;
    let e := ks_eval ks in
    let p := im_preview s in
    let jumps := match e_jump e with
                 | Some j => im_jumps s ++ [(length (candidates p), j)]
                 | None => im_jumps s
                 end in
    Ok (mkImportState
          (mkPreview (candidates p ++ [mkHostRecord id Local (finish_payload e)]) (warnings p ++ e_warnings e) (provenance p)
             (key_references p ++ ks_refs ks) (bt_insert alias id (host_ids p)) (source_digest p))
          (ks_ids ks) jumps (ks_random ks)).

Fixpoint add_all (options : ImportOptions) (events : list Event) (aliases : list (str * SourceLocation)) (s : ImportState)
  : result ImportError ImportState :=
  match aliases with
  | [] => Ok s
  | (alias, location) :: aliases => s ← add_alias options events alias location s; add_all options events aliases s
  end.

(** ** Jump hosts *)

Definition set_candidates (l : list HostRecord) (p : ImportPreview) : ImportPreview :=
  mkPreview l (warnings p) (provenance p) (key_references p) (host_ids p) (source_digest p).
Definition on_host (f : HostPayload -> HostPayload) (h : HostRecord) : HostRecord :=
  mkHostRecord (hr_id h) (hr_scope h) (f (hr_payload h)).

Definition jump_warning (index : nat) (value : str) (location : SourceLocation) (reason : str) (p : ImportPreview) : ImportPreview :=
  let add := fun i => mkImported (is_source i) (is_at_ms i) (unsupported i ++ [mkUnsupported (lit "ProxyJump") value true]) in
  let alias := (fun h => hp_alias (hr_payload h)) <$> candidates p !! index in
  mkPreview (alter (on_host (fun q => with_imported (add <$> hp_imported q) q)) index (candidates p))
    (warnings p ++ [mkWarning location (lit "ProxyJump") reason true alias]) (provenance p) (key_references p) (host_ids p) (source_digest p).

Definition matching (name : str) (l : list HostRecord) : list nat :=
  omap (fun e => if hp_alias (hr_payload e.2) =?= name then Some e.1 else None) (imap pair l).

(** A host for an endpoint that is not saved. *)
Definition jump_alias (name : str) : str := if valid_alias name then name else lit "jump-" ++ hex (utf8 name).

(** The host one endpoint of a route stands for, added if need be; or the reason why
    there is none. *)
Definition jump_host (options : ImportOptions) (location : SourceLocation) (allow_new : bool) (token : str)
    (p : ImportPreview) (r : Random) : result ImportError (result str nat * ImportPreview * Random) :=
  match parse_jump token with
  | None => Ok (Err (lit "ProxyJump endpoint is not static or has invalid syntax"), p, r)
  | Some target =>
      match matching (jt_name target) (candidates p), jt_user target, jt_port target with
      | [found], user, port =>
          match candidates p !! found with
          | Some saved =>
              if is_some_and (fun n => negb (n =? hp_port (hr_payload saved))%N) port
                 || is_some_and (fun u => negb (u =?= hp_user (hr_payload saved))) user
              then Ok (Err (lit "endpoint override does not match the saved jump host's identity"), p, r)
              else Ok (Ok found, p, r)
          | None => Ok (Ok found, p, r)
          end
      | [], Some user, Some port =>
          if negb allow_new
          then Ok (Err (lit "ProxyJump must refer to a saved host or an unambiguous complete user@hostname:port endpoint"), p, r)
          else
            let alias := jump_alias (jt_name target) in
            if existsb (fun h => hp_alias (hr_payload h) =?= alias) (candidates p)
            then Ok (Err (lit "new jump endpoint has an ambiguous alias"), p, r)
            else
              '(id, r) ← id_for (bt_get alias (io_host_ids options)) r;
              let payload := with_port port (with_user user (with_hostname (jt_name target) (empty_payload alias location options))) in
              Ok (Ok (length (candidates p)),
                  mkPreview (candidates p ++ [mkHostRecord id Local payload]) (warnings p) (provenance p) (key_references p)
                    (bt_insert alias id (host_ids p)) (source_digest p), r)
      | _, _, _ => Ok (Err (lit "ProxyJump must refer to a saved host or an unambiguous complete user@hostname:port endpoint"), p, r)
      end
  end.

Definition push_jump (index : nat) (id : str) (p : ImportPreview) : ImportPreview :=
  set_candidates (alter (on_host (fun q => with_jump (hp_jump q ++ [id]) q)) index (candidates p)) p.

Fixpoint link_tokens (options : ImportOptions) (index : nat) (value : str) (location : SourceLocation) (allow_new : bool)
    (tokens : list str) (p : ImportPreview) (r : Random) : result ImportError (ImportPreview * Random) :=
  match tokens with
  | [] => Ok (p, r)
  | token :: tokens =>
      '(found, p, r) ← jump_host options location allow_new token p r;
      let p := match found with
               | Err reason => jump_warning index value location reason p
               | Ok i => match candidates p !! i with Some h => push_jump index (hr_id h) p | None => p end
               end in
      link_tokens options index value location allow_new tokens p r
  end.

Fixpoint link_jumps (options : ImportOptions) (allow_new : bool) (jumps : list (nat * (str * SourceLocation)))
    (p : ImportPreview) (r : Random) : result ImportError (ImportPreview * Random) :=
  match jumps with
  | [] => Ok (p, r)
  | (index, (value, location)) :: jumps =>
      if is_none_word value then link_jumps options allow_new jumps p r
      else
        '(p, r) ← link_tokens options index value location allow_new (split_char 44 value) p r;
        link_jumps options allow_new jumps p r
  end.

(** ** Whole imports *)

Section Resolve.
Context {U : Unicode} {F : FileSystem} {L : SshKeyLib}.

Definition resolve_import (options : ImportOptions) (snapshot : Snapshot) (r : Random) : result ImportError (ImportPreview * Random) :=
  let aliases := discover (sn_events snapshot) [] in
  let preview := mkPreview [] [] (sn_files snapshot) [] [] (sn_digest snapshot) in
  s ← add_all options (sn_events snapshot) aliases (mkImportState preview (io_key_ids options) [] r);
  '(p, r) ← link_jumps options true (im_jumps s) (im_preview s) (im_random s);
  _ ← map_err InvalidRecords (validate_hosts (candidates p));
  Ok (p, r).

Definition preview_file (options : ImportOptions) (source : str) (r : Random) : result ImportError (ImportPreview * Random) :=
  snapshot ← load options source; resolve_import options snapshot r.

(** [resolve_legacy_sources]: every alias from a text of its own. *)
Fixpoint add_sources (options : ImportOptions) (space_id : str) (sources : list (str * Snapshot)) (s : ImportState)
  : result ImportError ImportState :=
  match sources with
  | [] => Ok s
  | (alias, snapshot) :: sources =>
      match List.find (fun a => a.1 =?= alias) (discover (sn_events snapshot) []) with
      | None => Err (InvalidSource (mkLocation (lit "relay:" ++ space_id ++ lit ":" ++ alias) 1)
                       (lit "legacy record alias is not an explicit Host alias"))
      | Some (_, location) =>
          let before := length (candidates (im_preview s)) in
          s ← add_alias options (sn_events snapshot) alias location s;
          let p := im_preview s in
          if (length (candidates p) =? before)%nat
          then Err (InvalidSource location (lit "legacy alias is excluded by its own Host patterns"))
          else
            let p := mkPreview (candidates p) (warnings p) (provenance p ++ sn_files snapshot) (key_references p) (host_ids p) (source_digest p) in
            add_sources options space_id sources (mkImportState p (im_key_ids s) (im_jumps s) (im_random s))
      end
  end.

Definition resolve_legacy_sources (options : ImportOptions) (space_id : str) (sources : list (str * Snapshot)) (r : Random)
  : result ImportError (ImportPreview * Random) :=
  s ← add_sources options space_id sources (mkImportState (mkPreview [] [] [] [] [] []) (io_key_ids options) [] r);
  '(p, r) ← link_jumps options false (im_jumps s) (im_preview s) (im_random s);
  let hosts := map (fun h => mkHostRecord (hr_id h) (Space space_id) (hr_payload h)) (candidates p) in
  let p := mkPreview hosts (warnings p) (provenance p) (key_references p) (host_ids p)
             (snapshot_digest options (provenance p)) in
  _ ← map_err InvalidRecords (validate_hosts (candidates p));
  Ok (p, r).
End Resolve.

(** ** What an import takes over, and what it reports

    The evaluation of a configuration for one host, told as the list of actions it
    takes in order; the first usable value of a setting counts, and nothing that is
    in force is left out. *)

(** ** Induction on events *)

Section EventInd.
Variable (P : Event -> Prop).
Hypothesis (Hev : forall d l c i, Forall (Forall P) c -> P (mkEvent d l c i)).
Fixpoint event_ind' (ev : Event) : P ev :=
  match ev with
  | mkEvent d l c i =>
      Hev d l c i
        ((fix files (c : list (list Event)) : Forall (Forall P) c :=
            match c with
            | [] => Forall_nil_2 _
            | es :: c => Forall_cons_2 _ _ _
                ((fix events (es : list Event) : Forall P es :=
                    match es with [] => Forall_nil_2 _ | e :: es => Forall_cons_2 _ _ _ (event_ind' e) (events es) end) es)
                (files c)
            end) c)
  end.
End EventInd.

(** ** Actions *)

Inductive Action :=
| Define
| Report (ev : Event) (reason : str) (blocks : bool)
| Apply (ev : Event).

Definition act (alias : str) (e : Evaluated) (a : Action) : Evaluated :=
  match a with
  | Define => set_defined e
  | Report ev reason blocks => report_event alias ev reason blocks e
  | Apply ev => apply_directive alias ev e
  end.
Definition acts (alias : str) (l : list Action) (e : Evaluated) : Evaluated := fold_left (act alias) l e.

(** The actions of one event, after those of the events before it, and the gate. *)
Fixpoint actions_event (alias : str) (inherited : Gate) (st : Gate * list Action) (ev : Event) {struct ev} : Gate * list Action :=
  let '(gate, a) := st in
  match ev with
  | mkEvent d location children issue =>
      if key d =?= lit "host" then
        match arguments (value d) with
        | Some patterns =>
            let gate := if matches_patterns patterns alias then inherited else Inactive in
            (gate, a ++ if negb (gate =?= Inactive) && existsb (fun p => p =?= alias) patterns then [Define] else [])
        | None => (Unknown, a ++ [Report ev (lit "Host patterns cannot be evaluated statically") true])
        end
      else if key d =?= lit "match" then (Unknown, a ++ [Report ev (lit "Match conditions are preserved and never executed") true])
      else if gate =?= Inactive then (gate, a)
      else if key d =?= lit "include" then
        (gate, fold_left (fun a file => (fold_left (actions_event alias gate) file (gate, a)).2) children
                 (a ++ match issue with Some (reason, blocks) => [Report ev reason blocks] | None => [] end))
      else if gate =?= Unknown then (gate, a ++ [Report ev (lit "value depends on an unevaluated Match condition") true])
      else (gate, a ++ [Apply ev])
  end.
Definition actions (alias : str) (events : list Event) : list Action :=
  (fold_left (actions_event alias Active) events (Active, [])).2.

Lemma acts_app alias a b e : acts alias (a ++ b) e = acts alias b (acts alias a e).
Proof. apply fold_left_app. Qed.

(** Evaluating is doing the actions, in order. *)
Definition evaluates (alias : str) (ev : Event) : Prop := forall inherited gate a e,
  let '(gate', a') := actions_event alias inherited (gate, a) ev in
  evaluate_event alias inherited (gate, acts alias a e) ev = (gate', acts alias a' e).

Lemma evaluates_file alias inherited file e : Forall (evaluates alias) file -> forall gate a,
  let '(gate', a') := fold_left (actions_event alias inherited) file (gate, a) in
  fold_left (evaluate_event alias inherited) file (gate, acts alias a e) = (gate', acts alias a' e).
Proof.
  induction 1 as [|ev file Hev _ IH]; intros gate a; [done|]. cbn [fold_left]. specialize (Hev inherited gate a e).
  destruct (actions_event alias inherited (gate, a) ev) as [gate1 a1]. rewrite Hev. apply IH.
Qed.

Lemma evaluates_files alias gate children e : gate <> Inactive -> Forall (Forall (evaluates alias)) children -> forall a,
  fold_left (fun e file => if gate =?= Inactive then e else (fold_left (evaluate_event alias gate) file (gate, e)).2) children (acts alias a e)
  = acts alias (fold_left (fun a file => (fold_left (actions_event alias gate) file (gate, a)).2) children a) e.
Proof.
  intros Hg. rewrite (bool_decide_eq_false_2 _ Hg).
  induction 1 as [|file children Hfile _ IH]; intros a; [done|]. cbn [fold_left]. pose proof (evaluates_file alias gate file e Hfile gate a) as Hf.
  destruct (fold_left (actions_event alias gate) file (gate, a)) as [gate' a']. rewrite Hf. apply IH.
Qed.

Lemma evaluates_all alias ev : evaluates alias ev.
Proof.
  induction ev as [d location children issue IH] using event_ind'. intros inherited gate a e.
  cbn [actions_event evaluate_event]. destruct (key d =?= lit "host").
  { destruct (arguments (value d)) as [patterns|]; cbv zeta; rewrite acts_app; [|done].
    by destruct (_ && existsb _ _). }
  destruct (key d =?= lit "match"); [by rewrite acts_app|].
  destruct (gate =?= Inactive) eqn:Hg; [done|]. apply bool_decide_eq_false_1 in Hg.
  destruct (key d =?= lit "include"); [|by destruct (gate =?= Unknown); rewrite acts_app].
  f_equal. rewrite <- evaluates_files by done. rewrite (bool_decide_eq_false_2 _ Hg). f_equal.
  rewrite acts_app. by destruct issue as [[]|].
Qed.

Lemma evaluate_actions events alias e : evaluate events alias Active e = acts alias (actions alias events) e.
Proof.
  unfold evaluate, actions. rewrite bool_decide_eq_false_2 by done.
  assert (Forall (evaluates alias) events) as Hall by (apply Forall_forall; intros; apply evaluates_all).
  pose proof (evaluates_file alias Active events e Hall Active []) as Hf.
  destruct (fold_left (actions_event alias Active) events (Active, [])) as [gate a]. cbn [acts fold_left] in Hf. by rewrite Hf.
Qed.

(** ** Which value of a setting counts *)

(** What an action offers for setting [k]. *)
Definition offered {A} (k : str) (usable : option str -> option A) (a : Action) : option A :=
  match a with
  | Apply ev => if key (ev_directive ev) =?= k then usable (scalar (value (ev_directive ev))) else None
  | _ => None
  end.
Fixpoint first_offer {A} (k : str) (usable : option str -> option A) (l : list Action) : option A :=
  match l with
  | [] => None
  | a :: l => match offered k usable a with Some v => Some v | None => first_offer k usable l end
  end.

(** A setting [k] that is read into [f], and into nothing else that is read into [f]. *)
Record Setting {A} (k : str) (usable : option str -> option A) (f : Evaluated -> A) := {
  setting_hit : forall loc v e, match usable v, import_setting k loc v e with
                                | Some x, Some e' => f e' = x
                                | None, None => True
                                | _, _ => False
                                end;
  setting_other : forall k' loc v e e', k' <> k -> import_setting k' loc v e = Some e' -> f e' = f e;
  setting_frame : forall e e', e_payload e' = e_payload e -> e_jump e' = e_jump e -> f e' = f e;
  setting_plain : k <> lit "identityfile" /\ k <> lit "loglevel"
}.

Lemma import_setting_seen k loc v e e' : import_setting k loc v e = Some e' -> e_seen e' = e_seen e.
Proof.
  unfold import_setting. repeat case_match; intros He; try discriminate; simplify_option_eq; done.
Qed.

Lemma seen_dec (k : str) (l : list str) : existsb (fun k' => k' =?= k) l = bool_decide (k ∈ l).
Proof.
  case_bool_decide as Hk.
  - apply existsb_elem. exists k. split; [done|by apply bool_decide_eq_true_2].
  - apply existsb_none. intros x Hx. apply bool_decide_eq_false_2. intros ->. done.
Qed.

Section FirstOffer.
Context {A : Type} (k : str) (usable : option str -> option A) (f : Evaluated -> A) (Hset : Setting k usable f).

Lemma act_first alias a e : k ∉ e_seen e ->
  match offered k usable a with
  | Some x => f (act alias e a) = x /\ k ∈ e_seen (act alias e a)
  | None => f (act alias e a) = f e /\ k ∉ e_seen (act alias e a)
  end.
Proof.
  intros Hk. destruct Hset as [Hhit Hother Hframe [Hid Hlog]].
  destruct a as [|ev reason blocks|ev]; cbn; [split; [by apply Hframe|done]..|].
  unfold apply_directive. destruct (key (ev_directive ev) =?= k) eqn:E.
  - apply bool_decide_eq_true_1 in E. rewrite E, !bool_decide_eq_false_2, seen_dec, bool_decide_eq_false_2 by done.
    specialize (Hhit (ev_location ev) (scalar (value (ev_directive ev))) e).
    destruct (usable _) as [x|], (import_setting _ _ _ _) as [e'|]; try done.
    + subst x. cbn. split; [by apply Hframe|]. apply elem_of_cons; by left.
    + cbn. split; [by apply Hframe|done].
  - apply bool_decide_eq_false_1 in E. repeat case_match; cbn; try (split; [by apply Hframe|done]).
    + split; [by apply Hframe|]. apply not_elem_of_cons. split; [congruence|done].
    + match goal with H : import_setting _ _ _ _ = Some _ |- _ =>
        pose proof (import_setting_seen _ _ _ _ _ H) as Hs; apply Hother in H; [|done]; rewrite Hs; split; [by rewrite <- H; apply Hframe|] end.
      apply not_elem_of_cons. split; [congruence|done].
Qed.

Lemma act_later alias a e : k ∈ e_seen e -> f (act alias e a) = f e /\ k ∈ e_seen (act alias e a).
Proof.
  intros Hk. destruct Hset as [Hhit Hother Hframe [Hid Hlog]].
  destruct a as [|ev reason blocks|ev]; cbn; [split; [by apply Hframe|done]..|].
  unfold apply_directive. repeat case_match; cbn; try (split; [by apply Hframe|try (apply elem_of_cons; by right)]); try done.
  match goal with H : import_setting _ _ _ _ = Some _ |- _ =>
    pose proof (import_setting_seen _ _ _ _ _ H) as Hs; apply Hother in H; rewrite ?Hs; [split; [by rewrite <- H; apply Hframe|apply elem_of_cons; by right]|] end.
  intros E. match goal with H : existsb _ _ = false |- _ => rewrite E, seen_dec in H; by apply bool_decide_eq_false_1 in H end.
Qed.

Lemma acts_later alias l e : k ∈ e_seen e -> f (acts alias l e) = f e.
Proof.
  revert e. induction l as [|a l IH]; intros e Hk; [done|]. cbn [acts fold_left].
  destruct (act_later alias a e Hk) as [H1 H2]. etrans; [apply (IH _ H2)|done].
Qed.

Lemma acts_first alias l e : k ∉ e_seen e -> f (acts alias l e) = default (f e) (first_offer k usable l).
Proof.
  revert e. induction l as [|a l IH]; intros e Hk; [done|]. cbn [acts fold_left first_offer].
  pose proof (act_first alias a e Hk) as Ha. destruct (offered k usable a) as [x|], Ha as [H1 H2].
  - etrans; [apply (acts_later alias l _ H2)|done].
  - etrans; [apply (IH _ H2)|]. by rewrite H1.
Qed.
End FirstOffer.

(** ** The settings *)

Definition usable_name : option str -> option str := opt_filter static_name.
Definition usable_port (v : option str) : option N := opt_filter (fun n => negb (n =? 0)%N) (v ≫= parse_uint u16_max).
Definition usable_jump : option str -> option str := opt_filter (fun s => negb (contains_any [37; 36]%N s)).

Ltac setting usable :=
  split;
  [ intros ? v ?; unfold import_setting, usable; repeat (rewrite bool_decide_eq_false_2 by done); rewrite bool_decide_eq_true_2 by done;
    destruct (opt_filter _ _); done
  | intros ? ? ? ? ? Hk; unfold import_setting; repeat case_match; intros ?; simplify_option_eq;
    repeat match goal with H : (_ =?= _) = true |- _ => apply bool_decide_eq_true_1 in H end; simplify_eq; done
  | intros ? ? H1 H2; by rewrite ?H1, ?H2
  | done ].

Lemma hostname_setting : Setting (lit "hostname") usable_name (fun e => hp_hostname (e_payload e)).
Proof. setting usable_name. Qed.
Lemma user_setting : Setting (lit "user") usable_name (fun e => hp_user (e_payload e)).
Proof. setting usable_name. Qed.
Lemma port_setting : Setting (lit "port") usable_port (fun e => hp_port (e_payload e)).
Proof. setting usable_port. Qed.
Lemma jump_setting : Setting (lit "proxyjump") (fun v => Some <$> usable_jump v) (fun e => fst <$> e_jump e).
Proof. setting usable_jump. Qed.

(** The first usable value of a setting is the one a host gets: its host name,
    user, port and route are those of the first directive in force for it, in the order of
    the files, whose value can be imported; a value that cannot be imported leaves the
    setting to the next directive, and without one the alias is the host name and the port is 22. *)
Lemma import_first_value events alias location options :
  let e := evaluate events alias Active (empty_evaluated (empty_payload alias location options)) in
  let l := actions alias events in
  hp_hostname (e_payload e) = default alias (first_offer (lit "hostname") usable_name l) /\
  hp_user (e_payload e) = default [] (first_offer (lit "user") usable_name l) /\
  hp_port (e_payload e) = default 22%N (first_offer (lit "port") usable_port l) /\
  fst <$> e_jump e = default None (first_offer (lit "proxyjump") (fun v => Some <$> usable_jump v) l).
Proof.
  cbv zeta. rewrite evaluate_actions. set (e := empty_evaluated _).
  assert (forall k, k ∉ e_seen e) as Hn by (intros k; apply not_elem_of_nil).
  split_and!; [exact (acts_first _ _ _ hostname_setting alias _ e (Hn _))|exact (acts_first _ _ _ user_setting alias _ e (Hn _))
              |exact (acts_first _ _ _ port_setting alias _ e (Hn _))|exact (acts_first _ _ _ jump_setting alias _ e (Hn _))].
Qed.

(** ** Nothing in force is left out *)

Definition reported (alias : str) (ev : Event) (reason : str) (blocks : bool) (e : Evaluated) : Prop :=
  mkUnsupported (keyword (ev_directive ev)) (value (ev_directive ev)) blocks ∈ e_unsupported e /\
  mkWarning (ev_location ev) (keyword (ev_directive ev)) reason blocks (Some alias) ∈ e_warnings e.

(** A directive whose value is taken over (or, for logging, only noted). *)
Definition takes (ev : Event) : Prop :=
  key (ev_directive ev) = lit "loglevel" \/
  forall e, is_Some (import_setting (key (ev_directive ev)) (ev_location ev) (scalar (value (ev_directive ev))) e).

(** What became of one action. *)
Definition accounted (alias : str) (l : list Action) (a : Action) (e : Evaluated) : Prop :=
  match a with
  | Define => e_defined e = true
  | Report ev reason blocks => reported alias ev reason blocks e
  | Apply ev =>
      (exists v, scalar (value (ev_directive ev)) = Some v /\ (v, ev_location ev) ∈ e_keys e) \/
      (exists reason blocks, reported alias ev reason blocks e) \/
      (exists ev', Apply ev' ∈ l /\ key (ev_directive ev') = key (ev_directive ev) /\ takes ev')
  end.

Record Grows (e e' : Evaluated) : Prop := {
  grows_defined : e_defined e = true -> e_defined e' = true;
  grows_keys k : k ∈ e_keys e -> k ∈ e_keys e';
  grows_unsupported u : u ∈ e_unsupported e -> u ∈ e_unsupported e';
  grows_warnings w : w ∈ e_warnings e -> w ∈ e_warnings e'
}.
#[export] Instance grows_preorder : PreOrder Grows.
Proof. split; [by split|]. intros e1 e2 e3 [] []; split; eauto. Qed.

Lemma import_setting_grows k loc v e e' : import_setting k loc v e = Some e' -> Grows e e'.
Proof. unfold import_setting. repeat case_match; intros He; simplify_option_eq; by split. Qed.
Lemma import_setting_any k loc v e e' : import_setting k loc v e = Some e' -> forall e0, is_Some (import_setting k loc v e0).
Proof. unfold import_setting. repeat case_match; intros He e0; simplify_option_eq; eauto; done. Qed.

Lemma report_grows alias ev reason blocks e : Grows e (report_event alias ev reason blocks e).
Proof. split; cbn; try done; intros; apply elem_of_app; by left. Qed.
Lemma report_reported alias ev reason blocks e : reported alias ev reason blocks (report_event alias ev reason blocks e).
Proof. split; cbn; apply elem_of_app; right; by apply list_elem_of_singleton. Qed.
Lemma set_seen_grows k e : Grows e (set_seen k e).
Proof. by split. Qed.

Lemma act_grows alias a e : Grows e (act alias e a).
Proof.
  destruct a as [|ev reason blocks|ev]; cbn; [by split|apply report_grows|].
  unfold apply_directive. repeat case_match; try apply report_grows; try done.
  - split; cbn; try done. intros. apply elem_of_app. by left.
  - etrans; [apply report_grows|apply set_seen_grows].
  - etrans; [by eapply import_setting_grows|apply set_seen_grows].
Qed.
Lemma acts_grows alias l e : Grows e (acts alias l e).
Proof.
  revert e. induction l as [|a l IH]; intros e; [done|]. etrans; [apply act_grows|apply IH].
Qed.

Lemma accounted_grows alias l a e e' : Grows e e' -> accounted alias l a e -> accounted alias l a e'.
Proof.
  intros [H1 H2 H3 H4]. destruct a; cbn; [done|intros [? ?]; split; auto|].
  intros [(v & ? & ?)|[(reason & blocks & ? & ?)|?]]; [left; eauto|right; left; exists reason, blocks; split; auto|by right; right].
Qed.

(** A keyword that was seen came from a directive that was taken. *)
Definition seen_taken (l : list Action) (e : Evaluated) : Prop :=
  forall k, k ∈ e_seen e -> exists ev, Apply ev ∈ l /\ key (ev_directive ev) = k /\ takes ev.

Lemma act_accounted alias l a e : a ∈ l -> seen_taken l e -> accounted alias l a (act alias e a) /\ seen_taken l (act alias e a).
Proof.
  intros Ha Hseen. destruct a as [|ev reason blocks|ev]; cbn; [done|split; [apply report_reported|done]|].
  unfold apply_directive. destruct (key _ =?= lit "identityfile").
  { destruct (scalar _) as [v|]; (split; [|done]).
    - left. exists v. split; [done|]. cbn. apply elem_of_app. right. by apply list_elem_of_singleton.
    - right; left. do 2 eexists. apply report_reported. }
  rewrite seen_dec. case_bool_decide as Hk.
  { split; [|done]. right; right. destruct (Hseen _ Hk) as (ev' & ? & ? & ?). by exists ev'. }
  assert (takes ev -> forall e0, e_seen e0 = e_seen e ->
          accounted alias l (Apply ev) (set_seen (key (ev_directive ev)) e0) /\ seen_taken l (set_seen (key (ev_directive ev)) e0)) as Htake.
  { intros Ht e0 He0. split; [right; right; by exists ev|].
    intros k. cbn. rewrite He0, elem_of_cons. intros [->|Hin]; [by exists ev|by apply Hseen]. }
  destruct (key _ =?= lit "loglevel") eqn:Hlog; [apply bool_decide_eq_true_1 in Hlog; apply Htake; [by left|done]|].
  destruct (import_setting _ _ _ _) as [e'|] eqn:Hset.
  - apply Htake; [right; by eapply import_setting_any|by eapply import_setting_seen].
  - split; [|done]. right; left. do 2 eexists. apply report_reported.
Qed.

Lemma acts_accounted alias l : forall l' e, l' ⊆ l -> seen_taken l e -> forall a, a ∈ l' -> accounted alias l a (acts alias l' e).
Proof.
  induction l' as [|b l' IH]; intros e Hsub Hseen a; [by intros ?%not_elem_of_nil|].
  destruct (act_accounted alias l b e (Hsub b (list_elem_of_here _ _)) Hseen) as [Hb Hseen'].
  rewrite elem_of_cons. change (acts alias (b :: l') e) with (acts alias l' (act alias e b)).
  intros [->|Ha]; [by apply (accounted_grows _ _ _ (act alias e b)); [apply acts_grows|]|].
  apply IH; [|done..]. intros x Hx. apply Hsub, elem_of_cons. by right.
Qed.

