(* ===== verification/Migration.v ===== *)
(** * Migration: new identifiers for the hosts of an old space

    [src-tauri/src/sync/records_v3/migration_ids.rs], the identifiers, and
    [importer/mod.rs], the preview of the records of an old space: every record
    is read as the text of one alias, and gets the identifier every device derives
    for it.  SHA-256 is the one of [FileSystem]; the JSON text of a record is a
    parameter. *)

From S2P Require Import Prelude Text BTreeMap SlotRules Json SyncRecord RecordsTypes RecordsValidate Crypto ByteStream ImportText ImportLoad ImportResolve.

(** ** Identifiers *)

Definition DOMAIN : list N := lit "sshelter-host-migration-v1".

Record MigrationSource := mkMigrationSource { ms_space_id : str; ms_old_record_id : str }.
#[export] Instance migration_source_eq_dec : EqDecision MigrationSource.
Proof. solve_decision. Defined.

(** The derived order, and the ordered maps it gives. *)
Definition ms_compare (a b : MigrationSource) : comparison :=
  match str_compare (ms_space_id a) (ms_space_id b) with
  | Eq => str_compare (ms_old_record_id a) (ms_old_record_id b)
  | c => c
  end.
Fixpoint ms_insert {V} (k : MigrationSource) (v : V) (m : list (MigrationSource * V)) : list (MigrationSource * V) :=
  match m with
  | [] => [(k, v)]
  | (k', v') :: m' =>
      match ms_compare k k' with
      | Lt => (k, v) :: m
      | Eq => (k, v) :: m'
      | Gt => (k', v') :: ms_insert k v m'
      end
  end.
Fixpoint ms_get {V} (k : MigrationSource) (m : list (MigrationSource * V)) : option V :=
  match m with [] => None | (k', v) :: m' => if k =?= k' then Some v else ms_get k m' end.
Definition ms_set (l : list MigrationSource) : list MigrationSource := (foldl (fun m k => ms_insert k tt m) [] l).*1.

Section Ids.
Context {F : FileSystem}.

Definition hash_fields (space_id old_record_id : str) : str :=
  hex (take 8 (import_sha256 (DOMAIN ++ field (utf8 space_id) ++ field (utf8 old_record_id)))).

Definition migration_host_id (space_id old_record_id : str) : result RecordValidationError str :=
  _ ← guard_err (negb (is_chain_id space_id)) (Invalid (lit "space_id") old_record_id (lit "expected a chain id"));
  _ ← guard_err (old_record_id =?= []) (Invalid (lit "old_record_id") [] (lit "missing source record id"));
  Ok (hash_fields space_id old_record_id).

(** [entry(k).or_insert_with(v)]. *)
Definition or_insert {V} (k : str) (v : V) (m : btree V) : btree V :=
  if bt_contains_key k m then m else bt_insert k v m.

(** The identifiers that are taken, each with what took it. *)
Definition occupied_ids (sources : list MigrationSource) (reserved : list str) : btree str :=
  foldl (fun m s => or_insert (ms_old_record_id s) (lit "legacy " ++ ms_space_id s ++ lit ":" ++ ms_old_record_id s) m)
    (foldl (fun m id => bt_insert id (lit "reserved existing id") m) [] reserved) sources.

Fixpoint assign_ids (sources : list MigrationSource) (occupied : btree str) (mapping : list (MigrationSource * str))
  : result RecordValidationError (list (MigrationSource * str)) :=
  match sources with
  | [] => Ok mapping
  | s :: sources =>
      id ← migration_host_id (ms_space_id s) (ms_old_record_id s);
      let origin := ms_space_id s ++ lit ":" ++ ms_old_record_id s in
      match bt_get id occupied with
      | Some first => Err (MigrationCollision id first origin)
      | None => assign_ids sources (bt_insert id origin occupied) (ms_insert s id mapping)
      end
  end.

Definition preflight_host_ids (sources : list MigrationSource) (reserved_ids : list str)
  : result RecordValidationError (list (MigrationSource * str)) :=
  let sources := ms_set sources in
  assign_ids sources (occupied_ids sources reserved_ids) [].
End Ids.

(** ** Previews of old records *)

(** [from_value::<Legacy>]: an object with these two members and no other. *)
Record Legacy := mkLegacy { lg_schema : N; lg_text : str }.
Definition legacy_of (v : Json) : option Legacy :=
  match v with
  | JObject m =>
      if forallb (fun e => (e.1 =?= lit "schema") || (e.1 =?= lit "text")) m then
        n ← opt_filter (fun n => n <=? u32_max)%N (bt_get (lit "schema") m ≫= as_u64);
        match bt_get (lit "text") m with Some (JString t) => Some (mkLegacy n t) | _ => None end
      else None
  | _ => None
  end.

Section Previews.
Context {U : Unicode} {F : FileSystem} {L : SshKeyLib} (record_to_vec : Rec -> option (list N)).

Definition relay_label (space_id alias : str) : str := lit "relay:" ++ space_id ++ lit ":" ++ alias.

(** The live records by alias; two of one alias must say the same. *)
Fixpoint unique_records (space_id : str) (records : list Rec) (unique : btree Rec) : result ImportError (btree Rec) :=
  match records with
  | [] => Ok unique
  | r :: records =>
      if negb (rkind r =?= KHost)
      then Err (InvalidRecords (WrongKind (lit "legacy host") (kind_as_str (rkind r))))
      else if rdeleted r then unique_records space_id records unique
      else
        let old := bt_get (rid r) unique in
        if is_some_and (fun o => negb (json_eqb (rpayload o) (rpayload r))) old
        then Err (InvalidSource (mkLocation (relay_label space_id (rid r)) 1) (lit "same legacy alias has conflicting source payloads"))
        else unique_records space_id records (bt_insert (rid r) r unique)
  end.

Definition set_host_ids (ids : btree str) (o : ImportOptions) : ImportOptions :=
  mkOptions (io_home o) (io_env o) (io_at_ms o) ids (io_key_ids o) (io_excluded_sources o) (io_reserved_host_ids o).

Definition set_digest (digest : str) (s : Snapshot) : Snapshot :=
  mkSnapshot (sn_events s)
    match sn_files s with
    | f :: fs => mkSourceFile (sf_path f) (sf_canonical f) digest (sf_bytes f) :: fs
    | [] => []
    end (sn_digest s).

(** The text of one record, and its alias with the identifier it gets.  The mapping
    holds every alias, so the indexing that Rust would panic on is total. *)
Definition legacy_source (space_id : str) (mapping : list (MigrationSource * str)) (alias : str) (r : Rec) (options : ImportOptions)
  : result ImportError (ImportOptions * Snapshot) :=
  let found := default 0%N (opt_filter (fun n => n <=? u32_max)%N (json_u64 (lit "schema") (rpayload r))) in
  _ ← guard_err (negb (found =? 1)%N) (UnsupportedLegacySchema found);
  legacy ← ok_or (legacy_of (rpayload r)) (InvalidSource (mkLocation (lit "relay") 0) (lit "legacy host payload is malformed"));
  _ ← guard_err (negb (lg_schema legacy =? 1)%N) (UnsupportedLegacySchema (lg_schema legacy));
  let id := default [] (ms_get (mkMigrationSource space_id alias) mapping) in
  let options := set_host_ids (bt_insert alias id (io_host_ids options)) options in
  let label := relay_label space_id alias in
  snapshot ← memory_snapshot options label (lg_text legacy);
  bytes ← ok_or (record_to_vec r) (InvalidSource (mkLocation label 0) (lit "cannot fingerprint legacy source"));
  Ok (options, set_digest (hash_hex bytes) snapshot).

Fixpoint legacy_sources (space_id : str) (mapping : list (MigrationSource * str)) (unique : btree Rec) (options : ImportOptions)
  : result ImportError (ImportOptions * list (str * Snapshot)) :=
  match unique with
  | [] => Ok (options, [])
  | (alias, r) :: unique =>
      '(options, snapshot) ← legacy_source space_id mapping alias r options;
      '(options, sources) ← legacy_sources space_id mapping unique options;
      Ok (options, (alias, snapshot) :: sources)
  end.

Definition preview_legacy_records (records : list Rec) (space_id : str) (options : ImportOptions) (random : Random)
  : result ImportError (ImportPreview * Random) :=
  _ ← guard_err (negb (is_chain_id space_id))
        (InvalidRecords (Invalid (lit "space_id") space_id (lit "expected a chain id")));
  unique ← unique_records space_id records [];
  let migrations := map (mkMigrationSource space_id) (bt_keys unique) in
  let reserved := io_reserved_host_ids options ++ map rid records in
  mapping ← map_err InvalidRecords (preflight_host_ids migrations reserved);
  '(options, sources) ← legacy_sources space_id mapping unique options;
  resolve_legacy_sources options space_id sources random.

Definition preview_legacy_record (record : Rec) (space_id : str) (options : ImportOptions) (random : Random)
  : result ImportError (ImportPreview * Random) :=
  preview_legacy_records [record] space_id options random.
End Previews.

(** ** The identifiers of migrated hosts

    The identifiers of an old space's hosts are those its aliases determine, all
    different, and none that was in use; the preview of a space gives exactly these. *)

Lemma ms_compare_eq a b : ms_compare a b = Eq <-> a = b.
Proof.
  unfold ms_compare. destruct a as [s1 r1], b as [s2 r2]. cbn. split.
  - destruct (str_compare s1 s2) eqn:E; try done. apply str_compare_eq in E as ->. intros ->%str_compare_eq. done.
  - intros [= -> ->]. by rewrite !(proj2 (str_compare_eq _ _) eq_refl).
Qed.

Lemma ms_get_insert_eq {V} k (v : V) m : ms_get k (ms_insert k v m) = Some v.
Proof.
  induction m as [|[k' v'] m IH]; cbn; [by rewrite bool_decide_eq_true_2|].
  destruct (ms_compare k k') eqn:E; cbn; [by rewrite bool_decide_eq_true_2..|].
  rewrite bool_decide_eq_false_2; [done|]. intros H%ms_compare_eq. congruence.
Qed.
Lemma ms_get_insert_ne {V} k k2 (v : V) m : k <> k2 -> ms_get k2 (ms_insert k v m) = ms_get k2 m.
Proof.
  intros Hk. induction m as [|[k' v'] m IH]; cbn; [by rewrite bool_decide_eq_false_2|].
  destruct (ms_compare k k') eqn:E; cbn; [apply ms_compare_eq in E as <-| |].
  - by rewrite !bool_decide_eq_false_2.
  - by rewrite (bool_decide_eq_false_2 (k2 = k)).
  - by rewrite IH.
Qed.
Lemma ms_get_elem {V} k (v : V) m : ms_get k m = Some v -> (k, v) ∈ m.
Proof.
  induction m as [|[k' v'] m IH]; cbn; [done|]. case_bool_decide as Hk; intros H; apply elem_of_cons;
    [left; congruence|right; by apply IH].
Qed.
Lemma ms_elem_insert {V} e k (v : V) m : e ∈ ms_insert k v m -> e = (k, v) \/ e ∈ m.
Proof.
  induction m as [|[k' v'] m IH]; cbn; [by intros ->%list_elem_of_singleton; left|].
  destruct (ms_compare k k'); rewrite !elem_of_cons; naive_solver.
Qed.
Lemma ms_elem_keys {V} s k (v : V) m : s ∈ (ms_insert k v m).*1 <-> s = k \/ s ∈ m.*1.
Proof.
  induction m as [|[k' v'] m IH]; cbn; [by rewrite list_elem_of_singleton, elem_of_nil; naive_solver|].
  destruct (ms_compare k k') eqn:E; cbn; rewrite !elem_of_cons, ?IH; [|naive_solver..].
  apply ms_compare_eq in E as ->. naive_solver.
Qed.
Lemma ms_elem_set s l : s ∈ ms_set l <-> s ∈ l.
Proof.
  unfold ms_set. assert (forall m : list (MigrationSource * unit), s ∈ (foldl (fun m k => ms_insert k tt m) m l).*1 <-> s ∈ m.*1 \/ s ∈ l) as H.
  { induction l as [|k l IH]; intros m; cbn; [rewrite elem_of_nil; naive_solver|].
    rewrite IH, ms_elem_keys, elem_of_cons. naive_solver. }
  rewrite H. cbn. rewrite elem_of_nil. naive_solver.
Qed.

Section Ids.
Context {F : FileSystem}.

Lemma bt_insert_taken {V} k k2 (v : V) m : is_Some (bt_get k2 (bt_insert k v m)) <-> k2 = k \/ is_Some (bt_get k2 m).
Proof. rewrite bt_get_insert. case_decide as E; [subst; split; [by left|by eexists]|]. split; [by right|by intros [->|?]]. Qed.
Lemma or_insert_taken {V} k k2 (v : V) m : is_Some (bt_get k2 (or_insert k v m)) <-> k2 = k \/ is_Some (bt_get k2 m).
Proof.
  unfold or_insert, bt_contains_key. destruct (bt_get k m) eqn:E; cbn.
  - split; [by right|]. intros [->|?]; [by eexists|done].
  - apply bt_insert_taken.
Qed.

Lemma occupied_taken sources reserved id :
  is_Some (bt_get id (occupied_ids sources reserved)) <-> id ∈ reserved \/ exists s, s ∈ sources /\ ms_old_record_id s = id.
Proof.
  unfold occupied_ids.
  assert (forall l (m : btree str), is_Some (bt_get id (foldl (fun m id => bt_insert id (lit "reserved existing id") m) m l)) <->
          id ∈ l \/ is_Some (bt_get id m)) as H1.
  { induction l as [|k l IH]; intros m; cbn [foldl]; [rewrite elem_of_nil; naive_solver|].
    rewrite IH, bt_insert_taken, elem_of_cons. naive_solver. }
  assert (forall l (m : btree str),
          is_Some (bt_get id (foldl (fun m s => or_insert (ms_old_record_id s) (lit "legacy " ++ ms_space_id s ++ lit ":" ++ ms_old_record_id s) m) m l)) <->
          (exists s, s ∈ l /\ ms_old_record_id s = id) \/ is_Some (bt_get id m)) as H2.
  { induction l as [|k l IH]; intros m; cbn [foldl]; [split; [by right|by intros [(s & ?%elem_of_nil & _)|]]|].
    rewrite IH, or_insert_taken. setoid_rewrite elem_of_cons. naive_solver. }
  rewrite H2, H1. split; [intros [?|[?|[x Hx]]]; [by right|by left|done]|intros [?|?]; [right; by left|by left]].
Qed.

(** The mapping so far: identifiers the sources determine, new, and all different. *)
Record assigned (base : str -> Prop) (mapping : list (MigrationSource * str)) (occupied : btree str) : Prop := {
  as_hash s id : ms_get s mapping = Some id -> migration_host_id (ms_space_id s) (ms_old_record_id s) = Ok id;
  as_taken s id : ms_get s mapping = Some id -> is_Some (bt_get id occupied);
  as_free s id : ms_get s mapping = Some id -> ~ base id;
  as_base id : base id -> is_Some (bt_get id occupied);
  as_inj s s' id : ms_get s mapping = Some id -> ms_get s' mapping = Some id -> s = s'
}.

Lemma assigned_insert base mapping occupied s id origin : assigned base mapping occupied ->
  migration_host_id (ms_space_id s) (ms_old_record_id s) = Ok id -> bt_get id occupied = None ->
  assigned base (ms_insert s id mapping) (bt_insert id origin occupied).
Proof.
  intros [Hh Ht Hf Hb Hi] Hid Hnew.
  assert (forall s2 id2, ms_get s2 (ms_insert s id mapping) = Some id2 -> (s2 = s /\ id2 = id) \/ (s2 <> s /\ ms_get s2 mapping = Some id2)) as Hget.
  { intros s2 id2. destruct (decide (s2 = s)) as [->|Hne]; [rewrite ms_get_insert_eq; naive_solver|].
    rewrite ms_get_insert_ne by done. by right. }
  assert (forall s2 id2, ms_get s2 mapping = Some id2 -> id2 <> id) as Hdiff.
  { intros s2 id2 [x Hx]%Ht ->. congruence. }
  split.
  - intros s2 id2 [[-> ->]|[_ H]]%Hget; auto.
  - intros s2 id2 [[-> ->]|[_ H]]%Hget; apply bt_insert_taken; [by left|right; eauto].
  - intros s2 id2 [[-> ->]|[_ H]]%Hget; [intros [x Hx]%Hb; congruence|eauto].
  - intros id2 H. apply bt_insert_taken. right. auto.
  - intros s2 s3 id2 [[-> ->]|[_ H2]]%Hget [[-> H3]|[_ H3]]%Hget; try done; [by apply Hdiff in H3| |by eapply Hi].
    subst. by apply Hdiff in H2.
Qed.

Lemma assign_ids_assigned base sources : forall occupied mapping m, assigned base mapping occupied ->
  assign_ids sources occupied mapping = Ok m ->
  (exists occupied', assigned base m occupied') /\ forall s, is_Some (ms_get s m) <-> s ∈ sources \/ is_Some (ms_get s mapping).
Proof.
  induction sources as [|s sources IH]; intros occupied mapping m Ha; cbn [assign_ids]; intros H; ok_inv.
  { split; [by eexists|]. intros s. rewrite elem_of_nil. naive_solver. }
  destruct (bt_get v occupied) eqn:Hv; [done|].
  destruct (IH _ _ _ (assigned_insert _ _ _ _ _ (ms_space_id s ++ lit ":" ++ ms_old_record_id s) Ha Hok Hv) H) as [H1 H2].
  split; [done|]. intros s2. rewrite H2, elem_of_cons.
  destruct (decide (s2 = s)) as [->|Hne]; [rewrite ms_get_insert_eq; naive_solver|rewrite ms_get_insert_ne by done; naive_solver].
Qed.

Lemma preflight_assigned sources reserved m : preflight_host_ids sources reserved = Ok m ->
  (exists occupied', assigned (fun id => id ∈ reserved \/ exists s, s ∈ sources /\ ms_old_record_id s = id) m occupied') /\ forall s, is_Some (ms_get s m) <-> s ∈ sources.
Proof.
  unfold preflight_host_ids. intros H.
  apply (assign_ids_assigned (fun id => id ∈ reserved \/ exists s, s ∈ sources /\ ms_old_record_id s = id)) in H as [H1 H2].
  - split; [done|]. intros s. rewrite H2, ms_elem_set. cbn. split; [intros [?|[? ?]]; done|by left].
  - split; try done. intros id Hid. apply occupied_taken. destruct Hid as [?|(s & ? & ?)]; [by left|right].
    exists s. by rewrite ms_elem_set.
Qed.

(** Every source gets the identifier that its space and alias determine, the same on
    every device; different sources get different ones, and none is an identifier in use
    or one of the old aliases. *)
Lemma migration_ids_fresh sources reserved m : preflight_host_ids sources reserved = Ok m ->
  (forall s, is_Some (ms_get s m) <-> s ∈ sources) /\
  (forall s s' id, ms_get s m = Some id -> ms_get s' m = Some id -> s = s') /\
  (forall s id, ms_get s m = Some id ->
     migration_host_id (ms_space_id s) (ms_old_record_id s) = Ok id /\ (id ∉ reserved) /\
     forall s', s' ∈ sources -> ms_old_record_id s' <> id).
Proof.
  intros [[occ [Hh Ht Hf Hb Hi]] Hdom]%preflight_assigned. split_and!; [done..|].
  intros s id H. pose proof (Hf _ _ H) as Hn. split_and!; [auto|naive_solver..].
Qed.
End Ids.

(** ** What the preview of an old space holds

    One host for every live alias of the space, in their order, in the space, and under
    the identifier that every device derives: however the texts are written. *)

(** ** An import does not rename hosts *)

Definition shape (h : HostRecord) : str * str := (hp_alias (hr_payload h), hr_id h).
Definition shapes (p : ImportPreview) : list (str * str) := map shape (candidates p).

Lemma import_setting_alias k loc v e e' : import_setting k loc v e = Some e' -> hp_alias (e_payload e') = hp_alias (e_payload e).
Proof. unfold import_setting. repeat case_match; intros He; simplify_option_eq; done. Qed.

Lemma act_alias alias a e : hp_alias (e_payload (act alias e a)) = hp_alias (e_payload e).
Proof.
  destruct a; try done. cbn. unfold apply_directive. repeat case_match; try done. cbn. by eapply import_setting_alias.
Qed.
Lemma evaluate_alias events alias e : hp_alias (e_payload (evaluate events alias Active e)) = hp_alias (e_payload e).
Proof.
  rewrite evaluate_actions. generalize (actions alias events). intros l. revert e.
  induction l as [|a l IH]; intros e; [done|]. etrans; [apply IH|apply act_alias].
Qed.

Lemma add_identity_alias options alias id explicit k s s' : add_identity options alias id explicit k s = Ok s' ->
  hp_alias (e_payload (ks_eval s')) = hp_alias (e_payload (ks_eval s)).
Proof.
  destruct k as [v location]. unfold add_identity. repeat case_match; intros Hok; ok_inv; try done;
    destruct v0 as [key_id r]; ok_inv; cbn; repeat case_match; done.
Qed.
Lemma add_identities_alias options alias id explicit l : forall s s', add_identities options alias id explicit l s = Ok s' ->
  hp_alias (e_payload (ks_eval s')) = hp_alias (e_payload (ks_eval s)).
Proof.
  induction l as [|k l IH]; intros s s' H; cbn in H; ok_inv; [done|].
  apply add_identity_alias in Hok. rewrite <- Hok. by apply IH.
Qed.
Lemma missing_key_alias alias id s s' : missing_key alias id s = Ok s' ->
  hp_alias (e_payload (ks_eval s')) = hp_alias (e_payload (ks_eval s)).
Proof.
  unfold missing_key. repeat case_match; intros Hok; ok_inv; try done. by destruct v as [key_id r]; ok_inv.
Qed.

(** One alias adds one host, with its name and identifier, or none. *)
Lemma add_alias_shapes options events alias location s s' : add_alias options events alias location s = Ok s' ->
  exists id r, id_for (bt_get alias (io_host_ids options)) (im_random s) = Ok (id, r) /\
    (shapes (im_preview s') = shapes (im_preview s) ++ [(alias, id)] \/ im_preview s' = im_preview s).
Proof.
  unfold add_alias. intros H. ok_inv. destruct v as [id r]. exists id, r. split; [done|].
  destruct (negb _); ok_inv; [by right|left]. unfold shapes. cbn. rewrite map_app. cbn. f_equal. unfold shape. cbn. f_equal. f_equal.
  apply add_identities_alias in Hok0. apply missing_key_alias in Hok1. cbn in Hok0. by rewrite Hok1, Hok0, evaluate_alias.
Qed.

(** ** Linking routes keeps the hosts *)

Lemma on_host_shapes f i l : (forall q, hp_alias (f q) = hp_alias q) -> map shape (alter (on_host f) i l) = map shape l.
Proof.
  intros Hf. revert i. induction l as [|h l IH]; intros [|i]; cbn; try done; f_equal.
  - unfold shape. cbn. by rewrite Hf.
  - apply IH.
Qed.

Lemma jump_host_saved options location token p r found p' r' :
  jump_host options location false token p r = Ok (found, p', r') -> p' = p.
Proof. unfold jump_host. repeat case_match; intros Hok; ok_inv; simplify_eq; done. Qed.

Lemma link_tokens_shapes options index value location tokens : forall p r p' r',
  link_tokens options index value location false tokens p r = Ok (p', r') -> shapes p' = shapes p.
Proof.
  induction tokens as [|token tokens IH]; intros p r p' r' H; cbn [link_tokens] in H; ok_inv; [by simplify_eq|].
  destruct v as [[found p1] r1]. apply jump_host_saved in Hok as ->. apply IH in H. rewrite H.
  unfold shapes. repeat case_match; try done; by apply on_host_shapes.
Qed.
Lemma link_jumps_shapes options jumps : forall p r p' r',
  link_jumps options false jumps p r = Ok (p', r') -> shapes p' = shapes p.
Proof.
  induction jumps as [|[index [value location]] jumps IH]; intros p r p' r' H; cbn [link_jumps] in H; ok_inv; [by simplify_eq|].
  destruct (is_none_word value); [by eapply IH|]. ok_inv. destruct v as [p1 r1].
  apply link_tokens_shapes in Hok. rewrite <- Hok. by eapply IH.
Qed.

(** ** The sources of a space *)

Lemma bt_keys_sorted {V} (m : list (str * V)) : bt_ok m -> StronglySorted (fun a b => str_ltb a b = true) (bt_keys m).
Proof.
  induction 1 as [|e m _ IH Hall]; [constructor|]. cbn. constructor; [done|].
  apply Forall_map. eapply Forall_impl; [exact Hall|]. done.
Qed.
Lemma sorted_NoDup l : StronglySorted (fun a b => str_ltb a b = true) l -> NoDup l.
Proof.
  induction 1 as [|a l _ IH Hall]; [constructor|]. apply NoDup_cons. split; [|done].
  intros Ha. rewrite Forall_forall in Hall. apply Hall in Ha. by rewrite str_ltb_irrefl in Ha.
Qed.
Lemma bt_keys_get {V} (m : list (str * V)) k : k ∈ bt_keys m <-> is_Some (bt_get k m).
Proof.
  induction m as [|[k' v] m IH]; cbn; [by rewrite elem_of_nil; split; [|by intros [? [=]]]|].
  rewrite elem_of_cons. unfold bt_keys in IH. rewrite IH. case_bool_decide; [|naive_solver]. split; [by eexists|by left].
Qed.

Section Preview.
Context {U : Unicode} {F : FileSystem} {L : SshKeyLib} (record_to_vec : Rec -> option (list N)).

(** The live records of a list, by alias. *)
Lemma unique_records_keys space_id records : forall unique unique', bt_ok unique ->
  unique_records space_id records unique = Ok unique' ->
  bt_ok unique' /\ forall a, is_Some (bt_get a unique') <-> (exists r, r ∈ records /\ rdeleted r = false /\ rid r = a) \/ is_Some (bt_get a unique).
Proof.
  induction records as [|r records IH]; intros unique unique' Hu H; cbn [unique_records] in H.
  { ok_inv. split; [done|]. intros a. split; [by right|]. by intros [(r & ?%elem_of_nil & _)|]. }
  destruct (negb _); [done|]. setoid_rewrite elem_of_cons. destruct (rdeleted r) eqn:Hd.
  { apply IH in H as [H1 H2]; [|done]. split; [done|]. intros a. rewrite H2. naive_solver congruence. }
  destruct (is_some_and _ _); [done|]. apply IH in H as [H1 H2]; [|by apply bt_ok_insert].
  split; [done|]. intros a. rewrite H2, bt_insert_taken. naive_solver.
Qed.

(** The identifiers of the options that the sources end with. *)
Lemma legacy_source_ids space_id mapping alias r options options' snapshot :
  legacy_source record_to_vec space_id mapping alias r options = Ok (options', snapshot) ->
  io_host_ids options' = bt_insert alias (default [] (ms_get (mkMigrationSource space_id alias) mapping)) (io_host_ids options).
Proof. unfold legacy_source. intros H. ok_inv. simplify_eq. done. Qed.

Lemma legacy_sources_ids space_id mapping unique : forall options options' sources,
  legacy_sources record_to_vec space_id mapping unique options = Ok (options', sources) -> NoDup (bt_keys unique) ->
  sources.*1 = bt_keys unique /\
  (forall a, bt_get a (io_host_ids options') =
     if decide (a ∈ bt_keys unique) then Some (default [] (ms_get (mkMigrationSource space_id a) mapping))
     else bt_get a (io_host_ids options)).
Proof.
  induction unique as [|[alias r] unique IH]; intros options options' sources H Hnd; cbn [legacy_sources] in H; ok_inv.
  { simplify_eq. split; [done|]. intros a. rewrite decide_False; [done|apply not_elem_of_nil]. }
  destruct v as [o1 snapshot]. ok_inv. destruct v as [o2 rest]. ok_inv. simplify_eq.
  apply legacy_source_ids in Hok. cbn in Hnd. apply NoDup_cons in Hnd as [Hn Hnd].
  destruct (IH _ _ _ Hok0 Hnd) as [H1 H2]. split; [cbn; by f_equal|].
  intros a. rewrite H2, Hok, bt_get_insert. cbn [bt_keys fmap list_fmap]. unfold bt_keys in *.
  repeat case_decide; subst; try done; exfalso; rewrite ?elem_of_cons in *; naive_solver.
Qed.

(** Every source adds the host of its alias. *)
Lemma add_sources_shapes options space_id sources : forall s s',
  (forall a, a ∈ sources.*1 -> is_Some (bt_get a (io_host_ids options))) ->
  add_sources options space_id sources s = Ok s' ->
  shapes (im_preview s') = shapes (im_preview s) ++ map (fun a => (a, default [] (bt_get a (io_host_ids options)))) sources.*1.
Proof.
  induction sources as [|[alias snapshot] sources IH]; intros s s' Hids H; cbn [add_sources] in H; ok_inv.
  { cbn. by rewrite app_nil_r. }
  destruct (List.find _ _) as [[found location]|]; [|done]. ok_inv.
  destruct (_ =? _)%nat eqn:Hlen; [done|]. apply Nat.eqb_neq in Hlen.
  apply add_alias_shapes in Hok as (id & r & Hid & Hs).
  destruct (Hids alias) as [known Hk]; [cbn; apply elem_of_cons; by left|]. rewrite Hk in Hid. cbn in Hid. simplify_eq.
  destruct Hs as [Hs|Hs]; [|by rewrite Hs in Hlen].
  apply IH in H; [|intros a Ha; apply Hids; cbn; apply elem_of_cons; by right].
  rewrite H. unfold shapes in *. cbn [candidates im_preview fmap list_fmap map]. rewrite Hs, <- app_assoc. cbn. by rewrite Hk.
Qed.

(** The preview of an old space holds exactly one host for every alias that is live in
    it, in the order of the aliases, in that space, and each under the identifier
    that every device derives for it, whatever identifiers the options held and no matter what the texts say. *)
Lemma legacy_preview_ids records space_id options random p random' :
  preview_legacy_records record_to_vec records space_id options random = Ok (p, random') ->
  exists aliases, StronglySorted (fun a b => str_ltb a b = true) aliases /\
    (forall a, a ∈ aliases <-> exists r, r ∈ records /\ rdeleted r = false /\ rid r = a) /\
    map (fun h => (hp_alias (hr_payload h), hr_id h, hr_scope h)) (candidates p)
    = map (fun a => (a, hash_fields space_id a, Space space_id)) aliases.
Proof.
  unfold preview_legacy_records. intros H. ok_inv. breflect. destruct v2 as [options' sources]. unfold resolve_legacy_sources in H. ok_inv.
  destruct v3 as [p1 r1]. ok_inv. simplify_eq. apply unique_records_keys in Hok0 as [Hsorted Hlive]; [|constructor].
  pose proof (bt_keys_sorted _ Hsorted) as Hkeys. apply preflight_assigned in Hok1 as [[occ Has] Hdom].
  apply legacy_sources_ids in Hok2 as [Hfst Hids]; [|by apply sorted_NoDup].
  assert (forall a, a ∈ bt_keys v0 -> bt_get a (io_host_ids options') = Some (hash_fields space_id a)) as Hget.
  { intros a Ha. rewrite Hids, decide_True by done. f_equal.
    destruct (proj2 (Hdom (mkMigrationSource space_id a))) as [id Hid]; [apply list_elem_of_fmap; by exists a|].
    rewrite Hid. apply (as_hash _ _ _ Has) in Hid. unfold migration_host_id in Hid. ok_inv. done. }
  exists (bt_keys v0). split_and!; [done| |].
  - intros a. rewrite bt_keys_get, Hlive. split; [intros [?|[? [=]]]; done|by left].
  - apply link_jumps_shapes in Hok4. apply add_sources_shapes in Hok3; [|rewrite Hfst; intros a Ha; rewrite Hget by done; by eexists].
    rewrite Hok3, Hfst in Hok4. cbn [candidates]. rewrite map_map. cbn.
    transitivity (map (fun x => (x, Space space_id)) (shapes p1)).
    + unfold shapes. rewrite map_map. done.
    + rewrite Hok4. cbn. rewrite map_map. apply map_ext_in. intros a Ha%list_elem_of_In. by rewrite Hget.
Qed.
End Preview.
