(* ===== verification/ImportWitnesses.v ===== *)
(** * ImportWitnesses: a concrete file system, and the import theorems on it

    Three files in memory, the second included by the first; the hash is the length
    and the first bytes. *)

From S2P Require Import Prelude Text ByteStream BTreeMap Json SlotRules Crypto SyncRecord RecordsTypes RecordsValidate RecordInstances ImportText ImportLoad ImportResolve Migration.

#[export] Instance import_unicode : Unicode := ascii_unicode.

Definition NL : str := [10%N].
Definition toy_files : btree str := [
  (lit "/h/config", lit "Include more" ++ NL ++ lit "Host web" ++ NL ++ lit "  HostName %h.example" ++ NL ++ lit "  HostName 10.0.0.1" ++ NL
     ++ lit "  HostName 10.0.0.2" ++ NL ++ lit "  Port 2222" ++ NL ++ lit "  ProxyJump gate" ++ NL ++ lit "  ForwardAgent yes" ++ NL);
  (lit "/h/.ssh/more", lit "Host gate" ++ NL ++ lit "  User root" ++ NL)
].

#[export] Instance toy_file_system : FileSystem.
Proof.
  refine {|
    canonicalize := fun p => match bt_get p toy_files with Some _ => Ok p | None => Err (lit "not found") end;
    metadata := fun p => match bt_get p toy_files with Some t => Ok (true, N.of_nat (length t)) | None => Err (lit "not found") end;
    read_up_to := fun p cap => match bt_get p toy_files with Some t => Ok (take (N.to_nat cap) t) | None => Err (lit "not found") end;
    glob_paths := fun p => Some (match bt_get p toy_files with Some _ => [Ok p] | None => [] end);
    import_sha256 := fun b => take 32 (N.of_nat (length b) mod 256 :: rev b)%N ++ [7%N]
  |}.
  intros p cap b. destruct (bt_get p toy_files) as [t|]; [|done]. intros [= <-]. rewrite length_take. lia.
Defined.

Definition toy_options : ImportOptions := mkOptions (lit "/h") [] 5 [] [] [] [].

(** The first value that can be imported is taken, the others are kept or superseded. *)
Example import_toy :
  match preview_file toy_options (lit "/h/config") [repeat 1%N 8; repeat 2%N 8; repeat 3%N 8] with
  | Ok (p, _) => map (fun h => (hp_alias (hr_payload h), hp_hostname (hr_payload h), hp_port (hr_payload h), hp_jump (hr_payload h),
                                length (default [] (unsupported <$> hp_imported (hr_payload h))))) (candidates p)
  | Err _ => []
  end
  = [(lit "gate", lit "gate", 22%N, [], 0%nat); (lit "web", lit "10.0.0.1", 2222%N, [lit "0101010101010101"], 2%nat)].
Proof. vm_compute. reflexivity. Qed.

Lemma import_within_limits_witness : exists snapshot,
  load toy_options (lit "/h/config") = Ok snapshot /\ length (sn_files snapshot) = 2%nat /\ within_limits (sn_files snapshot).
Proof.
  eexists. split; [vm_compute; reflexivity|]. split; [reflexivity|].
  apply (import_within_limits toy_options (lit "/h/config")). vm_compute. reflexivity.
Defined.

Definition toy_space : str := concat (repeat (lit "0123456789abcdef") 4).
Definition toy_sources : list MigrationSource := map (mkMigrationSource toy_space) [lit "web"; lit "gate"; lit "web"].

Definition toy_record (alias text : str) (deleted : bool) : Rec :=
  mkRec KHost alias 1 7 (lit "dev") deleted (JObject [(lit "schema", JNumber (PosInt 1)); (lit "text", JString text)]).
Definition toy_records : list Rec := [
  toy_record (lit "web") (lit "Host web" ++ NL ++ lit "  ProxyJump gate" ++ NL) false;
  toy_record (lit "gate") (lit "Host gate" ++ NL) false;
  toy_record (lit "old") (lit "Host old" ++ NL) true
].
