(* ===== verification/HostText.v ===== *)
(** * HostText: the host blocks of a synced file

    [src-tauri/src/sync/hosts_file.rs]: the line of Includes at the top of the
    main config, what a synced block may not contain, and taking, placing and
    removing single Host blocks by their text.  Byte offsets into a rendered line
    are kept as such ([byte_suffix]); the tables of the standard library for letters
    and digits and the glob library are parameters. *)

From S2P Require Import Prelude Text ConfigParser.

(** ** Parameters *)

(** [char::is_alphanumeric], and how many characters [char::escape_debug] makes. *)
Class CharTables := {
  is_alphanumeric : N -> bool;
  escape_debug_count : N -> nat
}.

(** [glob::Pattern::new(g).is_ok_and(|p| p.matches_with(token, options))] with the
    options of the source. *)
Class GlobLib := { glob_matches : str -> str -> bool }.

(** ** Include tokens *)

Definition INCLUDE_DIR : str := lit "~/.ssh/sshelter/".
Definition AGENT_INCLUDE_TOKEN : str := lit "~/.ssh/sshelter/agent/config".
Definition managed_token : str := INCLUDE_DIR ++ lit "hosts.config".

Definition is_our_include_token (token : str) : bool :=
  match strip_prefix INCLUDE_DIR token with
  | Some rest => ends_with (lit ".config") rest && negb (contains_char 47 rest || contains_char 92 rest)
  | None => false
  end.

(** [agent::wiring::is_agent_include]. *)
Definition lists_agent_token (d : Directive) : bool :=
  (key d =?= lit "include") && negb (serializes_as_comment d)
  && existsb (fun t => t =?= AGENT_INCLUDE_TOKEN) (split_whitespace (value d)).
Definition is_agent_include (i : Item) : bool :=
  match i with DirectiveItem d => lists_agent_token d | _ => false end.

Definition enabled_include (i : Item) : option Directive :=
  match i with
  | DirectiveItem d => if (key d =?= lit "include") && negb (serializes_as_comment d) then Some d else None
  | _ => None
  end.
Definition include_words (i : Item) : list str :=
  match enabled_include i with Some d => split_whitespace (value d) | None => [] end.
Definition has_our_token (i : Item) : bool := existsb is_our_include_token (include_words i).

Definition is_blank_or_comment (i : Item) : bool :=
  match i with Blank _ | Comment _ => true | _ => false end.
Definition sync_include_index (l : list Item) : nat :=
  default (length l) (position (fun i => negb (is_blank_or_comment i) && negb (is_agent_include i)) l).

(** [d.value = v; d.dirty = true; d.enabled = true]. *)
Definition rewrite_include (v : str) (d : Directive) : Item := DirectiveItem (with_enabled (with_value d v) true).

(** The line with other words, or no line without words. *)
Definition keep_words (words : list str) (i : Item) : option Item :=
  match words, enabled_include i with
  | [], _ => None
  | _, Some d => Some (rewrite_include (join [32%N] words) d)
  | _, None => Some i
  end.

(** One item without our tokens. *)
Definition strip_our_tokens (i : Item) : option Item :=
  if has_our_token i then keep_words (List.filter (fun t => negb (is_our_include_token t)) (include_words i)) i
  else Some i.

(** Every index but [top]. *)
Fixpoint existsb_except {A} (f : A -> bool) (top : nat) (l : list A) : bool :=
  match l with
  | [] => false
  | x :: l =>
      match top with
      | O => existsb f l
      | S top => f x || existsb_except f top l
      end
  end.

Section Includes.
Context {U : Unicode}.

Definition ensure_include (items : list Item) (tokens : list str) : list Item * bool :=
  let top := sync_include_index items in
  let correct :=
    match tokens with
    | [] => negb (existsb has_our_token items)
    | _ =>
        match items !! top ≫= enabled_include with
        | Some d => (split_whitespace (value d) =?= tokens) && negb (existsb_except has_our_token top items)
        | None => false
        end
    end in
  if correct then (items, false)
  else
    let items := omap strip_our_tokens items in
    let items := match tokens with
                 | [] => items
                 | _ => vec_insert top (DirectiveItem (Directive_new (lit "Include") (join [32%N] tokens) [])) items
                 end in
    (items, true).
End Includes.

(** ** Leaving: our tokens become other paths *)

Definition is_glob_token (token : str) : bool := existsb (fun c => (c =? 42) || (c =? 63) || (c =? 91))%N token.

Section Release.
Context {G : GlobLib}.

Definition glob_covers (glob token : str) : bool := is_glob_token glob && glob_matches glob token.

Definition lists_include (items : list Item) (token : str) : bool :=
  existsb (fun t => is_our_include_token t && ((t =?= token) || glob_covers t token)) (flat_map include_words items).

(** [sort] of pairs of strings. *)
Definition pair_leb (a b : str * str) : bool :=
  match str_compare a.1 b.1 with
  | Lt => true
  | Gt => false
  | Eq => match str_compare a.2 b.2 with Gt => false | _ => true end
  end.
Fixpoint insert_pair (p : str * str) (l : list (str * str)) : list (str * str) :=
  match l with [] => [p] | q :: l' => if pair_leb p q then p :: l else q :: insert_pair p l' end.
Definition sort_pairs (l : list (str * str)) : list (str * str) := foldr insert_pair [] l.

Definition kept_as (kept : list (str * str)) (t : str) : option (str * str) := List.find (fun e => e.1 =?= t) kept.

Context (kept : list (str * str)) (exists_ : str -> bool).

(** One token: the tokens it becomes, whether that is a change, and what was placed. *)
Definition release_token (placed : list str) (t : str) : list str * bool * list str :=
  if negb (is_our_include_token t) then ([t], false, placed)
  else match kept_as kept t with
       | Some (_, new) => ([new], true, placed)
       | None =>
           let covered := sort_pairs (List.filter (fun e => negb (existsb (fun p => p =?= e.1) placed) && glob_covers t e.1) kept) in
           let still := exists_ t in
           (map snd covered ++ (if still then [t] else []), negb (covered =?= []) || negb still, map fst covered ++ placed)
       end.

Fixpoint release_tokens (placed : list str) (ts : list str) : list str * bool * list str :=
  match ts with
  | [] => ([], false, placed)
  | t :: ts =>
      let '(a, c, placed) := release_token placed t in
      let '(b, d, placed) := release_tokens placed ts in
      (a ++ b, c || d, placed)
  end.

Fixpoint release_items (placed : list str) (items : list Item) : list Item * bool :=
  match items with
  | [] => ([], false)
  | i :: items =>
      if has_our_token i then
        let '(tokens, changed, placed) := release_tokens placed (include_words i) in
        let '(rest, c) := release_items placed items in
        if changed
        then ((match keep_words tokens i with Some i => [i] | None => [] end) ++ rest, true)
        else (i :: rest, c)
      else let '(rest, c) := release_items placed items in (i :: rest, c)
  end.

Definition release_include (items : list Item) : list Item * bool :=
  let placed := omap (fun t => fst <$> kept_as kept t) (flat_map include_words items) in
  release_items placed items.
End Release.

(** ** Aliases *)

Definition is_syncable_alias (alias : str) : bool :=
  negb (alias =?= []) && negb (existsb (fun c => (c =? 42) || (c =? 63) || (c =? 33))%N alias).
Definition is_syncable_block (ps : list str) : bool := negb (ps =?= []) && forallb is_syncable_alias ps.

Definition first_alias (i : Item) : option str :=
  match i with Host h => head (patterns h) | _ => None end.

Definition wildcard_error (alias : str) : AppError :=
  AOther (lit "'" ++ alias ++ lit "' is a wildcard pattern; wildcard blocks are never synced").

Definition syncable_host_position (items : list Item) (alias : str) : result AppError (option nat) :=
  _ ← guard_err (negb (is_syncable_alias alias)) (wildcard_error alias);
  match position (fun i => first_alias i =?= Some alias) items with
  | Some p =>
      match items !! p with
      | Some (Host h) =>
          if is_syncable_block (patterns h) then Ok (Some p)
          else Err (AOther (lit "local block '" ++ alias ++ lit "' has wildcard patterns and stays local"))
      | _ => Err (AOther (lit "local block '" ++ alias ++ lit "' has wildcard patterns and stays local"))
      end
  | None => Ok None
  end.

(** ** Characters that hide something *)

Definition is_confusable_space (c : N) : bool := (negb (is_ascii c) && is_whitespace c) || (c =? 65279)%N.

Definition in_ranges (rs : list (N * N)) (c : N) : bool := existsb (fun r => in_range r.1 r.2 c) rs.

Definition is_format_character : N -> bool := in_ranges [
  (173, 173); (1536, 1541); (1564, 1564); (1757, 1757); (1807, 1807); (2192, 2193); (2274, 2274); (6158, 6158);
  (8203, 8207); (8234, 8238); (8288, 8292); (8294, 8303); (65279, 65279); (65529, 65531); (69821, 69821); (69837, 69837);
  (78896, 78911); (113824, 113827); (119155, 119162); (917505, 917505); (917536, 917631)
]%N.

Definition is_default_ignorable : N -> bool := in_ranges [
  (173, 173); (847, 847); (1564, 1564); (4447, 4448); (6068, 6069); (6155, 6159); (8203, 8207); (8234, 8238);
  (8288, 8303); (12644, 12644); (65024, 65039); (65279, 65279); (65440, 65440); (65520, 65528); (113824, 113827);
  (119155, 119162); (917504, 921599)
]%N.

Definition is_blank_by_design : N -> bool := in_ranges [
  (10240, 10240); (119129, 119129); (78913, 78913); (78914, 78914); (12351, 12351)
]%N.

Definition is_invisible (c : N) : bool :=
  is_confusable_space c || is_format_character c || is_default_ignorable c || is_blank_by_design c
  || (is_control c && negb (c =? 9)%N).

(** ** Where OpenSSH sees a comment *)

(** Whether OpenSSH takes the character after a backslash as it is. *)
Definition escapable (quote : option N) (c : N) : bool :=
  (c =? 39)%N || (c =? 34)%N || (c =? 92)%N || (bool_decide (quote = None) && (c =? 32)%N).

(** The inner loop of [openssh_comment_start]: skips one word, [i] characters in. *)
Fixpoint skip_word (quote : option N) (i : nat) (s : str) : nat * str * option N :=
  match s with
  | [] => (i, [], quote)
  | c :: s1 =>
      if (c =? 92)%N then
        match s1 with
        | e :: s2 => if escapable quote e then skip_word quote (S (S i)) s2 else skip_word quote (S i) s1
        | [] => (S i, [], quote)
        end
      else if ((c =? 32)%N || (c =? 9)%N) && bool_decide (quote = None) then (i, s, quote)
      else if ((c =? 34)%N || (c =? 39)%N) && bool_decide (quote = None) then skip_word (Some c) (S i) s1
      else if bool_decide (quote = Some c) then skip_word None (S i) s1
      else skip_word quote (S i) s1
  end.

Fixpoint comment_start (fuel : nat) (i : nat) (s : str) : option nat :=
  match fuel, s with
  | O, _ | _, [] => None
  | S fuel, c :: s1 =>
      if (c =? 32)%N || (c =? 9)%N then comment_start fuel (S i) s1
      else if (c =? 35)%N then Some i
      else
        let '(j, rest, quote) := skip_word None i s in
        match quote with Some _ => None | None => comment_start fuel j rest end
  end.
(** [openssh_comment_start], the index as a number of characters: all tests are on
    ASCII bytes.  Every pass takes a character or more. *)
Definition openssh_comment_start (text : str) : option nat := comment_start (S (length text)) 0 text.

(** [str::get(n..)]: [None] past the end or inside a character. *)
Fixpoint byte_suffix (n : nat) (s : str) : option str :=
  match n, s with
  | O, _ => Some s
  | _, [] => None
  | _, c :: s' =>
      let w := length (utf8_char c) in
      if (w <=? n)%nat then byte_suffix (n - w) s' else None
  end.

Definition strip_cr (line : str) : str :=
  match reverse line with 13%N :: r => reverse r | _ => line end.

Definition RAW_LINE_KEYWORDS : list str :=
  map lit ["proxycommand"; "localcommand"; "remotecommand"; "knownhostscommand"; "versionaddendum"].
Definition is_raw_line (d : Directive) : bool := existsb (fun k => k =?= key d) RAW_LINE_KEYWORDS.

(** The byte at which the text after the separator starts. *)
Definition rest_start (d : Directive) : nat := str_len (indent d) + str_len (keyword d) + str_len (sep_str (separator d)).

(** [line] up to what OpenSSH takes for a comment: [line[..openssh_comment_offset(d, line)]]. *)
Definition read_by_openssh (d : Directive) (line : str) : str :=
  if is_raw_line d then line
  else match byte_suffix (rest_start d) line with
       | None => line
       | Some rest =>
           match openssh_comment_start rest with
           | Some at_ => take (length line - length rest + at_) line
           | None => line
           end
       end.

Definition has_invisible_character (d : Directive) : bool :=
  let line := strip_cr (render_directive d) in existsb is_invisible (read_by_openssh d line).

Section Letters.
Context {C : CharTables}.

Definition is_base_letter_or_digit (c : N) : bool :=
  is_alphanumeric c && (escape_debug_count c =? 1)%nat && negb ((c =? 65438)%N || (c =? 65439)%N).

Fixpoint stray_from (previous : option N) (s : str) : bool :=
  match s with
  | [] => false
  | c :: s =>
      let starts_a_word := match previous with
                           | None => true
                           | Some p => is_ascii p && negb (is_ascii_alphanumeric p)
                           end in
      (starts_a_word && negb (is_ascii c) && negb (is_base_letter_or_digit c)) || stray_from (Some c) s
  end.

Definition has_stray_character (d : Directive) : bool :=
  is_raw_line d
  && (let line := strip_cr (render_directive d) in
      stray_from None (default line (byte_suffix (rest_start d) line))).
End Letters.

Definition invisible_outside_comment (line : str) : bool :=
  existsb is_invisible (break_at (N.eqb 35) (strip_cr line)).1.

(** ** What OpenSSH reads differently *)

(** The text after the separator, with what the parser takes for a comment. *)
Definition rest_text (d : Directive) : str := value d ++ trailing_ws d ++ default [] (inline_comment d).

(** [split] on a set of characters, without the empty pieces. *)
Fixpoint words_aux (sep : N -> bool) (cur : str) (s : str) : list str :=
  match s with
  | [] => match cur with [] => [] | _ => [reverse cur] end
  | c :: s' =>
      if sep c then match cur with [] => words_aux sep [] s' | _ => reverse cur :: words_aux sep [] s' end
      else words_aux sep (c :: cur) s'
  end.
Definition words (sep : N -> bool) (s : str) : list str := words_aux sep [] s.
Definition is_blank (c : N) : bool := (c =? 32)%N || (c =? 9)%N.

Fixpoint take_while {A} (p : A -> bool) (l : list A) : list A :=
  match l with [] => [] | x :: l => if p x then x :: take_while p l else [] end.

(** [trim_end_matches] of these characters. *)
Definition trim_end_blanks (s : str) : str :=
  reverse (drop_while (fun c => existsb (N.eqb c) [32; 9; 13; 10; 12]%N) (reverse s)).

Definition header_reads_the_same (d : Directive) : bool :=
  let rest := trim_end_blanks (rest_text d) in
  let read := match openssh_comment_start rest with Some at_ => take at_ rest | None => rest end in
  negb (existsb (fun c => (c =? 34) || (c =? 39) || (c =? 92))%N read)
  && (words is_blank read =?= split_whitespace (value d)).

Definition header_name (k : str) : option str :=
  if k =?= lit "host" then Some (lit "Host") else if k =?= lit "match" then Some (lit "Match") else None.

Definition SHELL_BOUND_KEYWORDS : list (str * str) :=
  [(lit "hostname", lit "HostName"); (lit "user", lit "User"); (lit "hostkeyalias", lit "HostKeyAlias"); (lit "proxyjump", lit "ProxyJump")].
Definition SHELL_CHARACTERS : str := [39; 96; 34; 36; 92; 59; 38; 60; 62; 124; 40; 41; 123; 125]%N.

Definition has_dash_hop (v : str) : bool :=
  existsb (fun hop =>
    let hop := default hop (strip_prefix (lit "ssh://") hop) in
    let host := match rsplit_once 64 hop with Some (_, host) => host | None => hop end in
    starts_with (lit "-") hop || starts_with (lit "-") host || starts_with (lit "[-") host) (split_char 44 v).

(** [u8::is_ascii_whitespace]: without the vertical tab. *)
Definition is_ascii_ws (c : N) : bool := (c =? 32)%N || (c =? 9)%N || (c =? 10)%N || (c =? 12)%N || (c =? 13)%N.

Definition is_plain_shell_bound_value (d : Directive) : bool :=
  match take_while (fun w => negb (starts_with (lit "#") w)) (words is_ascii_ws (rest_text d)) with
  | [word] =>
      negb (starts_with (lit "-") word)
      && negb (existsb (fun c => is_control c || contains_char c SHELL_CHARACTERS) word)
      && negb ((key d =?= lit "proxyjump") && has_dash_hop word)
  | _ => false
  end.

(** ** What a synced block may not contain *)

Inductive Forbidden :=
| FInclude
| QuotedKeyword
| LeadingEquals
| UnsafeValue (name : str)
| InvisibleCharacter
| StrayCharacter
| MisreadHeader (name : str).
#[export] Instance forbidden_eq_dec : EqDecision Forbidden.
Proof. solve_decision. Defined.

Definition describe (f : Forbidden) : str :=
  match f with
  | FInclude => lit "an Include line"
  | QuotedKeyword => lit "a quoted keyword (OpenSSH reads it differently from Lunport)"
  | LeadingEquals => lit "a line starting with '=' (OpenSSH reads the next word as its keyword)"
  | UnsafeValue k => lit "a " ++ k ++ lit " value with characters ssh would pass to a shell"
  | InvisibleCharacter => lit "a line with a non-ASCII space or control character, or an invisible formatting character (OpenSSH would read something other than what Lunport shows)"
  | StrayCharacter => lit "a command with a combining mark or symbol where a word starts (it could disguise where a shell comment begins)"
  | MisreadHeader k => lit "a " ++ k ++ lit " line that OpenSSH reads differently from Lunport"
  end.

Section Validation.
Context {U : Unicode} {C : CharTables}.

Definition forbidden (d : Directive) : option Forbidden :=
  if serializes_as_comment d then None
  else if keyword d =?= [] then Some LeadingEquals
  else if contains_char 34 (keyword d) then Some QuotedKeyword
  else if key d =?= lit "include" then Some FInclude
  else if has_invisible_character d then Some InvisibleCharacter
  else if has_stray_character d then Some StrayCharacter
  else match header_name (key d) with
       | Some name => if header_reads_the_same d then None else Some (MisreadHeader name)
       | None =>
           match snd <$> List.find (fun e => key d =?= e.1) SHELL_BOUND_KEYWORDS with
           | Some name => if is_plain_shell_bound_value d then None else Some (UnsafeValue name)
           | None => None
           end
       end.

Definition or_else {A} (a b : option A) : option A := match a with Some x => Some x | None => b end.

(** [forbidden_directive]: the first one, the header of a block before its body. *)
Fixpoint forbidden_item (i : Item) : option Forbidden :=
  let go := fix go (l : list Item) : option Forbidden :=
    match l with [] => None | i :: l => or_else (forbidden_item i) (go l) end in
  match i with
  | DirectiveItem d => forbidden d
  | Host (mkHostBlock d _ b) => or_else (forbidden d) (go b)
  | Match (mkMatchBlock d _ b) => or_else (forbidden d) (go b)
  | Blank line | Comment line => if invisible_outside_comment line then Some InvisibleCharacter else None
  end.
Fixpoint forbidden_directive (l : list Item) : option Forbidden :=
  match l with [] => None | i :: l => or_else (forbidden_item i) (forbidden_directive l) end.

(** ** Blocks *)

Record HostBlockText := mkBlockText { bt_alias : str; bt_text : str }.

Definition block_text (i : Item) : str := serialize_items [i] true.

Definition blocks_of (items : list Item) : list HostBlockText :=
  omap (fun i => match i with
                 | Host h => if is_syncable_block (patterns h) then (fun a => mkBlockText a (block_text i)) <$> head (patterns h) else None
                 | _ => None
                 end) items.

Definition is_single_host_block_read_alike (items : list Item) : bool :=
  match items with [Host h] => header_reads_the_same (header h) | _ => false end.

Definition synced_error (alias : str) (what : str) : AppError :=
  AOther (lit "synced record for '" ++ alias ++ lit "' " ++ what).

Definition parse_single_host (alias text : str) : result AppError Item :=
  let parsed := (parse_file text).1 in
  _ ← guard_err (negb (forallb (fun i => match i with Host _ => true | _ => false end) parsed))
        (synced_error alias (lit "must contain nothing but one Host block"));
  match parsed with
  | [Host h] =>
      if head (patterns h) <?> Some alias then Err (synced_error alias (lit "names a different host"))
      else if negb (is_syncable_block (patterns h)) then Err (synced_error alias (lit "contains wildcard patterns"))
      else match forbidden_directive [Host h] with
           | Some f => Err (synced_error alias (lit "contains " ++ describe f ++ lit ", which synced hosts cannot use"))
           | None => Ok (Host h)
           end
  | _ => Err (synced_error alias (lit "must contain exactly one Host block"))
  end.

Definition validate_host_text (alias text : str) : result AppError unit :=
  _ ← guard_err (negb (is_syncable_alias alias)) (wildcard_error alias);
  _ ← parse_single_host alias text;
  Ok tt.

Definition apply_host_text (items : list Item) (alias text : str) : result AppError (list Item * bool) :=
  pos ← syncable_host_position items alias;
  incoming ← parse_single_host alias text;
  match pos with
  | Some p =>
      if (block_text <$> items !! p) =?= Some (block_text incoming) then Ok (items, false)
      else Ok (<[p := incoming]> items, true)
  | None => Ok (items ++ [incoming], true)
  end.

Definition remove_host_block (items : list Item) (alias : str) : list Item * bool :=
  match syncable_host_position items alias with
  | Ok (Some p) => (vec_remove p items, true)
  | _ => (items, false)
  end.
End Validation.
