(* ===== verification/HostTextProps.v ===== *)
(** * HostTextProps: what OpenSSH reads in a synced block

    A reference for the way OpenSSH splits the text after a keyword into words, and
    the proof that in a text that passed the checks it reads the words that the
    parser shows. *)

From S2P Require Import Prelude Text ConfigParser HostText.

(** ** OpenSSH's words

    [argv_split] of OpenSSH (misc.c) with [terminate_on_comment], as the comments of the
    source describe it: words are separated by blanks and tabs, quotes of both
    kinds group, a backslash escapes a quote, a backslash and (outside quotes) a blank,
    and a number sign at the start of a word ends the line. *)
Fixpoint argv_word (quote : option N) (s : str) : str * str * option N :=
  match s with
  | [] => ([], [], quote)
  | c :: s1 =>
      let take_char (r : str * str * option N) (c : N) := let '(w, t, q) := r in (c :: w, t, q) in
      if (c =? 92)%N then
        match s1 with
        | e :: s2 => if escapable quote e then take_char (argv_word quote s2) e else take_char (argv_word quote s1) c
        | [] => ([c], [], quote)
        end
      else if is_blank c && bool_decide (quote = None) then ([], s, quote)
      else if ((c =? 34)%N || (c =? 39)%N) && bool_decide (quote = None) then argv_word (Some c) s1
      else if bool_decide (quote = Some c) then argv_word None s1
      else take_char (argv_word quote s1) c
  end.
Fixpoint argv_words (fuel : nat) (s : str) : option (list str) :=
  match fuel, s with
  | _, [] => Some []
  | O, _ => None
  | S fuel, c :: s1 =>
      if is_blank c then argv_words fuel s1
      else if (c =? 35)%N then Some []
      else
        let '(w, rest, quote) := argv_word None s in
        match quote with
        | Some _ => None
        | None => ws ← argv_words fuel rest; Some (w :: ws)
        end
  end.
Definition argv_split (s : str) : option (list str) := argv_words (length s) s.

(** ** Words *)

Definition special (c : N) : bool := (c =? 34)%N || (c =? 39)%N || (c =? 92)%N.
Definition no_hash (w : str) : bool := negb (starts_with (lit "#") w).
Definition read_part (s : str) : str := match openssh_comment_start s with Some at_ => take at_ s | None => s end.

Lemma words_aux_word sep w : forall cur s, forallb (fun c => negb (sep c)) w = true ->
  words_aux sep cur (w ++ s) = words_aux sep (reverse w ++ cur) s.
Proof.
  induction w as [|c w IH]; intros cur s; [done|]. cbn [app words_aux forallb]. intros [Hc Hw]%andb_true_iff. apply negb_true_iff in Hc.
  rewrite Hc, IH by done. by rewrite reverse_cons, <- app_assoc.
Qed.
Lemma words_cons_sep sep c s : sep c = true -> words sep (c :: s) = words sep s.
Proof. unfold words. cbn. by intros ->. Qed.
Lemma words_word sep w t : w <> [] -> forallb (fun c => negb (sep c)) w = true ->
  match t with [] => True | c :: _ => sep c = true end -> words sep (w ++ t) = w :: words sep t.
Proof.
  intros Hne Hw Ht. unfold words. rewrite words_aux_word, app_nil_r by done.
  assert (reverse w <> []) as Hr by (intros H; apply Hne; rewrite <- (reverse_involutive w), H; done).
  destruct t as [|c t]; cbn; [|rewrite Ht]; destruct (reverse w) eqn:E; try done; by rewrite <- E, reverse_involutive.
Qed.

(** The first word up to a separator. *)
Lemma break_word (sep : N -> bool) (s : str) : exists w t, s = w ++ t /\ forallb (fun c => negb (sep c)) w = true /\
  match t with [] => True | c :: _ => sep c = true end.
Proof.
  exists (break_at sep s).1, (break_at sep s).2. split_and!; [by rewrite break_at_app|apply break_at_fst|].
  destruct (break_at sep s).2 as [|c t] eqn:E; [done|]. by eapply break_at_snd.
Qed.

(** A word without quotes and backslashes is skipped and read as it is. *)
Lemma skip_word_plain w t : forall i, forallb (fun c => negb (is_blank c)) w = true -> existsb special w = false ->
  match t with [] => True | c :: _ => is_blank c = true end ->
  skip_word None i (w ++ t) = (i + length w, t, None) /\ argv_word None (w ++ t) = (w, t, None).
Proof.
  induction w as [|c w IH]; intros i Hw Hs Ht.
  - rewrite Nat.add_0_r. destruct t as [|c t]; [done|]. cbn [app skip_word argv_word].
    assert ((c =? 92)%N = false) as -> by (unfold is_blank in Ht; breflect; apply orb_true_iff in Ht as [?%N.eqb_eq|?%N.eqb_eq]; subst; done).
    unfold is_blank in *. rewrite Ht. done.
  - cbn in Hw, Hs. apply andb_true_iff in Hw as [Hc Hw]. apply negb_true_iff in Hc. apply orb_false_iff in Hs as [Hsc Hs].
    destruct (IH (S i) Hw Hs Ht) as [H1 H2]. unfold special in Hsc. apply orb_false_iff in Hsc as [[H34 H39]%orb_false_iff H92].
    cbn [app skip_word argv_word length]. unfold is_blank in *. rewrite H92, H34, H39, Hc. cbn [andb orb].
    rewrite bool_decide_eq_false_2 by done. rewrite H1, H2. split; [f_equal; f_equal; lia|done].
Qed.

Lemma no_hash_cons c w : no_hash (c :: w) = negb (c =? 35)%N.
Proof.
  unfold no_hash, starts_with. change (lit "#") with [35%N]. unfold strip_prefix. rewrite N.eqb_sym. by destruct (c =? 35)%N.
Qed.

(** What is skipped is a prefix that ends before a blank or at the end. *)
Lemma skip_word_prefix s : forall quote i j rest q, skip_word quote i s = (j, rest, q) ->
  exists w, s = w ++ rest /\ j = i + length w /\ match rest with [] => True | c :: _ => is_blank c = true end.
Proof.
  induction s as [s IH] using (induction_ltof1 _ (@length N)); unfold ltof in IH. intros quote i j rest q H.
  destruct s as [|c s1]; cbn [skip_word] in H; [injection H as <- <- <-; exists []; split_and!; [done|cbn; lia|done]|].
  destruct ((c =? 92)%N).
  - destruct s1 as [|e s2]; [injection H as <- <- <-; exists [c]; split_and!; [done|cbn; lia|done]|].
    destruct (escapable quote e); apply IH in H as (w & Hw & -> & Hr); try (cbn; lia).
    + exists (c :: e :: w). split_and!; [by rewrite Hw|cbn; lia|done].
    + exists (c :: w). split_and!; [by rewrite Hw|cbn; lia|done].
  - destruct (_ && bool_decide (quote = None)) eqn:Hb.
    { injection H as <- <- <-. exists []. split_and!; [done|cbn; lia|]. by apply andb_true_iff in Hb as [? _]. }
    destruct (((c =? 34)%N || (c =? 39)%N) && _); [|destruct (bool_decide (quote = Some c))];
      (apply IH in H as (w & Hw & -> & Hr); [|cbn; lia]; exists (c :: w); split_and!; [by rewrite Hw|cbn; lia|done]).
Qed.

Lemma skip_word_length w t j rest q i : forallb (fun c => negb (is_blank c)) w = true ->
  skip_word None i (w ++ t) = (j, rest, q) -> i + length w <= j.
Proof.
  intros Hw H. apply skip_word_prefix in H as (w' & Heq & -> & Hr).
  destruct (le_lt_dec (length w) (length w')) as [|Hlt]; [lia|exfalso].
  destruct rest as [|c rest].
  { rewrite app_nil_r in Heq. apply (f_equal length) in Heq. rewrite length_app in Heq. lia. }
  assert (c ∈ w) as Hin.
  { apply list_elem_of_lookup. exists (length w').
    apply (f_equal (fun l => l !! length w')) in Heq. rewrite lookup_app_l, lookup_app_r, Nat.sub_diag in Heq by lia. done. }
  rewrite forallb_forall in Hw. apply list_elem_of_In, Hw in Hin. by rewrite Hr in Hin.
Qed.

Lemma comment_start_ge f : forall i s at_, comment_start f i s = Some at_ -> i <= at_.
Proof.
  induction f as [|f IH]; intros i [|c s] at_; cbn [comment_start]; try done.
  destruct (_ || _); [intros H%IH; lia|]. destruct (c =? 35)%N; [intros [= ->]; lia|].
  destruct (skip_word None i (c :: s)) as [[j rest] q] eqn:E. destruct q; [done|]. intros H%IH.
  apply skip_word_prefix in E as (w & _ & -> & _). lia.
Qed.

(** The text up to the comment, for a scan that starts at index [i]. *)
Definition read_from (f i : nat) (s : str) : str :=
  match comment_start f i s with Some at_ => take (at_ - i) s | None => s end.

Lemma read_from_blank f i c s : is_blank c = true -> read_from (S f) i (c :: s) = c :: read_from f (S i) s.
Proof.
  intros Hc. unfold read_from. cbn [comment_start]. unfold is_blank in Hc. rewrite Hc.
  destruct (comment_start f (S i) s) as [at_|] eqn:E; [|done]. apply comment_start_ge in E.
  replace (at_ - i) with (S (at_ - S i)) by lia. done.
Qed.
Lemma read_from_word f i w t : w <> [] -> forallb (fun c => negb (is_blank c)) w = true -> existsb special w = false ->
  no_hash w = true -> match t with [] => True | c :: _ => is_blank c = true end ->
  read_from (S f) i (w ++ t) = w ++ read_from f (i + length w) t.
Proof.
  intros Hne Hw Hs Hh Ht. unfold read_from. destruct w as [|c w]; [done|]. cbn [app comment_start].
  rewrite no_hash_cons in Hh. apply negb_true_iff in Hh as ->.
  cbn [forallb] in Hw. apply andb_true_iff in Hw as [Hc Hw]. apply negb_true_iff in Hc. pose proof Hc as Hc'. unfold is_blank in Hc'. rewrite Hc'.
  change (c :: w ++ t) with ((c :: w) ++ t). rewrite (proj1 (skip_word_plain (c :: w) t i ltac:(cbn [forallb]; by rewrite Hc) Hs Ht)).
  destruct (comment_start f _ t) as [at_|] eqn:E; [|done]. apply comment_start_ge in E.
  rewrite take_app_ge by lia. by rewrite Nat.sub_add_distr.
Qed.
(** Nothing of the first word is past the comment. *)
Lemma read_from_covers f i w t c : w <> [] -> forallb (fun c => negb (is_blank c)) w = true -> no_hash w = true ->
  c ∈ w -> c ∈ read_from (S f) i (w ++ t).
Proof.
  intros Hne Hw Hh Hc. unfold read_from. destruct w as [|x w]; [done|]. cbn [app comment_start].
  rewrite no_hash_cons in Hh. apply negb_true_iff in Hh as ->.
  pose proof Hw as Hw'. cbn [forallb] in Hw'. apply andb_true_iff in Hw' as [Hx _]. apply negb_true_iff in Hx. unfold is_blank in Hx. rewrite Hx.
  change (x :: w ++ t) with ((x :: w) ++ t). destruct (skip_word None i ((x :: w) ++ t)) as [[j rest] q] eqn:E.
  apply skip_word_length in E; [|done]. destruct q; [apply elem_of_app; by left|].
  destruct (comment_start f j rest) as [at_|] eqn:E2; [|apply elem_of_app; by left]. apply comment_start_ge in E2.
  rewrite take_app_ge by lia. apply elem_of_app; by left.
Qed.

Lemma no_sep_word (sep : N -> bool) w : (forall c, c ∈ w -> sep c = false) -> forallb (fun c => negb (sep c)) w = true.
Proof. intros H. apply forallb_forall. intros c Hc. rewrite H; [done|by apply list_elem_of_In]. Qed.

(** As long as only blanks separate words in what is read, OpenSSH reads the words up to the
    first that starts with a number sign. *)
Lemma argv_reads (sep : N -> bool) : (forall c, is_blank c = true -> sep c = true) -> sep 35%N = false -> forall f g i s,
  length s < f -> length s <= g ->
  (forall c, c ∈ read_from f i s -> sep c = true -> is_blank c = true) ->
  existsb special (read_from f i s) = false \/ Forall (fun w => existsb special w = false) (take_while no_hash (words sep s)) ->
  argv_words g s = Some (take_while no_hash (words sep s)) /\ words is_blank (read_from f i s) = take_while no_hash (words sep s).
Proof.
  intros Hsep Hsh. induction f as [|f IH]; intros g i s Hf Hg Hread Hsp; [lia|].
  destruct s as [|c s1]; [by destruct g|]. destruct g as [|g]; [cbn in Hg; lia|]. cbn [length] in Hf, Hg.
  destruct (is_blank c) eqn:Hc.
  { rewrite read_from_blank in Hread, Hsp |- * by done. cbn [argv_words]. rewrite Hc, !words_cons_sep in * by auto.
    apply IH; [lia..| |].
    - intros x Hx. apply Hread. apply elem_of_cons. by right.
    - destruct Hsp as [Hsp|Hsp]; [left|by right]. cbn in Hsp. by apply orb_false_iff in Hsp as [_ ?]. }
  destruct (c =? 35)%N eqn:Hh.
  { cbn [argv_words]. rewrite Hc, Hh. apply N.eqb_eq in Hh as ->.
    assert (read_from (S f) i (35%N :: s1) = []) as -> by (unfold read_from; cbn; by rewrite Nat.sub_diag).
    clear Hread Hsp IH. destruct (break_word sep s1) as (w & t & -> & Hw & Ht).
    change (35%N :: w ++ t) with ((35%N :: w) ++ t). rewrite (words_word sep (35%N :: w) t); [done|done|cbn; by rewrite Hsh|done]. }
  destruct (break_word is_blank (c :: s1)) as (w & t & Hst & Hw & Ht).
  assert (exists w0, w = c :: w0) as [w0 Hw0].
  { destruct w as [|x w0]; [|injection Hst as -> _; by exists w0]. cbn in Hst. destruct t; [done|]. injection Hst as -> ->. congruence. }
  assert (no_hash w = true) as Hnh by (subst w; by rewrite no_hash_cons, Hh).
  assert (w <> []) as Hne by (by subst w).
  rewrite Hst in Hread, Hsp |- *.
  assert (forall x, x ∈ w -> x ∈ read_from (S f) i (w ++ t)) as Hcov by (intros x Hx; by apply read_from_covers).
  assert (forallb (fun c => negb (sep c)) w = true) as Hws.
  { apply no_sep_word. intros x Hx. destruct (sep x) eqn:Hsx; [|done]. apply Hread in Hsx; [|by apply Hcov].
    rewrite forallb_forall in Hw. apply list_elem_of_In, Hw in Hx. by rewrite Hsx in Hx. }
  assert (words sep (w ++ t) = w :: words sep t) as Hwords.
  { apply words_word; [done..|]. destruct t; [done|]. by apply Hsep. }
  rewrite Hwords in Hsp |- *. cbn [take_while] in Hsp |- *. rewrite Hnh in Hsp |- *.
  assert (existsb special w = false) as Hwsp.
  { destruct Hsp as [Hsp|Hsp]; [|by apply Forall_inv in Hsp]. apply existsb_none. rewrite existsb_none in Hsp. intros x Hx. by apply Hsp, Hcov. }
  rewrite read_from_word in Hread, Hsp |- * by done.
  assert (argv_words (S g) (w ++ t) = ws ← argv_words g t; Some (w :: ws)) as ->.
  { subst w. cbn [app argv_words]. rewrite Hc, Hh. change (c :: w0 ++ t) with ((c :: w0) ++ t).
    by rewrite (proj2 (skip_word_plain (c :: w0) t 0 Hw Hwsp Ht)). }
  assert (length t < f /\ length t <= g) as [Hlf Hlg].
  { apply (f_equal length) in Hst. rewrite length_app in Hst. subst w. cbn in Hst. lia. }
  destruct (IH g (i + length w) t Hlf Hlg) as [H1 H2].
  - intros x Hx. apply Hread. apply elem_of_app. by right.
  - destruct Hsp as [Hsp|Hsp]; [left|right; by apply Forall_inv_tail in Hsp].
    rewrite existsb_app in Hsp. by apply orb_false_iff in Hsp as [_ ?].
  - rewrite H1. split; [done|]. rewrite words_word; [by rewrite H2|done|done|].
    destruct (read_from f (i + length w) t) as [|x r] eqn:E; [done|].
    destruct t as [|y t]; [unfold read_from in E; destruct f; done|].
    destruct f as [|f']; [cbn in Hlf; lia|]. rewrite read_from_blank in E by done. injection E as <- _. done.
Qed.

Lemma read_from_part s : read_from (S (length s)) 0 s = read_part s.
Proof. unfold read_from, read_part, openssh_comment_start. destruct (comment_start _ 0 s); [by rewrite Nat.sub_0_r|done]. Qed.

Lemma argv_split_reads (sep : N -> bool) s : (forall c, is_blank c = true -> sep c = true) -> sep 35%N = false ->
  (forall c, c ∈ read_part s -> sep c = true -> is_blank c = true) ->
  existsb special (read_part s) = false \/ Forall (fun w => existsb special w = false) (take_while no_hash (words sep s)) ->
  argv_split s = Some (take_while no_hash (words sep s)) /\ words is_blank (read_part s) = take_while no_hash (words sep s).
Proof.
  rewrite <- read_from_part. intros H1 H2 H3 H4. apply argv_reads; [done..|lia|lia|done|done].
Qed.

(** A header that passes is read as it is shown. *)
Lemma header_reads d : header_reads_the_same d = true ->
  argv_split (trim_end_blanks (rest_text d)) = Some (split_whitespace (value d)).
Proof.
  unfold header_reads_the_same. intros [H1 H2]%andb_true_iff. apply bool_decide_eq_true_1 in H2. apply negb_true_iff in H1.
  fold (read_part (trim_end_blanks (rest_text d))) in H1, H2.
  destruct (argv_split_reads is_blank (trim_end_blanks (rest_text d))) as [H3 H4]; [done..| |].
  - left. exact H1.
  - by rewrite H3, <- H4, H2.
Qed.

(** ** Blanks at the end of a line do not matter *)

Definition trimmed_char (c : N) : bool := existsb (N.eqb c) [32; 9; 13; 10; 12]%N.

Lemma trimmed_plain c : trimmed_char c = true -> (c =? 92)%N = false /\ (c =? 34)%N = false /\ (c =? 39)%N = false /\ (c =? 35)%N = false.
Proof.
  unfold trimmed_char. cbn [existsb]. intros H. repeat (apply orb_true_iff in H as [H|H]); try discriminate;
    apply N.eqb_eq in H as ->; done.
Qed.

Definition quote_ok (q : option N) : Prop := match q with None => True | Some c => c = 34%N \/ c = 39%N end.

Lemma skip_trimmed z : forall q i, quote_ok q -> forallb trimmed_char z = true ->
  exists j z2, skip_word q i z = (j, z2, q) /\ forallb trimmed_char z2 = true.
Proof.
  induction z as [|c z IH]; intros q i Hq Hz; [by exists i, []|]. pose proof Hz as Hcz. cbn [forallb] in Hz. apply andb_true_iff in Hz as [Hc Hz].
  apply trimmed_plain in Hc as (H92 & H34 & H39 & _). cbn [skip_word]. rewrite H92, H34, H39. cbn [orb andb].
  destruct (_ && bool_decide (q = None)); [by exists i, (c :: z)|].
  rewrite bool_decide_eq_false_2; [by apply IH|]. intros ->. cbn in Hq. destruct Hq as [-> | ->]; done.
Qed.

Lemma skip_word_app z : forallb trimmed_char z = true -> forall s q i, quote_ok q ->
  let '(j, rest, q') := skip_word q i s in
  exists j2 rest2, skip_word q i (s ++ z) = (j2, rest2, q') /\
    ((rest2 = rest ++ z /\ j2 = j /\ rest <> []) \/ (rest = [] /\ forallb trimmed_char rest2 = true)).
Proof.
  intros Hz s. induction s as [s IH] using (induction_ltof1 _ (@length N)); unfold ltof in IH. intros q i Hq.
  destruct s as [|c s1].
  { cbn [skip_word app]. destruct (skip_trimmed z q i Hq Hz) as (j & z2 & H & Hz2). exists j, z2. split; [done|by right]. }
  cbn [app skip_word]. destruct (c =? 92)%N eqn:H92.
  - destruct s1 as [|e s2]; cbn [app].
    + destruct z as [|e z]; [exists (S i), []; split; [done|by right]|].
      pose proof Hz as Hz0. cbn [forallb] in Hz. apply andb_true_iff in Hz as [He Hz].
      destruct (escapable q e); [destruct (skip_trimmed z q (S (S i)) Hq Hz) as (j & z2 & H & Hz2)|
                                 destruct (skip_trimmed (e :: z) q (S i) Hq Hz0) as (j & z2 & H & Hz2)];
        exists j, z2; (split; [done|by right]).
    + destruct (escapable q e); [apply (IH s2)|apply (IH (e :: s2))]; cbn; try lia; done.
  - destruct (_ && bool_decide (q = None)).
    { exists i, (c :: s1 ++ z). split; [done|left]. split_and!; done. }
    destruct (((c =? 34)%N || (c =? 39)%N) && _) eqn:Ho; [apply IH; [cbn; lia|]|destruct (bool_decide (q = Some c)); apply IH; [cbn; lia|done|cbn; lia|done]].
    apply andb_true_iff in Ho as [Ho _]. cbn. by apply orb_true_iff in Ho as [?%N.eqb_eq|?%N.eqb_eq]; [left|right].
Qed.

Lemma comment_start_trimmed f : forall i z, forallb trimmed_char z = true -> comment_start f i z = None.
Proof.
  induction f as [|f IH]; intros i [|c z] Hz; try done. cbn [comment_start]. pose proof Hz as Hz0. cbn [forallb] in Hz.
  apply andb_true_iff in Hz as [Hc Hz]. pose proof (trimmed_plain _ Hc) as (_ & _ & _ & ->).
  destruct (_ || _); [by apply IH|]. destruct (skip_trimmed (c :: z) None i I Hz0) as (j & z2 & -> & Hz2). by apply IH.
Qed.

Lemma comment_start_app z : forallb trimmed_char z = true -> forall f f' i s, length s < f -> length (s ++ z) < f' ->
  comment_start f' i (s ++ z) = comment_start f i s.
Proof.
  intros Hz. induction f as [|f IH]; intros f' i s Hf Hf'; [lia|]. destruct f' as [|f']; [lia|].
  destruct s as [|c s1]; [by rewrite comment_start_trimmed|]. cbn [app comment_start]. cbn in Hf, Hf'.
  destruct (_ || _) eqn:Hb; [apply IH; lia|]. destruct (c =? 35)%N; [done|].
  pose proof (skip_word_app z Hz (c :: s1) None i I) as H. cbn [app] in H.
  destruct (skip_word None i (c :: s1)) as [[j rest] q'] eqn:E. destruct H as (j2 & rest2 & -> & H).
  destruct q'; [done|]. destruct H as [(-> & -> & Hne)|[-> Hr]].
  - assert (i + 1 <= j) as Hj.
    { apply (skip_word_length [c] s1 j rest None i); [cbn [forallb]; unfold is_blank; by rewrite Hb|done]. }
    apply skip_word_prefix in E as (w & Hw & -> & _). apply (f_equal length) in Hw. rewrite length_app in Hw. cbn in Hw.
    rewrite !length_app in *. apply IH; rewrite ?length_app; lia.
  - rewrite comment_start_trimmed by done. by destruct f.
Qed.

Lemma read_part_app z s : forallb trimmed_char z = true ->
  read_part (s ++ z) = match openssh_comment_start s with Some _ => read_part s | None => s ++ z end.
Proof.
  intros Hz. unfold read_part, openssh_comment_start. rewrite (comment_start_app z Hz (S (length s)) _ 0 s) by lia.
  destruct (comment_start _ 0 s) as [at_|] eqn:E; [|done]. rewrite take_app_le; [done|].
  assert (forall f i s at_, comment_start f i s = Some at_ -> at_ < i + length s) as Hlt; [|apply Hlt in E; lia].
  clear. induction f as [|f IH]; intros i [|c s] at_; cbn [comment_start length]; try done.
  destruct (_ || _); [intros H%IH; lia|]. destruct (c =? 35)%N; [intros [= ->]; lia|].
  destruct (skip_word None i (c :: s)) as [[j rest] q] eqn:E. destruct q; [done|]. intros H%IH.
  apply skip_word_prefix in E as (w & Hw & -> & _). apply (f_equal length) in Hw. rewrite length_app in Hw. cbn in Hw. lia.
Qed.

Lemma read_part_trim z s c : forallb trimmed_char z = true -> c ∈ read_part s -> c ∈ read_part (s ++ z).
Proof.
  intros Hz Hc. rewrite read_part_app by done. destruct (openssh_comment_start s) eqn:E; [done|].
  unfold read_part in Hc. rewrite E in Hc. apply elem_of_app. by left.
Qed.

Lemma trim_end_blanks_app s : exists z, s = trim_end_blanks s ++ z /\ forallb trimmed_char z = true.
Proof.
  unfold trim_end_blanks. fold trimmed_char.
  assert (forall l, exists z, l = z ++ drop_while trimmed_char l /\ forallb trimmed_char z = true) as H.
  { induction l as [|c l (z & Hl & Hz)]; [by exists []|]. cbn [drop_while]. destruct (trimmed_char c) eqn:Hc; [|by exists []].
    exists (c :: z). split; [cbn; by f_equal|cbn [forallb]; by rewrite Hc]. }
  destruct (H (reverse s)) as (z & Hz & Hzt). exists (reverse z). split.
  - apply (f_equal reverse) in Hz. by rewrite reverse_involutive, reverse_app in Hz.
  - apply forallb_forall. intros c Hc. rewrite forallb_forall in Hzt. apply Hzt. apply list_elem_of_In, elem_of_reverse. by apply list_elem_of_In.
Qed.


(** ** Lines *)

(** The keyword of a line is the one OpenSSH reads, and what the user is shown of the line
    is what OpenSSH reads of it. *)
Definition shell_safe (w : str) : Prop :=
  starts_with (lit "-") w = false /\ forall c, c ∈ w -> is_control c = false /\ contains_char c SHELL_CHARACTERS = false.
Record reads_alike (d : Directive) : Prop := {
  ra_keyword : keyword d <> [] /\ contains_char 34 (keyword d) = false;
  ra_include : key d <> lit "include";
  ra_header : key d = lit "host" \/ key d = lit "match" ->
    argv_split (trim_end_blanks (rest_text d)) = Some (split_whitespace (value d));
  ra_shell : key d ∈ SHELL_BOUND_KEYWORDS.*1 ->
    exists w, argv_split (trim_end_blanks (rest_text d)) = Some [w] /\ shell_safe w
}.

Lemma directive_body_rest d : directive_body d = keyword d ++ sep_str (separator d) ++ rest_text d.
Proof. unfold directive_body, rest_text. done. Qed.

Lemma byte_suffix_app p s : byte_suffix (str_len p) (p ++ s) = Some s.
Proof.
  induction p as [|c p IH]; [by destruct s|]. unfold str_len, utf8 in *. cbn [flat_map app]. rewrite length_app.
  assert (1 <= length (utf8_char c)) as H1 by (unfold utf8_char; repeat case_match; cbn; lia).
  destruct (length (utf8_char c) + length (flat_map utf8_char p)) as [|n] eqn:E; [lia|]. cbn [byte_suffix]. rewrite <- E.
  rewrite (proj2 (Nat.leb_le _ _)) by lia. by replace (_ + _ - _) with (length (flat_map utf8_char p)) by lia.
Qed.

Lemma strip_cr_app p s : s <> [] -> strip_cr (p ++ s) = p ++ strip_cr s.
Proof.
  intros Hs. unfold strip_cr. rewrite reverse_app. destruct (reverse s) as [|c r] eqn:E.
  { apply (f_equal reverse) in E. rewrite reverse_involutive in E. done. }
  apply (f_equal reverse) in E. rewrite reverse_involutive, reverse_cons in E. subst s. cbn [app].
  destruct c as [|p0]; [done|]. repeat (destruct p0 as [p0|p0|]; try done).
  by rewrite reverse_app, reverse_involutive.
Qed.
Lemma strip_cr_id s : s = strip_cr s \/ s = strip_cr s ++ [13%N].
Proof.
  unfold strip_cr. destruct (reverse s) as [|c r] eqn:E; [by left|]. apply (f_equal reverse) in E.
  rewrite reverse_involutive, reverse_cons in E. destruct c as [|p0]; [by left|]. repeat (destruct p0 as [p0|p0|]; try by left). by right.
Qed.

Lemma invisible_control c : existsb (N.eqb c) [10; 12; 13]%N = true -> is_invisible c = true.
Proof. cbn [existsb]. intros H. repeat (apply orb_true_iff in H as [H|H]); try discriminate; apply N.eqb_eq in H as ->; done. Qed.

Lemma ascii_ws_blank c : is_ascii_ws c = true -> is_blank c = true \/ existsb (N.eqb c) [10; 12; 13]%N = true.
Proof.
  unfold is_ascii_ws, is_blank. cbn [existsb]. destruct (c =? 32)%N, (c =? 9)%N, (c =? 10)%N, (c =? 12)%N, (c =? 13)%N; cbn; auto.
Qed.

(** The invisible characters that a directive without them cannot have where OpenSSH reads. *)
Lemma visible_read d : is_raw_line d = false -> dirty d = false -> raw d = indent d ++ directive_body d -> rest_text d <> [] ->
  has_invisible_character d = false -> existsb is_invisible (read_part (strip_cr (rest_text d))) = false.
Proof.
  intros Hraw Hd Hl Hne H. unfold has_invisible_character, render_directive in H. rewrite Hd in H. cbn [negb] in H.
  rewrite Hl, directive_body_rest, !app_assoc, strip_cr_app in H by done. unfold read_by_openssh in H. rewrite Hraw in H.
  replace (rest_start d) with (str_len ((indent d ++ keyword d) ++ sep_str (separator d))) in H.
  2:{ unfold rest_start, str_len, utf8. by rewrite !flat_map_app, !length_app. }
  rewrite byte_suffix_app in H. fold (read_part (strip_cr (rest_text d))) in H.
  set (p := (indent d ++ keyword d) ++ sep_str (separator d)) in *. set (r := strip_cr (rest_text d)) in *.
  unfold read_part. destruct (openssh_comment_start r) as [at_|].
  - rewrite length_app in H. replace (length p + length r - length r + at_) with (length p + at_) in H by lia.
    rewrite take_app_add, existsb_app in H. by apply orb_false_iff in H as [_ ?].
  - rewrite existsb_app in H. by apply orb_false_iff in H as [_ ?].
Qed.

Lemma words_trimmed z s : forallb trimmed_char z = true -> words is_ascii_ws (s ++ z) = words is_ascii_ws s.
Proof.
  intros Hz. unfold words. generalize (@nil N). induction s as [|c s IH]; intros cur.
  - cbn [app words_aux]. assert (words_aux is_ascii_ws [] z = []) as Hw.
    { clear cur. induction z as [|c z IH]; [done|]. cbn [forallb] in Hz. apply andb_true_iff in Hz as [Hc Hz]. cbn [words_aux].
      assert (is_ascii_ws c = true) as ->; [|by apply IH]. unfold trimmed_char, is_ascii_ws in *. cbn [existsb] in Hc.
      by destruct (c =? 32)%N, (c =? 9)%N, (c =? 10)%N, (c =? 12)%N, (c =? 13)%N. }
    destruct z as [|c z]; [done|]. cbn [forallb] in Hz. apply andb_true_iff in Hz as [Hc Hz]. cbn [words_aux] in Hw |- *.
    assert (is_ascii_ws c = true) as Hws.
    { unfold trimmed_char, is_ascii_ws in *. cbn [existsb] in Hc. by destruct (c =? 32)%N, (c =? 9)%N, (c =? 10)%N, (c =? 12)%N, (c =? 13)%N. }
    rewrite Hws in Hw |- *. destruct cur; [done|]. by rewrite Hw.
  - cbn [app words_aux]. destruct (is_ascii_ws c); [destruct cur|]; by rewrite IH.
Qed.

Lemma trim_end_strip_cr s : trim_end_blanks s = trim_end_blanks (strip_cr s).
Proof.
  destruct (strip_cr_id s) as [<-|H]; [done|]. rewrite H at 1. unfold trim_end_blanks. by rewrite reverse_app.
Qed.

Lemma plain_shell_reads d : is_raw_line d = false -> dirty d = false -> raw d = indent d ++ directive_body d ->
  has_invisible_character d = false -> is_plain_shell_bound_value d = true ->
  exists w, argv_split (trim_end_blanks (rest_text d)) = Some [w] /\ shell_safe w.
Proof.
  intros Hraw Hd Hl Hinv Hp. unfold is_plain_shell_bound_value in Hp. fold no_hash in Hp.
  destruct (trim_end_blanks_app (rest_text d)) as (z & Hz & Hzt).
  destruct (take_while _ _) as [|word [|]] eqn:Hw; try done.
  assert (rest_text d <> []) as Hne by (intros E; by rewrite E in Hw).
  rewrite Hz, words_trimmed in Hw by done.
  apply andb_true_iff in Hp as [[H1 H2]%andb_true_iff _]. apply negb_true_iff in H1, H2. rewrite existsb_none in H2.
  exists word. split; [|split; [done|]; intros c Hc; by apply orb_false_iff, H2].
  destruct (argv_split_reads is_ascii_ws (trim_end_blanks (rest_text d))) as [H3 _].
  - intros c. unfold is_blank, is_ascii_ws. intros [->|Hc]%orb_true_iff; [done|]. rewrite Hc. by destruct (c =? 32)%N.
  - done.
  - intros c Hc Hs. destruct (ascii_ws_blank c Hs) as [|Hc2]; [done|]. apply invisible_control in Hc2.
    pose proof (visible_read d Hraw Hd Hl Hne Hinv) as Hv. rewrite existsb_none in Hv. rewrite Hv in Hc2; [done|].
    destruct (trim_end_blanks_app (strip_cr (rest_text d))) as (z2 & -> & Hz2). rewrite trim_end_strip_cr in Hc.
    by apply read_part_trim.
  - right. fold no_hash. change (fun w => negb (starts_with (lit "#") w)) with no_hash in Hw. rewrite Hw. apply Forall_singleton.
    apply existsb_none. intros c Hc. specialize (H2 c Hc). apply orb_false_iff in H2 as [_ H2]. unfold special, contains_char, SHELL_CHARACTERS in *.
    cbn [existsb] in H2. repeat (apply orb_false_iff in H2 as [? H2]). by rewrite !orb_false_iff.
  - rewrite H3. f_equal. exact Hw.
Qed.

Section Lines.
Context {U : Unicode} {C : CharTables}.

(** A directive that was read from a line and is not forbidden. *)
Lemma forbidden_none_reads line d : classify_line line = LDirective d -> forbidden d = None -> reads_alike d.
Proof.
  intros Hc Hf. destruct (classify_line_clean _ _ Hc) as (Hraw & Hd & He & _). pose proof (classify_line_faithful _ _ Hc) as Hl.
  unfold forbidden in Hf. unfold serializes_as_comment in Hf. rewrite He in Hf. cbn [negb andb] in Hf.
  destruct (keyword d =?= []) eqn:Hk; [done|]. apply bool_decide_eq_false_1 in Hk.
  destruct (contains_char 34 (keyword d)) eqn:Hq; [done|]. destruct (key d =?= lit "include") eqn:Hi; [done|].
  apply bool_decide_eq_false_1 in Hi. destruct (has_invisible_character d) eqn:Hinv; [done|]. destruct (has_stray_character d); [done|].
  split; [done|done| |].
  - intros Hh. unfold header_name in Hf. destruct (header_reads_the_same d) eqn:Hr; [by apply header_reads|].
    destruct Hh as [Hh|Hh]; rewrite Hh in Hf; cbn in Hf; done.
  - intros Hs. assert (header_name (key d) = None /\ is_raw_line d = false /\ exists name, snd <$> List.find (fun e => key d =?= e.1) SHELL_BOUND_KEYWORDS = Some name)
      as (Hn & Hr & name & Hfind).
    { unfold is_raw_line. cbn in Hs. rewrite !elem_of_cons, elem_of_nil in Hs.
      destruct Hs as [->|[->|[->|[->|[]]]]]; (split_and!; [done|done|eexists; vm_compute; reflexivity]). }
    rewrite Hn, Hfind in Hf. destruct (is_plain_shell_bound_value d) eqn:Hp; [|done]. eapply plain_shell_reads; eauto. congruence.
Qed.

Lemma or_else_None {A} (a b : option A) : or_else a b = None <-> a = None /\ b = None.
Proof. destruct a; cbn; naive_solver. Qed.

Lemma forbidden_items_none l : forbidden_directive l = None -> forall i, i ∈ l -> forbidden_item i = None.
Proof.
  induction l as [|i l IH]; cbn [forbidden_directive]; [by intros _ j ?%elem_of_nil|]. intros [H1 H2]%or_else_None j.
  rewrite elem_of_cons. intros [->|Hj]; [done|by apply IH].
Qed.

(** What is not forbidden in a block is not forbidden in any of its lines. *)
Lemma forbidden_ungroup l : forbidden_directive l = None -> forall d, DirectiveItem d ∈ ungroup l -> forbidden d = None.
Proof.
  intros H d Hd. apply list_elem_of_In, in_flat_map in Hd as (i & Hi & Hd). apply list_elem_of_In, (forbidden_items_none _ H) in Hi.
  assert (forall b, forbidden_directive b = None -> DirectiveItem d ∈ b -> forbidden d = None) as Hb.
  { intros b Hfb Hin. exact (forbidden_items_none _ Hfb _ Hin). }
  apply list_elem_of_In in Hd.
  destruct i as [| |d'|[hd ps b]|[hd c b]]; cbn [ungroup_item forbidden_item] in *; rewrite ?list_elem_of_singleton, ?elem_of_cons in Hd; try done.
  - congruence.
  - apply or_else_None in Hi as [Hh Hi]. destruct Hd as [Hd|Hd]; [congruence|]. by apply (Hb b).
  - apply or_else_None in Hi as [Hh Hi]. destruct Hd as [Hd|Hd]; [congruence|]. by apply (Hb b).
Qed.

(** The header of the only block of a text is its first line. *)
Lemma parse_header text h : (parse_file text).1 = [Host h] ->
  exists line, line ∈ split_char 10 (if ends_with [10%N] text then take (length text - 1) text else text) /\
    classify_line line = LDirective (header h) /\ key (header h) = lit "host" /\ patterns h = split_whitespace (value (header h)).
Proof.
  intros Hp. destruct (parse_file_grouped text) as [(pre & blocks & Hpb & Hpre & Hbl) Hun]. rewrite Hp in Hpb, Hun.
  assert (text <> []) as Hne by (by intros ->). specialize (Hun Hne). destruct h as [hd ps b].
  assert (block_ok (Host (mkHostBlock hd ps b)) = true) as Hok.
  { destruct pre as [|i pre]; cbn in Hpb; [subst blocks; cbn in Hbl; by apply andb_true_iff in Hbl as [? _]|].
    injection Hpb as <- _. done. }
  cbn in Hok. breflect. cbn [ungroup flat_map ungroup_item app] in Hun. cbn.
  assert (DirectiveItem hd ∈ map line_item (split_char 10 (if ends_with [10%N] text then take (length text - 1) text else text))) as Hin.
  { rewrite <- Hun. apply elem_of_cons. by left. }
  apply list_elem_of_fmap in Hin as (line & Hl & Hin). exists line. split_and!; [done| |done|done].
  unfold line_item in Hl. destruct (classify_line line); congruence.
Qed.

End Lines.
