(* ===== verification/HostSync.v ===== *)
(** * HostSync: the hosts of a space, between the file and the relay

    [src-tauri/src/sync/planner.rs], [reconcile.rs], the space part of [merge.rs]
    and of [state_v2.rs], the decisions of [spaces.rs] ([approve], [reject]) and
    what [files.rs] does to the items of a space file.  Files, locks and the
    network are not part of it; the derived JSON of a host payload and the JSON text of a
    record are parameters. *)

From S2P Require Import Prelude Text BTreeMap Json ConfigParser SyncRecord Crypto Relay RecordMerge HostText.

(** ** Settings of a remote host that need the user's consent

    [src-tauri/src/sync/approval.rs]: which settings are gated, the signature of a
    block, and whether a new text needs to be approved. *)

Definition GATED_KEYWORDS : list str := map lit [
  "proxycommand"; "localcommand"; "permitlocalcommand"; "knownhostscommand"; "pkcs11provider"; "securitykeyprovider";
  "forwardagent"; "forwardx11"; "forwardx11trusted"; "remoteforward"; "smartcarddevice"; "xauthlocation"; "remotecommand";
  "stricthostkeychecking"; "nohostauthenticationforproxycommand"; "verifyhostkeydns"; "userknownhostsfile"; "globalknownhostsfile";
  "sendenv"; "gssapidelegatecredentials"; "identityagent"; "permitremoteopen"; "nohostauthenticationforlocalhost"; "gatewayports"].

Record GatedDirective := mkGated { gd_keyword : str; gd_value : str }.
#[export] Instance gated_directive_eq_dec : EqDecision GatedDirective.
Proof. solve_decision. Defined.

Record ApprovalSignature := mkSignature { as_host : str; as_gated : list GatedDirective }.
#[export] Instance approval_signature_eq_dec : EqDecision ApprovalSignature.
Proof. solve_decision. Defined.
Definition empty_signature : ApprovalSignature := mkSignature [] [].

Definition rest_of_line (d : Directive) : str := trim (rest_text d).

Definition is_bare_port (word : str) : bool := negb (word =?= []) && forallb is_ascii_digit word.

(** [str::split_once] of one and of two characters. *)
Fixpoint split_at_char (c : N) (s : str) : option (str * str) :=
  match s with
  | [] => None
  | x :: s' => if (x =? c)%N then Some ([], s') else '(a, b) ← split_at_char c s'; Some (x :: a, b)
  end.
Fixpoint split_at_pair (c d : N) (s : str) : option (str * str) :=
  match s with
  | x :: (y :: s') as t => if (x =? c)%N && (y =? d)%N then Some ([], s') else '(a, b) ← split_at_pair c d t; Some (x :: a, b)
  | _ => None
  end.

Definition is_plain_forward_target (target : str) : bool :=
  if existsb (fun c => existsb (N.eqb c) [36; 92; 34; 39]%N) target then false
  else if starts_with (lit "/") target then negb (contains_char 58 target)
  else
    match match strip_prefix (lit "[") target with
          | Some bracketed => split_at_pair 93 58 bracketed
          | None => split_at_char 58 target
          end with
    | Some (host, port) => negb (host =?= []) && negb (existsb (fun c => (c =? 91) || (c =? 93))%N host) && is_bare_port port
    | None => false
    end.

Definition gated_forward (d : Directive) : bool :=
  let args := take_while (fun w => negb (starts_with (lit "#") w)) (words is_blank (rest_of_line d)) in
  if key d =?= lit "localforward" then
    match args with [port; target] => negb (is_bare_port port && is_plain_forward_target target) | _ => true end
  else if key d =?= lit "dynamicforward" then
    match args with [port] => negb (is_bare_port port) | _ => true end
  else false.

Definition is_gated (d : Directive) : bool :=
  negb (serializes_as_comment d)
  && (existsb (fun k => k =?= key d) GATED_KEYWORDS || gated_forward d || contains_char 34 (keyword d) || (key d =?= [])).

(** [collect]: the host lines and the gated directives, in order. *)
Fixpoint collect_item (i : Item) : list str * list GatedDirective :=
  let go := fix go (l : list Item) : list str * list GatedDirective :=
    match l with
    | [] => ([], [])
    | i :: l => let '(h, g) := collect_item i in let '(hs, gs) := go l in (h ++ hs, g ++ gs)
    end in
  match i with
  | DirectiveItem d => ([], if is_gated d then [mkGated (key d) (rest_of_line d)] else [])
  | Host (mkHostBlock d _ b) => let '(h, g) := go b in (rest_of_line d :: h, g)
  | Match (mkMatchBlock _ _ b) => go b
  | Blank _ | Comment _ => ([], [])
  end.
Fixpoint collect (l : list Item) : list str * list GatedDirective :=
  match l with
  | [] => ([], [])
  | i :: l => let '(h, g) := collect_item i in let '(hs, gs) := collect l in (h ++ hs, g ++ gs)
  end.

Section Approval.
Context {U : Unicode}.

Definition signature (text : str) : ApprovalSignature :=
  let '(hosts, gated) := collect (parse_file text).1 in mkSignature (join [10%N] hosts) gated.

Definition is_single_host_block (text : str) : bool := is_single_host_block_read_alike (parse_file text).1.

Definition needs_approval (new_text : str) (applied_text : option str) : bool :=
  if negb (is_single_host_block new_text) || is_some_and (fun t => negb (is_single_host_block t)) applied_text then true
  else
    let incoming := signature new_text in
    if as_gated incoming =?= [] then false
    else incoming <?> default empty_signature (signature <$> applied_text).

(** ** What the decision means *)

(** Without gated settings nothing needs to be asked, whatever the patterns are. *)
Lemma plain_text_not_asked new_text applied :
  is_single_host_block new_text = true -> is_some_and (fun t => negb (is_single_host_block t)) applied = false ->
  as_gated (signature new_text) = [] -> needs_approval new_text applied = false.
Proof. intros H1 H2 H3. unfold needs_approval. by rewrite H1, H2, H3. Qed.

(** A host that is not there yet has no gated settings: any that comes is asked for. *)
Lemma new_host_asked new_text : as_gated (signature new_text) <> [] -> needs_approval new_text None = true.
Proof.
  intros H. unfold needs_approval. destruct (negb _ || _); [done|]. rewrite bool_decide_eq_false_2 by done.
  apply negb_true_iff, bool_decide_eq_false_2. cbn. intros E. by rewrite E in H.
Qed.

(** What is applied without a question has no gated setting, or exactly those of the block
    that is there, in the same order and for the same patterns. *)
Lemma not_asked_same new_text applied : needs_approval new_text applied = false ->
  is_single_host_block new_text = true /\
  (as_gated (signature new_text) = [] \/ exists old, applied = Some old /\ signature new_text = signature old).
Proof.
  unfold needs_approval. destruct (negb (is_single_host_block new_text) || _) eqn:Hb; [done|].
  apply orb_false_iff in Hb as [Hb _]. apply negb_false_iff in Hb. intros H. split; [done|].
  destruct (as_gated (signature new_text) =?= []) eqn:Hg; [left; by apply bool_decide_eq_true_1 in Hg|right].
  apply negb_false_iff, bool_decide_eq_true_1 in H. apply bool_decide_eq_false_1 in Hg.
  destruct applied as [old|]; [by exists old|]. cbn in H. by rewrite H in Hg.
Qed.
End Approval.

(** ** Time stamps: [u64], which wraps around *)

Definition add1_u64 (n : N) : N := if (n =? u64_max)%N then 0%N else (n + 1)%N.

Definition next_timestamp (now_ms : N) (previous : option N) : N :=
  match previous with
  | Some p => if (now_ms <=? p)%N then add1_u64 p else now_ms
  | None => now_ms
  end.

(** ** State *)

(** [record::HostPayload]: the text of a whole block. *)
Record HostPayload := mkHostPayload { hx_schema : N; hx_text : str }.

Record DeclinedVersion := mkDeclined { dv_version : N; dv_updated_at_ms : N; dv_seq : N }.

Record PendingApproval := mkPending {
  pa_record : Rec; pa_seq : N; pa_text : str; pa_applied : ApprovalSignature; pa_incoming : ApprovalSignature; pa_from_device : str
}.

Record SpaceState := mkSpace {
  ss_selected : bool; ss_file_name : str; ss_cursor_seq : N; ss_baseline_established : bool;
  ss_records : btree LocalRecord; ss_pending_approvals : btree PendingApproval; ss_last_error : option str;
  ss_declined : btree DeclinedVersion; ss_republish : bset; ss_missing : bool; ss_rename_blocked : option str
}.
Definition SpaceState_new (file_name : str) : SpaceState :=
  mkSpace true file_name 0 false [] [] None [] [] false None.

(** The parts a merge works on. *)
Definition with_rows (records : btree LocalRecord) (pending : btree PendingApproval) (declined : btree DeclinedVersion)
    (republish : bset) (s : SpaceState) : SpaceState :=
  mkSpace (ss_selected s) (ss_file_name s) (ss_cursor_seq s) (ss_baseline_established s) records pending (ss_last_error s)
    declined republish (ss_missing s) (ss_rename_blocked s).
Definition with_records (r : btree LocalRecord) (s : SpaceState) : SpaceState :=
  with_rows r (ss_pending_approvals s) (ss_declined s) (ss_republish s) s.
Definition with_cursor (c : N) (s : SpaceState) : SpaceState :=
  mkSpace (ss_selected s) (ss_file_name s) c (ss_baseline_established s) (ss_records s) (ss_pending_approvals s) (ss_last_error s)
    (ss_declined s) (ss_republish s) (ss_missing s) (ss_rename_blocked s).

(** [iter_mut] over the values of a map. *)
Definition bt_map {V} (f : V -> V) (m : btree V) : btree V := map (fun e => (e.1, f e.2)) m.

Definition host_key (alias : str) : str := record_key KHost alias.

(** ** Effects on a space file *)

Inductive HostEffect := Upsert (alias text : str) | DeleteHost (alias : str).
Definition effect_alias (e : HostEffect) : str := match e with Upsert a _ | DeleteHost a => a end.

Section HostSync.
Context {U : Unicode} {C : CharTables} {Y : CryptoLib} {S : Serde HostPayload}
  (json_from_slice : list N -> option Rec) (record_to_vec : Rec -> option (list N)).

(** [files::apply_effects_to_items]: what failed is left out and listed. *)
Fixpoint apply_effects_to_items (items : list Item) (effects : list HostEffect) : list Item * bool * list str :=
  match effects with
  | [] => (items, false, [])
  | e :: effects =>
      match match e with
            | Upsert alias text => apply_host_text items alias text
            | DeleteHost alias => Ok (remove_host_block items alias)
            end with
      | Ok (items, c) => let '(items, changed, failed) := apply_effects_to_items items effects in (items, c || changed, failed)
      | Err _ => let '(items, changed, failed) := apply_effects_to_items items effects in (items, changed, effect_alias e :: failed)
      end
  end.

(** [files::check_managed_items]: named blocks, one per alias, and nothing that is forbidden. *)
Fixpoint check_blocks (seen : list str) (items : list Item) : result AppError unit :=
  match items with
  | [] => Ok tt
  | Host h :: items =>
      if negb (is_syncable_block (patterns h))
      then Err (AOther (lit "the synced hosts file contains 'Host " ++ join [32%N] (patterns h) ++ lit "', which uses wildcard patterns; move that block to your main config"))
      else match head (patterns h) with
           | Some alias =>
               if existsb (fun a => a =?= alias) seen
               then Err (AOther (lit "the synced hosts file defines '" ++ alias ++ lit "' more than once; remove the duplicate"))
               else check_blocks (alias :: seen) items
           | None => check_blocks seen items
           end
  | _ :: items => check_blocks seen items
  end.
Definition check_managed_items (items : list Item) : result AppError unit :=
  _ ← check_blocks [] items;
  match forbidden_directive items with
  | Some f => Err (AOther (lit "the synced hosts file contains " ++ describe f ++ lit ", which synced hosts cannot use; move that block to your main config"))
  | None => Ok tt
  end.

(** ** Local changes *)

Definition host_text (payload : Json) : option str :=
  match from_value payload with Ok p => Some (hx_text p) | Err _ => None end.

Definition find_block (alias : str) (blocks : list HostBlockText) : option HostBlockText :=
  List.find (fun b => bt_alias b =?= alias) blocks.

Definition unchanged_block (previous : option Rec) (b : HostBlockText) : bool :=
  match previous with
  | Some r => negb (rdeleted r) && bool_decide (host_text (rpayload r) = Some (bt_text b))
  | None => false
  end.

Definition changed_record (device_id : str) (changed_at : str -> N) (previous : option Rec) (b : HostBlockText) : Rec :=
  mkRec KHost (bt_alias b) (default 1%N (add1_u64 <$> (rversion <$> previous)))
    (next_timestamp (changed_at (bt_alias b)) (rupdated_at_ms <$> previous)) device_id false
    (to_value (mkHostPayload SCHEMA_VERSION (bt_text b))).
Definition removed_record (device_id : str) (changed_at : str -> N) (r : Rec) : Rec :=
  mkRec KHost (rid r) (add1_u64 (rversion r)) (next_timestamp (changed_at (rid r)) (Some (rupdated_at_ms r))) device_id true JNull.

Definition detect_local_changes (cached : btree LocalRecord) (current : list HostBlockText) (device_id : str) (changed_at : str -> N)
  : list Rec :=
  omap (fun b =>
    let previous := lrecord <$> bt_get (host_key (bt_alias b)) cached in
    if unchanged_block previous b then None else Some (changed_record device_id changed_at previous b)) current
  ++ omap (fun l =>
    let r := lrecord l in
    if negb (rkind r =?= KHost) || rdeleted r then None
    else if existsb (fun b => bt_alias b =?= rid r) current then None
    else Some (removed_record device_id changed_at r)) (bt_values cached).

(** The newest version of a host that this device knows and did not apply. *)
Definition known_remote (space : SpaceState) (alias : str) : option DeclinedVersion :=
  let pending := (fun p => mkDeclined (rversion (pa_record p)) (rupdated_at_ms (pa_record p)) (pa_seq p)) <$> bt_get alias (ss_pending_approvals space) in
  match pending, bt_get alias (ss_declined space) with
  | Some a, Some b => Some (mkDeclined (N.max (dv_version a) (dv_version b)) (N.max (dv_updated_at_ms a) (dv_updated_at_ms b)) (N.max (dv_seq a) (dv_seq b)))
  | Some a, None => Some a
  | None, b => b
  end.

(** The cached records, with what is known of the versions that were not applied. *)
Definition known_view (space : SpaceState) (view : btree LocalRecord) (alias : str) : btree LocalRecord :=
  match known_remote space alias with
  | None => view
  | Some known =>
      let key := host_key alias in
      match bt_get key view with
      | Some l =>
          let r := lrecord l in
          bt_update key (fun _ => mkLocal (mkRec (rkind r) (rid r) (N.max (rversion r) (dv_version known))
                                             (N.max (rupdated_at_ms r) (dv_updated_at_ms known)) (rdevice_id r) (rdeleted r) (rpayload r))
                                    (lseq l) (ldirty l)) view
      | None => bt_insert key (mkLocal (mkRec KHost alias (dv_version known) (dv_updated_at_ms known) [] true JNull) (dv_seq known) false) view
      end
  end.

Definition plan_view (space : SpaceState) : btree LocalRecord :=
  foldl (known_view space) (ss_records space) (bt_keys (ss_pending_approvals space) ++ bt_keys (ss_declined space)).

Definition plan_record (space : SpaceState) (r : Rec) : SpaceState :=
  let key := record_key (rkind r) (rid r) in
  let known_seq := default 0%N (dv_seq <$> known_remote space (rid r)) in
  let seq := N.max (default 0%N (lseq <$> bt_get key (ss_records space))) known_seq in
  with_rows (bt_insert key (mkLocal r seq true) (ss_records space)) (bt_remove (rid r) (ss_pending_approvals space))
    (bt_remove (rid r) (ss_declined space)) (bt_remove key (ss_republish space)) space.

Definition plan_hosts (space : SpaceState) (blocks : list HostBlockText) (device_id : str) (changed_at : str -> N) : SpaceState * nat :=
  let planned := detect_local_changes (plan_view space) blocks device_id changed_at in
  (foldl plan_record space planned, length planned).

(** ** Sealing *)

Definition encode (keys : ChainKeys) (r : Rec) (base_seq : N) (nonce : option (list N)) : result AppError PushItem :=
  plaintext ← ok_or (record_to_vec r) (AOther (lit "cannot serialize record"));
  sealed ← seal keys (kind_as_str (rkind r)) (rid r) plaintext nonce;
  Ok (mkPush (sb_id_hash sealed) (kind_as_str (rkind r)) (sb_nonce sealed) (sb_ciphertext sealed) (rdeleted r) base_seq).

Definition decode (keys : ChainKeys) (e : Envelope) : result AppError Rec :=
  kind ← ok_or (kind_parse (ekind e)) (AOther (lit "unknown record kind '" ++ ekind e ++ lit "'"));
  plaintext ← open keys (ekind e) (eid_hash e) (mkSealedBody (eid_hash e) (enonce e) (eciphertext e));
  r ← ok_or (json_from_slice plaintext) (AOther (lit "record payload is unreadable"));
  _ ← guard_err (negb (rkind r =?= kind) || negb (id_hash keys (kind_as_str (rkind r)) (rid r) =?= eid_hash e))
        (AOther (lit "record identity does not match its envelope"));
  Ok r.

(** ** Merging *)

Record SpaceMerged := mkMerged {
  sm_section : SpaceState; sm_effects : list HostEffect; sm_conflicts : list str; sm_held : list str; sm_skipped : N
}.
Definition sm_skip (m : SpaceMerged) : SpaceMerged :=
  mkMerged (sm_section m) (sm_effects m) (sm_conflicts m) (sm_held m) (sm_skipped m + 1).
Definition sm_with (section : SpaceState) (m : SpaceMerged) : SpaceMerged :=
  mkMerged section (sm_effects m) (sm_conflicts m) (sm_held m) (sm_skipped m).
Definition sm_effect (e : HostEffect) (m : SpaceMerged) : SpaceMerged :=
  mkMerged (sm_section m) (sm_effects m ++ [e]) (sm_conflicts m) (sm_held m) (sm_skipped m).
Definition sm_conflict (lost : bool) (alias : str) (m : SpaceMerged) : SpaceMerged :=
  if lost then mkMerged (sm_section m) (sm_effects m) (sm_conflicts m ++ [alias]) (sm_held m) (sm_skipped m) else m.
Definition sm_hold (alias : str) (m : SpaceMerged) : SpaceMerged :=
  mkMerged (sm_section m) (sm_effects m) (sm_conflicts m) (sm_held m ++ [alias]) (sm_skipped m).

Definition set_seq (seq : N) (l : LocalRecord) : LocalRecord := mkLocal (lrecord l) seq (ldirty l).
Definition set_clean (l : LocalRecord) : LocalRecord := mkLocal (lrecord l) (lseq l) false.
Definition pending_seq (seq : N) (p : PendingApproval) : PendingApproval :=
  mkPending (pa_record p) seq (pa_text p) (pa_applied p) (pa_incoming p) (pa_from_device p).
Definition declined_seq (seq : N) (d : DeclinedVersion) : DeclinedVersion := mkDeclined (dv_version d) (dv_updated_at_ms d) seq.

Definition same_version (r : Rec) (version updated_at_ms : N) : bool := (version =? rversion r)%N && (updated_at_ms =? rupdated_at_ms r)%N.

(** A deletion: it is always applied. *)
Definition merge_deleted (alias : str) (r : Rec) (seq : N) (lost : bool) (m : SpaceMerged) : SpaceMerged :=
  let s := sm_section m in
  let key := host_key alias in
  sm_with (with_rows (bt_insert key (mkLocal r seq false) (ss_records s)) (bt_remove alias (ss_pending_approvals s))
             (bt_remove alias (ss_declined s)) (bt_remove key (ss_republish s)) s)
    (sm_effect (DeleteHost alias) (sm_conflict lost alias m)).

(** The same version again, that was declined or still waits: only the numbers change. *)
Definition seen_again (alias : str) (r : Rec) (s : SpaceState) : bool :=
  is_some_and (fun d => same_version r (dv_version d) (dv_updated_at_ms d)) (bt_get alias (ss_declined s))
  || is_some_and (fun p => same_version r (rversion (pa_record p)) (rupdated_at_ms (pa_record p))) (bt_get alias (ss_pending_approvals s)).
Definition note_seen (alias : str) (r : Rec) (seq : N) (s : SpaceState) : SpaceState :=
  let key := host_key alias in
  let declined := bt_update alias (fun d => if same_version r (dv_version d) (dv_updated_at_ms d) then declined_seq seq d else d) (ss_declined s) in
  let pending := bt_update alias (fun p => if same_version r (rversion (pa_record p)) (rupdated_at_ms (pa_record p)) then pending_seq seq p else p)
                   (ss_pending_approvals s) in
  with_rows (bt_update key set_clean (ss_records s)) pending declined (bt_remove key (ss_republish s)) s.

(** A new text: applied, or held until the user approves it. *)
Definition merge_text (applied : list HostBlockText) (device_name : str -> str) (alias : str) (r : Rec) (text : str) (seq : N) (lost : bool)
    (m : SpaceMerged) : SpaceMerged :=
  let s := sm_section m in
  let key := host_key alias in
  let declined := bt_remove alias (ss_declined s) in
  let republish := bt_remove key (ss_republish s) in
  let m := sm_conflict lost alias m in
  let current := bt_text <$> find_block alias applied in
  if needs_approval text current then
    let pending := mkPending r seq text (signature (default [] current)) (signature text) (device_name (rdevice_id r)) in
    sm_hold alias (sm_with (with_rows (bt_update key set_clean (ss_records s)) (bt_insert alias pending (ss_pending_approvals s)) declined republish s) m)
  else
    sm_effect (Upsert alias text)
      (sm_with (with_rows (bt_insert key (mkLocal r seq false) (ss_records s)) (bt_remove alias (ss_pending_approvals s)) declined republish s) m).

Definition merge_envelope (keys : ChainKeys) (applied : list HostBlockText) (device_name : str -> str) (m : SpaceMerged) (e : Envelope)
  : SpaceMerged :=
  match decode keys e with
  | Ok r =>
      if (ekind e =?= kind_as_str KHost) && is_syncable_alias (rid r) then
        let s := sm_section m in
        let key := host_key (rid r) in
        let outcome := merge (bt_get key (ss_records s)) r in
        if outcome =?= KeepLocal then sm_with (with_records (bt_update key (set_seq (eseq e)) (ss_records s)) s) m
        else
          let lost := (outcome =?= RemoteWinsOverDirtyLocal) && negb (bs_contains key (ss_republish s)) in
          if rdeleted r then merge_deleted (rid r) r (eseq e) lost m
          else match from_value (rpayload r) with
               | Ok p =>
                   if is_ok (validate_host_text (rid r) (hx_text p)) then
                     if negb lost && seen_again (rid r) r s then sm_with (note_seen (rid r) r (eseq e) s) m
                     else merge_text applied device_name (rid r) r (hx_text p) (eseq e) lost m
                   else sm_skip m
               | Err _ => sm_skip m
               end
      else sm_skip m
  | Err _ => sm_skip m
  end.

(** The relay's history went back: everything is sent again, from sequence number 0. *)
Definition resend_all (s : SpaceState) : SpaceState :=
  let clean := omap (fun e => if ldirty e.2 then None else Some e.1) (ss_records s) in
  with_cursor 0
    (with_rows (bt_map (fun l => mkLocal (lrecord l) 0 true) (ss_records s)) (bt_map (pending_seq 0) (ss_pending_approvals s))
       (bt_map (declined_seq 0) (ss_declined s)) (foldl (fun b k => bs_insert k b) (ss_republish s) clean) s).

Definition merge_space (section : SpaceState) (keys : ChainKeys) (pulled : PullResponse) (applied : list HostBlockText)
    (device_name : str -> str) : SpaceMerged :=
  let m := foldl (merge_envelope keys applied device_name) (mkMerged section [] [] [] 0) (pull_records pulled) in
  let next := sm_section m in
  sm_with (if (pull_latest_seq pulled <? ss_cursor_seq section)%N then resend_all next else with_cursor (pull_latest_seq pulled) next) m.

(** What a rebuilt file gets back of the hosts that are only here. *)
Definition unpushed_host_effects (section : SpaceState) (blocks : list HostBlockText) : list HostEffect :=
  let reviewed := fun alias => bt_contains_key alias (ss_pending_approvals section) || bt_contains_key alias (ss_declined section) in
  omap (fun l =>
    let r := lrecord l in
    if (rkind r =?= KHost) && negb (rdeleted r) && (ldirty l || reviewed (rid r)) && negb (existsb (fun b => bt_alias b =?= rid r) blocks) then
      text ← host_text (rpayload r);
      if is_ok (validate_host_text (rid r) text) then Some (Upsert (rid r) text) else None
    else None) (bt_values (ss_records section)).

(** ** Rebuilding a file that is gone *)

Definition holds_live_hosts (s : SpaceState) : bool :=
  existsb (fun l => (rkind (lrecord l) =?= KHost) && negb (rdeleted (lrecord l))) (bt_values (ss_records s)).
Definition space_vanished (s : SpaceState) : bool := ss_baseline_established s && holds_live_hosts s.
Definition space_emptied (blocks : list HostBlockText) (s : SpaceState) : bool :=
  match blocks with [] => space_vanished s | _ => false end.

Definition reset_space_for_rematerialize (s : SpaceState) : SpaceState :=
  let reviewed := bt_keys (ss_pending_approvals s) ++ bt_keys (ss_declined s) in
  let keep := fun l => negb (rkind (lrecord l) =?= KHost) || ldirty l || existsb (fun a => a =?= rid (lrecord l)) reviewed in
  mkSpace (ss_selected s) (ss_file_name s) 0 false (List.filter (fun e => keep e.2) (ss_records s)) (ss_pending_approvals s) (ss_last_error s)
    (ss_declined s) (ss_republish s) (ss_missing s) (ss_rename_blocked s).

(** ** The user's decisions *)

Section Review.
Context (sha256 : list N -> list N).

Definition be64 (n : N) : list N :=
  map (fun k => (N.shiftr n k mod 256)%N) [56; 48; 40; 32; 24; 16; 8; 0]%N.
Definition review_preimage (p : PendingApproval) : list N :=
  lit "sshelter/review/v1" ++ be64 (rversion (pa_record p)) ++ be64 (rupdated_at_ms (pa_record p))
  ++ flat_map (fun f => be64 (N.of_nat (str_len f)) ++ utf8 f) [rdevice_id (pa_record p); pa_text p].
Definition review_digest (p : PendingApproval) : str := hex (sha256 (review_preimage p)).

(** The versions the user saw that still wait, and the aliases whose version is another. *)
Fixpoint reviewed_pending_loop (s : SpaceState) (reviewed : list (str * str)) (current : list (str * PendingApproval)) (changed : list str)
  : list (str * PendingApproval) * list str :=
  match reviewed with
  | [] => (current, List.filter (fun a => negb (existsb (fun c => c.1 =?= a) current)) changed)
  | (alias, digest) :: reviewed =>
      match opt_filter (fun p => review_digest p =?= digest) (bt_get alias (ss_pending_approvals s)) with
      | Some p =>
          if existsb (fun c => c.1 =?= alias) current then reviewed_pending_loop s reviewed current changed
          else reviewed_pending_loop s reviewed (current ++ [(alias, p)]) changed
      | None =>
          if existsb (fun a => a =?= alias) changed then reviewed_pending_loop s reviewed current changed
          else reviewed_pending_loop s reviewed current (changed ++ [alias])
      end
  end.
Definition reviewed_pending (s : SpaceState) (reviewed : list (str * str)) : list (str * PendingApproval) * list str :=
  reviewed_pending_loop s reviewed [] [].

Definition approve_one (s : SpaceState) (e : str * PendingApproval) : SpaceState :=
  with_rows (bt_insert (host_key e.1) (mkLocal (pa_record e.2) (pa_seq e.2) false) (ss_records s)) (bt_remove e.1 (ss_pending_approvals s))
    (bt_remove e.1 (ss_declined s)) (ss_republish s) s.

(** [approve], on the section and the items of its file: the number applied and what changed
    meanwhile; the new section and items, or nothing. *)
Definition approve (s : SpaceState) (items : list Item) (approvals : list (str * str))
  : result AppError (SpaceState * list Item * nat * list str) :=
  let '(pending, changed) := reviewed_pending s approvals in
  match pending with
  | [] => Ok (s, items, 0%nat, changed)
  | _ =>
      _ ← check_managed_items items;
      let effects := map (fun e => Upsert e.1 (pa_text e.2)) pending in
      let '(items', _, failed) := apply_effects_to_items items effects in
      _ ← guard_err (negb (failed =?= [])) (AOther (dec (N.of_nat (length failed)) ++ lit " host(s) could not be applied; nothing was changed"));
      Ok (foldl approve_one s pending, items', length effects, changed)
  end.

Definition reject_one (s : SpaceState) (e : str * PendingApproval) : SpaceState :=
  with_rows (ss_records s) (bt_remove e.1 (ss_pending_approvals s))
    (bt_insert e.1 (mkDeclined (rversion (pa_record e.2)) (rupdated_at_ms (pa_record e.2)) (pa_seq e.2)) (ss_declined s)) (ss_republish s) s.
Definition reject (s : SpaceState) (rejections : list (str * str)) : SpaceState * nat * list str :=
  let '(pending, changed) := reviewed_pending s rejections in
  (foldl reject_one s pending, length pending, changed).
End Review.

(** ** A round of one space *)

Section Rounds.
Context (sha256 : list N -> list N) (device_id : str).

(** Steps 2 and 3 of [run_round]: the file is checked; an emptied one is rebuilt in the next
    round; otherwise what changed in the file is planned. *)
Inductive Prepared := Rematerialize (s : SpaceState) | Healthy (s : SpaceState) (blocks : list HostBlockText).
Definition prepare_space (s : SpaceState) (items : list Item) (external_at : N) : result AppError Prepared :=
  _ ← check_managed_items items;
  let blocks := blocks_of items in
  if space_emptied blocks s then Ok (Rematerialize (reset_space_for_rematerialize s))
  else Ok (Healthy (if ss_baseline_established s then (plan_hosts s blocks device_id (fun _ => external_at)).1 else s) blocks).

(** Step 6, with the items of [apply_and_commit_space]: all effects or none. *)
Definition with_committed (s : SpaceState) : SpaceState :=
  mkSpace (ss_selected s) (ss_file_name s) (ss_cursor_seq s) true (ss_records s) (ss_pending_approvals s) None
    (ss_declined s) (ss_republish s) (ss_missing s) (ss_rename_blocked s).
Definition commit_space (keys : ChainKeys) (device_name : str -> str) (pulled : PullResponse) (section : SpaceState) (blocks : list HostBlockText)
    (items : list Item) : result AppError (SpaceState * list Item) :=
  let m := merge_space section keys pulled blocks device_name in
  let effects := sm_effects m ++ (if ss_baseline_established section then [] else unpushed_host_effects (sm_section m) blocks) in
  let '(items', _, failed) := apply_effects_to_items items effects in
  _ ← guard_err (negb (failed =?= [])) (AOther (dec (N.of_nat (length failed)) ++ lit " synced host record(s) could not be applied; nothing was changed"));
  Ok (with_committed (sm_section m), items').

Definition round_space (keys : ChainKeys) (device_name : str -> str) (pulled : PullResponse) (external_at : N) (s : SpaceState) (items : list Item)
  : result AppError (SpaceState * list Item) :=
  prepared ← prepare_space s items external_at;
  match prepared with
  | Rematerialize s => Ok (s, items)
  | Healthy s blocks => commit_space keys device_name pulled s blocks items
  end.

(** [note_written]: the application saved the file. *)
Definition note_written (s : SpaceState) (items : list Item) (now : N) : SpaceState :=
  if ss_baseline_established s && is_ok (check_managed_items items)
  then (plan_hosts s (blocks_of items) device_id (fun _ => now)).1 else s.

(** [prepare_files], for a file that does not exist: an empty one is made. *)
Definition recreate_file (s : SpaceState) : SpaceState * list Item :=
  (if space_vanished s then reset_space_for_rematerialize s else s, []).
End Rounds.

(** ** Sending *)

Definition space_outgoing_row (keys : ChainKeys) (nonce : str -> option (list N)) (e : str * LocalRecord) : result AppError Outgoing :=
  item ← encode keys (lrecord e.2) (lseq e.2) (nonce e.1);
  Ok (mkOutgoing e.1 item (rversion (lrecord e.2)) (rupdated_at_ms (lrecord e.2))).
Definition space_outgoing (section : SpaceState) (keys : ChainKeys) (nonce : str -> option (list N)) : result AppError (list Outgoing) :=
  try_map (space_outgoing_row keys nonce) (List.filter (fun e => ldirty e.2) (ss_records section)).

(** One accepted key: the record is settled only if it still is the one that was sent. *)
Definition apply_accepted (outgoing : list Outgoing) (s : SpaceState) (a : str * N) : SpaceState :=
  match List.find (fun o => o_key o =?= a.1) outgoing with
  | Some o =>
      match bt_get a.1 (ss_records s) with
      | Some l =>
          if (rversion (lrecord l) =? o_version o)%N && (rupdated_at_ms (lrecord l) =? o_updated_at_ms o)%N
          then with_rows (bt_update a.1 (fun l => mkLocal (lrecord l) a.2 false) (ss_records s)) (ss_pending_approvals s) (ss_declined s)
                 (bt_remove a.1 (ss_republish s)) s
          else s
      | None => s
      end
  | None => s
  end.
Definition apply_pushed_space (section : SpaceState) (outgoing : list Outgoing) (pushed : Pushed) : SpaceState :=
  foldl (apply_accepted outgoing) section (accepted pushed).

(** ** What happens to a space and its file *)

Section Steps.
Context (sha256 : list N -> list N) (device_id : str).

Inductive space_step : SpaceState * list Item -> SpaceState * list Item -> Prop :=
| StepEdit s items items' : space_step (s, items) (s, items')
| StepSave s items now : space_step (s, items) (note_written device_id s items now, items)
| StepRecreate s items : space_step (s, items) (recreate_file s)
| StepRound s items keys device_name pulled external_at s' items' :
    round_space device_id keys device_name pulled external_at s items = Ok (s', items') -> space_step (s, items) (s', items')
| StepApprove s items approvals s' items' n changed :
    approve sha256 s items approvals = Ok (s', items', n, changed) -> space_step (s, items) (s', items')
| StepReject s items rejections : space_step (s, items) ((reject sha256 s rejections).1.1, items)
| StepSent s items outgoing pushed : space_step (s, items) (apply_pushed_space s outgoing pushed, items).
Inductive space_reachable (file_name : str) : SpaceState * list Item -> Prop :=
| ReachNew : space_reachable file_name (SpaceState_new file_name, [])
| ReachStep a b : space_reachable file_name a -> space_step a b -> space_reachable file_name b.
End Steps.
End HostSync.
