(* ===== verification/HostFileProps.v ===== *)
(** * HostFileProps: placing and removing single blocks of a space file

    On a file that passed its checks, applying a text replaces the block of its alias or adds
    one, removing takes it out, nothing else changes, and the file passes its
    checks again. *)

From S2P Require Import Prelude Text BTreeMap Json SyncRecord Crypto Relay RecordMerge ConfigParser HostText HostTextProps HostSync.

Section Files.
Context {U : Unicode} {C : CharTables}.

(** ** The blocks of a checked file *)

Definition item_block (i : Item) : option HostBlockText :=
  match i with
  | Host h => if is_syncable_block (patterns h) then (fun a => mkBlockText a (block_text i)) <$> head (patterns h) else None
  | _ => None
  end.

(** Every block is named, and no alias is the first of two blocks. *)
Record managed (items : list Item) : Prop := {
  mg_named h : Host h ∈ items -> is_syncable_block (patterns h) = true;
  mg_distinct : NoDup (omap first_alias items);
  mg_allowed : forbidden_directive items = None
}.

Lemma first_alias_syncable h : is_syncable_block (patterns h) = true -> exists a, first_alias (Host h) = Some a /\ is_syncable_alias a = true.
Proof.
  unfold is_syncable_block. cbn. destruct (patterns h) as [|a ps]; [done|]. cbn. intros [? ?]%andb_true_iff. by exists a.
Qed.

Lemma check_blocks_Ok items : forall seen,
  check_blocks seen items = Ok tt <->
  (forall h, Host h ∈ items -> is_syncable_block (patterns h) = true) /\ NoDup (omap first_alias items) /\
  (forall a, a ∈ omap first_alias items -> a ∉ seen).
Proof.
  induction items as [|i items IH]; intros seen; [cbn; split; [intros _|done]; split_and!; [by intros h ?%elem_of_nil|constructor|by intros a ?%elem_of_nil]|].
  assert (forall h, Host h ∈ i :: items <-> Host h = i \/ Host h ∈ items) as Hin by (intros; apply elem_of_cons).
  destruct i as [| | |h|]; cbn [check_blocks omap list_omap first_alias]; setoid_rewrite Hin;
    try (rewrite IH; split; [intros (H1 & H2 & H3); split_and!; [intros h [[=]|?]; auto|done|done]|intros (H1 & H2 & H3); split_and!; [intros h ?; apply H1; by right|done|done]]).
  destruct (is_syncable_block (patterns h)) eqn:Hs; cbn [negb].
  2:{ split; [done|]. intros (H1 & _). rewrite H1 in Hs; [done|by left]. }
  destruct (first_alias_syncable h Hs) as (a & Ha & _). cbn [first_alias] in Ha. rewrite Ha. cbn [from_option].
  destruct (existsb (fun x => x =?= a) seen) eqn:He.
  { split; [done|]. intros (_ & _ & H3). apply existsb_elem in He as (x & Hx & ->%bool_decide_eq_true_1). exfalso. apply (H3 a); [apply elem_of_cons; by left|done]. }
  rewrite existsb_none in He. rewrite IH. setoid_rewrite elem_of_cons. rewrite NoDup_cons. split.
  - intros (H1 & H2 & H3). split_and!; [intros h' [[= ->]|?]; auto| |done|].
    + intros Hn. apply (H3 a Hn). by left.
    + intros x [->|Hx]; [|intros Hx2; apply (H3 x Hx); by right]. intros Hx2. by apply He, bool_decide_eq_false_1 in Hx2.
  - intros (H1 & [H2 H2'] & H3). split_and!; [intros h' ?; apply H1; by right|done|].
    intros x Hx [->|Hx2]; [done|]. apply (H3 x); [by right|done].
Qed.

Lemma managed_check items : check_managed_items items = Ok tt <-> managed items.
Proof.
  unfold check_managed_items. split.
  - intros H. ok_inv. destruct v. apply check_blocks_Ok in Hok as (H1 & H2 & _). destruct (forbidden_directive items) eqn:Hf; [done|]. by split.
  - intros [H1 H2 H3]. assert (check_blocks [] items = Ok tt) as -> by (apply check_blocks_Ok; split_and!; [done|done|intros a _; apply not_elem_of_nil]).
    cbn. by rewrite H3.
Qed.

Lemma blocks_omap items : blocks_of items = omap item_block items.
Proof. done. Qed.

Lemma item_block_alias i b : item_block i = Some b -> first_alias i = Some (bt_alias b) /\ bt_text b = block_text i.
Proof.
  destruct i; cbn; try done. destruct (is_syncable_block _); [|done]. destruct (head (patterns h)) eqn:E; cbn; [|done].
  by intros [= <-].
Qed.

(** ** One block in its place *)

(** The blocks of [a] and of [b] agree but for [alias], for which [b] has [text], or none. *)
Definition blocks_update (a b : list Item) (alias : str) (text : option str) : Prop :=
  forall x t, mkBlockText x t ∈ blocks_of b <-> (x = alias /\ text = Some t) \/ (x <> alias /\ mkBlockText x t ∈ blocks_of a).

Lemma position_alias items alias :
  match position (fun i => first_alias i =?= Some alias) items with
  | Some p => exists l1 i l2, items = l1 ++ i :: l2 /\ length l1 = p /\ first_alias i = Some alias /\ alias ∉ omap first_alias l1
  | None => alias ∉ omap first_alias items
  end.
Proof.
  induction items as [|i items IH]; cbn [position]; [apply not_elem_of_nil|].
  destruct (first_alias i =?= Some alias) eqn:E.
  { apply bool_decide_eq_true_1 in E. exists [], i, items. split_and!; [done|done|done|apply not_elem_of_nil]. }
  apply bool_decide_eq_false_1 in E. destruct (position _ items) as [p|]; cbn.
  - destruct IH as (l1 & j & l2 & -> & Hl & Hj & Hn). exists (i :: l1), j, l2. split_and!; [done|cbn; congruence|done|].
    cbn. destruct (first_alias i) as [a|]; [|done]. intros [->|?]%elem_of_cons; done.
  - destruct (first_alias i) as [a|]; [|done]. intros [->|?]%elem_of_cons; done.
Qed.

Lemma elem_blocks l b : b ∈ blocks_of l <-> exists i, i ∈ l /\ item_block i = Some b.
Proof. rewrite blocks_omap. apply list_elem_of_omap. Qed.

Lemma blocks_app a b : blocks_of (a ++ b) = blocks_of a ++ blocks_of b.
Proof. apply omap_app. Qed.

Lemma blocks_alias l x t : mkBlockText x t ∈ blocks_of l -> x ∈ omap first_alias l.
Proof.
  intros (i & Hi & Hb)%elem_blocks. apply item_block_alias in Hb as [Ha _]. apply list_elem_of_omap. by exists i.
Qed.

Lemma split_distinct l1 i l2 alias : NoDup (omap first_alias (l1 ++ i :: l2)) -> first_alias i = Some alias ->
  (alias ∉ omap first_alias l1) /\ (alias ∉ omap first_alias l2).
Proof.
  rewrite omap_app. cbn. intros Hn Hi. rewrite Hi in Hn. cbn in Hn. apply NoDup_app in Hn as (_ & H1 & H2). apply NoDup_cons in H2 as [H2 _].
  split; [|done]. intros Hin. apply (H1 alias Hin). apply elem_of_cons. by left.
Qed.

Lemma forbidden_app a b : forbidden_directive (a ++ b) = None <-> forbidden_directive a = None /\ forbidden_directive b = None.
Proof. induction a as [|i a IH]; cbn [app forbidden_directive]; [naive_solver|]. rewrite !or_else_None, IH. naive_solver. Qed.
Lemma forbidden_cons i l : forbidden_directive (i :: l) = None <-> forbidden_item i = None /\ forbidden_directive l = None.
Proof. cbn [forbidden_directive]. apply or_else_None. Qed.

(** What a text that is accepted for an alias is. *)
Record accepted_host (alias : str) (i : Item) : Prop := {
  ah_host : exists h, i = Host h /\ is_syncable_block (patterns h) = true;
  ah_alias : first_alias i = Some alias;
  ah_allowed : forbidden_item i = None
}.

Lemma parse_single_host_Ok alias text i : parse_single_host alias text = Ok i ->
  accepted_host alias i /\ (parse_file text).1 = [i].
Proof.
  unfold parse_single_host. intros H. ok_inv. destruct (parse_file text).1 as [|[| | |h|] [|]] eqn:Hp; try done.
  destruct (head (patterns h) <?> Some alias) eqn:Hh; [done|]. apply negb_false_iff, bool_decide_eq_true_1 in Hh.
  destruct (negb (is_syncable_block (patterns h))) eqn:Hs; [done|]. apply negb_false_iff in Hs.
  destruct (forbidden_directive [Host h]) eqn:Hf; [done|]. ok_inv. apply forbidden_cons in Hf as [Hf _]. split; [|done].
  split; [by exists h|done|done].
Qed.

Lemma accepted_block alias i : accepted_host alias i -> item_block i = Some (mkBlockText alias (block_text i)).
Proof. intros [(h & -> & Hs) Ha _]. cbn in *. by rewrite Hs, Ha. Qed.

(** The text of the block that a text makes: its own, with the final newline. *)
Definition terminated (text : str) : str := if ends_with [10%N] text then text else text ++ [10%N].
Lemma block_text_parsed text i : (parse_file text).1 = [i] -> block_text i = terminated text.
Proof.
  intros Hp. unfold block_text, terminated. rewrite <- Hp.
  pose proof (parse_serialize_text text) as Hs. assert (text <> []) as Hne by (by intros ->).
  assert ((parse_file text).2 = ends_with [10%N] text) as Ht by (unfold parse_file; destruct text; [done|]; by cbn).
  rewrite Ht in Hs. destruct (ends_with [10%N] text); [done|]. unfold serialize_items in *. by rewrite Hs.
Qed.

Lemma accepted_named alias i h : accepted_host alias i -> i = Host h -> is_syncable_block (patterns h) = true.
Proof. by intros [(h' & -> & ?) _ _] [= ->]. Qed.

(** What stands at an alias of a checked file could have been accepted for it. *)
Lemma accepted_of_managed items i alias : managed items -> i ∈ items -> first_alias i = Some alias -> accepted_host alias i.
Proof.
  intros [H1 _ H3] Hi Ha. split; [|done|by apply (forbidden_items_none items)].
  destruct i; try done. eexists. split; [done|]. by apply H1.
Qed.

Section Place.
Context (l1 l2 : list Item) (alias : str).

Lemma managed_middle i j : managed (l1 ++ i :: l2) -> first_alias i = Some alias -> accepted_host alias j -> managed (l1 ++ j :: l2).
Proof.
  intros [H1 H2 H3] Hi Hj. split.
  - intros h. rewrite elem_of_app, elem_of_cons. intros [?|[?|?]]; [apply H1; apply elem_of_app; by left|by eapply accepted_named|].
    apply H1. apply elem_of_app. right. apply elem_of_cons. by right.
  - rewrite omap_app in *. cbn in *. by rewrite (ah_alias _ _ Hj), Hi in *.
  - apply forbidden_app in H3 as [? [? ?]%forbidden_cons]. apply forbidden_app. split; [done|]. apply forbidden_cons. split; [apply (ah_allowed _ _ Hj)|done].
Qed.

Lemma blocks_middle i j : managed (l1 ++ i :: l2) -> first_alias i = Some alias -> accepted_host alias j ->
  blocks_update (l1 ++ i :: l2) (l1 ++ j :: l2) alias (Some (block_text j)).
Proof.
  intros Hm Hi Hj x t. destruct (split_distinct l1 i l2 alias (mg_distinct _ Hm) Hi) as [Hn1 Hn2].
  change (l1 ++ i :: l2) with (l1 ++ [i] ++ l2). change (l1 ++ j :: l2) with (l1 ++ [j] ++ l2).
  rewrite !blocks_app, !elem_of_app. rewrite (elem_blocks [j]), (elem_blocks [i]). setoid_rewrite list_elem_of_singleton.
  pose proof (accepted_block _ _ Hj) as Hb. split.
  - intros [H|[(? & -> & H)|H]].
    + right. split; [intros ->; by apply blocks_alias in H|by left].
    + left. rewrite Hb in H. by injection H as -> ->.
    + right. split; [intros ->; by apply blocks_alias in H|by right; right].
  - intros [[-> [= <-]]|[Hx [H|[(? & -> & H)|H]]]].
    + right; left. exists j. by rewrite Hb.
    + by left.
    + apply item_block_alias in H as [H _]. cbn in H. congruence.
    + by right; right.
Qed.

Lemma managed_removed i : managed (l1 ++ i :: l2) -> managed (l1 ++ l2).
Proof.
  intros [H1 H2 H3]. split.
  - intros h. rewrite elem_of_app. intros [?|?]; apply H1; apply elem_of_app; [by left|right; apply elem_of_cons; by right].
  - rewrite omap_app in *. cbn in H2. destruct (first_alias i); [|done]. apply NoDup_app in H2 as (Ha & Hb & Hc). apply NoDup_cons in Hc as [_ Hc].
    apply NoDup_app. split_and!; [done| |done]. intros x Hx Hx2. apply (Hb x Hx). apply elem_of_cons. by right.
  - apply forbidden_app in H3 as [? [? ?]%forbidden_cons]. by apply forbidden_app.
Qed.

Lemma blocks_removed i : managed (l1 ++ i :: l2) -> first_alias i = Some alias -> blocks_update (l1 ++ i :: l2) (l1 ++ l2) alias None.
Proof.
  intros Hm Hi x t. destruct (split_distinct l1 i l2 alias (mg_distinct _ Hm) Hi) as [Hn1 Hn2].
  change (l1 ++ i :: l2) with (l1 ++ [i] ++ l2). rewrite !blocks_app, !elem_of_app, (elem_blocks [i]). setoid_rewrite list_elem_of_singleton.
  split.
  - intros H. right. split; [intros ->; destruct H as [H|H]; by apply blocks_alias in H|]. destruct H; [by left|by right; right].
  - intros [[_ [=]]|[Hx [H|[(? & -> & H)|H]]]]; [by left| |by right]. apply item_block_alias in H as [H _]. cbn in H. congruence.
Qed.
End Place.

Lemma blocks_none l alias : alias ∉ omap first_alias l -> blocks_update l l alias None.
Proof.
  intros Hn x t. split; [|by intros [[_ [=]]|[_ ?]]]. intros H. right. split; [|done]. intros ->. by apply blocks_alias in H.
Qed.

Lemma blocks_added l alias i : alias ∉ omap first_alias l -> accepted_host alias i -> blocks_update l (l ++ [i]) alias (Some (block_text i)).
Proof.
  intros Hn Hi x t. rewrite blocks_app, elem_of_app, (elem_blocks [i]). setoid_rewrite list_elem_of_singleton.
  pose proof (accepted_block _ _ Hi) as Hb. split.
  - intros [H|(? & -> & H)]; [right; split; [intros ->; by apply blocks_alias in H|done]|left]. rewrite Hb in H. by injection H as -> ->.
  - intros [[-> [= <-]]|[_ H]]; [right; exists i; by rewrite Hb|by left].
Qed.
Lemma managed_added l alias i : managed l -> alias ∉ omap first_alias l -> accepted_host alias i -> managed (l ++ [i]).
Proof.
  intros [H1 H2 H3] Hn Hi. split.
  - intros h. rewrite elem_of_app, list_elem_of_singleton. intros [?|?]; [by apply H1|by eapply accepted_named].
  - rewrite omap_app. cbn. rewrite (ah_alias _ _ Hi). cbn. apply NoDup_app. split_and!; [done| |apply NoDup_singleton].
    intros x Hx Hx2%list_elem_of_singleton. congruence.
  - apply forbidden_app. split; [done|]. apply forbidden_cons. split; [apply (ah_allowed _ _ Hi)|done].
Qed.

(** ** Applying and removing *)

Lemma syncable_position items alias : managed items -> is_syncable_alias alias = true ->
  syncable_host_position items alias = Ok (position (fun i => first_alias i =?= Some alias) items).
Proof.
  intros Hm Ha. unfold syncable_host_position. rewrite Ha. cbn [negb guard_err mbind result_bind].
  pose proof (position_alias items alias) as Hp. destruct (position _ items) as [p|]; [|done].
  destruct Hp as (l1 & i & l2 & -> & <- & Hi & _). rewrite list_lookup_middle by done.
  destruct i as [| | |h|]; try done. rewrite (mg_named _ Hm h); [done|]. apply elem_of_app. right. apply elem_of_cons. by left.
Qed.

Lemma apply_host_text_managed items alias text : managed items -> validate_host_text alias text = Ok tt ->
  exists items' c, apply_host_text items alias text = Ok (items', c) /\ managed items' /\ blocks_update items items' alias (Some (terminated text)).
Proof.
  intros Hm Hv. unfold validate_host_text in Hv. ok_inv. apply negb_false_iff in Hok. clear v. rename v0 into i.
  unfold apply_host_text. rewrite syncable_position, Hok0 by done. cbn [mbind result_bind].
  apply parse_single_host_Ok in Hok0 as [Hi Hp]. rewrite <- (block_text_parsed _ _ Hp).
  pose proof (position_alias items alias) as Hpos. destruct (position _ items) as [p|].
  - destruct Hpos as (l1 & j & l2 & -> & <- & Hj & _). rewrite list_lookup_middle by done.
    destruct (_ =?= _) eqn:E.
    + do 2 eexists. split; [done|]. split; [done|]. apply bool_decide_eq_true_1 in E.
      change (Some (block_text j) = Some (block_text i)) in E. apply (inj Some) in E. rewrite <- E.
      assert (accepted_host alias j) as Hacc by (apply (accepted_of_managed _ _ _ Hm); [apply elem_of_app; right; apply elem_of_cons; by left|done]).
      by apply (blocks_middle l1 l2 alias j j).
    + do 2 eexists. split; [done|]. rewrite insert_app_r_alt, Nat.sub_diag by lia. cbn.
      split; [by apply (managed_middle l1 l2 alias j)|by apply blocks_middle].
  - do 2 eexists. split; [done|]. split; [by apply managed_added with alias|by apply blocks_added].
Qed.

Lemma remove_host_block_managed items alias : managed items -> is_syncable_alias alias = true ->
  managed (remove_host_block items alias).1 /\ blocks_update items (remove_host_block items alias).1 alias None.
Proof.
  intros Hm Ha. unfold remove_host_block. rewrite syncable_position by done.
  pose proof (position_alias items alias) as Hpos. destruct (position _ items) as [p|]; cbn [fst].
  - destruct Hpos as (l1 & i & l2 & -> & <- & Hi & _).
    assert (vec_remove (length l1) (l1 ++ i :: l2) = l1 ++ l2) as -> by apply vec_remove_middle.
    split; [by eapply managed_removed|by apply blocks_removed].
  - split; [done|by apply blocks_none].
Qed.
End Files.
