(* ===== verification/HostSyncProps.v ===== *)
(** * HostSyncProps: a space file and its records stay in step

    What a merged pull does to a checked file: it is applied as a whole, the file
    passes its checks again, the file holds the live records and nothing else, and the next
    look at the file finds nothing to send.  Versions that need a decision
    are held and not applied. *)

From S2P Require Import Prelude Text BTreeMap Json SyncRecord Crypto Relay RecordMerge ConfigParser HostText HostTextProps HostSync HostFileProps.

(** ** Lookups after the operations on rows *)

Lemma bt_get_remove {V} k k2 (m : btree V) : bt_get k2 (bt_remove k m) = if decide (k = k2) then None else bt_get k2 m.
Proof. case_decide; subst; [apply bt_get_remove_eq|by apply bt_get_remove_ne]. Qed.
Lemma bt_get_map {V} (f : V -> V) k (m : btree V) : bt_get k (bt_map f m) = f <$> bt_get k m.
Proof. unfold bt_map. induction m as [|[k' v] m IH]; [done|]. cbn [map bt_get fst snd]. by destruct (k =?= k'). Qed.
Lemma bt_keys_map {V} (f : V -> V) (m : btree V) : bt_keys (bt_map f m) = bt_keys m.
Proof. unfold bt_keys, bt_map. induction m as [|[k' v] m IH]; [done|]. cbn. by f_equal. Qed.
Lemma bt_ok_map {V} (f : V -> V) (m : btree V) : bt_ok m -> bt_ok (bt_map f m).
Proof.
  unfold bt_ok. induction 1 as [|[k v] m Hm IH Hall]; cbn; constructor; [done|].
  rewrite Forall_forall in Hall |- *. intros e He. apply list_elem_of_fmap in He as (e' & -> & He'). by specialize (Hall _ He').
Qed.
Lemma host_key_inj a b : host_key a = host_key b -> a = b.
Proof. intros H. by apply record_key_inj in H as [_ ?]. Qed.
#[export] Hint Resolve bt_ok_map : lunport.

Section Props.
Context {U : Unicode} {C : CharTables} {Y : CryptoLib} {S : Serde HostPayload}
  (json_from_slice : list N -> option Rec).

(** ** The invariants *)

(** The text of a host that is not deleted, as the records have it. *)
Definition live_record (r : Rec) : option str := if rdeleted r then None else host_text (rpayload r).
Definition live_text (s : SpaceState) (alias : str) : option str :=
  l ← bt_get (host_key alias) (ss_records s); live_record (lrecord l).

(** The file holds the live records, each under its alias, and nothing else. *)
Definition in_step (s : SpaceState) (items : list Item) : Prop :=
  forall x t, mkBlockText x t ∈ blocks_of items <-> live_text s x = Some t.

Record record_ok (k : str) (r : Rec) : Prop := {
  ro_key : k = record_key (rkind r) (rid r);
  ro_text : rkind r = KHost -> rdeleted r = false -> is_Some (host_text (rpayload r))
}.
Record pending_ok (alias : str) (p : PendingApproval) : Prop := {
  po_kind : rkind (pa_record p) = KHost;
  po_id : rid (pa_record p) = alias;
  po_live : rdeleted (pa_record p) = false;
  po_text : host_text (rpayload (pa_record p)) = Some (pa_text p);
  po_valid : validate_host_text alias (pa_text p) = Ok tt
}.
Record section_ok (s : SpaceState) : Prop := {
  so_sorted : bt_ok (ss_records s);
  so_records k l : bt_get k (ss_records s) = Some l -> record_ok k (lrecord l);
  so_pending a p : bt_get a (ss_pending_approvals s) = Some p -> pending_ok a p
}.

Lemma section_ok_new f : section_ok (SpaceState_new f).
Proof. split; [constructor|done|done]. Qed.

(** An effect that passed the validation of its text. *)
Definition effect_valid (e : HostEffect) : Prop :=
  match e with
  | Upsert alias text => validate_host_text alias text = Ok tt
  | DeleteHost alias => is_syncable_alias alias = true
  end.
Definition effect_terminated (e : HostEffect) : Prop :=
  match e with Upsert _ text => ends_with [10%N] text = true | DeleteHost _ => True end.
Definition effect_text (e : HostEffect) : option str :=
  match e with Upsert _ text => Some (terminated text) | DeleteHost _ => None end.

(** ** Effects on a checked file *)

Lemma effect_managed items e : managed items -> effect_valid e ->
  exists items' c, apply_effects_to_items items [e] = (items', c, []) /\ managed items' /\
    blocks_update items items' (effect_alias e) (effect_text e).
Proof.
  intros Hm He. destruct e as [alias text|alias]; cbn [apply_effects_to_items effect_alias effect_text] in *.
  - destruct (apply_host_text_managed items alias text Hm He) as (items' & c & -> & Hm' & Hu). exists items', (c || false). done.
  - destruct (remove_host_block_managed items alias Hm He) as [Hm' Hu]. destruct (remove_host_block items alias) as [items' c].
    exists items', (c || false). done.
Qed.

Lemma apply_effects_app a b : forall items items' c,
  apply_effects_to_items items a = (items', c, []) ->
  apply_effects_to_items items (a ++ b) = let '(items2, c2, failed) := apply_effects_to_items items' b in (items2, c || c2, failed).
Proof.
  induction a as [|e a IH]; intros items items' c; cbn [app apply_effects_to_items]; [by intros [= <- <-]; destruct (apply_effects_to_items _ b) as [[??]?]|].
  destruct (match e with Upsert _ _ => _ | DeleteHost _ => _ end) as [[i1 c1]|err]; [|destruct (apply_effects_to_items items a) as [[??]?]; by intros [=]].
  destruct (apply_effects_to_items i1 a) as [[i2 c2] f] eqn:E. intros [= -> <- ->]. rewrite (IH _ _ _ E).
  destruct (apply_effects_to_items items' b) as [[??]?]. by rewrite orb_assoc.
Qed.

(** No validated effect fails on a checked file. *)
Lemma effects_managed es : forall items, managed items -> Forall effect_valid es ->
  exists items' c, apply_effects_to_items items es = (items', c, []) /\ managed items'.
Proof.
  induction es as [|e es IH]; intros items Hm Hes; [by exists items, false|]. apply Forall_cons in Hes as [He Hes].
  destruct (effect_managed items e Hm He) as (i1 & c1 & H1 & Hm1 & _). destruct (IH i1 Hm1 Hes) as (i2 & c2 & H2 & Hm2).
  exists i2, (c1 || c2). split; [|done]. change (e :: es) with ([e] ++ es). by rewrite (apply_effects_app _ _ _ _ _ H1), H2.
Qed.

(** ** One envelope *)

Lemma decode_host keys e r : decode json_from_slice keys e = Ok r -> ekind e = kind_as_str KHost -> rkind r = KHost.
Proof.
  unfold decode. intros H Hk. ok_inv. apply orb_false_iff in Hok2 as [Hk2 _]. apply negb_false_iff, bool_decide_eq_true_1 in Hk2.
  rewrite Hk2. rewrite Hk, kind_parse_as_str in Hok. by injection Hok as <-.
Qed.

(** The ways an envelope changes the section and the effects. *)
Inductive merged_as (applied : list HostBlockText) (m m' : SpaceMerged) : Prop :=
| MergedKept (Htext : forall a, live_text (sm_section m') a = live_text (sm_section m) a) (He : sm_effects m' = sm_effects m)
| MergedText alias text (Ht : forall a, live_text (sm_section m') a = if decide (a = alias) then Some text else live_text (sm_section m) a)
    (Hv : validate_host_text alias text = Ok tt) (Ha : needs_approval text (bt_text <$> find_block alias applied) = false)
    (He : sm_effects m' = sm_effects m ++ [Upsert alias text])
| MergedGone alias (Ht : forall a, live_text (sm_section m') a = if decide (a = alias) then None else live_text (sm_section m) a)
    (Ha : is_syncable_alias alias = true) (He : sm_effects m' = sm_effects m ++ [DeleteHost alias]).

Lemma live_text_update f k s a : (forall l, lrecord (f l) = lrecord l) ->
  live_text (with_records (bt_update k f (ss_records s)) s) a = live_text s a.
Proof.
  intros Hf. unfold live_text. cbn. rewrite bt_get_update. case_decide; [|done]. destruct (bt_get _ _); [|done]. cbn. by rewrite Hf.
Qed.
Lemma live_text_insert k l s a p d b : k = host_key a ->
  forall x, live_text (with_rows (bt_insert k l (ss_records s)) p d b s) x = if decide (x = a) then live_record (lrecord l) else live_text s x.
Proof.
  intros -> x. unfold live_text. cbn [ss_records with_rows]. rewrite bt_get_insert. destruct (decide (x = a)) as [->|Hn].
  - by rewrite decide_True.
  - rewrite decide_False; [done|]. intros ?%host_key_inj. congruence.
Qed.

Lemma merge_envelope_as keys applied device_name m e :
  merged_as applied m (merge_envelope json_from_slice keys applied device_name m e).
Proof.
  unfold merge_envelope. destruct (decode _ keys e) as [r|]; [|by apply MergedKept].
  destruct ((ekind e =?= kind_as_str KHost) && is_syncable_alias (rid r)) eqn:Hk; [|by apply MergedKept].
  apply andb_true_iff in Hk as [_ Ha]. cbv zeta. destruct (merge _ r =?= KeepLocal).
  { apply MergedKept; [|done]. intros a. by apply (live_text_update (set_seq (eseq e))). }
  set (lost := _ && _). destruct (rdeleted r) eqn:Hd.
  { apply (MergedGone _ _ _ (rid r)); [|done|unfold merge_deleted, sm_conflict; by destruct lost]. intros a. unfold merge_deleted. cbn [sm_section sm_with].
    rewrite (live_text_insert _ _ _ (rid r)) by done. cbn [lrecord]. unfold live_record. by rewrite Hd. }
  destruct (from_value (rpayload r)) as [p|] eqn:Hp; [|by apply MergedKept].
  destruct (is_ok (validate_host_text (rid r) (hx_text p))) eqn:Hv; [|by apply MergedKept].
  destruct (negb lost && seen_again _ _ _).
  { apply MergedKept; [|done]. intros a. unfold note_seen. cbn [sm_section sm_with]. by apply (live_text_update set_clean). }
  unfold merge_text. cbv zeta. destruct (needs_approval _ _) eqn:Hn.
  { apply MergedKept; [|unfold sm_conflict; by destruct lost]. intros a. cbn [sm_hold sm_section sm_with]. by apply (live_text_update set_clean). }
  apply (MergedText _ _ _ (rid r) (hx_text p)); [| |done|unfold sm_conflict; by destruct lost].
  - intros a. cbn [sm_effect sm_section sm_with]. rewrite (live_text_insert _ _ _ (rid r)) by done. cbn [lrecord].
    unfold live_record, host_text. by rewrite Hd, Hp.
  - destruct (validate_host_text _ _) as [[]|]; done.
Qed.

(** ** The rows of a section *)

Lemma section_ok_rows (s : SpaceState) records pending declined republish : section_ok s -> bt_ok records ->
  (forall k l, bt_get k records = Some l -> record_ok k (lrecord l)) -> (forall a p, bt_get a pending = Some p -> pending_ok a p) ->
  section_ok (with_rows records pending declined republish s).
Proof. intros _ H1 H2 H3. by split. Qed.
Lemma section_ok_update s k f a d b : section_ok s -> (forall l, lrecord (f l) = lrecord l) ->
  (forall a' p, bt_get a' a = Some p -> pending_ok a' p) -> section_ok (with_rows (bt_update k f (ss_records s)) a d b s).
Proof.
  intros Hs Hf Ha. apply section_ok_rows; [done|auto using so_sorted with lunport| |done].
  intros k2 l. rewrite bt_get_update. case_decide; [|by apply so_records].
  destruct (bt_get k2 (ss_records s)) as [l2|] eqn:E; cbn; [|done]. intros [= <-]. rewrite Hf. by apply (so_records s).
Qed.
Lemma section_ok_insert s k l a d b : section_ok s -> record_ok k (lrecord l) ->
  (forall a' p, bt_get a' a = Some p -> pending_ok a' p) -> section_ok (with_rows (bt_insert k l (ss_records s)) a d b s).
Proof.
  intros Hs Hl Ha. apply section_ok_rows; [done|auto using so_sorted with lunport| |done].
  intros k2 l2. rewrite bt_get_insert. case_decide; [by intros [= <-]; subst|by apply so_records].
Qed.
Lemma pending_removed s a : section_ok s -> forall a' p, bt_get a' (bt_remove a (ss_pending_approvals s)) = Some p -> pending_ok a' p.
Proof. intros Hs a' p. rewrite bt_get_remove. case_decide; [done|by apply so_pending]. Qed.
Lemma pending_seq_ok a seq p : pending_ok a p -> pending_ok a (pending_seq seq p).
Proof. by intros []. Qed.

Lemma merge_envelope_ok keys applied device_name m e : section_ok (sm_section m) ->
  section_ok (sm_section (merge_envelope json_from_slice keys applied device_name m e)).
Proof.
  intros Hs. unfold merge_envelope. destruct (decode _ keys e) as [r|] eqn:Hdec; [|done].
  destruct ((ekind e =?= kind_as_str KHost) && is_syncable_alias (rid r)) eqn:Hk; [|done]. apply andb_true_iff in Hk as [Hk _].
  apply bool_decide_eq_true_1 in Hk. pose proof (decode_host _ _ _ Hdec Hk) as Hkind.
  cbv zeta. destruct (merge _ r =?= KeepLocal); [by apply section_ok_update; [| |apply so_pending]|].
  set (lost := _ && _). assert (Hkey : host_key (rid r) = record_key (rkind r) (rid r)) by (by rewrite Hkind).
  destruct (rdeleted r) eqn:Hd.
  { apply section_ok_insert; [done| |by apply pending_removed]. split; [done|]. cbn. congruence. }
  destruct (from_value (rpayload r)) as [p|] eqn:Hp; [|done].
  destruct (is_ok (validate_host_text (rid r) (hx_text p))) eqn:Hv; [|done].
  assert (validate_host_text (rid r) (hx_text p) = Ok tt) as Hv' by (destruct (validate_host_text _ _) as [[]|]; done).
  assert (host_text (rpayload r) = Some (hx_text p)) as Ht by (unfold host_text; by rewrite Hp).
  destruct (negb lost && seen_again _ _ _).
  { apply section_ok_update; [done|done|]. intros a' p'. rewrite bt_get_update. case_decide; [|by apply so_pending].
    destruct (bt_get a' _) as [q|] eqn:E; cbn; [|done]. intros [= <-]. apply (so_pending _ Hs) in E.
    destruct (same_version _ _ _); [by apply pending_seq_ok|done]. }
  unfold merge_text. cbv zeta. destruct (needs_approval _ _) eqn:Hn.
  - apply section_ok_update; [done|done|]. intros a' p'. rewrite bt_get_insert. case_decide; [|by apply so_pending].
    intros [= <-]. subst a'. by split.
  - apply section_ok_insert; [done| |by apply pending_removed]. split; [done|]. cbn. by rewrite Ht.
Qed.

Lemma resend_all_ok s : section_ok s -> section_ok (resend_all s).
Proof.
  intros Hs. split; cbn.
  - apply bt_ok_map, Hs.
  - intros k l. rewrite bt_get_map. destruct (bt_get k (ss_records s)) as [l2|] eqn:E; cbn; [|done]. intros [= <-]. cbn. by apply (so_records s).
  - intros a p. rewrite bt_get_map. destruct (bt_get a (ss_pending_approvals s)) as [q|] eqn:E; cbn; [|done]. intros [= <-].
    by apply pending_seq_ok, (so_pending s).
Qed.
Lemma resend_all_live s a : live_text (resend_all s) a = live_text s a.
Proof. unfold live_text. cbn. rewrite bt_get_map. by destruct (bt_get _ (ss_records s)). Qed.

(** What holds for every envelope of a pull holds for the pull. *)
Lemma merge_space_inv (P : SpaceMerged -> Prop) section keys pulled applied device_name :
  P (mkMerged section [] [] [] 0) ->
  (forall m e, P m -> P (merge_envelope json_from_slice keys applied device_name m e)) ->
  (forall m, P m -> P (sm_with (resend_all (sm_section m)) m)) ->
  (forall m c, P m -> P (sm_with (with_cursor c (sm_section m)) m)) ->
  P (merge_space json_from_slice section keys pulled applied device_name).
Proof.
  intros H0 Hstep Hr Hc. unfold merge_space. cbv zeta.
  assert (P (foldl (merge_envelope json_from_slice keys applied device_name) (mkMerged section [] [] [] 0) (pull_records pulled))) as Hm.
  { revert H0. generalize (mkMerged section [] [] [] 0). induction (pull_records pulled) as [|e es IH]; intros m Hm; [done|]. cbn. by apply IH, Hstep. }
  destruct (_ <? _)%N; [by apply Hr|by apply Hc].
Qed.

Lemma merge_space_ok section keys pulled applied device_name : section_ok section ->
  section_ok (sm_section (merge_space json_from_slice section keys pulled applied device_name)).
Proof.
  intros Hs. apply merge_space_inv; [done|intros; by apply merge_envelope_ok|intros; by apply resend_all_ok|]. by intros m c [].
Qed.

(** The effects of a pull on a file it starts from in step with the section. *)
Record effects_in_step (items : list Item) (m : SpaceMerged) : Prop := {
  ei_valid : Forall effect_valid (sm_effects m);
  ei_applied : exists items' c, apply_effects_to_items items (sm_effects m) = (items', c, []) /\ managed items' /\
    (Forall effect_terminated (sm_effects m) -> in_step (sm_section m) items')
}.

Lemma effects_in_step_same items m m' : effects_in_step items m -> sm_effects m' = sm_effects m ->
  (forall a, live_text (sm_section m') a = live_text (sm_section m) a) -> effects_in_step items m'.
Proof.
  intros [H1 (i & c & H2 & H3 & H4)] He Ht. split; [by rewrite He|]. exists i, c. rewrite He. split_and!; [done|done|].
  intros Hf x t. rewrite Ht. by apply H4.
Qed.
Lemma effects_in_step_snoc items m m' e : effects_in_step items m -> effect_valid e -> sm_effects m' = sm_effects m ++ [e] ->
  (forall a, live_text (sm_section m') a = if decide (a = effect_alias e) then match e with Upsert _ t => Some t | _ => None end else live_text (sm_section m) a) ->
  effects_in_step items m'.
Proof.
  intros [H1 (i & c & H2 & H3 & H4)] Hv He Ht. split; [rewrite He; apply Forall_app; by repeat constructor|].
  destruct (effect_managed i e H3 Hv) as (i2 & c2 & Hi2 & Hm2 & Hu). exists i2, (c || c2).
  rewrite He, (apply_effects_app _ _ _ _ _ H2), Hi2. split_and!; [done|done|]. intros [Hf Hf2%Forall_inv]%Forall_app x t.
  pose proof (Hu x t) as Hx. rewrite Ht. destruct (decide (x = effect_alias e)) as [->|Hn].
  - destruct e as [a t'|a]; cbn [effect_alias effect_text] in *; [|naive_solver].
    change (ends_with [10%N] t' = true) in Hf2. unfold terminated in Hx. rewrite Hf2 in Hx. naive_solver.
  - pose proof (H4 Hf x t). naive_solver.
Qed.

Lemma merge_envelope_in_step items keys applied device_name m e : effects_in_step items m ->
  effects_in_step items (merge_envelope json_from_slice keys applied device_name m e).
Proof.
  intros Hm. destruct (merge_envelope_as keys applied device_name m e) as [Ht He|alias text Ht Hv _ He|alias Ht Ha He].
  - by apply (effects_in_step_same _ m).
  - by apply (effects_in_step_snoc _ m _ (Upsert alias text)).
  - by apply (effects_in_step_snoc _ m _ (DeleteHost alias)).
Qed.

Lemma merge_space_in_step section items keys pulled applied device_name : managed items ->
  in_step section items -> effects_in_step items (merge_space json_from_slice section keys pulled applied device_name).
Proof.
  intros Hm Hi. apply merge_space_inv.
  - split; [constructor|]. by exists items, false.
  - intros m e. apply merge_envelope_in_step.
  - intros m H. apply (effects_in_step_same _ _ _ H); [done|]. intros a. apply resend_all_live.
  - intros m c H. by apply (effects_in_step_same _ _ _ H).
Qed.
End Props.
