(* ===== verification/HostPlanProps.v ===== *)
(** * HostPlanProps: what planning makes of a space file

    Planning compares the file with the records and with the versions that were not
    applied.  Afterwards the records say what the file says, and what was planned wins against
    every version this device knows. *)

From S2P Require Import Prelude Text BTreeMap Json SyncRecord Crypto Relay RecordMerge ConfigParser HostText HostTextProps HostSync HostFileProps HostSyncProps.

Section Plan.
Context {U : Unicode} {C : CharTables} {S : Serde HostPayload}.

(** ** The view *)

(** A row of the view next to the cached row. *)
Inductive view_row (k : str) : option LocalRecord -> option LocalRecord -> Prop :=
| RowNone : view_row k None None
| RowKnown a d : k = host_key a -> rdeleted (lrecord d) = true -> view_row k None (Some d)
| RowRaised l d : rkind (lrecord d) = rkind (lrecord l) -> rid (lrecord d) = rid (lrecord l) -> rdeleted (lrecord d) = rdeleted (lrecord l) ->
    rpayload (lrecord d) = rpayload (lrecord l) -> (rversion (lrecord l) <= rversion (lrecord d))%N ->
    (rupdated_at_ms (lrecord l) <= rupdated_at_ms (lrecord d))%N -> view_row k (Some l) (Some d).

Definition known_raised (s : SpaceState) (view : btree LocalRecord) (a : str) : Prop :=
  forall kn, known_remote s a = Some kn -> exists d, bt_get (host_key a) view = Some d /\
    (dv_version kn <= rversion (lrecord d))%N /\ (dv_updated_at_ms kn <= rupdated_at_ms (lrecord d))%N.

(** All versions and times that a section holds or knows of are below the largest [u64]. *)
Definition below (version updated : N) : Prop := (version < u64_max)%N /\ (updated < u64_max)%N.
Record stamps_below (s : SpaceState) : Prop := {
  sb_records k l : bt_get k (ss_records s) = Some l -> below (rversion (lrecord l)) (rupdated_at_ms (lrecord l));
  sb_known a kn : known_remote s a = Some kn -> below (dv_version kn) (dv_updated_at_ms kn)
}.

Record view_ok (s : SpaceState) (sn : list str) (view : btree LocalRecord) : Prop := {
  vo_sorted : bt_ok view;
  vo_rows k : view_row k (bt_get k (ss_records s)) (bt_get k view);
  vo_known a : a ∈ sn -> known_raised s view a;
  vo_below : stamps_below s -> forall k d, bt_get k view = Some d -> below (rversion (lrecord d)) (rupdated_at_ms (lrecord d))
}.

Lemma view_row_refl k o : view_row k o o.
Proof. destruct o; constructor; done. Qed.

(** One row of a view is raised. *)
Lemma view_ok_raise s sn view a d : view_ok s sn view ->
  forall view', bt_ok view' -> (forall k, bt_get k view' = if decide (host_key a = k) then Some d else bt_get k view) ->
  view_row (host_key a) (bt_get (host_key a) (ss_records s)) (Some d) ->
  (forall d0, bt_get (host_key a) view = Some d0 -> (rversion (lrecord d0) <= rversion (lrecord d))%N /\ (rupdated_at_ms (lrecord d0) <= rupdated_at_ms (lrecord d))%N) ->
  (forall kn, known_remote s a = Some kn -> (dv_version kn <= rversion (lrecord d))%N /\ (dv_updated_at_ms kn <= rupdated_at_ms (lrecord d))%N) ->
  (stamps_below s -> below (rversion (lrecord d)) (rupdated_at_ms (lrecord d))) ->
  view_ok s (a :: sn) view'.
Proof.
  intros [H1 H2 H3 H4] view' Hs Hg Hrow Hup Hkn Hb. split; [done| | |].
  - intros k. rewrite Hg. case_decide; [by subst|done].
  - intros x [->|Hx]%elem_of_cons kn Hk; [exists d; rewrite Hg, decide_True by done; split; [done|by apply Hkn]|].
    destruct (decide (x = a)) as [->|Hn]; [exists d; rewrite Hg, decide_True by done; split; [done|by apply Hkn]|].
    destruct (H3 x Hx kn Hk) as (d0 & Hd0 & ?). exists d0. rewrite Hg, decide_False; [done|]. intros ?%host_key_inj. congruence.
  - intros Hst k d'. rewrite Hg. case_decide; [intros [= <-]; by apply Hb|by apply H4].
Qed.

Lemma known_view_ok s sn view a : view_ok s sn view -> view_ok s (a :: sn) (known_view s view a).
Proof.
  intros Hv. unfold known_view. destruct (known_remote s a) as [kn|] eqn:Hk.
  2:{ destruct Hv as [H1 H2 H3 H4]. split; [done|done| |done]. intros x [->|Hx]%elem_of_cons; [|by apply H3]. intros kn. by rewrite Hk. }
  destruct (bt_get (host_key a) view) as [l|] eqn:Hl.
  - eapply view_ok_raise; [exact Hv|apply bt_ok_update, Hv| | | | |].
    + intros k. rewrite bt_get_update. case_decide; [|done]. subst k. rewrite Hl. reflexivity.
    + pose proof (vo_rows _ _ _ Hv (host_key a)) as Hrow. rewrite Hl in Hrow. inversion Hrow; subst; econstructor; cbn; try done; lia.
    + intros d0. rewrite Hl. intros [= <-]. cbn. lia.
    + intros kn'. rewrite Hk. intros [= <-]. cbn. lia.
    + intros Hst. pose proof (vo_below _ _ _ Hv Hst _ _ Hl) as [? ?]. destruct (sb_known _ Hst _ _ Hk). cbn. split; lia.
  - eapply view_ok_raise; [exact Hv|apply bt_ok_insert, Hv| | | | |].
    + intros k. rewrite bt_get_insert. reflexivity.
    + pose proof (vo_rows _ _ _ Hv (host_key a)) as Hrow. rewrite Hl in Hrow. inversion Hrow; subst. by apply (RowKnown _ a).
    + intros d0. by rewrite Hl.
    + intros kn'. rewrite Hk. intros [= <-]. cbn. lia.
    + intros Hst. by apply (sb_known _ Hst _ _ Hk).
Qed.

Lemma known_remote_listed s a kn : known_remote s a = Some kn -> a ∈ bt_keys (ss_pending_approvals s) ++ bt_keys (ss_declined s).
Proof.
  unfold known_remote. intros H. apply elem_of_app.
  destruct (bt_get a (ss_pending_approvals s)) as [p|] eqn:Hp.
  { left. apply bt_get_elem in Hp. unfold bt_keys. apply list_elem_of_fmap. by exists (a, p). }
  destruct (bt_get a (ss_declined s)) as [d|] eqn:Hd; [|done].
  right. apply bt_get_elem in Hd. unfold bt_keys. apply list_elem_of_fmap. by exists (a, d).
Qed.

Lemma plan_view_ok s : section_ok s -> exists sn, view_ok s sn (plan_view s) /\ forall a kn, known_remote s a = Some kn -> a ∈ sn.
Proof.
  intros Hs. unfold plan_view.
  assert (forall l sn view, view_ok s sn view -> exists sn', view_ok s sn' (foldl (known_view s) view l) /\ forall a, a ∈ l -> a ∈ sn') as Hf.
  { assert (forall l sn view, view_ok s sn view -> exists sn', view_ok s sn' (foldl (known_view s) view l) /\ forall a, a ∈ l \/ a ∈ sn -> a ∈ sn') as Hf.
    { induction l as [|a l IH]; intros sn view Hv; [exists sn; split; [done|intros a [?%elem_of_nil|?]; done]|].
      cbn. destruct (IH (a :: sn) _ (known_view_ok _ _ _ a Hv)) as (sn' & H1 & H2). exists sn'. split; [done|].
      intros x [[->|?]%elem_of_cons|?]; apply H2; [right; apply elem_of_cons; by left|by left|right; apply elem_of_cons; by right]. }
    intros l sn view Hv. destruct (Hf l sn view Hv) as (sn' & H1 & H2). exists sn'. split; [done|]. intros a ?. apply H2. by left. }
  destruct (Hf (bt_keys (ss_pending_approvals s) ++ bt_keys (ss_declined s)) [] (ss_records s)) as (sn & H1 & H2).
  - split; [apply Hs|intros k; apply view_row_refl|intros a ?%elem_of_nil; done|]. intros Hb k d Hd. by apply (sb_records _ Hb k).
  - exists sn. split; [done|]. intros a kn Hk. by eapply H2, known_remote_listed.
Qed.

(** ** What is planned *)

Section Planned.
Context (s : SpaceState) (view : btree LocalRecord) (sn : list str) (Hs : section_ok s) (Hv : view_ok s sn view).
Context (blocks : list HostBlockText) (device_id : str) (changed_at : str -> N).

Definition previous (a : str) : option Rec := lrecord <$> bt_get (host_key a) view.
Inductive planned_as (r : Rec) : Prop :=
| PlannedChanged b : b ∈ blocks -> unchanged_block (previous (bt_alias b)) b = false ->
    r = changed_record device_id changed_at (previous (bt_alias b)) b -> planned_as r
| PlannedRemoved d : bt_get (host_key (rid (lrecord d))) view = Some d -> rkind (lrecord d) = KHost -> rdeleted (lrecord d) = false ->
    (forall b, b ∈ blocks -> bt_alias b <> rid (lrecord d)) -> r = removed_record device_id changed_at (lrecord d) -> planned_as r.

(** A live row of the view, and a cached row, have a row on the other side. *)
Definition same_host (l d : LocalRecord) : Prop :=
  rkind (lrecord d) = rkind (lrecord l) /\ rid (lrecord d) = rid (lrecord l) /\ rdeleted (lrecord d) = rdeleted (lrecord l) /\
  rpayload (lrecord d) = rpayload (lrecord l).
Lemma live_cached k d : bt_get k view = Some d -> rdeleted (lrecord d) = false -> exists l, bt_get k (ss_records s) = Some l /\ same_host l d.
Proof.
  intros Hd Hl. pose proof (vo_rows _ _ _ Hv k) as Hrow. rewrite Hd in Hrow. inversion Hrow; subst; [congruence|]. eexists. by split.
Qed.
Lemma cached_row k l : bt_get k (ss_records s) = Some l -> exists d, bt_get k view = Some d /\ same_host l d /\
  (rversion (lrecord l) <= rversion (lrecord d))%N /\ (rupdated_at_ms (lrecord l) <= rupdated_at_ms (lrecord d))%N.
Proof. intros Hl. pose proof (vo_rows _ _ _ Hv k) as Hrow. rewrite Hl in Hrow. inversion Hrow; subst. eexists. by split_and!. Qed.

(** A live host of the view is a live host of the section, under its own key. *)
Lemma live_row k d : bt_get k view = Some d -> rkind (lrecord d) = KHost -> rdeleted (lrecord d) = false ->
  k = host_key (rid (lrecord d)) /\ exists t, live_text s (rid (lrecord d)) = Some t /\ host_text (rpayload (lrecord d)) = Some t.
Proof.
  intros Hd Hk Hl. destruct (live_cached _ _ Hd Hl) as (l & Hg & Hk2 & Hi & Hd2 & Hp).
  destruct (so_records _ Hs _ _ Hg) as [Hkey Ht]. rewrite <- Hk2, Hk, <- Hi in Hkey. split; [exact Hkey|].
  destruct Ht as [t Ht]; [congruence..|]. exists t. split; [|congruence].
  unfold live_text, host_key. rewrite <- Hkey, Hg. cbn. unfold live_record. rewrite <- Hd2, Hl. congruence.
Qed.

Lemma planned_elem r : r ∈ detect_local_changes view blocks device_id changed_at <-> planned_as r.
Proof.
  unfold detect_local_changes. rewrite elem_of_app, !list_elem_of_omap. split.
  - intros [(b & Hb & H)|(d & Hd & H)]; cbv zeta in H.
    + destruct (unchanged_block _ b) eqn:E; [done|]. injection H as <-. by apply (PlannedChanged _ b).
    + destruct (negb (rkind (lrecord d) =?= KHost) || rdeleted (lrecord d)) eqn:E; [done|]. apply orb_false_iff in E as [Ek Ed].
      apply negb_false_iff, bool_decide_eq_true_1 in Ek. destruct (existsb _ blocks) eqn:E2; [done|]. injection H as <-.
      unfold bt_values in Hd. apply list_elem_of_fmap in Hd as ([k d'] & -> & Hd). apply bt_ok_get in Hd; [|apply Hv]. cbn in *.
      destruct (live_row _ _ Hd Ek Ed) as [-> _]. apply (PlannedRemoved _ d'); [done..| |done].
      rewrite existsb_none in E2. intros b Hb Ha. specialize (E2 b Hb). by apply bool_decide_eq_false_1 in E2.
  - intros [b Hb Hu ->|d Hd Hk Hl Hn ->].
    + left. exists b. split; [done|]. cbv zeta. fold (previous (bt_alias b)). by rewrite Hu.
    + right. exists d. split; [unfold bt_values; apply list_elem_of_fmap; eexists; split; [|by apply bt_get_elem]; done|]. cbv zeta.
      rewrite Hk, Hl, bool_decide_eq_true_2 by done. cbn [negb orb].
      assert (existsb (fun b => bt_alias b =?= rid (lrecord d)) blocks = false) as ->; [|done].
      apply existsb_none. intros b Hb. apply bool_decide_eq_false_2. by apply Hn.
Qed.

Lemma planned_kind r : planned_as r -> rkind r = KHost.
Proof. by intros [b _ _ ->|d _ _ _ _ ->]. Qed.

Context (Hb : NoDup (bt_alias <$> blocks)).

Lemma block_unique b b' : b ∈ blocks -> b' ∈ blocks -> bt_alias b = bt_alias b' -> b = b'.
Proof.
  intros [i Hi]%list_elem_of_lookup [j Hj]%list_elem_of_lookup Ha.
  assert (i = j) as -> by (apply (NoDup_lookup _ i j (bt_alias b) Hb); rewrite list_lookup_fmap; [by rewrite Hi|rewrite Hj; by rewrite Ha]). congruence.
Qed.
Lemma planned_unique r r' : planned_as r -> planned_as r' -> rid r = rid r' -> r = r'.
Proof.
  intros [b H1 H2 ->|d H1 H2 H3 H4 ->] [b' H1' H2' ->|d' H1' H2' H3' H4' ->]; cbn [changed_record removed_record rid]; intros E.
  - by rewrite (block_unique b b').
  - by destruct (H4' b).
  - by destruct (H4 b').
  - rewrite E, H1' in H1. by injection H1 as ->.
Qed.

Lemma find_block_elem a b : find_block a blocks = Some b <-> b ∈ blocks /\ bt_alias b = a.
Proof.
  unfold find_block. split.
  - intros [H1 H2]%find_some. split; [by apply list_elem_of_In|]. by apply bool_decide_eq_true_1 in H2.
  - intros [H1 H2]. destruct (List.find _ blocks) as [b'|] eqn:E.
    + apply find_some in E as [H3 H4]. apply list_elem_of_In in H3. apply bool_decide_eq_true_1 in H4. f_equal. apply block_unique; [done..|congruence].
    + apply list_elem_of_In in H1. eapply find_none in E; [|exact H1]. cbn in E. by apply bool_decide_eq_false_1 in E.
Qed.

(** The record of a host after planning, and the file. *)
Lemma planned_text a :
  (exists r, planned_as r /\ rid r = a /\ live_record r = bt_text <$> find_block a blocks) \/
  ((forall r, planned_as r -> rid r <> a) /\ live_text s a = bt_text <$> find_block a blocks).
Proof.
  destruct (find_block a blocks) as [b|] eqn:Hf; cbn.
  - apply find_block_elem in Hf as [Hin Ha]. destruct (unchanged_block (previous (bt_alias b)) b) eqn:Hu.
    + right. split.
      * intros r [b' H1 H2 ->|d H1 H2 H3 H4 ->]; cbn; [|intros E; apply (H4 b Hin); congruence].
        intros E. assert (b' = b) as -> by (apply block_unique; [done..|congruence]). congruence.
      * unfold unchanged_block in Hu. unfold previous in Hu. destruct (bt_get (host_key (bt_alias b)) view) as [d|] eqn:Hd; [|done].
        cbn in Hu. apply andb_true_iff in Hu as [Hdel Hu]. apply negb_true_iff in Hdel. apply bool_decide_eq_true_1 in Hu.
        destruct (live_cached _ _ Hd Hdel) as (l & Hl & _ & _ & Hd2 & Hp). unfold live_text. rewrite <- Ha, Hl. cbn. unfold live_record.
        rewrite <- Hd2, Hdel. congruence.
    + left. exists (changed_record device_id changed_at (previous (bt_alias b)) b). split_and!; [by apply (PlannedChanged _ b)|done|].
      unfold live_record, host_text. cbn. by rewrite from_to_value.
  - assert (forall b, b ∈ blocks -> bt_alias b <> a) as Hno.
    { intros b Hin Ha. assert (find_block a blocks = Some b) as E by (by apply find_block_elem). congruence. }
    destruct (live_text s a) as [t|] eqn:Ht.
    + left. unfold live_text in Ht. destruct (bt_get (host_key a) (ss_records s)) as [l|] eqn:Hl; [|done]. cbn in Ht. unfold live_record in Ht.
      destruct (rdeleted (lrecord l)) eqn:Hdel; [done|]. destruct (cached_row _ _ Hl) as (d & Hd & (Hk2 & Hi & Hd2 & Hp) & _).
      destruct (so_records _ Hs _ _ Hl) as [Hkey _]. apply record_key_inj in Hkey as [Hk Ha].
      assert (rid (lrecord d) = a) as Hid by congruence.
      exists (removed_record device_id changed_at (lrecord d)). split_and!; [|done|done].
      apply (PlannedRemoved _ d); [by rewrite Hid|congruence|congruence|by rewrite Hid|done].
    + right. split; [|done]. intros r [b H1 H2 ->|d H1 H2 H3 H4 ->]; cbn; [by apply Hno|].
      intros <-. destruct (live_row _ _ H1 H2 H3) as (_ & t & Ht' & _). congruence.
Qed.

(** What is planned is newer than its row of the view. *)
Lemma planned_newer r d : (forall k d, bt_get k view = Some d -> below (rversion (lrecord d)) (rupdated_at_ms (lrecord d))) ->
  planned_as r -> bt_get (host_key (rid r)) view = Some d -> (rversion (lrecord d) < rversion r)%N /\ (rupdated_at_ms (lrecord d) < rupdated_at_ms r)%N.
Proof.
  intros Hbel Hr Hd. assert (previous (rid r) = Some (lrecord d)) as Hp by (unfold previous; by rewrite Hd).
  destruct (Hbel _ _ Hd) as [H1 H2].
  assert (forall now, (rupdated_at_ms (lrecord d) < next_timestamp now (Some (rupdated_at_ms (lrecord d))))%N) as Hn.
  { intros now. unfold next_timestamp, add1_u64. repeat case_match; repeat breflect1; lia. }
  assert (rversion (lrecord d) < add1_u64 (rversion (lrecord d)))%N as Hv2 by (unfold add1_u64; case_match; repeat breflect1; lia).
  destruct Hr as [b _ _ ->|d' Hd' _ _ _ ->]; cbn [changed_record removed_record rid rversion rupdated_at_ms] in *.
  - rewrite Hp. split; [exact Hv2|apply Hn].
  - rewrite Hd in Hd'. injection Hd' as <-. split; [exact Hv2|apply Hn].
Qed.
End Planned.

(** ** The section after planning *)

(** What planning leaves for an alias: the planned record, which still has to be sent and
    replaces every version that was known, or what was there. *)
Inductive planned_at (s s' : SpaceState) (rs : list Rec) (a : str) : Prop :=
| AtPlanned r seq : r ∈ rs -> rid r = a -> bt_get (host_key a) (ss_records s') = Some (mkLocal r seq true) ->
    bt_get a (ss_pending_approvals s') = None -> bt_get a (ss_declined s') = None -> planned_at s s' rs a
| AtKept : (forall r, r ∈ rs -> rid r <> a) -> bt_get (host_key a) (ss_records s') = bt_get (host_key a) (ss_records s) ->
    bt_get a (ss_pending_approvals s') = bt_get a (ss_pending_approvals s) -> bt_get a (ss_declined s') = bt_get a (ss_declined s) ->
    planned_at s s' rs a.

Lemma plan_records_at s rs a : (forall r, r ∈ rs -> rkind r = KHost) -> planned_at s (foldl plan_record s rs) rs a.
Proof.
  induction rs as [|r rs IH] using rev_ind; intros Hk; [by apply AtKept; [intros r ?%elem_of_nil|..]|].
  rewrite foldl_snoc. set (s1 := foldl plan_record s rs) in *.
  assert (rkind r = KHost) as Hr by (apply Hk, elem_of_app; right; by apply list_elem_of_singleton).
  destruct (decide (rid r = a)) as [Ha|Ha].
  { eapply (AtPlanned _ _ _ _ r); [apply elem_of_app; right; by apply list_elem_of_singleton|done| | |]; unfold plan_record; cbn.
    - rewrite Hr. fold (host_key (rid r)). rewrite Ha. apply bt_get_insert_eq.
    - by rewrite Ha, bt_get_remove_eq.
    - by rewrite Ha, bt_get_remove_eq. }
  destruct IH as [r' seq H1 H2 H3 H4 H5|H1 H2 H3 H4]; [by intros r' Hr'; apply Hk, elem_of_app; left| |].
  - apply (AtPlanned _ _ _ _ r' seq); [apply elem_of_app; by left|done| | |]; unfold plan_record; cbn.
    + rewrite Hr. fold (host_key (rid r)). rewrite bt_get_insert_ne; [done|]. by intros ?%host_key_inj.
    + by rewrite bt_get_remove_ne.
    + by rewrite bt_get_remove_ne.
  - apply AtKept; [|unfold plan_record; cbn..].
    + intros r'. rewrite elem_of_app, list_elem_of_singleton. intros [?| ->]; [by apply H1|done].
    + rewrite Hr. fold (host_key (rid r)). rewrite bt_get_insert_ne; [done|]. by intros ?%host_key_inj.
    + by rewrite bt_get_remove_ne.
    + by rewrite bt_get_remove_ne.
Qed.

Lemma plan_records_ok rs : forall s, section_ok s ->
  (forall r, r ∈ rs -> record_ok (record_key (rkind r) (rid r)) r) -> section_ok (foldl plan_record s rs).
Proof.
  induction rs as [|r rs IH]; intros s Hs Hr; [done|]. cbn. apply IH; [|by intros r' ?; apply Hr; apply elem_of_cons; right].
  apply section_ok_insert; [done| |by apply pending_removed]. apply Hr, elem_of_cons. by left.
Qed.

(** A record that wins against everything a section knows of its host. *)
Record outdates (s : SpaceState) (r : Rec) : Prop := {
  od_cached l : bt_get (host_key (rid r)) (ss_records s) = Some l -> (rversion (lrecord l) < rversion r)%N /\ remote_wins r (lrecord l) = true;
  od_pending p : bt_get (rid r) (ss_pending_approvals s) = Some p -> (rversion (pa_record p) < rversion r)%N /\ remote_wins r (pa_record p) = true;
  od_declined d : bt_get (rid r) (ss_declined s) = Some d -> (dv_version d < rversion r)%N /\ (dv_updated_at_ms d < rupdated_at_ms r)%N
}.

Lemma later_wins r r' : (rupdated_at_ms r' < rupdated_at_ms r)%N -> remote_wins r r' = true.
Proof. intros H. unfold remote_wins. by rewrite (proj2 (N.compare_gt_iff _ _) H). Qed.

Lemma known_remote_pending s a p : bt_get a (ss_pending_approvals s) = Some p ->
  exists kn, known_remote s a = Some kn /\ (rversion (pa_record p) <= dv_version kn)%N /\ (rupdated_at_ms (pa_record p) <= dv_updated_at_ms kn)%N.
Proof. intros H. unfold known_remote. rewrite H. cbn. destruct (bt_get a (ss_declined s)); eexists; (split; [done|]; cbn; lia). Qed.
Lemma known_remote_declined s a d : bt_get a (ss_declined s) = Some d ->
  exists kn, known_remote s a = Some kn /\ (dv_version d <= dv_version kn)%N /\ (dv_updated_at_ms d <= dv_updated_at_ms kn)%N.
Proof. intros H. unfold known_remote. rewrite H. destruct (bt_get a (ss_pending_approvals s)); eexists; (split; [done|]; cbn; lia). Qed.

Lemma planned_outdates s view sn blocks device_id changed_at r : view_ok s sn view -> (forall a kn, known_remote s a = Some kn -> a ∈ sn) ->
  stamps_below s -> planned_as view blocks device_id changed_at r -> outdates s r.
Proof.
  intros Hv Hsn Hb Hr. pose proof (planned_newer view blocks device_id changed_at r) as Hn.
  assert (forall d, bt_get (host_key (rid r)) view = Some d -> (rversion (lrecord d) < rversion r)%N /\ (rupdated_at_ms (lrecord d) < rupdated_at_ms r)%N) as Hd.
  { intros d Hd. apply Hn; [|done|done]. by apply (vo_below _ _ _ Hv). }
  assert (forall kn, known_remote s (rid r) = Some kn -> (dv_version kn < rversion r)%N /\ (dv_updated_at_ms kn < rupdated_at_ms r)%N) as Hkn.
  { intros kn Hk. destruct (vo_known _ _ _ Hv (rid r) (Hsn _ _ Hk) _ Hk) as (d & Hg & ? & ?). destruct (Hd _ Hg). lia. }
  split.
  - intros l Hl. destruct (cached_row s view sn Hv _ _ Hl) as (d & Hg & _ & ? & ?). destruct (Hd _ Hg). split; [lia|]. apply later_wins. lia.
  - intros p Hp. destruct (known_remote_pending _ _ _ Hp) as (kn & Hk & ? & ?). destruct (Hkn _ Hk). split; [lia|]. apply later_wins. lia.
  - intros d Hp. destruct (known_remote_declined _ _ _ Hp) as (kn & Hk & ? & ?). destruct (Hkn _ Hk). lia.
Qed.

Lemma managed_aliases items : managed items -> bt_alias <$> blocks_of items = omap first_alias items.
Proof.
  intros [Hn _ _]. induction items as [|i items IH]; [done|]. rewrite blocks_omap in *. cbn.
  assert (bt_alias <$> omap item_block items = omap first_alias items) as <-.
  { apply IH. intros h ?. apply Hn. apply elem_of_cons. by right. }
  destruct i as [| | |h|]; try done. cbn. assert (is_syncable_block (patterns h) = true) as Hh by (apply Hn, elem_of_cons; by left).
  rewrite Hh. by destruct (head (patterns h)).
Qed.

(** Planning, all together. *)
Lemma plan_hosts_spec s items device_id changed_at : section_ok s -> managed items ->
  let blocks := blocks_of items in
  let s' := (plan_hosts s blocks device_id changed_at).1 in
  section_ok s' /\ in_step s' items /\
  exists rs, (plan_hosts s blocks device_id changed_at).2 = length rs /\ (stamps_below s -> Forall (outdates s) rs) /\
    Forall (fun r => rdevice_id r = device_id) rs /\ forall a, planned_at s s' rs a.
Proof.
  intros Hs Hm blocks s'. destruct (plan_view_ok s Hs) as (sn & Hv & Hsn). subst s'. unfold plan_hosts. cbv zeta. cbn [fst snd].
  set (rs := detect_local_changes (plan_view s) blocks device_id changed_at).
  assert (NoDup (bt_alias <$> blocks)) as Hnd by (unfold blocks; rewrite managed_aliases by done; apply Hm).
  pose proof (planned_elem s (plan_view s) sn Hs Hv blocks device_id changed_at) as Hel. fold rs in Hel.
  assert (forall r, r ∈ rs -> rkind r = KHost) as Hk by (intros r Hr; by apply Hel, planned_kind in Hr).
  assert (forall a, planned_at s (foldl plan_record s rs) rs a) as Hat by (intros a; by apply plan_records_at).
  split; [|split; [|exists rs; split_and!; [done|intros Hb| |done]]].
  - apply plan_records_ok; [done|]. intros r Hr. split; [done|]. intros _ Hl. apply Hel in Hr. destruct Hr as [b _ _ ->|d _ _ _ _ ->]; [|done].
    unfold host_text. cbn. by rewrite from_to_value.
  - intros x t. transitivity (find_block x blocks = Some (mkBlockText x t)); [rewrite find_block_elem by done; naive_solver|].
    transitivity ((bt_text <$> find_block x blocks) = Some t).
    { split; [by intros ->|]. destruct (find_block x blocks) as [[x' t']|] eqn:E; [|done]. intros [= ->].
      apply find_block_elem in E as [_ <-]; done. }
    destruct (planned_text s (plan_view s) sn Hs Hv blocks device_id changed_at Hnd x) as [(r & Hr & Hx & <-)|[Hno <-]].
    + apply Hel in Hr. destruct (Hat x) as [r' seq H1 H2 H3 _ _|H1 _ _ _]; [|by destruct (H1 r)].
      unfold live_text. rewrite H3. cbn. assert (r' = r) as ->; [|done].
      apply (planned_unique (plan_view s) blocks device_id changed_at Hnd); [by apply Hel..|congruence].
    + destruct (Hat x) as [r' seq H1 H2 _ _ _|_ H2 _ _]; [by apply Hel, Hno in H1|]. unfold live_text. by rewrite H2.
  - apply Forall_forall. intros r Hr. apply Hel in Hr. by eapply planned_outdates.
  - apply Forall_forall. intros r Hr. apply Hel in Hr. by destruct Hr as [b _ _ ->|d _ _ _ _ ->].
Qed.

(** A file in step leaves nothing to plan. *)
Lemma plan_nothing s items device_id changed_at : section_ok s -> in_step s items ->
  plan_hosts s (blocks_of items) device_id changed_at = (s, 0).
Proof.
  intros Hs Hi. destruct (plan_view_ok s Hs) as (sn & Hv & _). unfold plan_hosts. cbv zeta.
  assert (detect_local_changes (plan_view s) (blocks_of items) device_id changed_at = []) as ->; [|done].
  destruct (detect_local_changes _ _ _ _) as [|r rs] eqn:E; [done|exfalso].
  assert (r ∈ detect_local_changes (plan_view s) (blocks_of items) device_id changed_at) as Hr by (rewrite E; apply elem_of_cons; by left).
  apply (planned_elem s (plan_view s) sn Hs Hv) in Hr. destruct Hr as [b Hb Hu _|d Hd Hk Hl Hno _].
  - destruct b as [x t]. apply Hi in Hb. cbn in Hu. unfold live_text in Hb. destruct (bt_get (host_key x) (ss_records s)) as [l|] eqn:Hl; [|done].
    cbn in Hb. destruct (cached_row s _ sn Hv _ _ Hl) as (d & Hd & (_ & _ & Hd2 & Hp) & _). unfold unchanged_block, previous in Hu. rewrite Hd in Hu. cbn in Hu.
    unfold live_record in Hb. destruct (rdeleted (lrecord l)); [done|]. rewrite Hd2, Hp, Hb, bool_decide_eq_true_2 in Hu; done.
  - destruct (live_row s _ sn Hs Hv _ _ Hd Hk Hl) as (_ & t & Ht & _). apply Hi, Hno in Ht. done.
Qed.
End Plan.
