(* ===== verification/HostRoundProps.v ===== *)
(** * HostRoundProps: rounds, decisions and rebuilt files of a space

    The properties of whole operations on a space and its file: a round, the merge
    of a pull, the user's decisions, and a file that is rebuilt; and what
    holds for every space that is reached by them in any order. *)

From S2P Require Import Prelude Text BTreeMap Json SyncRecord Crypto Relay RecordMerge ConfigParser HostText HostTextProps HostSync HostFileProps HostSyncProps HostPlanProps.

Section Rounds.
Context {U : Unicode} {C : CharTables} {Y : CryptoLib} {S : Serde HostPayload}
  (json_from_slice : list N -> option Rec) (device_id : str).

(** ** A round *)

Lemma unpushed_valid section blocks : Forall effect_valid (unpushed_host_effects section blocks).
Proof.
  apply Forall_forall. intros e He. unfold unpushed_host_effects in He. cbv zeta in He. apply list_elem_of_omap in He as (l & _ & H).
  destruct (_ && negb _); [|done]. destruct (host_text _) as [t|]; [|done]. cbn in H.
  destruct (is_ok (validate_host_text (rid (lrecord l)) t)) eqn:E; [|done]. injection H as <-. cbn.
  by destruct (validate_host_text _ _) as [[]|].
Qed.

(** A merge never produces an effect that did not pass its checks. *)
Lemma merge_effects_valid section keys pulled applied device_name :
  Forall effect_valid (sm_effects (merge_space json_from_slice section keys pulled applied device_name)).
Proof.
  apply (merge_space_inv _ (fun m => Forall effect_valid (sm_effects m))); [constructor| |done|done].
  intros m e Hm. destruct (merge_envelope_as json_from_slice keys applied device_name m e) as [_ ->| ? ? _ ? _ ->|? _ ? ->];
    [done|apply Forall_app; by repeat constructor..].
Qed.

Lemma with_committed_ok s : section_ok s -> section_ok (with_committed s).
Proof. by intros []. Qed.

(** The effects a round applies. *)
Definition round_effects (keys : ChainKeys) (device_name : str -> str) (pulled : PullResponse) (section : SpaceState) (blocks : list HostBlockText)
  : list HostEffect :=
  let m := merge_space json_from_slice section keys pulled blocks device_name in
  sm_effects m ++ (if ss_baseline_established section then [] else unpushed_host_effects (sm_section m) blocks).

Lemma commit_space_Ok keys device_name pulled section blocks items : managed items ->
  exists items' c, apply_effects_to_items items (round_effects keys device_name pulled section blocks) = (items', c, []) /\ managed items' /\
    commit_space json_from_slice keys device_name pulled section blocks items =
      Ok (with_committed (sm_section (merge_space json_from_slice section keys pulled blocks device_name)), items').
Proof.
  intros Hm. unfold round_effects. cbv zeta.
  destruct (effects_managed (round_effects keys device_name pulled section blocks) items Hm) as (items' & c & He & Hm').
  { apply Forall_app. split; [apply merge_effects_valid|]. destruct (ss_baseline_established section); [constructor|apply unpushed_valid]. }
  exists items', c. split_and!; [done|done|]. unfold commit_space, round_effects in *. cbv zeta in *. by rewrite He.
Qed.


(** ** What is applied without a question *)

(** C28.  What a merge applies came in the pull, passed its checks, is a single block that
    OpenSSH reads alike, and has no gated setting, or exactly the gated settings of the
    block that is in the file, in the same order and for the same patterns. *)
Theorem merge_applies_nothing_unapproved keys applied device_name section pulled alias text :
  Upsert alias text ∈ sm_effects (merge_space json_from_slice section keys pulled applied device_name) ->
  validate_host_text alias text = Ok tt /\ is_single_host_block text = true /\
  (as_gated (signature text) = [] \/
   exists b, find_block alias applied = Some b /\ signature text = signature (bt_text b)).
Proof.
  intros H. assert (Forall (fun e => match e with
      | Upsert a t => validate_host_text a t = Ok tt /\ needs_approval t (bt_text <$> find_block a applied) = false
      | DeleteHost _ => True end) (sm_effects (merge_space json_from_slice section keys pulled applied device_name))) as Hf.
  { apply (merge_space_inv _ (fun m => Forall _ (sm_effects m))); [constructor| |done|done].
    intros m e Hm. destruct (merge_envelope_as json_from_slice keys applied device_name m e) as [_ ->| ? ? _ ? ? ->|? _ ? ->];
      [done|apply Forall_app; by repeat constructor..]. }
  rewrite Forall_forall in Hf. specialize (Hf _ H). cbn in Hf. destruct Hf as [Hv Hn].
  destruct (not_asked_same _ _ Hn) as [H1 [H2|(old & H2 & H3)]]; split_and!; try done; [by left|right].
  destruct (find_block alias applied) as [b|]; [|done]. injection H2 as <-. by exists b.
Qed.

(** An edit that was not sent yet: it is there to be sent, or reported. *)
Definition unsent (r : Rec) (k : str) (s : SpaceState) : Prop :=
  exists l, bt_get k (ss_records s) = Some l /\ lrecord l = r /\ ldirty l = true /\ bs_contains k (ss_republish s) = false.

Lemma bs_contains_remove k k2 (b : bset) : bs_contains k2 b = false -> bs_contains k2 (bt_remove k b) = false.
Proof. unfold bs_contains, bt_contains_key. rewrite bt_get_remove. by case_decide. Qed.

Lemma sm_conflict_keeps lost a x m : x ∈ sm_conflicts m -> x ∈ sm_conflicts (sm_conflict lost a m).
Proof. intros H. unfold sm_conflict. destruct lost; [|done]. cbn. apply elem_of_app. by left. Qed.

Definition kept_or_reported (r : Rec) (a : str) (m : SpaceMerged) : Prop := unsent r (host_key a) (sm_section m) \/ a ∈ sm_conflicts m.

(** Another row. *)
Lemma unsent_other r a k s rows p d : unsent r (host_key a) s -> host_key a <> k -> bt_get (host_key a) rows = bt_get (host_key a) (ss_records s) ->
  unsent r (host_key a) (with_rows rows p d (bt_remove k (ss_republish s)) s).
Proof. intros (l & H1 & H2 & H3 & H4) Hn Hr. exists l. cbn [with_rows ss_records ss_republish]. split_and!; [by rewrite Hr|done|done|by apply bs_contains_remove]. Qed.

Lemma merge_envelope_kept r a keys applied device_name m e : kept_or_reported r a m ->
  kept_or_reported r a (merge_envelope json_from_slice keys applied device_name m e).
Proof.
  intros Hm. unfold merge_envelope. destruct (decode _ keys e) as [r2|]; [|done]. destruct (_ && _); [|done]. cbv zeta.
  destruct (merge (bt_get (host_key (rid r2)) (ss_records (sm_section m))) r2 =?= KeepLocal) eqn:Hk.
  { destruct Hm as [(l & H1 & H2 & H3 & H4)|Hm]; [left|by right]. unfold unsent. cbn [sm_with sm_section with_records with_rows ss_records ss_republish]. rewrite bt_get_update, H1.
    destruct (decide (host_key (rid r2) = host_key a)); (eexists; split; [reflexivity|]; by split_and!). }
  apply bool_decide_eq_false_1 in Hk.
  destruct (decide (rid r2 = a)) as [Ha|Ha].
  - (* the row of this alias *)
    destruct Hm as [(l & H1 & H2 & H3 & H4)|Hm].
    + rewrite Ha in *. assert (merge (bt_get (host_key a) (ss_records (sm_section m))) r2 = RemoteWinsOverDirtyLocal) as E.
      { rewrite H1 in *. cbn in *. rewrite H3 in *. by destruct (negb _). }
      rewrite E, H4, bool_decide_eq_true_2 by done. cbn [andb negb].
      assert (a ∈ sm_conflicts m ++ [a]) as Hin by (apply elem_of_app; right; by apply list_elem_of_singleton).
      destruct (rdeleted r2); [by right|]. destruct (from_value (rpayload r2)) as [p|]; [|left; by exists l].
      destruct (is_ok _); [|left; by exists l]. unfold merge_text. cbv zeta. destruct (needs_approval _ _); by right.
    + right. destruct (rdeleted r2); [by apply sm_conflict_keeps|]. destruct (from_value (rpayload r2)) as [p|]; [|done].
      destruct (is_ok _); [|done]. destruct (negb _ && _); [done|]. unfold merge_text. cbv zeta. destruct (needs_approval _ _); by apply sm_conflict_keeps.
  - assert (host_key a <> host_key (rid r2)) as Hn by (intros ?%host_key_inj; congruence).
    destruct Hm as [Hm|Hm].
    + left. destruct (rdeleted r2); [apply unsent_other; [done..|]; by rewrite bt_get_insert_ne|]. destruct (from_value (rpayload r2)) as [p|]; [|done].
      destruct (is_ok _); [|done]. destruct (negb _ && _); [apply unsent_other; [done..|]; rewrite bt_get_update; by rewrite decide_False|].
      unfold merge_text. cbv zeta. destruct (needs_approval _ _); (apply unsent_other; [done..|]).
      * rewrite bt_get_update. by rewrite decide_False.
      * by rewrite bt_get_insert_ne.
    + right. destruct (rdeleted r2); [by apply sm_conflict_keeps|]. destruct (from_value (rpayload r2)) as [p|]; [|done].
      destruct (is_ok _); [|done]. destruct (negb _ && _); [done|]. unfold merge_text. cbv zeta. destruct (needs_approval _ _); by apply sm_conflict_keeps.
Qed.

Lemma bs_insert_all ks : forall (b : bset) k, k ∉ ks -> bs_contains k b = false -> bs_contains k (foldl (fun b k => bs_insert k b) b ks) = false.
Proof.
  induction ks as [|k0 ks IH]; intros b k Hk Hb; [done|]. cbn. rewrite not_elem_of_cons in Hk. destruct Hk as [Hk1 Hk2].
  apply IH; [done|]. rewrite bs_contains_insert, Hb, bool_decide_eq_false_2 by congruence. done.
Qed.

(** C31.  An edit that was not sent yet is never lost silently: after a merge it still waits to
    be sent, or its host is reported as a conflict, also when the relay's history went back and
    everything is sent again. *)
Theorem merge_loses_no_edit r a section keys pulled applied device_name : section_ok section -> unsent r (host_key a) section ->
  let m := merge_space json_from_slice section keys pulled applied device_name in
  unsent r (host_key a) (sm_section m) \/ a ∈ sm_conflicts m.
Proof.
  intros Hs Hu m. assert (section_ok (sm_section m) /\ kept_or_reported r a m) as [_ ?]; [|done]. subst m.
  apply (merge_space_inv _ (fun m => section_ok (sm_section m) /\ kept_or_reported r a m)).
  - split; [done|by left].
  - intros m e [H1 H2]. split; [by apply merge_envelope_ok|by apply merge_envelope_kept].
  - intros m [H1 [(l & H2 & H3 & H4 & H5)|H2]]; (split; [by apply resend_all_ok|]); [left|by right].
    exists (mkLocal (lrecord l) 0 true). unfold resend_all. cbn [sm_with sm_section with_cursor with_rows ss_records ss_republish].
    split_and!; [by rewrite bt_get_map, H2|done|done|]. apply bs_insert_all; [|done].
    intros ([k l'] & Hin & Hk)%list_elem_of_omap. cbn in Hk. destruct (ldirty l') eqn:Hd; [done|]. injection Hk as ->.
    apply bt_ok_get in Hin; [|apply H1]. assert (Some l = Some l') as E by (rewrite <- H2; exact Hin). congruence.
  - intros m c [H1 [(l & H2)|H2]]; (split; [by destruct H1|]); [left; by exists l|by right].
Qed.

(** ** Planning against what is known *)

(** Planning makes the records say what the file says, and what it plans wins: each
    planned record is newer, by version and by time, than the cached one, than one that waits
    for approval and than one that was declined, whatever the clock shows; those are dropped. What
    is not planned keeps its record and its open decisions. *)
Lemma planning_wins s items changed_at : section_ok s -> check_managed_items items = Ok tt -> stamps_below s ->
  let s' := (plan_hosts s (blocks_of items) device_id changed_at).1 in
  section_ok s' /\ in_step s' items /\
  exists rs, (plan_hosts s (blocks_of items) device_id changed_at).2 = length rs /\
    Forall (fun r => outdates s r /\ rdevice_id r = device_id) rs /\ forall a, planned_at s s' rs a.
Proof.
  intros Hs Hc%managed_check Hb. destruct (plan_hosts_spec s items device_id changed_at Hs Hc) as (H1 & H2 & rs & H3 & H4 & H5 & H6).
  cbv zeta. split_and!; [done|done|]. exists rs. split_and!; [done| |done]. apply Forall_and. split; [by apply H4|done].
Qed.

(** ** A file that is rebuilt *)

(** A live host that has to come back to the file from the records. *)
Definition owed (s : SpaceState) (a : str) : Prop :=
  (exists l, bt_get (host_key a) (ss_records s) = Some l /\ ldirty l = true) \/
  is_Some (bt_get a (ss_pending_approvals s)) \/ is_Some (bt_get a (ss_declined s)).

(** An envelope leaves a host owed, or has an effect on it. *)
Lemma merge_envelope_owed keys applied device_name m e a : owed (sm_section m) a ->
  let m' := merge_envelope json_from_slice keys applied device_name m e in
  owed (sm_section m') a \/ exists f, sm_effects m' = sm_effects m ++ [f] /\ effect_alias f = a.
Proof.
  intros Ho. unfold merge_envelope. cbv zeta. destruct (decode _ keys e) as [r2|]; [|by left]. destruct (_ && _); [|by left].
  destruct (merge _ r2 =?= KeepLocal).
  { left. destruct Ho as [(l & H1 & H2)|Ho]; [left|by right]. cbn [sm_with sm_section with_records with_rows ss_records]. rewrite bt_get_update, H1.
    destruct (decide (host_key (rid r2) = host_key a)); (eexists; split; [reflexivity|done]). }
  set (lost := _ && _).
  assert (forall m2, sm_effects (sm_conflict lost (rid r2) m2) = sm_effects m2) as Hce by (intros m2; unfold sm_conflict; by destruct lost).
  destruct (rdeleted r2).
  { destruct (decide (rid r2 = a)) as [Ha|Ha]; [right; exists (DeleteHost (rid r2)); split; [|done]; unfold merge_deleted; cbn; by rewrite Hce|].
    left. assert (host_key a <> host_key (rid r2)) as Hn by (intros ?%host_key_inj; congruence).
    unfold owed, merge_deleted. cbn [sm_with sm_section with_rows ss_records ss_pending_approvals ss_declined].
    rewrite bt_get_insert_ne, !bt_get_remove_ne by done. exact Ho. }
  destruct (from_value (rpayload r2)) as [p|]; [|by left]. destruct (is_ok _); [|by left].
  destruct (negb lost && seen_again _ _ _) eqn:Hseen.
  { left. apply andb_true_iff in Hseen as [_ Hseen]. unfold owed, note_seen. cbn [sm_with sm_section with_rows ss_records ss_pending_approvals ss_declined].
    rewrite !bt_get_update. destruct (decide (rid r2 = a)) as [Ha|Hn].
    - right. unfold seen_again in Hseen. rewrite Ha in Hseen. apply orb_true_iff in Hseen as [H|H]; [right|left]; destruct (bt_get a _); done.
    - rewrite !decide_False by (done || (intros ?%host_key_inj; congruence)). exact Ho. }
  unfold merge_text. cbv zeta. destruct (needs_approval _ _).
  - left. unfold owed. cbn [sm_hold sm_with sm_section with_rows ss_records ss_pending_approvals ss_declined].
    destruct (decide (rid r2 = a)) as [->|Hn]; [right; left; by rewrite bt_get_insert_eq|].
    rewrite bt_get_update, decide_False, bt_get_insert_ne, bt_get_remove_ne by (done || (intros ?%host_key_inj; congruence)). exact Ho.
  - destruct (decide (rid r2 = a)) as [Ha|Ha]; [right; exists (Upsert (rid r2) (hx_text p)); split; [cbn; by rewrite Hce|done]|].
    left. unfold owed. cbn [sm_effect sm_with sm_section with_rows ss_records ss_pending_approvals ss_declined].
    rewrite bt_get_insert_ne, !bt_get_remove_ne by (done || (intros ?%host_key_inj; congruence)). exact Ho.
Qed.

(** A file that is being rebuilt: it holds live records only, and those that are missing are owed. *)
Definition rebuilt (s : SpaceState) (items : list Item) : Prop :=
  (forall x t, mkBlockText x t ∈ blocks_of items -> live_text s x = Some t) /\
  (forall x t, live_text s x = Some t -> mkBlockText x t ∈ blocks_of items \/ owed s x).
Record rebuilding (items : list Item) (m : SpaceMerged) : Prop := {
  rb_live x t : live_text (sm_section m) x = Some t -> validate_host_text x t = Ok tt;
  rb_applied : exists items' c, apply_effects_to_items items (sm_effects m) = (items', c, []) /\ managed items' /\
    (Forall effect_terminated (sm_effects m) -> rebuilt (sm_section m) items')
}.

Lemma rebuilding_same items m m' : rebuilding items m -> sm_effects m' = sm_effects m ->
  (forall a, live_text (sm_section m') a = live_text (sm_section m) a) -> (forall a, owed (sm_section m) a -> owed (sm_section m') a) ->
  rebuilding items m'.
Proof.
  intros [H1 (i & c & H2 & H3 & H4)] He Ht Ho. split; [intros x t; rewrite Ht; apply H1|]. exists i, c. rewrite He. split_and!; [done|done|].
  intros Hf. destruct (H4 Hf) as [H5 H6]. split; intros x t; rewrite Ht; [apply H5|]. intros Hx. destruct (H6 x t Hx); [by left|right; by apply Ho].
Qed.
Lemma rebuilding_snoc items m m' e : rebuilding items m -> effect_valid e -> sm_effects m' = sm_effects m ++ [e] ->
  (forall a, live_text (sm_section m') a = if decide (a = effect_alias e) then match e with Upsert _ t => Some t | _ => None end else live_text (sm_section m) a) ->
  (forall a, a <> effect_alias e -> owed (sm_section m) a -> owed (sm_section m') a) -> rebuilding items m'.
Proof.
  intros [H1 (i & c & H2 & H3 & H4)] Hv He Ht Ho. split.
  { intros x t. rewrite Ht. destruct (decide _) as [->|]; [|apply H1]. destruct e; [|done]. by intros [= <-]. }
  destruct (effect_managed i e H3 Hv) as (i2 & c2 & Hi2 & Hm2 & Hu). exists i2, (c || c2).
  rewrite He, (apply_effects_app _ _ _ _ _ H2), Hi2. split_and!; [done|done|]. intros [Hf Hf2%Forall_inv]%Forall_app.
  destruct (H4 Hf) as [H5 H6].
  assert (match e with Upsert _ t => Some t | _ => None end = effect_text e) as Het.
  { destruct e as [a t|a]; [|done]. change (ends_with [10%N] t = true) in Hf2. cbn. unfold terminated. by rewrite Hf2. }
  rewrite Het in Ht. split; intros x t; rewrite Ht; pose proof (Hu x t) as Hx; destruct (decide (x = effect_alias e)) as [->|Hn].
  - naive_solver.
  - specialize (H5 x t). naive_solver.
  - intros E. left. apply Hx. by left.
  - intros E. destruct (H6 x t E); [left; apply Hx; by right|right; by apply Ho].
Qed.

Lemma snoc_ne {A} (l : list A) x : l <> l ++ [x].
Proof. intros H. apply (f_equal length) in H. rewrite length_app in H. cbn in H. lia. Qed.

Lemma merge_envelope_rebuilding items keys applied device_name m e : rebuilding items m ->
  rebuilding items (merge_envelope json_from_slice keys applied device_name m e).
Proof.
  intros Hm. pose proof (fun a => merge_envelope_owed keys applied device_name m e a) as Ho. cbv zeta in Ho.
  destruct (merge_envelope_as json_from_slice keys applied device_name m e) as [Ht He|alias text Ht Hv _ He|alias Ht Ha He].
  - apply (rebuilding_same _ m); [done..|]. intros a Hoa. destruct (Ho a Hoa) as [|(f & Hf & _)]; [done|]. rewrite He in Hf. by apply snoc_ne in Hf.
  - apply (rebuilding_snoc _ m _ (Upsert alias text)); [done..|]. intros a Hne Hoa. destruct (Ho a Hoa) as [|(f & Hf & Hfa)]; [done|].
    rewrite He in Hf. apply app_inv_head in Hf. injection Hf as <-. done.
  - apply (rebuilding_snoc _ m _ (DeleteHost alias)); [done..|]. intros a Hne Hoa. destruct (Ho a Hoa) as [|(f & Hf & Hfa)]; [done|].
    rewrite He in Hf. apply app_inv_head in Hf. injection Hf as <-. done.
Qed.

Lemma resend_all_owed s a : owed s a -> owed (resend_all s) a.
Proof.
  unfold owed, resend_all. cbn [with_cursor with_rows ss_records ss_pending_approvals ss_declined]. rewrite !bt_get_map.
  intros [(l & H1 & H2)|[H|H]].
  - left. rewrite H1. by eexists.
  - right; left. by destruct (bt_get _ _).
  - right; right. by destruct (bt_get _ _).
Qed.

Lemma merge_space_rebuilding items section keys pulled applied device_name : managed items -> rebuilt section items ->
  (forall x t, live_text section x = Some t -> validate_host_text x t = Ok tt) ->
  rebuilding items (merge_space json_from_slice section keys pulled applied device_name).
Proof.
  intros Hm Hr Hl. apply merge_space_inv.
  - split; [done|]. by exists items, false.
  - intros m e. apply merge_envelope_rebuilding.
  - intros m H. apply (rebuilding_same _ _ _ H); [done| |]; intros a; [apply resend_all_live|apply resend_all_owed].
  - intros m c H. by apply (rebuilding_same _ _ _ H).
Qed.

(** What is written back are the live records that are owed. *)
Lemma unpushed_elem s e : section_ok s -> (forall x t, live_text s x = Some t -> validate_host_text x t = Ok tt) ->
  e ∈ unpushed_host_effects s [] <-> exists x t, e = Upsert x t /\ live_text s x = Some t /\ owed s x.
Proof.
  intros Hs Hl. unfold unpushed_host_effects. cbv zeta. rewrite list_elem_of_omap. unfold bt_values. setoid_rewrite list_elem_of_fmap. split.
  - intros (l & ([k l2] & -> & Hin) & H). cbn [snd] in *. apply bt_ok_get in Hin; [|apply Hs].
    destruct (rkind (lrecord l2) =?= KHost) eqn:Hk; [|done]. apply bool_decide_eq_true_1 in Hk. destruct (rdeleted (lrecord l2)) eqn:Hd; [done|].
    destruct (ldirty l2 || _) eqn:Ho; [|done]. cbn in H. destruct (host_text _) as [t|] eqn:Ht; [|done]. cbn in H. destruct (is_ok _); [|done].
    injection H as <-. destruct (so_records _ Hs _ _ Hin) as [Hkey _]. rewrite Hk in Hkey. fold (host_key (rid (lrecord l2))) in Hkey. subst k.
    do 2 eexists. split; [done|]. split; [unfold live_text, live_record; rewrite Hin; cbn; by rewrite Hd|].
    unfold bt_contains_key in Ho. unfold owed. destruct (ldirty l2) eqn:Hdirty; [left; by exists l2|right].
    destruct (bt_get (rid (lrecord l2)) (ss_pending_approvals s)) as [y|]; [left; by exists y|right].
    destruct (bt_get (rid (lrecord l2)) (ss_declined s)) as [y|]; [by exists y|discriminate Ho].
  - intros (x & t & -> & Ht & Ho). pose proof (Hl _ _ Ht) as Hv. unfold live_text in Ht. destruct (bt_get (host_key x) (ss_records s)) as [l|] eqn:Hg; [|done].
    cbn in Ht. unfold live_record in Ht. destruct (rdeleted (lrecord l)) eqn:Hd; [done|].
    destruct (so_records _ Hs _ _ Hg) as [Hkey _]. apply record_key_inj in Hkey as [Hk Hi]. exists l. split.
    + exists (host_key x, l). split; [done|]. by apply bt_get_elem.
    + rewrite <- Hk, Hd, <- Hi. cbn [negb andb]. rewrite bool_decide_eq_true_2 by done. cbn [andb existsb negb]. rewrite andb_true_r.
      assert (ldirty l || (bt_contains_key x (ss_pending_approvals s) || bt_contains_key x (ss_declined s)) = true) as ->.
      { destruct Ho as [(l2 & H1 & H2)|[H|H]]; [rewrite Hg in H1; injection H1 as <-; by rewrite H2|..]; unfold bt_contains_key, is_some; destruct H as [y ->]; by rewrite ?orb_true_r. }
      rewrite Ht. cbn. by rewrite Hv.
Qed.

Lemma apply_live_effects s es : forall items, managed items -> (forall x t, mkBlockText x t ∈ blocks_of items -> live_text s x = Some t) ->
  Forall effect_terminated es -> Forall effect_valid es -> (forall e, e ∈ es -> exists x t, e = Upsert x t /\ live_text s x = Some t) ->
  exists items' c, apply_effects_to_items items es = (items', c, []) /\ managed items' /\
    (forall x t, mkBlockText x t ∈ blocks_of items' <-> mkBlockText x t ∈ blocks_of items \/ Upsert x t ∈ es).
Proof.
  induction es as [|e es IH]; intros items Hm Hb Ht Hv He.
  { exists items, false. split_and!; [done|done|]. intros x t. rewrite elem_of_nil. naive_solver. }
  apply Forall_cons in Ht as [Ht1 Ht], Hv as [Hv1 Hv]. destruct (He e) as (a & ta & -> & Ha); [apply elem_of_cons; by left|].
  destruct (effect_managed items (Upsert a ta) Hm Hv1) as (i1 & c1 & H1 & Hm1 & Hu). cbn [effect_alias effect_text] in Hu.
  change (ends_with [10%N] ta = true) in Ht1. unfold terminated in Hu. rewrite Ht1 in Hu.
  destruct (IH i1 Hm1) as (i2 & c2 & H2 & Hm2 & Hb2); [|done|done|by intros e ?; apply He, elem_of_cons; right|].
  { intros x t Hx. pose proof (Hu x t) as E. specialize (Hb x t). naive_solver. }
  exists i2, (c1 || c2). split; [change (Upsert a ta :: es) with ([Upsert a ta] ++ es); by rewrite (apply_effects_app _ _ _ _ _ H1), H2|].
  split; [done|]. intros x t. rewrite (Hb2 x t), elem_of_cons. pose proof (Hu x t) as E. split.
  - intros [Hx|?]; [|by right; right]. apply E in Hx as [[-> [= <-]]|[_ ?]]; [by right; left|by left].
  - intros [Hx|[[= -> ->]|?]]; [|left; apply E; by left|by right]. left. apply E. destruct (decide (x = a)) as [->|Hn]; [left|by right].
    split; [done|]. apply Hb in Hx. congruence.
Qed.

Lemma bt_get_filter {V} (f : V -> bool) k (m : btree V) : bt_ok m ->
  bt_get k (List.filter (fun e => f e.2) m) = opt_filter f (bt_get k m).
Proof.
  unfold bt_ok. induction 1 as [|[k' v] m Hm IH Hall]; [done|]. cbn [List.filter bt_get snd fst].
  destruct (f v) eqn:Hf; cbn [bt_get fst snd]; destruct (k =?= k') eqn:Hk; try done; cbn; rewrite ?Hf; try done.
  apply bool_decide_eq_true_1 in Hk as ->. rewrite IH. destruct (bt_get k' m) as [v'|] eqn:E; [exfalso|done].
  apply bt_get_elem in E. rewrite Forall_forall in Hall. apply Hall in E. unfold key_lt in E. cbn in E. by rewrite str_ltb_irrefl in E.
Qed.
Lemma bt_ok_filter {V} (f : str * V -> bool) (m : btree V) : bt_ok m -> bt_ok (List.filter f m).
Proof.
  unfold bt_ok. induction 1 as [|e m Hm IH Hall]; cbn; [constructor|]. destruct (f e); [|done]. constructor; [done|].
  rewrite Forall_forall in Hall |- *. intros e' He. apply Hall. apply list_elem_of_In, filter_In in He as [He _]. by apply list_elem_of_In.
Qed.

Lemma keys_of_get {V} a (m : btree V) v : bt_get a m = Some v -> a ∈ bt_keys m.
Proof. intros H. apply bt_get_elem in H. unfold bt_keys. apply list_elem_of_fmap. by exists (a, v). Qed.
Lemma get_of_keys {V} a (m : btree V) : a ∈ bt_keys m -> is_Some (bt_get a m).
Proof.
  unfold bt_keys. induction m as [|[k v] m IH]; cbn; [by intros ?%elem_of_nil|]. rewrite elem_of_cons.
  destruct (a =?= k) eqn:E; [done|]. apply bool_decide_eq_false_1 in E. intros [->|?]; [done|by apply IH].
Qed.

Definition reset_keeps (s : SpaceState) (l : LocalRecord) : bool :=
  negb (rkind (lrecord l) =?= KHost) || ldirty l
  || existsb (fun a => a =?= rid (lrecord l)) (bt_keys (ss_pending_approvals s) ++ bt_keys (ss_declined s)).
Lemma reset_get s k : section_ok s ->
  bt_get k (ss_records (reset_space_for_rematerialize s)) = opt_filter (reset_keeps s) (bt_get k (ss_records s)).
Proof. intros Hs. exact (bt_get_filter (reset_keeps s) k (ss_records s) (so_sorted _ Hs)). Qed.

(** The section after a reset: every live host of it is owed, and every owed host is kept. *)
Lemma reset_ok s : section_ok s -> section_ok (reset_space_for_rematerialize s).
Proof.
  intros Hs. split; cbn.
  - by apply bt_ok_filter, Hs.
  - intros k l. change (bt_get k (ss_records (reset_space_for_rematerialize s)) = Some l -> record_ok k (lrecord l)).
    rewrite reset_get by done. destruct (bt_get k (ss_records s)) as [l2|] eqn:E; cbn; [|done].
    destruct (reset_keeps s l2); [|done]. intros [= <-]. by apply (so_records s).
  - apply (so_pending s Hs).
Qed.
Lemma reset_live s x t : section_ok s -> live_text (reset_space_for_rematerialize s) x = Some t <-> live_text s x = Some t /\ owed s x.
Proof.
  intros Hs. unfold live_text, owed. rewrite reset_get by done.
  destruct (bt_get (host_key x) (ss_records s)) as [l|] eqn:Hl; [|cbn; naive_solver].
  destruct (so_records _ Hs _ _ Hl) as [Hkey _]. apply record_key_inj in Hkey as [Hk Hi]. cbn [opt_filter]. unfold reset_keeps. rewrite <- Hk, <- Hi.
  rewrite bool_decide_eq_true_2 by done. cbn [negb orb]. destruct (ldirty l) eqn:Hd; cbn [orb].
  - cbn. split; [|by intros [? _]]. intros ?. split; [done|]. left. by exists l.
  - assert (existsb (fun a => a =?= x) (bt_keys (ss_pending_approvals s) ++ bt_keys (ss_declined s)) = true <->
      is_Some (bt_get x (ss_pending_approvals s)) \/ is_Some (bt_get x (ss_declined s))) as Hr.
    { rewrite existsb_elem. split.
      - intros (a & [Ha|Ha]%elem_of_app & ->%bool_decide_eq_true_1); [left|right]; by apply get_of_keys.
      - intros [[y Hy]|[y Hy]]; exists x; (split; [apply elem_of_app|by apply bool_decide_eq_true_2]); [left|right]; by eapply keys_of_get. }
    destruct (existsb _ _); cbn.
    + split; [|by intros [? _]]. intros ?. split; [done|]. right. by apply Hr.
    + split; [done|]. intros [_ [(l2 & [= <-] & H2)|H]]; [congruence|]. apply Hr in H. done.
Qed.
Lemma reset_owed s x : section_ok s -> owed s x -> owed (reset_space_for_rematerialize s) x.
Proof.
  intros Hs [(l & H1 & H2)|H]; [left|by right]. exists l. split; [|done]. rewrite reset_get, H1 by done. cbn. unfold reset_keeps. by rewrite H2, orb_true_r.
Qed.

(** A live host stays as it is as long as nothing has an effect on it. *)
Lemma merge_space_live x t section keys pulled applied device_name : live_text section x = Some t ->
  let m := merge_space json_from_slice section keys pulled applied device_name in
  live_text (sm_section m) x = Some t \/ exists e, e ∈ sm_effects m /\ effect_alias e = x.
Proof.
  intros Hl m. subst m. apply (merge_space_inv _ (fun m => live_text (sm_section m) x = Some t \/ exists e, e ∈ sm_effects m /\ effect_alias e = x)).
  - by left.
  - intros m e [Hm|(f & Hf & Hx)].
    + destruct (merge_envelope_as json_from_slice keys applied device_name m e) as [Ht He|alias text Ht Hv _ He|alias Ht Ha He]; [left; by rewrite Ht|..];
        (destruct (decide (x = alias)) as [->|Hn]; [right; eexists; split; [rewrite He; apply elem_of_app; right; by apply list_elem_of_singleton|done]|];
         left; by rewrite Ht, decide_False).
    + right. exists f. split; [|done].
      destruct (merge_envelope_as json_from_slice keys applied device_name m e) as [_ ->|? ? _ _ _ ->|? _ _ ->]; [done|apply elem_of_app; by left..].
  - intros m [Hm|Hm]; [left|by right]. cbn [sm_with sm_section]. by rewrite resend_all_live.
  - intros m c [Hm|Hm]; [by left|by right].
Qed.

(** A file that is gone is rebuilt from the relay and from what was not sent: the round after
    it was made again completes, the file holds exactly the live records, and every host
    with an unsent edit or an open decision is back in the file with its text, unless the
    relay had a newer version of it that was applied. *)
Lemma rebuilt_file_keeps_hosts keys device_name pulled external_at s : section_ok s -> space_vanished s = true ->
  (forall x t, live_text s x = Some t -> validate_host_text x t = Ok tt) ->
  let '(s0, items0) := recreate_file s in
  exists s' items', round_space json_from_slice device_id keys device_name pulled external_at s0 items0 = Ok (s', items') /\
    section_ok s' /\ check_managed_items items' = Ok tt /\
    (Forall effect_terminated (round_effects keys device_name pulled s0 []) ->
     in_step s' items' /\
     forall x t, live_text s x = Some t -> owed s x ->
       mkBlockText x t ∈ blocks_of items' \/
       exists e, e ∈ sm_effects (merge_space json_from_slice s0 keys pulled [] device_name) /\ effect_alias e = x).
Proof.
  intros Hs Hvan Hl. unfold recreate_file. rewrite Hvan. set (s0 := reset_space_for_rematerialize s).
  assert (section_ok s0) as Hs0 by by apply reset_ok.
  assert (managed []) as Hm0 by by apply managed_check.
  assert (forall x t, live_text s0 x = Some t -> validate_host_text x t = Ok tt) as Hl0 by (intros x t [? _]%reset_live; auto).
  assert (rebuilt s0 []) as Hr0.
  { split; [intros x t ?%elem_of_nil; done|]. intros x t [? ?]%reset_live; [right; by apply reset_owed|done]. }
  unfold round_space, prepare_space. cbn [check_managed_items check_blocks forbidden_directive mbind result_bind blocks_of omap list_omap space_emptied].
  change (space_vanished s0) with false. change (ss_baseline_established s0) with false. cbv beta iota zeta. cbn [mbind result_bind].
  destruct (commit_space_Ok keys device_name pulled s0 [] [] Hm0) as (items' & c & Ha & Hm' & ->).
  do 2 eexists. split; [done|]. set (m := merge_space json_from_slice s0 keys pulled [] device_name) in *.
  assert (section_ok (sm_section m)) as Hsm by by apply merge_space_ok.
  split; [by apply with_committed_ok|]. split; [by apply managed_check|]. intros Ht.
  destruct (merge_space_rebuilding [] s0 keys pulled [] device_name Hm0 Hr0 Hl0) as [Hlm (i1 & c1 & H1 & Hm1 & Hreb)]. fold m in Hlm, H1, Hreb.
  unfold round_effects in Ha, Ht. cbv zeta in Ha, Ht. fold m in Ha, Ht. change (ss_baseline_established s0) with false in Ha, Ht. cbv iota in Ha, Ht.
  apply Forall_app in Ht as [Ht1 Ht2]. destruct (Hreb Ht1) as [Hb1 Hb2].
  destruct (apply_live_effects (sm_section m) (unpushed_host_effects (sm_section m) []) i1 Hm1 Hb1 Ht2 (unpushed_valid _ _)) as (i2 & c2 & H2 & _ & Hb3).
  { intros e (x & t & -> & Hx & _)%unpushed_elem; [by exists x, t|done|done]. }
  rewrite (apply_effects_app _ _ _ _ _ H1), H2 in Ha. injection Ha as <- _.
  assert (in_step (with_committed (sm_section m)) i2) as Hin.
  { intros x t. change (live_text (with_committed (sm_section m)) x) with (live_text (sm_section m) x). rewrite (Hb3 x t), (unpushed_elem _ (Upsert x t) Hsm Hlm). split.
    - intros [Hx|(x' & t' & [= <- <-] & Hx & _)]; [by apply Hb1|done].
    - intros Hx. destruct (Hb2 x t Hx) as [|Ho]; [by left|right]. by exists x, t. }
  split; [done|]. intros x t Hx Ho. destruct (merge_space_live x t s0 keys pulled [] device_name) as [Hlive|He]; [by apply reset_live|left|by right].
  apply Hin. exact Hlive.
Qed.
End Rounds.
