(* ===== verification/HostReviewProps.v ===== *)
(** * HostReviewProps: the user's decisions on held versions

    The digest that ties a decision to the version the user saw, what approving and
    declining change and leave alone, and the invariant of every space that is
    reached by rounds, edits and decisions in any order. *)

From S2P Require Import Prelude Text BTreeMap Json SyncRecord Crypto Relay RecordMerge ConfigParser HostText HostTextProps HostSync HostFileProps HostSyncProps HostPlanProps HostRoundProps.

(** ** The digest *)

Ltac div_lia := zify; Z.to_euclidean_division_equations; lia.

Lemma utf8_char_inj c c' s s' : utf8_char c ++ s = utf8_char c' ++ s' -> c = c' /\ s = s'.
Proof.
  unfold utf8_char. repeat case_match; repeat breflect1; cbn [app]; intros H'; injection H'; intros;
    match goal with H : s = s' |- _ => (split; [div_lia|exact H]) | _ => exfalso; div_lia end.
Qed.
Lemma utf8_inj a : forall b, utf8 a = utf8 b -> a = b.
Proof.
  assert (forall c s, utf8_char c ++ s <> []) as Hne by (intros c s; unfold utf8_char; by repeat case_match).
  induction a as [|c a IH]; intros [|c' b]; cbn; [done|by intros H; symmetry in H; apply Hne in H|by intros H; apply Hne in H|].
  intros [-> H]%utf8_char_inj. f_equal. by apply IH.
Qed.
Lemma hex_digit_inj a b : hex_digit a = hex_digit b -> a = b.
Proof. unfold hex_digit. repeat case_match; repeat breflect1; lia. Qed.
Lemma hex_inj a : forall b, hex a = hex b -> a = b.
Proof.
  induction a as [|x a IH]; intros [|y b]; cbn; try done. intros [= H1%hex_digit_inj H2%hex_digit_inj H3%IH]. subst. f_equal. div_lia.
Qed.

Lemma shift_down n m k : N.shiftr n (k + 8) = N.shiftr m (k + 8) -> (N.shiftr n k mod 256 = N.shiftr m k mod 256)%N -> N.shiftr n k = N.shiftr m k.
Proof.
  rewrite <- !N.shiftr_shiftr. rewrite (N.shiftr_div_pow2 (N.shiftr n k)), (N.shiftr_div_pow2 (N.shiftr m k)). change (2 ^ 8)%N with 256%N.
  intros H1 H2. rewrite (N.div_mod (N.shiftr n k) 256), (N.div_mod (N.shiftr m k) 256), H1, H2 by done. done.
Qed.
Lemma be64_inj n m : (n < 18446744073709551616)%N -> (m < 18446744073709551616)%N -> be64 n = be64 m -> n = m.
Proof.
  intros Hn Hm. unfold be64. cbn [map]. intros [= H7 H6 H5 H4 H3 H2 H1 H0].
  assert (N.shiftr n 64 = N.shiftr m 64) as E by (rewrite !N.shiftr_div_pow2, !N.div_small; done).
  apply (shift_down n m 56) in E; [|done]. apply (shift_down n m 48) in E; [|done]. apply (shift_down n m 40) in E; [|done].
  apply (shift_down n m 32) in E; [|done]. apply (shift_down n m 24) in E; [|done]. apply (shift_down n m 16) in E; [|done].
  apply (shift_down n m 8) in E; [|done]. apply (shift_down n m 0) in E; [|done]. by rewrite !N.shiftr_0_r in E.
Qed.

(** What the machine can hold: 64-bit numbers and lengths. *)
Definition fits_u64 (p : PendingApproval) : Prop :=
  (rversion (pa_record p) < 18446744073709551616)%N /\ (rupdated_at_ms (pa_record p) < 18446744073709551616)%N /\
  (N.of_nat (str_len (rdevice_id (pa_record p))) < 18446744073709551616)%N /\ (N.of_nat (str_len (pa_text p)) < 18446744073709551616)%N.

Lemma be64_length n : length (be64 n) = 8.
Proof. done. Qed.

(** A length and the bytes of a string: the parts do not run into each other. *)
Lemma framed_inj a b s s' : (N.of_nat (str_len a) < 18446744073709551616)%N -> (N.of_nat (str_len b) < 18446744073709551616)%N ->
  (be64 (N.of_nat (str_len a)) ++ utf8 a) ++ s = (be64 (N.of_nat (str_len b)) ++ utf8 b) ++ s' -> a = b /\ s = s'.
Proof.
  intros Ha Hb H. rewrite <- !app_assoc in H. apply app_inj_1 in H as [H1 H2]; [|done]. apply be64_inj in H1; [|done..].
  apply app_inj_1 in H2 as [H2 H3]; [|unfold str_len in H1; lia]. split; [by apply utf8_inj|done].
Qed.

Lemma review_preimage_inj p q : fits_u64 p -> fits_u64 q -> review_preimage p = review_preimage q ->
  rversion (pa_record p) = rversion (pa_record q) /\ rupdated_at_ms (pa_record p) = rupdated_at_ms (pa_record q) /\
  rdevice_id (pa_record p) = rdevice_id (pa_record q) /\ pa_text p = pa_text q.
Proof.
  intros (P1 & P2 & P3 & P4) (Q1 & Q2 & Q3 & Q4) H. unfold review_preimage in H. apply app_inv_head in H. cbn [flat_map] in H.
  apply app_inj_1 in H as [H1 H]; [|done]. apply app_inj_1 in H as [H2 H]; [|done]. apply be64_inj in H1, H2; [|done..].
  apply framed_inj in H as [H3 H]; [|done..]. apply framed_inj in H as [H4 _]; [|done..]. done.
Qed.

Section Review.
Context {U : Unicode} {C : CharTables} {Y : CryptoLib} {S : Serde HostPayload}
  (json_from_slice : list N -> option Rec) (sha256 : list N -> list N) (device_id : str).

(** A decision is for what the user saw: two versions with the same digest have the same
    version, time, writer and text, unless two different inputs of SHA-256 collide. *)
Lemma review_digest_binds p q : fits_u64 p -> fits_u64 q -> review_digest sha256 p = review_digest sha256 q ->
  (rversion (pa_record p) = rversion (pa_record q) /\ rupdated_at_ms (pa_record p) = rupdated_at_ms (pa_record q) /\
   rdevice_id (pa_record p) = rdevice_id (pa_record q) /\ pa_text p = pa_text q) \/
  exists a b, a <> b /\ sha256 a = sha256 b.
Proof.
  intros Hp Hq H%hex_inj. destruct (decide (review_preimage p = review_preimage q)) as [E|E]; [left; by apply review_preimage_inj|right].
  by exists (review_preimage p), (review_preimage q).
Qed.

(** ** Approving and declining *)

(** A version that waits in the section and whose digest is among the reviewed ones. *)
Definition seen_by_user (s : SpaceState) (reviewed : list (str * str)) (a : str) (p : PendingApproval) : Prop :=
  bt_get a (ss_pending_approvals s) = Some p /\ (a, review_digest sha256 p) ∈ reviewed.

Lemma reviewed_loop_elem s reviewed : forall current changed a p,
  (a, p) ∈ (reviewed_pending_loop sha256 s reviewed current changed).1 -> (a, p) ∈ current \/ seen_by_user s reviewed a p.
Proof.
  induction reviewed as [|[x d] reviewed IH]; intros current changed a p; cbn [reviewed_pending_loop]; [by left|].
  assert (forall r, seen_by_user s reviewed a r -> seen_by_user s ((x, d) :: reviewed) a r) as Hmore.
  { intros r [? ?]. split; [done|]. apply elem_of_cons. by right. }
  destruct (opt_filter _ _) as [q|] eqn:Hq.
  - destruct (existsb _ current); [intros H%IH; naive_solver|]. intros [H|H]%IH; [|naive_solver].
    apply elem_of_app in H as [H|H%list_elem_of_singleton]; [by left|right]. injection H as -> ->.
    destruct (bt_get x _) as [q'|] eqn:E; [|done]. cbn in Hq. destruct (_ =?= d) eqn:Ed; [|done]. injection Hq as ->.
    apply bool_decide_eq_true_1 in Ed. split; [done|]. rewrite Ed. apply elem_of_cons. by left.
  - destruct (existsb _ changed); intros H%IH; naive_solver.
Qed.
Lemma reviewed_elem s reviewed a p : (a, p) ∈ (reviewed_pending sha256 s reviewed).1 -> seen_by_user s reviewed a p.
Proof. intros H. apply reviewed_loop_elem in H as [H|H]; [by apply elem_of_nil in H|done]. Qed.

(** Every file block comes from the file or from an effect, and is touched only by an effect on it. *)
Lemma effects_blocks es : forall items items' c, managed items -> Forall effect_valid es -> apply_effects_to_items items es = (items', c, []) ->
  forall x, x ∉ map effect_alias es -> forall t, mkBlockText x t ∈ blocks_of items' <-> mkBlockText x t ∈ blocks_of items.
Proof.
  induction es as [|e es IH]; intros items items' c Hm Hv Ha x Hx t; [by injection Ha as <- _|].
  apply Forall_cons in Hv as [Hv1 Hv]. destruct (effect_managed items e Hm Hv1) as (i1 & c1 & H1 & Hm1 & Hu).
  change (e :: es) with ([e] ++ es) in Ha. rewrite (apply_effects_app _ _ _ _ _ H1) in Ha.
  destruct (apply_effects_to_items i1 es) as [[i2 c2] f] eqn:E2. injection Ha as <- _ ->.
  cbn in Hx. apply not_elem_of_cons in Hx as [Hx1 Hx2]. rewrite (IH _ _ _ Hm1 Hv E2 x Hx2 t). pose proof (Hu x t). naive_solver.
Qed.

(** The section after approving: approved records are taken as they came; the rest is as before. *)
Inductive approved_at (s s' : SpaceState) (ps : list (str * PendingApproval)) (a : str) : Prop :=
| AtApproved p : (a, p) ∈ ps -> bt_get (host_key a) (ss_records s') = Some (mkLocal (pa_record p) (pa_seq p) false) ->
    bt_get a (ss_pending_approvals s') = None -> bt_get a (ss_declined s') = None -> approved_at s s' ps a
| AtLeft : a ∉ map fst ps -> bt_get (host_key a) (ss_records s') = bt_get (host_key a) (ss_records s) ->
    bt_get a (ss_pending_approvals s') = bt_get a (ss_pending_approvals s) -> bt_get a (ss_declined s') = bt_get a (ss_declined s) ->
    approved_at s s' ps a.
Lemma approve_all_at s ps a : approved_at s (foldl approve_one s ps) ps a.
Proof.
  induction ps as [|[x p] ps IH] using rev_ind; [by apply AtLeft; [apply not_elem_of_nil|..]|].
  rewrite foldl_snoc. set (s1 := foldl approve_one s ps) in *. destruct (decide (x = a)) as [->|Hx].
  { apply (AtApproved _ _ _ _ p); [apply elem_of_app; right; by apply list_elem_of_singleton|unfold approve_one; cbn [fst snd with_rows ss_records ss_pending_approvals ss_declined]..];
      [apply bt_get_insert_eq|apply bt_get_remove_eq..]. }
  destruct IH as [p' H1 H2 H3 H4|H1 H2 H3 H4].
  - apply (AtApproved _ _ _ _ p'); [apply elem_of_app; by left|unfold approve_one; cbn [fst snd with_rows ss_records ss_pending_approvals ss_declined]..].
    + rewrite bt_get_insert_ne; [done|]. by intros ?%host_key_inj.
    + by rewrite bt_get_remove_ne.
    + by rewrite bt_get_remove_ne.
  - apply AtLeft; [rewrite map_app; intros [?|?%list_elem_of_singleton]%elem_of_app; [done|by subst]|unfold approve_one; cbn [fst snd with_rows ss_records ss_pending_approvals ss_declined]..].
    + rewrite bt_get_insert_ne; [done|]. by intros ?%host_key_inj.
    + by rewrite bt_get_remove_ne.
    + by rewrite bt_get_remove_ne.
Qed.

Lemma approve_one_ok s a p : section_ok s -> pending_ok a p -> section_ok (approve_one s (a, p)).
Proof.
  intros Hs [H1 H2 H3 H4 H5]. apply section_ok_insert; [done| |by apply pending_removed]. split; cbn; [by rewrite H1, H2|by rewrite H4].
Qed.
Lemma approve_all_ok ps : forall s, section_ok s -> (forall a p, (a, p) ∈ ps -> pending_ok a p) -> section_ok (foldl approve_one s ps).
Proof.
  induction ps as [|[a p] ps IH]; intros s Hs Hp; [done|]. cbn [foldl]. apply IH.
  - apply approve_one_ok; [done|]. apply Hp, elem_of_cons. by left.
  - intros a' p' H. apply Hp, elem_of_cons. by right.
Qed.

Definition approval_effects (ps : list (str * PendingApproval)) : list HostEffect := map (fun e => Upsert e.1 (pa_text e.2)) ps.

Lemma approve_in_step items s ps : managed items -> in_step s items -> (forall a p, (a, p) ∈ ps -> pending_ok a p) ->
  effects_in_step items (mkMerged (foldl approve_one s ps) (approval_effects ps) [] [] 0).
Proof.
  intros Hm Hi. induction ps as [|[a p] ps IH] using rev_ind; intros Hp; [split; [constructor|]; by exists items, false|].
  assert (pending_ok a p) as [H1 H2 H3 H4 H5] by (apply Hp, elem_of_app; right; by apply list_elem_of_singleton).
  apply (effects_in_step_snoc json_from_slice items (mkMerged (foldl approve_one s ps) (approval_effects ps) [] [] 0) _ (Upsert a (pa_text p))).
  - apply IH. intros a' p' H. apply Hp, elem_of_app. by left.
  - done.
  - cbn [sm_effects]. unfold approval_effects. by rewrite map_app.
  - intros x. cbn [sm_section effect_alias]. rewrite foldl_snoc. unfold approve_one at 1. cbn [fst snd]. rewrite (live_text_insert _ _ _ a) by done.
    cbn [lrecord]. unfold live_record. by rewrite H3, H4.
Qed.

(** Approving a checked file always goes through, and applies what the user saw and nothing
    else: each version taken still waits and has the reviewed digest; its text becomes the
    block of its host; every other host, its record and its open decision stay as they are, and a
    file in step stays in step. *)
Lemma approve_applies_what_was_seen s items approvals : section_ok s -> check_managed_items items = Ok tt ->
  exists s' items' n changed ps, approve sha256 s items approvals = Ok (s', items', n, changed) /\ n = length ps /\
    (forall a p, (a, p) ∈ ps -> seen_by_user s approvals a p) /\
    section_ok s' /\ check_managed_items items' = Ok tt /\ (forall a, approved_at s s' ps a) /\
    (forall a t, a ∉ map fst ps -> mkBlockText a t ∈ blocks_of items' <-> mkBlockText a t ∈ blocks_of items) /\
    (in_step s items -> Forall effect_terminated (approval_effects ps) -> in_step s' items').
Proof.
  intros Hs Hc. apply managed_check in Hc as Hm. unfold approve. pose proof (reviewed_elem s approvals) as Hel.
  destruct (reviewed_pending sha256 s approvals) as [ps changed]. cbn [fst] in Hel.
  assert (forall a p, (a, p) ∈ ps -> pending_ok a p) as Hp by (intros a p H; apply (so_pending _ Hs); by apply Hel in H as [? _]).
  destruct ps as [|e ps'].
  { exists s, items, 0, changed, []. split_and!; try done. intros a. apply (approve_all_at s [] a). }
  rewrite Hc. cbn [mbind result_bind]. set (ps := e :: ps') in *. change (map (fun e => Upsert e.1 (pa_text e.2)) ps) with (approval_effects ps).
  assert (Forall effect_valid (approval_effects ps)) as Hv.
  { apply Forall_forall. intros f Hf. unfold approval_effects in Hf. apply list_elem_of_fmap in Hf as ([a p] & -> & Hf). by apply Hp. }
  destruct (effects_managed (approval_effects ps) items Hm Hv) as (items' & c & He & Hm'). rewrite He. cbn [mbind result_bind].
  assert (length (approval_effects ps) = length ps) as Hlen by apply length_map.
  exists (foldl approve_one s ps), items', (length (approval_effects ps)), changed, ps.
  split; [done|]. split; [done|]. split; [done|]. split; [by apply approve_all_ok|]. split; [by apply managed_check|].
  split; [intros a; apply approve_all_at|]. split.
  - intros a t Ha. eapply effects_blocks; [done|done|exact He|]. unfold approval_effects. by rewrite map_map.
  - intros Hi Ht. destruct (approve_in_step items s ps Hm Hi Hp) as [_ (i2 & c2 & H1 & _ & H2)]. cbn [sm_effects sm_section] in *.
    rewrite He in H1. injection H1 as <- <-. by apply H2.
Qed.

(** ** Every space that is reached *)

(** A version that waits for approval is newer than the one that is applied. *)
Definition pending_wins (s : SpaceState) : Prop :=
  forall a p l, bt_get a (ss_pending_approvals s) = Some p -> bt_get (host_key a) (ss_records s) = Some l ->
    remote_wins (pa_record p) (lrecord l) = true.
Definition space_ok (s : SpaceState) : Prop := section_ok s /\ pending_wins s.

Lemma pending_wins_update s k f g d b : (forall l, lrecord (f l) = lrecord l) -> (forall a p', bt_get a g = Some p' -> exists p, bt_get a (ss_pending_approvals s) = Some p /\ pa_record p = pa_record p') ->
  pending_wins s -> pending_wins (with_rows (bt_update k f (ss_records s)) g d b s).
Proof.
  intros Hf Hg Hw a p l Hp Hl. cbn [with_rows ss_records ss_pending_approvals] in *. apply Hg in Hp as (p0 & Hp0 & <-).
  rewrite bt_get_update in Hl. destruct (decide (k = host_key a)); [|by apply (Hw a)].
  destruct (bt_get (host_key a) (ss_records s)) as [l0|] eqn:E; [|done]. injection Hl as <-. rewrite Hf. by apply (Hw a).
Qed.
(** A row of one host changes, and its open decision goes. *)
Lemma pending_wins_insert s x l d b : pending_wins s ->
  pending_wins (with_rows (bt_insert (host_key x) l (ss_records s)) (bt_remove x (ss_pending_approvals s)) d b s).
Proof.
  intros Hw a p l2. cbn [with_rows ss_records ss_pending_approvals]. rewrite bt_get_remove. destruct (decide (x = a)) as [->|Hn]; [done|].
  intros Hp. rewrite bt_get_insert_ne by (by intros ?%host_key_inj). by apply (Hw a).
Qed.

Lemma merge_newer o r l : merge o r <> KeepLocal -> o = Some l -> remote_wins r (lrecord l) = true.
Proof. intros H ->. cbn in H. by destruct (remote_wins r (lrecord l)). Qed.

Lemma merge_envelope_pending keys applied device_name m e : pending_wins (sm_section m) ->
  pending_wins (sm_section (merge_envelope json_from_slice keys applied device_name m e)).
Proof.
  intros Hw. unfold merge_envelope. destruct (decode _ keys e) as [r|]; [|done]. destruct (_ && _); [|done]. cbv zeta.
  destruct (merge _ r =?= KeepLocal) eqn:Hk.
  { cbn [sm_with sm_section]. apply pending_wins_update; [done| |done]. intros a p' Hp. by exists p'. }
  apply bool_decide_eq_false_1 in Hk. destruct (rdeleted r); [by apply pending_wins_insert|].
  destruct (from_value (rpayload r)) as [p|]; [|done]. destruct (is_ok _); [|done]. destruct (negb _ && _).
  { cbn [sm_with sm_section]. unfold note_seen. apply pending_wins_update; [done| |done]. intros a p'. rewrite bt_get_update.
    destruct (decide _); [|by exists p']. destruct (bt_get a _) as [q|] eqn:E; [|done]. intros [= <-]. exists q. split; [done|]. by case_match. }
  unfold merge_text. cbv zeta. destruct (needs_approval _ _); [|by apply pending_wins_insert].
  cbn [sm_hold sm_with sm_section]. intros a q l. cbn [with_rows ss_records ss_pending_approvals]. rewrite bt_get_insert, bt_get_update.
  destruct (decide (rid r = a)) as [Ha|Ha].
  - subst a. intros [= <-]. rewrite decide_True by done. destruct (bt_get (host_key (rid r)) _) as [l0|] eqn:E; [|done]. intros [= <-]. cbn [pa_record set_clean lrecord].
    by eapply merge_newer.
  - rewrite decide_False by (by intros ?%host_key_inj). apply (Hw a).
Qed.

Lemma resend_all_pending s : pending_wins s -> pending_wins (resend_all s).
Proof.
  intros Hw a p l. unfold resend_all. cbn [with_cursor with_rows ss_records ss_pending_approvals]. rewrite !bt_get_map.
  destruct (bt_get a (ss_pending_approvals s)) as [q|] eqn:E; [|done]. destruct (bt_get (host_key a) _) as [l0|] eqn:E2; [|done].
  intros [= <-] [= <-]. exact (Hw a q l0 E E2).
Qed.

Lemma merge_space_good section keys pulled applied device_name : space_ok section ->
  space_ok (sm_section (merge_space json_from_slice section keys pulled applied device_name)).
Proof.
  intros [Hs Hw]. split; [by apply merge_space_ok|]. apply (merge_space_inv _ (fun m => pending_wins (sm_section m))); [done| | |done].
  - intros m e. apply merge_envelope_pending.
  - intros m. apply resend_all_pending.
Qed.

Lemma plan_record_pending s r : rkind r = KHost -> pending_wins s -> pending_wins (plan_record s r).
Proof. intros Hk Hw. unfold plan_record. rewrite Hk. by apply pending_wins_insert. Qed.
Lemma plan_hosts_good s items changed_at : space_ok s -> check_managed_items items = Ok tt ->
  space_ok (plan_hosts s (blocks_of items) device_id changed_at).1.
Proof.
  intros [Hs Hw] Hc%managed_check. split; [by apply (plan_hosts_spec s items device_id changed_at)|].
  destruct (plan_view_ok s Hs) as (sn & Hv & _). unfold plan_hosts. cbv zeta. cbn [fst].
  pose proof (planned_elem s (plan_view s) sn Hs Hv (blocks_of items) device_id changed_at) as Hel.
  assert (forall r, r ∈ detect_local_changes (plan_view s) (blocks_of items) device_id changed_at -> rkind r = KHost) as Hk by (intros r Hr; by apply Hel, planned_kind in Hr).
  clear Hel Hv Hs. revert s Hw Hk. generalize (detect_local_changes) as f. intros f s. generalize (f (plan_view s) (blocks_of items) device_id changed_at) as rs.
  intros rs. revert s. induction rs as [|r rs IH]; intros s Hw Hk; [done|]. cbn [foldl]. apply IH.
  - apply plan_record_pending; [|done]. apply Hk, elem_of_cons. by left.
  - intros r' ?. apply Hk, elem_of_cons. by right.
Qed.

Lemma reset_good s : space_ok s -> space_ok (reset_space_for_rematerialize s).
Proof.
  intros [Hs Hw]. split; [by apply reset_ok|]. intros a p l Hp. rewrite reset_get by done. destruct (bt_get (host_key a) (ss_records s)) as [l0|] eqn:E; [|done].
  cbn. case_match; [|done]. intros [= <-]. by apply (Hw a).
Qed.

Lemma approve_good s ps : space_ok s -> (forall a p, (a, p) ∈ ps -> pending_ok a p) -> space_ok (foldl approve_one s ps).
Proof.
  intros [Hs Hw] Hp. split; [by apply approve_all_ok|]. clear Hs. revert s Hw. induction ps as [|[a p] ps IH]; intros s Hw; [done|]. cbn [foldl]. apply IH.
  - intros a' p' H. apply Hp, elem_of_cons. by right.
  - unfold approve_one. cbn [fst snd]. by apply pending_wins_insert.
Qed.
Lemma reject_good s ps : space_ok s -> space_ok (foldl reject_one s ps).
Proof.
  revert s. induction ps as [|[a p] ps IH]; intros s [Hs Hw]; [done|]. cbn [foldl]. apply IH. unfold reject_one. cbn [fst snd]. split.
  - apply section_ok_rows; [done|apply Hs|apply Hs|by apply pending_removed].
  - intros a' p' l. cbn [with_rows ss_records ss_pending_approvals]. rewrite bt_get_remove. case_decide; [done|]. apply (Hw a').
Qed.
Lemma apply_pushed_good s outgoing pushed : space_ok s -> space_ok (apply_pushed_space s outgoing pushed).
Proof.
  unfold apply_pushed_space. generalize (accepted pushed) as l. intros l. revert s. induction l as [|[k q] l IH]; intros s [Hs Hw]; [done|]. cbn [foldl]. apply IH.
  unfold apply_accepted. cbn [fst snd]. destruct (List.find _ _) as [o|]; [|done]. destruct (bt_get k (ss_records s)); [|done]. destruct (_ && _); [|done]. split.
  - apply section_ok_update; [done|done|apply so_pending; done].
  - apply pending_wins_update; [done| |done]. intros a p Hp. by exists p.
Qed.

Lemma round_space_good keys device_name pulled external_at s items s' items' : space_ok s ->
  round_space json_from_slice device_id keys device_name pulled external_at s items = Ok (s', items') -> space_ok s'.
Proof.
  intros Hs H. unfold round_space in H. ok_inv. unfold prepare_space in Hok. ok_inv. destruct v0.
  destruct (space_emptied _ _); ok_inv; [injection H as <- _; by apply reset_good|].
  set (s1 := if ss_baseline_established s then _ else _) in *.
  assert (space_ok s1) as Hs1 by (subst s1; destruct (ss_baseline_established s); [by apply plan_hosts_good|done]).
  unfold commit_space in H. cbv zeta in H. destruct (apply_effects_to_items items _) as [[i c] f]. ok_inv.
  pose proof (merge_space_good s1 keys pulled (blocks_of items) device_name Hs1) as [[] ?]. by split.
Qed.

(** C29.  Whatever happens to a space and its file, in any order: edits and saves, rounds with any
    answers of the relay, a file that goes away, approvals and refusals, receipts.  The rows are
    under their own keys and readable, what waits for approval is valid and newer than what is
    applied, so that approving never goes back, and a round on a file that passes its checks
    completes and leaves one that passes them. *)
Theorem reachable_space_ok file_name s items : space_reachable json_from_slice sha256 device_id file_name (s, items) ->
  section_ok s /\ pending_wins s /\
  forall keys device_name pulled external_at, check_managed_items items = Ok tt ->
    exists s' items', round_space json_from_slice device_id keys device_name pulled external_at s items = Ok (s', items') /\ check_managed_items items' = Ok tt.
Proof.
  intros Hr. assert (space_ok s) as [Hs Hw].
  { change (space_ok (s, items).1). induction Hr as [|[s1 i1] b Hr IH Hstep]; [split; [apply section_ok_new|done]|]. cbn [fst] in IH. inversion Hstep; subst; cbn [fst].
    - done.
    - unfold note_written. destruct (ss_baseline_established s1); [|done]. destruct (check_managed_items i1) as [[]|] eqn:E; [|done]. by apply plan_hosts_good.
    - unfold recreate_file. destruct (space_vanished s1); cbn [fst]; [by apply reset_good|done].
    - by eapply round_space_good.
    - match goal with H : approve _ _ _ _ = _ |- _ => rename H into H1 end. unfold approve in H1.
      pose proof (reviewed_elem s1 approvals) as Hel. destruct (reviewed_pending sha256 s1 approvals) as [[|e ps] ch]; [by injection H1 as <- <- _ _|].
      ok_inv. destruct (apply_effects_to_items i1 _) as [[i c] f]. ok_inv. apply (approve_good s1 (e :: ps)); [done|].
      intros a p Hin. destruct IH as [Hs _]. apply (so_pending _ Hs). by apply Hel in Hin as [? _].
    - unfold reject. destruct (reviewed_pending sha256 s1 rejections) as [ps ch]. cbn [fst]. by apply reject_good.
    - by apply apply_pushed_good. }
  split; [done|]. split; [done|]. intros keys device_name pulled external_at Hc. unfold round_space, prepare_space. rewrite Hc. cbn [mbind result_bind]. cbv zeta.
  destruct (space_emptied _ _); cbn [mbind result_bind]; [by exists (reset_space_for_rematerialize s), items|].
  apply managed_check in Hc as Hm.
  destruct (commit_space_Ok json_from_slice keys device_name pulled (if ss_baseline_established s then (plan_hosts s (blocks_of items) device_id (fun _ => external_at)).1 else s) (blocks_of items) items Hm) as (i2 & c & _ & Hm2 & ->).
  do 2 eexists. split; [done|]. by apply managed_check.
Qed.
End Review.
