(* ===== verification/HostSyncWitnesses.v ===== *)
(** * HostSyncWitnesses: the theorems on host files at concrete inputs

    Concrete tables, a payload codec and a record text that satisfy what the theorems ask for, a
    small space with its file, and a pull with a plain change and one that needs approval. *)

From S2P Require Import Prelude Text BTreeMap Json SyncRecord Crypto Relay RecordMerge RecordInstances MergeInstances ConfigParser HostText HostTextProps HostSync HostFileProps HostSyncProps HostPlanProps HostRoundProps HostReviewProps.

#[export] Instance host_unicode : Unicode := ascii_unicode.
#[export] Instance toy_tables : CharTables := {
  is_alphanumeric := is_ascii_alphanumeric;
  escape_debug_count _ := 1
}.
#[export] Instance toy_payload : Serde HostPayload.
Proof.
  refine {| to_value p := JObject [(lit "schema", JNumber (PosInt (hx_schema p))); (lit "text", JString (hx_text p))];
            from_value v := match json_u64 (lit "schema") v, json_get (lit "text") v ≫= as_str with
                            | Some n, Some t => Ok (mkHostPayload n t)
                            | _, _ => Err (lit "not a host payload")
                            end |}.
  by intros [n t].
Defined.

Definition lines (l : list string) : str := flat_map (fun s => lit s ++ [10%N]) l.
Definition w_web : str := lit "web".
Definition w_text1 : str := lines ["Host web"; "  HostName 10.0.0.5"]%string.
Definition w_text2 : str := lines ["Host web"; "  HostName 10.0.0.6 # moved"]%string.
Definition w_gated : str := lines ["Host db"; "  ProxyCommand nc %h %p"]%string.


(** ** A space and a pull *)

Definition w_rec (alias : str) (version time : N) (text : str) : Rec :=
  mkRec KHost alias version time (lit "dev2") false (to_value (mkHostPayload 1 text)).
Definition w_recs : list Rec := [w_rec w_web 2 200 w_text2; w_rec (lit "db") 1 210 w_gated].

(** The text of a record: which one it is. *)
Definition w_to_vec (r : Rec) : option (list N) := Some (rid r ++ [rversion r]).
Definition w_slice (b : list N) : option Rec := List.find (fun r => w_to_vec r =?= Some b) w_recs.

Definition w_envelope (seq : N) (r : Rec) : Envelope :=
  match encode w_to_vec space_chain r 0 (Some (repeat 5%N 24)) with
  | Ok item => mkEnvelope (pu_id_hash item) (pu_kind item) seq (pu_nonce item) (pu_ciphertext item) false
  | Err _ => mkEnvelope [] [] 0 [] [] false
  end.
Definition w_pull : PullResponse := mkPull [w_envelope 8 (w_rec w_web 2 200 w_text2); w_envelope 9 (w_rec (lit "db") 1 210 w_gated)] 9.

Definition w_dev (d : str) : str := d.
Definition w_row (dirty : bool) : LocalRecord := mkLocal (w_rec w_web 1 100 w_text1) 3 dirty.
Definition w_space (dirty : bool) (cursor : N) : SpaceState :=
  with_committed (with_cursor cursor (with_rows (bt_insert (host_key w_web) (w_row dirty) []) [] [] [] (SpaceState_new (lit "team.config")))).
Definition w_items : list Item := (parse_file w_text1).1.

Lemma w_space_ok dirty cursor : section_ok (w_space dirty cursor).
Proof.
  apply with_committed_ok.
  assert (section_ok (with_rows (bt_insert (host_key w_web) (w_row dirty) (ss_records (SpaceState_new (lit "team.config")))) [] [] [] (SpaceState_new (lit "team.config")))) as [].
  { apply section_ok_insert; [apply section_ok_new| |done]. split; [done|]. intros _ _. by eexists. }
  by split.
Qed.

Lemma w_space_live dirty cursor x t : live_text (w_space dirty cursor) x = Some t -> x = w_web /\ t = w_text1.
Proof.
  unfold w_space. change (live_text (with_committed ?s) x) with (live_text s x). change (live_text (with_cursor cursor ?s) x) with (live_text s x).
  intros H. rewrite (live_text_insert _ _ (SpaceState_new (lit "team.config")) w_web) in H by done.
  destruct (decide (x = w_web)); [|done]. split; [done|]. by injection H.
Qed.


Lemma merge_applies_nothing_unapproved_witness :
  Upsert w_web w_text2 ∈ sm_effects (merge_space w_slice (w_space false 7) space_chain w_pull (blocks_of w_items) w_dev) /\
  as_gated (signature w_text2) = [] /\ is_single_host_block w_text2 = true /\
  bt_contains_key (lit "db") (ss_pending_approvals (sm_section (merge_space w_slice (w_space false 7) space_chain w_pull (blocks_of w_items) w_dev))) = true.
Proof.
  assert (Upsert w_web w_text2 ∈ sm_effects (merge_space w_slice (w_space false 7) space_chain w_pull (blocks_of w_items) w_dev)) as H.
  { apply list_elem_of_In. vm_compute. left. reflexivity. }
  split; [exact H|]. destruct (merge_applies_nothing_unapproved w_slice space_chain (blocks_of w_items) w_dev (w_space false 7) w_pull w_web w_text2 H) as (_ & H1 & _).
  split; [vm_compute; reflexivity|]. split; [exact H1|vm_compute; reflexivity].
Defined.

(** An unsent edit loses to the newer version, and the relay's history went back. *)
Lemma merge_loses_no_edit_witness :
  let m := merge_space w_slice (w_space true 70) space_chain w_pull (blocks_of w_items) w_dev in
  unsent (w_rec w_web 1 100 w_text1) (host_key w_web) (sm_section m) \/ w_web ∈ sm_conflicts m.
Proof.
  apply (merge_loses_no_edit w_slice (w_rec w_web 1 100 w_text1) w_web (w_space true 70)).
  - apply w_space_ok.
  - exists (w_row true). split_and!; vm_compute; reflexivity.
Defined.

(** ** Decisions *)

Definition w_pending (seq : N) : PendingApproval :=
  mkPending (w_rec (lit "db") 1 210 w_gated) seq w_gated empty_signature (signature w_gated) (lit "laptop").
Definition w_waiting : SpaceState :=
  with_rows (ss_records (w_space false 7)) (bt_insert (lit "db") (w_pending 9) []) [] [] (w_space false 7).

Lemma w_waiting_ok : section_ok w_waiting.
Proof.
  destruct (w_space_ok false 7) as [H1 H2 _]. apply section_ok_rows; [apply w_space_ok|exact H1|exact H2|].
  intros a p H. rewrite bt_get_insert in H. destruct (decide (lit "db" = a)) as [<-|]; [|discriminate H]. injection H as <-.
  split; vm_compute; reflexivity.
Qed.

Definition w_sha (b : list N) : list N := b.

Lemma reachable_space_ok_witness : exists s items, space_reachable w_slice w_sha (lit "dev1") (lit "team.config") (s, items) /\
  section_ok s /\ blocks_of items <> [].
Proof.
  assert (space_reachable w_slice w_sha (lit "dev1") (lit "team.config") (SpaceState_new (lit "team.config"), w_items)) as H.
  { eapply ReachStep; [apply ReachNew|]. apply StepEdit. }
  do 2 eexists. split; [exact H|]. split; [apply (reachable_space_ok w_slice w_sha (lit "dev1") _ _ _ H)|vm_compute; discriminate].
Defined.

(** ** What the newline is for

    A text without a final newline passes the checks, but the block it makes ends with
    one: the next look at the file finds a change and sends the host back. *)
Lemma unterminated_text_echoes :
  let text := lit "Host web" in
  let s := with_committed (with_rows (bt_insert (host_key w_web) (mkLocal (w_rec w_web 3 500 text) 9 false) []) [] [] [] (SpaceState_new (lit "team.config"))) in
  validate_host_text w_web text = Ok tt /\
  let items := (apply_effects_to_items [] [Upsert w_web text]).1.1 in
  (plan_hosts s (blocks_of items) (lit "dev1") (fun _ => 600%N)).2 = 1.
Proof. vm_compute. split; reflexivity. Qed.
