(* ===== verification/SpaceFiles.v ===== *)
(** * SpaceFiles: the files of the spaces and the line of Includes

    [src-tauri/src/sync/space_files.rs] and the parts of [fsutil.rs] it calls: the names of space
    files, the order of the Include list, and the operations that create, remove, rename and
    keep space files so that ssh never reads a half written or missing file.

    The file system is a map from paths to entries (a file, a directory or a
    symbolic link, by its inode) and a map from inodes to contents.  Every system
    call first lets other programs create files at free names and may then fail with
    any error, as an arbitrary script says, and records the disk before and after,
    so that a crash between two calls is a prefix of the trace.  The main config is
    represented by the paths it includes; updating it is the caller's function, which
    either replaces the list or fails. *)

From stdpp Require Import gmap.
From S2P Require Import Prelude Text SlotRules ImportText ImportLoad HostText.

(** ** Names *)

Definition MAX_SLUG_LEN : nat := 40.
Definition FALLBACK_SLUG : str := lit "space".

Definition is_slug_char (c : N) : bool := in_range 97 122 c || is_ascii_digit c.

(** The loop over the lower-case characters: [gap] says that others came before. *)
Fixpoint slug_chars (slug : str) (gap : bool) (s : str) : str :=
  match s with
  | [] => slug
  | c :: s' =>
      if is_slug_char c
      then slug_chars ((if gap && negb (slug =?= []) then slug ++ [45%N] else slug) ++ [c]) false s'
      else slug_chars slug true s'
  end.

Definition trim_end_dashes (s : str) : str := reverse (drop_while (N.eqb 45) (reverse s)).

Section Names.
Context `{Unicode}.

Definition slugify (name : str) : str :=
  let slug := trim_end_dashes (take MAX_SLUG_LEN (slug_chars [] false (to_lowercase name))) in
  if slug =?= [] then FALLBACK_SLUG else slug.

Definition space_file_name (slug space_id : str) : result AppError str :=
  if negb (is_chain_id space_id) then Err (AOther (lit "space id must be 64 lowercase hex characters"))
  else Ok (slugify slug ++ lit "-" ++ take 8 space_id ++ lit ".config").
End Names.

(** [str::strip_suffix]. *)
Definition strip_suffix (p s : str) : option str :=
  match strip_prefix (reverse p) (reverse s) with Some r => Some (reverse r) | None => None end.

Definition is_space_file_name (name : str) : bool :=
  match strip_suffix (lit ".config") name with
  | None => false
  | Some stem =>
      match rsplit_once 45 stem with
      | None => false
      | Some (slug, id8) =>
          (str_len id8 =? 8)%nat && forallb is_lower_hex (utf8 id8)
          && negb (slug =?= []) && (str_len slug <=? MAX_SLUG_LEN)%nat
          && negb (starts_with (lit "-") slug) && negb (ends_with (lit "-") slug)
          && negb (contains_window (lit "--") slug)
          && forallb (fun b => is_slug_char b || (b =? 45)%N) (utf8 slug)
      end
  end.

Definition spaces_dir (ssh_dir : str) : str := path_join ssh_dir (lit "sshelter").

Definition not_a_space_file (file_name : str) : AppError :=
  AOther (lit "'" ++ file_name ++ lit "' is not a space file name").

Definition space_file_path (ssh_dir file_name : str) : result AppError str :=
  if negb (is_space_file_name file_name) then Err (not_a_space_file file_name)
  else Ok (path_join (spaces_dir ssh_dir) file_name).

Definition include_token (file_name : str) : result AppError str :=
  if negb (is_space_file_name file_name) then Err (not_a_space_file file_name)
  else Ok (INCLUDE_DIR ++ file_name).

Record SpaceFileRef := mkSpaceRef { sf_space_id : str; sf_name : str; sf_file_name : str }.

Section Order.
Context `{Unicode}.

(** [Ordering::then_with]. *)
Definition then_with (a b : comparison) : comparison := match a with Eq => b | _ => a end.

Definition include_order (a b : str * str) : comparison :=
  then_with (str_compare (to_lowercase a.1) (to_lowercase b.1))
    (then_with (str_compare a.1 b.1) (str_compare a.2 b.2)).

(** [sort_by], which is stable: a new element goes in front of the first one that is not smaller. *)
Fixpoint insert_ref (x : SpaceFileRef) (l : list SpaceFileRef) : list SpaceFileRef :=
  match l with
  | [] => [x]
  | y :: l' =>
      match include_order (sf_name y, sf_space_id y) (sf_name x, sf_space_id x) with
      | Lt => y :: insert_ref x l'
      | _ => x :: l
      end
  end.
Definition sort_refs (l : list SpaceFileRef) : list SpaceFileRef := foldr insert_ref [] l.

Definition include_tokens (spaces : list SpaceFileRef) : result AppError (list str) :=
  try_map (fun s => include_token (sf_file_name s)) (sort_refs spaces).
End Order.

(** ** The file system *)

Inductive ErrorKind := NotFound | AlreadyExists | PermissionDenied | OtherKind.
#[export] Instance error_kind_eq_dec : EqDecision ErrorKind.
Proof. solve_decision. Defined.

Record IoError := mkIo { io_kind : ErrorKind; io_text : str }.

Inductive FileKind := Reg | Dir | Symlink (target : str).
Record Entry := mkEntry { ino : N; kind : FileKind }.
#[export] Instance file_kind_eq_dec : EqDecision FileKind.
Proof. solve_decision. Defined.
#[export] Instance entry_eq_dec : EqDecision Entry.
Proof. solve_decision. Defined.

Record Inode := mkInode { bytes : list N; mode : N }.

Record Disk := mkDisk {
  names : gmap str Entry; inodes : gmap N Inode; next_ino : N; includes : list str
}.

(** A failure that does not come from the state of the disk: refused, or anything else. *)
Record Fault := mkFault { denied : bool; fault_text : str }.
Definition fault_error (f : Fault) : IoError :=
  mkIo (if denied f then PermissionDenied else OtherKind) (fault_text f).

(** What happens at one system call: files that other programs create before it, a failure,
    how much a failing write wrote, and the clock. *)
Record Happens := mkHappens {
  appear : list (str * list N); fails : option Fault; partly : nat; clock : N
}.
Definition quiet : Happens := mkHappens [] None 0 0.

Record World := mkWorld { disk : Disk; script : list Happens; trace : list (Disk * Disk) }.

Definition set_names (d : Disk) (n : gmap str Entry) : Disk := mkDisk n (inodes d) (next_ino d) (includes d).
Definition set_inodes (d : Disk) (i : gmap N Inode) : Disk := mkDisk (names d) i (next_ino d) (includes d).
Definition set_includes (d : Disk) (l : list str) : Disk := mkDisk (names d) (inodes d) (next_ino d) l.

(** A new inode under a name. *)
Definition create (p : str) (k : FileKind) (b : list N) (m : N) (d : Disk) : Disk :=
  mkDisk (<[p := mkEntry (next_ino d) k]> (names d)) (<[next_ino d := mkInode b m]> (inodes d))
    (next_ino d + 1) (includes d).

(** Another program creates a file where there is none. *)
Definition put (d : Disk) (f : str * list N) : Disk :=
  match names d !! f.1 with Some _ => d | None => create f.1 Reg f.2 420 d end.

(** Following symbolic links, at most 40. *)
Fixpoint follow (n : nat) (d : Disk) (p : str) : option Entry :=
  match n with
  | O => None
  | S n' =>
      match names d !! p with
      | Some (mkEntry i (Symlink t)) => follow n' d t
      | e => e
      end
  end.
Definition LINK_LIMIT : nat := 40.

Definition read_path (d : Disk) (p : str) : option (list N) :=
  e ← follow LINK_LIMIT d p; match kind e with Reg => bytes <$> inodes d !! ino e | _ => None end.

(** ** The monad of an operation *)

Definition M (A : Type) : Type := World -> result AppError A * World.
#[export] Instance m_ret : MRet M := fun A a w => (Ok a, w).
#[export] Instance m_bind : MBind M := fun A B f m w =>
  match m w with (Ok a, w') => f a w' | (Err e, w') => (Err e, w') end.

Definition throw {A} (e : AppError) : M A := fun w => (Err e, w).
Definition lift {A} (r : result AppError A) : M A := match r with Ok a => mret a | Err e => throw e end.
Definition io {A} (r : result IoError A) : M A :=
  match r with Ok a => mret a | Err e => throw (AIo (io_text e)) end.
(** The result of a function as a value, for [match] and [if let Err]. *)
Definition catch {A} (m : M A) : M (result AppError A) :=
  fun w => let '(r, w') := m w in (Ok r, w').

Definition next_happens (w : World) : Happens * list Happens :=
  match script w with [] => (quiet, []) | h :: s => (h, s) end.

(** One system call: [f] without a failure, [g] what a failing one leaves behind. *)
Definition sys_partial {A} (g : nat -> Disk -> Disk) (f : N -> Disk -> result IoError A * Disk)
  : M (result IoError A) :=
  fun w =>
    let '(h, s) := next_happens w in
    let d := foldl put (disk w) (appear h) in
    let '(r, d') := match fails h with Some e => (Err (fault_error e), g (partly h) d) | None => f (clock h) d end in
    (Ok r, mkWorld d' s (trace w ++ [(d, d')])).
Definition sys {A} (f : Disk -> result IoError A * Disk) : M (result IoError A) :=
  sys_partial (fun _ d => d) (fun _ => f).

Definition os_error (k : ErrorKind) : IoError := mkIo k (lit "os error").

(** *** [std::fs] *)

Definition try_exists (p : str) : M (result IoError bool) :=
  sys (fun d => (Ok (is_some (follow LINK_LIMIT d p)), d)).

Definition symlink_metadata (p : str) : M (result IoError Entry) :=
  sys (fun d => (match names d !! p with Some e => Ok e | None => Err (os_error NotFound) end, d)).

(** [OpenOptions::new().write(true).create_new(true).mode(m).open(p)]. *)
Definition open_new (m : N) (p : str) : M (result IoError N) :=
  sys (fun d => match names d !! p with
                | Some _ => (Err (os_error AlreadyExists), d)
                | None => (Ok (next_ino d), create p Reg [] m d)
                end).

Definition write_inode (i : N) (b : list N) (d : Disk) : Disk :=
  set_inodes d (alter (fun n => mkInode b (mode n)) i (inodes d)).
Definition write_all (i : N) (b : list N) : M (result IoError unit) :=
  sys_partial (fun n => write_inode i (take n b)) (fun _ d => (Ok tt, write_inode i b d)).
Definition sync_all : M (result IoError unit) := sys (fun d => (Ok tt, d)).

Definition read_file (p : str) : M (result IoError (list N)) :=
  sys (fun d => (match read_path d p with Some b => Ok b | None => Err (os_error NotFound) end, d)).

Definition hard_link (p q : str) : M (result IoError unit) :=
  sys (fun d => match names d !! p, names d !! q with
                | None, _ => (Err (os_error NotFound), d)
                | Some _, Some _ => (Err (os_error AlreadyExists), d)
                | Some e, None =>
                    if kind e =?= Dir then (Err (os_error PermissionDenied), d)
                    else (Ok tt, set_names d (<[q := e]> (names d)))
                end).

Definition rename (p q : str) : M (result IoError unit) :=
  sys (fun d => match names d !! p with
                | None => (Err (os_error NotFound), d)
                | Some e =>
                    if is_some_and (fun x => kind x =?= Dir) (names d !! q) then (Err (os_error OtherKind), d)
                    else (Ok tt, set_names d (<[q := e]> (delete p (names d))))
                end).

Definition remove_file (p : str) : M (result IoError unit) :=
  sys (fun d => match names d !! p with
                | None => (Err (os_error NotFound), d)
                | Some e =>
                    if kind e =?= Dir then (Err (os_error OtherKind), d)
                    else (Ok tt, set_names d (delete p (names d)))
                end).

Definition set_permissions (m : N) (p : str) : M (result IoError unit) :=
  sys (fun d => match follow LINK_LIMIT d p with
                | None => (Err (os_error NotFound), d)
                | Some e => (Ok tt, set_inodes d (alter (fun n => mkInode (bytes n) m) (ino e) (inodes d)))
                end).

Definition create_dir (p : str) : M (result IoError unit) :=
  sys (fun d => match names d !! p with
                | Some (mkEntry _ Dir) => (Ok tt, d)
                | Some _ => (Err (os_error AlreadyExists), d)
                | None => (Ok tt, create p Dir [] 493 d)
                end).

(** [std::fs::copy]: the target is created, or overwritten where it is a file. *)
Definition write_over (p : str) (b : list N) (d : Disk) : Disk :=
  match names d !! p with
  | None => create p Reg b 384 d
  | Some e => match kind e with Reg => write_inode (ino e) b d | _ => d end
  end.
Definition copy (b : list N) (q : str) : M (result IoError unit) :=
  sys_partial (fun n => write_over q (take n b))
    (fun _ d => match names d !! q with
                | Some (mkEntry _ Reg) | None => (Ok tt, write_over q b d)
                | Some _ => (Err (os_error OtherKind), d)
                end).

Definition now_millis : M N := fun w =>
  match sys_partial (fun _ d => d) (fun c d => (@Ok IoError N c, d)) w with
  | (Ok (Ok c), w') => (Ok c, w')
  | (_, w') => (Ok 0%N, w')
  end.

(** The names of a directory with a regular-file flag each. *)
Definition entries_of (d : Disk) (dir : str) : list (str * bool) :=
  omap (fun '(p, e) => match strip_prefix (dir ++ lit "/") p with
                       | Some f => if contains_char 47 f then None else Some (f, kind e =?= Reg)
                       | None => None end) (map_to_list (names d)).
Definition read_dir (dir : str) : M (result IoError (list (str * bool))) :=
  sys (fun d => match follow LINK_LIMIT d dir with
                | Some (mkEntry _ Dir) => (Ok (entries_of d dir), d)
                | _ => (Err (os_error NotFound), d)
                end).

(** ** [fsutil.rs] *)

Definition exists_ (p : str) : M bool :=
  r ← try_exists p; mret (match r with Ok b => b | Err _ => false end).

(** The policy of the build profile: a check changes nothing and may fail. *)
Definition check_write_io (p : str) : M (result IoError unit) := sys (fun d => (Ok tt, d)).
Definition check_write (p : str) : M unit :=
  r ← check_write_io p;
  match r with
  | Ok _ => mret tt
  | Err e => throw (if io_kind e =?= PermissionDenied then AForbiddenPath p else AIo (io_text e))
  end.

Definition ensure_dir_secure (dir : str) : M unit :=
  _ ← check_write dir;
  e ← exists_ dir;
  if e : bool then mret tt else
  r ← create_dir dir; _ ← io r;
  r ← set_permissions 448 dir; io r.

Definition parent (p : str) : option str := fst <$> rsplit_once 47 p.

(** The temporary file has no name that an Include lists; it is gone when a step fails. *)
Definition persist (p : str) (b : list N) (m : N) : M (result IoError unit) :=
  sys (fun d => match names d !! p with
                | Some (mkEntry _ Dir) => (Err (os_error OtherKind), d)
                | _ => (Ok tt, create p Reg b m d)
                end).

Definition atomic_write (p : str) (b : list N) (m : N) : M unit :=
  _ ← check_write p;
  dir ← lift (ok_or (parent p) (AOther (lit "no parent dir for " ++ p)));
  _ ← ensure_dir_secure dir;
  r ← sync_all; _ ← io r;
  r ← sync_all; _ ← io r;
  r ← persist p b m; _ ← io r;
  _ ← sync_all;
  mret tt.

(** The mirror directory: [..] removes what was there, at the root of the backups nothing. *)
Definition push_component (rel : list str) (c : str) : list str :=
  if c =?= lit ".." then take (length rel - 1) rel
  else if (c =?= []) || (c =?= lit ".") then rel else rel ++ [c].

Section Operations.
Context (backups_root cwd : str).

Definition backup_dir_for (target : str) : result AppError str :=
  dir ← ok_or (parent target) (AOther (lit "no parent dir for " ++ target));
  Ok (foldl path_join backups_root (foldl push_component [] (split_char 47 (path_join cwd dir)))).

Definition file_name (p : str) : option str :=
  match last (components p) with
  | Some c => if (c =?= lit "/") || (c =?= lit "..") then None else Some c
  | None => None
  end.

Definition backup (p : str) : M (option str) :=
  e ← exists_ p;
  if negb e then mret None else
  _ ← check_write p;
  millis ← now_millis;
  name ← lift (ok_or (file_name p) (AOther (lit "no file name for " ++ p)));
  dir ← lift (backup_dir_for p);
  let backup_path := path_join dir (name ++ lit "." ++ dec millis ++ lit ".bak") in
  _ ← check_write dir;
  _ ← check_write backup_path;
  r ← create_dir dir; _ ← io r;
  r ← read_file p; b ← io r;
  r ← copy b backup_path; _ ← io r;
  mret (Some backup_path).

(** ** Operations *)

(** [write_include]: the caller's update of the paths the main config lists. *)
Definition run_include (wi : list str -> result AppError (list str)) : M unit :=
  fun w =>
    let '(h, s) := next_happens w in
    let d := foldl put (disk w) (appear h) in
    let '(r, d') := match wi (includes d) with Ok l => (Ok tt, set_includes d l) | Err e => (Err e, d) end in
    (r, mkWorld d' s (trace w ++ [(d, d')])).

Definition create_empty_space_file (p : str) : M bool :=
  _ ← check_write p;
  _ ← match parent p with Some dir => ensure_dir_secure dir | None => mret tt end;
  r ← open_new 384 p;
  match r with
  | Ok _ => mret true
  | Err e => if io_kind e =?= AlreadyExists then mret false else throw (AIo (io_text e))
  end.

Definition add_space_file (ssh_dir file : str) (initial : option (list N))
  (wi : list str -> result AppError (list str)) : M str :=
  p ← lift (space_file_path ssh_dir file);
  _ ← check_write p;
  _ ← match initial with
      | Some b => atomic_write p b 384
      | None =>
          made ← create_empty_space_file p;
          if made : bool then mret tt else
          r ← set_permissions 384 p;
          match r with
          | Ok _ => mret tt
          | Err e => if io_kind e =?= NotFound then mret tt else throw (AIo (io_text e))
          end
      end;
  _ ← run_include wi;
  mret p.

Definition remove_space_file (ssh_dir file : str) (wi : list str -> result AppError (list str))
  : M (option str) :=
  p ← lift (space_file_path ssh_dir file);
  _ ← check_write p;
  r ← try_exists p; e ← io r;
  _ ← (if e : bool then check_write p else mret tt);
  _ ← run_include wi;
  r ← try_exists p; e ← io r;
  if negb e then mret None else
  b ← backup p;
  match b with
  | None => throw (AOther (lit "the space file could not be backed up, so it was not deleted"))
  | Some bak =>
      r ← remove_file p;
      match r with
      | Ok _ => mret (Some bak)
      | Err e => if io_kind e =?= NotFound then mret (Some bak) else throw (AIo (io_text e))
      end
  end.

Inductive RenameOutcome := Renamed | Unchanged | TargetExists.

Definition same_file (a b : str) : M bool :=
  x ← symlink_metadata a;
  y ← symlink_metadata b;
  mret (match x, y with Ok x, Ok y => (ino x =? ino y)%N | _, _ => false end).

Definition error_text (e : AppError) : str :=
  match e with
  | AIo m | AForbiddenPath m | ANotFound m | AOther m | AConflict m => m
  | AParse m _ => m
  end.

Definition renamed_but_unlisted (e : AppError) (rollback : IoError) : AppError :=
  AOther (lit "the space file was renamed but the include list could not be updated (" ++ error_text e
    ++ lit "), and renaming it back failed (" ++ io_text rollback
    ++ lit "); its hosts are only in the renamed file now").

Definition rename_without_links (old new : str) (wi : list str -> result AppError (list str)) : M RenameOutcome :=
  _ ← check_write old;
  _ ← check_write new;
  r ← try_exists new; e ← io r;
  if e : bool then mret TargetExists else
  r ← rename old new; _ ← io r;
  r ← catch (run_include wi);
  match r with
  | Ok _ => mret Renamed
  | Err e =>
      rb ← rename new old;
      match rb with
      | Ok _ => throw e
      | Err rollback => throw (renamed_but_unlisted e rollback)
      end
  end.

(** After the new name exists: the list, then the old name. *)
Definition finish_rename (old new : str) (wi : list str -> result AppError (list str)) : M RenameOutcome :=
  r ← catch (run_include wi);
  match r with
  | Err e => _ ← remove_file new; throw e
  | Ok _ => _ ← remove_file old; mret Renamed
  end.

Definition rename_space_file (ssh_dir from to : str) (wi : list str -> result AppError (list str))
  : M RenameOutcome :=
  old ← lift (space_file_path ssh_dir from);
  new ← lift (space_file_path ssh_dir to);
  _ ← check_write old;
  _ ← check_write new;
  if from =?= to then mret Unchanged else
  r ← hard_link old new;
  match r with
  | Ok _ => finish_rename old new wi
  | Err e =>
      if io_kind e =?= AlreadyExists then
        same ← same_file old new;
        if same : bool then finish_rename old new wi else mret TargetExists
      else if io_kind e =?= NotFound then throw (AIo (io_text e))
      else rename_without_links old new wi
  end.

(** [Vec::sort] of strings. *)
Fixpoint insert_name (x : str) (l : list str) : list str :=
  match l with
  | [] => [x]
  | y :: l' => if str_ltb y x then y :: insert_name x l' else x :: l
  end.

Definition stray_space_files (ssh_dir : str) (listed : list str) : M (list str) :=
  r ← read_dir (spaces_dir ssh_dir);
  match r with
  | Err e => if io_kind e =?= NotFound then mret [] else throw (AIo (io_text e))
  | Ok entries =>
      mret (foldr insert_name []
        (map fst (List.filter (fun '(name, reg) =>
           ends_with (lit ".config") name && negb (bool_decide (name ∈ listed)) && reg) entries)))
  end.

Definition LOCAL_INCLUDE_DIR : str := lit "~/.ssh/sshelter-local/".
Definition local_dir (ssh_dir : str) : str := path_join ssh_dir (lit "sshelter-local").

Record KeptFile := mkKept { kf_old_token : str; kf_path : str; kf_token : str }.

(** The [n]th candidate for a name. *)
Definition candidate (name : str) (n : nat) : str :=
  let stem := default name (strip_suffix (lit ".config") name) in
  if (n =? 1)%nat then name else stem ++ lit "-" ++ dec (N.of_nat n) ++ lit ".config".

(** A partial copy is deleted again. *)
Definition copy_new (source target : str) : M (result IoError unit) :=
  r ← check_write_io source;
  match r with Err e => mret (Err e) | Ok _ =>
  r ← check_write_io target;
  match r with Err e => mret (Err e) | Ok _ =>
  r ← read_file source;
  match r with Err e => mret (Err e) | Ok b =>
  r ← open_new 384 target;
  match r with Err e => mret (Err e) | Ok i =>
  r ← write_all i b;
  r ← match r with Ok _ => sync_all | Err e => mret (Err e) end;
  match r with
  | Ok _ => mret (Ok tt)
  | Err e => _ ← remove_file target; mret (Err e)
  end end end end end.

Definition out_of_names : AppError := AOther (lit "no candidate left").

(** The loop over the candidates, [links] while hard links are tried. *)
Fixpoint kept_loop (fuel : nat) (source dir file : str) (links : bool) (n : nat) : M (str * str) :=
  match fuel with
  | O => throw out_of_names
  | S fuel =>
      let name := candidate file n in
      let target := path_join dir name in
      _ ← check_write source;
      _ ← check_write target;
      made ← (if links then hard_link source target else copy_new source target);
      match made with
      | Ok _ => mret (name, target)
      | Err e =>
          if io_kind e =?= AlreadyExists then kept_loop fuel source dir file links (n + 1)
          else if links then kept_loop fuel source dir file false n
          else throw (AIo (io_text e))
      end
  end.

(** Enough for every name that exists or can still appear. *)
Definition fuel_of (w : World) : nat :=
  2 + size (names (disk w)) + length (script w) + sum_list (map (fun h => length (appear h)) (script w)).
Definition create_kept_file (source dir file : str) : M (str * str) :=
  fun w => kept_loop (fuel_of w) source dir file true 1 w.

(** The check of the candidates of every source, before anything is created. *)
Fixpoint reserve_loop (fuel : nat) (dir file : str) (reserved : list str) (n : nat) : M (list str) :=
  match fuel with
  | O => throw out_of_names
  | S fuel =>
      let target := path_join dir (candidate file n) in
      _ ← check_write target;
      m ← symlink_metadata target;
      if match m with Ok _ => false | Err _ => negb (bool_decide (target ∈ reserved)) end
      then mret (target :: reserved)
      else reserve_loop fuel dir file reserved (n + 1)
  end.

Fixpoint reserve_all (dir : str) (sources : list str) (reserved : list str) : M unit :=
  match sources with
  | [] => mret tt
  | source :: rest =>
      _ ← check_write source;
      name ← lift (ok_or (file_name source) (AOther (lit "file has no usable name")));
      reserved ← (fun w => reserve_loop (fuel_of w + length reserved) dir name reserved 1 w);
      reserve_all dir rest reserved
  end.

(** What was created before a failure is returned with it: the source pushes to [kept]. *)
Fixpoint create_each (dir : str) (sources : list str) (kept : list KeptFile) : M (list KeptFile * option AppError) :=
  match sources with
  | [] => mret (kept, None)
  | source :: rest =>
      match file_name source with
      | None => mret (kept, Some (AOther (lit "'" ++ source ++ lit "' has no usable file name")))
      | Some name =>
          r ← catch (create_kept_file source dir name);
          match r with
          | Err e => mret (kept, Some e)
          | Ok (new_name, p) =>
              create_each dir rest (kept ++ [mkKept (INCLUDE_DIR ++ name) p (LOCAL_INCLUDE_DIR ++ new_name)])
          end
      end
  end.

Definition create_kept_files (ssh_dir : str) (sources : list str) : M (list KeptFile * option AppError) :=
  if sources =?= [] then mret ([], None) else
  let dir := local_dir ssh_dir in
  r ← catch (_ ← check_write dir; _ ← reserve_all dir sources []; ensure_dir_secure dir);
  match r with
  | Err e => mret ([], Some e)
  | Ok _ => create_each dir sources []
  end.

Fixpoint for_each {A} (f : A -> M unit) (l : list A) : M unit :=
  match l with [] => mret tt | x :: l' => _ ← f x; for_each f l' end.

(** [let _ = std::fs::remove_file(p)], or a failure that is only logged. *)
Definition remove_ignored (p : str) : M unit := _ ← remove_file p; mret tt.

Fixpoint existing (files : list str) : M (list str) :=
  match files with
  | [] => mret []
  | p :: rest =>
      r ← try_exists p; e ← io r;
      l ← existing rest;
      mret (if e : bool then p :: l else l)
  end.

Definition keep_files_local (ssh_dir : str) (files : list str)
  (wi : list KeptFile -> list str -> result AppError (list str)) : M (list KeptFile) :=
  _ ← check_write (local_dir ssh_dir);
  _ ← for_each check_write files;
  sources ← existing files;
  '(kept, failed) ← create_kept_files ssh_dir sources;
  r ← match failed with Some e => mret (Err e) | None => catch (run_include (wi kept)) end;
  match r with
  | Err e => _ ← for_each (fun k => remove_ignored (kf_path k)) kept; throw e
  | Ok _ => _ ← for_each remove_ignored sources; mret kept
  end.
End Operations.
