(* ===== verification/SpaceFilesProps.v ===== *)
(** * SpaceFilesProps: what holds in every state of a file operation

    A Hoare logic with a guarantee for every system call: [triple G P m Q] says that
    from a disk in [P] every step of [m] satisfies [G] (its disk before and after, which
    are the states a crash can leave), whatever fails and whatever other programs create,
    and that [m] ends in [Q].  Then the operations of [SpaceFiles]: what the main config
    lists exists in every state, nothing is overwritten, nothing is lost. *)

From stdpp Require Import gmap.
From S2P Require Import Prelude Text SlotRules ImportText ImportLoad HostText SpaceFiles.

(** ** The logic *)

Definition Guarantee : Type := Disk -> Disk -> Prop.

(** One run: how it ends, and that its steps satisfy the guarantee. *)
Definition holds {A} (G : Guarantee) (m : M A) (Q : result AppError A -> Disk -> Prop) (w : World) : Prop :=
  Q (m w).1 (disk (m w).2) /\
  exists steps, trace (m w).2 = trace w ++ steps /\ Forall (fun s => G s.1 s.2) steps.

Definition triple {A} (G : Guarantee) (P : Disk -> Prop) (m : M A) (Q : result AppError A -> Disk -> Prop) : Prop :=
  forall w, P (disk w) -> holds G m Q w.

(** Other programs may create files: an assertion must survive that. *)
Class Stable (P : Disk -> Prop) := stable_put : forall d f, P d -> P (put d f).

Lemma stable_puts P `{!Stable P} l : forall d, P d -> P (foldl put d l).
Proof. induction l as [|f l IH]; intros d Hd; [done|]. apply IH. by apply stable_put. Qed.

#[export] Instance stable_and P Q `{!Stable P, !Stable Q} : Stable (fun d => P d /\ Q d).
Proof. intros d f [HP HQ]. split; by apply stable_put. Qed.
#[export] Instance stable_or P Q `{!Stable P, !Stable Q} : Stable (fun d => P d \/ Q d).
Proof. intros d f [HP|HQ]; [left|right]; by apply stable_put. Qed.
#[export] Instance stable_const (P : Prop) : Stable (fun _ => P).
Proof. by intros d f. Qed.

Lemma triple_ret {A} G P (a : A) (Q : result AppError A -> Disk -> Prop) :
  (forall d, P d -> Q (Ok a) d) -> triple G P (mret a) Q.
Proof. intros H w Hw. split; [by apply H|]. exists []. by rewrite app_nil_r. Qed.

Lemma triple_throw {A} G P e (Q : result AppError A -> Disk -> Prop) :
  (forall d, P d -> Q (Err e) d) -> triple G P (throw e) Q.
Proof. intros H w Hw. split; [by apply H|]. exists []. by rewrite app_nil_r. Qed.

Lemma holds_bind {A B} G (m : M A) (k : A -> M B) R Q w :
  holds G m R w -> (forall a, triple G (R (Ok a)) (k a) Q) -> (forall e d, R (Err e) d -> Q (Err e) d) ->
  holds G (m ≫= k) Q w.
Proof.
  intros [HR (s1 & Ht1 & Hs1)] Hk He. unfold holds, mbind, m_bind in *.
  destruct (m w) as [[a|e] w1]; cbn [fst snd] in *.
  - destruct (Hk a w1 HR) as [HQ (s2 & Ht2 & Hs2)]. split; [done|]. exists (s1 ++ s2).
    rewrite Ht2, Ht1, app_assoc. split; [done|]. by apply Forall_app.
  - split; [by apply He|]. by exists s1.
Qed.

Lemma triple_bind {A B} G P (m : M A) (k : A -> M B) R Q :
  triple G P m R -> (forall a, triple G (R (Ok a)) (k a) Q) -> (forall e d, R (Err e) d -> Q (Err e) d) ->
  triple G P (m ≫= k) Q.
Proof. intros Hm Hk He w Hw. eapply holds_bind; eauto. Qed.

Lemma triple_conseq {A} G (P P' : Disk -> Prop) (m : M A) (Q Q' : result AppError A -> Disk -> Prop) :
  triple G P' m Q' -> (forall d, P d -> P' d) -> (forall r d, Q' r d -> Q r d) -> triple G P m Q.
Proof. intros Hm HP HQ w Hw. destruct (Hm w (HP _ Hw)) as [Hq Ht]. split; [by apply HQ|done]. Qed.

Lemma triple_catch {A} G P (m : M A) (Q : result AppError A -> Disk -> Prop) (Q' : result AppError (result AppError A) -> Disk -> Prop) :
  triple G P m Q -> (forall r d, Q r d -> Q' (Ok r) d) -> triple G P (catch m) Q'.
Proof.
  intros Hm HQ w Hw. destruct (Hm w Hw) as [Hq Ht]. unfold holds, catch in *. destruct (m w) as [r w'].
  split; [by apply HQ|done].
Qed.

Lemma triple_lift {A B} G P (r : result AppError A) (k : A -> M B) Q :
  (forall a, r = Ok a -> triple G P (k a) Q) -> (forall e d, P d -> Q (Err e) d) -> triple G P (lift r ≫= k) Q.
Proof. intros Hk He w Hw. destruct r as [a|e]; [by apply Hk|]. split; [by apply He|]. exists []. by rewrite app_nil_r. Qed.

(** An error that does not come from the state of the disk. *)
Definition failure (e : IoError) : Prop := io_kind e = PermissionDenied \/ io_kind e = OtherKind.
Lemma fault_failure f : failure (fault_error f).
Proof. unfold failure, fault_error. cbn. destruct (denied f); auto. Qed.

Lemma triple_sys {A} G P `{!Stable P} g (f : N -> Disk -> result IoError A * Disk)
    (Q : result AppError (result IoError A) -> Disk -> Prop) :
  (forall d n e, P d -> failure e -> G d (g n d) /\ Q (Ok (Err e)) (g n d)) ->
  (forall d c, P d -> G d (f c d).2 /\ Q (Ok (f c d).1) (f c d).2) ->
  triple G P (sys_partial g f) Q.
Proof.
  intros Hg Hf w Hw. unfold holds, sys_partial. destruct (next_happens w) as [h s]. cbn [fst snd].
  pose proof (stable_puts P (appear h) (disk w) Hw) as Hd. set (d := foldl put (disk w) (appear h)) in *.
  destruct (fails h) as [e|]; cbn [fst snd].
  - destruct (Hg d (partly h) (fault_error e) Hd (fault_failure e)) as [HG HQ]. split; [done|]. exists [(d, g (partly h) d)].
    split; [done|]. by constructor.
  - destruct (Hf d (clock h) Hd) as [HG HQ]. destruct (f (clock h) d) as [r d']; cbn [fst snd] in *.
    split; [done|]. exists [(d, d')]. split; [done|]. by constructor.
Qed.

(** A call that only reads. *)
Lemma triple_read {A} G P `{!Stable P} (f : Disk -> result IoError A) :
  (forall d, P d -> G d d) ->
  triple G P (sys (fun d => (f d, d)))
    (fun r d => P d /\ match r with
      | Ok (Ok a) => f d = Ok a
      | Ok (Err err) => f d = Err err \/ failure err
      | Err _ => False end).
Proof.
  intros HG. apply triple_sys; [done|..].
  - intros d n e Hd He. split; [by apply HG|]. split; [done|by right].
  - intros d _ Hd. cbn [fst snd]. split; [by apply HG|]. split; [done|]. destruct (f d); by auto.
Qed.

Lemma triple_include G P `{!Stable P} wi (Q : result AppError unit -> Disk -> Prop) :
  (forall d l, P d -> wi (includes d) = Ok l -> G d (set_includes d l) /\ Q (Ok tt) (set_includes d l)) ->
  (forall d e, P d -> wi (includes d) = Err e -> G d d /\ Q (Err e) d) ->
  triple G P (run_include wi) Q.
Proof.
  intros Hok Herr w Hw. unfold holds, run_include. destruct (next_happens w) as [h s].
  pose proof (stable_puts P (appear h) (disk w) Hw) as Hd. set (d := foldl put (disk w) (appear h)) in *.
  destruct (wi (includes d)) as [l|e] eqn:He; cbn [fst snd].
  - destruct (Hok d l Hd He) as [HG HQ]. split; [done|]. exists [(d, set_includes d l)]. split; [done|]. by constructor.
  - destruct (Herr d e Hd He) as [HG HQ]. split; [done|]. exists [(d, d)]. split; [done|]. by constructor.
Qed.

(** A check before a write changes nothing. *)
Lemma triple_check G P `{!Stable P} p :
  (forall d, P d -> G d d) -> triple G P (check_write p) (fun _ d => P d).
Proof.
  intros HG. unfold check_write, check_write_io.
  eapply triple_bind; [by apply triple_read| |by intros ? ? [_ []]].
  intros [u|e]; [apply triple_ret|apply triple_throw]; by intros d [Hd _].
Qed.

Lemma triple_io {A B} G P (r : result IoError A) (k : A -> M B) Q :
  (forall a, r = Ok a -> triple G P (k a) Q) -> (forall e d, P d -> Q (Err e) d) -> triple G P (io r ≫= k) Q.
Proof. intros Hk He w Hw. destruct r as [a|e]; [by apply Hk|]. split; [by apply He|]. exists []. by rewrite app_nil_r. Qed.

(** ** Well-formed disks *)

(** Every entry has an inode, inodes are numbered below [next_ino], and two names of one
    inode are the same entry. *)
Definition wf (d : Disk) : Prop :=
  (forall p e, names d !! p = Some e -> is_Some (inodes d !! ino e)) /\
  (forall i n, inodes d !! i = Some n -> (i < next_ino d)%N) /\
  (forall p q x y, names d !! p = Some x -> names d !! q = Some y -> ino x = ino y -> x = y).

Lemma wf_ino d p e : wf d -> names d !! p = Some e -> (ino e < next_ino d)%N.
Proof. intros (Hn & Hi & _) He. destruct (Hn p e He) as [n Hn']. by apply (Hi _ n). Qed.

Lemma put_names d f p : names d !! p <> None -> names (put d f) !! p = names d !! p.
Proof.
  intros Hp. unfold put. destruct (names d !! f.1) eqn:Hf; [done|]. cbn [names create].
  rewrite lookup_insert_ne; [done|]. intros Heq. rewrite Heq in Hf. by rewrite Hf in Hp.
Qed.

Lemma put_inodes d f i n : wf d -> inodes d !! i = Some n -> inodes (put d f) !! i = Some n.
Proof.
  intros (_ & Hi & _) Hn. unfold put. destruct (names d !! f.1); [done|]. cbn [inodes create].
  rewrite lookup_insert_ne; [done|]. intros <-. apply Hi in Hn. lia.
Qed.

Lemma create_wf p k b m d : wf d -> wf (create p k b m d).
Proof.
  intros Hw. pose proof Hw as (Hn & Hi & Hs). split; [|split]; cbn [names inodes next_ino create].
  - intros q e. destruct (decide (q = p)) as [->|Hq].
    + rewrite lookup_insert_eq. intros [= <-]. cbn [ino]. by rewrite lookup_insert_eq.
    + rewrite lookup_insert_ne by done. intros He. pose proof (wf_ino d q e Hw He).
      rewrite lookup_insert_ne by lia. by apply (Hn q).
  - intros i n. destruct (decide (i = next_ino d)) as [->|Hq]; [intros; lia|].
    rewrite lookup_insert_ne by done. intros He%Hi. lia.
  - intros q q' x y. destruct (decide (q = p)) as [->|Hq], (decide (q' = p)) as [->|Hq'];
      rewrite ?lookup_insert_eq, ?lookup_insert_ne by done.
    + by intros [= <-] [= <-].
    + intros [= <-] Hy%(wf_ino d q' y Hw). cbn. lia.
    + intros Hx%(wf_ino d q x Hw) [= <-]. cbn. lia.
    + by apply Hs.
Qed.

#[export] Instance stable_wf : Stable wf.
Proof. intros d f Hd. unfold put. destruct (names d !! f.1); [done|]. by apply create_wf. Qed.

Lemma put_includes d f : includes (put d f) = includes d.
Proof. unfold put. by destruct (names d !! f.1). Qed.

#[export] Instance stable_name p e : Stable (fun d => names d !! p = Some e).
Proof. intros d f Hp. rewrite put_names; [done|]. by rewrite Hp. Qed.
#[export] Instance stable_includes (R : list str -> Prop) : Stable (fun d => R (includes d)).
Proof. intros d f Hp. by rewrite put_includes. Qed.

(** What was there when the operation began, outside of some names, is still there. *)
Definition keeps (X : str -> Prop) (d0 d : Disk) : Prop :=
  wf d /\ (forall p e, ~ X p -> names d0 !! p = Some e -> names d !! p = Some e) /\
  (forall i n, inodes d0 !! i = Some n -> inodes d !! i = Some n).

#[export] Instance stable_keeps X d0 : Stable (keeps X d0).
Proof.
  intros d f (Hw & Hn & Hi). split; [by apply stable_wf|]. split.
  - intros p e Hp He. apply stable_name. auto.
  - intros i n Hn0. apply put_inodes; auto.
Qed.

(** A check whose place in the script matters. *)
Lemma holds_check {B} G P `{!Stable P} p (k : unit -> M B) Q w :
  (forall d, P d -> G d d) -> P (disk w) ->
  (forall w1, P (disk w1) -> script w1 = tail (script w) -> holds G (k tt) Q w1) ->
  (forall e d, P d -> Q (Err e) d) -> holds G (check_write p ≫= k) Q w.
Proof.
  intros HG Hw Hk He. unfold check_write, check_write_io, sys, sys_partial, holds, mbind, m_bind.
  destruct (next_happens w) as [h s] eqn:Hn.
  pose proof (stable_puts P (appear h) (disk w) Hw) as Hd. set (d := foldl put (disk w) (appear h)) in *.
  assert (Hs : s = tail (script w)) by (unfold next_happens in Hn; by destruct (script w); injection Hn).
  destruct (fails h) as [e|]; cbn [fst snd throw mret m_ret disk trace].
  - split; [by apply He|]. exists [(d, d)]. split; [done|]. constructor; [by apply HG|done].
  - destruct (Hk (mkWorld d s (trace w ++ [(d, d)])) Hd Hs) as [HQ (s2 & Ht2 & Hs2)]. split; [done|].
    exists ((d, d) :: s2). cbn [trace] in Ht2. rewrite Ht2, <-app_assoc. split; [done|].
    constructor; [by apply HG|done].
Qed.

(** ** Renaming *)

Section Rename.
Variables (d0 : Disk) (old new : str) (e : Entry) (l0 : list str).
Variable wi : list str -> result AppError (list str).
Hypothesis Hne : old <> new.
Hypothesis Hreg : kind e <> Dir.
Hypothesis Hwi : forall l, wi l0 = Ok l -> forall p, p ∈ l -> p = new \/ (p ∈ l0 /\ p <> old).
Hypothesis Hold : names d0 !! old = Some e.
Hypothesis Hl0 : forall p, p ∈ l0 -> p <> new /\ is_Some (names d0 !! p).

Definition two (p : str) : Prop := p = old \/ p = new.

(** Before the new name exists; while both exist; after the list has changed. *)
Definition at_old (d : Disk) : Prop :=
  (keeps two d0 d /\ includes d = l0) /\
  (names d !! old = Some e /\ forall x, names d0 !! new = Some x -> x <> e -> names d !! new = Some x).
Definition at_both (d : Disk) : Prop :=
  (keeps two d0 d /\ includes d = l0) /\ (names d !! old = Some e /\ names d !! new = Some e) /\
  (forall x, names d0 !! new = Some x -> x = e).
Definition at_new (d : Disk) : Prop :=
  (keeps two d0 d /\ wi l0 = Ok (includes d)) /\ names d !! new = Some e.

#[local] Instance stable_at_old : Stable at_old.
Proof.
  intros d f [[H1 H2] [H3 H4]]. split; split.
  - by apply stable_put. - by rewrite put_includes. - by apply stable_name.
  - intros x Hx Hxe. apply stable_name. auto.
Qed.
#[local] Instance stable_at_both : Stable at_both.
Proof.
  intros d f [[H1 H2] [[H3 H4] H5]]. split; [split; [by apply stable_put|by rewrite put_includes]|].
  split; [split; by apply stable_name|done].
Qed.
#[local] Instance stable_at_new : Stable at_new.
Proof. intros d f [[H1 H2] H3]. split; [split; [by apply stable_put|by rewrite put_includes]|by apply stable_name]. Qed.

Definition at_listed (d : Disk) : Prop := at_new d /\ names d !! old = Some e.

(** What the main config lists is there, as it was or as the renamed file. *)
Definition listed (d : Disk) : Prop := forall p, p ∈ includes d ->
  names d !! p = (if decide (p = new) then Some e else names d0 !! p) /\ is_Some (names d !! p).

(** Nothing is overwritten: a name keeps its entry, or it is one of the renamed file. *)
Definition spares (d d' : Disk) : Prop := forall p x, names d !! p = Some x ->
  names d' !! p = Some x \/ (two p /\ x = e).

(** The renamed file is there under one of its names. *)
Definition alive (d : Disk) : Prop := names d !! old = Some e \/ names d !! new = Some e.

Definition safe_step (d d' : Disk) : Prop :=
  listed d /\ listed d' /\ spares d d' /\ alive d' /\ forall i n, inodes d0 !! i = Some n -> inodes d' !! i = Some n.

Lemma listed_l0 d : keeps two d0 d -> includes d = l0 -> names d !! old = Some e -> listed d.
Proof.
  intros (_ & Hn & _) Hi Ho p Hp. rewrite Hi in Hp. destruct (Hl0 p Hp) as [Hpn [x Hx]].
  rewrite decide_False by done. destruct (decide (p = old)) as [->|Hpo]; [by rewrite Ho, Hold|].
  rewrite (Hn p x), Hx; [done| |done]. intros [?|?]; done.
Qed.

Lemma listed_new d : at_new d -> listed d.
Proof.
  intros [[(_ & Hn & _) Hi] Hnew] p Hp. destruct (Hwi _ Hi p Hp) as [->|[Hin Hpo]].
  - by rewrite decide_True, Hnew.
  - destruct (Hl0 p Hin) as [Hpn [x Hx]]. rewrite decide_False by done.
    rewrite (Hn p x), Hx; [done| |done]. intros [?|?]; done.
Qed.

Lemma listed_old d : at_old d -> listed d.
Proof. intros [[Hk Hi] [Ho _]]. by apply listed_l0. Qed.
Lemma listed_both d : at_both d -> listed d.
Proof. intros [[Hk Hi] [[Ho _] _]]. by apply listed_l0. Qed.

Lemma idle d : listed d -> alive d -> keeps two d0 d -> safe_step d d.
Proof. intros Hl Ha (_ & _ & Hi). split; [done|]. split; [done|]. split; [by left|done]. Qed.

Lemma idle_old d : at_old d -> safe_step d d.
Proof. intros H. apply idle; [by apply listed_old|left; apply H|apply H]. Qed.
Lemma idle_both d : at_both d -> safe_step d d.
Proof. intros H. apply idle; [by apply listed_both|left; apply H|apply H]. Qed.
Lemma idle_new d : at_new d -> safe_step d d.
Proof. intros H. apply idle; [by apply listed_new|right; apply H|apply H]. Qed.

Lemma both_old d : at_both d -> at_old d.
Proof. intros [H [[Ho Hn] Hx]]. split; [done|]. split; [done|]. intros x Hd Hxe. by apply Hx in Hd. Qed.

(** A new entry at [new], or one removed from [old] or [new], leaves the rest. *)
Lemma keeps_names d n : keeps two d0 d -> wf (set_names d n) ->
  (forall p, ~ two p -> n !! p = names d !! p) -> keeps two d0 (set_names d n).
Proof.
  intros (_ & Hn & Hi) Hw Hp. split; [done|]. split; [|done].
  intros p x Hx He. cbn [names set_names]. rewrite Hp by done. by apply Hn.
Qed.

Lemma delete_wf d p : wf d -> wf (set_names d (delete p (names d))).
Proof.
  intros (H1 & H2 & H3). split; [|split]; cbn [names inodes next_ino set_names].
  - intros q x [_ Hx]%lookup_delete_Some. by apply (H1 q).
  - done.
  - intros q q' x y [_ Hx]%lookup_delete_Some [_ Hy]%lookup_delete_Some. by apply (H3 q q').
Qed.

Lemma link_wf d p q x : wf d -> names d !! p = Some x -> wf (set_names d (<[q := x]> (names d))).
Proof.
  intros (H1 & H2 & H3) Hp. split; [|split]; cbn [names inodes next_ino set_names].
  - intros r y [[-> <-]|[_ Hy]]%lookup_insert_Some; [by apply (H1 p)|by apply (H1 r)].
  - done.
  - intros r r' y z [[-> <-]|[_ Hy]]%lookup_insert_Some [[-> <-]|[_ Hz]]%lookup_insert_Some; try done.
    + by apply (H3 p r'). + by apply (H3 r p). + by apply (H3 r r').
Qed.

Lemma step_hard_link w : at_old (disk w) ->
  holds safe_step (hard_link old new) (fun r d => match r with
    | Ok (Ok _) => at_both d
    | Ok (Err err) => at_old d /\ ((exists f, fails (next_happens w).1 = Some f /\ err = fault_error f) \/ io_kind err = AlreadyExists)
    | Err _ => False end) w.
Proof.
  intros Hw. unfold hard_link, sys, sys_partial, holds. destruct (next_happens w) as [h s]. cbn [fst snd] in *.
  pose proof (stable_puts at_old (appear h) (disk w) Hw) as Hd. set (d := foldl put (disk w) (appear h)) in *.
  pose proof Hd as [[Hk Hi] [Ho Hx]].
  destruct (fails h) as [err|]; cbn [fst snd disk trace].
  { split; [split; [done|left; by eexists]|]. exists [(d, d)]. split; [done|]. constructor; [by apply idle_old|done]. }
  rewrite Ho. destruct (names d !! new) as [y|] eqn:Hy; cbn [fst snd].
  { split; [split; [done|by right]|]. exists [(d, d)]. split; [done|]. constructor; [by apply idle_old|done]. }
  assert (Hb : at_both (set_names d (<[new := e]> (names d)))).
  { split; [split|].
    - apply keeps_names; [done|apply (link_wf d old); [apply Hk|done]|]. intros p Hp.
      rewrite lookup_insert_ne; [done|]. intros <-. apply Hp. by right.
    - done.
    - cbn [names set_names]. rewrite lookup_insert_ne, lookup_insert_eq by done. split; [done|].
      intros x Hx0. destruct (decide (x = e)) as [|Hxe]; [done|]. specialize (Hx x Hx0 Hxe). congruence. }
  rewrite bool_decide_false by done. cbn [fst snd disk].
  split; [done|]. eexists. split; [done|]. constructor; [|done]. cbn [fst snd].
  split; [by apply listed_old|]. split; [by apply listed_both|]. split; [|split; [left; apply Hb|apply Hk]].
  intros p x Hp. left. cbn [names set_names]. rewrite lookup_insert_ne; [done|]. intros <-. by rewrite Hy in Hp.
Qed.

Lemma remove_safe p d : two p -> names d !! p = Some e -> listed d -> alive (set_names d (delete p (names d))) ->
  (forall q, q ∈ includes d -> q <> p) -> keeps two d0 d ->
  safe_step d (set_names d (delete p (names d))).
Proof.
  intros Hp Ho Hl Ha Hq Hk. split; [done|]. split; [|split; [|split; [done|apply Hk]]].
  - intros q Hin. specialize (Hl q Hin). cbn [names set_names includes] in *.
    rewrite lookup_delete_ne; [done|]. intros <-. by apply (Hq p).
  - intros q x Hx. cbn [names set_names]. destruct (decide (q = p)) as [->|Hqp].
    + right. split; [done|]. congruence.
    + left. by rewrite lookup_delete_ne.
Qed.

(** Removing the old name once the list is changed, and the new one while it is not. *)
Lemma step_remove_old : triple safe_step at_listed (remove_file old) (fun r d => is_ok r = true /\ at_new d).
Proof.
  apply triple_sys; [apply _|..].
  - intros d ? ? [Hd Ho]. split; [by apply idle_new|by split].
  - intros d ? [Hd Ho]. pose proof Hd as [[Hk Hi] Hn]. rewrite Ho, bool_decide_false by done. cbn [fst snd].
    assert (Hd' : at_new (set_names d (delete old (names d)))).
    { split; [split|]; [|done|].
      - apply keeps_names; [done|apply delete_wf, Hk|]. intros p Hp. rewrite lookup_delete_ne; [done|].
        intros <-. apply Hp. by left.
      - cbn [names set_names]. by rewrite lookup_delete_ne. }
    split; [|by split]. apply remove_safe; [by left|done|by apply listed_new|by right; apply Hd'| |done].
    intros q Hq. destruct (Hwi _ Hi q Hq) as [->|[_ ?]]; done.
Qed.

Lemma step_remove_new : triple safe_step at_both (remove_file new) (fun r d => is_ok r = true /\ at_old d).
Proof.
  apply triple_sys; [apply _|..].
  - intros d ? ? Hd. split; [by apply idle_both|]. split; [done|by apply both_old].
  - intros d ? Hd. pose proof Hd as [[Hk Hi] [[Ho Hn] Hx]]. rewrite Hn, bool_decide_false by done. cbn [fst snd].
    split; [|split; [done|split; [split; [|done]|]]].
    + apply remove_safe; [by right|done|by apply listed_both|left; cbn [names set_names]; by rewrite lookup_delete_ne| |done].
      intros q Hq. rewrite Hi in Hq. by apply Hl0.
    + apply keeps_names; [done|apply delete_wf, Hk|]. intros p Hp. rewrite lookup_delete_ne; [done|].
      intros <-. apply Hp. by right.
    + cbn [names set_names]. rewrite lookup_delete_ne by done. split; [done|].
      intros x Hd0 Hxe. by apply Hx in Hd0.
Qed.

Lemma step_finish : triple safe_step at_both (finish_rename old new wi)
  (fun r d => match r with Ok Renamed => at_new d | Ok _ => False | Err _ => at_old d end).
Proof.
  unfold finish_rename. eapply triple_bind.
  - apply (triple_catch _ _ _ (fun r d => match r with Ok _ => at_listed d | Err _ => at_both d end)
      (fun r d => match r with Ok (Ok _) => at_listed d | Ok (Err _) => at_both d | Err _ => False end)); [|done].
    apply triple_include; [apply _|..].
    + intros d l Hd Hok. pose proof Hd as [[Hk Hi] [[Ho Hn] Hx]]. rewrite Hi in Hok.
      assert (Hd' : at_listed (set_includes d l)) by (split; [split; [split; [exact Hk|exact Hok]|exact Hn]|exact Ho]).
      split; [|done]. split; [by apply listed_both|]. split; [apply listed_new, Hd'|].
      split; [intros p x Hp; by left|]. split; [by left|apply Hk].
    + intros d err Hd _. split; [by apply idle_both|done].
  - intros [u|err].
    + eapply triple_bind; [apply step_remove_old| |by intros ? ? [? _]]. intros r. apply triple_ret. by intros d [_ Hd].
    + eapply triple_bind; [apply step_remove_new| |by intros ? ? [? _]].
      intros r. apply triple_throw. by intros d [_ Hd].
  - done.
Qed.

Lemma step_same_file : triple safe_step at_old (same_file old new)
  (fun r d => match r with Ok true => at_both d | Ok false => at_old d | Err _ => False end).
Proof.
  unfold same_file, symlink_metadata.
  eapply triple_bind; [apply triple_read; [apply _|by apply idle_old]| |by intros ? ? [_ []]].
  intros x. eapply triple_bind.
  - eapply (triple_conseq _ _ (fun d => at_old d /\ (forall y, x = Ok y -> y = e))).
    + apply triple_read; [apply _|]. intros d [Hd _]. by apply idle_old.
    + intros d [Hd Hx]. split; [done|]. intros y ->. destruct Hd as [_ [Ho _]]. rewrite Ho in Hx. by injection Hx.
    + intros r d Hr. exact Hr.
  - intros y. apply triple_ret. intros d [[Hd Hx] Hy].
    destruct x as [x|], y as [y|]; try done. destruct (N.eqb_spec (ino x) (ino y)) as [Hi|]; [|done].
    rewrite (Hx x eq_refl) in Hi. destruct (names d !! new) as [y'|] eqn:Hn; [|done]. injection Hy as ->.
    pose proof Hd as [[(Hw & _) _] [Ho Hxo]].
    assert (e = y) as <- by (apply Hw with old new; done).
    split; [apply Hd|]. split; [done|]. intros z Hz. destruct (decide (z = e)) as [|Hze]; [done|].
    specialize (Hxo z Hz Hze). congruence.
  - by intros err d [_ []].
Qed.

(** The whole operation where hard links are not refused for another reason. *)
Lemma run_rename ssh_dir from to w : space_file_path ssh_dir from = Ok old -> space_file_path ssh_dir to = Ok new ->
  at_old (disk w) ->
  (forall h, script w !! 2 = Some h -> fails h = None) ->
  holds safe_step (rename_space_file ssh_dir from to wi)
    (fun r d => match r with Ok Renamed => at_new d | _ => at_old d end) w.
Proof.
  intros Hfrom Hto Hw Hf. unfold rename_space_file. rewrite Hfrom, Hto. cbn [lift].
  change (mret old ≫= ?k) with (k old). change (mret new ≫= ?k) with (k new). cbv beta.
  apply (holds_check safe_step at_old); [by apply idle_old|done| |done]. intros w1 Hw1 Hs1.
  apply (holds_check safe_step at_old); [by apply idle_old|done| |done]. intros w2 Hw2 Hs2.
  rewrite bool_decide_false by (intros ->; congruence).
  eapply holds_bind.
  - by apply step_hard_link.
  - intros [u|err].
    + eapply triple_conseq; [apply step_finish|done|]. by intros [[]|] d.
    + destruct (io_kind err =?= AlreadyExists) eqn:Ha.
      * eapply triple_bind; [eapply triple_conseq; [apply step_same_file|by intros d [? _]|by intros r d Hr; exact Hr]| |done].
        intros [|]; [|by apply triple_ret].
        eapply triple_conseq; [apply step_finish|done|]. by intros [[]|] d.
      * breflect. destruct (io_kind err =?= NotFound) eqn:Hn.
        { apply triple_throw. by intros d [? _]. }
        breflect. intros w3 [_ [(f & He & _)|?]]; [|done]. exfalso. unfold next_happens in He. rewrite Hs2, Hs1 in He.
        destruct (script w) as [|h1 [|h2 [|h3 s]]]; cbn [tail] in He; try done. cbn [fst] in He.
        by rewrite (Hf h3 eq_refl) in He.
  - by intros err d [].
Qed.

(** *** Without hard links *)

(** The file is never lost and no other name changes; what the main config lists
    may be missing for a moment. *)
Definition mild_step (d d' : Disk) : Prop :=
  alive d' /\ (forall p x, ~ two p -> names d !! p = Some x -> names d' !! p = Some x) /\
  forall i n, inodes d0 !! i = Some n -> inodes d' !! i = Some n.

Definition still (d : Disk) : Prop := (keeps two d0 d /\ includes d = l0) /\ names d !! old = Some e.
Definition moved (d : Disk) : Prop := (keeps two d0 d /\ includes d = l0) /\ names d !! new = Some e.
#[local] Instance stable_moved : Stable moved.
Proof. intros d f [[H1 H2] H3]. split; [split; [by apply stable_put|by rewrite put_includes]|by apply stable_name]. Qed.

Lemma safe_mild d d' : safe_step d d' -> mild_step d d'.
Proof.
  intros (_ & _ & Hs & Ha & Hi). split; [done|]. split; [|done].
  intros p x Hp Hx. by destruct (Hs p x Hx) as [|[? _]].
Qed.

Lemma mild_idle d : alive d -> keeps two d0 d -> mild_step d d.
Proof. intros Ha (_ & _ & Hi). split; [done|]. split; done. Qed.

Lemma rename_keeps d p q : two p -> two q -> p <> q -> keeps two d0 d -> names d !! p = Some e ->
  keeps two d0 (set_names d (<[q := e]> (delete p (names d)))).
Proof.
  intros Hp Hq Hpq Hk He. apply keeps_names; [done| |].
  - destruct (link_wf d p q e (proj1 Hk) He) as (H1 & H2 & H3). split; [|split; [done|]]; cbn [names next_ino set_names] in *.
    + intros r y Hr. apply (H1 r). apply lookup_insert_Some in Hr as [[-> <-]|[Hn [_ Hr]%lookup_delete_Some]].
      * by rewrite lookup_insert_eq. * by rewrite lookup_insert_ne.
    + intros r r' y z Hr Hr'. apply (H3 r r').
      * apply lookup_insert_Some in Hr as [[-> <-]|[Hn [_ Hr]%lookup_delete_Some]]; [by rewrite lookup_insert_eq|by rewrite lookup_insert_ne].
      * apply lookup_insert_Some in Hr' as [[-> <-]|[Hn [_ Hr']%lookup_delete_Some]]; [by rewrite lookup_insert_eq|by rewrite lookup_insert_ne].
  - intros r Hr. rewrite lookup_insert_ne, lookup_delete_ne; [done|..]; intros <-; by apply Hr.
Qed.

Lemma others_unchanged d p q : two p -> two q ->
  forall r x, ~ two r -> names d !! r = Some x -> (<[q := e]> (delete p (names d))) !! r = Some x.
Proof. intros Hp Hq r x Hr Hx. rewrite lookup_insert_ne, lookup_delete_ne; [done|..]; intros <-; by apply Hr. Qed.

(** A rename between the two names moves the file, or leaves everything. *)
Lemma step_rename p q P : two p -> two q -> p <> q -> Stable P ->
  (forall d, P d -> names d !! p = Some e /\ keeps two d0 d /\ alive d) ->
  triple mild_step P (rename p q) (fun r d => match r with
    | Ok (Ok _) => exists d1, P d1 /\ d = set_names d1 (<[q := e]> (delete p (names d1))) /\ keeps two d0 d
    | Ok (Err _) => P d
    | Err _ => False end).
Proof.
  intros Hp Hq Hpq HP HPd. apply triple_sys; [done|..].
  - intros d ? ? Hd. destruct (HPd d Hd) as (He & Hk & Ha). split; [by apply mild_idle|done].
  - intros d ? Hd. destruct (HPd d Hd) as (He & Hk & Ha). rewrite He.
    case_match; cbn [fst snd]; [split; [by apply mild_idle|done]|].
    pose proof (rename_keeps d p q Hp Hq Hpq Hk He) as Hk'.
    split; [|by exists d]. split; [|split; [by apply others_unchanged|apply Hk]].
    destruct Hq as [->| ->]; [left|right]; cbn [names set_names]; by rewrite lookup_insert_eq.
Qed.

Lemma run_without_links : triple mild_step at_old (rename_without_links old new wi)
  (fun r d => match r with
    | Ok Renamed => at_new d
    | Ok _ => at_old d
    | Err err => still d \/ moved d /\ exists a b, err = renamed_but_unlisted a b end).
Proof.
  assert (Hidle : forall d, at_old d -> mild_step d d) by (intros d Hd; by apply safe_mild, idle_old).
  assert (Hstill : forall d, at_old d -> still d) by (intros d [H [Ho _]]; done).
  unfold rename_without_links.
  eapply triple_bind; [by apply triple_check; [apply _|]| |by left; apply Hstill]. intros ?.
  eapply triple_bind; [by apply triple_check; [apply _|]| |by left; apply Hstill]. intros ?.
  eapply triple_bind; [apply triple_read; [apply _|done]| |by intros ? ? [_ []]]. intros r.
  apply triple_io; [|intros err d [Hd _]; left; by apply Hstill]. intros b ->. destruct b.
  { apply triple_ret. by intros d [Hd _]. }
  eapply triple_bind.
  { eapply triple_conseq; [apply (step_rename old new at_old); [by left|by right|done|apply _|]| |intros r d Hr; exact Hr].
    - intros d Hd. split; [apply Hd|]. split; [apply Hd|]. left. apply Hd.
    - by intros d [Hd _]. }
  2: { by intros err d []. }
  intros r. destruct r as [u|err]; [|intros w Hw; apply (triple_throw _ at_old); [left; by apply Hstill|done]].
  cbn [io]. change (mret u ≫= ?k) with (k u). cbv beta.
  assert (Hmv : forall d, moved d -> alive d) by (intros d [_ ?]; by right).
  eapply triple_bind.
  - eapply (triple_conseq _ _ moved).
    + apply (triple_catch _ _ _ (fun r d => match r with Ok _ => at_new d | Err _ => moved d end)
        (fun r d => match r with Ok (Ok _) => at_new d | Ok (Err _) => moved d | Err _ => False end)); [|done].
      apply triple_include; [apply _|..].
      * intros d l Hd Hok. pose proof Hd as [[Hk Hi] Hn]. rewrite Hi in Hok.
        split; [|by split; [split; [exact Hk|exact Hok]|exact Hn]].
        split; [by right|]. split; [done|apply Hk].
      * intros d err2 Hd _. split; [apply mild_idle; [by right; apply Hd|apply Hd]|done].
    + intros d (d1 & Hd1 & -> & Hk). split; [split; [done|apply Hd1]|]. cbn [names set_names]. by rewrite lookup_insert_eq.
    + intros r d Hr. exact Hr.
  - intros [u'|err3].
    + by apply triple_ret.
    + eapply triple_bind.
      * apply (step_rename new old moved); [by right|by left|done|apply _|].
        intros d Hd. split; [apply Hd|]. split; [apply Hd|by apply Hmv].
      * intros [v|b].
        { apply triple_throw. intros d (d1 & Hd1 & -> & Hk). left. split; [split; [done|apply Hd1]|].
          cbn [names set_names]. by rewrite lookup_insert_eq. }
        apply triple_throw. intros d Hd. right. by split; [|eexists _, _].
      * by intros err d [].
  - by intros err d [].
Qed.

Lemma triple_mild {A} P (m : M A) Q : triple safe_step P m Q -> triple mild_step P m Q.
Proof.
  intros Hm w Hw. destruct (Hm w Hw) as [HQ (steps & Ht & Hs)]. split; [done|]. exists steps. split; [done|].
  eapply Forall_impl; [exact Hs|]. intros [d d']. apply safe_mild.
Qed.

(** The whole operation, whatever fails. *)
Lemma run_rename_any ssh_dir from to : space_file_path ssh_dir from = Ok old -> space_file_path ssh_dir to = Ok new ->
  triple mild_step at_old (rename_space_file ssh_dir from to wi)
    (fun r d => match r with
      | Ok Renamed => at_new d
      | Ok _ => at_old d
      | Err err => still d \/ moved d /\ exists a b, err = renamed_but_unlisted a b end).
Proof.
  intros Hfrom Hto. unfold rename_space_file. rewrite Hfrom, Hto. cbn [lift].
  change (mret old ≫= ?k) with (k old). change (mret new ≫= ?k) with (k new). cbv beta.
  assert (Hidle : forall d, at_old d -> mild_step d d) by (intros d Hd; by apply safe_mild, idle_old).
  assert (Hstill : forall d, at_old d -> still d) by (intros d [H [Ho _]]; done).
  assert (Hfin : triple mild_step at_both (finish_rename old new wi) (fun r d => match r with
      | Ok Renamed => at_new d | Ok _ => at_old d
      | Err err => still d \/ moved d /\ exists a b, err = renamed_but_unlisted a b end)).
  { eapply triple_conseq; [apply triple_mild, step_finish|done|].
    intros [[]|] d Hd; try done. left. by apply Hstill. }
  eapply triple_bind; [by apply triple_check; [apply _|]| |by left; apply Hstill]. intros ?.
  eapply triple_bind; [by apply triple_check; [apply _|]| |by left; apply Hstill]. intros ?.
  rewrite bool_decide_false by (intros ->; congruence).
  eapply triple_bind.
  - apply (triple_mild at_old _ (fun r d => match r with
      | Ok (Ok _) => at_both d | Ok (Err _) => at_old d | Err _ => False end)).
    intros w Hw. destruct (step_hard_link w Hw) as [HQ Ht]. split; [|done].
    destruct (hard_link old new w).1 as [[u|err]|]; cbn in *; [done|apply HQ|done].
  - intros [u|err]; [done|]. destruct (io_kind err =?= AlreadyExists); [|destruct (io_kind err =?= NotFound)].
    + eapply triple_bind; [apply triple_mild, step_same_file| |by intros err' d []].
      intros [|]; [done|by apply triple_ret].
    + apply triple_throw. intros d Hd. left. by apply Hstill.
    + apply run_without_links.
  - by intros err d [].
Qed.
End Rename.

(** What a caller sees to before it renames: the old file is there, everything the main
    config lists is there and is not the new name, and the update of the list puts the new
    name for the old one. *)
Record RenameSetting (d : Disk) (old new : str) (e : Entry) (wi : list str -> result AppError (list str)) : Prop := {
  rs_wf : wf d;
  rs_ne : old <> new;
  rs_kind : kind e <> Dir;
  rs_old : names d !! old = Some e;
  rs_listed : forall p, p ∈ includes d -> p <> new /\ is_Some (names d !! p);
  rs_update : forall l, wi (includes d) = Ok l -> forall p, p ∈ l -> p = new \/ (p ∈ includes d /\ p <> old)
}.

Lemma setting_at_old d old new e wi : RenameSetting d old new e wi -> at_old d old new e (includes d) d.
Proof. intros []. split; [|done]. split; [|done]. by split. Qed.


(** Also where the file system has no hard links, and whatever else fails, a rename
    loses nothing: after every step the file is under one of its two names, all other names
    and all contents are as they were.  After an error the file is back under its
    old name with the old list, unless the error says that it is only under the new name. *)
Lemma rename_loses_nothing ssh_dir from to wi w old new e :
  space_file_path ssh_dir from = Ok old -> space_file_path ssh_dir to = Ok new ->
  RenameSetting (disk w) old new e wi ->
  holds (mild_step (disk w) old new e) (rename_space_file ssh_dir from to wi) (fun r d =>
    match r with
    | Ok Renamed => names d !! new = Some e /\ wi (includes (disk w)) = Ok (includes d)
    | Ok _ => names d !! old = Some e /\ includes d = includes (disk w)
    | Err err => (names d !! old = Some e \/ names d !! new = Some e /\ exists a b, err = renamed_but_unlisted a b) /\
                 includes d = includes (disk w)
    end) w.
Proof.
  intros Hfrom Hto Hs. pose proof (setting_at_old _ _ _ _ _ Hs) as Ho. destruct Hs.
  destruct (run_rename_any (disk w) old new e (includes (disk w)) wi) with ssh_dir from to w as [HQ Ht]; try done.
  split; [|done]. destruct (rename_space_file ssh_dir from to wi w).1 as [[]|err].
  1-3: destruct HQ as [[Hk Hi] Hn]; split; try done; apply Hn.
  destruct HQ as [[[Hk Hi] Hn]|[[[Hk Hi] Hn] Hr]]; split; try done; [by left|by right].
Qed.

(** ** Steps that leave everything but some names alone *)

Definition all_listed (d : Disk) : Prop := forall q, q ∈ includes d -> is_Some (names d !! q).

Definition gentle (X : str -> Prop) (d d' : Disk) : Prop :=
  all_listed d' /\
  (forall q x, ~ X q -> names d !! q = Some x -> names d' !! q = Some x) /\
  (forall i n, inodes d !! i = Some n -> exists n', inodes d' !! i = Some n' /\ bytes n' = bytes n).

(** A disk with the old list. *)
Definition calm (l0 : list str) (d : Disk) : Prop := (wf d /\ all_listed d) /\ includes d = l0.

#[export] Instance stable_listed : Stable all_listed.
Proof.
  intros d f H q Hq. rewrite put_includes in Hq. destruct (H q Hq) as [x Hx]. exists x. by apply stable_name.
Qed.
#[export] Instance stable_calm l0 : Stable (calm l0).
Proof. intros d f [[H1 H2] H3]. split; [split; by apply stable_put|by rewrite put_includes]. Qed.
#[export] Instance stable_some p : Stable (fun d => is_Some (names d !! p)).
Proof. intros d f [x Hx]. exists x. by apply stable_name. Qed.

Lemma gentle_idle X d : all_listed d -> gentle X d d.
Proof. intros H. split; [done|]. split; [done|]. intros i n Hn. by exists n. Qed.

Lemma gentle_create X p k b m d : wf d -> all_listed d -> (X p \/ names d !! p = None) ->
  gentle X d (create p k b m d).
Proof.
  intros (_ & Hi & _) Hl Hp. split; [|split].
  - intros q Hq. cbn [names create]. destruct (decide (q = p)) as [->|]; [by rewrite lookup_insert_eq|].
    rewrite lookup_insert_ne by done. by apply Hl.
  - intros q x Hq Hx. cbn [names create]. rewrite lookup_insert_ne; [done|]. intros <-.
    destruct Hp as [|Hp]; [done|]. by rewrite Hp in Hx.
  - intros i n Hn. exists n. cbn [inodes create]. rewrite lookup_insert_ne; [done|]. intros <-. apply Hi in Hn. lia.
Qed.

Lemma calm_create l0 p k b m d : calm l0 d -> calm l0 (create p k b m d).
Proof.
  intros [[Hw Hl] Hi]. split; [split; [by apply create_wf|]|done].
  intros q Hq. cbn [names create]. destruct (decide (q = p)) as [->|]; [by rewrite lookup_insert_eq|].
  rewrite lookup_insert_ne by done. by apply Hl.
Qed.

Lemma alter_wf f i d : wf d -> wf (set_inodes d (alter f i (inodes d))).
Proof.
  intros (H1 & H2 & H3). split; [|split; [|done]].
  { intros q x Hx. cbn [inodes names set_inodes] in *. destruct (H1 q x Hx) as [n Hn].
    destruct (decide (i = ino x)) as [->|Hij]; [rewrite lookup_alter_eq, Hn; by eexists|].
    rewrite lookup_alter_ne by done. by exists n. }
  intros j n. cbn [inodes set_inodes next_ino].
  destruct (decide (i = j)) as [<-|Hij].
  - rewrite lookup_alter_eq. destruct (inodes d !! i) eqn:Hn; [|done]. intros _. by eapply H2.
  - rewrite lookup_alter_ne by done. by apply H2.
Qed.

Section Calm.
Variables (X : str -> Prop) (l0 : list str).

Lemma idle_calm d : calm l0 d -> gentle X d d.
Proof. intros [[_ Hl] _]. by apply gentle_idle. Qed.

(** [Q] more is known, and stays known whatever is created at a free name. *)
Definition Kept (Q : Disk -> Prop) : Prop :=
  Stable Q /\ forall p k b m d, names d !! p = None -> Q d -> Q (create p k b m d).

Lemma step_set_permissions m p : triple (gentle X) (calm l0) (set_permissions m p)
  (fun r d => calm l0 d /\ is_ok r = true).
Proof.
  apply triple_sys; [apply _|..].
  - intros d ? ? Hd. split; [by apply idle_calm|done].
  - intros d ? Hd. case_match; cbn [fst snd]; [|split; [by apply idle_calm|done]].
    destruct Hd as [[Hw Hl] Hi]. split.
    + split; [done|]. split; [done|]. intros i n Hn. cbn [inodes set_inodes].
      destruct (decide (ino e = i)) as [<-|Hij]; [rewrite lookup_alter_eq, Hn; by eexists|].
      rewrite lookup_alter_ne by done. by exists n.
    + split; [|done]. split; [split; [by apply alter_wf|done]|done].
Qed.

Lemma step_create_dir p : triple (gentle X) (calm l0) (create_dir p) (fun r d => calm l0 d /\ is_ok r = true).
Proof.
  apply triple_sys; [apply _|..].
  - intros d ? ? Hd. split; [by apply idle_calm|done].
  - intros d ? Hd. destruct (names d !! p) as [[i []]|] eqn:Hp; cbn [fst snd];
      try (split; [by apply idle_calm|done]).
    split; [|split; [by apply calm_create|done]]. apply gentle_create; try apply Hd. by right.
Qed.

Lemma step_exists p : triple (gentle X) (calm l0) (exists_ p) (fun r d => calm l0 d /\ is_ok r = true).
Proof.
  unfold exists_. eapply triple_bind; [apply triple_read; [apply _|apply idle_calm]| |by intros ? ? [_ []]].
  intros r. apply triple_ret. by intros d [Hd _].
Qed.

Lemma step_ensure_dir dir : triple (gentle X) (calm l0) (ensure_dir_secure dir) (fun _ d => calm l0 d).
Proof.
  unfold ensure_dir_secure.
  eapply triple_bind; [by apply triple_check; [apply _|apply idle_calm]| |done]. intros ?.
  eapply triple_bind; [apply step_exists| |by intros ? ? [? _]].
  intros [|]; [apply triple_ret; by intros d [? _]|].
  eapply triple_bind; [eapply triple_conseq; [apply step_create_dir|by intros d [? _]|by intros r d H; exact H]| |by intros ? ? [? _]].
  intros r. apply triple_io; [|by intros ? ? [? _]]. intros ? _.
  eapply triple_bind; [eapply triple_conseq; [apply step_set_permissions|by intros d [? _]|by intros r' d H; exact H]| |by intros ? ? [? _]].
  intros [|]; [apply triple_ret|apply triple_throw]; by intros d [? _].
Qed.
End Calm.

(** ** Adding *)

Section Add.
Variables (p : str) (l0 : list str) (initial : option (list N)) (wi : list str -> result AppError (list str)).
Hypothesis Hwi : forall l, wi l0 = Ok l -> forall q, q ∈ l -> q = p \/ q ∈ l0.

(** Only a given content replaces what is there. *)
Definition replaced (q : str) : Prop := q = p /\ initial <> None.

(** The file is there, with the content that was given. *)
Definition ready (d : Disk) : Prop := calm l0 d /\
  match initial with
  | Some b => exists i, names d !! p = Some (mkEntry i Reg) /\ inodes d !! i = Some (mkInode b 384)
  | None => is_Some (names d !! p)
  end.

#[local] Instance stable_ready : Stable ready.
Proof.
  intros d f [H1 H2]. split; [by apply stable_put|]. destruct initial as [b|]; [|by apply (stable_some p)].
  destruct H2 as (i & Hp & Hi). exists i. split; [by apply stable_name|]. apply put_inodes; [apply H1|done].
Qed.

Lemma ready_listed d l : ready d -> wi l0 = Ok l -> all_listed (set_includes d l).
Proof.
  intros [[[Hw Hl] Hi] Hr] Hok q Hq. cbn [names set_includes includes] in *.
  destruct (Hwi l Hok q Hq) as [->|Hin]; [|apply Hl; by rewrite Hi].
  destruct initial; [|done]. destruct Hr as (i & -> & _). by eexists.
Qed.

Lemma ready_idle d : ready d -> gentle replaced d d.
Proof. intros [H _]. by apply idle_calm with l0. Qed.

Lemma step_open_new m : initial = None -> triple (gentle replaced) (calm l0) (open_new m p)
  (fun r d => match r with
    | Ok (Ok _) => ready d
    | Ok (Err err) => calm l0 d /\ (io_kind err = AlreadyExists -> ready d)
    | Err _ => False end).
Proof.
  intros Hn. apply triple_sys; [apply _|..].
  - intros d ? err Hd Hf. split; [by apply idle_calm with l0|]. split; [done|].
    intros He. destruct Hf; congruence.
  - intros d ? Hd. destruct (names d !! p) eqn:Hp; cbn [fst snd].
    + split; [by apply idle_calm with l0|]. split; [done|]. intros _. split; [done|]. rewrite Hn. by eexists.
    + split; [apply gentle_create; try apply Hd; by right|]. split; [by apply calm_create|].
      rewrite Hn. cbn [names create]. by rewrite lookup_insert_eq.
Qed.

Lemma step_chmod m : initial = None -> triple (gentle replaced) ready (set_permissions m p)
  (fun r d => ready d /\ is_ok r = true).
Proof.
  intros Hn. apply triple_sys; [apply _|..].
  - intros d ? ? Hd ?. split; [by apply ready_idle|done].
  - intros d ? Hd. case_match; cbn [fst snd]; [|split; [by apply ready_idle|done]].
    destruct Hd as [[[Hw Hl] Hi] Hr]. rewrite Hn in Hr. split.
    + split; [done|]. split; [done|]. intros i n Hi'. cbn [inodes set_inodes].
      destruct (decide (ino e = i)) as [<-|Hij]; [rewrite lookup_alter_eq, Hi'; by eexists|].
      rewrite lookup_alter_ne by done. by exists n.
    + split; [|done]. split; [split; [split; [by apply alter_wf|done]|done]|]. by rewrite Hn.
Qed.

Lemma step_persist b : initial = Some b -> triple (gentle replaced) (calm l0) (persist p b 384)
  (fun r d => match r with Ok (Ok _) => ready d | Ok (Err _) => calm l0 d | Err _ => False end).
Proof.
  intros Hb. apply triple_sys; [apply _|..].
  - intros d ? ? Hd ?. split; [by apply idle_calm with l0|done].
  - intros d ? Hd.
    assert (Hc : gentle replaced d (create p Reg b 384 d) /\ ready (create p Reg b 384 d)).
    { split; [apply gentle_create; try apply Hd; left; split; [done|by rewrite Hb]|].
      split; [by apply calm_create|]. rewrite Hb. exists (next_ino d). cbn [names inodes create].
      by rewrite !lookup_insert_eq. }
    destruct (names d !! p) as [[i []]|]; cbn [fst snd]; try done. split; [by apply idle_calm with l0|done].
Qed.

Lemma step_atomic_write b : initial = Some b -> triple (gentle replaced) (calm l0) (atomic_write p b 384)
  (fun r d => match r with Ok _ => ready d | Err _ => calm l0 d end).
Proof.
  intros Hb. unfold atomic_write, sync_all.
  eapply triple_bind; [by apply triple_check; [apply _|apply idle_calm]| |done]. intros ?.
  apply triple_lift; [|done]. intros dir _.
  eapply triple_bind; [apply step_ensure_dir| |done]. intros ?. cbv beta.
  eapply triple_bind; [apply triple_read; [apply _|apply idle_calm]| |by intros ? ? [? _]]. intros r.
  apply triple_io; [|by intros ? ? [? _]]. intros ? _.
  eapply triple_bind; [eapply triple_conseq; [apply (triple_read _ (calm l0)), idle_calm|by intros d [? _]|by intros ? ? H; exact H]| |by intros ? ? [? _]].
  intros r'. apply triple_io; [|by intros ? ? [? _]]. intros ? _.
  eapply triple_bind; [eapply triple_conseq; [by apply (step_persist b)|by intros d [? _]|by intros ? ? H; exact H]| |by intros ? ? []].
  intros [u|err]; [|intros w Hw; by apply (triple_throw _ (calm l0))]. cbn [io]. change (mret u ≫= ?k) with (k u). cbv beta.
  eapply triple_bind; [apply (triple_read _ ready), ready_idle| |by intros ? ? [_ []]].
  intros ?. apply triple_ret. by intros d [? _].
Qed.

Lemma step_create_empty : initial = None -> triple (gentle replaced) (calm l0) (create_empty_space_file p)
  (fun r d => match r with Ok _ => ready d | Err _ => calm l0 d end).
Proof.
  intros Hn. unfold create_empty_space_file.
  eapply triple_bind; [by apply triple_check; [apply _|apply idle_calm]| |done]. intros ?.
  eapply (triple_bind _ _ _ _ (fun _ => calm l0)); [|intros ?|done].
  { destruct (parent p); [apply step_ensure_dir|by apply triple_ret]. }
  eapply triple_bind; [by apply step_open_new| |by intros ? ? []].
  intros [i|err]; [by apply triple_ret|].
  destruct (io_kind err =?= AlreadyExists) eqn:He; breflect.
  - apply triple_ret. intros d [_ H]. by apply H.
  - apply triple_throw. by intros d [? _].
Qed.

Lemma run_add ssh_dir file : space_file_path ssh_dir file = Ok p ->
  triple (gentle replaced) (calm l0) (add_space_file ssh_dir file initial wi)
    (fun r d => match r with
      | Ok q => q = p /\ wi l0 = Ok (includes d) /\ exists d1, ready d1 /\ d = set_includes d1 (includes d)
      | Err _ => calm l0 d end).
Proof.
  intros Hp. unfold add_space_file. rewrite Hp. cbn [lift]. change (mret p ≫= ?k) with (k p). cbv beta.
  eapply triple_bind; [by apply triple_check; [apply _|apply idle_calm]| |done]. intros ?.
  eapply (triple_bind _ _ _ _ (fun r d => match r with Ok _ => ready d | Err _ => calm l0 d end)).
  - destruct initial as [b|] eqn:Hn; [by apply step_atomic_write|].
    eapply triple_bind; [by apply step_create_empty| |done]. intros [|]; [by apply triple_ret|].
    eapply triple_bind; [by apply step_chmod| |by intros ? ? [_ ?]].
    intros [u|err]; [apply triple_ret; by intros d [? _]|].
    destruct (io_kind err =?= NotFound); [apply triple_ret|apply triple_throw]; intros d [[? ?] _]; done.
  - intros ?. eapply (triple_bind _ _ _ _ (fun r d => match r with
      | Ok _ => wi l0 = Ok (includes d) /\ exists d1, ready d1 /\ d = set_includes d1 (includes d)
      | Err _ => calm l0 d end)); [|intros ?; by apply triple_ret|done].
    apply triple_include; [apply _|..].
    + intros d l Hd Hok. pose proof Hd as [[_ Hi] _]. rewrite Hi in Hok. split.
      * split; [by apply ready_listed|]. split; [done|]. intros i n Hin. by exists n.
      * split; [done|]. by exists d.
    + intros d err Hd _. split; [by apply ready_idle|apply Hd].
  - done.
Qed.
End Add.

(** Adding a space file never overwrites a file that is already there, even one
    that appears while it runs or a broken link, unless a content is given for it; and the
    main config never lists a file that does not exist, in every state between the
    system calls.  On success the file is there (with exactly the given content and mode
    0600) and listed, after an error the list is unchanged. *)
Lemma add_file_safe_at_every_step ssh_dir file initial wi w p :
  space_file_path ssh_dir file = Ok p -> wf (disk w) -> all_listed (disk w) ->
  (forall l, wi (includes (disk w)) = Ok l -> forall q, q ∈ l -> q = p \/ q ∈ includes (disk w)) ->
  holds (gentle (fun q => q = p /\ initial <> None)) (add_space_file ssh_dir file initial wi) (fun r d =>
    match r with
    | Ok q => q = p /\ is_Some (names d !! p) /\ wi (includes (disk w)) = Ok (includes d) /\
              forall b, initial = Some b -> exists i, names d !! p = Some (mkEntry i Reg) /\ inodes d !! i = Some (mkInode b 384)
    | Err _ => includes d = includes (disk w)
    end) w.
Proof.
  intros Hp Hw Hl Hwi.
  destruct (run_add p (includes (disk w)) initial wi Hwi ssh_dir file Hp w) as [HQ Ht]; [done|].
  split; [|done]. destruct (add_space_file ssh_dir file initial wi w).1 as [q|err]; [|by apply HQ].
  destruct HQ as (-> & Hi & d1 & [_ Hr] & ->). split; [done|]. cbn [names inodes set_includes includes] in *.
  split; [|split; [done|]].
  - destruct initial; [|done]. destruct Hr as (i & -> & _). by eexists.
  - by intros b ->.
Qed.

(** ** Removing *)

Section Remove.
Variables (backups_root cwd p : str) (e : Entry) (n0 : Inode) (l0 : list str).
Variable wi : list str -> result AppError (list str).
Hypothesis Hkind : kind e = Reg.
Hypothesis Hwi : forall l, wi l0 = Ok l -> (p ∉ l) /\ forall q, q ∈ l -> q ∈ l0.

(** Where a backup may be written. *)
Definition backup_place (q : str) : Prop := exists dir name c,
  backup_dir_for backups_root cwd p = Ok dir /\ file_name p = Some name /\
  q = path_join dir (name ++ lit "." ++ dec c ++ lit ".bak").
Hypothesis Hplace : ~ backup_place p.

(** A complete copy of the file at one of these places. *)
Definition copied_at (q : str) (d : Disk) : Prop := exists x n,
  backup_place q /\ names d !! q = Some x /\ inodes d !! ino x = Some n /\ bytes n = bytes n0.
Definition copied (d : Disk) : Prop := exists q, copied_at q d.

(** The file is there, and no old backup is another name of it. *)
Definition intact (d : Disk) : Prop :=
  ((wf d /\ all_listed d) /\ (names d !! p = Some e /\ inodes d !! ino e = Some n0)) /\
  forall q x, backup_place q -> names d !! q = Some x -> ino x <> ino e.

Definition still_listed (d : Disk) : Prop := intact d /\ includes d = l0.
Definition unlisted (d : Disk) : Prop := intact d /\ wi l0 = Ok (includes d).

Definition remove_step (d d' : Disk) : Prop :=
  all_listed d' /\
  (forall q x, q <> p -> names d !! q = Some x -> names d' !! q = Some x) /\
  (names d !! p = Some e -> names d' !! p = Some e \/ ((p ∉ includes d') /\ copied d')) /\
  (inodes d !! ino e = Some n0 -> inodes d' !! ino e = Some n0).

#[local] Instance stable_intact : Stable intact.
Proof.
  intros d f [[[Hw Hl] [Hp Hi]] Hf]. split; [split; split; by apply stable_put || by apply stable_name || by apply put_inodes|].
  intros q x Hq Hx. unfold put in Hx. destruct (names d !! f.1) eqn:Hn; [by eapply Hf|]. cbn [names create] in Hx.
  apply lookup_insert_Some in Hx as [[<- <-]|[_ Hx]]; [|by eapply Hf]. cbn [ino].
  intros He. pose proof (wf_ino d p e Hw Hp). lia.
Qed.
#[local] Instance stable_still_listed : Stable still_listed.
Proof. intros d f [H1 H2]. split; [by apply stable_put|by rewrite put_includes]. Qed.
#[local] Instance stable_unlisted : Stable unlisted.
Proof. intros d f [H1 H2]. split; [by apply stable_put|by rewrite put_includes]. Qed.
#[local] Instance stable_copied q : Stable (fun d => unlisted d /\ copied_at q d).
Proof.
  intros d f [Hw (x & n & Hq & Hx & Hi & Hb)]. split; [by apply stable_put|]. exists x, n.
  split; [done|]. split; [by apply stable_name|]. split; [apply put_inodes; [apply Hw|done]|done].
Qed.

Lemma remove_idle d : intact d -> remove_step d d.
Proof. intros [[[Hw Hl] [Hp Hi]] _]. split; [done|]. split; [done|]. split; [by left|done]. Qed.
Lemma remove_idle_unlisted d : unlisted d -> remove_step d d.
Proof. intros [H _]. by apply remove_idle. Qed.

Lemma intact_create q k b m d : intact d -> names d !! q = None ->
  remove_step d (create q k b m d) /\ intact (create q k b m d).
Proof.
  intros [[[Hw Hl] [Hp Hi]] Hf] Hq. assert (Hqp : q <> p) by (intros ->; congruence).
  pose proof (wf_ino d p e Hw Hp) as Hlt. pose proof (create_wf q k b m d Hw) as Hw'.
  assert (Hl' : all_listed (create q k b m d)).
  { intros r Hr. cbn [names create]. destruct (decide (r = q)) as [->|]; [by rewrite lookup_insert_eq|].
    rewrite lookup_insert_ne by done. by apply Hl. }
  assert (Hp' : names (create q k b m d) !! p = Some e) by (cbn [names create]; by rewrite lookup_insert_ne).
  assert (Hi' : inodes d !! ino e = Some n0 -> inodes (create q k b m d) !! ino e = Some n0)
    by (intros; cbn [inodes create]; rewrite lookup_insert_ne; [done|lia]).
  split.
  - split; [done|]. split; [|split; [by left|done]].
    intros r x Hr Hx. cbn [names create]. rewrite lookup_insert_ne; [done|]. intros <-. congruence.
  - split; [split; split; auto|]. intros r x Hr Hx. cbn [names create] in Hx.
    apply lookup_insert_Some in Hx as [[<- <-]|[_ Hx]]; [cbn [ino]; lia|by eapply Hf].
Qed.

Lemma intact_write i b d : intact d -> i <> ino e ->
  remove_step d (write_inode i b d) /\ intact (write_inode i b d).
Proof.
  intros [[[Hw Hl] [Hp Hi]] Hf] Hne.
  assert (Hi' : inodes d !! ino e = Some n0 -> inodes (write_inode i b d) !! ino e = Some n0)
    by (intros; cbn [inodes write_inode set_inodes]; by rewrite lookup_alter_ne).
  split; [split; [done|]; split; [done|]; split; [by left|done]|].
  split; [|done]. split; [split; [by apply alter_wf|done]|]. split; [done|auto].
Qed.

(** A backup place can be written to, also partly. *)
Lemma intact_write_over q b d : intact d -> backup_place q ->
  remove_step d (write_over q b d) /\ intact (write_over q b d).
Proof.
  intros Hd Hq. unfold write_over. destruct (names d !! q) as [x|] eqn:Hx.
  - destruct (kind x); [|by split; [apply remove_idle|]..].
    apply intact_write; [done|]. destruct Hd as [_ Hf]. by eapply Hf.
  - by apply intact_create.
Qed.

Lemma write_over_read q b d : intact d ->
  (forall x, names d !! q = Some x -> kind x = Reg) ->
  exists x n, names (write_over q b d) !! q = Some x /\ inodes (write_over q b d) !! ino x = Some n /\ bytes n = b.
Proof.
  intros [[[(Hn & _ & _) _] _] _] Hk. unfold write_over. destruct (names d !! q) as [x|] eqn:Hx.
  - rewrite (Hk x eq_refl). destruct (Hn q x Hx) as [n Hn']. exists x. eexists. cbn [names inodes write_inode set_inodes].
    split; [done|]. rewrite lookup_alter_eq, Hn'. done.
  - exists (mkEntry (next_ino d) Reg), (mkInode b 384). cbn [names inodes create ino]. by rewrite !lookup_insert_eq.
Qed.

Lemma wl_write_over q b d : includes (write_over q b d) = includes d.
Proof. unfold write_over. destruct (names d !! q) as [x|]; [by destruct (kind x)|done]. Qed.

Lemma step_copy q b : backup_place q -> b = bytes n0 ->
  triple remove_step unlisted (copy b q) (fun r d => match r with
    | Ok (Ok _) => unlisted d /\ copied_at q d
    | Ok (Err _) => unlisted d
    | Err _ => False end).
Proof.
  intros Hq Hb.
  assert (Hw : forall b' d, unlisted d -> remove_step d (write_over q b' d) /\ unlisted (write_over q b' d)).
  { intros b' d [Hd Hi]. destruct (intact_write_over q b' d Hd Hq). split; [done|]. split; [done|]. by rewrite wl_write_over. }
  apply triple_sys; [apply _|..].
  - intros d n err Hd _. by apply Hw.
  - intros d ? Hd.
    assert (Hok : (forall x, names d !! q = Some x -> kind x = Reg) ->
      remove_step d (write_over q b d) /\ unlisted (write_over q b d) /\ copied_at q (write_over q b d)).
    { intros Hk. destruct (Hw b d Hd) as [H1 H2]. split; [done|]. split; [done|].
      destruct (write_over_read q b d (proj1 Hd) Hk) as (x & n & Hx & Hi & Hn). exists x, n. by rewrite Hn. }
    destruct (names d !! q) as [[i []]|] eqn:Hx; cbn [fst snd].
    + apply Hok. by intros x [= <-].
    + split; [by apply remove_idle_unlisted|done].
    + split; [by apply remove_idle_unlisted|done].
    + by apply Hok.
Qed.

Lemma triple_now G P `{!Stable P} : (forall d, P d -> G d d) ->
  triple G P now_millis (fun r d => P d /\ is_ok r = true).
Proof.
  intros HG w Hw.
  destruct (triple_sys G P (fun _ d => d) (fun c d => (@Ok IoError N c, d))
    (fun r d => P d /\ match r with Ok _ => True | Err _ => False end)) with w as [[HP Hr] Ht]; [|intros d c Hd; by split; [apply HG|]|done|].
  { intros d n err Hd _. by split; [apply HG|]. }
  unfold holds, now_millis. destruct (sys_partial _ _ w) as [[[c|]|] w']; done.
Qed.

Lemma step_backup_dir dir : triple remove_step unlisted (create_dir dir) (fun r d => unlisted d /\ is_ok r = true).
Proof.
  apply triple_sys; [apply _|..].
  - intros d ? ? Hd _. split; [by apply remove_idle_unlisted|done].
  - intros d ? Hd. destruct (names d !! dir) as [[i []]|] eqn:Hx; cbn [fst snd];
      try (split; [by apply remove_idle_unlisted|done]).
    destruct (intact_create dir Dir [] 493 d (proj1 Hd) Hx). split; [done|]. split; [|done]. by split; [|apply Hd].
Qed.

Lemma intact_read d : intact d -> read_path d p = Some (bytes n0).
Proof.
  intros [[_ [Hp Hi]] _]. unfold read_path. cbn [follow LINK_LIMIT]. rewrite Hp.
  revert Hkind Hi. destruct e as [i k]. cbn [kind ino]. intros -> Hi. cbn. by rewrite Hi.
Qed.

Lemma intact_exists d : intact d -> is_some (follow LINK_LIMIT d p) = true.
Proof.
  intros Hd. pose proof (intact_read d Hd) as Hr. unfold read_path in Hr. by destruct (follow LINK_LIMIT d p).
Qed.

Lemma step_check q : triple remove_step unlisted (check_write q) (fun _ d => unlisted d).
Proof. apply (triple_check _ unlisted), remove_idle_unlisted. Qed.

Lemma unlisted_read {A} (f : Disk -> result IoError A) :
  triple remove_step unlisted (sys (fun d => (f d, d))) (fun r d => unlisted d /\ match r with
    | Ok (Ok a) => f d = Ok a | Ok (Err err) => f d = Err err \/ failure err | Err _ => False end).
Proof. apply (triple_read _ unlisted), remove_idle_unlisted. Qed.

Lemma step_backup : triple remove_step unlisted (backup backups_root cwd p) (fun r d => match r with
    | Ok (Some q) => unlisted d /\ copied_at q d
    | _ => unlisted d end).
Proof.
  unfold backup, exists_. eapply triple_bind.
  { eapply (triple_bind _ _ _ _ _ (fun r d => match r with Ok _ => unlisted d | Err _ => False end)).
    - apply unlisted_read.
    - intros r. apply triple_ret. by intros d [? _].
    - by intros err d [_ []]. }
  2: done.
  intros [|]; [|by apply triple_ret]. cbn [negb].
  eapply triple_bind; [apply step_check| |done]. intros ?.
  eapply triple_bind; [apply (triple_now _ unlisted), remove_idle_unlisted| |by intros ? ? [_ ?]]. intros c.
  apply triple_lift; [|by intros ? ? [? _]]. intros name Hname.
  apply triple_lift; [|by intros ? ? [? _]]. intros dir Hdir. cbn zeta.
  set (q := path_join dir _).
  assert (Hq : backup_place q) by (exists dir, name, c; split; [done|]; split; [|done]; by apply ok_or_Ok in Hname).
  eapply triple_bind; [eapply triple_conseq; [apply step_check|by intros d [? _]|by intros ? ? H; exact H]| |done]. intros ?.
  eapply triple_bind; [apply step_check| |done]. intros ?.
  eapply triple_bind; [apply step_backup_dir| |by intros ? ? [? _]]. intros r.
  apply triple_io; [|by intros ? ? [? _]]. intros ? _.
  eapply triple_bind; [eapply triple_conseq; [apply unlisted_read|by intros d [? _]|by intros ? ? H; exact H]| |by intros ? ? [? _]].
  intros r'. apply triple_io; [|by intros ? ? [? _]]. intros b ->.
  intros w [Hw Hb]. assert (Hbn : b = bytes n0).
  { rewrite (intact_read _ (proj1 Hw)) in Hb. by injection Hb. }
  clear Hb. revert w Hw. eapply triple_bind; [by apply (step_copy q b)| |by intros ? ? []].
  intros [u|err]; [by apply triple_ret|]. by apply (triple_throw _ unlisted).
Qed.

(** The file goes only when it is no longer listed and a copy of it is complete. *)
Lemma step_remove q : triple remove_step (fun d => unlisted d /\ copied_at q d) (remove_file p)
  (fun r d => match r with
    | Ok (Ok _) => (p ∉ includes d) /\ wi l0 = Ok (includes d) /\ copied_at q d
    | Ok (Err err) => (unlisted d /\ copied_at q d) /\ failure err
    | Err _ => False end).
Proof.
  apply triple_sys; [apply _|..].
  - intros d ? err [Hd Hc] Hf. split; [by apply remove_idle_unlisted|done].
  - intros d ? [Hd Hc]. pose proof Hd as [[[[Hw Hl] [Hp Hi]] Hf] Hwl]. rewrite Hp, Hkind. cbn [fst snd].
    change (bool_decide (Reg = Dir)) with false. cbn [fst snd]. destruct (Hwi _ Hwl) as [Hnot Hsub].
    assert (Hc' : copied_at q (set_names d (delete p (names d)))).
    { destruct Hc as (x & n & Hq & Hx & Hn). exists x, n. split; [done|]. split; [|done].
      cbn [names set_names]. rewrite lookup_delete_ne; [done|]. intros <-. by apply Hplace. }
    split; [|done]. split; [|split; [|split; [|done]]].
    + intros r Hr. cbn [names set_names includes] in *. rewrite lookup_delete_ne; [by apply Hl|]. by intros <-.
    + intros r x Hr Hx. cbn [names set_names]. by rewrite lookup_delete_ne.
    + intros _. right. split; [done|]. by exists q.
Qed.

Lemma run_remove ssh_dir file : space_file_path ssh_dir file = Ok p ->
  triple remove_step still_listed (remove_space_file backups_root cwd ssh_dir file wi)
    (fun r d => match r with
      | Ok (Some q) => (p ∉ includes d) /\ wi l0 = Ok (includes d) /\ copied_at q d
      | Ok None => False
      | Err _ => intact d end).
Proof.
  assert (Hidle : forall d, still_listed d -> remove_step d d) by (intros d [Hd _]; by apply remove_idle).
  intros Hp. unfold remove_space_file. rewrite Hp. cbn [lift]. change (mret p ≫= ?k) with (k p). cbv beta.
  eapply triple_bind; [by apply (triple_check _ still_listed)| |by intros ? ? [? _]]. intros ?.
  eapply triple_bind; [by apply (triple_read _ still_listed)| |by intros ? ? [_ []]]. intros r.
  apply triple_io; [|by intros ? ? [[? _] _]]. intros b ->.
  eapply (triple_bind _ _ _ _ (fun _ => still_listed)); [|intros ?|by intros ? ? [? _]].
  { destruct b; [|by apply triple_ret; intros d [? _]].
    eapply triple_conseq; [by apply (triple_check _ still_listed)|by intros d [? _]|by intros ? ? H; exact H]. }
  eapply (triple_bind _ _ _ _ (fun r d => match r with Ok _ => unlisted d | Err _ => intact d end)); [| |done].
  { apply (triple_include _ still_listed).
    - intros d l [Hd Hi] Hok. rewrite Hi in Hok. pose proof Hd as [[[Hw Hl] [Hpe Hin]] Hf].
      assert (Hl' : all_listed (set_includes d l)).
      { intros q Hq. cbn [names set_includes includes] in *. apply Hl. rewrite Hi. by apply (Hwi l Hok). }
      split; [split; [done|]; split; [done|]; split; [by left|done]|].
      split; [|done]. split; [split; [split; [exact Hw|done]|done]|done].
    - intros d err Hd _. split; [by apply Hidle|apply Hd]. }
  intros ?. eapply triple_bind; [apply unlisted_read| |by intros ? ? [[? _] _]]. intros r.
  intros w [Hw Hr]. assert (Hex : forall b, r = Ok b -> b = true).
  { intros b' ->. injection Hr as <-. apply intact_exists, Hw. }
  clear Hr. revert w Hw. apply triple_io; [|by intros ? ? [? _]]. intros b' ->. rewrite (Hex b' eq_refl). cbn [negb].
  eapply triple_bind; [apply step_backup| |by intros ? ? [? _]].
  intros [q|]; [|apply triple_throw; by intros ? [? _]].
  eapply triple_bind; [apply step_remove| |by intros ? ? []]. intros [u|err]; [by apply triple_ret|].
  destruct (io_kind err =?= NotFound) eqn:Hk; breflect.
  - apply triple_ret. intros d [_ [?|?]]; congruence.
  - apply triple_throw. by intros d [[[? _] _] _].
Qed.
End Remove.

(** Removing a space file deletes it only when the main config no longer lists it and
    a complete copy of it is in the backups, whatever fails and wherever it stops; what
    the main config lists exists in every state, no other name changes, and after any
    error the file is still there with its content. *)
Lemma remove_file_safe_at_every_step root cwd ssh_dir file wi w p e n :
  space_file_path ssh_dir file = Ok p -> wf (disk w) -> all_listed (disk w) ->
  names (disk w) !! p = Some e -> kind e = Reg -> inodes (disk w) !! ino e = Some n ->
  (forall l, wi (includes (disk w)) = Ok l -> (p ∉ l) /\ forall q, q ∈ l -> q ∈ includes (disk w)) ->
  ~ backup_place root cwd p p ->
  (forall q x, backup_place root cwd p q -> names (disk w) !! q = Some x -> ino x <> ino e) ->
  holds (remove_step root cwd p e n) (remove_space_file root cwd ssh_dir file wi) (fun r d =>
    match r with
    | Ok (Some q) => (p ∉ includes d) /\ wi (includes (disk w)) = Ok (includes d) /\ copied_at root cwd p n q d
    | Ok None => False
    | Err _ => names d !! p = Some e /\ inodes d !! ino e = Some n
    end) w.
Proof.
  intros Hp Hw Hl He Hk Hn Hwi Hplace Hf.
  destruct (run_remove root cwd p e n (includes (disk w)) wi Hk Hwi Hplace ssh_dir file Hp w) as [HQ Ht].
  { split; [|done]. split; [|done]. by split. }
  split; [|done]. destruct (remove_space_file root cwd ssh_dir file wi w).1 as [[q|]|err]; [done..|].
  apply HQ.
Qed.
