(* ===== verification/SpaceKeepProps.v ===== *)
(** * SpaceKeepProps: leaving an account keeps the files

    [keep_files_local] of sync/space_files.rs in the logic of [SpaceFilesProps]: the files
    get a second path in another directory, the main config is changed, then the old paths go. *)

From stdpp Require Import gmap.
From S2P Require Import Prelude Text SlotRules ImportText ImportLoad HostText SpaceFiles SpaceFilesProps.

Section Keep.
Variables (d0 : Disk) (ssh_dir : str) (files : list str).
Variable wi : list KeptFile -> list str -> result AppError (list str).
Let l0 := includes d0.
Hypothesis Hwf : wf d0.
Hypothesis Hlisted : all_listed d0.
Hypothesis Hfiles : forall s, s ∈ files -> exists e, names d0 !! s = Some e /\ kind e = Reg.
Hypothesis Hwi : forall kept l, wi kept l0 = Ok l -> forall q, q ∈ l ->
  (exists k, k ∈ kept /\ q = kf_path k) \/ (q ∈ l0 /\ q ∉ files).

(** A file at a new path with the content of the source. *)
Definition is_copy (d : Disk) (s t : str) : Prop :=
  names d0 !! t = None /\
  exists e n x m, names d0 !! s = Some e /\ inodes d0 !! ino e = Some n /\
    names d !! t = Some x /\ kind x = Reg /\ inodes d !! ino x = Some m /\ bytes m = bytes n.

(** Entries outside of some names and the contents of the start; only a mode may change. *)
Definition same_bytes (d d' : Disk) : Prop := forall i n, inodes d !! i = Some n ->
  exists n', inodes d' !! i = Some n' /\ bytes n' = bytes n.
Definition preserves (X : str -> Prop) (d : Disk) : Prop :=
  wf d /\ (forall p e, ~ X p -> names d0 !! p = Some e -> names d !! p = Some e) /\ same_bytes d0 d.

#[local] Instance stable_preserves X : Stable (preserves X).
Proof.
  intros d f (Hw & Hn & Hi). split; [by apply stable_wf|]. split.
  - intros p e Hp He. apply stable_name. auto.
  - intros i n Hn0. destruct (Hi i n Hn0) as (n' & Hn' & Hb). exists n'. split; [by apply put_inodes|done].
Qed.

(** Until the list changes everything of the start is there; then the sources may go. *)
Definition base (d : Disk) : Prop := preserves (fun _ => False) d /\ includes d = l0.
Definition copies (done_ : list str) (kept : list KeptFile) (d : Disk) : Prop :=
  Forall2 (fun s k => is_copy d s (kf_path k)) done_ kept.
Definition after (kept : list KeptFile) (d : Disk) : Prop :=
  (preserves (fun q => q ∈ files) d /\ wi kept l0 = Ok (includes d)) /\ copies files kept d.

(** No entry is replaced by another one; what goes is a new name, or a source that is not
    listed and has its copy; old contents stay. *)
Definition keep_step (d d' : Disk) : Prop :=
  all_listed d' /\
  (forall q x, names d !! q = Some x -> names d' !! q = Some x \/
     (names d' !! q = None /\ (names d0 !! q = None \/
        q ∈ files /\ (q ∉ includes d') /\ exists t, is_copy d' q t))) /\
  same_bytes d0 d'.

Lemma copy_put d f s t : wf d -> is_copy d s t -> is_copy (put d f) s t.
Proof.
  intros Hw (Ht & e & n & x & m & He & Hn & Hx & Hk & Hm & Hb). split; [done|]. exists e, n, x, m.
  split; [done|]. split; [done|]. split; [by apply stable_name|]. split; [done|]. split; [by apply put_inodes|done].
Qed.

#[local] Instance stable_base : Stable base.
Proof. intros d f [H1 H2]. split; [by apply stable_put|by rewrite put_includes]. Qed.
#[local] Instance stable_base_copies dn kept : Stable (fun d => base d /\ copies dn kept d).
Proof.
  intros d f [H1 H2]. split; [by apply stable_put|]. eapply Forall2_impl; [exact H2|].
  intros s k Hs. apply copy_put; [apply H1|done].
Qed.
#[local] Instance stable_after kept : Stable (after kept).
Proof.
  intros d f [[H1 H2] H3]. split; [split; [by apply stable_put|by rewrite put_includes]|].
  eapply Forall2_impl; [exact H3|]. intros s k Hs. apply copy_put; [apply H1|done].
Qed.

Lemma base_listed d : base d -> all_listed d.
Proof.
  intros [(_ & Hn & _) Hi] q Hq. rewrite Hi in Hq. destruct (Hlisted q Hq) as [x Hx].
  exists x. by apply Hn; [intros []|].
Qed.

Lemma after_listed kept d : after kept d -> all_listed d.
Proof.
  intros [[(_ & Hn & _) Hi] Hc] q Hq. destruct (Hwi kept _ Hi q Hq) as [(k & Hk & ->)|[Hin Hnf]].
  - apply list_elem_of_lookup in Hk as [i Hk]. destruct (Forall2_lookup_r _ _ _ _ _ Hc Hk) as (s & _ & _ & H).
    destruct H as (e & n & x & m & _ & _ & Hx & _). by exists x.
  - destruct (Hlisted q Hin) as [x Hx]. exists x. by apply Hn.
Qed.

Lemma keep_idle d : all_listed d -> same_bytes d0 d -> keep_step d d.
Proof. intros Hl Hi. split; [done|]. split; [by left|done]. Qed.
Lemma base_idle d : base d -> keep_step d d.
Proof. intros H. apply keep_idle; [by apply base_listed|apply H]. Qed.
Lemma after_idle kept d : after kept d -> keep_step d d.
Proof. intros H. apply keep_idle; [by apply after_listed with kept|apply H]. Qed.

(** *** Creating *)

(** A new name only adds. *)
Lemma base_names d n : base d -> wf (set_names d n) -> (forall q x, names d !! q = Some x -> n !! q = Some x) ->
  base (set_names d n) /\ keep_step d (set_names d n).
Proof.
  intros [(Hw & Hn & Hi) Hl] Hw' Hq.
  assert (Hb : base (set_names d n)).
  { split; [|done]. split; [done|]. split; [|done]. intros q x Hx He. cbn [names set_names]. by apply Hq, Hn. }
  split; [done|]. split; [by apply base_listed|]. split; [|done]. intros q x Hx. left. by apply Hq.
Qed.

Lemma base_create q k b m d : base d -> names d !! q = None ->
  base (create q k b m d) /\ keep_step d (create q k b m d).
Proof.
  intros [(Hw & Hn & Hi) Hl] Hq.
  assert (Hsub : forall r x, names d !! r = Some x -> names (create q k b m d) !! r = Some x).
  { intros r x Hx. cbn [names create]. rewrite lookup_insert_ne; [done|]. intros <-. congruence. }
  assert (Hin : same_bytes d0 (create q k b m d)).
  { intros i n Hn0. destruct (Hi i n Hn0) as (n' & Hn' & Hb). exists n'. split; [|done].
    cbn [inodes create]. rewrite lookup_insert_ne; [done|]. destruct Hw as (_ & Hlt & _). apply Hlt in Hn'. lia. }
  assert (Hb : base (create q k b m d)).
  { split; [|done]. split; [by apply create_wf|]. split; [|done]. intros r x Hx He. by apply Hsub, Hn. }
  split; [done|]. split; [by apply base_listed|]. split; [|done]. intros r x Hx. left. by apply Hsub.
Qed.

Lemma copy_mono d d' s t :
  (forall x, names d !! t = Some x -> names d' !! t = Some x) ->
  (forall x n, names d !! t = Some x -> inodes d !! ino x = Some n -> exists n', inodes d' !! ino x = Some n' /\ bytes n' = bytes n) ->
  is_copy d s t -> is_copy d' s t.
Proof.
  intros Hn Hi (Ht & e & n & x & m & He & Hne & Hx & Hk & Hm & Hb). split; [done|].
  destruct (Hi x m Hx Hm) as (m' & Hm' & Hb'). exists e, n, x, m'. split; [done|]. split; [done|].
  split; [by apply Hn|]. split; [done|]. split; [done|]. by rewrite Hb'.
Qed.

Lemma copies_create dn kept q k b m d : base d -> names d !! q = None -> copies dn kept d ->
  copies dn kept (create q k b m d).
Proof.
  intros Hd Hq Hc. eapply Forall2_impl; [exact Hc|]. intros s t. apply copy_mono.
  - intros x Hx. cbn [names create]. rewrite lookup_insert_ne; [done|]. intros Heq. congruence.
  - intros x n Hx Hn. exists n. split; [|done]. cbn [inodes create]. rewrite lookup_insert_ne; [done|].
    intros Heq. destruct Hd as [((_ & Hlt & _) & _) _]. apply Hlt in Hn. lia.
Qed.

Section Create.
Variables (dn : list str) (kept : list KeptFile).
Definition P (d : Disk) : Prop := base d /\ copies dn kept d.

Lemma P_idle d : P d -> keep_step d d.
Proof. intros [H _]. by apply base_idle. Qed.

Lemma read_P {A} (f : Disk -> result IoError A) :
  triple keep_step P (sys (fun d => (f d, d))) (fun r d => P d /\ match r with
    | Ok (Ok a) => f d = Ok a | Ok (Err err) => f d = Err err \/ failure err | Err _ => False end).
Proof. apply (triple_read _ P), P_idle. Qed.
Lemma check_P q : triple keep_step P (check_write q) (fun _ d => P d).
Proof. apply (triple_check _ P), P_idle. Qed.

Lemma P_create q k b m d : P d -> names d !! q = None ->
  P (create q k b m d) /\ keep_step d (create q k b m d).
Proof.
  intros [Hb Hc] Hq. destruct (base_create q k b m d Hb Hq). split; [|done]. split; [done|by apply copies_create].
Qed.

Lemma link_P s t : s ∈ files -> triple keep_step P (hard_link s t) (fun r d => match r with
    | Ok (Ok _) => P d /\ is_copy d s t
    | Ok (Err _) => P d
    | Err _ => False end).
Proof.
  intros Hs. destruct (Hfiles s Hs) as (e & He & Hk). apply (triple_sys _ P).
  - intros d ? err Hd _. split; [by apply P_idle|done].
  - intros d ? Hd. pose proof Hd as [[(Hw & Hn & Hi) Hl] Hc].
    assert (Hse : names d !! s = Some e) by (apply Hn; [intros []|done]). rewrite Hse.
    destruct (names d !! t) as [y|] eqn:Ht; cbn [fst snd]; [split; [by apply P_idle|done]|].
    rewrite Hk. change (bool_decide (Reg = Dir)) with false. cbn [fst snd].
    assert (Hsub : forall q x, names d !! q = Some x -> (<[t := e]> (names d)) !! q = Some x).
    { intros q x Hx. rewrite lookup_insert_ne; [done|]. intros <-. congruence. }
    destruct (base_names d (<[t := e]> (names d))) as [Hb HG]; [apply Hd|by apply (link_wf d s)|done|].
    split; [done|]. split; [split; [done|]|].
    + eapply Forall2_impl; [exact Hc|]. intros s' k'. apply copy_mono; [by auto|]. intros x n Hx Hin. by exists n.
    + destruct Hwf as (Hino & _). destruct (Hino s e He) as [n Hn0]. destruct (Hi _ n Hn0) as (n' & Hn' & Hbn). split.
      * destruct (names d0 !! t) as [y|] eqn:Ht0; [|done]. apply Hn in Ht0; [congruence|intros []].
      * exists e, n, e, n'. cbn [names set_names inodes]. by rewrite lookup_insert_eq.
Qed.

(** **** Copying where there are no hard links *)

(** The target is a file of the operation's own: nothing else has its inode. *)
Definition own (t : str) (i : N) (d : Disk) : Prop :=
  P d /\ (names d !! t = Some (mkEntry i Reg) /\
    (forall q x, names d !! q = Some x -> ino x = i -> q = t)) /\
  (names d0 !! t = None /\ inodes d0 !! i = None /\ forall k, k ∈ kept -> kf_path k <> t).

#[local] Instance stable_own t i : Stable (own t i).
Proof.
  intros d f (H1 & [H2 H3] & H4). split; [by apply (stable_base_copies dn kept)|]. split; [|done].
  split; [by apply stable_name|]. intros q x Hx Hi. unfold put in Hx.
  destruct (names d !! f.1) eqn:Hf; [by eapply H3|]. cbn [names create] in Hx.
  apply lookup_insert_Some in Hx as [[<- <-]|[_ Hx]]; [|by eapply H3]. cbn [ino] in Hi. subst i.
  destruct H1 as [[(Hw & _) _] _]. pose proof (wf_ino d t _ Hw H2) as Hlt. cbn [ino] in Hlt. lia.
Qed.

Lemma own_idle t i d : own t i d -> keep_step d d.
Proof. intros [H _]. by apply P_idle. Qed.

Lemma own_write t i b d : own t i d -> own t i (write_inode i b d) /\ keep_step d (write_inode i b d) /\
  exists m, inodes (write_inode i b d) !! i = Some m /\ bytes m = b.
Proof.
  intros ([[(Hw & Hn & Hi) Hl] Hc] & [Ht Hu] & Ht0 & Hi0 & Hk).
  assert (Hin : same_bytes d0 (write_inode i b d)).
  { intros j n Hj. destruct (Hi j n Hj) as (n' & Hn' & Hbn). exists n'. split; [|done].
    cbn [inodes write_inode set_inodes]. rewrite lookup_alter_ne; [done|]. intros <-. congruence. }
  assert (Hb : base (write_inode i b d)).
  { split; [|done]. split; [by apply alter_wf|]. split; [done|done]. }
  split; [|split].
  - split; [split; [done|]|]; [|done]. apply Forall2_same_length_lookup_2.
    { by eapply Forall2_length. }
    intros j s k Hs Hkj. pose proof (Forall2_lookup_lr _ _ _ _ _ _ Hc Hs Hkj) as Hcp. revert Hcp. apply copy_mono; [done|].
    intros x n Hx Hnx. exists n. split; [|done]. cbn [inodes write_inode set_inodes].
    rewrite lookup_alter_ne; [done|]. intros Heq. apply (Hk k); [by eapply list_elem_of_lookup_2|by eapply Hu; [exact Hx|symmetry]].
  - split; [by apply base_listed|]. split; [by left|done].
  - destruct Hw as (Hino & _). destruct (Hino t _ Ht) as [m Hm]. cbn [ino] in Hm. eexists.
    cbn [inodes write_inode set_inodes]. by rewrite lookup_alter_eq, Hm.
Qed.

Lemma own_remove t i : triple keep_step (own t i) (remove_file t) (fun r d => P d /\ is_ok r = true).
Proof.
  apply triple_sys; [apply _|..].
  - intros d ? err Hd _. split; [by apply own_idle with t i|]. split; [apply Hd|done].
  - intros d ? ([[(Hw & Hn & Hi) Hl] Hc] & [Ht Hu] & Ht0 & Hi0 & Hk). rewrite Ht. cbn [kind].
    change (bool_decide (Reg = Dir)) with false. cbn [fst snd].
    assert (Hb : base (set_names d (delete t (names d)))).
    { split; [|done]. split; [by apply delete_wf|]. split; [|done]. intros q x Hq Hx. cbn [names set_names].
      rewrite lookup_delete_ne; [by apply Hn|]. intros <-. congruence. }
    split; [split; [by apply base_listed|split; [|done]]|split; [split; [done|]|done]].
    + intros q x Hx. cbn [names set_names]. destruct (decide (q = t)) as [->|Hq].
      * right. rewrite lookup_delete_eq. split; [done|by left].
      * left. by rewrite lookup_delete_ne.
    + apply Forall2_same_length_lookup_2; [by eapply Forall2_length|]. intros j s k Hs Hkj.
      pose proof (Forall2_lookup_lr _ _ _ _ _ _ Hc Hs Hkj) as Hcp. revert Hcp. apply copy_mono.
      * intros x Hx. cbn [names set_names]. rewrite lookup_delete_ne; [done|]. intros Heq.
        apply (Hk k); [by eapply list_elem_of_lookup_2|done].
      * intros x n Hx Hnx. by exists n.
Qed.

Lemma open_P t : triple keep_step P (open_new 384 t) (fun r d => match r with
    | Ok (Ok i) => own t i d
    | Ok (Err _) => P d
    | Err _ => False end).
Proof.
  apply (triple_sys _ P).
  - intros d ? err Hd _. split; [by apply P_idle|done].
  - intros d ? Hd. destruct (names d !! t) eqn:Ht; cbn [fst snd]; [split; [by apply P_idle|done]|].
    destruct (P_create t Reg [] 384 d Hd Ht) as [HP HG]. split; [done|]. split; [done|].
    pose proof Hd as [[(Hw & Hn & Hi) Hl] Hc]. split; [split|split; [|split]].
    + cbn [names create]. by rewrite lookup_insert_eq.
    + intros q x Hx Hxi. cbn [names create] in Hx. apply lookup_insert_Some in Hx as [[-> _]|[_ Hx]]; [done|].
      pose proof (wf_ino d q x Hw Hx). lia.
    + destruct (names d0 !! t) eqn:Ht0; [|done]. apply Hn in Ht0; [congruence|intros []].
    + destruct (inodes d0 !! next_ino d) eqn:Hi0; [|done]. apply Hi in Hi0 as (n' & Hi0 & _). destruct Hw as (_ & Hlt & _).
      apply Hlt in Hi0. lia.
    + intros k Hk Heq. apply list_elem_of_lookup in Hk as [j Hj].
      destruct (Forall2_lookup_r _ _ _ _ _ Hc Hj) as (s & _ & _ & H). destruct H as (e & n & x & m & _ & _ & Hx & _).
      congruence.
Qed.

Lemma read_source s d : s ∈ files -> base d -> exists e n, names d0 !! s = Some e /\ inodes d0 !! ino e = Some n /\
  read_path d s = Some (bytes n).
Proof.
  intros Hs [(Hw & Hn & Hi) _]. destruct (Hfiles s Hs) as ([i k] & He & Hk). cbn [kind] in Hk. subst k.
  destruct Hwf as (Hino & _). destruct (Hino s _ He) as [n Hn0]. exists (mkEntry i Reg), n.
  split; [done|]. split; [done|]. unfold read_path. cbn [follow LINK_LIMIT].
  rewrite (Hn s _ (fun H => H) He). cbn. cbn [ino] in Hn0.
  destruct (Hi i n Hn0) as (n' & -> & Hb). cbn. by rewrite Hb.
Qed.

Lemma copy_P s t : s ∈ files -> triple keep_step P (copy_new s t) (fun r d => match r with
    | Ok (Ok _) => P d /\ is_copy d s t
    | Ok (Err _) => P d
    | Err _ => False end).
Proof.
  intros Hs. unfold copy_new, check_write_io.
  eapply triple_bind; [apply read_P| |by intros ? ? [_ []]].
  intros [?|?]; [|apply triple_ret; by intros d [? _]].
  eapply triple_bind; [eapply triple_conseq; [apply read_P|by intros d [? _]|by intros ? ? H; exact H]| |by intros ? ? [_ []]].
  intros [?|?]; [|apply triple_ret; by intros d [? _]].
  eapply triple_bind; [eapply triple_conseq; [apply read_P|by intros d [? _]|by intros ? ? H; exact H]| |by intros ? ? [_ []]].
  intros [b|?]; [|apply triple_ret; by intros d [? _]].
  intros w [Hw Hb]. assert (Hbn : exists e n, names d0 !! s = Some e /\ inodes d0 !! ino e = Some n /\ b = bytes n).
  { destruct (read_source s _ Hs (proj1 Hw)) as (e & n & He & Hn & Hr). rewrite Hr in Hb. injection Hb as <-. by exists e, n. }
  clear Hb. revert w Hw. destruct Hbn as (e & n & He & Hn & ->).
  eapply triple_bind; [apply open_P| |by intros ? ? []]. intros [i|?]; [|by apply triple_ret].
  set (full := fun d => own t i d /\ exists m, inodes d !! i = Some m /\ bytes m = bytes n).
  assert (Hfull : Stable full).
  { intros d f [Ho (m & Hm & Hb)]. split; [by apply stable_own|]. exists m. split; [|done].
    apply put_inodes; [apply Ho|done]. }
  assert (Hcopy : forall d, full d -> P d /\ is_copy d s t).
  { intros d [(HP & [Ht _] & Ht0 & _) (m & Hm & Hb)]. split; [done|]. split; [done|]. by exists e, n, (mkEntry i Reg), m. }
  eapply (triple_bind _ _ _ _ (fun r d => match r with
    | Ok (Ok _) => full d | Ok (Err _) => own t i d | Err _ => False end)); [| |by intros ? ? []].
  { apply triple_sys; [apply _|..].
    - intros d k err Hd _. destruct (own_write t i (take k (bytes n)) d Hd) as (H1 & H2 & _). done.
    - intros d ? Hd. destruct (own_write t i (bytes n) d Hd) as (H1 & H2 & H3). split; [done|]. by split. }
  intros r. eapply (triple_bind _ _ _ _ (fun r d => match r with
    | Ok (Ok _) => full d | Ok (Err _) => own t i d | Err _ => False end)); [| |by intros ? ? []].
  { destruct r as [u|err]; [|by apply triple_ret].
    apply triple_sys; [apply _|..].
    - intros d ? err Hd _. split; [apply own_idle with t i; apply Hd|]. apply Hd.
    - intros d ? Hd. cbn [fst snd]. split; [apply own_idle with t i; apply Hd|done]. }
  intros [u|err]; [by apply triple_ret|].
  eapply triple_bind; [apply own_remove| |by intros ? ? [_ ?]]. intros ?. apply triple_ret. by intros d [? _].
Qed.

Lemma loop_P fuel s dir file : s ∈ files -> forall links n, triple keep_step P (kept_loop fuel s dir file links n)
  (fun r d => match r with Ok (_, t) => P d /\ is_copy d s t | Err _ => P d end).
Proof.
  intros Hs. induction fuel as [|fuel IH]; intros links n; cbn [kept_loop]; [by apply triple_throw|]. cbn zeta.
  eapply triple_bind; [apply check_P| |done]. intros ?.
  eapply triple_bind; [apply check_P| |done]. intros ?.
  eapply triple_bind; [destruct links; [by apply link_P|by apply copy_P]| |by intros ? ? []].
  intros [u|err]; [by apply triple_ret|].
  destruct (io_kind err =?= AlreadyExists); [apply IH|]. destruct links; [apply IH|by apply triple_throw].
Qed.

Lemma create_one_P s dir file : s ∈ files -> triple keep_step P (create_kept_file s dir file)
  (fun r d => match r with Ok (_, t) => P d /\ is_copy d s t | Err _ => P d end).
Proof. intros Hs w Hw. by apply loop_P. Qed.

Lemma reserve_loop_P fuel dir file reserved : forall n,
  triple keep_step P (reserve_loop fuel dir file reserved n) (fun _ d => P d).
Proof.
  induction fuel as [|fuel IH]; intros n; cbn [reserve_loop]; [by apply triple_throw|]. cbn zeta.
  eapply triple_bind; [apply check_P| |done]. intros ?. unfold symlink_metadata.
  eapply triple_bind; [apply read_P| |by intros ? ? [_ []]]. intros m.
  match goal with |- context [if ?c then _ else _] => destruct c end.
  - apply triple_ret. by intros d [? _].
  - eapply triple_conseq; [apply IH|by intros d [? _]|done].
Qed.

Lemma reserve_all_P dir sources : forall reserved, triple keep_step P (reserve_all dir sources reserved) (fun _ d => P d).
Proof.
  induction sources as [|s sources IH]; intros reserved; cbn [reserve_all]; [by apply triple_ret|].
  eapply triple_bind; [apply check_P| |done]. intros ?.
  apply triple_lift; [|done]. intros name _.
  eapply triple_bind; [intros w Hw; by apply reserve_loop_P| |done]. intros ?. apply IH.
Qed.

Lemma P_chmod i f d : (forall n, bytes (f n) = bytes n) -> P d ->
  keep_step d (set_inodes d (alter f i (inodes d))) /\ P (set_inodes d (alter f i (inodes d))).
Proof.
  intros Hf [[(Hw & Hn & Hi) Hl] Hc].
  assert (Hal : forall j n, inodes d !! j = Some n ->
    exists n', inodes (set_inodes d (alter f i (inodes d))) !! j = Some n' /\ bytes n' = bytes n).
  { intros j n Hj. cbn [inodes set_inodes]. destruct (decide (i = j)) as [<-|Hij].
    - rewrite lookup_alter_eq, Hj. cbn. by eexists.
    - rewrite lookup_alter_ne by done. by exists n. }
  assert (Hb : base (set_inodes d (alter f i (inodes d)))).
  { split; [|done]. split; [by apply alter_wf|]. split; [done|]. intros j n Hj.
    destruct (Hi j n Hj) as (n' & Hn' & Hbn). destruct (Hal j n' Hn') as (n'' & Hn'' & Hbn'). exists n''. by rewrite Hbn'. }
  split; [split; [by apply base_listed|split; [by left|apply Hb]]|]. split; [done|].
  eapply Forall2_impl; [exact Hc|]. intros s k. apply copy_mono; [done|]. intros x n _. apply Hal.
Qed.

Lemma ensure_dir_P dir : triple keep_step P (ensure_dir_secure dir) (fun _ d => P d).
Proof.
  unfold ensure_dir_secure, exists_. eapply triple_bind; [apply check_P| |done]. intros ?.
  eapply triple_bind.
  { eapply (triple_bind _ _ _ _ _ (fun r d => match r with Ok _ => P d | Err _ => False end)); [apply read_P| |by intros ? ? [_ []]].
    intros r. apply triple_ret. by intros d [? _]. }
  2: by intros ? ? [].
  intros [|]; [by apply triple_ret|].
  eapply (triple_bind _ _ _ _ (fun r d => match r with Ok _ => P d | Err _ => False end)); [| |by intros ? ? []].
  { apply (triple_sys _ P).
    - intros d ? err Hd _. split; [by apply P_idle|done].
    - intros d ? Hd. destruct (names d !! dir) as [[i []]|] eqn:Hx; cbn [fst snd]; try (split; [by apply P_idle|done]).
      destruct (P_create dir Dir [] 493 d Hd Hx). done. }
  intros r. apply triple_io; [|done]. intros ? _.
  eapply (triple_bind _ _ _ _ (fun r d => match r with Ok _ => P d | Err _ => False end)); [| |by intros ? ? []].
  { apply (triple_sys _ P).
    - intros d ? err Hd _. split; [by apply P_idle|done].
    - intros d ? Hd. case_match; cbn [fst snd]; [by apply P_chmod|split; [by apply P_idle|done]]. }
  intros [|]; [by apply triple_ret|by apply triple_throw].
Qed.
End Create.

(** *** The whole operation *)

Lemma create_each_P dir sources : forall dn kept, (forall s, s ∈ sources -> s ∈ files) ->
  triple keep_step (P dn kept) (create_each dir sources kept) (fun r d => match r with
    | Ok (kept', None) => P (dn ++ sources) kept' d
    | Ok (kept', Some _) => exists dn', P dn' kept' d
    | Err _ => False end).
Proof.
  induction sources as [|s sources IH]; intros dn kept Hs; cbn [create_each].
  { apply triple_ret. intros d Hd. by rewrite app_nil_r. }
  destruct (file_name s) as [name|]; [|apply triple_ret; intros d Hd; by exists dn].
  eapply (triple_bind _ _ _ _ (fun r d => match r with
    | Ok (Ok (_, t)) => P dn kept d /\ is_copy d s t | Ok (Err _) => P dn kept d | Err _ => False end)); [| |by intros ? ? []].
  { eapply triple_catch; [apply create_one_P; apply Hs; by left|]. by intros [[? ?]|?] d Hd. }
  intros [[new_name t]|err]; [|apply triple_ret; intros d Hd; by exists dn].
  eapply triple_conseq; [apply (IH (dn ++ [s]) (kept ++ [mkKept (INCLUDE_DIR ++ name) t (LOCAL_INCLUDE_DIR ++ new_name)]))| |].
  - intros s' Hs'. apply Hs. by right.
  - intros d [[Hb Hc] Hcp]. split; [done|]. apply Forall2_app; [done|]. by constructor.
  - intros r d. by rewrite <-app_assoc.
Qed.

Lemma create_all_P sources : (forall s, s ∈ sources -> s ∈ files) ->
  triple keep_step base (create_kept_files ssh_dir sources) (fun r d => match r with
    | Ok (kept', None) => P sources kept' d
    | Ok (kept', Some _) => exists dn', P dn' kept' d
    | Err _ => False end).
Proof.
  intros Hs. unfold create_kept_files.
  assert (HP0 : forall d, base d -> P [] [] d) by (intros d Hd; by split; [|constructor]).
  destruct (sources =?= []) eqn:He; breflect; [subst; apply triple_ret; by auto|]. cbn zeta.
  eapply (triple_conseq _ _ (P [] [])); [|done|intros r d Hr; exact Hr].
  eapply (triple_bind _ _ _ _ (fun r d => match r with Ok _ => P [] [] d | Err _ => False end)); [| |by intros ? ? []].
  { eapply (triple_catch _ _ _ (fun _ d => P [] [] d)); [|done].
    eapply triple_bind; [apply check_P| |done]. intros ?.
    eapply triple_bind; [apply reserve_all_P| |done]. intros ?. apply ensure_dir_P. }
  intros [u|err]; [|apply triple_ret; intros d Hd; by exists []].
  eapply triple_conseq; [by apply (create_each_P _ sources [] [])|done|]. by intros [[? [?|]]|] d.
Qed.

(** Taking back what was created. *)
Lemma remove_new_P t : names d0 !! t = None -> triple keep_step base (remove_ignored t) (fun r d => base d /\ is_ok r = true).
Proof.
  intros Ht. unfold remove_ignored.
  eapply (triple_bind _ _ _ _ (fun r d => base d /\ is_ok r = true)); [| |done].
  2: { intros ?. apply triple_ret. by intros d [? _]. }
  apply triple_sys; [apply _|..].
  - intros d ? err Hd _. split; [by apply base_idle|done].
  - intros d ? Hd. destruct (names d !! t) as [x|] eqn:Hx; cbn [fst snd]; [|split; [by apply base_idle|done]].
    destruct (kind x =?= Dir); cbn [fst snd]; [split; [by apply base_idle|done]|].
    pose proof Hd as [(Hw & Hn & Hi) Hl].
    assert (Hb : base (set_names d (delete t (names d)))).
    { split; [|done]. split; [by apply delete_wf|]. split; [|done]. intros q y Hq Hy. cbn [names set_names].
      rewrite lookup_delete_ne; [by apply Hn|]. intros <-. congruence. }
    split; [|done]. split; [by apply base_listed|]. split; [|apply Hd].
    intros q y Hy. cbn [names set_names]. destruct (decide (q = t)) as [->|Hq]; [|left; by rewrite lookup_delete_ne].
    right. rewrite lookup_delete_eq. split; [done|by left].
Qed.

Lemma roll_back_P kept : Forall (fun k => names d0 !! kf_path k = None) kept ->
  triple keep_step base (for_each (fun k => remove_ignored (kf_path k)) kept) (fun r d => base d /\ is_ok r = true).
Proof.
  induction 1 as [|k kept Hk _ IH]; cbn [for_each]; [by apply triple_ret|].
  eapply triple_bind; [by apply remove_new_P| |by intros ? ? [_ ?]]. intros ?.
  eapply triple_conseq; [apply IH|by intros d [? _]|done].
Qed.

(** Removing the sources, which are no longer listed. *)
Lemma remove_source_P kept s : s ∈ files -> triple keep_step (after kept) (remove_ignored s) (fun r d => after kept d /\ is_ok r = true).
Proof.
  intros Hs. unfold remove_ignored.
  eapply (triple_bind _ _ _ _ (fun r d => after kept d /\ is_ok r = true)); [| |done].
  2: { intros ?. apply triple_ret. by intros d [? _]. }
  apply triple_sys; [apply _|..].
  - intros d ? err Hd _. split; [by apply (after_idle kept)|done].
  - intros d ? Hd. destruct (names d !! s) as [x|] eqn:Hx; cbn [fst snd]; [|split; [by apply (after_idle kept)|done]].
    destruct (kind x =?= Dir); cbn [fst snd]; [split; [by apply (after_idle kept)|done]|].
    pose proof Hd as [[(Hw & Hn & Hi) Hl] Hc]. destruct (Hfiles s Hs) as (e & He & _).
    assert (Hne : forall k, k ∈ kept -> kf_path k <> s).
    { intros k Hk Heq. apply list_elem_of_lookup in Hk as [j Hj].
      destruct (Forall2_lookup_r _ _ _ _ _ Hc Hj) as (s' & _ & Ht & _). congruence. }
    assert (Ha : after kept (set_names d (delete s (names d)))).
    { split; [split; [split; [by apply delete_wf|]|done]|].
      - split; [|done]. intros q y Hq Hy. cbn [names set_names]. rewrite lookup_delete_ne; [by apply Hn|]. by intros <-.
      - apply Forall2_same_length_lookup_2; [by eapply Forall2_length|]. intros j s' k Hs' Hkj.
        pose proof (Forall2_lookup_lr _ _ _ _ _ _ Hc Hs' Hkj) as Hcp. revert Hcp. apply copy_mono.
        + intros y Hy. cbn [names set_names]. rewrite lookup_delete_ne; [done|].
          intros Heq. apply (Hne k); [by eapply list_elem_of_lookup_2|done].
        + intros y n Hy Hnx. by exists n. }
    split; [|done]. split; [by apply (after_listed kept)|]. split; [|apply Ha].
    intros q y Hy. cbn [names set_names includes]. destruct (decide (q = s)) as [->|Hq]; [|left; by rewrite lookup_delete_ne].
    right. rewrite lookup_delete_eq. split; [done|]. right. split; [done|]. split.
    + intros Hin. destruct (Hwi kept _ Hl s Hin) as [(k & Hk & Heq)|[_ ?]]; [by apply (Hne k)|done].
    + destruct Ha as [_ Ha]. apply list_elem_of_lookup in Hs as [j Hj].
      destruct (Forall2_lookup_l _ _ _ _ _ Ha Hj) as (k & _ & Hk). by exists (kf_path k).
Qed.

Lemma remove_sources_P kept l : (forall s, s ∈ l -> s ∈ files) ->
  triple keep_step (after kept) (for_each remove_ignored l) (fun r d => after kept d /\ is_ok r = true).
Proof.
  induction l as [|s l IH]; intros Hl; cbn [for_each]; [by apply triple_ret|].
  eapply triple_bind; [apply remove_source_P, Hl; by left| |by intros ? ? [_ ?]]. intros ?.
  eapply triple_conseq; [apply IH|by intros d [? _]|done]. intros s' Hs'. apply Hl. by right.
Qed.

Lemma check_all_P l : triple keep_step base (for_each check_write l) (fun _ d => base d).
Proof.
  induction l as [|s l IH]; cbn [for_each]; [by apply triple_ret|].
  eapply triple_bind; [by apply (triple_check _ base), base_idle| |done]. by intros ?.
Qed.

Lemma existing_P l : (forall s, s ∈ l -> s ∈ files) ->
  triple keep_step base (existing l) (fun r d => base d /\ forall l', r = Ok l' -> l' = l).
Proof.
  induction l as [|s l IH]; intros Hl; cbn [existing]; [apply triple_ret; intros d Hd; split; [done|by intros ? [= <-]]|].
  eapply triple_bind; [by apply (triple_read _ base), base_idle| |by intros ? ? [_ []]]. intros r.
  intros w [Hw Hr]. assert (Hex : forall b, r = Ok b -> b = true).
  { intros b ->. destruct (read_source s _ (Hl s ltac:(by left)) Hw) as (e & n & _ & _ & Hrd).
    assert (Hb : is_some (follow LINK_LIMIT (disk w) s) = b) by congruence. rewrite <-Hb.
    unfold read_path in Hrd. by destruct (follow LINK_LIMIT (disk w) s). }
  clear Hr. revert w Hw. apply triple_io; [|intros err d Hd; split; [done|by intros ? ?]].
  intros b ->. rewrite (Hex b eq_refl).
  eapply triple_bind; [apply IH; intros s' Hs'; apply Hl; by right| |by intros err d [? _]; split].
  intros l'. apply triple_ret. intros d [Hd Hl']. split; [done|]. intros ? [= <-]. by rewrite (Hl' l').
Qed.

Lemma run_keep : triple keep_step base (keep_files_local ssh_dir files wi) (fun r d => match r with
    | Ok kept => after kept d
    | Err _ => base d end).
Proof.
  unfold keep_files_local.
  eapply triple_bind; [by apply (triple_check _ base), base_idle| |done]. intros ?.
  eapply triple_bind; [apply check_all_P| |done]. intros ?.
  eapply triple_bind; [apply existing_P; auto| |by intros ? ? [? _]]. intros sources.
  intros w [Hw He]. rewrite (He _ eq_refl) in *. clear He. revert w Hw.
  eapply triple_bind; [apply create_all_P; auto| |by intros ? ? []]. intros [kept failed].
  assert (Hnone : forall dn d, P dn kept d -> Forall (fun k => names d0 !! kf_path k = None) kept).
  { intros dn d [_ Hc]. apply Forall_lookup. intros j k Hj. by destruct (Forall2_lookup_r _ _ _ _ _ Hc Hj) as (s & _ & Ht & _). }
  eapply (triple_bind _ _ _ _ (fun r d => match r with
    | Ok (Ok _) => after kept d
    | Ok (Err _) => base d /\ Forall (fun k => names d0 !! kf_path k = None) kept
    | Err _ => False end)); [| |by intros ? ? []].
  - destruct failed as [err|].
    { apply triple_ret. intros d (dn & Hd). split; [apply Hd|by eapply Hnone]. }
    eapply (triple_catch _ _ _ (fun r d => match r with Ok _ => after kept d | Err _ => P files kept d end)).
    + apply (triple_include _ (P files kept)).
      * intros d l Hd Hok. pose proof Hd as [[(Hw & Hn & Hi) Hl] Hc]. rewrite Hl in Hok.
        assert (Ha : after kept (set_includes d l)).
        { split; [split; [|done]|done]. split; [done|]. split; [|done]. intros q x Hq Hx. apply Hn; [intros []|done]. }
        split; [|done]. split; [by apply (after_listed kept)|]. split; [by left|done].
      * intros d err Hd _. split; [by apply (P_idle files kept)|done].
    + intros [u|err] d Hd; [done|]. split; [apply Hd|by eapply Hnone].
  - intros [u|err].
    + eapply triple_bind; [apply remove_sources_P; auto| |by intros ? ? [_ ?]]. intros ?. apply triple_ret. by intros d [? _].
    + intros w [Hw HF]. revert w Hw. eapply triple_bind; [by apply roll_back_P| |by intros ? ? [_ ?]].
      intros ?. apply triple_throw. by intros d [? _].
Qed.
End Keep.

(** C40. Keeping the files of an account loses and overwrites nothing, whatever fails and
    wherever it stops: in every state what the main config lists exists; an entry is
    never replaced; what disappears is a name that was not there at the start, or the old
    path of a file that is not listed any more and has its copy; all contents stay.  On
    success every file has a new path with its content and the new list is in force;
    after an error all files are where they were and the list is the old one. *)
Theorem keep_files_safe_at_every_step ssh_dir files wi w :
  wf (disk w) -> all_listed (disk w) ->
  (forall s, s ∈ files -> exists e, names (disk w) !! s = Some e /\ kind e = Reg) ->
  (forall kept l, wi kept (includes (disk w)) = Ok l -> forall q, q ∈ l ->
     (exists k, k ∈ kept /\ q = kf_path k) \/ (q ∈ includes (disk w) /\ (q ∉ files))) ->
  holds (keep_step (disk w) files) (keep_files_local ssh_dir files wi) (fun r d =>
    match r with
    | Ok kept => Forall2 (fun s k => is_copy (disk w) d s (kf_path k)) files kept /\
        wi kept (includes (disk w)) = Ok (includes d) /\
        forall q x, q ∉ files -> names (disk w) !! q = Some x -> names d !! q = Some x
    | Err _ => includes d = includes (disk w) /\
        forall q x, names (disk w) !! q = Some x -> names d !! q = Some x
    end) w.
Proof.
  intros Hw Hl Hf Hwi. destruct (run_keep (disk w) ssh_dir files wi Hw Hl Hf Hwi w) as [HQ Ht].
  { split; [|done]. split; [done|]. split; [done|]. intros i n Hn. by exists n. }
  split; [|done]. destruct (keep_files_local ssh_dir files wi w).1 as [kept|err].
  - destruct HQ as [[(_ & Hn & _) Hi] Hc]. by split.
  - destruct HQ as [(_ & Hn & _) Hi]. split; [done|]. intros q x. apply Hn. by intros [].
Qed.

(** ** The candidates run out never *)

Lemma strip_suffix_Some p s r : strip_suffix p s = Some r -> s = r ++ p.
Proof.
  unfold strip_suffix. destruct (strip_prefix (reverse p) (reverse s)) as [x|] eqn:H; [|done].
  intros [= <-]. apply strip_prefix_Some in H. by rewrite <-(reverse_involutive s), H, reverse_app, reverse_involutive.
Qed.

Lemma candidate_inj file n m : 1 <= n -> 1 <= m -> candidate file n = candidate file m -> n = m.
Proof.
  unfold candidate. set (stem := default file _).
  assert (Hlen : length file <= length stem + 7).
  { unfold stem. destruct (strip_suffix (lit ".config") file) as [r|] eqn:H; cbn [default]; [|lia].
    apply strip_suffix_Some in H. rewrite H at 1. rewrite length_app. by cbn. }
  assert (Hlong : forall k, length (stem ++ lit "-" ++ dec (N.of_nat k) ++ lit ".config") > length file).
  { intros k. rewrite !length_app. change (length (lit "-")) with 1. change (length (lit ".config")) with 7. lia. }
  intros Hn Hm. destruct (Nat.eqb_spec n 1) as [->|], (Nat.eqb_spec m 1) as [->|]; intros He; try done.
  - pose proof (Hlong m) as H. rewrite <-He in H. lia.
  - pose proof (Hlong n) as H. rewrite He in H. lia.
  - apply app_inv_head, app_inv_head, app_inv_tail, dec_inj in He. lia.
Qed.

(** How many names there are and can still appear from outside. *)
Definition puts (s : list Happens) : nat := sum_list (map (fun h => length (appear h)) s).
Definition budget (w : World) : nat := size (names (disk w)) + puts (script w).
Definition grows (w w' : World) : Prop :=
  (forall q, is_Some (names (disk w) !! q) -> is_Some (names (disk w') !! q)) /\ budget w' <= budget w.

Lemma grows_trans w1 w2 w3 : grows w1 w2 -> grows w2 w3 -> grows w1 w3.
Proof. intros [H1 H2] [H3 H4]. split; [auto|lia]. Qed.

Lemma size_puts l : forall d, size (names (foldl put d l)) <= size (names d) + length l /\
  forall q, is_Some (names d !! q) -> is_Some (names (foldl put d l) !! q).
Proof.
  induction l as [|f l IH]; intros d; cbn [foldl length]; [split; [lia|done]|].
  destruct (IH (put d f)) as [H1 H2]. split.
  - enough (size (names (put d f)) <= S (size (names d))) by lia. unfold put.
    destruct (names d !! f.1) eqn:Hf; [lia|]. cbn [names create]. rewrite map_size_insert, Hf. lia.
  - intros q Hq. apply H2. by apply (stable_some q).
Qed.

(** The disk a system call starts from. *)
Lemma grows_call w d' s : next_happens w = (s.1, s.2) -> names d' = names (foldl put (disk w) (appear s.1)) ->
  forall tr, grows w (mkWorld d' s.2 tr).
Proof.
  intros Hn Hd tr. destruct s as [h l]. cbn [fst snd] in *. destruct (size_puts (appear h) (disk w)) as [H1 H2]. split.
  - cbn [disk]. by rewrite Hd.
  - unfold budget. cbn [disk script]. rewrite Hd. unfold next_happens in Hn.
    destruct (script w) as [|h' l']; injection Hn as <- <-; [cbn in *; lia|].
    unfold puts. cbn [map sum_list]. unfold id. lia.
Qed.

Lemma sys_grows {A} (f : Disk -> result IoError A) w :
  grows w (sys (fun d => (f d, d)) w).2 /\ exists r, (sys (fun d => (f d, d)) w).1 = Ok r /\
    forall e, r = Err e -> f (disk (sys (fun d => (f d, d)) w).2) = Err e \/ failure e.
Proof.
  unfold sys, sys_partial. destruct (next_happens w) as [h s] eqn:Hn. cbn [fst snd].
  destruct (fails h) as [e|]; cbn [fst snd disk]; split; try (by apply (grows_call w _ (h, s))).
  - eexists. split; [done|]. intros e' [= <-]. right. apply fault_failure.
  - eexists. split; [done|]. intros e' ->. by left.
Qed.

Lemma check_grows p w : grows w (check_write p w).2 /\ (check_write p w).1 <> Err out_of_names.
Proof.
  unfold check_write, check_write_io, mbind, m_bind. destruct (sys_grows (fun _ => Ok tt) w) as [Hg (r & Hr & _)].
  destruct (sys (fun d : Disk => (Ok tt, d)) w) as [r' w']. cbn [fst snd] in *. subst r'.
  destruct r as [u|e]; cbn; [done|]. split; [done|]. by case_match.
Qed.

Lemma link_grows s t w : exists r, (hard_link s t w).1 = Ok r /\ forall e, r = Err e ->
  grows w (hard_link s t w).2 /\ (io_kind e = AlreadyExists -> is_Some (names (disk (hard_link s t w).2) !! t)).
Proof.
  unfold hard_link, sys, sys_partial. destruct (next_happens w) as [h hs] eqn:Hn. cbn [fst snd].
  set (d := foldl put (disk w) (appear h)). destruct (fails h) as [f|]; cbn [fst snd disk].
  { eexists. split; [done|]. intros e [= <-]. split; [by apply (grows_call w _ (h, hs))|].
    intros He. destruct (fault_failure f); congruence. }
  destruct (names d !! s) as [x|], (names d !! t) as [y|] eqn:Ht; cbn [fst snd disk].
  2: destruct (kind x =?= Dir); cbn [fst snd disk].
  all: eexists; split; [done|]; intros e He; first [discriminate He|injection He as <-;
    (split; [by apply (grows_call w _ (h, hs))|intros Hk; first [discriminate Hk|by eexists]])].
Qed.

Lemma open_grows m t w : exists r, (open_new m t w).1 = Ok r /\ forall e, r = Err e ->
  grows w (open_new m t w).2 /\ (io_kind e = AlreadyExists -> is_Some (names (disk (open_new m t w).2) !! t)).
Proof.
  unfold open_new, sys, sys_partial. destruct (next_happens w) as [h hs] eqn:Hn. cbn [fst snd].
  set (d := foldl put (disk w) (appear h)). destruct (fails h) as [f|]; cbn [fst snd disk].
  { eexists. split; [done|]. intros e [= <-]. split; [by apply (grows_call w _ (h, hs))|].
    intros He. destruct (fault_failure f); congruence. }
  destruct (names d !! t) as [y|] eqn:Ht; cbn [fst snd disk].
  all: eexists; split; [done|]; intros e He; first [discriminate He|injection He as <-;
    (split; [by apply (grows_call w _ (h, hs))|intros Hk; first [discriminate Hk|by eexists]])].
Qed.

Lemma bind_run {A B} (m : M A) (k : A -> M B) w a : (m w).1 = Ok a -> (m ≫= k) w = k a (m w).2.
Proof. unfold mbind, m_bind. destruct (m w) as [r w']. cbn. by intros ->. Qed.

Lemma sys_Ok {A} g (f : N -> Disk -> result IoError A * Disk) w : exists r, (sys_partial g f w).1 = Ok r.
Proof.
  unfold sys_partial. destruct (next_happens w) as [h s]. destruct (match fails h with Some e => _ | None => _ end) as [r d'].
  by eexists.
Qed.

Lemma total_write {A} g (f : N -> Disk -> result IoError A * Disk) (P : IoError -> Prop) w :
  (forall c d e, (f c d).1 = Err e -> P e) -> (forall e, failure e -> P e) ->
  exists r, (sys_partial g f w).1 = Ok r /\ forall e, r = Err e -> P e.
Proof.
  intros Hf Hp. unfold sys_partial. destruct (next_happens w) as [h s]. destruct (fails h) as [fl|].
  - eexists. split; [done|]. intros e [= <-]. apply Hp, fault_failure.
  - specialize (Hf (clock h) (foldl put (disk w) (appear h))). destruct (f _ _) as [r d']. cbn [fst] in *.
    eexists. split; [done|]. apply Hf.
Qed.

Lemma copy_grows s t w : exists r, (copy_new s t w).1 = Ok r /\ forall e, r = Err e -> io_kind e = AlreadyExists ->
  grows w (copy_new s t w).2 /\ is_Some (names (disk (copy_new s t w).2) !! t).
Proof.
  assert (Hno : forall e, failure e -> io_kind e = AlreadyExists -> False) by (intros e [?|?] ?; congruence).
  unfold copy_new, check_write_io, read_file.
  destruct (sys_grows (fun _ => Ok tt) w) as [Hg1 (r1 & Hr1 & He1)]. rewrite (bind_run _ _ _ _ Hr1).
  set (w1 := (sys (fun d : Disk => (Ok tt, d)) w).2) in *.
  destruct r1 as [?|e1]; [|exists (Err e1); split; [done|]; intros ? [= <-] Hk; destruct (He1 _ eq_refl); [done|by destruct (Hno e1)]].
  destruct (sys_grows (fun _ => Ok tt) w1) as [Hg2 (r2 & Hr2 & He2)]. rewrite (bind_run _ _ _ _ Hr2).
  set (w2 := (sys (fun d : Disk => (Ok tt, d)) w1).2) in *.
  destruct r2 as [?|e2]; [|exists (Err e2); split; [done|]; intros ? [= <-] Hk; destruct (He2 _ eq_refl); [done|by destruct (Hno e2)]].
  set (rd := fun d => match read_path d s with Some b => Ok b | None => Err (os_error NotFound) end).
  destruct (sys_grows rd w2) as [Hg3 (r3 & Hr3 & He3)]. rewrite (bind_run _ _ _ _ Hr3).
  set (w3 := (sys (fun d : Disk => (rd d, d)) w2).2) in *.
  destruct r3 as [b|e3].
  2: { exists (Err e3). split; [done|]. intros ? [= <-] Hk. destruct (He3 _ eq_refl) as [Hrd|]; [|by destruct (Hno e3)].
       unfold rd in Hrd. destruct (read_path _ s); [done|]. by injection Hrd as <-. }
  destruct (open_grows 384 t w3) as (r4 & Hr4 & He4). rewrite (bind_run _ _ _ _ Hr4).
  destruct r4 as [i|e4].
  2: { exists (Err e4). split; [done|]. intros ? [= <-] Hk. destruct (He4 _ eq_refl) as [Hg4 Hp]. split; [|by apply Hp].
       cbn. eauto using grows_trans. }
  set (w4 := (open_new 384 t w3).2) in *. unfold write_all, sync_all.
  destruct (total_write (fun n => write_inode i (take n b)) (fun _ d => (@Ok IoError unit tt, write_inode i b d)) failure w4)
    as (r5 & Hr5 & He5); [done|done|]. rewrite (bind_run _ _ _ _ Hr5). set (w5 := (sys_partial _ _ w4).2) in *.
  assert (exists r6, ((match r5 with Ok _ => sys (fun d => (Ok tt, d)) | Err e => mret (Err e) end : M (result IoError unit)) w5).1 = Ok r6 /\
    forall e, r6 = Err e -> failure e) as (r6 & Hr6 & He6).
  { destruct r5 as [?|e5]; [|exists (Err e5); split; [done|]; by apply He5].
    by apply (total_write (fun _ d => d) (fun _ d => (@Ok IoError unit tt, d))). }
  rewrite (bind_run _ _ _ _ Hr6). destruct r6 as [?|e6]; [by exists (Ok tt)|].
  set (w6 := (_ w5).2). unfold remove_file, sys.
  match goal with |- context [sys_partial ?g ?f] => destruct (sys_Ok g f w6) as [r7 Hr7] end.
  rewrite (bind_run _ _ _ _ Hr7). exists (Err e6). split; [done|]. intros ? [= <-] Hk. by destruct (Hno e6 (He6 _ eq_refl)).
Qed.

Lemma path_join_inj dir a b : is_absolute a = false -> is_absolute b = false ->
  path_join dir a = path_join dir b -> a = b.
Proof.
  unfold path_join. intros -> ->. destruct (ends_with (lit "/") dir || (dir =?= [])).
  - by intros H%app_inv_head.
  - by intros H%app_inv_head%app_inv_head.
Qed.

Lemma absolute_cons c r : is_absolute (c :: r) = (47 =? c)%N.
Proof. unfold is_absolute, starts_with. change (lit "/") with [47%N]. cbn [strip_prefix]. by destruct (47 =? c)%N. Qed.

Lemma candidate_relative file n : file <> [] -> is_absolute file = false -> is_absolute (candidate file n) = false.
Proof.
  intros Hne Hf. unfold candidate. destruct (n =? 1)%nat; [done|].
  set (stem := default file _).
  assert (Hs : stem = [] \/ exists c r r', stem = c :: r /\ file = c :: r').
  { unfold stem. destruct (strip_suffix (lit ".config") file) as [s|] eqn:H; cbn [default].
    - apply strip_suffix_Some in H. destruct s as [|c s]; [by left|right]. exists c, s, (s ++ lit ".config"). by split.
    - right. destruct file as [|c r]; [done|]. by exists c, r, r. }
  destruct Hs as [-> | (c & r & r' & -> & ->)]; [done|].
  change ((c :: r) ++ ?x) with (c :: (r ++ x)). by rewrite absolute_cons in *.
Qed.

(** As many names, or reserved paths, as candidates that were refused. *)
Lemma refused_bound (dir file : str) (n : nat) (nm : gmap str Entry) (reserved : list str) :
  file <> [] -> is_absolute file = false ->
  (forall m, 1 <= m < n -> is_Some (nm !! path_join dir (candidate file m)) \/ path_join dir (candidate file m) ∈ reserved) ->
  n - 1 <= size nm + length reserved.
Proof.
  intros Hne Hf Hall. set (l := map (fun m => path_join dir (candidate file m)) (seq 1 (n - 1))).
  assert (Hnd : NoDup l).
  { unfold l. apply NoDup_fmap_2_strong; [|apply NoDup_seq]. intros a b Ha Hb Heq.
    apply elem_of_seq in Ha, Hb. apply path_join_inj in Heq; [|by apply candidate_relative..].
    by apply candidate_inj in Heq; lia. }
  assert (Hsub : l ⊆ elements (dom nm) ++ reserved).
  { intros q Hq. apply list_elem_of_fmap in Hq as (m & -> & Hm). apply elem_of_seq in Hm. apply elem_of_app.
    destruct (Hall m ltac:(lia)) as [H|H]; [left|by right]. by apply elem_of_elements, elem_of_dom. }
  apply NoDup_submseteq in Hsub; [|done]. apply submseteq_length in Hsub.
  rewrite length_app in Hsub. change (length (elements (dom nm))) with (size (dom nm)) in Hsub.
  rewrite size_dom in Hsub. unfold l in Hsub. by rewrite length_map, length_seq in Hsub.
Qed.

Lemma loop_ends B dir s file : file <> [] -> is_absolute file = false ->
  forall fuel links n w, 1 <= n -> budget w <= B -> B + 1 + (if links : bool then 1 else 0) < fuel + n ->
  (forall m, 1 <= m < n -> is_Some (names (disk w) !! path_join dir (candidate file m))) ->
  (kept_loop fuel s dir file links n w).1 <> Err out_of_names.
Proof.
  intros Hne Hrel. induction fuel as [|fuel IH]; intros links n w Hn HB Hfuel Hall.
  { pose proof (refused_bound dir file n (names (disk w)) [] Hne Hrel (fun m Hm => or_introl (Hall m Hm))).
    unfold budget in HB. cbn [length] in *. destruct links; lia. }
  cbn [kept_loop]. cbn zeta. set (t := path_join dir (candidate file n)).
  assert (Hgo : forall p (k : unit -> M (str * str)) w0, ((k tt) (check_write p w0).2).1 <> Err out_of_names ->
    ((check_write p ≫= k) w0).1 <> Err out_of_names).
  { intros p k w0 Hk. destruct (check_grows p w0) as [_ He]. unfold mbind, m_bind.
    destruct (check_write p w0) as [[[]|e] w1]; [done|]. cbn in *. congruence. }
  apply Hgo, Hgo. set (w2 := (check_write t (check_write s w).2).2).
  assert (Hg2 : grows w w2) by (eapply grows_trans; [apply check_grows|apply check_grows]).
  set (call := if links then hard_link s t else copy_new s t).
  assert (exists r, (call w2).1 = Ok r /\ forall e, r = Err e ->
    (links = true -> grows w2 (call w2).2) /\
    (io_kind e = AlreadyExists -> grows w2 (call w2).2 /\ is_Some (names (disk (call w2).2) !! t))) as (r & Hr & He).
  { unfold call. destruct links.
    - destruct (link_grows s t w2) as (r & Hr & He). exists r. split; [done|]. intros e ->. destruct (He e eq_refl). auto.
    - destruct (copy_grows s t w2) as (r & Hr & He). exists r. split; [done|]. intros e ->. split; [done|]. by apply He. }
  rewrite (bind_run _ _ _ _ Hr). destruct r as [u|e]; [done|]. destruct (He e eq_refl) as [He1 He2].
  destruct (io_kind e =?= AlreadyExists) eqn:Hk; breflect.
  - destruct (He2 Hk) as [Hg Ht]. destruct (grows_trans _ _ _ Hg2 Hg) as [Hn3 HB3].
    apply IH; [lia|lia|destruct links; lia|]. intros m Hm. destruct (decide (m = n)) as [->|]; [done|].
    apply Hn3, Hall. lia.
  - destruct links; [|done]. destruct (grows_trans _ _ _ Hg2 (He1 eq_refl)) as [Hn3 HB3].
    apply IH; [lia|lia|lia|]. intros m Hm. by apply Hn3, Hall.
Qed.

Lemma reserve_ends B dir file reserved : file <> [] -> is_absolute file = false ->
  forall fuel n w, 1 <= n -> budget w <= B -> B + length reserved + 1 < fuel + n ->
  (forall m, 1 <= m < n -> is_Some (names (disk w) !! path_join dir (candidate file m)) \/
     path_join dir (candidate file m) ∈ reserved) ->
  (reserve_loop fuel dir file reserved n w).1 <> Err out_of_names.
Proof.
  intros Hne Hrel. induction fuel as [|fuel IH]; intros n w Hn HB Hfuel Hall.
  { pose proof (refused_bound dir file n _ _ Hne Hrel Hall). unfold budget in HB. lia. }
  cbn [reserve_loop]. cbn zeta. set (t := path_join dir (candidate file n)).
  destruct (check_grows t w) as [Hg He]. unfold mbind at 1. unfold m_bind at 1.
  destruct (check_write t w) as [[[]|e] w1]; cbn [fst snd] in *; [|congruence].
  set (f := fun d => match names d !! t with Some e => Ok e | None => Err (os_error NotFound) end).
  destruct (sys_grows f w1) as [Hg2 (r & Hr & _)]. unfold symlink_metadata.
  assert (Hin : forall e, r = Ok e -> is_Some (names (disk (sys (fun d => (f d, d)) w1).2) !! t)).
  { intros e ->. revert Hr. unfold sys, sys_partial. destruct (next_happens w1) as [h s].
    destruct (fails h); [done|]. cbn [fst snd disk]. unfold f. destruct (names _ !! t); [by eexists|done]. }
  rewrite (bind_run _ _ _ _ Hr). set (w2 := (sys (fun d => (f d, d)) w1).2) in *.
  destruct (grows_trans _ _ _ Hg Hg2) as [Hn3 HB3].
  match goal with |- context [if ?c then _ else _] => destruct c eqn:Hc end; [done|].
  apply IH; [lia|lia|lia|]. intros m Hm. destruct (decide (m = n)) as [->|].
  - destruct r as [e|e]; [left; by eapply Hin|right]. breflect. done.
  - destruct (Hall m) as [H|H]; [lia|left; by apply Hn3|by right].
Qed.

(** The search for a free name ends: trying the numbered candidates one after the other,
    first by hard link and, where links are refused, by copying, always stops within the
    number of names that exist or still appear, with a new path or with an error of a call, and
    never because the candidates ran out; and so does the check of the candidates before it. *)
Lemma kept_file_search_ends source dir file reserved w :
  file <> [] -> is_absolute file = false ->
  (create_kept_file source dir file w).1 <> Err out_of_names /\
  (reserve_loop (fuel_of w + length reserved) dir file reserved 1 w).1 <> Err out_of_names.
Proof.
  intros Hne Hrel. split.
  - unfold create_kept_file. apply (loop_ends (budget w)); try done.
    + unfold fuel_of, budget, puts. lia.
    + intros m Hm. lia.
  - apply (reserve_ends (budget w)); try done.
    + unfold fuel_of, budget, puts. lia.
    + intros m Hm. lia.
Qed.
