(* ===== verification/SpaceNameProps.v ===== *)
(** * SpaceNameProps: the names of space files and the order of the Include list

    At the end the theorems on space files are applied on a small disk. *)

From stdpp Require Import gmap.
From S2P Require Import Prelude Text SlotRules ImportText ImportLoad HostText SlotKeys SpaceFiles SpaceFilesProps SpaceKeepProps.

(** ** Slugs *)

(** No two dashes in a row. *)
Definition no_double (s : str) : Prop := forall i, s !! i = Some 45%N -> s !! (S i) <> Some 45%N.

Definition slug_or_dash (c : N) : bool := is_slug_char c || (c =? 45)%N.

Record Slug (s : str) : Prop := {
  sl_chars : forallb slug_or_dash s = true;
  sl_head : head s <> Some 45%N;
  sl_last : last s <> Some 45%N;
  sl_double : no_double s
}.

Lemma window_double s : contains_window (lit "--") s = false <-> no_double s.
Proof.
  change (lit "--") with [45; 45]%N. induction s as [|c s IH]; cbn [contains_window].
  - split; [intros _ i Hi; by rewrite lookup_nil in Hi|done].
  - rewrite orb_false_iff, IH. unfold starts_with. cbn [strip_prefix]. split.
    + intros [H1 H2] [|i] Hi; [|by apply (H2 i)]. injection Hi as ->. cbn in H1.
      destruct s as [|d s]; [done|]. cbn. intros [= ->]. cbn in H1. done.
    + intros H. split; [|intros i Hi Hj; by apply (H (S i))].
      destruct (N.eqb_spec 45 c) as [<-|]; [|done]. destruct s as [|d s]; [done|].
      destruct (N.eqb_spec 45 d) as [<-|]; [|done]. by destruct (H 0 eq_refl).
Qed.

Lemma slug_char_not_dash c : is_slug_char c = true -> c <> 45%N.
Proof. intros H ->. done. Qed.

Lemma Slug_nil : Slug [].
Proof. by split. Qed.

Lemma no_double_snoc s c : no_double s -> (c = 45%N -> last s <> Some 45%N) -> no_double (s ++ [c]).
Proof.
  intros Hs Hc i Hi Hj. apply lookup_app_Some in Hi as [Hi|[Hle Hi]].
  - apply lookup_app_Some in Hj as [Hj|[Hlen Hj]]; [by apply (Hs i)|].
    apply list_lookup_singleton_Some in Hj as [He Hce]. apply Hc; [done|].
    apply lookup_lt_Some in Hi as Hlt. rewrite last_lookup. by replace (pred (length s)) with i by lia.
  - apply list_lookup_singleton_Some in Hi as [He _]. apply lookup_lt_Some in Hj. rewrite length_app in Hj. cbn in Hj. lia.
Qed.

Lemma Slug_snoc s c : Slug s -> is_slug_char c = true -> Slug (s ++ [c]).
Proof.
  intros [H1 H2 H3 H4] Hc. pose proof (slug_char_not_dash c Hc) as Hne. split.
  - rewrite forallb_app, H1. cbn. unfold slug_or_dash. by rewrite Hc.
  - destruct s; [cbn; congruence|done].
  - rewrite last_snoc. congruence.
  - by apply no_double_snoc.
Qed.

Lemma Slug_dash_snoc s c : Slug s -> s <> [] -> is_slug_char c = true -> Slug ((s ++ [45%N]) ++ [c]).
Proof.
  intros [H1 H2 H3 H4] Hs Hc. pose proof (slug_char_not_dash c Hc) as Hne. split.
  - rewrite !forallb_app, H1. cbn. unfold slug_or_dash. by rewrite Hc.
  - by destruct s.
  - rewrite last_snoc. congruence.
  - apply no_double_snoc; [by apply no_double_snoc|done].
Qed.

Lemma slug_chars_Slug s : forall slug gap, Slug slug -> Slug (slug_chars slug gap s).
Proof.
  induction s as [|c s IH]; intros slug gap Hs; cbn [slug_chars]; [done|].
  destruct (is_slug_char c) eqn:Hc; [|by apply IH]. apply IH.
  destruct gap; cbn [andb]; [|by apply Slug_snoc].
  destruct (slug =?= []) eqn:He; cbn [negb]; breflect; [by apply Slug_snoc|by apply Slug_dash_snoc].
Qed.

(** A cut slug may end with one dash; without it, it is a slug again. *)
Lemma trim_end_dashes_spec s : exists k, s = trim_end_dashes s ++ repeat 45%N k /\ last (trim_end_dashes s) <> Some 45%N.
Proof.
  unfold trim_end_dashes. destruct (drop_while_suffix (N.eqb 45) (reverse s)) as (w & Hs & Hw).
  exists (length w). set (t := drop_while (N.eqb 45) (reverse s)) in *. split.
  - rewrite <-(reverse_involutive s), Hs, reverse_app. f_equal. clear Hs t.
    induction w as [|c w IH]; [done|]. cbn [forallb] in Hw. apply andb_prop in Hw as [Hc Hw]. apply N.eqb_eq in Hc as <-.
    rewrite reverse_cons, IH by done. cbn [length]. by rewrite <-repeat_cons.
  - intros Hl. apply last_Some in Hl as [l Hl]. apply (f_equal reverse) in Hl.
    rewrite reverse_involutive, reverse_snoc in Hl.
    pose proof (drop_while_head (N.eqb 45) (reverse s) 45%N (reverse l) Hl) as Hd. done.
Qed.

Lemma cut_Slug n s : Slug s -> Slug (trim_end_dashes (take n s)).
Proof.
  intros [H1 H2 H3 H4]. destruct (trim_end_dashes_spec (take n s)) as (k & Hk & Hl).
  set (t := trim_end_dashes (take n s)) in *.
  assert (Hpre : forall i x, t !! i = Some x -> s !! i = Some x).
  { intros i x Hx. assert (take n s !! i = Some x) as Ht by (rewrite Hk; by apply lookup_app_l_Some).
    apply lookup_take_Some in Ht. apply Ht. }
  split; [|intros Hh|done|].
  - apply forallb_elem. intros c Hc. apply list_elem_of_lookup in Hc as [i Hi]. apply Hpre in Hi.
    apply (proj1 (forallb_elem _ _) H1). by eapply list_elem_of_lookup_2.
  - apply H2. rewrite head_lookup in *. by apply Hpre.
  - intros i Hi Hj. apply (H4 i); by apply Hpre.
Qed.

Section Slugify.
Context `{Unicode}.

Lemma slugify_Slug name : Slug (slugify name) /\ slugify name <> [] /\ length (slugify name) <= MAX_SLUG_LEN.
Proof.
  unfold slugify. set (slug := trim_end_dashes _).
  assert (Hs : Slug slug) by apply cut_Slug, slug_chars_Slug, Slug_nil.
  assert (Hl : length slug <= MAX_SLUG_LEN).
  { destruct (trim_end_dashes_spec (take MAX_SLUG_LEN (slug_chars [] false (to_lowercase name)))) as (k & Hk & _).
    apply (f_equal length) in Hk. rewrite length_app, length_take in Hk. fold slug in Hk. lia. }
  destruct (slug =?= []) eqn:He; breflect; [|done].
  split; [|split; [done|by apply Nat.leb_le]].
  split; [done|done|done|]. by apply window_double.
Qed.

(** A slug is read back as it is. *)
Lemma slug_chars_id n : forall s acc, length s <= n -> forallb slug_or_dash s = true -> last s <> Some 45%N ->
  no_double s -> (acc = [] -> head s <> Some 45%N) -> slug_chars acc false s = acc ++ s.
Proof.
  induction n as [|n IH]; intros [|c s] acc Hn Hc Hl Hd Hh; try (cbn in Hn; lia); try (cbn; by rewrite app_nil_r).
  cbn [forallb] in Hc. apply andb_prop in Hc as [Hc1 Hc2]. cbn [slug_chars length] in *.
  assert (Hd' : no_double s) by (intros i Hi Hj; by apply (Hd (S i))).
  destruct (is_slug_char c) eqn:Hsc.
  - cbn [andb]. rewrite IH; [by rewrite <-app_assoc|lia|done| |done|by destruct acc].
    intros Hs. apply Hl. destruct s; [done|]. done.
  - unfold slug_or_dash in Hc1. rewrite Hsc in Hc1. apply N.eqb_eq in Hc1 as ->.
    destruct s as [|d s]; [by destruct Hl|]. cbn [slug_chars forallb length] in *. apply andb_prop in Hc2 as [Hd1 Hd2].
    assert (Hsd : is_slug_char d = true).
    { unfold slug_or_dash in Hd1. destruct (is_slug_char d); [done|]. apply N.eqb_eq in Hd1 as ->. by destruct (Hd 0 eq_refl). }
    rewrite Hsd. assert (Hacc : acc <> []) by (intros ->; by apply Hh).
    rewrite bool_decide_false by done. cbn [negb andb].
    rewrite IH; [by rewrite <-!app_assoc|lia|done| | |by destruct acc].
    + intros Hs. apply Hl. destruct s; [done|]. done.
    + intros i Hi Hj. by apply (Hd' (S i)).
Qed.

Lemma slug_or_dash_ascii c : slug_or_dash c = true -> is_ascii c = true /\ ascii_lower c = c.
Proof.
  unfold slug_or_dash, is_slug_char, is_ascii_digit, in_range, is_ascii, ascii_lower, in_range. intros Hc.
  assert (Hr : (97 <= c <= 122)%N \/ (48 <= c <= 57)%N \/ c = 45%N).
  { apply orb_prop in Hc as [Hc|Hc]; [apply orb_prop in Hc as [Hc|Hc]|]; breflect; auto. }
  split; [apply N.ltb_lt; lia|]. destruct (N.leb_spec 65 c), (N.leb_spec c 90); cbn [andb]; try done. lia.
Qed.

Lemma lower_slug s : forallb slug_or_dash s = true -> to_lowercase s = s.
Proof.
  intros Hs. rewrite to_lowercase_ascii.
  - unfold to_ascii_lowercase. induction s as [|c s IH]; [done|]. cbn in *. apply andb_prop in Hs as [Hc Hs].
    f_equal; [by apply slug_or_dash_ascii|by apply IH].
  - apply forallb_elem. intros c Hc. apply (proj1 (forallb_elem _ _) Hs) in Hc. by apply slug_or_dash_ascii.
Qed.

Lemma trim_end_dashes_id s : last s <> Some 45%N -> trim_end_dashes s = s.
Proof.
  intros Hl. unfold trim_end_dashes. destruct (reverse s) as [|c r] eqn:Hr.
  - apply (f_equal reverse) in Hr. by rewrite reverse_involutive in Hr.
  - cbn [drop_while]. destruct (N.eqb_spec 45 c) as [<-|]; [|by rewrite <-Hr, reverse_involutive].
    apply (f_equal reverse) in Hr. rewrite reverse_involutive, reverse_cons in Hr. rewrite Hr, last_snoc in Hl. done.
Qed.

Lemma slugify_slug s : Slug s -> s <> [] -> length s <= MAX_SLUG_LEN -> slugify s = s.
Proof.
  intros [H1 H2 H3 H4] Hne Hl. unfold slugify. rewrite lower_slug by done.
  rewrite (slug_chars_id (length s)) by done. cbn [app]. rewrite take_ge by done.
  rewrite trim_end_dashes_id by done. by rewrite bool_decide_false.
Qed.

(** ** File names *)

Lemma rsplit_dash a b : 45%N ∉ b -> rsplit_once 45 (a ++ 45%N :: b) = Some (a, b).
Proof.
  intros Hb. unfold rsplit_once. rewrite reverse_app, reverse_cons, <-app_assoc. cbn [app].
  assert (Hbr : forall r, 45%N ∉ r -> break_at (N.eqb 45) (r ++ 45%N :: reverse a) = (r, 45%N :: reverse a)).
  { induction r as [|c r IH]; intros Hr; [done|]. cbn [app break_at].
    apply not_elem_of_cons in Hr as [Hc Hr]. destruct (N.eqb_spec 45 c); [done|]. by rewrite IH. }
  rewrite Hbr by (by rewrite elem_of_reverse). by rewrite !reverse_involutive.
Qed.

Lemma rsplit_inv s a b : rsplit_once 45 s = Some (a, b) -> s = a ++ 45%N :: b /\ 45%N ∉ b.
Proof.
  unfold rsplit_once. pose proof (break_at_app (N.eqb 45) (reverse s)) as Happ.
  pose proof (break_at_fst (N.eqb 45) (reverse s)) as Hfst. pose proof (break_at_snd (N.eqb 45) (reverse s)) as Hsnd.
  destruct (break_at (N.eqb 45) (reverse s)) as [x [|c y]]; [done|]. cbn [fst snd] in *. intros [= <- <-].
  specialize (Hsnd c y eq_refl). apply N.eqb_eq in Hsnd as <-. split.
  - rewrite <-(reverse_involutive s), <-Happ, reverse_app, reverse_cons, <-app_assoc. done.
  - intros Hin. rewrite elem_of_reverse in Hin. apply (proj1 (forallb_elem _ _) Hfst) in Hin. done.
Qed.

Lemma strip_suffix_app p s : strip_suffix p (s ++ p) = Some s.
Proof.
  unfold strip_suffix. rewrite reverse_app, (proj2 (strip_prefix_Some _ _ _) eq_refl). by rewrite reverse_involutive.
Qed.

Lemma ascii_utf8 s : (forall c, c ∈ s -> (c < 128)%N) -> utf8 s = s.
Proof.
  induction s as [|c s IH]; [done|]. intros Hs. cbn [utf8 flat_map]. change (flat_map utf8_char s) with (utf8 s).
  rewrite IH by (intros x Hx; apply Hs; by right). unfold utf8_char.
  by rewrite (proj2 (N.ltb_lt _ _) (Hs c ltac:(by left))).
Qed.

Lemma hex_lt c : is_lower_hex c = true -> (c < 128)%N.
Proof.
  unfold is_lower_hex, is_ascii_digit, in_range. intros Hc. apply orb_prop in Hc as [Hc|Hc]; breflect; lia.
Qed.
Lemma slug_lt c : slug_or_dash c = true -> (c < 128)%N.
Proof.
  unfold slug_or_dash, is_slug_char, is_ascii_digit, in_range. intros Hc.
  apply orb_prop in Hc as [Hc|Hc]; [apply orb_prop in Hc as [Hc|Hc]|]; breflect; lia.
Qed.

Lemma hex_facts s : forallb is_lower_hex s = true -> utf8 s = s /\ 45%N ∉ s.
Proof.
  intros Hs. split.
  - apply ascii_utf8. intros c Hc. by apply hex_lt, (proj1 (forallb_elem _ _) Hs).
  - intros Hin. by apply (proj1 (forallb_elem _ _) Hs) in Hin.
Qed.

Lemma valid_name slug id8 : Slug slug -> slug <> [] -> length slug <= MAX_SLUG_LEN ->
  forallb is_lower_hex id8 = true -> length id8 = 8 ->
  is_space_file_name (slug ++ 45%N :: id8 ++ lit ".config") = true.
Proof.
  intros [H1 H2 H3 H4] Hne Hl Hx H8. unfold is_space_file_name.
  rewrite app_comm_cons, app_assoc, strip_suffix_app.
  destruct (hex_facts id8 Hx) as [Hu Hd]. rewrite rsplit_dash by done.
  unfold str_len. rewrite Hu, Hx, H8, bool_decide_false by done. cbn [Nat.eqb andb negb].
  assert (Hus : utf8 slug = slug).
  { apply ascii_utf8. intros c Hc. by apply slug_lt, (proj1 (forallb_elem _ _) H1). }
  rewrite Hus. rewrite (proj2 (Nat.leb_le _ _) Hl). cbn [andb].
  assert (starts_with (lit "-") slug = false) as ->.
  { destruct slug as [|c s]; [done|]. unfold starts_with. change (lit "-") with [45%N]. cbn [strip_prefix].
    destruct (N.eqb_spec 45 c) as [<-|]; [by destruct H2|done]. }
  assert (ends_with (lit "-") slug = false) as ->.
  { unfold ends_with, starts_with. change (reverse (lit "-")) with [45%N]. destruct (reverse slug) as [|c r] eqn:Hr; [done|].
    cbn [strip_prefix]. destruct (N.eqb_spec 45 c) as [<-|]; [|done]. apply (f_equal reverse) in Hr.
    rewrite reverse_involutive, reverse_cons in Hr. rewrite Hr, last_snoc in H3. done. }
  rewrite (proj2 (window_double slug) H4). cbn [negb andb]. exact H1.
Qed.

Lemma ascii_len s : Forall (fun c => c < 128)%N (utf8 s) -> utf8 s = s.
Proof.
  induction s as [|c s IH]; [done|]. cbn [utf8 flat_map]. change (flat_map utf8_char s) with (utf8 s).
  intros [Hc Hs]%Forall_app. rewrite IH by done. unfold utf8_char in *.
  destruct (N.ltb_spec c 128); [done|]. exfalso.
  repeat case_match; apply Forall_cons in Hc as [Hc _]; breflect; zify; Z.to_euclidean_division_equations; lia.
Qed.

Lemma valid_name_inv name : is_space_file_name name = true -> exists slug id8,
  name = slug ++ 45%N :: id8 ++ lit ".config" /\ Slug slug /\ slug <> [] /\ length slug <= MAX_SLUG_LEN /\
  forallb is_lower_hex id8 = true /\ length id8 = 8.
Proof.
  unfold is_space_file_name. destruct (strip_suffix (lit ".config") name) as [stem|] eqn:Hstem; [|done].
  apply strip_suffix_Some in Hstem as ->. destruct (rsplit_once 45 stem) as [[slug id8]|] eqn:Hs; [|done].
  apply rsplit_inv in Hs as [-> Hd]. intros Hv. breflect. exists slug, id8.
  assert (Hu8 : utf8 id8 = id8).
  { apply ascii_len, Forall_forall. intros c Hc.
    match goal with Hx : forallb is_lower_hex _ = true |- _ => by apply hex_lt, (proj1 (forallb_elem _ _) Hx) end. }
  assert (Hus : utf8 slug = slug).
  { apply ascii_len, Forall_forall. intros c Hc.
    match goal with Hx : forallb _ (utf8 slug) = true |- _ => by apply slug_lt, (proj1 (forallb_elem _ _) Hx) end. }
  unfold str_len in *. rewrite Hu8, Hus in *.
  split; [by rewrite <-app_assoc, app_comm_cons|]. split; [|split; [done|]; split; [done|]; split; [done|done]].
  split; [done|..].
  - intros Hh. destruct slug as [|c s]; [done|]. injection Hh as ->. done.
  - intros Hl. apply last_Some in Hl as [l ->].
    match goal with Hx : ends_with _ _ = false |- _ => unfold ends_with in Hx; rewrite reverse_snoc in Hx; done end.
  - by apply window_double.
Qed.

(** The check of a file name accepts exactly the names that can be made for a space,
    so a name read from the state file is one of them or is refused; and every such name stays in the
    directory: its path is the directory and the name, it has no separator, and its Include
    token is recognised as ours. *)
Lemma space_file_names_exact name :
  (is_space_file_name name = true <-> exists slug id, space_file_name slug id = Ok name) /\
  (is_space_file_name name = true -> forall ssh_dir,
     space_file_path ssh_dir name = Ok (path_join (spaces_dir ssh_dir) name) /\ forallb no_separator name = true /\
     exists token, include_token name = Ok token /\ is_our_include_token token = true).
Proof.
  split; [split|].
  - intros (slug & id8 & -> & Hs & Hne & Hl & Hx & H8)%valid_name_inv.
    exists slug, (id8 ++ repeat 48%N 56). unfold space_file_name.
    assert (is_chain_id (id8 ++ repeat 48%N 56) = true) as ->.
    { unfold is_chain_id, str_len. assert (Hh : forallb is_lower_hex (id8 ++ repeat 48%N 56) = true) by (by rewrite forallb_app, Hx).
      rewrite (proj1 (hex_facts _ Hh)), length_app, H8, Hh. done. }
    cbn [negb]. rewrite slugify_slug by done. by rewrite (take_app_length' id8) by done.
  - intros (slug & id & Hn). unfold space_file_name in Hn. destruct (is_chain_id id) eqn:Hi; [|done]. injection Hn as <-.
    unfold is_chain_id in Hi. breflect. destruct (slugify_Slug slug) as (Hs & Hne & Hl).
    match goal with Hx : forallb is_lower_hex (utf8 id) = true |- _ =>
      assert (Hu : utf8 id = id) by (apply ascii_len, Forall_forall; intros c Hc;
        by apply hex_lt, (proj1 (forallb_elem _ _) Hx)); rewrite Hu in Hx end.
    change (lit "-" ++ ?l) with (45%N :: l). unfold str_len in *. rewrite Hu in *.
    apply valid_name; try done; [|rewrite length_take; lia].
    apply forallb_elem. intros c Hc. match goal with Hx : forallb is_lower_hex id = true |- _ =>
      apply (proj1 (forallb_elem _ _) Hx) end. rewrite <-(take_drop 8 id). apply elem_of_app. by left.
  - intros Hv ssh_dir. unfold space_file_path, include_token. rewrite Hv. cbn [negb]. split; [done|].
    apply valid_name_inv in Hv as (slug & id8 & -> & [H1 _ _ _] & _ & _ & Hx & _).
    assert (Hsep : forallb no_separator (slug ++ 45%N :: id8 ++ lit ".config") = true).
    { rewrite forallb_app. cbn [forallb]. rewrite forallb_app. apply andb_true_intro. split.
      - apply forallb_elem. intros c Hc. apply (proj1 (forallb_elem _ _) H1) in Hc.
        unfold no_separator. destruct (N.eqb_spec c 47), (N.eqb_spec c 92); subst; done.
      - apply andb_true_intro. split; [done|]. apply andb_true_intro. split; [|done].
        apply forallb_elem. intros c Hc. apply (proj1 (forallb_elem _ _) Hx) in Hc.
        unfold no_separator. destruct (N.eqb_spec c 47), (N.eqb_spec c 92); subst; done. }
    split; [done|]. eexists. split; [done|]. unfold is_our_include_token.
    rewrite (proj2 (strip_prefix_Some _ _ _) eq_refl). apply andb_true_intro. split.
    + unfold ends_with, starts_with. rewrite app_comm_cons, app_assoc, reverse_app.
      by rewrite (proj2 (strip_prefix_Some _ _ _) eq_refl).
    + apply negb_true_iff, orb_false_iff. split; apply existsb_none; intros c Hc;
        apply (proj1 (forallb_elem _ _) Hsep) in Hc; unfold no_separator in Hc; apply negb_true_iff, orb_false_iff in Hc as [? ?];
        by rewrite N.eqb_sym.
Qed.
End Slugify.

(** ** The order of the list *)

Section IncludeOrder.
Context `{Unicode}.

Definition ref_key (x : SpaceFileRef) : str * str := (sf_name x, sf_space_id x).
Definition comes_before (x y : SpaceFileRef) : Prop := include_order (ref_key y) (ref_key x) <> Lt.

Lemma then_opp a b : CompOpp (then_with a b) = then_with (CompOpp a) (CompOpp b).
Proof. by destruct a. Qed.

Lemma order_opp a b : include_order b a = CompOpp (include_order a b).
Proof. unfold include_order. by rewrite !then_opp, <-!str_compare_antisym. Qed.

Lemma order_eq a b : include_order a b = Eq -> a = b.
Proof.
  unfold include_order, then_with. destruct (str_compare (to_lowercase a.1) (to_lowercase b.1)); try done.
  destruct (str_compare a.1 b.1) eqn:H1; try done. intros H2. apply str_compare_eq in H1, H2.
  destruct a, b. cbn in *. by subst.
Qed.

Lemma str_refl s : str_compare s s = Eq.
Proof. by apply str_compare_eq. Qed.

Lemma then_lt x y z k12 k23 k13 : (k12 = Lt -> k23 = Lt -> k13 = Lt) ->
  then_with (str_compare x y) k12 = Lt -> then_with (str_compare y z) k23 = Lt ->
  then_with (str_compare x z) k13 = Lt.
Proof.
  intros Hk. destruct (str_compare x y) eqn:H1, (str_compare y z) eqn:H2; cbn [then_with]; try done.
  - apply str_compare_eq in H1, H2. subst. by rewrite str_refl.
  - apply str_compare_eq in H1. subst. by rewrite H2.
  - apply str_compare_eq in H2. subst. by rewrite H1.
  - by rewrite (str_compare_lt_trans x y z).
Qed.

Lemma order_trans a b c : include_order a b = Lt -> include_order b c = Lt -> include_order a c = Lt.
Proof. unfold include_order. apply then_lt, then_lt. apply str_compare_lt_trans. Qed.

(** Two spaces of different names or ids are strictly ordered, so they may be inserted in any order. *)
Lemma insert_comm x y l : ref_key x <> ref_key y ->
  insert_ref x (insert_ref y l) = insert_ref y (insert_ref x l).
Proof.
  intros Hne. pose (lt a b := include_order (ref_key a) (ref_key b)).
  assert (Hins : forall a b m, insert_ref a (b :: m) = match lt b a with Lt => b :: insert_ref a m | _ => a :: b :: m end) by done.
  assert (Hxy : lt x y = Lt /\ lt y x = Gt \/ lt x y = Gt /\ lt y x = Lt).
  { unfold lt. rewrite (order_opp (ref_key x)). destruct (include_order (ref_key x) (ref_key y)) eqn:Ho; cbn; auto.
    by apply order_eq in Ho. }
  assert (Hle : forall a b z, lt z a <> Lt -> lt z b = Lt -> lt a b = Lt).
  { unfold lt. intros a b z Ha Hb. destruct (include_order (ref_key z) (ref_key a)) eqn:Ho; [|done|].
    - apply order_eq in Ho. by rewrite <-Ho.
    - eapply order_trans; [|exact Hb]. by rewrite order_opp, Ho. }
  induction l as [|z l IH].
  { cbn [insert_ref]. change (include_order _ _) with (lt y x) at 1.
    change (include_order (sf_name x, sf_space_id x) (sf_name y, sf_space_id y)) with (lt x y).
    by destruct Hxy as [[-> ->]|[-> ->]]. }
  rewrite (Hins y z l), (Hins x z l).
  destruct (lt z y) eqn:Hy, (lt z x) eqn:Hx; rewrite ?Hins, ?Hx, ?Hy;
    try (by rewrite IH); try (by destruct Hxy as [[-> ->]|[-> ->]]; rewrite ?Hins, ?Hx, ?Hy).
  all: by first [rewrite (Hle y x z) by congruence|rewrite (Hle x y z) by congruence].
 Qed.

Lemma insert_perm x l : insert_ref x l ≡ₚ x :: l.
Proof.
  induction l as [|y l IH]; cbn [insert_ref]; [done|]. case_match; try done. rewrite IH. apply Permutation_swap.
Qed.

Lemma insert_sorted x l : StronglySorted comes_before l -> StronglySorted comes_before (insert_ref x l).
Proof.
  induction 1 as [|y l Hs IH Hy]; cbn [insert_ref]; [by repeat constructor|].
  destruct (include_order (sf_name y, sf_space_id y) (sf_name x, sf_space_id x)) eqn:Ho.
  1,3: constructor; [by constructor|]; constructor;
    [unfold comes_before, ref_key; congruence|]; eapply Forall_impl; [exact Hy|]; intros z Hz Hzx; apply Hz.
  - apply order_eq in Ho. unfold ref_key in *. by rewrite Ho.
  - unfold ref_key in *. eapply order_trans; [exact Hzx|]. by rewrite order_opp, Ho.
  - constructor; [done|]. rewrite insert_perm. constructor; [|done].
    unfold comes_before, ref_key. by rewrite order_opp, Ho.
Qed.

(** The Include list holds every space once, ordered by name without case, then by name,
    then by id, and does not depend on the order in which a device holds its spaces: every
    computer computes the same line. *)
Lemma include_order_is_shared l l' :
  NoDup (map ref_key l) -> l ≡ₚ l' ->
  include_tokens l = include_tokens l' /\ sort_refs l ≡ₚ l /\ StronglySorted comes_before (sort_refs l).
Proof.
  intros Hnd Hp. split; [|split].
  - unfold include_tokens. f_equal. unfold sort_refs. apply (foldr_permutation (=)); [by intros ? ? ? ->| |exact Hp].
    intros i x j y b Hij Hx Hy. apply insert_comm. intros Heq. apply Hij.
    apply (NoDup_lookup (ref_key <$> l) i j (ref_key x) Hnd); rewrite list_lookup_fmap.
    + by rewrite Hx.
    + rewrite Hy. cbn. by rewrite Heq.
  - unfold sort_refs. clear. induction l as [|x l IH]; [done|]. cbn [foldr]. by rewrite insert_perm, IH.
  - unfold sort_refs. clear. induction l as [|x l IH]; [constructor|]. by apply insert_sorted.
Qed.
End IncludeOrder.

(** The documentation says that files of different spaces always have different names; only the
    first eight characters of the id count. *)
Example two_spaces_one_name :
  let id1 := lit "0123456700000000000000000000000000000000000000000000000000000000" in
  let id2 := lit "0123456711111111111111111111111111111111111111111111111111111111" in
  id1 <> id2 /\ @space_file_name ascii_unicode (lit "work") id1 = @space_file_name ascii_unicode (lit "work") id2.
Proof. split; [discriminate|vm_compute; reflexivity]. Qed.

(** ** The theorems of the space files on a small disk

    One space file that the main config lists, a call that fails and a program that creates
    files in between. *)


Definition w_ssh : str := lit "/h/.ssh".
Definition w_old_name : str := lit "work-3fa2c1d9.config".
Definition w_new_name : str := lit "office-3fa2c1d9.config".
Definition w_old : str := lit "/h/.ssh/sshelter/work-3fa2c1d9.config".
Definition w_new : str := lit "/h/.ssh/sshelter/office-3fa2c1d9.config".
Definition w_text : list N := lit "Host web".
Definition w_entry : Entry := mkEntry 1 Reg.
Definition w_inode : Inode := mkInode w_text 384.

Definition w_disk : Disk := mkDisk {[ w_old := w_entry ]} {[ 1%N := w_inode ]} 2 [w_old].

Definition refused : Happens := mkHappens [] (Some (mkFault true (lit "denied"))) 0 0.
Definition crowded : Happens := mkHappens [(lit "/h/.ssh/sshelter/other", lit "x"); (w_old, lit "y")] None 0 5.

(** The update of the list: one path for another; or a failure. *)
Definition swap (p q : str) (l : list str) : result AppError (list str) :=
  Ok (map (fun x => if x =?= p then q else x) l).
Definition drop_path (p : str) (l : list str) : result AppError (list str) :=
  Ok (List.filter (fun x => negb (x =?= p)) l).
Definition conflict (l : list str) : result AppError (list str) := Err (AConflict (lit "config")).

Lemma w_wf : wf w_disk.
Proof.
  split; [|split]; cbn [names inodes next_ino w_disk].
  - intros p e [<- <-]%lookup_singleton_Some. by eexists.
  - intros i n [<- <-]%lookup_singleton_Some. lia.
  - by intros p q x y [<- <-]%lookup_singleton_Some [<- <-]%lookup_singleton_Some.
Qed.

Lemma w_listed : all_listed w_disk.
Proof. intros q Hq. apply list_elem_of_singleton in Hq as ->. exists w_entry. apply lookup_singleton_eq. Qed.

Lemma w_setting : RenameSetting w_disk w_old w_new w_entry (swap w_old w_new).
Proof.
  split; [apply w_wf|discriminate|discriminate|apply lookup_singleton_eq|..].
  - intros p Hp. apply list_elem_of_singleton in Hp as ->. split; [discriminate|]. exists w_entry. apply lookup_singleton_eq.
  - intros l [= <-] p Hp. apply list_elem_of_singleton in Hp as ->. left. done.
Qed.


(** What these runs end in. *)
Example renamed_run : (rename_space_file w_ssh w_old_name w_new_name (swap w_old w_new) (mkWorld w_disk [] [])).1 = Ok Renamed.
Proof. vm_compute. reflexivity. Qed.
Example fallback_run :
  (rename_space_file w_ssh w_old_name w_new_name (swap w_old w_new) (mkWorld w_disk [quiet; quiet; refused] [])).1 = Ok Renamed.
Proof. vm_compute. reflexivity. Qed.

(** A rename that stopped after the list was written, and before the old name was removed, is
    taken up again; if the list cannot be written then, the new name is removed although the main
    config lists it. *)
Definition w_half : Disk :=
  mkDisk (<[w_new := w_entry]> {[ w_old := w_entry ]}) {[ 1%N := w_inode ]} 2 [w_new].
Example resumed_rename_unlists :
  let '(r, w) := rename_space_file w_ssh w_old_name w_new_name conflict (mkWorld w_half [] []) in
  is_err r = true /\ includes (disk w) = [w_new] /\ names (disk w) !! w_new = None.
Proof. vm_compute. auto. Qed.

Definition w_root : str := lit "/b".

Lemma w_place q : backup_place w_root (lit "/") w_old q -> q <> w_old.
Proof.
  intros (dir & name & c & Hd & Hn & ->). vm_compute in Hd. injection Hd as <-.
  unfold path_join. destruct (is_absolute _) eqn:Ha.
  - vm_compute in Hn. injection Hn as <-. vm_compute in Ha. discriminate.
  - destruct (_ || _); discriminate.
Qed.

Example removed_run : is_ok (remove_space_file w_root (lit "/") w_ssh w_old_name (drop_path w_old) (mkWorld w_disk [] [])).1 = true.
Proof. vm_compute. reflexivity. Qed.

Definition swap_kept (kept : list KeptFile) (l : list str) : result AppError (list str) :=
  Ok (map kf_path kept).

Lemma keep_files_safe_at_every_step_witness :
  holds (keep_step w_disk [w_old]) (keep_files_local w_ssh [w_old] swap_kept) (fun r d =>
    match r with
    | Ok kept => Forall2 (fun s k => is_copy w_disk d s (kf_path k)) [w_old] kept /\
        swap_kept kept [w_old] = Ok (includes d) /\
        forall q x, q ∉ [w_old] -> names w_disk !! q = Some x -> names d !! q = Some x
    | Err _ => includes d = [w_old] /\ forall q x, names w_disk !! q = Some x -> names d !! q = Some x
    end) (mkWorld w_disk [quiet; quiet; crowded] []).
Proof.
  apply (keep_files_safe_at_every_step w_ssh [w_old] swap_kept (mkWorld w_disk [quiet; quiet; crowded] [])).
  - apply w_wf.
  - apply w_listed.
  - intros s Hs. apply list_elem_of_singleton in Hs as ->. exists w_entry. split; [apply lookup_singleton_eq|reflexivity].
  - intros kept l [= <-] q Hq. apply list_elem_of_fmap in Hq as (k & -> & Hk). left. by exists k.
Defined.

Example kept_run : (fun l => map kf_path l) <$> (keep_files_local w_ssh [w_old] swap_kept (mkWorld w_disk [] [])).1
  = Ok [lit "/h/.ssh/sshelter-local/work-3fa2c1d9.config"].
Proof. vm_compute. reflexivity. Qed.
