(* ===== verification/RecordRuntime.v ===== *)
(** * RecordRuntime: the state in memory and on disk

    [src-tauri/src/sync/record_runtime.rs], the core of [runtime.rs] with its [save_core],
    and the journal check of [record_migration.rs]: reading the state file at startup,
    writing it, and the only ways to replace the state in memory.

    The world of an operation is the file system of [SpaceFiles] (every system call may
    fail), the core, the keychain and the relay behind their traits, the clock, the random
    numbers, and what other threads commit whenever the core's lock is free: before each
    acquisition any sequence of transforms of the state may have been committed.  Relay
    calls are recorded. *)

From stdpp Require Import gmap.
From S2P Require Import Prelude Text BTreeMap SlotRules ImportText ImportLoad HostText SpaceFiles SlotKeys HostSync Json SyncRecord RecordsTypes RecordsValidate RecordsState RepositoryCore RecordGroups Repository GroupEdit GroupOrderEdit StateCheck Crypto Relay RecordMerge RecordPush RecordLibrary.

Definition MAX_STATE_BYTES : N := 64 * 1024 * 1024.
Definition MAX_JOURNAL_BYTES : N := 64 * 1024 * 1024.
Definition SUPERSEDED : str := lit "sync round superseded by a newer sync state".
Definition UPGRADING_MESSAGE : str :=
  lit "Lunport is upgrading sync on this device; try again in a moment".
Definition superseded : AppError := AOther SUPERSEDED.
Definition is_superseded (e : AppError) : bool := match e with AOther m => m =?= SUPERSEDED | _ => false end.

Inductive RuntimeFormat := Legacy | Records | FBlocked.
Inductive StartupErrorKind := SIo | SUnsupportedVersion | SInvalidData | STooLarge | SUnsafePath | SIdentity.
#[export] Instance runtime_format_eq_dec : EqDecision RuntimeFormat.
Proof. solve_decision. Defined.

(** ** The formats before *)

(** [SyncState] of [state.rs]. *)
Record SyncState := mkV1 {
  v1_version : N; v1_chain_id : option str; v1_device_id : str; v1_device_name : str; v1_relay_url : str;
  v1_cursor_seq : N; v1_password_sync : bool; v1_remote_schema_version : option N; v1_baseline_established : bool;
  v1_phrase_cleanup_pending : bool; v1_records : btree LocalRecord; v1_sealed : btree Envelope;
  v1_last_sync_ms : option N; v1_last_error : option str
}.

(** [LinkKind] of [slot_files.rs]; [SlotSource], [LocalSlot] and [SyncStateV2] of
    [state_v2.rs]. *)
Inductive LinkKind := LSymlink | LHardLink | LCopy.
Inductive SlotSource :=
| Linked (path : str) (link : LinkKind) (fingerprint : option str) (origin : bool)
| SyncedCopy (fingerprint : str)
| InVault (fingerprint public_key : str) (has_passphrase : bool).
Record LocalSlot := mkLocalSlot {
  ls_file_name : str; ls_source : option SlotSource; ls_last_error : option str; ls_asked : bool;
  ls_payload : option SlotKeys.KeySlotPayload; ls_uploaded_fingerprint : option str; ls_parked : bool;
  ls_learned_in : option str; ls_copy_from_another_account : bool; ls_local_only : bool
}.
Record SyncStateV2 := mkV2 {
  v2_version : N; v2_device_id : str; v2_device_name : str; v2_relay_url : str; v2_account : option AccountState;
  v2_spaces : btree SpaceState; v2_rotation : option RotationProgress; v2_legacy_v1_backup : option str;
  v2_relay_features : option RelayFeatures; v2_phrase_cleanup_pending : bool; v2_last_sync_ms : option N;
  v2_last_error : option str; v2_key_slots : btree LocalSlot; v2_notices : list SyncNotice
}.

(** The derived decoders and serializers of the states; SHA-256; the relays behind
    [RelayConnector] and [RelayApi]. *)
Class RuntimeEnv := {
  rt_merge :: MergeEnv;
  rt_state :: StateEnv;
  rt_unicode :: Unicode;
  rt_mnemonic :: MnemonicLib;
  state_to_vec_pretty : SyncStateV3 -> option (list N);
  v2_to_vec_pretty : SyncStateV2 -> result str (list N);
  probe_from_str : str -> result str N;
  v1_from_str : str -> result str SyncState;
  v2_from_str : str -> result str SyncStateV2;
  v3_from_str : str -> result str SyncStateV3;
  sha256_hex : list N -> str;
  RelayNet : Type;
  connect : str -> result AppError unit;
  net_info : str -> RelayNet -> RelayNet * lresult RelayInfo;
  net_create_chain : str -> RelayNet -> str -> str -> RelayNet * lresult unit;
  net_delete_chain : str -> RelayNet -> str -> str -> RelayNet * lresult unit;
  net_freeze_chain : str -> RelayNet -> str -> str -> RelayNet * lresult unit;
  net_pull : str -> RelayNet -> str -> str -> N -> RelayNet * lresult PullResponse;
  net_pull_batch : str -> RelayNet -> list BatchPullItem -> RelayNet * lresult (list BatchPullEntry);
  net_push : str -> RelayNet -> str -> str -> list PushItem -> RelayNet * lresult PushOutcome
}.

(** [Display] of [RelayError] and its conversion ([relay.rs]). *)
Definition relay_error_text (e : RelayError) : str :=
  match e with
  | RNotFound => lit "sync chain not found on the relay (or the sync code does not match)"
  | RateLimited => lit "the relay is rate-limiting this device; try again later"
  | QuotaExceeded => lit "the relay refused the request: too large or over the storage quota"
  | RUnsupported f => lit "the relay does not support " ++ f ++ lit " yet; update the relay"
  | InvalidRequest what => lit "invalid relay request: " ++ what
  | Http code => lit "relay returned HTTP " ++ dec code
  | Unreachable why => lit "cannot reach the sync relay: " ++ why
  | BadResponse why => lit "relay sent an unexpected response: " ++ why
  end.
Definition relay_error (e : RelayError) : AppError :=
  match e with RNotFound => ANotFound (relay_error_text e) | _ => AOther (relay_error_text e) end.

Section Data.
Context {R : RuntimeEnv}.

Inductive DecodedState := V1 (s : SyncState) | V2 (s : SyncStateV2) | V3 (s : SyncStateV3).

Inductive StartupProbe :=
| PRecords (s : SyncStateV3) (fresh : bool)
| PLegacy (s : DecodedState)
| PBlocked (k : StartupErrorKind) (reason : str).

(** [SyncCore]. *)
Record SyncCore := mkCore {
  generation : N;
  format : RuntimeFormat;
  records : option SyncStateV3;
  legacy_paused : bool;
  state : option SyncStateV2;
  account_keys : option ChainKeys;
  legacy : option SyncState;
  unsaved : bool;
  save_blocked : option str;
  conflict_streak : N;
  failed_rounds : N;
  batch_failures : N;
  relay_checked : option str;
  rounds : N;
  swap_pending : bool;
  swap_failures : N
}.

(** A commit of another thread: its transform of the latest state. *)
Definition Transform : Type := SyncStateV3 -> result AppError SyncStateV3.

(** What was asked of a relay, with the state in memory at that moment. *)
Inductive Call :=
| CPull (url chain : str) (since : N) (answer : lresult PullResponse)
| CPush (url chain : str) (sent : list Outgoing) (latest : option SyncStateV3) (answer : Pushed).

Record RWorld := mkRW {
  files : World;
  core : SyncCore;
  keychain : list (str * str);
  keychain_fails : list bool;
  net : RelayNet;
  times : list N;
  randoms : list (option (list N));
  interrupts : list (list Transform);
  calls : list Call
}.
End Data.

Section Monad.
Context {R : RuntimeEnv}.

Definition RM (A : Type) : Type := RWorld -> result AppError A * RWorld.
#[export] Instance rm_ret : MRet RM := fun A a w => (Ok a, w).
#[export] Instance rm_bind : MBind RM := fun A B f m w =>
  match m w with (Ok a, w') => f a w' | (Err e, w') => (Err e, w') end.

Definition fail {A} (e : AppError) : RM A := fun w => (Err e, w).
Definition of_result {A} (r : result AppError A) : RM A := match r with Ok a => mret a | Err e => fail e end.
Definition require (b : bool) (e : AppError) : RM unit := if b then mret tt else fail e.
(** The result as a value. *)
Definition attempt {A} (m : RM A) : RM (result AppError A) := fun w => let '(r, w') := m w in (Ok r, w').
Definition relabel {A} (f : AppError -> AppError) (m : RM A) : RM A :=
  fun w => let '(r, w') := m w in (map_err f r, w').

Definition with_files (w : RWorld) (f : World) : RWorld :=
  mkRW f (core w) (keychain w) (keychain_fails w) (net w) (times w) (randoms w) (interrupts w) (calls w).
Definition with_core (w : RWorld) (c : SyncCore) : RWorld :=
  mkRW (files w) c (keychain w) (keychain_fails w) (net w) (times w) (randoms w) (interrupts w) (calls w).
Definition with_keychain (w : RWorld) (k : list (str * str)) (f : list bool) : RWorld :=
  mkRW (files w) (core w) k f (net w) (times w) (randoms w) (interrupts w) (calls w).
Definition with_net (w : RWorld) (n : RelayNet) (c : Call) : RWorld :=
  mkRW (files w) (core w) (keychain w) (keychain_fails w) n (times w) (randoms w) (interrupts w) (calls w ++ [c]).

(** A file operation. *)
Definition on_files {A} (m : M A) : RM A := fun w => let '(r, f) := m (files w) in (r, with_files w f).
Definition syscall {A} (m : M (result IoError A)) : RM (result IoError A) := on_files m.
Definition the_core : RM SyncCore := fun w => (Ok (core w), w).
Definition put_core (c : SyncCore) : RM unit := fun w => (Ok tt, with_core w c).

(** [Clock::now_ms] and [getrandom::fill]. *)
Definition now : RM N := fun w =>
  (Ok (hd 0%N (times w)),
   mkRW (files w) (core w) (keychain w) (keychain_fails w) (net w) (tail (times w)) (randoms w) (interrupts w) (calls w)).
Definition fill (n : nat) : RM (option (list N)) := fun w =>
  (Ok (option_map (fun b => take n (map (fun x => x mod 256)%N b ++ repeat 0%N n)) (hd None (randoms w))),
   mkRW (files w) (core w) (keychain w) (keychain_fails w) (net w) (times w) (tail (randoms w)) (interrupts w) (calls w)).

(** [trait Keychain]: any access may fail. *)
Definition keychain_op {A} (f : list (str * str) -> A * list (str * str)) : RM A := fun w =>
  match keychain_fails w with
  | true :: l => (Err (AOther (lit "keychain")), with_keychain w (keychain w) l)
  | l => let '(a, k) := f (keychain w) in (Ok a, with_keychain w k (tail l))
  end.
Definition keychain_get (name : str) : RM (option str) := keychain_op (fun k => (bt_get name k, k)).
Definition keychain_set (name secret : str) : RM unit := keychain_op (fun k => (tt, bt_insert name secret k)).
Definition keychain_delete (name : str) : RM unit := keychain_op (fun k => (tt, bt_remove name k)).

(** [env.relay(url)] and the calls on it. *)
Definition relay_at (url : str) : RelayApi := {|
  RelayState := RelayNet;
  api_info := net_info url;
  api_create_chain := net_create_chain url;
  api_delete_chain := net_delete_chain url;
  api_freeze_chain := net_freeze_chain url;
  api_pull := net_pull url;
  api_pull_batch := net_pull_batch url;
  api_push := net_push url
|}.

Definition relay_pull (url chain token : str) (since : N) : RM (lresult PullResponse) := fun w =>
  let '(n, answer) := net_pull url (net w) chain token since in
  (Ok answer, with_net w n (CPull url chain since answer)).

Definition relay_push (url chain token : str) (sent : list Outgoing) : RM Pushed := fun w =>
  let '(n, p) := push_outgoing (H := relay_at url) (net w) chain token sent in
  (Ok p, with_net w n (CPush url chain sent (records (core w)) p)).

(** The same on files alone. *)
Definition io_require (b : bool) (e : AppError) : M unit := if b then mret tt else throw e.
Definition io_relabel {A} (e : AppError) (m : M (result IoError A)) : M A :=
  r ← m; SpaceFiles.lift (map_err (fun _ => e) r).

(** ** Reading the state file *)

Definition entry_bytes (d : Disk) (e : Entry) : list N :=
  match inodes d !! ino e with Some n => bytes n | None => [] end.

Fixpoint take_at_most (limit : N) (b : list N) : list N :=
  match b with
  | [] => []
  | x :: b' => if (limit =? 0)%N then [] else x :: take_at_most (limit - 1) b'
  end.

(** [symlink_metadata] with what is asked of it, opening without following a link
    (a directory opens), [File::metadata] and reading at most [limit] bytes. *)
Definition lstat (p : str) : M (result IoError (FileKind * N)) :=
  sys (fun d => (match names d !! p with
                 | Some e => Ok (kind e, N.of_nat (length (entry_bytes d e)))
                 | None => Err (os_error NotFound)
                 end, d)).
Definition open_nofollow (p : str) : M (result IoError Entry) :=
  sys (fun d => (match names d !! p with
                 | Some (mkEntry _ (Symlink _)) => Err (os_error OtherKind)
                 | Some e => Ok e
                 | None => Err (os_error NotFound)
                 end, d)).
Definition fstat (e : Entry) : M (result IoError (FileKind * N)) :=
  sys (fun d => (Ok (kind e, N.of_nat (length (entry_bytes d e))), d)).
Definition read_at_most (limit : N) (e : Entry) : M (result IoError (list N)) :=
  sys (fun d => (if kind e =?= Reg then Ok (take_at_most limit (entry_bytes d e)) else Err (os_error OtherKind), d)).

Definition is_regular (k : FileKind) : bool := k =?= Reg.

(** [decode_state]. *)
Definition decode_state (text : str) : vresult DecodedState :=
  let bad {A} (r : result str A) : vresult A := map_err (fun e => Decode (lit "state") e) r in
  version ← bad (probe_from_str text);
  if (version =? 1)%N then s ← bad (v1_from_str text); Ok (V1 s)
  else if (version =? 2)%N then s ← bad (v2_from_str text); Ok (V2 s)
  else if supported_version version then
    s ← bad (v3_from_str text);
    _ ← validate_state s;
    Ok (V3 s)
  else Err (UnsupportedSchema (lit "state") version).

(** [fresh_records] with [SyncStateV2::fresh]. *)
Definition fresh_records (device_name : str) : RM SyncStateV3 :=
  b ← fill 16;
  id ← of_result (ok_or b (AOther (lit "cannot create device id")));
  mret (mkState STATE_VERSION (hex id) device_name DEFAULT_RELAY_URL None [] (mkLocalState [] [] [] [] []) None None
          None false None false None [] None None).

Definition blocked (k : StartupErrorKind) (reason : string) : StartupProbe := PBlocked k (lit reason).

(** The probe of the text that was read. *)
Definition probe_text (text : option str) : StartupProbe :=
  match text with
  | None => blocked SInvalidData "sync state is not valid UTF-8; original file retained"
  | Some text =>
      match decode_state text with
      | Ok (V3 s) => PRecords s false
      | Ok s => PLegacy s
      | Err (UnsupportedSchema _ found) =>
          PBlocked SUnsupportedVersion (lit "sync state has an unsupported format (version " ++ dec found
                                        ++ lit "); original file retained")
      | Err _ => blocked SInvalidData "sync state is malformed; original file retained"
      end
  end.

Definition too_large : StartupProbe := blocked STooLarge "sync state exceeds the supported size limit".
Definition not_regular : StartupProbe := blocked SUnsafePath "sync state must be a regular file".
Definition io_blocked (what : string) (e : IoError) : StartupProbe := PBlocked SIo (lit what ++ io_text e).

Definition probe_startup (path device_name : str) : RM StartupProbe :=
  c ← attempt (on_files (check_write path));
  if is_err c then mret (blocked SUnsafePath "sync state path is outside this profile") else
  meta ← syscall (lstat path);
  match meta with
  | Err e =>
      if io_kind e =?= NotFound then
        s ← attempt (fresh_records device_name);
        mret (match s with
              | Ok s => PRecords s true
              | Err _ => blocked SIdentity "cannot create a new device identity"
              end)
      else mret (io_blocked "cannot inspect sync state: " e)
  | Ok (k, len) =>
      if negb (is_regular k) then mret not_regular
      else if (MAX_STATE_BYTES <? len)%N then mret too_large
      else
        file ← syscall (open_nofollow path);
        match file with
        | Err e => mret (io_blocked "cannot open sync state: " e)
        | Ok file =>
            opened ← syscall (fstat file);
            match opened with
            | Err e => mret (io_blocked "cannot inspect opened sync state: " e)
            | Ok (k, len) =>
                if negb (is_regular k) then mret not_regular
                else if (MAX_STATE_BYTES <? len)%N then mret too_large
                else
                  b ← syscall (read_at_most (MAX_STATE_BYTES + 1) file);
                  mret (match b with
                        | Err e => io_blocked "cannot read sync state: " e
                        | Ok b => if (MAX_STATE_BYTES <? N.of_nat (length b))%N then too_large
                                  else probe_text (from_utf8 b)
                        end)
            end
        end
  end.

(** ** Writing it *)

(** The version of the file that is about to be replaced by a newer format. *)
Definition replaced_version (version : N) (v : Json) : option N :=
  opt_filter (fun n => (3 <=? n)%N && (n <? version)%N) (json_u64 (lit "version") v).

Definition backup_name (version : N) (digest : str) : str :=
  lit "sync-state-v" ++ dec version ++ lit "-" ++ digest ++ lit ".backup.json".

(** [Path::with_file_name]. *)
Definition with_file_name (path name : str) : str :=
  match parent path with Some dir => path_join dir name | None => name end.

(** The copy of the file before a newer format replaces it. *)
Definition keep_source (path : str) (source : list N) (source_version : N) : M unit :=
  let backup := with_file_name path (backup_name source_version (sha256_hex source)) in
  meta ← lstat backup;
  match meta with
  | Ok (k, _) =>
      if negb (is_regular k) then throw (app_error "format backup must be a regular file")
      else
        r ← read_file backup; b ← io r;
        io_require (b =?= source) (app_error "format backup does not match source")
  | Err e =>
      if io_kind e =?= NotFound then atomic_write backup source 384
      else throw (AIo (io_text e))
  end.

Definition keep_older_format (path : str) (version : N) : M unit :=
  r ← open_nofollow path; file ← io r;
  r ← fstat file; meta ← io r;
  if negb (is_regular meta.1) then throw (app_error "sync source must be a regular file")
  else
    r ← read_at_most (MAX_STATE_BYTES + 1) file; source ← io r;
    value ← SpaceFiles.lift (ok_or (json_from_slice source) (app_error "cannot read format upgrade source"));
    match replaced_version version value with
    | Some source_version => keep_source path source source_version
    | None => mret tt
    end.

(** Whether a file may be written there: a regular file or none. *)
Definition check_place (path : str) (error : string) : M unit :=
  meta ← lstat path;
  match meta with
  | Ok (k, _) => io_require (is_regular k) (app_error error)
  | Err e => if io_kind e =?= NotFound then mret tt else throw (AIo (io_text e))
  end.

Definition save_active (path : str) (s : SyncStateV3) : M unit :=
  _ ← SpaceFiles.lift (map_err (fun _ => app_error "cannot save invalid record state") (validate_state s));
  b ← SpaceFiles.lift (ok_or (state_to_vec_pretty s) (app_error "cannot serialize record state"));
  _ ← SpaceFiles.lift (guard_err (MAX_STATE_BYTES <? N.of_nat (length b))%N
                        (app_error "record state exceeds the supported size limit"));
  _ ← check_place path "sync state must be a regular file";
  _ ← (if (GROUP_STATE_VERSION <=? version s)%N
       then e ← exists_ path; if e : bool then keep_older_format path (version s) else mret tt
       else mret tt);
  atomic_write path b 384.

(** ** Migrations that are not finished *)

Record PendingMigration := mkPendingMigration { migration_id : str; phase : str; host_count : N; key_count : N }.

Definition metadata (p : str) : M (result IoError (FileKind * N)) :=
  sys (fun d => (match follow LINK_LIMIT d p with
                 | Some e => Ok (kind e, N.of_nat (length (entry_bytes d e)))
                 | None => Err (os_error NotFound)
                 end, d)).
Definition open_file (p : str) : M (result IoError Entry) :=
  sys (fun d => (ok_or (follow LINK_LIMIT d p) (os_error NotFound), d)).

(** [read_optional]. *)
Definition read_optional (p : str) (limit : N) : M (option (list N)) :=
  m ← metadata p;
  match m with
  | Err e => if io_kind e =?= NotFound then mret None else throw (app_error "migration source cannot be read")
  | Ok (k, len) =>
      _ ← io_require (is_regular k && (len <=? limit)%N) (app_error "migration source is not a bounded regular file");
      f ← io_relabel (app_error "migration source cannot be opened") (open_file p);
      m ← io_relabel (app_error "migration source cannot be inspected") (fstat f);
      _ ← io_require (m.2 <=? limit)%N (app_error "migration source exceeds its size limit");
      b ← io_relabel (app_error "migration source cannot be read") (read_at_most (limit + 1) f);
      _ ← io_require (N.of_nat (length b) <=? limit)%N (app_error "migration source exceeds its size limit");
      mret (Some b)
  end.

Definition known_phase (p : str) : bool :=
  (p =?= lit "prepared") || (p =?= lit "account-gated") || (p =?= lit "publishing") || (p =?= lit "active").

(** One entry of the directory; [acc] holds what was found and the bytes inspected. *)
Definition scan_entry (root : str) (acc : list PendingMigration * N) (id : str) : M (list PendingMigration * N) :=
  if negb (is_slot_id id) then mret acc
  else
    let path := path_join (path_join root id) (lit "journal.json") in
    m ← metadata path;
    let total := N.min (acc.2 + from_option snd 0 (result_ok m))%N u64_max in
    _ ← io_require (total <=? MAX_JOURNAL_BYTES)%N (app_error "migration recovery metadata exceeds the size limit");
    r ← catch (read_optional path MAX_JOURNAL_BYTES);
    match r with
    | Ok (Some b) =>
        v ← SpaceFiles.lift (ok_or (json_from_slice b) (app_error "migration recovery metadata is malformed"));
        let p := default (lit "invalid") (opt_filter known_phase (json_str (lit "phase") v)) in
        if p =?= lit "active" then mret (acc.1, total)
        else mret (acc.1 ++ [mkPendingMigration id p (default 0%N (json_u64 (lit "host_count") v))
                               (default 0%N (json_u64 (lit "key_count") v))], total)
    | _ => mret (acc.1 ++ [mkPendingMigration id (lit "invalid") 0 0], total)
    end.

Fixpoint scan_entries (root : str) (n : nat) (acc : list PendingMigration * N) (l : list str)
  : M (list PendingMigration * N) :=
  match l with
  | [] => mret acc
  | id :: l' =>
      _ ← io_require (n <? 1024)%nat (app_error "migration recovery metadata exceeds the scan limit");
      acc ← scan_entry root acc id;
      scan_entries root (S n) acc l'
  end.

Definition by_id (a b : PendingMigration) : bool := negb (str_ltb (migration_id b) (migration_id a)).
Fixpoint insert_pending (x : PendingMigration) (l : list PendingMigration) : list PendingMigration :=
  match l with [] => [x] | y :: l' => if by_id x y then x :: l else y :: insert_pending x l' end.

Definition pending_migrations (state_path : str) : M (list PendingMigration) :=
  dir ← SpaceFiles.lift (ok_or (parent state_path) (app_error "migration profile data path is unavailable"));
  let root := path_join dir (lit "migrations") in
  e ← exists_ root;
  if negb e then mret []
  else
    entries ← io_relabel (app_error "migration recovery metadata cannot be read") (read_dir root);
    found ← scan_entries root 0 ([], 0%N) (map fst entries);
    mret (foldr insert_pending [] found.1).

(** ** The core *)

Definition generation_exhausted : AppError := app_error "sync state generation exhausted".

(** [activate_probe]. *)
Definition activated (c : SyncCore) (g : N) (p : StartupProbe) : SyncCore :=
  let base f r s l b :=
    mkCore g f r true s None l false b 0 0 0 None 0 false 0 in
  match p with
  | PRecords s _ => base Records (Some s) None None None
  | PLegacy (V1 s) => base Legacy None None (Some s) None
  | PLegacy (V2 s) => base Legacy None (Some s) None None
  | PLegacy (V3 _) => base (format c) None None None None
  | PBlocked _ reason => base FBlocked None None None (Some reason)
  end.

Definition activate_probe (p : StartupProbe) : RM unit :=
  _ ← match p with
      | PRecords s _ => of_result (map_err (fun _ => app_error "cannot activate invalid record state") (validate_state s))
      | PLegacy (V3 _) => fail (app_error "invalid legacy startup selection")
      | _ => mret tt
      end;
  c ← the_core;
  g ← of_result (ok_or (checked_add (generation c) 1) generation_exhausted);
  put_core (activated c g p).

Definition active_state (c : SyncCore) : result AppError SyncStateV3 :=
  _ ← guard_err (negb (format c =?= Records))
        (AOther (default (lit "record workspace is not active") (save_blocked c)));
  _ ← guard_err (is_some (state c) || is_some (legacy c)) (app_error "record runtime contains legacy state");
  ok_or (records c) (app_error "record workspace is not initialized").

Definition writes_allowed (c : SyncCore) : result AppError unit :=
  match save_blocked c with
  | Some reason => Err (AOther reason)
  | None => _ ← active_state c; Ok tt
  end.

Definition set_records (c : SyncCore) (g : N) (s : SyncStateV3) (keys : option ChainKeys) (u : bool) : SyncCore :=
  mkCore g (format c) (Some s) (legacy_paused c) (state c) keys (legacy c) u (save_blocked c) (conflict_streak c)
    (failed_rounds c) (batch_failures c) (relay_checked c) (rounds c) (swap_pending c) (swap_failures c).
Definition set_unsaved (c : SyncCore) (u : bool) : SyncCore :=
  mkCore (generation c) (format c) (records c) (legacy_paused c) (state c) (account_keys c) (legacy c) u
    (save_blocked c) (conflict_streak c) (failed_rounds c) (batch_failures c) (relay_checked c) (rounds c)
    (swap_pending c) (swap_failures c).
Definition set_keys (c : SyncCore) (keys : option ChainKeys) : SyncCore :=
  mkCore (generation c) (format c) (records c) (legacy_paused c) (state c) keys (legacy c) (unsaved c)
    (save_blocked c) (conflict_streak c) (failed_rounds c) (batch_failures c) (relay_checked c) (rounds c)
    (swap_pending c) (swap_failures c).
Definition set_blocked (c : SyncCore) (s : SyncStateV3) (reason : str) : SyncCore :=
  mkCore (generation c) (format c) (Some s) (legacy_paused c) (state c) (account_keys c) (legacy c) (unsaved c)
    (Some reason) (conflict_streak c) (failed_rounds c) (batch_failures c) (relay_checked c) (rounds c)
    (swap_pending c) (swap_failures c).
Definition set_failed (c : SyncCore) (n : N) : SyncCore :=
  mkCore (generation c) (format c) (records c) (legacy_paused c) (state c) (account_keys c) (legacy c) (unsaved c)
    (save_blocked c) (conflict_streak c) n (batch_failures c) (relay_checked c) (rounds c) (swap_pending c)
    (swap_failures c).
Definition set_paused (c : SyncCore) (g : N) : SyncCore :=
  mkCore g (format c) (records c) true (state c) (account_keys c) (legacy c) (unsaved c)
    (save_blocked c) (conflict_streak c) (failed_rounds c) (batch_failures c) (relay_checked c) (rounds c)
    (swap_pending c) (swap_failures c).

(** How the last round went. *)
Definition set_synced (s : SyncStateV3) (ms : option N) (error : option str) : SyncStateV3 :=
  mkState (version s) (device_id s) (device_name s) (relay_url s) (account s) (spaces s) (local s) (rotation s)
    (relay_features s) (legacy_v1_backup s) (phrase_cleanup_pending s) (migration_gate s) (shared_writes_blocked s)
    (pending_account s) (notices s) ms error.

(** The account's keys, unless they are another chain's. *)
Definition keys_of (s : SyncStateV3) (keys : option ChainKeys) : option ChainKeys :=
  opt_filter (fun k => (chain_id <$> account s) =?= Some (ck_chain_id k)) keys.

Section Path.
Context (state_path : str).

(** What a publication adds to the state before it is saved. *)
Definition published (c : SyncCore) (candidate : SyncStateV3) : result AppError SyncStateV3 :=
  let n := if (version candidate =? STATE_VERSION)%N && has_group_data candidate
           then set_version candidate GROUP_STATE_VERSION else candidate in
  let n := RecordLibrary.include_new_records n (account_keys c) in
  let n := if has_navigation_data n then set_version n (N.max (version n) NAVIGATION_STATE_VERSION) else n in
  match records c with
  | Some before => map_err (fun e => AOther (error_text e)) (invalidate_changed_pins before n)
  | None => Ok n
  end.

Definition persist_candidate (candidate : SyncStateV3) : RM N :=
  c ← the_core;
  _ ← of_result (writes_allowed c);
  n ← of_result (published c candidate);
  g ← of_result (ok_or (checked_add (generation c) 1) generation_exhausted);
  _ ← on_files (save_active state_path n);
  _ ← put_core (set_records c g n (keys_of n (account_keys c)) false);
  mret g.

(** A transform of the latest state, under the core's lock. *)
Definition transact (f : Transform) : RM N :=
  c ← the_core;
  _ ← of_result (writes_allowed c);
  s ← of_result (active_state c);
  n ← of_result (f s);
  persist_candidate n.

(** Acquiring the core's lock: other threads had it before. *)
Definition run_others (fs : list Transform) : RM unit :=
  foldr (fun f m => _ ← attempt (transact f); m) (mret tt) fs.
Definition next_interrupt : RM (list Transform) := fun w =>
  (Ok (hd [] (interrupts w)),
   mkRW (files w) (core w) (keychain w) (keychain_fails w) (net w) (times w) (randoms w) (tail (interrupts w)) (calls w)).
Definition lock_core : RM SyncCore :=
  fs ← next_interrupt;
  _ ← run_others fs;
  the_core.

Definition snapshot : RM (SyncStateV3 * N) :=
  c ← lock_core;
  s ← of_result (active_state c);
  mret (s, generation c).

Definition commit_candidate (expected_generation : N) (candidate : SyncStateV3) : RM N :=
  c ← lock_core;
  _ ← of_result (writes_allowed c);
  _ ← require (generation c =? expected_generation)%N superseded;
  persist_candidate candidate.

Definition mutate_records (f : Transform) : RM N :=
  _ ← lock_core;
  transact f.

(** The same with a transform that also tells the caller something ([None]: it was not
    run, or refused). *)
Definition mutate_noting {B} (f : SyncStateV3 -> result AppError (SyncStateV3 * B)) : RM (option B * result AppError N) :=
  c ← lock_core;
  match (_ ← writes_allowed c; s ← active_state c; f s) with
  | Ok (n, b) => r ← attempt (persist_candidate n); mret (Some b, r)
  | Err e => mret (None, Err e)
  end.

Definition pause_legacy_workspace : RM unit :=
  c ← lock_core;
  _ ← require ((format c =?= Legacy) && is_none (save_blocked c) && negb (unsaved c))
        (app_error "the legacy workspace must be durable and available before pausing");
  if legacy_paused c then mret tt
  else
    g ← of_result (ok_or (checked_add (generation c) 1) generation_exhausted);
    put_core (set_paused c g).

(** [commit_migration_candidate]; the loaded ssh config document is dropped with it. *)
Definition commit_migration_candidate (expected_generation : N) (candidate : SyncStateV3) (keys : option ChainKeys)
  : RM N :=
  c ← lock_core;
  _ ← require (generation c =? expected_generation)%N superseded;
  _ ← require (negb ((format c =?= FBlocked) || is_some (save_blocked c)))
        (app_error "migration activation is blocked on this device");
  _ ← require (negb ((format c =?= Legacy) && negb (legacy_paused c)))
        (app_error "pause the legacy workspace before migration activation");
  _ ← require (negb (is_some_and (fun k => negb ((chain_id <$> account candidate) =?= Some (ck_chain_id k))) keys))
        (app_error "migration account identity does not match its keys");
  _ ← of_result (ok_or (checked_add (generation c) 1) generation_exhausted);
  let candidate := if has_navigation_data candidate
                   then set_version candidate (N.max (version candidate) NAVIGATION_STATE_VERSION) else candidate in
  _ ← on_files (save_active state_path candidate);
  _ ← activate_probe (PRecords candidate false);
  c ← the_core;
  _ ← put_core (set_keys c keys);
  mret (generation c).

(** [state_v2::save]: no secret may be written in plain text. *)
Definition plain_records (s : SyncStateV2) : list Rec :=
  match v2_account s with Some a => map lrecord (bt_values (a_records a)) | None => [] end
  ++ flat_map (fun sp => map lrecord (bt_values (ss_records sp)) ++ map pa_record (bt_values (ss_pending_approvals sp)))
       (bt_values (v2_spaces s)).
Definition refuse_plaintext_secrets (s : SyncStateV2) : result AppError unit :=
  match List.find (fun r => is_secret (rkind r)) (plain_records s) with
  | Some r => Err (AOther (lit "refusing to write a " ++ kind_as_str (rkind r)
                           ++ lit " record into the sync state in plaintext"))
  | None => Ok tt
  end.
Definition save_v2 (path : str) (s : SyncStateV2) : M unit :=
  _ ← SpaceFiles.lift (refuse_plaintext_secrets s);
  _ ← match parent path with Some dir => ensure_dir_secure dir | None => mret tt end;
  b ← SpaceFiles.lift (map_err (fun e => AOther (lit "cannot serialize sync state: " ++ e)) (v2_to_vec_pretty s));
  atomic_write path b 384.

Definition legacy_writes_allowed (c : SyncCore) : result AppError unit :=
  guard_err (negb (format c =?= Legacy) || is_some (records c) || legacy_paused c)
    (app_error "legacy SSH workspace is not active").

(** Keeping the result of a save in [unsaved]. *)
Definition noting_unsaved (c : SyncCore) (save : RM unit) : RM unit :=
  r ← attempt save;
  _ ← put_core (set_unsaved c (is_err r));
  of_result r.

Definition save_core : RM unit :=
  c ← the_core;
  match save_blocked c with
  | Some reason => fail (AOther reason)
  | None =>
      match format c with
      | Records => noting_unsaved c (s ← of_result (active_state c); on_files (save_active state_path s))
      | FBlocked => fail (app_error "sync workspace is blocked")
      | Legacy =>
          _ ← of_result (legacy_writes_allowed c);
          if is_some (legacy c) then fail (AOther UPGRADING_MESSAGE)
          else noting_unsaved c (match state c with Some s => on_files (save_v2 state_path s) | None => mret tt end)
      end
  end.

(** The relay has already done its part: the state that says so stays in memory also when
    it cannot be saved. *)
Definition commit_retained (f : SyncStateV3 -> result AppError SyncStateV3) (invalid exhausted : string) : RM unit :=
  c ← lock_core;
  _ ← match save_blocked c with Some reason => fail (AOther reason) | None => mret tt end;
  latest ← of_result (active_state c);
  next ← of_result (f latest);
  _ ← of_result (map_err (fun _ => app_error invalid) (validate_state next));
  g ← of_result (ok_or (checked_add (generation c) 1) (app_error exhausted));
  _ ← put_core (set_records c g next (account_keys c) (unsaved c));
  save_core.
End Path.

Definition read_account_keys (s : SyncStateV3) : RM (option ChainKeys) :=
  _ ← of_result (map_err (fun _ => app_error "cannot read keys for invalid record state") (validate_state s));
  match account s with
  | None => mret None
  | Some a =>
      p ← relabel (fun _ => app_error "the sync code could not be read") (keychain_get MNEMONIC_ACCOUNT);
      phrase ← of_result (ok_or p (app_error "the sync code is unavailable on this device"));
      k ← of_result (map_err (fun _ => app_error "the sync code is invalid") (derive_account phrase));
      _ ← require (ck_chain_id k =?= chain_id a) (app_error "the sync code belongs to a different account");
      mret (Some k)
  end.
End Monad.
