(* ===== verification/RecordRuntimeProps.v ===== *)
(** * RecordRuntimeProps: the state file is never torn, and memory agrees with it

    First the file: in every state that a crash between two system calls can leave, the
    state file is the old text or the new one, and a file of an older format is copied
    before it is replaced.  Then the core: every way to change the state in memory keeps
    it valid, saved unless it says otherwise, and its generation growing. *)

From stdpp Require Import gmap.
From S2P Require Import Prelude Text BTreeMap SlotRules ImportText ImportLoad HostText SpaceFiles SpaceFilesProps Json SyncRecord RecordsTypes RecordsValidate RecordsState RepositoryCore RecordGroups Repository GroupEdit GroupOrderEdit StateCheck Crypto Relay RecordMerge RecordPush RecordLibrary RecordRuntime.

(** ** The text of a file *)

Definition has_text (p : str) (b : list N) (d : Disk) : Prop :=
  exists i n, names d !! p = Some (mkEntry i Reg) /\ inodes d !! i = Some n /\ bytes n = b.

Lemma take_at_most_all limit b : (N.of_nat (length b) <= limit)%N -> take_at_most limit b = b.
Proof.
  revert limit. induction b as [|x b IH]; intros limit Hl; cbn [take_at_most length] in *; [done|].
  destruct (N.eqb_spec limit 0); [lia|]. by rewrite IH by lia.
Qed.

(** What a disk keeps when other programs and this one create files at free names or
    change modes. *)
Record Robust (F : Disk -> Prop) : Prop := {
  robust_wf : forall d, F d -> wf d;
  robust_put : Stable F;
  robust_mode : forall d m i, F d -> F (set_inodes d (alter (fun n => mkInode (bytes n) m) i (inodes d)));
  robust_create : forall d p k b m, names d !! p = None -> F d -> F (create p k b m d)
}.

Lemma text_created p k b m q b' d :
  wf d -> p <> q -> has_text q b' d -> has_text q b' (create p k b m d).
Proof.
  intros (_ & Hi & _) Hne (i & n & Hn & Hin & Hb). exists i, n. unfold create. cbn [names inodes].
  rewrite lookup_insert_ne by done. rewrite lookup_insert_ne; [done|]. intros <-. apply Hi in Hin. lia.
Qed.

Lemma robust_text q b : Robust (fun d => wf d /\ has_text q b d).
Proof.
  split.
  - by intros d [Hw _].
  - intros d f [Hw Ht]. split; [by apply stable_wf|]. destruct Ht as (i & n & Hn & Hi & Hb). exists i, n.
    split_and!; [by apply stable_name|by apply put_inodes|done].
  - intros d m i [Hw (j & n & Hn & Hj & Hb)]. split; [by apply alter_wf|]. cbn [names inodes set_inodes].
    destruct (decide (i = j)) as [->|Hij].
    + exists j, (mkInode (bytes n) m). split_and!; [done| |done]. cbn [inodes set_inodes]. by rewrite lookup_alter_eq, Hj.
    + exists j, n. split_and!; [done| |done]. cbn [inodes set_inodes]. by rewrite lookup_alter_ne.
  - intros d p k b' m Hp [Hw Ht]. split; [by apply create_wf|]. apply text_created; [done| |done].
    intros ->. destruct Ht as (i & n & Hn & _). congruence.
Qed.

Lemma robust_and F F' : Robust F -> Robust F' -> Robust (fun d => F d /\ F' d).
Proof.
  intros [H1 H2 H3 H4] [K1 K2 K3 K4]. split.
  - intros d [HF _]. by apply H1.
  - apply stable_and; done.
  - intros d m i [HF HF']. split; [by apply H3|by apply K3].
  - intros d p k b m Hp [HF HF']. split; [by apply H4|by apply K4].
Qed.

(** ** Writing atomically *)

Section Write.
Variables (F Q : Disk -> Prop) (G : Guarantee) (p : str) (b : list N) (m : N).
Hypothesis HF : Robust F.
Hypothesis HQ : Stable Q.
Hypothesis Hwrite : forall d, F d -> Q (create p Reg b m d).
Hypothesis HGF : forall d d', F d' -> G d d'.
Hypothesis HGQ : forall d d', Q d' -> G d d'.

#[local] Instance stable_F : Stable F := robust_put F HF.

Lemma robust_read {A} (f : Disk -> result IoError A) :
  triple G F (sys (fun d => (f d, d)))
    (fun r d => F d /\ match r with
      | Ok (Ok a) => f d = Ok a
      | Ok (Err err) => f d = Err err \/ SpaceFilesProps.failure err
      | Err _ => False end).
Proof. apply triple_read; [apply _|]. auto. Qed.

Lemma robust_check q : triple G F (check_write q) (fun _ d => F d).
Proof. apply triple_check; [apply _|]. auto. Qed.

Lemma robust_exists q : triple G F (exists_ q) (fun r d => F d /\ is_ok r = true).
Proof.
  unfold exists_. eapply triple_bind; [apply robust_read| |by intros ? ? [_ []]].
  intros r. apply triple_ret. by intros d [Hd _].
Qed.

Lemma robust_ensure_dir dir : triple G F (ensure_dir_secure dir) (fun _ d => F d).
Proof.
  unfold ensure_dir_secure. eapply triple_bind; [apply robust_check| |done]. intros ?.
  eapply triple_bind; [apply robust_exists| |by intros ? ? [? _]]. intros [|]; [apply triple_ret; by intros d [? _]|].
  eapply triple_bind with (R := fun r d => F d).
  { apply (triple_conseq _ _ F _ _ (fun r d => F d)); [|by intros d [? _]|done]. apply triple_sys; [apply _|auto|].
    intros d _ Hd. destruct (names d !! dir) as [[i []]|] eqn:Hn; cbn [fst snd]; auto.
    split; [apply HGF|]; by apply (robust_create F). }
  2: done. intros r. apply triple_io; [|done]. intros ? _.
  eapply triple_bind with (R := fun r d => F d).
  { apply triple_sys; [apply _|auto|]. intros d _ Hd. destruct (follow LINK_LIMIT d dir); cbn [fst snd]; auto.
    split; [apply HGF|]; by apply (robust_mode F). }
  2: done. intros [|]; [apply triple_ret|apply triple_throw]; done.
Qed.

(** The old disk, or the new text in place. *)
Lemma robust_atomic_write : triple G F (atomic_write p b m) (fun r d => match r with Ok _ => Q d | Err _ => F d end).
Proof.
  unfold atomic_write, sync_all. eapply triple_bind; [apply robust_check| |done]. intros ?.
  apply triple_lift; [|done]. intros dir _.
  eapply triple_bind; [apply robust_ensure_dir| |done]. intros ?. cbv beta.
  eapply triple_bind; [apply robust_read| |by intros ? ? [? _]]. intros r.
  apply triple_io; [|by intros ? ? [? _]]. intros ? _.
  eapply triple_bind; [eapply triple_conseq; [apply robust_read|by intros d [? _]|by intros ? ? H; exact H]| |by intros ? ? [? _]].
  intros r'. apply triple_io; [|by intros ? ? [? _]]. intros ? _.
  eapply triple_bind with (R := fun r d => match r with Ok (Ok _) => Q d | _ => F d end).
  { apply (triple_conseq _ _ F _ _ (fun r d => match r with Ok (Ok _) => Q d | _ => F d end)); [|by intros d [? _]|done].
    apply triple_sys; [apply _|auto|]. intros d _ Hd. destruct (names d !! p) as [[i []]|]; cbn [fst snd]; auto. }
  2: done. intros [u|err]; [|intros w Hw; by apply (triple_throw _ F)]. cbn [io]. change (mret u ≫= ?k) with (k u). cbv beta.
  eapply triple_bind; [apply (triple_read _ Q); auto| |by intros ? ? [_ []]].
  intros ?. apply triple_ret. by intros d [? _].
Qed.
End Write.

(** ** Saving the state *)

Lemma holds_bind_at {A B} G (m : M A) (k : A -> M B) R Q w :
  holds G m R w -> (forall a w1, m w = (Ok a, w1) -> R (Ok a) (disk w1) -> holds G (k a) Q w1) ->
  (forall e d, R (Err e) d -> Q (Err e) d) -> holds G (m ≫= k) Q w.
Proof.
  intros [HR (s1 & Ht1 & Hs1)] Hk He. unfold holds, mbind, m_bind in *.
  destruct (m w) as [[a|e] w1] eqn:Hm; cbn [fst snd] in *.
  - destruct (Hk a w1 eq_refl HR) as [HQ (s2 & Ht2 & Hs2)]. split; [done|]. exists (s1 ++ s2).
    rewrite Ht2, Ht1, app_assoc. split; [done|]. by apply Forall_app.
  - split; [by apply He|]. by exists s1.
Qed.

Lemma holds_lift {A B} G P (r : result AppError A) (k : A -> M B) Q w :
  P (disk w) -> (forall a, r = Ok a -> holds G (k a) Q w) -> (forall e d, P d -> Q (Err e) d) ->
  holds G (SpaceFiles.lift r ≫= k) Q w.
Proof. intros Hw Hk He. destruct r as [a|e]; [by apply Hk|]. split; [by apply He|]. exists []. by rewrite app_nil_r. Qed.

Section Save.
Context {R : RuntimeEnv} (path : str) (s : SyncStateV3) (old new : list N) (seen : Prop).
Hypothesis Hlen : (N.of_nat (length old) <= MAX_STATE_BYTES)%N.
Hypothesis Hplace : forall v digest, with_file_name path (backup_name v digest) <> path.
Hypothesis Hnew : state_to_vec_pretty s = Some new.

(** Where the copy of an older format belongs. *)
Definition backup_of : option str :=
  if (GROUP_STATE_VERSION <=? version s)%N
  then v ← json_from_slice old; n ← replaced_version (version s) v;
       Some (with_file_name path (backup_name n (sha256_hex old)))
  else None.
(** The copy is there, if [path.exists()] saw the file. *)
Definition backed_up (d : Disk) : Prop :=
  seen -> match backup_of with Some q => has_text q old d | None => True end.

Definition old_state (d : Disk) : Prop := wf d /\ has_text path old d.
Definition old_kept (d : Disk) : Prop := old_state d /\ (wf d /\ backed_up d).
Definition new_state (d : Disk) : Prop := (wf d /\ has_text path new d) /\ (wf d /\ backed_up d).
(** Every state that a crash can leave. *)
Definition old_or_new (d : Disk) : Prop := old_state d \/ new_state d.
Definition step_old_or_new (_ d' : Disk) : Prop := old_or_new d'.

Lemma robust_old : Robust old_state.
Proof. apply robust_text. Qed.

Lemma robust_backed : Robust (fun d => wf d /\ backed_up d).
Proof.
  unfold backed_up. destruct backup_of as [q|].
  - destruct (robust_text q old) as [H1 H2 H3 H4]. split.
    + by intros d [Hw _].
    + intros d f [Hw Hb]. split; [by apply stable_wf|]. intros Hs. apply (H2 d f). auto.
    + intros d m i [Hw Hb]. split; [by apply alter_wf|]. intros Hs. apply H3. auto.
    + intros d p k b m Hp [Hw Hb]. split; [by apply create_wf|]. intros Hs. apply H4; auto.
  - split; try done.
    + by intros d [Hw _].
    + intros d f [Hw _]. split; [by apply stable_wf|done].
    + intros d m i [Hw _]. split; [by apply alter_wf|done].
    + intros d p k b m Hp [Hw _]. split; [by apply create_wf|done].
Qed.

Lemma robust_old_kept : Robust old_kept.
Proof. apply (robust_and old_state); [apply robust_old|apply robust_backed]. Qed.

Lemma robust_new : Robust new_state.
Proof. apply (robust_and (fun d => wf d /\ has_text path new d)); [apply robust_text|apply robust_backed]. Qed.

#[local] Instance stable_old : Stable old_state := robust_put _ robust_old.
#[local] Instance stable_old_kept : Stable old_kept := robust_put _ robust_old_kept.
#[local] Instance stable_new : Stable new_state := robust_put _ robust_new.

Lemma old_idle d d' : old_state d' -> step_old_or_new d d'.
Proof. by left. Qed.
Lemma kept_idle d d' : old_kept d' -> step_old_or_new d d'.
Proof. by intros [? _]; left. Qed.
Lemma new_idle d d' : new_state d' -> step_old_or_new d d'.
Proof. by right. Qed.

Lemma old_entry d : old_state d -> exists i, names d !! path = Some (mkEntry i Reg) /\ entry_bytes d (mkEntry i Reg) = old.
Proof. intros (_ & i & n & Hn & Hi & Hb). exists i. split; [done|]. unfold entry_bytes. cbn [ino]. by rewrite Hi. Qed.

Lemma backup_written q d :
  q <> path -> backup_of = Some q -> old_state d -> old_kept (create q Reg old 384 d).
Proof.
  intros Hq Hb [Hw Ht]. split; [split; [by apply create_wf|by apply text_created]|].
  split; [by apply create_wf|]. unfold backed_up. rewrite Hb. intros _.
  exists (next_ino d). eexists. unfold create. cbn [names inodes]. by rewrite !lookup_insert_eq.
Qed.

Definition is_reg (q : str) (d : Disk) : Prop := exists i, names d !! q = Some (mkEntry i Reg).
#[local] Instance stable_is_reg q : Stable (is_reg q).
Proof. intros d f [i Hi]. exists i. by apply stable_name. Qed.

Lemma step_keep_source v :
  backup_of = Some (with_file_name path (backup_name v (sha256_hex old))) ->
  triple step_old_or_new old_state (keep_source path old v)
    (fun r d => match r with Ok _ => old_kept d | Err _ => old_state d end).
Proof.
  intros Hb. unfold keep_source. cbv zeta. set (q := with_file_name _ _) in *.
  eapply triple_bind with (R := fun r d => old_state d /\ match r with
    | Ok (Ok (k, _)) => exists e, names d !! q = Some e /\ kind e = k | _ => True end).
  - eapply triple_conseq; [apply (triple_read _ old_state); intros; by apply old_idle|done|].
    intros [[[k len]|]|] d [Hd Hr]; split; try done. destruct (names d !! q) as [e|]; [|done].
    injection Hr as <- <-. by exists e.
  - intros [[k len]|err].
    + destruct (is_regular k) eqn:Hk; [|intros w [Hw _]; by apply (triple_throw _ old_state)].
      unfold is_regular in Hk. breflect. subst k. cbn [negb].
      eapply triple_bind with (R := fun r d => old_state d /\ match r with
        | Ok (Ok b) => has_text q b d | _ => True end).
      * eapply triple_conseq.
        -- apply (triple_read _ (fun d : Disk => old_state d /\ is_reg q d)). intros d [Hd _]. by left.
        -- intros d [Hd ([i k'] & He & Hk')]. split; [done|]. exists i. simpl in Hk'. by subst.
        -- intros [[b|]|] d [[Hd (i & Hi)] Hr]; split; try done. unfold read_path in Hr.
           assert (Hf : follow LINK_LIMIT d q = Some (mkEntry i Reg)) by (unfold LINK_LIMIT; cbn [follow]; by rewrite Hi).
           rewrite Hf in Hr. cbn [mbind option_bind kind ino] in Hr.
           destruct (inodes d !! i) as [n|] eqn:Hn; [|done]. cbn in Hr. injection Hr as <-. by exists i, n.
      * intros r. apply triple_io; [|by intros ? ? [? _]]. intros b ->. intros w [Hw Ht].
        unfold io_require. destruct (bool_decide (b = old)) eqn:Hbo; [|by apply (triple_throw _ old_state)].
        breflect. subst b. apply (triple_ret _ old_kept); [done|]. split; [done|]. split; [by destruct Hw|].
        unfold backed_up. by rewrite Hb.
      * by intros ? ? [? _].
    + intros w [Hw _]. destruct (bool_decide (io_kind err = NotFound)); [|by apply (triple_throw _ old_state)].
      apply (robust_atomic_write old_state old_kept step_old_or_new q old 384); try done.
      * apply robust_old.
      * apply _.
      * intros d Hd. apply backup_written; [|done|done]. unfold q. apply Hplace.
      * intros; by apply old_idle.
      * intros; by apply kept_idle.
  - by intros ? ? [? _].
Qed.

Lemma old_entry_bytes d e : old_state d -> names d !! path = Some e -> kind e = Reg /\ entry_bytes d e = old.
Proof. intros Hd He. destruct (old_entry d Hd) as (i & Hi & Hb). rewrite He in Hi. by injection Hi as ->. Qed.

(** A read of the open file, which still has its name. *)
Lemma step_opened {A} e (f : Disk -> result IoError A) :
  triple step_old_or_new (fun d => old_state d /\ names d !! path = Some e) (sys (fun d => (f d, d)))
    (fun r d => (old_state d /\ names d !! path = Some e) /\ match r with
      | Ok (Ok a) => f d = Ok a
      | Ok (Err err) => f d = Err err \/ SpaceFilesProps.failure err
      | Err _ => False end).
Proof. apply triple_read; [apply _|]. intros d [Hd _]. by left. Qed.

Lemma step_keep_older_format :
  (GROUP_STATE_VERSION <=? version s)%N = true ->
  triple step_old_or_new old_state (keep_older_format path (version s))
    (fun r d => match r with Ok _ => old_kept d | Err _ => old_state d end).
Proof.
  intros Hv. unfold keep_older_format.
  eapply triple_bind; [apply (triple_read _ old_state); intros; by apply old_idle| |by intros ? ? [? _]].
  intros r. apply triple_io; [|by intros ? ? [? _]]. intros e ->.
  eapply triple_bind; [eapply triple_conseq; [apply (step_opened e)| |by intros ? ? H; exact H]| |by intros ? ? [[? _] _]].
  { intros d [Hd Hr]. split; [done|]. by destruct (names d !! path) as [[i []]|]; simplify_eq. }
  intros r. apply triple_io; [|by intros ? ? [[? _] _]]. intros [k len] ->. cbn [fst].
  intros w [[Hw He] Hk]. injection Hk as Hk _. destruct (old_entry_bytes _ _ Hw He) as [Hreg _].
  rewrite <-Hk, Hreg. unfold is_regular. rewrite bool_decide_true by done. cbn [negb].
  revert w Hw He. clear Hk Hreg. intros w Hw He. revert w Hw He.
  enough (triple step_old_or_new (fun d => old_state d /\ names d !! path = Some e)
    (r ← read_at_most (MAX_STATE_BYTES + 1) e; source ← io r;
     value ← SpaceFiles.lift (ok_or (json_from_slice source) (app_error "cannot read format upgrade source"));
     match replaced_version (version s) value with Some v => keep_source path source v | None => mret tt end)
    (fun r d => match r with Ok _ => old_kept d | Err _ => old_state d end)) as H by (intros; by apply H).
  eapply triple_bind; [apply step_opened| |by intros ? ? [[? _] _]].
  intros r. apply triple_io; [|by intros ? ? [[? _] _]]. intros b ->. intros w [[Hw He] Hb].
  destruct (old_entry_bytes _ _ Hw He) as [Hreg Ho]. rewrite Ho, bool_decide_true in Hb by done.
  injection Hb as Hb. rewrite take_at_most_all in Hb by lia. subst b.
  destruct (json_from_slice old) as [v|] eqn:Hj; [|by apply (triple_throw _ old_state)]. cbn [ok_or SpaceFiles.lift].
  change ((mret v : M _) ≫= ?k) with (k v). cbv beta.
  destruct (replaced_version (version s) v) as [n|] eqn:Hn.
  - apply step_keep_source; [|done]. unfold backup_of. rewrite Hv, Hj. cbn. by rewrite Hn.
  - apply (triple_ret _ old_kept); [done|]. split; [done|]. split; [by destruct Hw|]. unfold backed_up, backup_of.
    rewrite Hv, Hj. cbn. by rewrite Hn.
Qed.

Lemma backup_elsewhere q : backup_of = Some q -> q <> path.
Proof.
  unfold backup_of. destruct (_ <=? _)%N; [|done]. destruct (json_from_slice old) as [v|]; [|done]. cbn.
  destruct (replaced_version (version s) v); [|done]. cbn. intros [= <-]. apply Hplace.
Qed.

Lemma text_replaced d : old_kept d -> new_state (create path Reg new 384 d).
Proof.
  intros [[Hw Ht] [_ Hb]]. split; (split; [by apply create_wf|]).
  - exists (next_ino d). eexists. unfold create. cbn [names inodes]. by rewrite !lookup_insert_eq.
  - intros Hs. specialize (Hb Hs). destruct backup_of as [q|] eqn:Hq; [|done].
    apply text_created; [done| |done]. intros <-. by apply (backup_elsewhere path).
Qed.

Lemma step_write : triple step_old_or_new old_kept (atomic_write path new 384)
  (fun r d => match r with Ok _ => new_state d | Err _ => old_kept d end).
Proof.
  apply (robust_atomic_write old_kept new_state); try by apply robust_old_kept.
  - apply _.
  - apply text_replaced.
  - intros; by apply kept_idle.
  - intros; by apply new_idle.
Qed.

(** What the old state becomes. *)
Definition saved (r : result AppError unit) (d : Disk) : Prop :=
  match r with Ok _ => new_state d /\ validate_state s = Ok tt | Err _ => old_state d end.

Lemma step_tail (b : bool) : validate_state s = Ok tt ->
  (b = false -> seen -> False) \/ (GROUP_STATE_VERSION <=? version s)%N = false ->
  forall w, old_state (disk w) -> holds step_old_or_new
    (_ ← (if (GROUP_STATE_VERSION <=? version s)%N
          then if b then keep_older_format path (version s) else mret tt else mret tt);
     atomic_write path new 384) saved w.
Proof.
  intros Hv Hb w Hw.
  eapply (triple_bind _ old_state) with (R := fun r d => match r with Ok _ => old_kept d | Err _ => old_state d end);
    [| |by intros e d Hd|exact Hw].
  - destruct (GROUP_STATE_VERSION <=? version s)%N eqn:Hg.
    + destruct b; [by apply step_keep_older_format|]. apply (triple_ret _ old_state). intros d Hd.
      split; [done|]. split; [by destruct Hd|]. intros Hs. destruct Hb as [Hb|]; [|done]. by destruct (Hb eq_refl).
    + apply (triple_ret _ old_state). intros d Hd. split; [done|]. split; [by destruct Hd|].
      unfold backed_up, backup_of. by rewrite Hg.
  - intros ?. eapply triple_conseq; [apply step_write|done|]. intros [[]|err] d Hd; [by split|by destruct Hd].
Qed.
End Save.

(** ** Saving, from the first system call to the last *)

Lemma holds_assoc {A B C} G (m : M A) (f : A -> M B) (k : B -> M C) Q w :
  holds G (m ≫= fun x => f x ≫= k) Q w -> holds G ((m ≫= f) ≫= k) Q w.
Proof. unfold holds, mbind, m_bind. by destruct (m w) as [[]]. Qed.

(** A call that only reads, whose place in the script matters. *)
Lemma holds_sys {A B} G P `{!Stable P} (f : Disk -> result IoError A) (k : result IoError A -> M B) Q w :
  (forall d, P d -> G d d) -> P (disk w) ->
  (forall r w1, P (disk w1) -> script w1 = tail (script w) ->
     (fails (hd quiet (script w)) = None -> r = f (disk w1)) -> holds G (k r) Q w1) ->
  holds G (sys (fun d => (f d, d)) ≫= k) Q w.
Proof.
  intros HG Hw Hk. unfold holds, sys, sys_partial, mbind, m_bind.
  assert (Hn : next_happens w = (hd quiet (script w), tail (script w))) by (unfold next_happens; by destruct (script w)).
  rewrite Hn. set (h := hd quiet (script w)) in *.
  pose proof (stable_puts P (appear h) (disk w) Hw) as Hd. set (d := foldl put (disk w) (appear h)) in *.
  set (w1 := mkWorld d (tail (script w)) (trace w ++ [(d, d)])).
  assert (Hr : forall r : result IoError A, (fails h = None -> r = f d) -> holds G (k r) Q w1 ->
    Q (k r w1).1 (disk (k r w1).2) /\ exists steps, trace (k r w1).2 = trace w ++ steps /\ Forall (fun s => G s.1 s.2) steps).
  { intros r _ [HQ (s2 & Ht & Hs2)]. split; [done|]. exists ((d, d) :: s2). rewrite Ht. cbn [trace w1].
    rewrite <-app_assoc. split; [done|]. constructor; [by apply HG|done]. }
  destruct (fails h) as [e|]; (apply Hr; [done|]); apply Hk; auto. done.
Qed.

Section SaveActive.
Context {R : RuntimeEnv} (path : str) (s : SyncStateV3) (old new : list N).
Hypothesis Hlen : (N.of_nat (length old) <= MAX_STATE_BYTES)%N.
Hypothesis Hplace : forall v digest, with_file_name path (backup_name v digest) <> path.

(** [path.exists()] is the second system call of a save; it saw the file unless it
    failed. *)
Definition exists_saw (w : World) : Prop := fails (hd quiet (tail (script w))) = None.

Lemma save_active_holds w (seen := exists_saw w) :
  old_state path old (disk w) -> state_to_vec_pretty s = Some new ->
  holds (step_old_or_new path s old new seen) (save_active path s) (saved path s old new seen) w.
Proof.
  intros Hw Hnew. pose (G := step_old_or_new path s old new seen). pose proof (stable_old path old) as Hst.
  assert (Hidle : forall d, old_state path old d -> G d d) by (intros; by left).
  unfold save_active. rewrite Hnew. cbn [ok_or].
  apply (holds_lift _ (old_state path old)); [done| |done]. intros [] Hv.
  apply (holds_lift _ (old_state path old)); [done| |done]. intros b [= <-].
  apply (holds_lift _ (old_state path old)); [done| |done]. intros [] _.
  assert (Hv' : validate_state s = Ok tt) by (destruct (validate_state s) as [[]|]; done). clear Hv.
  unfold check_place, lstat. apply holds_assoc, (holds_sys _ (old_state path old)); [done|done|].
  intros meta w1 Hw1 Hs1 _.
  enough (Hrest : holds G (_ ← (if (GROUP_STATE_VERSION <=? version s)%N
       then e ← exists_ path; if e : bool then keep_older_format path (version s) else mret tt
       else mret tt); atomic_write path new 384) (saved path s old new seen) w1).
  { assert (Hstop : forall e, holds G (@throw unit e) (saved path s old new seen) w1)
      by (intros e; by apply (triple_throw _ (old_state path old))).
    destruct meta as [[k len]|err]; cbn [io_require].
    - unfold io_require. destruct (is_regular k); [exact Hrest|apply Hstop].
    - destruct (_ =?= NotFound); [exact Hrest|apply Hstop]. }
  destruct (GROUP_STATE_VERSION <=? version s)%N eqn:Hg.
  - unfold exists_, try_exists. apply holds_assoc, holds_assoc, (holds_sys _ (old_state path old)); [done|done|].
    intros r w2 Hw2 _ Hr. change (mret ?x ≫= ?k) with (k x). cbv beta.
    pose proof (step_tail path s old new seen Hlen Hplace (match r with Ok b => b | Err _ => false end) Hv') as Ht.
    rewrite Hg in Ht. apply Ht; [|done]. left. intros Hf Hseen. unfold seen, exists_saw in Hseen.
    rewrite <-Hs1 in Hseen. rewrite (Hr Hseen) in Hf.
    destruct (old_entry path old _ Hw2) as (i & Hi & _).
    unfold LINK_LIMIT in Hf. cbn [follow] in Hf. by rewrite Hi in Hf.
  - pose proof (step_tail path s old new seen Hlen Hplace true Hv') as Ht. rewrite Hg in Ht. apply Ht; [by left|done].
Qed.
End SaveActive.

(** C5. The state file is never torn and never lost.  Whatever system call of
    [save_active] fails, whatever files other programs create meanwhile and wherever a
    crash stops it: in every state the file holds, whole, the old text or the new one.
    If the new format is a later one, the new text is there only when the old text lies
    in the backup of its format - provided [path.exists()] did not fail, because that
    call turns an error into "there is no file" and the copy is skipped.  A save that
    succeeds leaves the new text of a valid state, one that fails the old text. *)
Theorem save_keeps_old_or_new {R : RuntimeEnv} path s old new w
    (Hwf : wf (disk w)) (Hold : has_text path old (disk w))
    (Hlen : (N.of_nat (length old) <= MAX_STATE_BYTES)%N)
    (Hplace : forall v digest, with_file_name path (backup_name v digest) <> path)
    (Hnew : state_to_vec_pretty s = Some new) :
  let '(r, w') := save_active path s w in
  (exists steps, trace w' = trace w ++ steps /\
     Forall (fun st => old_or_new path s old new (exists_saw w) st.2) steps) /\
  saved path s old new (exists_saw w) r (disk w').
Proof.
  destruct (save_active_holds path s old new Hlen Hplace w (conj Hwf Hold) Hnew) as [HQ Hsteps].
  destruct (save_active path s w) as [r w']. by split.
Qed.

(** ** Memory and disk agree *)

Section Coherence.
Context {R : RuntimeEnv} (path : str).

(** The text of a state that a program can start from. *)
Definition valid_text (b : list N) : Prop :=
  exists s, validate_state s = Ok tt /\ state_to_vec_pretty s = Some b /\ (N.of_nat (length b) <= MAX_STATE_BYTES)%N.
Definition durable (d : Disk) : Prop := exists b, valid_text b /\ has_text path b d.

(** Unless writing has stopped, the state in memory is valid, and it is the one in the
    file [b] unless it is marked as unsaved. *)
Definition agrees (c : SyncCore) (b : list N) : Prop :=
  format c = Records /\
  (save_blocked c = None -> forall s, records c = Some s ->
  validate_state s = Ok tt /\ (unsaved c = false -> state_to_vec_pretty s = Some b)).
Definition coherent (w : RWorld) : Prop :=
  exists b, valid_text b /\ old_state path b (disk (files w)) /\ agrees (core w) b.

(** The same state but for the text that tells how the last round went. *)
Definition same_but_status (o o' : option SyncStateV3) : Prop :=
  match o, o' with
  | Some s, Some s' => s' = set_synced s (last_sync_ms s') (last_error s')
  | None, None => True
  | _, _ => False
  end.

(** What the core may do: its generation never falls, its format stays, a stop of writing is final, and
    an unchanged generation means an unchanged state. *)
Definition grows (c c' : SyncCore) : Prop :=
  (generation c <= generation c')%N /\ format c' = format c /\
  (save_blocked c' = None -> save_blocked c = None /\
     (generation c' = generation c -> same_but_status (records c) (records c'))).

(** The steps between two worlds. *)
Definition only_durable (w w' : RWorld) : Prop :=
  exists steps, trace (files w') = trace (files w) ++ steps /\ Forall (fun st => durable st.2) steps.
Definition evolves (w w' : RWorld) : Prop :=
  grows (core w) (core w') /\ (coherent w -> coherent w' /\ only_durable w w').

Lemma same_status_refl o : same_but_status o o.
Proof. destruct o as [[]|]; reflexivity. Qed.
Lemma same_status_trans o1 o2 o3 : same_but_status o1 o2 -> same_but_status o2 o3 -> same_but_status o1 o3.
Proof. destruct o1, o2, o3; cbn; try done. intros -> ->. reflexivity. Qed.

Lemma core_grows_refl c : grows c c.
Proof. split; [lia|]. split; [done|]. split; [done|]. intros _. apply same_status_refl. Qed.
Lemma core_grows_trans c1 c2 c3 : grows c1 c2 -> grows c2 c3 -> grows c1 c3.
Proof.
  intros (H1 & F1 & K1) (H2 & F2 & K2). split; [lia|]. split; [congruence|]. intros Hb. destruct (K2 Hb) as [Hb2 HS2]. destruct (K1 Hb2) as [Hb1 HS1].
  split; [done|]. intros Hg. eapply same_status_trans; [apply HS1|apply HS2]; lia.
Qed.

Lemma only_durable_trans w1 w2 w3 : only_durable w1 w2 -> only_durable w2 w3 -> only_durable w1 w3.
Proof.
  intros (l1 & H1 & F1) (l2 & H2 & F2). exists (l1 ++ l2). rewrite H2, H1, app_assoc. split; [done|]. by apply Forall_app.
Qed.
Lemma only_durable_same w w' : files w' = files w -> only_durable w w'.
Proof. intros H. exists []. by rewrite H, app_nil_r. Qed.

Lemma evolves_refl w : evolves w w.
Proof. split; [apply core_grows_refl|]. intros H. split; [done|]. by apply only_durable_same. Qed.
Lemma evolves_trans w1 w2 w3 : evolves w1 w2 -> evolves w2 w3 -> evolves w1 w3.
Proof.
  intros [G1 H1] [G2 H2]. split; [by eapply core_grows_trans|]. intros Hc.
  destruct (H1 Hc) as [Hc2 O1]. destruct (H2 Hc2) as [Hc3 O2]. split; [done|]. by eapply only_durable_trans.
Qed.

(** Nothing but the relay, the keychain, the clock and the like has changed. *)
Lemma evolves_same w w' : files w' = files w -> core w' = core w -> evolves w w'.
Proof.
  intros Hf Hc. split; [rewrite Hc; apply core_grows_refl|]. intros (b & Hv & Hd & Ha). split; [|by apply only_durable_same].
  exists b. by rewrite Hf, Hc.
Qed.

(** ** Operations that keep it so *)

Definition Keeps {A} (m : RM A) : Prop := forall w, evolves w (m w).2.

Lemma keeps_ret {A} (a : A) : Keeps (mret a).
Proof. intros w. apply evolves_refl. Qed.
Lemma keeps_fail {A} e : Keeps (fail (A := A) e).
Proof. intros w. apply evolves_refl. Qed.
Lemma keeps_of_result {A} (r : result AppError A) : Keeps (of_result r).
Proof. destruct r; [apply keeps_ret|apply keeps_fail]. Qed.
Lemma keeps_require b e : Keeps (require b e).
Proof. destruct b; [apply keeps_ret|apply keeps_fail]. Qed.

Lemma evolves_bind {A B} (m : RM A) (k : A -> RM B) w :
  evolves w (m w).2 -> (forall a w1, m w = (Ok a, w1) -> evolves w1 (k a w1).2) -> evolves w ((m ≫= k) w).2.
Proof.
  intros Hm Hk. unfold mbind, rm_bind. destruct (m w) as [[a|e] w1]; [|done].
  eapply evolves_trans; [exact Hm|]. by apply Hk.
Qed.
Lemma keeps_bind {A B} (m : RM A) (k : A -> RM B) : Keeps m -> (forall a, Keeps (k a)) -> Keeps (m ≫= k).
Proof. intros Hm Hk w. apply evolves_bind; [apply Hm|]. intros a w1 _. apply Hk. Qed.

Lemma keeps_attempt {A} (m : RM A) : Keeps m -> Keeps (attempt m).
Proof. intros Hm w. specialize (Hm w). unfold attempt. by destruct (m w). Qed.
Lemma keeps_relabel {A} f (m : RM A) : Keeps m -> Keeps (relabel f m).
Proof. intros Hm w. specialize (Hm w). unfold relabel. by destruct (m w). Qed.
Lemma keeps_the_core : Keeps the_core.
Proof. intros w. apply evolves_refl. Qed.
Lemma keeps_keychain {A} (f : list (str * str) -> A * list (str * str)) : Keeps (keychain_op f).
Proof. intros w. unfold keychain_op. destruct (keychain_fails w) as [|[] l]; try destruct (f _); by apply evolves_same. Qed.
Lemma keeps_now : Keeps now.
Proof. intros w. by apply evolves_same. Qed.
Lemma keeps_fill n : Keeps (fill n).
Proof. intros w. by apply evolves_same. Qed.
Lemma keeps_pull url chain token since : Keeps (relay_pull url chain token since).
Proof. intros w. unfold relay_pull. destruct (net_pull _ _ _ _ _). by apply evolves_same. Qed.
Lemma keeps_push url chain token sent : Keeps (relay_push url chain token sent).
Proof. intros w. unfold relay_push. destruct (push_outgoing _ _ _ _). by apply evolves_same. Qed.
Lemma keeps_interrupt : Keeps next_interrupt.
Proof. intros w. by apply evolves_same. Qed.

(** A file operation that leaves the state file alone. *)
Definition Leaves {A} (m : M A) : Prop :=
  forall b, valid_text b -> triple (fun _ d => durable d) (old_state path b) m (fun _ d => old_state path b d).

Lemma keeps_files {A} (m : M A) : Leaves m -> Keeps (on_files m).
Proof.
  intros Hm w. unfold on_files. destruct (m (files w)) as [r f] eqn:Hr. split; [apply core_grows_refl|].
  intros (b & Hv & Hd & Ha). destruct (Hm b Hv (files w) Hd) as [HQ Hs]. rewrite Hr in HQ, Hs.
  split; [by exists b|exact Hs].
Qed.

Lemma leaves_ret {A} (a : A) : Leaves (mret a).
Proof. intros b _. by apply triple_ret. Qed.
Lemma leaves_throw {A} e : Leaves (throw (A := A) e).
Proof. intros b _. by apply triple_throw. Qed.
Lemma leaves_bind {A B} (m : M A) (k : A -> M B) : Leaves m -> (forall a, Leaves (k a)) -> Leaves (m ≫= k).
Proof. intros Hm Hk b Hb. eapply triple_bind; [by apply Hm| |done]. intros a. by apply Hk. Qed.
Lemma leaves_lift {A} (r : result AppError A) : Leaves (SpaceFiles.lift r).
Proof. destruct r; [apply leaves_ret|apply leaves_throw]. Qed.
Lemma leaves_io {A} (r : result IoError A) : Leaves (io r).
Proof. destruct r; [apply leaves_ret|apply leaves_throw]. Qed.
Lemma leaves_require c e : Leaves (io_require c e).
Proof. destruct c; [apply leaves_ret|apply leaves_throw]. Qed.
Lemma leaves_catch {A} (m : M A) : Leaves m -> Leaves (catch m).
Proof. intros Hm b Hb. eapply triple_catch; [by apply Hm|]. auto. Qed.
Lemma leaves_read {A} (f : Disk -> result IoError A) : Leaves (sys (fun d => (f d, d))).
Proof.
  intros b Hb. pose proof (stable_old path b). eapply triple_conseq; [apply triple_read; [apply _|]|done|by intros ? ? [? _]].
  intros d [_ Hd]. by exists b.
Qed.
End Coherence.

Create HintDb leaves.
#[export] Hint Resolve leaves_ret leaves_throw leaves_lift leaves_io leaves_require leaves_catch leaves_read : leaves.

(** A program of reads, call by call. *)
Ltac leaves :=
  repeat (cbv zeta; first
    [ done | solve [auto with leaves]
    | apply leaves_catch
    | match goal with
      | |- Leaves _ (_ ≫= _) => apply leaves_bind; [|intros ?]
      | |- Leaves _ (match ?x with _ => _ end) => destruct x
      end ]).

Section Reads.
Context {R : RuntimeEnv} (path : str).

Lemma leaves_check_write p : Leaves path (check_write p).
Proof. unfold check_write, check_write_io. leaves. Qed.
Lemma leaves_check_place p error : Leaves path (check_place p error).
Proof. unfold check_place, lstat. leaves. Qed.
Lemma leaves_exists p : Leaves path (exists_ p).
Proof. unfold exists_, try_exists. leaves. Qed.
Lemma leaves_read_optional p limit : Leaves path (read_optional p limit).
Proof. unfold read_optional, metadata, open_file, fstat, read_at_most, io_relabel. leaves. Qed.
Lemma leaves_scan_entry root acc id : Leaves path (scan_entry root acc id).
Proof. pose proof leaves_read_optional. unfold scan_entry, metadata. leaves. Qed.
Lemma leaves_scan_entries root n acc l : Leaves path (scan_entries root n acc l).
Proof. revert n acc. induction l as [|id l IH]; intros n acc; cbn [scan_entries]; pose proof leaves_scan_entry; leaves. Qed.
Lemma leaves_read_dir p : Leaves path (read_dir p).
Proof.
  intros b Hb. pose proof (stable_old path b). unfold read_dir. apply triple_sys; [apply _|..].
  - intros d _ e Hd _. split; [by exists b; destruct Hd|done].
  - intros d _ Hd. destruct (follow _ _ _) as [[? []]|]; (split; [by exists b; destruct Hd|done]).
Qed.
Lemma leaves_pending p : Leaves path (pending_migrations p).
Proof.
  pose proof leaves_exists. pose proof leaves_scan_entries. pose proof leaves_read_dir.
  unfold pending_migrations, io_relabel. leaves.
Qed.
End Reads.
#[export] Hint Resolve leaves_check_write leaves_check_place leaves_pending : leaves.

(** ** The operations of the core *)

Section Operations.
Context {R : RuntimeEnv} (path : str).
Hypothesis Hplace : forall v digest, with_file_name path (backup_name v digest) <> path.

Definition after_save (s : SyncStateV3) (b : list N) (r : result AppError unit) (d : Disk) : Prop :=
  match r with
  | Ok _ => validate_state s = Ok tt /\
      exists new, state_to_vec_pretty s = Some new /\ valid_text new /\ old_state path new d
  | Err _ => old_state path b d
  end.

Lemma save_active_cases s b w :
  valid_text b -> old_state path b (disk w) -> holds (fun _ d => durable path d) (save_active path s) (after_save s b) w.
Proof.
  intros Hb Hw.
  assert (Hstop : forall e, save_active path s w = (Err e, w) ->
    holds (fun _ d => durable path d) (save_active path s) (after_save s b) w).
  { intros e He. unfold holds. rewrite He. split; [done|]. exists []. by rewrite app_nil_r. }
  destruct (validate_state s) as [[]|] eqn:Hv; [|eapply Hstop; unfold save_active; by rewrite Hv].
  destruct (state_to_vec_pretty s) as [new|] eqn:Hn; [|eapply Hstop; unfold save_active; by rewrite Hv, Hn].
  destruct (MAX_STATE_BYTES <? N.of_nat (length new))%N eqn:Hl.
  { eapply Hstop. unfold save_active, mbind, m_bind. rewrite Hv, Hn. cbn [map_err ok_or SpaceFiles.lift].
    unfold mret, m_ret. rewrite Hl. reflexivity. }
  apply N.ltb_ge in Hl. assert (Hvt : valid_text new) by (by exists s).
  assert (Hlen : (N.of_nat (length b) <= MAX_STATE_BYTES)%N) by (by destruct Hb as (? & _ & _ & ?)).
  destruct (save_active_holds path s b new Hlen Hplace w Hw Hn) as [HQ (steps & Ht & Hs)]. split.
  - destruct (save_active path s w) as [[u|e] w']; cbn [fst snd] in HQ |- *; [|done]. destruct HQ as [[Hd _] _].
    split; [done|]. by exists new.
  - exists steps. split; [done|]. eapply Forall_impl; [exact Hs|]. intros [d0 d1] [Hd|[Hd _]]; [exists b|exists new].
    all: by destruct Hd.
Qed.

Lemma save_active_world s b w r w' :
  valid_text b -> old_state path b (disk w) -> save_active path s w = (r, w') ->
  after_save s b r (disk w') /\
  exists steps, trace w' = trace w ++ steps /\ Forall (fun st => durable path st.2) steps.
Proof. intros Hb Hw Hs. pose proof (save_active_cases s b w Hb Hw) as H. unfold holds in H. by rewrite Hs in H. Qed.

(** A save that replaces the state in memory only when it succeeds. *)
Lemma evolves_persist candidate w : evolves path w (persist_candidate path candidate w).2.
Proof.
  unfold persist_candidate. apply evolves_bind; [apply keeps_the_core|]. intros c w1 [= <- <-].
  apply evolves_bind; [apply keeps_of_result|]. intros [] w1 Hwr.
  destruct (writes_allowed (core w)) as [[]|] eqn:Ha; [|done]. injection Hwr as <-.
  apply evolves_bind; [apply keeps_of_result|]. intros n w1 Hn.
  destruct (published (core w) candidate) as [n'|]; [|done]. injection Hn as -> <-.
  apply evolves_bind; [apply keeps_of_result|]. intros g w1 Hg.
  destruct (checked_add (generation (core w)) 1) as [g'|] eqn:Hadd; [|done]. injection Hg as -> <-.
  assert (Hnb : save_blocked (core w) = None).
  { unfold writes_allowed in Ha. by destruct (save_blocked (core w)). }
  assert (Hlt : (generation (core w) < g)%N).
  { unfold checked_add in Hadd. destruct (_ <=? _)%N; [|done]. injection Hadd as <-. lia. }
  unfold on_files, mbind, rm_bind, put_core, mret, rm_ret.
  destruct (save_active path n (files w)) as [[u|e] f] eqn:Hs; cbn [fst snd with_core with_files].
  - split.
    + split; [cbn [generation core with_core set_records]; lia|]. split; [done|]. intros _. split; [done|].
      cbn [generation core with_core set_records]. lia.
    + intros (b & Hb & Hd & Hfmt & _). destruct (save_active_world n b _ _ _ Hb Hd Hs) as [Hr Hsteps].
      destruct Hr as (Hv & new & Hp & Hvt & Hd'). split; [|exact Hsteps]. exists new. split; [done|]. split; [done|].
      split; [exact Hfmt|]. intros _ s [= <-]. by split.
  - split; [apply core_grows_refl|]. intros (b & Hb & Hd & Hag).
    destruct (save_active_world n b _ _ _ Hb Hd Hs) as [Hr Hsteps]. split; [|exact Hsteps]. by exists b.
Qed.

Lemma keeps_persist candidate : Keeps path (persist_candidate path candidate).
Proof. intros w. apply evolves_persist. Qed.

Lemma keeps_transact f : Keeps path (transact path f).
Proof.
  apply keeps_bind; [apply keeps_the_core|]. intros c. apply keeps_bind; [apply keeps_of_result|]. intros ?.
  apply keeps_bind; [apply keeps_of_result|]. intros s. apply keeps_bind; [apply keeps_of_result|]. intros n.
  apply keeps_persist.
Qed.

Lemma keeps_others fs : Keeps path (run_others path fs).
Proof.
  induction fs as [|f fs IH]; [apply keeps_ret|]. apply keeps_bind; [by apply keeps_attempt, keeps_transact|]. intros _. exact IH.
Qed.

Lemma keeps_lock : Keeps path (lock_core path).
Proof.
  apply keeps_bind; [apply keeps_interrupt|]. intros fs. apply keeps_bind; [apply keeps_others|]. intros _. apply keeps_the_core.
Qed.

(** What follows the acquisition of the lock starts from the core it returned. *)
Lemma lock_core_sees w : exists w', lock_core path w = (Ok (core w'), w').
Proof.
  unfold lock_core, next_interrupt, mbind, rm_bind. set (w0 := mkRW _ _ _ _ _ _ _ _ _).
  generalize (hd [] (interrupts w)). intros fs. clearbody w0. revert w0.
  induction fs as [|f fs IH]; intros w0; cbn [run_others foldr]; [by exists w0|].
  unfold mbind, rm_bind, attempt. destruct (transact path f w0) as [r w1]. apply IH.
Qed.
Lemma keeps_locked {A} (k : SyncCore -> RM A) :
  (forall w, evolves path w (k (core w) w).2) -> Keeps path (c ← lock_core path; k c).
Proof.
  intros Hk w. apply evolves_bind; [apply keeps_lock|]. intros c w1 Hl.
  destruct (lock_core_sees w) as [w' Hw']. rewrite Hw' in Hl. injection Hl as <- <-. apply Hk.
Qed.

Lemma keeps_snapshot : Keeps path (snapshot path).
Proof.
  apply keeps_bind; [apply keeps_lock|]. intros c. apply keeps_bind; [apply keeps_of_result|]. intros s. apply keeps_ret.
Qed.
Lemma keeps_commit g candidate : Keeps path (commit_candidate path g candidate).
Proof.
  apply keeps_bind; [apply keeps_lock|]. intros c. apply keeps_bind; [apply keeps_of_result|]. intros ?.
  apply keeps_bind; [apply keeps_require|]. intros ?. apply keeps_persist.
Qed.
Lemma keeps_mutate f : Keeps path (mutate_records path f).
Proof. apply keeps_bind; [apply keeps_lock|]. intros _. apply keeps_transact. Qed.
Lemma keeps_noting {B} (f : SyncStateV3 -> result AppError (SyncStateV3 * B)) : Keeps path (mutate_noting path f).
Proof.
  apply keeps_bind; [apply keeps_lock|]. intros c. destruct (_ ≫= _) as [[n b]|e]; [|apply keeps_ret].
  apply keeps_bind; [apply keeps_attempt, keeps_persist|]. intros r. apply keeps_ret.
Qed.

(** *** Keeping a change that could not be saved *)

(** A core whose state was replaced, before it is saved: valid, perhaps not in the file. *)
Definition recoverable (w : RWorld) : Prop :=
  exists b, valid_text b /\ old_state path b (disk (files w)) /\
    format (core w) = Records /\
    (save_blocked (core w) = None -> forall s, records (core w) = Some s -> validate_state s = Ok tt).

Lemma coherent_recoverable w : coherent path w -> recoverable w.
Proof. intros (b & Hb & Hd & Hf & Ha). exists b. split; [done|]. split; [done|]. split; [done|]. intros Hn s Hs. by destruct (Ha Hn s Hs). Qed.

Lemma core_grows_unsaved c u : grows c (set_unsaved c u).
Proof. split; [reflexivity|]. split; [done|]. split; [done|]. intros _. apply same_status_refl. Qed.

(** The save of records and what it notes. *)
Lemma save_core_eq w s :
  save_blocked (core w) = None -> active_state (core w) = Ok s ->
  save_core path w = (let '(r, f) := save_active path s (files w) in
                      (r, with_core (with_files w f) (set_unsaved (core w) (is_err r)))).
Proof.
  intros Hb Ha. assert (Hf : format (core w) = Records).
  { unfold active_state in Ha. destruct (format (core w) =?= Records) eqn:H; [by apply bool_decide_eq_true in H|done]. }
  unfold save_core, noting_unsaved, the_core, mbind, rm_bind. rewrite Hb, Hf, Ha. cbn [of_result]. unfold attempt.
  change ((mret s : RM _) w) with (Ok (E := AppError) s, w). cbv beta iota. unfold on_files.
  destruct (save_active path s (files w)) as [[u|e] f]; reflexivity.
Qed.

(** Whatever is saved, only [unsaved] changes in memory. *)
Lemma grows_noting w (m : RM unit) :
  core (m w).2 = core w -> grows (core w) (core (noting_unsaved (core w) m w).2).
Proof.
  intros Hm. unfold noting_unsaved, attempt, mbind, rm_bind, put_core. destruct (m w) as [[u|e] w1]; apply core_grows_unsaved.
Qed.
Lemma grows_save_core w : grows (core w) (core (save_core path w).2).
Proof.
  unfold save_core, the_core, mbind at 1, rm_bind at 1. destruct (save_blocked (core w)); [apply core_grows_refl|].
  destruct (format (core w)).
  - unfold mbind at 1, rm_bind at 1. destruct (legacy_writes_allowed (core w)); [|apply core_grows_refl].
    cbn [of_result]. unfold mret at 1, rm_ret at 1. destruct (is_some (legacy (core w))); [apply core_grows_refl|].
    apply grows_noting. destruct (state (core w)); [|done]. unfold on_files. by destruct (save_v2 _ _ _).
  - apply grows_noting. unfold mbind, rm_bind. destruct (active_state (core w)); [|done]. cbn [of_result]. unfold mret, rm_ret.
    unfold on_files. by destruct (save_active _ _ _).
  - apply core_grows_refl.
Qed.

Lemma active_records c s : active_state c = Ok s -> records c = Some s.
Proof.
  unfold active_state, guard_err. destruct (negb _); [done|]. cbn. destruct (_ || _); [done|]. cbn.
  destruct (records c); cbn; [by intros [= ->]|done].
Qed.

(** [save_core] saves the state or says that it is unsaved. *)
Lemma save_core_recovers w :
  recoverable w -> coherent path (save_core path w).2 /\ only_durable path w (save_core path w).2.
Proof.
  intros (b & Hb & Hd & Hfmt & Hr). destruct (save_blocked (core w)) as [reason|] eqn:Hsb.
  { unfold save_core, the_core, mbind, rm_bind. rewrite Hsb. split; [|by apply only_durable_same].
    exists b. split; [done|]. split; [done|]. split; [done|]. intros Hn. cbn [fail snd] in Hn. congruence. }
  destruct (active_state (core w)) as [s|e] eqn:Hact.
  2: { unfold save_core, noting_unsaved, the_core, mbind, rm_bind. rewrite Hsb, Hfmt, Hact.
       split; [|by apply only_durable_same]. exists b. split; [done|]. split; [done|]. split; [done|].
       intros Hn s Hs. split; [by apply Hr|done]. }
  pose proof (active_records _ _ Hact) as Hrec. rewrite (save_core_eq w s Hsb Hact).
  destruct (save_active path s (files w)) as [r f] eqn:Hs. cbn [snd].
  destruct (save_active_world s b _ _ _ Hb Hd Hs) as [Ha Hsteps]. split; [|exact Hsteps].
  unfold coherent. cbn [files core with_core with_files]. destruct r as [u|e]; cbn [after_save is_err] in *.
  - destruct Ha as (Hv & new & Hp & Hvt & Hd'). exists new. split; [done|]. split; [done|]. split; [done|].
    intros _ s' Hs'. cbn [records set_unsaved] in Hs'. rewrite Hrec in Hs'. by injection Hs' as <-.
  - exists b. split; [done|]. split; [done|]. split; [done|]. intros Hn s' Hs'. split; [by apply Hr|done].
Qed.

Lemma keeps_save_core : Keeps path (save_core path).
Proof.
  intros w. split; [apply grows_save_core|]. intros H. by apply save_core_recovers, coherent_recoverable.
Qed.

(** A replacement in memory that is saved under the same lock. *)
Lemma evolves_put_save w c :
  grows (core w) c ->
  (coherent path w -> save_blocked c = None -> forall s, records c = Some s -> validate_state s = Ok tt) ->
  evolves path w ((_ ← put_core c; save_core path) w).2.
Proof.
  intros Hg Hv. change ((_ ← put_core c; save_core path) w) with (save_core path (with_core w c)).
  split; [eapply core_grows_trans; [exact Hg|apply (grows_save_core (with_core w c))]|]. intros Hw.
  destruct (save_core_recovers (with_core w c)) as [Hco Hon]; [|by split]. destruct (Hw) as (b & Hb & Hd & Hf & _).
  exists b. split; [done|]. split; [done|]. split; [|by apply Hv]. destruct Hg as (_ & Hc & _). by rewrite <-Hf.
Qed.

Lemma keeps_retained f invalid exhausted : Keeps path (commit_retained path f invalid exhausted).
Proof.
  apply keeps_locked. intros w. destruct (save_blocked (core w)) as [reason|] eqn:Hsb; [by apply keeps_fail|].
  apply evolves_bind; [apply evolves_refl|]. intros [] w1 [= <-].
  apply evolves_bind; [apply keeps_of_result|]. intros s w1 Hs. destruct (active_state (core w)); [|done]. injection Hs as -> <-.
  apply evolves_bind; [apply keeps_of_result|]. intros n w1 Hn. destruct (f s); [|done]. injection Hn as -> <-.
  apply evolves_bind; [apply keeps_of_result|]. intros u w1 Hu.
  destruct (validate_state n) as [[]|] eqn:Hv; [|done]. injection Hu as <- <-.
  apply evolves_bind; [apply keeps_of_result|]. intros g w1 Hg.
  destruct (checked_add (generation (core w)) 1) as [g'|] eqn:Hadd; [|done]. injection Hg as -> <-.
  unfold checked_add in Hadd. destruct (_ <=? _)%N; [|done]. injection Hadd as <-.
  apply evolves_put_save.
  - split; [cbn; lia|]. split; [done|]. cbn. intros _. split; [done|lia].
  - intros _ _ s' [= <-]. exact Hv.
Qed.

(** A replacement that leaves the state as it is. *)
Lemma evolves_put w c :
  generation c = generation (core w) -> records c = records (core w) -> unsaved c = unsaved (core w) ->
  save_blocked c = save_blocked (core w) -> format c = format (core w) -> evolves path w (put_core c w).2.
Proof.
  intros Hg Hr Hu Hs Hf. split.
  - split; [cbn; lia|]. split; [exact Hf|]. cbn. rewrite Hs. intros ->. split; [done|]. intros _. rewrite Hr. apply same_status_refl.
  - intros (b & Hb & Hd & Ha). split; [|by apply only_durable_same]. exists b. split; [done|]. split; [done|].
    unfold agrees, put_core. cbn [core snd with_core]. by rewrite Hr, Hu, Hs, Hf.
Qed.
End Operations.

Create HintDb keeps.
#[export] Hint Resolve keeps_ret keeps_fail keeps_of_result keeps_require keeps_the_core keeps_keychain keeps_now
  keeps_fill keeps_pull keeps_push keeps_lock keeps_snapshot keeps_commit keeps_mutate keeps_noting keeps_save_core : keeps.
#[export] Hint Extern 1 (Keeps _ (attempt _)) => apply keeps_attempt : keeps.
#[export] Hint Extern 1 (Keeps _ (relabel _ _)) => apply keeps_relabel : keeps.
#[export] Hint Extern 1 (Keeps _ (keychain_get _)) => apply keeps_keychain : keeps.

(** A program of such operations, one by one. *)
Ltac keeps :=
  repeat (cbv zeta; first
    [ done | solve [auto with keeps]
    | apply keeps_files; solve [auto with leaves]
    | match goal with
      | |- Keeps _ (_ ≫= _) => apply keeps_bind; [|intros ?]
      | |- Keeps _ (match ?x with _ => _ end) => destruct x
      end ]).

(** ** Starting again *)

Section Startup.
Context {R : RuntimeEnv} (path : str) (s : SyncStateV3) (b : list N) (i : N).

(** The state file with its text, the same file all the time. *)
Definition here (d : Disk) : Prop := old_state path b d /\ names d !! path = Some (mkEntry i Reg).
#[local] Instance stable_here : Stable here.
Proof. intros d f [Hd Hn]. split; [by apply stable_old|by apply stable_name]. Qed.

(** One read of the state file, and whether it was one of the calls that fail. *)
Lemma syscall_read {A} (f : Disk -> result IoError A) w :
  here (disk (files w)) ->
  exists w1, here (disk (files w1)) /\ script (files w1) = tail (script (files w)) /\
    ((fails (hd quiet (script (files w))) = None /\ syscall (sys (fun d => (f d, d))) w = (Ok (f (disk (files w1))), w1)) \/
     (fails (hd quiet (script (files w))) <> None /\
      exists e, SpaceFilesProps.failure e /\ syscall (sys (fun d => (f d, d))) w = (Ok (Err e), w1))).
Proof.
  intros Hw. unfold syscall, on_files, sys, sys_partial.
  assert (Hn : next_happens (files w) = (hd quiet (script (files w)), tail (script (files w))))
    by (unfold next_happens; by destruct (script (files w))).
  rewrite Hn. set (h := hd quiet _) in *. pose proof (stable_puts here (appear h) _ Hw) as Hd. set (d := foldl put _ _) in *.
  exists (with_files w (mkWorld d (tail (script (files w))) (trace (files w) ++ [(d, d)]))).
  destruct (fails h) as [e|]; cbn [fst snd]; (split; [exact Hd|]); (split; [done|]).
  - right. split; [done|]. exists (fault_error e). split; [apply fault_failure|done].
  - left. done.
Qed.

(** What a start finds: the state, or a reason not to touch the file. *)
Definition found (quiet_run : Prop) (p : StartupProbe) : Prop :=
  p = PRecords s false \/ (~ quiet_run /\ exists k reason, p = PBlocked k reason /\ (k = SIo \/ k = SUnsafePath)).

Definition undisturbed (w : World) : Prop := Forall (fun h => fails h = None) (script w).
Lemma undisturbed_hd w : undisturbed w -> fails (hd quiet (script w)) = None /\ Forall (fun h => fails h = None) (tail (script w)).
Proof. unfold undisturbed. destruct (script w); [by split|]. by intros [? ?]%Forall_cons. Qed.

Definition ends_found (q : Prop) (m : RM StartupProbe) (w : RWorld) : Prop :=
  exists p w', m w = (Ok p, w') /\ here (disk (files w')) /\ found q p.

Lemma found_blocked (q : Prop) k reason w :
  here (disk (files w)) -> ~ q -> k = SIo \/ k = SUnsafePath ->
  ends_found q (mret (PBlocked k reason)) w.
Proof. intros Hw Hq Hk. exists (PBlocked k reason), w. split; [done|]. split; [done|]. right. split; [done|]. by exists k, reason. Qed.

(** The next read: it fails and the start is blocked, or it sees the file. *)
Lemma found_read {A} (f : Disk -> result IoError A) (k : result IoError A -> RM StartupProbe) (q : Prop) w :
  here (disk (files w)) -> (q -> undisturbed (files w)) ->
  (forall w1, here (disk (files w1)) -> (q -> undisturbed (files w1)) -> ends_found q (k (f (disk (files w1)))) w1) ->
  (forall e w1, SpaceFilesProps.failure e -> here (disk (files w1)) -> ~ q -> ends_found q (k (Err e)) w1) ->
  ends_found q (r ← syscall (sys (fun d => (f d, d))); k r) w.
Proof.
  intros Hw Hq Hk He. destruct (syscall_read f w Hw) as (w1 & Hw1 & Hs & [[Hf Hr]|[Hf (e & Hfe & Hr)]]).
  - unfold ends_found, mbind, rm_bind. rewrite Hr. apply Hk; [done|]. intros Hqq. unfold undisturbed. rewrite Hs.
    by apply undisturbed_hd, Hq.
  - unfold ends_found, mbind, rm_bind. rewrite Hr. apply He; [done|done|]. intros Hqq.
    apply Hf. by apply undisturbed_hd, Hq.
Qed.

Hypothesis Hlen : (N.of_nat (length b) <= MAX_STATE_BYTES)%N.
Hypothesis Htext : exists t, from_utf8 b = Some t /\ decode_state t = Ok (V3 s).

Lemma here_bytes d : here d -> entry_bytes d (mkEntry i Reg) = b.
Proof. intros [Hd Hn]. by destruct (old_entry_bytes _ _ _ _ Hd Hn). Qed.

Lemma small : (MAX_STATE_BYTES <? N.of_nat (length b))%N = false.
Proof. by apply N.ltb_ge. Qed.

Lemma found_io (q : Prop) what e w :
  here (disk (files w)) -> ~ q -> ends_found q (mret (io_blocked what e)) w.
Proof. intros Hw Hq. apply found_blocked; [done|done|by left]. Qed.

(** The check before anything is read. *)
Lemma found_check (k : result AppError unit -> RM StartupProbe) (q : Prop) w :
  here (disk (files w)) -> (q -> undisturbed (files w)) ->
  (forall r w1, here (disk (files w1)) -> (q -> undisturbed (files w1)) -> is_err r = false -> ends_found q (k r) w1) ->
  (forall r w1, here (disk (files w1)) -> ~ q -> is_err r = true -> ends_found q (k r) w1) ->
  ends_found q (c ← attempt (on_files (check_write path)); k c) w.
Proof.
  intros Hw Hq Hk He.
  assert (Heq : forall w0, (c ← attempt (on_files (check_write path)); k c) w0
    = (r ← syscall (check_write_io path); k (match r with Ok _ => Ok tt
        | Err e => Err (if io_kind e =?= PermissionDenied then AForbiddenPath path else AIo (io_text e)) end)) w0).
  { intros w0. unfold attempt, syscall, on_files, check_write, mbind, rm_bind, m_bind.
    destruct (check_write_io path (files w0)) as [[[[]|]|] ?] eqn:Hc; try reflexivity.
    unfold check_write_io, sys, sys_partial in Hc. destruct (next_happens _) as [h l].
    by destruct (fails h). }
  unfold ends_found. rewrite Heq. apply (found_read (fun d => Ok tt)); [done|done|..].
  - intros w1 Hw1 Hq1. by apply Hk.
  - intros e w1 _ Hw1 Hnq. by apply He.
Qed.

Lemma not_missing e : SpaceFilesProps.failure e -> (io_kind e =?= NotFound) = false.
Proof. intros [->| ->]; reflexivity. Qed.

(** The whole start over an existing state file. *)
Lemma startup_found name (q : Prop) w :
  here (disk (files w)) -> (q -> undisturbed (files w)) -> ends_found q (probe_startup path name) w.
Proof.
  intros Hw Hq. unfold probe_startup. apply found_check; [done|done|..].
  2: { intros r w1 Hw1 Hnq ->. apply found_blocked; [done|done|by right]. }
  intros r w1 Hw1 Hq1 ->. apply found_read; [done|done|..].
  2: { intros e w2 He Hw2 Hnq. rewrite (not_missing e He). by apply found_io. }
  intros w2 Hw2 Hq2. destruct (Hw2) as [_ Hn2]. rewrite Hn2, here_bytes by done. cbn [kind is_regular].
  unfold is_regular. rewrite bool_decide_true by done. cbn [negb]. rewrite small.
  apply found_read; [done|done|..].
  2: { intros e w3 _ Hw3 Hnq. by apply found_io. }
  intros w3 Hw3 Hq3. destruct (Hw3) as [_ Hn3]. rewrite Hn3. apply found_read; [done|done|..].
  2: { intros e w4 _ Hw4 Hnq. by apply found_io. }
  intros w4 Hw4 Hq4. rewrite here_bytes by done. cbn [kind]. rewrite bool_decide_true by done. cbn [negb]. rewrite small.
  apply found_read; [done|done|..].
  2: { intros e w5 _ Hw5 Hnq. by apply found_io. }
  intros w5 Hw5 Hq5. rewrite here_bytes, take_at_most_all by (done || lia). cbn [kind]. rewrite bool_decide_true by done.
  rewrite small. destruct Htext as (t & -> & Ht). unfold probe_text. rewrite Ht. eexists _, _. split; [done|]. split; [done|]. by left.
Qed.
End Startup.

