(* ===== verification/RecordRound.v ===== *)
(** * RecordRound: a round of the record transport

    [src-tauri/src/sync/record_round.rs]: the fresh proof that the account may be
    written, pulling and pushing the account and every selected space, keeping the
    receipts of what the relay took, and what a round leaves when it fails. *)

From stdpp Require Import gmap.
From S2P Require Import Prelude Text BTreeMap SlotRules ImportText ImportLoad HostText SpaceFiles Json SyncRecord RecordsTypes RecordsValidate RecordsState RepositoryCore RecordGroups Repository GroupEdit GroupOrderEdit StateCheck Crypto Relay RecordMerge RecordPush RecordLibrary RecordRuntime.

Record FreshAccountProof := mkProof {
  fp_keys : ChainKeys; fp_relay_url : str; fp_gate : AccountGate; fp_format_gate : AccountGate;
  fp_observed_schema : option N
}.
Record RecordRoundReport := mkReport {
  rr_gate : option AccountGate; spaces_pulled : N; rr_pushed : N; rr_conflicts : N; review_required : bool
}.
Definition empty_report : RecordRoundReport := mkReport None 0 0 0 false.

Definition ensure_compatible (p : FreshAccountProof) : result AppError unit :=
  if fp_gate p =?= Compatible then Ok tt else Err (app_error "record account is not writable").

Definition gate_message (g : AccountGate) : str :=
  match g with
  | Compatible => []
  | NeedsMigration _ => lit "this account needs an explicit record migration"
  | NeedsUpdate _ => lit "this account uses a newer format; update Lunport"
  | MigrationPending _ => lit "account migration is still being published"
  | InvalidMigration => lit "the account migration marker is invalid or unavailable"
  | InvalidPull => lit "the relay returned inconsistent record transport metadata"
  end.

Definition same_account (s : SyncStateV3) (chain url : str) : bool :=
  (relay_url s =?= url) && is_some_and (fun a => chain_id a =?= chain) (account s).

(** Field updates of the round. *)
Definition set_gate (s : SyncStateV3) (a : option AccountState) (gate : option MigrationGate) (is_blocked : bool)
    (error : option str) : SyncStateV3 :=
  mkState (version s) (device_id s) (device_name s) (relay_url s) a (spaces s) (local s) (rotation s)
    (relay_features s) (legacy_v1_backup s) (phrase_cleanup_pending s) gate is_blocked (pending_account s)
    (notices s) (last_sync_ms s) error.
Definition set_remote_schema (a : AccountState) (v : option N) : AccountState :=
  mkAccount (chain_id a) (a_cursor_seq a) (a_baseline_established a) v (frozen a) (a_records a) (a_sealed a)
    (chain_deletes a).
Definition set_frozen (a : AccountState) (f : option FreezeInfo) : AccountState :=
  mkAccount (chain_id a) (a_cursor_seq a) (a_baseline_established a) (remote_schema_version a) f (a_records a)
    (a_sealed a) (chain_deletes a).
Definition set_missing (sp : SpaceStateV3) (error : option str) : SpaceStateV3 :=
  mkSpace (selected sp) (s_cursor_seq sp) (s_baseline_established sp) (s_records sp) (s_sealed sp) error true.
Definition default_space : SpaceStateV3 := mkSpace false 0 false [] [] None false.

(** [publish_gate]. *)
Definition publish_gate (s : SyncStateV3) (gate : AccountGate) (schema : option N) : SyncStateV3 :=
  let a := match account s, opt_filter (fun v => (ACCOUNT_SCHEMA <? v)%N) schema with
           | Some a, Some v => Some (set_remote_schema a (Some (N.max (default 0%N (remote_schema_version a)) v)))
           | a, _ => a
           end in
  set_gate s a (match gate with MigrationPending m => Some m | _ => None end)
    (negb (gate =?= Compatible)) (if gate =?= Compatible then None else Some (gate_message gate)).

(** The spaces of the account's metadata: new ones are unselected, deleted ones keep their
    cache. *)
Definition discover (sps : btree SpaceStateV3) (r : LocalRecord) : btree SpaceStateV3 :=
  let id := rid (lrecord r) in
  if rdeleted (lrecord r) then bt_update id (fun sp => set_missing sp (s_last_error sp)) sps
  else if bt_contains_key id sps then sps else bt_insert id default_space sps.

(** [push_section]: whether groups need the account's schema gate to be acknowledged. *)
Definition needs_group_gate (s : SyncStateV3) : bool :=
  existsb (fun sp => existsb (fun r => (rkind (lrecord r) =?= KGroup)
                                       || (json_u64 (lit "schema") (rpayload (lrecord r)) =?= Some 3%N))
                       (bt_values (s_records sp))) (bt_values (spaces s)).
Definition group_gate_acknowledged (a : AccountState) : bool :=
  is_some_and (fun m => negb (ldirty m) && (json_u64 (lit "schema_version") (rpayload (lrecord m)) =?= Some 4%N))
    (bt_get (record_key KMeta ACCOUNT_META_ID) (a_records a)).

(** The accepted numbers of a push that can be kept. *)
Definition sane_seq (seq : N) : bool := (0 <? seq)%N && (seq <=? MAX_RELAY_SEQ)%N.
Definition checked_pushed (p : Pushed) : Pushed :=
  if existsb (fun e => negb (sane_seq e.2)) (accepted p)
  then mkPushed (List.filter (fun e => sane_seq e.2) (accepted p)) (pu_conflicts p) (pu_frozen p)
         (Some (BadResponse (lit "invalid accepted record sequence")))
  else p.

Definition panic : AppError := app_error "panic".

Section Round.
Context {R : RuntimeEnv} (state_path : str).

(** ** Before anything is read or sent *)

Definition require_no_pending_migration : RM unit :=
  l ← on_files (pending_migrations state_path);
  require (match l with [] => true | _ => false end)
    (app_error "finish the pending account migration before changing shared data").

Definition preflight : RM unit :=
  _ ← on_files (check_write state_path);
  _ ← require_no_pending_migration;
  _ ← on_files (check_place state_path "record state must be a regular file");
  c ← lock_core state_path;
  _ ← match save_blocked c with Some reason => fail (AOther reason) | None => mret tt end;
  _ ← of_result (active_state c);
  _ ← require (negb (generation c =? u64_max)%N) (app_error "record state generation exhausted");
  if unsaved c then save_core state_path else mret tt.

Definition read_keys_from (s : SyncStateV3) : RM ChainKeys :=
  a ← of_result (ok_or (account s) (app_error "join or create a record account first"));
  p ← relabel (fun _ => app_error "the sync code could not be read") (keychain_get MNEMONIC_ACCOUNT);
  phrase ← of_result (ok_or p (app_error "the sync code is unavailable on this device"));
  keys ← of_result (map_err (fun _ => app_error "the sync code is invalid") (derive_account phrase));
  _ ← require (ck_chain_id keys =?= chain_id a) (app_error "the sync code belongs to a different account");
  mret keys.

Definition gate_unsaved : str :=
  lit "an authenticated account gate could not be saved; restart after fixing record storage".

(** The gate in memory only, and no more writes in this session. *)
Definition fail_closed (chain url : str) (gate : AccountGate) (schema : option N) : RM unit :=
  c ← lock_core state_path;
  match opt_filter (fun s => same_account s chain url) (records c) with
  | Some s => put_core (set_blocked c (publish_gate s gate schema) gate_unsaved)
  | None => mret tt
  end.

(** ** The fresh account gate *)

Record PreparedAccountGate := mkPrepared { pg_snapshot : SyncStateV3; pg_keys : ChainKeys; pg_pulled : PullResponse }.

Definition prepare_account_gate (s : SyncStateV3) : RM PreparedAccountGate :=
  keys ← read_keys_from s;
  _ ← of_result (connect (relay_url s));
  r ← relay_pull (relay_url s) (ck_chain_id keys) (ck_auth_token keys) 0;
  pulled ← of_result (map_err relay_error r);
  mret (mkPrepared s keys pulled).

(** The transform of the latest state, with the gate, the format gate and the schema. *)
Definition publish_pulled (p : PreparedAccountGate) (latest : SyncStateV3)
  : result AppError (SyncStateV3 * (AccountGate * AccountGate * option N)) :=
  let keys := pg_keys p in
  _ ← guard_err (negb (same_account latest (ck_chain_id keys) (relay_url (pg_snapshot p)))) superseded;
  section ← ok_or (account latest) panic;
  let merged := merge_account section keys (pg_pulled p) 0 in
  let format_gate := mo_gate merged in
  let gate := if (format_gate =?= Compatible) && (is_some (rotation latest) || is_some (frozen section))
              then InvalidMigration else format_gate in
  let next := if format_gate =?= Compatible
              then set_spaces (set_account latest (Some (mo_section merged)))
                     (foldl discover (spaces latest)
                        (List.filter (fun r => rkind (lrecord r) =?= KSpace) (bt_values (a_records (mo_section merged)))))
              else latest in
  Ok (publish_gate (RecordLibrary.select_library_spaces next) gate (mo_observed_schema merged),
      (gate, format_gate, mo_observed_schema merged)).

Definition publish_prepared_account_gate (p : PreparedAccountGate) : RM FreshAccountProof :=
  let keys := pg_keys p in
  let url := relay_url (pg_snapshot p) in
  result ← mutate_noting state_path (publish_pulled p);
  let '(noted, r) := result in
  let '(gate, format_gate, observed) := default (InvalidPull, InvalidPull, None) noted in
  match r with
  | Err e =>
      _ ← (if negb (gate =?= Compatible) && negb (is_superseded e)
           then fail_closed (ck_chain_id keys) url gate observed else mret tt);
      fail e
  | Ok _ =>
      c ← lock_core state_path;
      _ ← (if is_some_and (fun s => same_account s (ck_chain_id keys) url) (records c)
           then put_core (set_keys c (Some keys)) else mret tt);
      mret (mkProof keys url gate format_gate observed)
  end.

Definition fresh_account_gate : RM FreshAccountProof :=
  _ ← preflight;
  s ← snapshot state_path;
  p ← prepare_account_gate s.1;
  publish_prepared_account_gate p.

(** ** Commits of a round *)

(** [section_commit]; the transform may tell something. *)
Definition section_transform {B} (p : FreshAccountProof) (f : SyncStateV3 -> result AppError (SyncStateV3 * B))
    (latest : SyncStateV3) : result AppError (SyncStateV3 * B) :=
  _ ← guard_err (negb (same_account latest (ck_chain_id (fp_keys p)) (fp_relay_url p))) superseded;
  _ ← guard_err (account_writes_blocked latest) (app_error "record account shared writes are blocked");
  f latest.
Definition section_commit {B} (p : FreshAccountProof) (f : SyncStateV3 -> result AppError (SyncStateV3 * B)) : RM B :=
  result ← mutate_noting state_path (section_transform p f);
  _ ← of_result result.2;
  of_result (ok_or result.1 panic).

(** The state with the receipts of a section. *)
Definition with_receipts (s : SyncStateV3) (space_id : option str) (sent : list TypedOutgoing) (p : Pushed)
  : result AppError SyncStateV3 :=
  match space_id with
  | Some id =>
      section ← ok_or (bt_get id (spaces s)) superseded;
      Ok (set_spaces s (bt_insert id (apply_space_receipts section sent p) (spaces s)))
  | None =>
      a ← ok_or (account s) panic;
      Ok (set_account s (Some (apply_account_receipts a sent p)))
  end.

(** The relay has already taken the rows. *)
Definition receipted (p : FreshAccountProof) (space_id : option str) (sent : list TypedOutgoing) (pushed : Pushed)
    (latest : SyncStateV3) : result AppError SyncStateV3 :=
  _ ← guard_err (negb (same_account latest (ck_chain_id (fp_keys p)) (fp_relay_url p))) superseded;
  with_receipts latest space_id sent pushed.
Definition receipt_commit (p : FreshAccountProof) (space_id : option str) (sent : list TypedOutgoing) (pushed : Pushed)
  : RM unit :=
  commit_retained state_path (receipted p space_id sent pushed) "cannot retain invalid typed receipts"
    "record state generation exhausted".

Definition frozen_error : str := lit "the record chain is frozen; shared publication stopped".

Definition freeze (p : FreshAccountProof) (at_ms : N) (latest : SyncStateV3) : result AppError SyncStateV3 :=
  _ ← guard_err (negb (same_account latest (ck_chain_id (fp_keys p)) (fp_relay_url p))) superseded;
  a ← ok_or (account latest) panic;
  Ok (set_gate latest (Some (set_frozen a (Some (mkFreeze at_ms [])))) (migration_gate latest) true (Some frozen_error)).

Definition mark_frozen (p : FreshAccountProof) : RM unit :=
  at_ms ← now;
  r ← attempt (mutate_records state_path (freeze p at_ms));
  match r with
  | Ok _ => mret tt
  | Err e =>
      _ ← (if negb (is_superseded e)
           then fail_closed (ck_chain_id (fp_keys p)) (fp_relay_url p) InvalidMigration None else mret tt);
      fail e
  end.

(** ** Pushing a section *)

Definition push_section (p : FreshAccountProof) (space_id : option str) (keys : ChainKeys) (sent : list TypedOutgoing)
    (report : RecordRoundReport) : RM (bool * RecordRoundReport) :=
  match sent with
  | [] => mret (true, report)
  | _ =>
      fresh ← fresh_account_gate;
      let report := mkReport (Some (fp_gate fresh)) (spaces_pulled report) (rr_pushed report) (rr_conflicts report)
                      (review_required report) in
      if is_err (ensure_compatible fresh) then mret (false, report)
      else
        _ ← preflight;
        latest ← snapshot state_path;
        let latest := latest.1 in
        _ ← require (same_account latest (ck_chain_id (fp_keys p)) (fp_relay_url p)) superseded;
        _ ← require (negb (account_writes_blocked latest)) (app_error "record account shared writes are blocked");
        _ ← (if is_some space_id
                && existsb (fun o => let k := pu_kind (o_item (outgoing_of o)) in (k =?= lit "group") || (k =?= lit "host")) sent
             then
               a ← of_result (ok_or (account latest) (app_error "account missing"));
               require (negb (needs_group_gate latest && negb (group_gate_acknowledged a)))
                 (app_error "group account schema gate has not been acknowledged")
             else mret tt);
        _ ← of_result (connect (fp_relay_url p));
        pushed ← relay_push (fp_relay_url p) (ck_chain_id keys) (ck_auth_token keys) (map outgoing_of sent);
        let pushed := checked_pushed pushed in
        _ ← receipt_commit p space_id sent pushed;
        let report := mkReport (rr_gate report) (spaces_pulled report)
                        (rr_pushed report + N.of_nat (length (accepted pushed)))%N
                        (rr_conflicts report + pu_conflicts pushed)%N (review_required report) in
        if pu_frozen pushed then _ ← mark_frozen p; mret (false, report)
        else match pu_error pushed with
             | Some e => fail (relay_error e)
             | None => mret (true, report)
             end
  end.

(** The random nonces of the rows that are sealed. *)
Definition draw_nonces (n : nat) : RM (nat -> option (list N)) := fun w =>
  let l := randoms w in
  (Ok (fun i => option_map (fun b => take NONCE_LEN (map (fun x => x mod 256)%N b ++ repeat 0%N NONCE_LEN)) (nth i l None)),
   mkRW (files w) (core w) (keychain w) (keychain_fails w) (net w) (times w) (drop n l) (interrupts w) (calls w)).
Definition dirty_rows (m : btree LocalRecord) : nat := length (List.filter (fun e : str * LocalRecord => ldirty e.2) m).

(** ** The round *)

(** Pulling one selected space. *)
Definition pull_space (id : str) (keys : ChainKeys) (pulled : PullResponse) (since : N) (latest : SyncStateV3)
  : result AppError (SyncStateV3 * (bool * AccountGate)) :=
  section ← ok_or (opt_filter (fun sp => selected sp && negb (missing sp)) (bt_get id (spaces latest))) superseded;
  let merged := merge_space section keys pulled since Compatible in
  let gate := mo_gate merged in
  let next := set_spaces latest (bt_insert id (mo_section merged) (spaces latest)) in
  if gate =?= Compatible then
    review ← map_err (fun _ => app_error "record repository cannot be validated for synchronization")
               (scope_requires_relationship_review next (Space id));
    Ok (next, (review, gate))
  else Ok (publish_gate next gate None, (false, gate)).

Definition lose_space (id : str) (latest : SyncStateV3) : result AppError (SyncStateV3 * unit) :=
  section ← ok_or (bt_get id (spaces latest)) superseded;
  Ok (set_spaces latest (bt_insert id (set_missing section (Some (lit "the selected record space is missing from the relay")))
                           (spaces latest)), tt).

(** One pass of the loop; [false]: the round ends here. *)
Definition run_space (p : FreshAccountProof) (report : RecordRoundReport) (id : str) : RM (bool * RecordRoundReport) :=
  current ← snapshot state_path;
  a ← of_result (ok_or (account current.1) panic);
  keys ← of_result (space_keys a (fp_keys p) id);
  match keys with
  | None => mret (true, report)
  | Some keys =>
      section ← of_result (ok_or (bt_get id (spaces current.1)) panic);
      let since := if s_baseline_established section then s_cursor_seq section else 0%N in
      _ ← of_result (connect (fp_relay_url p));
      answer ← relay_pull (fp_relay_url p) (ck_chain_id keys) (ck_auth_token keys) since;
      match answer with
      | Err RNotFound => _ ← section_commit p (lose_space id); mret (true, report)
      | Err e => fail (relay_error e)
      | Ok pulled =>
          seen ← section_commit p (pull_space id keys pulled since);
          let '(review, gate) := seen in
          let report := mkReport (rr_gate report) (spaces_pulled report + 1)%N (rr_pushed report) (rr_conflicts report)
                          (review_required report || review) in
          if negb (gate =?= Compatible)
          then mret (false, mkReport (Some gate) (spaces_pulled report) (rr_pushed report) (rr_conflicts report)
                              (review_required report))
          else if review then mret (true, report)
          else
            current ← snapshot state_path;
            section ← of_result (ok_or (bt_get id (spaces current.1)) panic);
            nonces ← draw_nonces (dirty_rows (s_records section));
            out ← of_result (space_outgoing section keys Compatible nonces);
            push_section p (Some id) keys out report
      end
  end.

Fixpoint run_spaces (p : FreshAccountProof) (report : RecordRoundReport) (ids : list str) : RM (bool * RecordRoundReport) :=
  match ids with
  | [] => mret (true, report)
  | id :: ids =>
      r ← run_space p report id;
      if r.1 : bool then run_spaces p r.2 ids else mret (false, r.2)
  end.

Definition run : RM RecordRoundReport :=
  _ ← preflight;
  s ← snapshot state_path;
  if is_none (account s.1) || is_some (pending_account s.1) then mret empty_report
  else
    proof ← fresh_account_gate;
    let report := mkReport (Some (fp_gate proof)) 0 0 0 false in
    if is_err (ensure_compatible proof) then mret report
    else
      current ← snapshot state_path;
      a ← of_result (ok_or (account current.1) panic);
      nonces ← draw_nonces (dirty_rows (a_records a));
      out ← of_result (account_outgoing a (fp_keys proof) nonces);
      r ← push_section proof None (fp_keys proof) out report;
      if negb r.1 then mret r.2
      else
        current ← snapshot state_path;
        let ids := map fst (List.filter (fun e : str * SpaceStateV3 => selected e.2 && negb (missing e.2)) (spaces current.1)) in
        r ← run_spaces proof r.2 ids;
        if negb r.1 then mret r.2
        else
          at_ms ← now;
          _ ← section_commit proof (fun latest =>
                Ok (set_synced latest (Some at_ms) (if review_required r.2 then last_error latest else None), tt));
          mret r.2.

Definition sync_failed : str :=
  lit "Sync could not complete. Check record storage, relay access, and the sync code, then retry.".

Definition note_failure : RM unit :=
  c ← lock_core state_path;
  let c := set_failed c (N.min (failed_rounds c + 1) u32_max) in
  _ ← put_core c;
  if is_some (save_blocked c) then mret tt
  else match active_state c with
       | Err _ => mret tt
       | Ok latest =>
           if account_writes_blocked latest then mret tt
           else
             _ ← put_core (set_records c (generation c) (set_synced latest (last_sync_ms latest) (Some sync_failed))
                             (account_keys c) (unsaved c));
             _ ← attempt (save_core state_path);
             mret tt
       end.

Definition finish_round : RM RecordRoundReport :=
  r ← attempt run;
  match r with
  | Err e => _ ← (if negb (is_superseded e) then note_failure else mret tt); fail e
  | Ok report =>
      c ← lock_core state_path;
      _ ← put_core (set_failed c 0);
      mret report
  end.

(** [sync_once]; [claimed]: another round is running. *)
Definition sync_once (claimed : bool) : RM RecordRoundReport :=
  if claimed then mret empty_report else finish_round.

(** [sync_once_required]: whatever round is waiting, this one runs. *)
Definition sync_once_required : RM RecordRoundReport := finish_round.
End Round.
