(* ===== verification/RecordRoundProps.v ===== *)
(** * RecordRoundProps: what a round of the record transport keeps

    Whatever the relay answers, whichever system call or keychain access fails, and
    whatever other threads commit while the core's lock is free: memory and disk agree
    after a round as they did before it, every state that a crash can leave has a state
    file to start from, and rows are sent only behind a fresh look at the account. *)

From stdpp Require Import gmap.
From S2P Require Import Prelude Text BTreeMap SlotRules ImportText ImportLoad HostText SpaceFiles SpaceFilesProps Json SyncRecord RecordsTypes RecordsValidate RecordsState RepositoryCore RecordGroups Repository GroupEdit GroupOrderEdit StateCheck Crypto Relay RecordMerge RecordPush RecordLibrary RecordRuntime RecordRuntimeProps RecordRound.

Section Keeps.
Context {R : RuntimeEnv} (path : str).
Hypothesis Hplace : forall v digest, with_file_name path (backup_name v digest) <> path.

Lemma keeps_nonces n : Keeps path (draw_nonces n).
Proof. intros w. by apply evolves_same. Qed.

Lemma keeps_migration : Keeps path (require_no_pending_migration path).
Proof. unfold require_no_pending_migration. keeps. Qed.
Lemma keeps_preflight : Keeps path (preflight path).
Proof. pose proof keeps_migration. unfold preflight. keeps. Qed.
Lemma keeps_read_keys s : Keeps path (read_keys_from s).
Proof. unfold read_keys_from. keeps. Qed.

Lemma keeps_fail_closed chain url gate schema : Keeps path (fail_closed path chain url gate schema).
Proof.
  apply keeps_locked; [done|]. intros w. destruct (opt_filter _ _) as [s|]; [|apply evolves_refl]. split.
  - split; [reflexivity|]. split; [reflexivity|done].
  - intros (b & Hb & Hd & Hf & _). split; [|by apply only_durable_same]. exists b. split; [done|]. split; [done|]. by split.
Qed.

Lemma keeps_prepare s : Keeps path (prepare_account_gate s).
Proof. pose proof keeps_read_keys. unfold prepare_account_gate. keeps. Qed.

Lemma keeps_publish_prepared p : Keeps path (publish_prepared_account_gate path p).
Proof.
  unfold publish_prepared_account_gate. cbv zeta. apply keeps_bind; [by apply keeps_noting|]. intros [noted r].
  destruct (default _ noted) as [[gate format_gate] observed]. destruct r as [g|e].
  - apply keeps_locked; [done|]. intros w. apply evolves_bind; [|intros; apply evolves_refl].
    destruct (is_some_and _ _); [|apply evolves_refl]. by apply evolves_put.
  - pose proof keeps_fail_closed. keeps.
Qed.

Lemma keeps_fresh_gate : Keeps path (fresh_account_gate path).
Proof. pose proof keeps_preflight. pose proof keeps_prepare. pose proof keeps_publish_prepared. unfold fresh_account_gate. keeps. Qed.

Lemma keeps_section_commit {B} p (f : SyncStateV3 -> result AppError (SyncStateV3 * B)) : Keeps path (section_commit path p f).
Proof. unfold section_commit. keeps. Qed.

Lemma keeps_receipts p id sent pushed : Keeps path (receipt_commit path p id sent pushed).
Proof. by apply keeps_retained. Qed.

Lemma keeps_mark_frozen p : Keeps path (mark_frozen path p).
Proof. pose proof keeps_fail_closed. unfold mark_frozen. keeps. Qed.

Lemma keeps_push_section p id keys sent report : Keeps path (push_section path p id keys sent report).
Proof.
  pose proof keeps_fresh_gate. pose proof keeps_preflight. pose proof keeps_receipts. pose proof keeps_mark_frozen.
  unfold push_section. keeps.
Qed.

Lemma keeps_run_space p report id : Keeps path (run_space path p report id).
Proof.
  pose proof keeps_nonces. pose proof keeps_push_section. unfold run_space.
  pose proof (@keeps_section_commit). keeps.
Qed.

Lemma keeps_run_spaces p report ids : Keeps path (run_spaces path p report ids).
Proof. revert report. induction ids as [|id ids IH]; intros report; cbn [run_spaces]; pose proof keeps_run_space; keeps. Qed.

Lemma keeps_run : Keeps path (run path).
Proof.
  pose proof keeps_preflight. pose proof keeps_fresh_gate. pose proof keeps_nonces. pose proof keeps_push_section.
  pose proof keeps_run_spaces. pose proof (@keeps_section_commit). unfold run. keeps.
Qed.

Lemma status_valid s ms e : validate_state (set_synced s ms e) = validate_state s.
Proof. reflexivity. Qed.

Lemma keeps_note_failure : Keeps path (note_failure path).
Proof.
  apply keeps_locked; [done|]. intros w. cbv zeta. apply evolves_bind; [by apply evolves_put|]. intros [] w1 [= <-].
  set (c := set_failed (core w) _). destruct (save_blocked c) as [reason|] eqn:Hsb; [apply evolves_refl|]. cbn [is_some].
  destruct (active_state c) as [latest|e] eqn:Hact; [|apply evolves_refl].
  destruct (account_writes_blocked latest); [apply evolves_refl|].
  pose proof (active_records _ _ Hact) as Hrec.
  set (c' := set_records _ _ _ _ _).
  pose proof (evolves_put_save path Hplace (with_core w c) c') as H.
  unfold attempt. cbn [snd put_core] in H |- *. unfold mbind, rm_bind, put_core, mret, rm_ret in H |- *.
  destruct (save_core path _) as [r w'] eqn:Hsave; cbn [snd] in H |- *. apply H.
  - split; [reflexivity|]. split; [reflexivity|]. split; [done|]. intros _. cbn [with_core core records c c' set_failed set_records] in Hrec |- *.
    rewrite Hrec. reflexivity.
  - intros (b & _ & _ & _ & Ha) _ s' [= <-]. rewrite status_valid. by apply Ha.
Qed.

Lemma keeps_finish : Keeps path (finish_round path).
Proof.
  pose proof keeps_run. pose proof keeps_note_failure. apply keeps_bind; [by apply keeps_attempt|]. intros [report|e]; [|keeps].
  apply keeps_locked; [done|]. intros w. apply evolves_bind; [by apply evolves_put|]. intros; apply evolves_refl.
Qed.
End Keeps.

(** C3. A round keeps memory and disk together.  From a world where the state file holds
    a valid state and memory is valid and agrees with it (or says that it is unsaved, or
    has stopped writing), [sync_once] leads to such a world again, whatever the relay
    answers, whichever system call or keychain access fails and whatever other threads
    commit while the lock is free.  After every system call of the round, a crash finds
    a state file to start from.  The generation never falls, a stop of writing is final,
    and a generation that is the same means a state that is the same but for the text
    about the last round: a commit guarded by its generation loses nobody's change. *)
Theorem sync_round_coherent {R : RuntimeEnv} path claimed w
    (Hplace : forall v digest, with_file_name path (backup_name v digest) <> path)
    (Hw : coherent path w) :
  let w' := (sync_once path claimed w).2 in
  coherent path w' /\ grows (core w) (core w') /\ only_durable path w w'.
Proof.
  cbv zeta. assert (H : evolves path w (sync_once path claimed w).2).
  { unfold sync_once. destruct claimed; [apply evolves_refl|]. by apply keeps_finish. }
  destruct H as [Hg Hc]. destruct (Hc Hw) as [Hco Hon]. done.
Qed.

(** ** What is sent, and when *)

Section Sent.
Context {R : RuntimeEnv} (path : str).

(** A whole pull of an account that can be written. *)
Definition fresh_pull (c : option Call) : Prop :=
  match c with
  | Some (CPull _ chain since (Ok pulled)) =>
      since = 0%N /\ exists section keys, chain_id section = chain /\ ck_chain_id keys = chain /\
        mo_gate (merge_account section keys pulled 0) = Compatible
  | _ => False
  end.

(** Every push comes directly after such a pull, while the account of the state in memory
    is the relay's and may be written. *)
Fixpoint guarded (last : option Call) (l : list Call) : Prop :=
  match l with
  | [] => True
  | CPull url chain since a as c :: l' => guarded (Some c) l'
  | CPush url chain sent latest a as c :: l' =>
      (fresh_pull last /\ exists s, latest = Some s /\ account_writes_blocked s = false /\
         relay_url s = url /\ is_some (account s) = true) /\ guarded (Some c) l'
  end.

Lemma guarded_any last l : guarded None l -> guarded last l.
Proof. by destruct l as [|[]]; [| |intros [[[] _] _]]. Qed.
Lemma guarded_app last l1 l2 : guarded last l1 -> guarded None l2 -> guarded last (l1 ++ l2).
Proof.
  revert last. induction l1 as [|[] l1 IH]; intros last; cbn [app guarded].
  - intros _. apply guarded_any.
  - apply IH.
  - intros [Hp H1] H2. split; [done|]. by apply IH.
Qed.

Definition Sends {A} (m : RM A) : Prop :=
  forall w, exists new, calls (m w).2 = calls w ++ new /\ guarded None new.
Definition Silent {A} (m : RM A) : Prop := forall w, calls (m w).2 = calls w.

Lemma silent_ret {A} (a : A) : Silent (mret a).
Proof. done. Qed.
Lemma silent_fail {A} e : Silent (fail (A := A) e).
Proof. done. Qed.
Lemma silent_of_result {A} (r : result AppError A) : Silent (of_result r).
Proof. by destruct r. Qed.
Lemma silent_require b e : Silent (require b e).
Proof. by destruct b. Qed.
Lemma silent_put c : Silent (put_core c).
Proof. done. Qed.
Lemma silent_core : Silent the_core.
Proof. done. Qed.
Lemma silent_now : Silent now.
Proof. done. Qed.
Lemma silent_nonces n : Silent (draw_nonces n).
Proof. done. Qed.
Lemma silent_keychain {A} (f : list (str * str) -> A * list (str * str)) : Silent (keychain_op f).
Proof. intros w. unfold keychain_op. destruct (keychain_fails w) as [|[] l]; by try destruct (f _). Qed.
Lemma silent_files {A} (m : M A) : Silent (on_files m).
Proof. intros w. unfold on_files. by destruct (m (files w)). Qed.
Lemma silent_interrupt : Silent next_interrupt.
Proof. done. Qed.
Lemma silent_attempt {A} (m : RM A) : Silent m -> Silent (attempt m).
Proof. intros H w. specialize (H w). unfold attempt. by destruct (m w). Qed.
Lemma silent_relabel {A} f (m : RM A) : Silent m -> Silent (relabel f m).
Proof. intros H w. specialize (H w). unfold relabel. by destruct (m w). Qed.
Lemma silent_bind {A B} (m : RM A) (k : A -> RM B) : Silent m -> (forall a, Silent (k a)) -> Silent (m ≫= k).
Proof.
  intros Hm Hk w. specialize (Hm w). unfold mbind, rm_bind. destruct (m w) as [[a|e] w1]; [|done].
  by rewrite Hk.
Qed.

Lemma sends_silent {A} (m : RM A) : Silent m -> Sends m.
Proof. intros H w. exists []. by rewrite H, app_nil_r. Qed.
Lemma sends_bind {A B} (m : RM A) (k : A -> RM B) : Sends m -> (forall a, Sends (k a)) -> Sends (m ≫= k).
Proof.
  intros Hm Hk w. destruct (Hm w) as (l1 & H1 & G1). unfold mbind, rm_bind.
  destruct (m w) as [[a|e] w1]; [|by exists l1]. destruct (Hk a w1) as (l2 & H2 & G2). exists (l1 ++ l2). cbn [snd] in H1.
  rewrite H2, H1, app_assoc. split; [done|]. by apply guarded_app.
Qed.
Lemma sends_attempt {A} (m : RM A) : Sends m -> Sends (attempt m).
Proof. intros H w. specialize (H w). unfold attempt. by destruct (m w). Qed.
Lemma sends_pull url chain token since : Sends (relay_pull url chain token since).
Proof. intros w. unfold relay_pull. destruct (net_pull _ _ _ _ _) as [n a]. by exists [CPull url chain since a]. Qed.
End Sent.

Create HintDb silent.
#[export] Hint Resolve silent_ret silent_fail silent_of_result silent_require silent_put silent_core silent_now
  silent_nonces silent_keychain silent_files silent_interrupt : silent.
#[export] Hint Extern 1 (Silent (keychain_get _)) => apply silent_keychain : silent.

(** A program without a relay call; one whose relay calls are guarded. *)
Ltac silent :=
  repeat (cbv zeta; first
    [ done | solve [auto with silent]
    | match goal with
      | |- Silent (_ ≫= _) => apply silent_bind; [|intros ?]
      | |- Silent (attempt _) => apply silent_attempt
      | |- Silent (relabel _ _) => apply silent_relabel
      | |- Silent (match ?x with _ => _ end) => destruct x
      end ]).
Ltac sends :=
  repeat (cbv zeta; first
    [ done | solve [auto] | apply sends_pull | apply sends_silent; solve [auto with silent]
    | match goal with
      | |- Sends (_ ≫= _) => apply sends_bind; [|intros ?]
      | |- Sends (attempt _) => apply sends_attempt
      | |- Sends (match ?x with _ => _ end) => destruct x
      end ]).

Section Rounds.
Context {R : RuntimeEnv} (path : str).

Lemma silent_persist candidate : Silent (persist_candidate path candidate).
Proof. unfold persist_candidate. silent. Qed.
Lemma silent_transact f : Silent (transact path f).
Proof. pose proof silent_persist. unfold transact. silent. Qed.
Lemma silent_lock : Silent (lock_core path).
Proof.
  unfold lock_core. apply silent_bind; [apply silent_interrupt|]. intros fs. apply silent_bind; [|silent].
  induction fs as [|f fs IH]; cbn [run_others foldr]; pose proof silent_transact; silent.
Qed.
Lemma silent_save_core : Silent (save_core path).
Proof. unfold save_core, noting_unsaved. silent. Qed.
Lemma silent_snapshot : Silent (snapshot path).
Proof. pose proof silent_lock. unfold snapshot. silent. Qed.
Lemma silent_mutate f : Silent (mutate_records path f).
Proof. pose proof silent_lock. pose proof silent_transact. unfold mutate_records. silent. Qed.
Lemma silent_noting {B} (f : SyncStateV3 -> result AppError (SyncStateV3 * B)) : Silent (mutate_noting path f).
Proof. pose proof silent_lock. pose proof silent_persist. unfold mutate_noting. silent. Qed.
Lemma silent_retained f invalid exhausted : Silent (commit_retained path f invalid exhausted).
Proof. pose proof silent_lock. pose proof silent_save_core. unfold commit_retained. silent. Qed.
End Rounds.
#[export] Hint Resolve silent_lock silent_save_core silent_retained silent_snapshot silent_mutate silent_noting : silent.

Section Guarded.
Context {R : RuntimeEnv} (path : str).

Lemma silent_preflight : Silent (preflight path).
Proof. unfold preflight, require_no_pending_migration. silent. Qed.
Lemma silent_read_keys s : Silent (read_keys_from s).
Proof. unfold read_keys_from. silent. Qed.
Lemma silent_fail_closed chain url gate schema : Silent (fail_closed path chain url gate schema).
Proof. unfold fail_closed. silent. Qed.
Lemma silent_section_commit {B} p (f : SyncStateV3 -> result AppError (SyncStateV3 * B)) : Silent (section_commit path p f).
Proof. unfold section_commit. silent. Qed.
Lemma silent_receipts p id sent pushed : Silent (receipt_commit path p id sent pushed).
Proof. apply silent_retained. Qed.
Lemma silent_mark_frozen p : Silent (mark_frozen path p).
Proof. pose proof silent_fail_closed. unfold mark_frozen. silent. Qed.
Lemma silent_publish_prepared p : Silent (publish_prepared_account_gate path p).
Proof. pose proof silent_fail_closed. unfold publish_prepared_account_gate. silent. Qed.
Lemma silent_note_failure : Silent (note_failure path).
Proof. unfold note_failure. silent. Qed.

Lemma rm_bind_Ok {A B} (m : RM A) (k : A -> RM B) w b w' :
  (m ≫= k) w = (Ok b, w') -> exists a w1, m w = (Ok a, w1) /\ k a w1 = (Ok b, w').
Proof. unfold mbind, rm_bind. destruct (m w) as [[a|e] w1]; [|done]. by exists a, w1. Qed.

Lemma noting_Ok {B} (f : SyncStateV3 -> result AppError (SyncStateV3 * B)) w noted g w' :
  mutate_noting path f w = (Ok (noted, Ok g), w') -> exists s n b, noted = Some b /\ f s = Ok (n, b).
Proof.
  intros (c & w1 & _ & H)%rm_bind_Ok. destruct (writes_allowed c) as [[]|]; [|done]. cbn in H.
  destruct (active_state c) as [s|]; [|done]. cbn in H. destruct (f s) as [[n b]|] eqn:Hf; [|done].
  apply rm_bind_Ok in H as (r & w2 & _ & H). injection H as <- _ _. by exists s, n, b.
Qed.

(** The proof of a writable account was published from the pull before it. *)
Lemma published_compatible p w fresh w' :
  publish_prepared_account_gate path p w = (Ok fresh, w') -> fp_gate fresh = Compatible ->
  exists section, chain_id section = ck_chain_id (pg_keys p) /\
    mo_gate (merge_account section (pg_keys p) (pg_pulled p) 0) = Compatible.
Proof.
  intros ([noted r] & w1 & Hn & H)%rm_bind_Ok Hg. destruct r as [g|e].
  2: { destruct (default _ noted) as [[] ?]. by apply rm_bind_Ok in H as (? & ? & _ & ?). }
  apply noting_Ok in Hn as (s & n & b & -> & Hp). cbn [default from_option id] in H. destruct b as [[gate fg] obs].
  apply rm_bind_Ok in H as (c & w2 & _ & H). apply rm_bind_Ok in H as (u & w3 & _ & H). injection H as <- _. cbn in Hg. subst gate.
  unfold publish_pulled in Hp. destruct (same_account _ _ _) eqn:Hsame; [|done]. cbn in Hp.
  destruct (account s) as [section|] eqn:Ha; [|done]. cbn in Hp. injection Hp as _ Hgate _ _.
  exists section. split.
  - unfold same_account in Hsame. rewrite Ha in Hsame. cbn in Hsame. by breflect.
  - destruct (mo_gate _ =?= Compatible) eqn:Hc; [by apply bool_decide_eq_true in Hc|done].
Qed.

(** Looking at the account: at most one pull, and the whole account if it can be written. *)
Lemma fresh_gate_calls w :
  exists new, calls (fresh_account_gate path w).2 = calls w ++ new /\ guarded None new /\
    forall fresh, (fresh_account_gate path w).1 = Ok fresh -> fp_gate fresh = Compatible ->
    exists c, new = [c] /\ fresh_pull (Some c).
Proof.
  assert (Hnone : forall w1 (r : result AppError FreshAccountProof), calls w1 = calls w -> is_err r = true ->
    exists new, calls w1 = calls w ++ new /\ guarded None new /\
      forall fresh, r = Ok fresh -> fp_gate fresh = Compatible -> exists c, new = [c] /\ fresh_pull (Some c)).
  { intros w1 r Hw Hr. exists []. rewrite app_nil_r. split; [done|]. split; [done|]. intros f ->. done. }
  unfold fresh_account_gate, prepare_account_gate. unfold mbind, rm_bind.
  pose proof (silent_preflight w) as H1. destruct (preflight path w) as [[u|e] w1]; cbn [snd] in H1; [|by apply Hnone].
  pose proof (silent_snapshot path w1) as H2. destruct (snapshot path w1) as [[s|e] w2]; cbn [snd] in H2;
    [|apply Hnone; [cbn [snd fst]; congruence|done]].
  pose proof (silent_read_keys s.1 w2) as H3. destruct (read_keys_from s.1 w2) as [[keys|e] w3]; cbn [snd] in H3;
    [|apply Hnone; [cbn [snd fst]; congruence|done]].
  destruct (connect (relay_url s.1)) as [v|e]; cbn [of_result]; [|apply Hnone; [cbn [fst snd fail]; congruence|done]].
  change ((mret v : RM _) w3) with (Ok (E := AppError) v, w3). cbv beta iota. unfold relay_pull.
  destruct (net_pull _ _ _ _ _) as [n [pulled|e]]; cbn [map_err of_result fail].
  2: { exists [CPull (relay_url s.1) (ck_chain_id keys) 0 (Err e)]. cbn [snd fst with_net calls]. split; [congruence|]. done. }
  change ((mret pulled : RM _) ?w) with (Ok (E := AppError) pulled, w). cbv beta iota.
  change ((mret ?p : RM _) ?w) with (Ok (E := AppError) p, w). cbv beta iota.
  set (p := mkPrepared s.1 keys pulled). set (w4 := with_net w3 n _).
  pose proof (silent_publish_prepared p w4) as H4.
  exists [CPull (relay_url s.1) (ck_chain_id keys) 0 (Ok pulled)]. split; [rewrite H4; cbn [w4 with_net calls]; congruence|].
  split; [done|]. intros fresh Hf Hg. eexists. split; [done|].
  destruct (publish_prepared_account_gate path p w4) as [r w5] eqn:Hp. cbn in Hf. subst r.
  destruct (published_compatible _ _ _ _ Hp Hg) as (section & Hs & Hm). split; [done|].
  exists section, keys. done.
Qed.

Lemma sends_fresh_gate : Sends (fresh_account_gate path).
Proof. intros w. destruct (fresh_gate_calls w) as (new & H & G & _). by exists new. Qed.

Lemma round_snapshot_Ok w s g w' : snapshot path w = (Ok (s, g), w') -> records (core w') = Some s.
Proof.
  intros (c & w1 & Hl & H)%rm_bind_Ok. apply rm_bind_Ok in H as (s' & w2 & Ha & H). injection H as -> _ <-.
  destruct (lock_core_sees path w) as [w0 Hw0]. rewrite Hw0 in Hl. injection Hl as <- <-.
  destruct (active_state (core w0)) as [s'|] eqn:Hs; [|done]. injection Ha as -> <-. by apply active_records.
Qed.

(** What is done with the answer of a push. *)
Lemma silent_after_push p id sent pushed (report : RecordRoundReport) :
  Silent (_ ← receipt_commit path p id sent pushed;
          if pu_frozen pushed then _ ← mark_frozen path p; mret (false, report)
          else match pu_error pushed with Some e => fail (relay_error e) | None => mret (true, report) end).
Proof. pose proof silent_receipts. pose proof silent_mark_frozen. silent. Qed.

(** What was called since [w0]. *)
Definition since (w0 : RWorld) (new : list Call) (w : RWorld) : Prop := calls w = calls w0 ++ new.

Lemma since_bind {A B} (m : RM A) (k : A -> RM B) w0 w new :
  since w0 new w -> guarded None new -> Silent m ->
  (forall a w1, m w = (Ok a, w1) -> since w0 new w1 -> exists l, since w0 l (k a w1).2 /\ guarded None l) ->
  exists l, since w0 l ((m ≫= k) w).2 /\ guarded None l.
Proof.
  intros Hw Hg Hm Hk. specialize (Hm w). unfold mbind, rm_bind. destruct (m w) as [[a|e] w1]; cbn [snd] in *.
  - apply Hk; [done|]. unfold since. by rewrite Hm.
  - exists new. unfold since. by rewrite Hm.
Qed.

Lemma require_Ok b e w u w1 : require b e w = (Ok u, w1) -> b = true /\ w1 = w.
Proof. destruct b; [by intros [= <- <-]|done]. Qed.
Lemma of_result_Ok {A} (r : result AppError A) w a w1 : of_result r w = (Ok a, w1) -> r = Ok a /\ w1 = w.
Proof. destruct r; [by intros [= <- <-]|done]. Qed.

(** A push right after the pull that allows it. *)
Lemma push_guarded c s url chain token sent w0 w :
  fresh_pull (Some c) -> guarded None [c] -> since w0 [c] w ->
  records (core w) = Some s -> account_writes_blocked s = false -> relay_url s = url -> is_some (account s) = true ->
  exists l, since w0 l (relay_push url chain token sent w).2 /\ guarded None l.
Proof.
  intros Hf Hc Hw Hr Hb Hu Ha. unfold relay_push. destruct (push_outgoing _ _ _ _) as [n a]. unfold since.
  cbn [snd with_net calls]. rewrite Hw, <-app_assoc. eexists. split; [reflexivity|].
  destruct c; [|by destruct Hc]. cbn. split; [|done]. split; [done|]. by exists s.
Qed.

Lemma compatible_Ok f : is_err (ensure_compatible f) = false -> fp_gate f = Compatible.
Proof. unfold ensure_compatible. destruct (fp_gate f =?= Compatible) eqn:Hb; [by apply bool_decide_eq_true in Hb|done]. Qed.

(** The checks between the pull and the push change nothing. *)
Lemma group_check_same (b : bool) (s : SyncStateV3) w u w1 :
  (if b then a ← of_result (ok_or (account s) (app_error "account missing"));
             require (negb (needs_group_gate s && negb (group_gate_acknowledged a)))
               (app_error "group account schema gate has not been acknowledged")
   else mret tt : RM unit) w = (Ok u, w1) -> w1 = w.
Proof.
  destruct b; [|by intros [= _ <-]]. intros (a & w2 & Ha & H)%rm_bind_Ok.
  apply of_result_Ok in Ha as [_ ->]. by apply require_Ok in H as [_ ->].
Qed.

Lemma sends_push_section p id keys sent report : Sends (push_section path p id keys sent report).
Proof.
  unfold push_section. destruct sent as [|o sent]; [apply sends_silent; silent|]. intros w.
  destruct (fresh_gate_calls w) as (new & Hc & Hg & Hfresh). unfold mbind at 1, rm_bind at 1.
  destruct (fresh_account_gate path w) as [[fresh|e] w1]; [|by exists new]. cbn [fst snd] in Hc, Hfresh. cbv zeta.
  destruct (is_err (ensure_compatible fresh)) eqn:Hgate; [by exists new|].
  destruct (Hfresh fresh eq_refl (compatible_Ok _ Hgate)) as (c & -> & Hf). clear Hfresh.
  apply (since_bind _ _ w _ [c]); [done|done|apply silent_preflight|]. intros u w2 _ H2.
  apply (since_bind _ _ w _ [c]); [done|done|apply silent_snapshot|]. intros [s g] w3 Hs H3. apply round_snapshot_Ok in Hs. cbn [fst].
  apply (since_bind _ _ w _ [c]); [done|done|silent|]. intros ? ? [Hsame ->]%require_Ok _.
  apply (since_bind _ _ w _ [c]); [done|done|silent|]. intros ? ? [Hb ->]%require_Ok _.
  apply (since_bind _ _ w _ [c]); [done|done|silent|]. intros ? ? ->%group_check_same _.
  apply (since_bind _ _ w _ [c]); [done|done|silent|]. intros ? ? [_ ->]%of_result_Ok _.
  unfold same_account in Hsame. apply andb_true_iff in Hsame as [Hu Ha]. apply bool_decide_eq_true in Hu.
  destruct (push_guarded c s (fp_relay_url p) (ck_chain_id keys) (ck_auth_token keys) (map outgoing_of (o :: sent)) w w3)
    as (l & Hl & Hgl); try done; [by destruct (account_writes_blocked s)|by destruct (account s)|].
  unfold mbind at 1, rm_bind at 1. destruct (relay_push _ _ _ _ w3) as [[pushed|e] w4]; [|by exists l]. cbn [snd] in Hl.
  exists l. split; [|done]. unfold since in Hl |- *. rewrite <-Hl. apply silent_after_push.
Qed.

Lemma sends_run_space p report id : Sends (run_space path p report id).
Proof. pose proof sends_push_section. pose proof @silent_section_commit. unfold run_space. sends. Qed.
Lemma sends_run_spaces p report ids : Sends (run_spaces path p report ids).
Proof. revert report. induction ids as [|id ids IH]; intros report; cbn [run_spaces]; pose proof sends_run_space; sends. Qed.
Lemma sends_run : Sends (run path).
Proof.
  pose proof silent_preflight. pose proof sends_fresh_gate. pose proof sends_push_section. pose proof sends_run_spaces.
  pose proof @silent_section_commit. unfold run. sends.
Qed.
Lemma sends_finish : Sends (finish_round path).
Proof. pose proof sends_run. pose proof silent_note_failure. unfold finish_round. sends. Qed.
End Guarded.

