(* ===== verification/RecordLeave.v ===== *)
(** * RecordLeave: leaving an account, keeping its records on this device

    [src-tauri/src/sync/record_leave.rs]: reading every selected space again, planning a
    local copy of its hosts and groups under new identifiers, copying the passwords,
    detaching the state from the account in one commit, and only then deleting the sync
    code.  The plan is a pending operation of the state, so that every step can be
    resumed. *)

From stdpp Require Import gmap.
From S2P Require Import Prelude Text BTreeMap SlotRules ImportText ImportLoad HostText SpaceFiles Json SyncRecord RecordsTypes RecordsValidate RecordsState RepositoryCore RecordGroups Repository GroupEdit GroupOrderEdit StateCheck Crypto Relay RecordMerge RecordPush RecordLibrary RecordRuntime RecordRound.

Record LeaveReceipt := mkLeaveReceipt {
  lr_operation_id : str; lr_complete : bool; copied_hosts : N; lr_mappings : list HostRemap; pending_error : option str
}.

(** Updates of a plan and of an operation. *)
Definition with_copied (p : LeavePlan) (id : str) : LeavePlan :=
  mkLeavePlan (lp_groups p) (lp_source_spaces p) (lp_hosts p) (bs_insert id (passwords_copied p)).
Definition with_leave (op : PendingAccountOperation) (p : LeavePlan) : PendingAccountOperation :=
  mkPending (op_id op) (op_device_name op) (op_kind op) (op_phase op) (op_migration_gate op) (op_relay_url op)
    (staged_code_account op) (prepared_account op) (op_space_id op) (prepared_space op) (Some p) (op_rotation op).
Definition with_phase (op : PendingAccountOperation) (phase : PendingAccountPhase) : PendingAccountOperation :=
  mkPending (op_id op) (op_device_name op) (op_kind op) phase (op_migration_gate op) (op_relay_url op)
    (staged_code_account op) (prepared_account op) (op_space_id op) (prepared_space op) (op_leave op) (op_rotation op).
Definition with_observed (op : PendingAccountOperation) (schema : option N) (gate : option MigrationGate)
  : PendingAccountOperation :=
  mkPending (op_id op) (op_device_name op) (op_kind op) (op_phase op) gate (op_relay_url op)
    (staged_code_account op) (set_remote_schema (prepared_account op) schema) (op_space_id op) (prepared_space op)
    (op_leave op) (op_rotation op).
Definition set_pending (s : SyncStateV3) (op : option PendingAccountOperation) (is_blocked : bool) (e : option str)
  : SyncStateV3 :=
  mkState (version s) (device_id s) (device_name s) (relay_url s) (account s) (spaces s) (local s) (rotation s)
    (relay_features s) (legacy_v1_backup s) (phrase_cleanup_pending s) (migration_gate s) is_blocked op
    (notices s) (last_sync_ms s) e.

(** The state without its account. *)
Definition detached (s : SyncStateV3) (l : LocalState) (v : N) (op : PendingAccountOperation) : SyncStateV3 :=
  mkState v (device_id s) (device_name s) (relay_url s) None [] l None (relay_features s) (legacy_v1_backup s)
    (phrase_cleanup_pending s) None false (Some op) (notices s) (last_sync_ms s) None.

Section Checks.
Context {R : RuntimeEnv}.

(** A sealed host or group that is not an old alias record of its own. *)
Definition unreadable (child : ChainKeys) (section : SpaceStateV3) (r : SealedRecord) : bool :=
  let e := senvelope r in
  ((ekind e =?= lit "group") || (ekind e =?= lit "host")) && negb (edeleted e)
  && (negb (is_legacy_alias_host child e)
      || existsb (fun known => (rkind (lrecord known) =?= KHost)
                               && (id_hash child (lit "host") (rid (lrecord known)) =?= eid_hash e))
           (bt_values (s_records section))).

(** The rows that were not sent stay as they are here. *)
Definition keep_dirty (old section : SpaceStateV3) : SpaceStateV3 :=
  set_s_records section
    (foldl (fun m (e : str * LocalRecord) => if ldirty e.2 then bt_insert e.1 e.2 m else m) (s_records section)
       (s_records old)).

(** The keyslot of the account that a local key belongs to, if it has one. *)
Definition check_authority (a : AccountState) (keys : ChainKeys) (id : str) (material : LocalKeyMetadata)
  : result AppError unit :=
  let review := app_error "authoritative key metadata needs review before local detach" in
  _ ← (if bt_contains_key (sealed_key (lit "keyslot") (id_hash keys (lit "keyslot") id)) (a_sealed a) then
         if bt_contains_key (record_key KKeySlot id) (a_records a) then Err review
         else
           own ← map_err (fun _ => review) (legacy_own_slot_revision a keys id);
           guard_err (is_none own) review
       else Ok tt);
  match bt_get (record_key KKeySlot id) (a_records a) with
  | None => Ok tt
  | Some row =>
      slot ← map_err (fun _ => app_error "authoritative key needs review") (decode_keyslot (lrecord row));
      match slot with
      | Live public =>
          map_err (fun _ => app_error "local key conflicts with the account; review before leaving")
            (key_material_matches public (ks_public_key (key_public material)) (ks_fingerprint (key_public material)))
      | Tombstone _ => Err (app_error "deleted account key cannot be revived by local detach")
      end
  end.

Definition check_source_key_material (s : SyncStateV3) (keys : ChainKeys) (sps : btree SpaceStateV3)
  : result AppError unit :=
  a ← ok_or (account s) (app_error "source account changed");
  let source := set_spaces s sps in
  snap ← map_err (fun _ => app_error "invalid source hosts") (Repository.snapshot source);
  try_for (fun v =>
      e ← map_err (fun _ => app_error "invalid source inheritance") (resolve_effective source (v_host v));
      match hp_key_id (eff_payload e) with
      | None => Ok tt
      | Some id => match bt_get id (l_keys (local s)) with
                   | None => Ok tt
                   | Some material => check_authority a keys id material
                   end
      end)
    (List.filter (fun v => negb (hr_scope (v_host v) =?= Local)) (snap_hosts snap)).

(** [local_hosts]. *)
Definition local_hosts (s : SyncStateV3) : result AppError (list HostRecord) :=
  try_map (fun r =>
      t ← map_err (fun _ => app_error "invalid local host") (decode_host (lrecord r) Local);
      match t with Live h => Ok h | Tombstone _ => Err (app_error "invalid local host") end)
    (List.filter RecordLibrary.live_record (bt_values (l_hosts (local s)))).

(** The hosts as their groups make them. *)
Definition effective_hosts (s : SyncStateV3) (hosts : list HostRecord) : rresult (list HostRecord) :=
  try_map (fun h => e ← resolve_effective s h; Ok (with_payload h (eff_payload e))) hosts.
End Checks.

(** ** The plan *)

(** A live row of a source space and its new identifier. *)
Record PlanRow := mkPlanRow { pr_space : str; pr_source : LocalRecord; pr_id : str }.

Section Plan.
Context {R : RuntimeEnv}.

Definition new_id (n : nat) : RM str :=
  b ← fill n;
  b ← of_result (ok_or b (app_error "cannot create local preservation identity"));
  mret (hex b).

(** Drawing until the identifier is new; every draw takes one of the world's random
    values, and drawing without one fails. *)
Fixpoint fresh_id (fuel : nat) (used : list str) : RM str :=
  match fuel with
  | O => fail (app_error "cannot create local preservation identity")
  | S fuel => id ← new_id 8; if existsb (fun x => x =?= id) used then fresh_id fuel used else mret id
  end.

Definition unused_id (used : list str) : RM str := fun w => fresh_id (S (length (randoms w))) used w.

(** What the first loop carries: the identifiers in use, the remap and the rows. *)
Record Assigned := mkAssigned { as_used : list str; as_remap : btree str; as_rows : list PlanRow }.

Definition assign_row (local_ids : list str) (space : str) (st : Assigned) (row : LocalRecord) : RM Assigned :=
  let source_id := rid (lrecord row) in
  _ ← require (negb (existsb (fun x => x =?= source_id) local_ids || bt_contains_key source_id (as_remap st)))
        (app_error "duplicate source host identity requires review before leaving");
  id ← unused_id (as_used st);
  mret (mkAssigned (id :: as_used st) (bt_insert source_id id (as_remap st))
          (as_rows st ++ [mkPlanRow space row id])).

Fixpoint fold_rm {A B} (f : B -> A -> RM B) (acc : B) (l : list A) : RM B :=
  match l with
  | [] => mret acc
  | x :: l' => acc ← f acc x; fold_rm f acc l'
  end.

Definition live_rows (sp : SpaceStateV3) : list LocalRecord :=
  List.filter RecordLibrary.live_record (bt_values (s_records sp)).
Definition local_ids (s : SyncStateV3) : list str :=
  map (fun r => rid (lrecord r)) (bt_values (l_hosts (local s)) ++ bt_values (l_groups (local s))).
Definition space_ids (sps : btree SpaceStateV3) : list str :=
  flat_map (fun sp => map (fun r => rid (lrecord r)) (bt_values (s_records sp))) (bt_values sps).

Definition assign (s : SyncStateV3) (sps : btree SpaceStateV3) : RM Assigned :=
  fold_rm (fun st (e : str * SpaceStateV3) => fold_rm (assign_row (local_ids s) e.1) st (live_rows e.2))
    (mkAssigned (local_ids s ++ space_ids sps) [] []) sps.

(** The copy of a row: a new identifier and stamp, clean and unknown to the relay. *)
Definition local_copy (source : Rec) (id : str) (now : N) (device : str) (payload : Json) : LocalRecord :=
  mkLocal (mkRec (rkind source) id 1 now device (rdeleted source) payload) 0 false.

(** What the second loop carries. *)
Record Copied := mkCopied {
  cp_names : list (option str * str); cp_aliases : list str; cp_existing : list HostRecord;
  cp_groups : list PlannedGroup; cp_hosts : list PlannedHost
}.

Definition copy_group (s : SyncStateV3) (now : N) (remap : btree str) (c : Copied) (row : PlanRow)
  : result AppError Copied :=
  let source := lrecord (pr_source row) in
  g ← live_group "invalid source group" "unreachable" source Local;
  let p := gr_payload g in
  parent ← remap_id remap (app_error "missing source parent") (gp_parent_id p);
  let jump := map (remap_jump remap) <$> gd_jump (gp_defaults p) in
  let name := if existsb (fun x => x =?= (parent, gp_name p)) (cp_names c)
              then remapped_group_name (gp_name p) (pr_id row) else gp_name p in
  let p := remapped_group p name parent jump in
  let planned := mkPlannedGroup (pr_space row) (rid source) (pr_id row)
                   (local_copy source (pr_id row) now (device_id s) (to_value p)) in
  Ok (mkCopied ((parent, gp_name (gr_payload g)) :: cp_names c) (cp_aliases c) (cp_existing c)
        (cp_groups c ++ [planned]) (cp_hosts c)).

Definition copy_host (s : SyncStateV3) (now : N) (remap : btree str) (c : Copied) (row : PlanRow)
  : result AppError Copied :=
  let source := lrecord (pr_source row) in
  let id := pr_id row in
  h ← live_host "source host needs review before leaving" "unreachable" source Local;
  let p := hr_payload h in
  group ← remap_id remap (app_error "missing source group") (hp_group_id p);
  let jump := map (remap_jump remap) (hp_jump p) in
  let taken := existsb (fun x => x =?= hp_alias p) (cp_aliases c) in
  let alias := if taken then hp_alias p ++ lit "-" ++ id else hp_alias p in
  let seen := hp_alias p :: cp_aliases c in
  _ ← guard_err (taken && existsb (fun x => x =?= alias) seen) (app_error "local alias collision requires review");
  let p := remapped_host p alias group jump in
  let planned := mkPlannedHost (mkRemap (pr_space row) (rid source) id alias)
                   (local_copy source id now (device_id s) (to_value p)) in
  Ok (mkCopied (cp_names c) (alias :: seen) (cp_existing c ++ [mkHostRecord id Local p])
        (cp_groups c) (cp_hosts c ++ [planned])).

Definition copy_row (s : SyncStateV3) (now : N) (remap : btree str) (c : Copied) (row : PlanRow) : result AppError Copied :=
  if rkind (lrecord (pr_source row)) =?= KGroup then copy_group s now remap c row else copy_host s now remap c row.

(** The names of the groups on this device. *)
Definition local_names (s : SyncStateV3) : result AppError (list (option str * str)) :=
  l ← map_err (fun _ => app_error "invalid existing groups") (list_groups s);
  Ok (map (fun g => (gp_parent_id (gr_payload (gv_group g)), gp_name (gr_payload (gv_group g))))
        (List.filter (fun g => gr_scope (gv_group g) =?= Local) l)).

Definition with_planned_groups (s : SyncStateV3) (l : list PlannedGroup) : SyncStateV3 :=
  let s := set_spaces s [] in
  set_local s (set_l_groups (local s)
    (foldl (fun m g => bt_insert (record_key KGroup (local_group_id g)) (pg_local g) m) (l_groups (local s)) l)).

(** The part of [plan] after the identifiers were drawn. *)
Definition planned (s : SyncStateV3) (sps : btree SpaceStateV3) (existing : list HostRecord) (st : Assigned) (now : N)
  : result AppError LeavePlan :=
  names ← local_names s;
  c ← try_fold (copy_row s now (as_remap st))
        (mkCopied names (map (fun h => hp_alias (hr_payload h)) existing) existing [] []) (as_rows st);
  effective ← map_err (fun _ => app_error "source inheritance requires review")
                (effective_hosts (with_planned_groups s (cp_groups c)) (cp_existing c));
  _ ← map_err (fun _ => app_error "selected hosts have unresolved routes or conflicts; review before leaving")
        (validate_hosts effective);
  let plan := mkLeavePlan (cp_groups c) sps (cp_hosts c) [] in
  _ ← validate_leave_plan plan;
  Ok plan.

Definition plan (s : SyncStateV3) (sps : btree SpaceStateV3) : RM LeavePlan :=
  existing ← of_result (local_hosts s);
  st ← assign s sps;
  at_ms ← now;
  of_result (planned s sps existing st at_ms).
End Plan.

(** ** The operation *)

Definition HOST_PASSWORD : str := lit "host:".
Definition detach_unsaved : str :=
  lit "an authenticated detach gate could not be saved; repair record storage before resuming".

Section Leave.
Context {R : RuntimeEnv} (state_path : str).

Definition source_space (a : AccountState) (keys : ChainKeys) (url : str) (out : btree SpaceStateV3)
    (e : str * SpaceStateV3) : RM (btree SpaceStateV3) :=
  let '(id, old) := e in
  _ ← require (negb (missing old)) (app_error "a selected space is missing; local preservation did not complete");
  k ← of_result (space_keys a keys id);
  child ← of_result (ok_or k (app_error "a selected space is unavailable; local preservation did not complete"));
  r ← relay_pull url id (ck_auth_token child) 0;
  pulled ← of_result (map_err (fun _ => app_error "a selected space could not be read; local preservation did not complete") r);
  let merged := merge_space old child pulled 0 Compatible in
  _ ← require ((mo_gate merged =?= Compatible) && mo_baseline_established merged
               && negb (existsb (unreadable child (mo_section merged)) (bt_values (s_sealed (mo_section merged)))))
        (app_error "a selected space has unreadable hosts or groups; local preservation did not complete");
  mret (bt_insert id (keep_dirty old (mo_section merged)) out).

Definition source_spaces (a : AccountState) (keys : ChainKeys) (cached : btree SpaceStateV3) : RM (btree SpaceStateV3) :=
  s ← snapshot state_path;
  _ ← of_result (connect (relay_url s.1));
  fold_rm (source_space a keys (relay_url s.1)) [] (List.filter (fun e : str * SpaceStateV3 => selected e.2) cached).

Definition newer_schema (o : option N) : bool := is_some_and (fun v => (ACCOUNT_SCHEMA <? v)%N) o.

Definition ensure_latest (op : PendingAccountOperation) : RM unit :=
  _ ← preflight state_path;
  s ← snapshot state_path;
  p ← of_result (ok_or (opt_filter (fun p => op_id p =?= op_id op) (pending_account s.1)) superseded);
  require (negb (is_some_and (fun a => newer_schema (remote_schema_version a)) (account s.1)
                 || newer_schema (remote_schema_version (prepared_account p)) || account_migration_pending s.1))
    (app_error "latest account observation prevents local detach effects").

Definition stored (op : PendingAccountOperation) (s : SyncStateV3) : result AppError SyncStateV3 :=
  _ ← guard_err (negb (relay_url s =?= op_relay_url op)
                 || is_some_and (fun p => negb (op_id p =?= op_id op)) (pending_account s)) superseded;
  Ok (set_pending s (Some op) (shared_writes_blocked s) (last_error s)).
Definition store (op : PendingAccountOperation) : RM unit := _ ← mutate_records state_path (stored op); mret tt.

(** A gate of the account that was seen after the state had no account any more. *)
Definition max_schema (a b : option N) : option N :=
  match a, b with Some x, Some y => Some (N.max x y) | Some x, None => Some x | None, b => b end.
Definition retain_gate (retained : PendingAccountOperation) : RM unit :=
  c ← lock_core state_path;
  match opt_filter (fun s => relay_url s =?= op_relay_url retained) (records c) with
  | Some s =>
      match opt_filter (fun p => op_id p =?= op_id retained) (pending_account s) with
      | Some latest =>
          let schema := max_schema (remote_schema_version (prepared_account latest))
                          (remote_schema_version (prepared_account retained)) in
          put_core (set_blocked c (set_pending s (Some (with_observed latest schema (op_migration_gate retained))) true
                                     (Some (lit "an authenticated detach gate could not be saved"))) detach_unsaved)
      | None => mret tt
      end
  | None => mret tt
  end.

(** The account is pulled again although the state has none any more. *)
Definition cleanup_proof (op : PendingAccountOperation) (code : str) : RM (option ChainKeys) :=
  keys ← of_result (derive_account code);
  _ ← require (ck_chain_id keys =?= chain_id (prepared_account op))
        (app_error "source sync code changed; review pending detach");
  _ ← of_result (connect (op_relay_url op));
  r ← relay_pull (op_relay_url op) (ck_chain_id keys) (ck_auth_token keys) 0;
  pulled ← of_result (map_err relay_error r);
  let merged := merge_account (prepared_account op) keys pulled 0 in
  if mo_gate merged =?= Compatible then mret (Some keys)
  else
    let schema := match opt_filter (fun v => (ACCOUNT_SCHEMA <? v)%N) (mo_observed_schema merged) with
                  | Some v => Some v
                  | None => remote_schema_version (prepared_account op)
                  end in
    let retained := with_observed op schema (match mo_gate merged with MigrationPending m => Some m | _ => None end) in
    r ← attempt (store retained);
    match r with
    | Err failure => _ ← retain_gate retained; fail failure
    | Ok _ => fail (app_error "account format prevents sync code cleanup")
    end.

(** The keys of the account, once it is clear that its format allows leaving; [None]: the
    code is gone already. *)
Definition proof (op : PendingAccountOperation) : RM (option ChainKeys) :=
  _ ← preflight state_path;
  s ← snapshot state_path;
  if is_some (account s.1) then
    p ← fresh_account_gate state_path;
    _ ← require ((ck_chain_id (fp_keys p) =?= chain_id (prepared_account op)) && (fp_format_gate p =?= Compatible))
          (app_error "account format prevents local detach");
    mret (Some (fp_keys p))
  else
    code ← relabel (fun _ => app_error "sync code cleanup is pending") (keychain_get MNEMONIC_ACCOUNT);
    match code with
    | None => if op_phase op =?= PActivated then mret None else fail (app_error "source sync code is unavailable")
    | Some code => cleanup_proof op code
    end.

(** Copying the password of one host; the operation notes it. *)
Definition copy_password (op : PendingAccountOperation) (h : PlannedHost) : RM PendingAccountOperation :=
  let m := ph_mapping h in
  let target_name := HOST_PASSWORD ++ local_host_id m in
  _ ← ensure_latest op;
  source ← relabel (fun _ => app_error "source password could not be read")
             (keychain_get (HOST_PASSWORD ++ source_host_id m));
  target ← relabel (fun _ => app_error "target password could not be read") (keychain_get target_name);
  _ ← ensure_latest op;
  _ ← match source, target with
      | Some a, Some b => require (a =?= b) (app_error "target password differs; review before continuing")
      | None, None => mret tt
      | Some a, None => relabel (fun _ => app_error "password namespace copy is pending") (keychain_set target_name a)
      | None, Some _ => fail (app_error "target password differs; review before continuing")
      end;
  p ← of_result (ok_or (op_leave op) panic);
  let op := with_leave op (with_copied p (local_host_id m)) in
  _ ← store op;
  mret op.

(** The rows of a source space without their numbers and flags. *)
Definition plain_rows (sp : SpaceStateV3) : list (str * Rec) := map (fun e : str * LocalRecord => (e.1, lrecord e.2)) (s_records sp).
Definition unchanged_source (p : LeavePlan) (e : str * SpaceStateV3) : result AppError unit :=
  a ← ok_or (bt_get e.1 (lp_source_spaces p)) panic;
  guard_err (negb (plain_rows e.2 =?= plain_rows a)) (app_error "source hosts changed; review pending local preservation").

(** The planned rows, each at a free place. *)
Definition add_row (occupied : string) (m : btree LocalRecord) (e : str * LocalRecord) : result AppError (btree LocalRecord) :=
  _ ← guard_err (bt_contains_key e.1 m) (app_error occupied);
  Ok (bt_insert e.1 e.2 m).
Definition kept_local (l : LocalState) (p : LeavePlan) : result AppError LocalState :=
  hosts ← try_fold (add_row "planned local identity became occupied") (l_hosts l)
            (map (fun h => (record_key KHost (local_host_id (ph_mapping h)), ph_local h)) (lp_hosts p));
  groups ← try_fold (add_row "planned group identity became occupied") (l_groups l)
             (map (fun g => (record_key KGroup (local_group_id g), pg_local g)) (lp_groups p));
  Ok (set_l_groups (set_l_hosts l hosts) groups).

Definition kept_order (p : LeavePlan) (ids : list str) : list str :=
  map (fun id => from_option local_group_id id (List.find (fun g => source_group_id g =?= id) (lp_groups p))) ids.

(** The commit: the copies join the local rows, and the account is gone from the state. *)
Definition detach (op : PendingAccountOperation) (latest : SyncStateV3) : result AppError SyncStateV3 :=
  _ ← guard_err (negb ((op_id <$> pending_account latest) =?= Some (op_id op))
                 || negb ((chain_id <$> account latest) =?= Some (chain_id (prepared_account op)))) superseded;
  p ← ok_or (op_leave op) panic;
  l ← kept_local (local latest) p;
  let n := set_local latest l in
  hosts ← local_hosts n;
  effective ← map_err (fun _ => app_error "preserved inheritance needs review") (effective_hosts n hosts);
  _ ← map_err (fun _ => app_error "latest local routes conflict with preservation plan") (validate_hosts effective);
  let order := kept_order p (ov_ids (order_view latest)) in
  let v := if order =?= [] then version latest else N.max (version latest) NAVIGATION_STATE_VERSION in
  Ok (detached latest (set_l_order l order) v (with_phase op PActivated)).

(** The end: nothing is pending any more. *)
Definition finish_leave (op : PendingAccountOperation) (s : SyncStateV3) : result AppError SyncStateV3 :=
  _ ← guard_err (negb ((op_id <$> pending_account s) =?= Some (op_id op)) || is_some (account s)) superseded;
  Ok (set_pending s None (shared_writes_blocked s) None).

(** Everything before the code is deleted. *)
Definition preserve (op : PendingAccountOperation) (keys : option ChainKeys) : RM PendingAccountOperation :=
  s ← snapshot state_path;
  a ← of_result (ok_or (account s.1) (app_error "source account changed"));
  keys ← of_result (ok_or keys panic);
  p ← of_result (ok_or (op_leave op) panic);
  source ← source_spaces a keys (lp_source_spaces p);
  _ ← of_result (check_source_key_material s.1 keys source);
  _ ← of_result (try_for (unchanged_source p) source);
  op ← fold_rm copy_password op (lp_hosts p);
  _ ← proof op;
  _ ← ensure_latest op;
  _ ← mutate_records state_path (detach op);
  mret (with_phase op PActivated).

Definition resume_locked : RM unit :=
  _ ← preflight state_path;
  s ← snapshot state_path;
  op ← of_result (ok_or (pending_account s.1) (app_error "no detach is pending"));
  _ ← require (op_kind op =?= LeaveAccount) (app_error "a different operation is pending");
  _ ← of_result (validate_pending op);
  keys ← proof op;
  op ← (if op_phase op =?= PActivated then mret op else preserve op keys);
  left ← proof op;
  _ ← (if is_some left then
         _ ← ensure_latest op;
         relabel (fun _ => app_error "local data is preserved; sync code cleanup is pending")
           (keychain_delete MNEMONIC_ACCOUNT)
       else mret tt);
  _ ← mutate_records state_path (finish_leave op);
  mret tt.

Definition leave_operation (id : str) (s : SyncStateV3) (a : AccountState) (p : LeavePlan) : PendingAccountOperation :=
  mkPending id (device_name s) LeaveAccount PPrepared None (relay_url s) None a None None (Some p) None.

Definition leave_account : RM LeaveReceipt :=
  _ ← preflight state_path;
  s ← snapshot state_path;
  _ ← require (is_none (pending_account s.1)) (app_error "finish the pending record operation before leaving");
  _ ← require (negb (account_migration_pending s.1)) (app_error "finish account migration before leaving");
  p ← fresh_account_gate state_path;
  _ ← require (fp_format_gate p =?= Compatible) (app_error "account format prevents local detach");
  s ← snapshot state_path;
  a ← of_result (ok_or (account s.1) panic);
  sps ← source_spaces a (fp_keys p) (spaces s.1);
  _ ← of_result (check_source_key_material s.1 (fp_keys p) sps);
  plan ← plan s.1 sps;
  id ← new_id 16;
  _ ← store (leave_operation id s.1 a plan);
  result ← attempt resume_locked;
  s ← snapshot state_path;
  let mappings := map ph_mapping (lp_hosts plan) in
  mret (mkLeaveReceipt id (is_ok result) (if is_none (account s.1) then N.of_nat (length mappings) else 0%N) mappings
          (match result with
           | Err _ => Some (lit "local preservation or credential cleanup is pending; resume the operation")
           | Ok _ => None
           end)).
End Leave.
