(* ===== verification/RecordLeaveProps.v ===== *)
(** * RecordLeaveProps: leaving loses nothing

    Whatever fails and wherever it stops: memory and disk agree, every password stays, the
    plan copies every selected row under an identifier of its own, the commit adds exactly
    the copies, and the sync code is deleted only when the copies are in the state file.
    The closure lemmas of [Within] serve every relation between worlds, [Mild] those that
    reading the keychain keeps. *)

From stdpp Require Import gmap.
From S2P Require Import Prelude Text BTreeMap SlotRules ImportText ImportLoad HostText SpaceFiles SpaceFilesProps Json SyncRecord RecordsTypes RecordsValidate RecordsState RepositoryCore RecordGroups Repository RepositoryProps KeyProps GroupEdit GroupOrderEdit StateCheck Crypto Relay RecordMerge RecordPush RecordLibrary RecordRuntime RecordRuntimeProps RecordRound RecordRoundProps RecordLeave.

(** ** Memory and disk stay together *)

Section LeaveKeeps.
Context {R : RuntimeEnv} (path : str).
Hypothesis Hplace : forall v digest, with_file_name path (backup_name v digest) <> path.

Lemma keeps_fold {A B} (f : B -> A -> RM B) l : (forall b a, Keeps path (f b a)) -> forall acc, Keeps path (fold_rm f acc l).
Proof. intros Hf. induction l as [|x l IH]; intros acc; cbn [fold_rm]; keeps. Qed.
Lemma keeps_new_id n : Keeps path (new_id n).
Proof. unfold new_id. keeps. Qed.
Lemma keeps_fresh_id fuel used : Keeps path (fresh_id fuel used).
Proof. induction fuel as [|fuel IH]; cbn [fresh_id]; pose proof keeps_new_id; keeps. Qed.
Lemma keeps_assign_row ids space st row : Keeps path (assign_row ids space st row).
Proof.
  assert (forall used, Keeps path (unused_id used)) by (intros used w; apply keeps_fresh_id).
  unfold assign_row. keeps.
Qed.
Lemma keeps_plan s sps : Keeps path (plan s sps).
Proof.
  assert (Keeps path (assign s sps)).
  { apply keeps_fold. intros st [id sp]. apply keeps_fold. intros b a. apply keeps_assign_row. }
  unfold plan. keeps.
Qed.

Lemma keeps_source_spaces a keys cached : Keeps path (source_spaces path a keys cached).
Proof.
  assert (forall url out e, Keeps path (source_space a keys url out e)).
  { intros url out [id old]. unfold source_space. keeps. }
  assert (forall url acc l, Keeps path (fold_rm (source_space a keys url) acc l)) by (intros; by apply keeps_fold).
  unfold source_spaces. keeps.
Qed.

Lemma keeps_ensure_latest op : Keeps path (ensure_latest path op).
Proof. pose proof (keeps_preflight path Hplace). unfold ensure_latest. keeps. Qed.
Lemma keeps_store op : Keeps path (store path op).
Proof. unfold store. keeps. Qed.

Lemma keeps_retain_gate op : Keeps path (retain_gate path op).
Proof.
  apply keeps_locked; [done|]. intros w. destruct (opt_filter _ (records _)) as [s|]; [|apply evolves_refl].
  destruct (opt_filter _ (pending_account s)) as [latest|]; [|apply evolves_refl]. split.
  - split; [reflexivity|]. split; [reflexivity|done].
  - intros (b & Hb & Hd & Hf & _). split; [|by apply only_durable_same]. exists b. split; [done|]. split; [done|]. by split.
Qed.

Lemma keeps_proof op : Keeps path (proof path op).
Proof.
  pose proof (keeps_preflight path Hplace). pose proof (keeps_fresh_gate path Hplace).
  assert (forall code, Keeps path (cleanup_proof path op code)).
  { intros code. pose proof keeps_store. pose proof keeps_retain_gate. unfold cleanup_proof. keeps. }
  unfold proof. keeps.
Qed.

Lemma keeps_copy_password op h : Keeps path (copy_password path op h).
Proof.
  pose proof keeps_ensure_latest. pose proof keeps_store.
  assert (forall name v, Keeps path (keychain_set name v)) by (intros; apply keeps_keychain).
  unfold copy_password. keeps.
Qed.
Lemma keeps_preserve op keys : Keeps path (preserve path op keys).
Proof.
  pose proof keeps_source_spaces. pose proof keeps_proof. pose proof keeps_ensure_latest.
  assert (forall op l, Keeps path (fold_rm (copy_password path) op l)) by (intros; apply keeps_fold, keeps_copy_password).
  unfold preserve. keeps.
Qed.
Lemma keeps_resume : Keeps path (resume_locked path).
Proof.
  pose proof (keeps_preflight path Hplace). pose proof keeps_proof. pose proof keeps_ensure_latest. pose proof keeps_preserve.
  assert (Keeps path (keychain_delete MNEMONIC_ACCOUNT)) by apply keeps_keychain.
  unfold resume_locked. keeps.
Qed.
Lemma keeps_leave : Keeps path (leave_account path).
Proof.
  pose proof (keeps_preflight path Hplace). pose proof (keeps_fresh_gate path Hplace). pose proof keeps_source_spaces.
  pose proof keeps_plan. pose proof keeps_new_id. pose proof keeps_store. pose proof keeps_resume.
  unfold leave_account. keeps.
Qed.
End LeaveKeeps.

(** ** What an operation may do to the world

    One closure lemma per way to compose operations, for any relation between the world
    before and the world after that is a preorder. *)

Section Within.
Context {R : RuntimeEnv} (T : relation RWorld).

Definition Within {A} (m : RM A) : Prop := forall w, T w (m w).2.

Context `{!PreOrder T}.

Lemma within_ret {A} (a : A) : Within (mret a).
Proof. intros w. cbn. reflexivity. Qed.
Lemma within_fail {A} e : Within (fail (A := A) e).
Proof. intros w. cbn. reflexivity. Qed.
Lemma within_of_result {A} (r : result AppError A) : Within (of_result r).
Proof. destruct r; [apply within_ret|apply within_fail]. Qed.
Lemma within_require b e : Within (require b e).
Proof. destruct b; [apply within_ret|apply within_fail]. Qed.
Lemma within_the_core : Within the_core.
Proof. intros w. cbn. reflexivity. Qed.

(** The rest may use how the first part ended. *)
Lemma within_bind_at {A B} (m : RM A) (k : A -> RM B) w :
  T w (m w).2 -> (forall a w1, m w = (Ok a, w1) -> T w1 (k a w1).2) -> T w ((m ≫= k) w).2.
Proof.
  intros Hm Hk. unfold mbind, rm_bind. destruct (m w) as [[a|e] w1]; [|done].
  etransitivity; [exact Hm|]. by apply Hk.
Qed.
Lemma within_bind {A B} (m : RM A) (k : A -> RM B) : Within m -> (forall a, Within (k a)) -> Within (m ≫= k).
Proof. intros Hm Hk w. apply within_bind_at; [apply Hm|]. intros a w1 _. apply Hk. Qed.
Lemma within_attempt {A} (m : RM A) : Within m -> Within (attempt m).
Proof. intros Hm w. specialize (Hm w). unfold attempt. by destruct (m w). Qed.
Lemma within_relabel {A} f (m : RM A) : Within m -> Within (relabel f m).
Proof. intros Hm w. specialize (Hm w). unfold relabel. by destruct (m w). Qed.
Lemma within_fold {A B} (f : B -> A -> RM B) l : (forall b a, Within (f b a)) -> forall acc, Within (fold_rm f acc l).
Proof.
  intros Hf. induction l as [|x l IH]; intros acc; cbn [fold_rm]; [apply within_ret|]. by apply within_bind.
Qed.
Lemma within_others path fs : (forall f, Within (transact path f)) -> Within (run_others path fs).
Proof.
  intros Hf. induction fs as [|f fs IH]; [apply within_ret|]. apply within_bind; [by apply within_attempt|]. intros _. exact IH.
Qed.
End Within.

Create HintDb within.
#[export] Hint Resolve within_ret within_fail within_of_result within_require within_the_core : within.
#[export] Hint Extern 0 (PreOrder _) => typeclasses eauto : within.

(** A program of such operations, one by one. *)
Ltac within :=
  repeat (cbv zeta; first
    [ done | solve [auto with within]
    | match goal with
      | |- Within _ (_ ≫= _) => apply within_bind; [apply _| |intros ?]
      | |- Within _ (attempt _) => apply within_attempt
      | |- Within _ (relabel _ _) => apply within_relabel
      | |- Within _ (fold_rm _ _ _) => apply within_fold; [apply _|intros ? ?]
      | |- Within _ (match ?x with _ => _ end) => destruct x
      end ]).

(** ** Operations that only read the keychain *)

Section Mild.
Context {R : RuntimeEnv}.

(** A relation that every access to the core, the files, the relay, the clock and the
    random values keeps, and every reading of the keychain. *)
Class Mild (T : relation RWorld) : Prop := {
  mild_pre :: PreOrder T;
  mild_put c : Within T (put_core c);
  mild_now : Within T now;
  mild_fill n : Within T (fill n);
  mild_interrupt : Within T next_interrupt;
  mild_files A (m : M A) : Within T (on_files m);
  mild_pull url chain token since : Within T (relay_pull url chain token since);
  mild_get name : Within T (keychain_get name)
}.

Context (path : str) (T : relation RWorld) `{!Mild T}.
#[local] Hint Resolve mild_put mild_now mild_fill mild_interrupt mild_files mild_pull mild_get : within.

Lemma mild_transact f : Within T (transact path f).
Proof. unfold transact, persist_candidate. within. Qed.
Lemma mild_lock : Within T (lock_core path).
Proof. pose proof (within_others T path). pose proof mild_transact. unfold lock_core. within. Qed.
#[local] Hint Resolve mild_transact mild_lock : within.
Lemma mild_mutate f : Within T (mutate_records path f).
Proof. unfold mutate_records. within. Qed.
Lemma mild_noting {B} (f : SyncStateV3 -> result AppError (SyncStateV3 * B)) : Within T (mutate_noting path f).
Proof. unfold mutate_noting, persist_candidate. within. Qed.
Lemma mild_snapshot : Within T (snapshot path).
Proof. unfold snapshot. within. Qed.
Lemma mild_preflight : Within T (preflight path).
Proof. unfold preflight, require_no_pending_migration, save_core, noting_unsaved. within. Qed.
#[local] Hint Resolve mild_mutate mild_noting mild_snapshot mild_preflight : within.
Lemma mild_fresh_gate : Within T (fresh_account_gate path).
Proof.
  assert (forall c u g s, Within T (fail_closed path c u g s)) by (intros; unfold fail_closed; within).
  unfold fresh_account_gate, prepare_account_gate, read_keys_from, publish_prepared_account_gate. within.
Qed.
Lemma mild_store op : Within T (store path op).
Proof. unfold store. within. Qed.
Lemma mild_ensure_latest op : Within T (ensure_latest path op).
Proof. unfold ensure_latest. within. Qed.
#[local] Hint Resolve mild_fresh_gate mild_store mild_ensure_latest : within.
Lemma mild_proof op : Within T (proof path op).
Proof. unfold proof, cleanup_proof, retain_gate. within. Qed.
Lemma mild_source_spaces a keys cached : Within T (source_spaces path a keys cached).
Proof. unfold source_spaces, source_space. within. Qed.
Lemma mild_new_id n : Within T (new_id n).
Proof. unfold new_id. within. Qed.
Lemma mild_fresh_id fuel used : Within T (fresh_id fuel used).
Proof. induction fuel as [|fuel IH]; cbn [fresh_id]; pose proof mild_new_id; within. Qed.
Lemma mild_plan s sps : Within T (plan s sps).
Proof.
  assert (forall used, Within T (unused_id used)) by (intros used w; apply mild_fresh_id).
  unfold plan, assign, assign_row. within.
Qed.

End Mild.
#[export] Hint Resolve mild_put mild_now mild_fill mild_interrupt mild_files mild_pull mild_get
  mild_transact mild_lock mild_mutate mild_noting mild_snapshot mild_preflight mild_fresh_gate mild_store mild_ensure_latest mild_proof mild_source_spaces mild_new_id mild_fresh_id mild_plan : within.
#[export] Hint Extern 0 (Mild _) => typeclasses eauto : within.

(** ** The keychain *)

Section Keychain.
Context {R : RuntimeEnv} (path : str).

Definition same_keychain (w w' : RWorld) : Prop := keychain w' = keychain w.
#[export] Instance same_keychain_pre : PreOrder same_keychain.
Proof. split; [done|]. intros w1 w2 w3. unfold same_keychain. congruence. Qed.

(** Every password stays, every new one is a copy, and the sync code stays or goes. *)
Definition copies_only (w w' : RWorld) : Prop :=
  (forall name v, name <> MNEMONIC_ACCOUNT -> bt_get name (keychain w) = Some v -> bt_get name (keychain w') = Some v) /\
  (forall name v, bt_get name (keychain w') = Some v -> exists name', bt_get name' (keychain w) = Some v) /\
  (bt_get MNEMONIC_ACCOUNT (keychain w') = bt_get MNEMONIC_ACCOUNT (keychain w) \/
   bt_get MNEMONIC_ACCOUNT (keychain w') = None).
#[export] Instance copies_only_pre : PreOrder copies_only.
Proof.
  split.
  - intros w. split; [done|]. split; [|by left]. intros name v H. by exists name.
  - intros w1 w2 w3 (K1 & C1 & M1) (K2 & C2 & M2). split; [auto|]. split.
    + intros name v (n2 & H2)%C2. by apply C1 in H2.
    + destruct M2 as [->| ->]; [done|by right].
Qed.

Lemma same_copies w w' : same_keychain w w' -> copies_only w w'.
Proof. intros H. unfold copies_only. rewrite H. apply copies_only_pre. Qed.

#[export] Instance mild_same_keychain : Mild same_keychain.
Proof.
  split; try done; try apply _.
  - intros A m w. unfold on_files. by destruct (m (files w)).
  - intros url chain token since w. unfold relay_pull. by destruct (net_pull _ _ _ _ _).
  - intros name w. unfold keychain_get, keychain_op. by destruct (keychain_fails w) as [|[] l].
Qed.

(** What an access that succeeds returns. *)
Lemma keychain_get_Ok f name w r w' :
  relabel f (keychain_get name) w = (Ok r, w') -> r = bt_get name (keychain w) /\ keychain w' = keychain w.
Proof. unfold relabel, keychain_get, keychain_op. destruct (keychain_fails w) as [|[] l]; cbn; by intros [= <- <-]. Qed.

Lemma copies_same {A} (m : RM A) : Within same_keychain m -> Within copies_only m.
Proof. intros H w. apply same_copies, H. Qed.

(** A password that is not there yet is set to one that is. *)
Lemma copies_set name source v w :
  bt_get source (keychain w) = Some v -> bt_get name (keychain w) = None -> name <> MNEMONIC_ACCOUNT ->
  copies_only w (keychain_set name v w).2.
Proof.
  intros Hs Hn Hm. unfold keychain_set, keychain_op.
  assert (Hset : forall k f, k = bt_insert name v (keychain w) -> copies_only w (with_keychain w k f)).
  { intros k f ->. unfold copies_only. cbn [keychain with_keychain]. split; [|split].
    - intros n u Hnm Hu. rewrite bt_get_insert_ne; [done|]. by intros <-; rewrite Hn in Hu.
    - intros n u. rewrite bt_get_insert. case_decide; [intros [= <-]; by exists source|]. intros Hu. by exists n.
    - left. by rewrite bt_get_insert_ne. }
  destruct (keychain_fails w) as [|[] l]; cbn [snd]; [by apply Hset|by apply same_copies|by apply Hset].
Qed.

Lemma copies_delete : Within copies_only (keychain_delete MNEMONIC_ACCOUNT).
Proof.
  assert (Hrm : forall w f, copies_only w (with_keychain w (bt_remove MNEMONIC_ACCOUNT (keychain w)) f)).
  { intros w f. unfold copies_only. cbn [keychain with_keychain]. split; [|split].
    - intros n u Hn Hu. by rewrite bt_get_remove_ne.
    - intros n u Hu. destruct (decide (MNEMONIC_ACCOUNT = n)) as [<-|Hne]; [by rewrite bt_get_remove_eq in Hu|].
      rewrite bt_get_remove_ne in Hu by done. by exists n.
    - right. apply bt_get_remove_eq. }
  intros w. unfold keychain_delete, keychain_op.
  destruct (keychain_fails w) as [|[] l]; cbn [snd]; [apply Hrm|by apply same_copies|apply Hrm].
Qed.

Lemma copies_password op h : Within copies_only (copy_password path op h).
Proof.
  pose proof (mild_ensure_latest path same_keychain) as Hlatest. pose proof copies_only_pre.
  intros w. unfold copy_password. cbv zeta.
  apply within_bind_at; [done|apply same_copies, Hlatest|]. intros u w1 _.
  apply within_bind_at; [done|apply same_copies; apply within_relabel, mild_get|]. intros source w2 [-> H2]%keychain_get_Ok.
  apply within_bind_at; [done|apply same_copies; apply within_relabel, mild_get|]. intros target w3 [-> H3]%keychain_get_Ok.
  apply within_bind_at; [done|apply same_copies, Hlatest|]. intros u' w4 H4.
  pose proof (Hlatest op w3) as H5. rewrite H4 in H5. cbn [snd] in H5. unfold same_keychain in H5.
  rewrite <-H2, <-H3, <-H5.
  apply within_bind_at; [done| |].
  - destruct (bt_get _ (keychain w4)) as [v|] eqn:Hs; destruct (bt_get (HOST_PASSWORD ++ local_host_id _) (keychain w4)) eqn:Ht.
    + apply copies_same, within_require. apply _.
    + pose proof (copies_set _ _ _ _ Hs Ht) as Hc. unfold relabel.
      destruct (keychain_set _ _ w4) as [r w5]; cbn [snd] in Hc |- *. by apply Hc.
    + apply copies_same, within_fail. apply _.
    + apply copies_same, within_ret. apply _.
  - intros u'' w5 _. apply copies_same. within.
Qed.
Lemma copies_preserve op keys : Within copies_only (preserve path op keys).
Proof.
  pose proof copies_password.
  assert (forall A (m : RM A), Within same_keychain m -> Within copies_only m) by (intros; by apply copies_same).
  pose proof (mild_proof path same_keychain). pose proof (mild_source_spaces path same_keychain). pose proof (mild_ensure_latest path same_keychain).
  unfold preserve. within.
Qed.
Lemma copies_resume : Within copies_only (resume_locked path).
Proof.
  assert (forall A (m : RM A), Within same_keychain m -> Within copies_only m) by (intros; by apply copies_same).
  pose proof (mild_preflight path same_keychain). pose proof (mild_snapshot path same_keychain).
  pose proof (mild_mutate path same_keychain). pose proof (mild_proof path same_keychain).
  pose proof (mild_ensure_latest path same_keychain). pose proof copies_preserve. pose proof copies_delete.
  unfold resume_locked. within.
Qed.
Lemma copies_leave : Within copies_only (leave_account path).
Proof.
  assert (forall A (m : RM A), Within same_keychain m -> Within copies_only m) by (intros; by apply copies_same).
  pose proof (mild_preflight path same_keychain). pose proof (mild_snapshot path same_keychain).
  pose proof (mild_fresh_gate path same_keychain). pose proof (mild_source_spaces path same_keychain).
  pose proof (mild_plan same_keychain). pose proof (mild_new_id same_keychain).
  pose proof (mild_store path same_keychain). pose proof copies_resume.
  unfold leave_account. within.
Qed.
End Keychain.

(** ** The sync code goes last *)

(** The state after the commit: no account, and every copy has its row. *)
Record preserved (p : LeavePlan) (s : SyncStateV3) : Prop := {
  gone_account : account s = None;
  gone_spaces : spaces s = [];
  kept_hosts : forall h, h ∈ lp_hosts p -> bt_contains_key (record_key KHost (local_host_id (ph_mapping h))) (l_hosts (local s)) = true;
  kept_groups : forall g, g ∈ lp_groups p -> bt_contains_key (record_key KGroup (local_group_id g)) (l_groups (local s)) = true
}.

(** What publishing may change of a state whose account cannot be written. *)
Record published_from (s n : SyncStateV3) : Prop := {
  same_account_of : account n = account s;
  same_pending_of : pending_account n = pending_account s;
  same_keys_of : bt_keys (spaces n) = bt_keys (spaces s);
  same_groups_of : l_groups (local n) = l_groups (local s);
  more_hosts : forall k, bt_contains_key k (l_hosts (local s)) = true -> bt_contains_key k (l_hosts (local n)) = true
}.

#[export] Instance published_from_pre : PreOrder published_from.
Proof. split; [by split|]. intros s1 s2 s3 [] []. split; [congruence..|]. auto. Qed.

Lemma insert_host_published s scope key row : published_from s (insert_host s scope key row).
Proof.
  unfold insert_host. destruct scope as [|id]; split; try done; cbn.
  - intros k. unfold bt_contains_key. rewrite bt_get_insert. by case_decide.
  - apply bt_keys_update.
Qed.

Section Last.
Context {R : RuntimeEnv} (path : str).

Lemma invalidate_published before s n : invalidate_changed_pins before s = Ok n -> published_from s n.
Proof.
  unfold invalidate_changed_pins. intros H. ok_inv. eapply (try_fold_inv (published_from s)); [|reflexivity|eassumption].
  intros b view b' _ Hb Hf. unfold invalidate_pin in Hf. destruct (is_none _); [by ok_inv|].
  destruct (negb _); [by ok_inv|]. ok_inv. etransitivity; [exact Hb|]. apply insert_host_published.
Qed.

Lemma preserved_from p s n : preserved p s -> published_from s n -> preserved p n.
Proof.
  intros [Ha Hs Hh Hg] [Ea Ep Es Eg Eh]. split; [congruence| |auto|by rewrite Eg].
  rewrite Hs in Es. by destruct (spaces n).
Qed.

Lemma published_Ok c s n :
  published c s = Ok n -> account s = None \/ is_some (pending_account s) = true -> published_from s n.
Proof.
  unfold published. cbv zeta. intros H Hs.
  assert (Hv : forall s v, published_from s (set_version s v)) by done.
  set (s1 := if _ && _ then _ else s) in H. assert (H1 : published_from s s1) by (unfold s1; by destruct (_ && _)).
  assert (H2 : RecordLibrary.include_new_records s1 (account_keys c) = s1).
  { unfold RecordLibrary.include_new_records, RecordLibrary.enabled, account_writes_blocked. destruct H1 as [-> -> _ _ _].
    destruct Hs as [->| ->]; [done|]. by rewrite orb_true_r. }
  rewrite H2 in H. set (s2 := if has_navigation_data s1 then _ else s1) in H.
  assert (H3 : published_from s s2) by (unfold s2; destruct (has_navigation_data s1); [by etransitivity|done]).
  destruct (records c) as [before|]; [|by injection H as <-].
  destruct (invalidate_changed_pins before s2) as [n'|] eqn:Hn; [|done]. injection H as <-.
  etransitivity; [exact H3|]. by eapply invalidate_published.
Qed.

(** No other thread commits. *)
Definition alone (w : RWorld) : Prop := Forall (fun fs => fs = []) (interrupts w).

(** A property of the state, in memory and in the file. *)
Definition settled (P : SyncStateV3 -> Prop) (w : RWorld) : Prop :=
  format (core w) = Records /\ (exists s, records (core w) = Some s /\ P s) /\
  exists s b, P s /\ validate_state s = Ok tt /\ state_to_vec_pretty s = Some b /\
    (N.of_nat (length b) <= MAX_STATE_BYTES)%N /\ old_state path b (disk (files w)).

Lemma settled_mono (P Q : SyncStateV3 -> Prop) w : (forall s, P s -> Q s) -> settled P w -> settled Q w.
Proof.
  intros H (Hf & (s & Hs & Ps) & s' & b & Ps' & Hrest). split; [done|]. split; [by exists s; auto|].
  exists s', b. by split; [apply H|].
Qed.

Definition stays (P : SyncStateV3 -> Prop) (w w' : RWorld) : Prop :=
  alone w -> alone w' /\ (settled P w -> settled P w').
#[export] Instance stays_pre P : PreOrder (stays P).
Proof.
  split; [by intros w Hw|]. intros w1 w2 w3 H1 H2 Hw. destruct (H1 Hw) as [Hw2 S1]. destruct (H2 Hw2) as [Hw3 S2]. auto.
Qed.

(** Neither the file nor the core. *)
Lemma stays_same P w w' : files w' = files w -> core w' = core w -> interrupts w' = interrupts w -> stays P w w'.
Proof. intros Hf Hc Hi Hw. unfold alone, settled. by rewrite Hf, Hc, Hi. Qed.

(** The commits of other threads that are to come only get fewer. *)
Definition same_interrupts (w w' : RWorld) : Prop := interrupts w' = interrupts w.
#[export] Instance same_interrupts_pre : PreOrder same_interrupts.
Proof. split; [done|]. intros w1 w2 w3. unfold same_interrupts. congruence. Qed.
Lemma interrupts_files {A} (m : M A) : Within same_interrupts (on_files m).
Proof. intros w. unfold on_files. by destruct (m (files w)). Qed.
Lemma interrupts_put c : Within same_interrupts (put_core c).
Proof. done. Qed.
#[local] Hint Resolve interrupts_files interrupts_put : within.
Lemma interrupts_save : Within same_interrupts (save_core path).
Proof. unfold save_core, noting_unsaved. within. Qed.
Lemma interrupts_persist candidate : Within same_interrupts (persist_candidate path candidate).
Proof. unfold persist_candidate. within. Qed.

Section Any.
Context (P : SyncStateV3 -> Prop).
Hypothesis Hplace : forall v digest, with_file_name path (backup_name v digest) <> path.

Lemma stays_now : Within (stays P) now.
Proof. intros w. by apply stays_same. Qed.
Lemma stays_fill n : Within (stays P) (fill n).
Proof. intros w. by apply stays_same. Qed.
Lemma stays_pull url chain token since : Within (stays P) (relay_pull url chain token since).
Proof. intros w. unfold relay_pull. destruct (net_pull _ _ _ _ _). by apply stays_same. Qed.
Lemma stays_keychain {A} (f : list (str * str) -> A * list (str * str)) : Within (stays P) (keychain_op f).
Proof. intros w. unfold keychain_op. destruct (keychain_fails w) as [|[] l]; try destruct (f _); by apply stays_same. Qed.
Lemma stays_leaves {A} (m : M A) : Leaves path m -> Within (stays P) (on_files m).
Proof.
  intros Hm w Hw. unfold on_files. destruct (m (files w)) as [r f] eqn:Hr. split; [done|].
  intros (Hf & Hs & s & b & Ps & Hv & Hb & Hl & Hd). split; [done|]. split; [done|]. exists s, b.
  split; [done|]. split; [done|]. split; [done|]. split; [done|].
  destruct (Hm b (ex_intro _ s (conj Hv (conj Hb Hl))) (files w) Hd) as [HQ _]. by rewrite Hr in HQ.
Qed.

(** The lock, when nobody else has it. *)
Lemma lock_alone w : alone w -> exists w', lock_core path w = (Ok (core w), w') /\ alone w' /\
  files w' = files w /\ core w' = core w /\ keychain w' = keychain w.
Proof.
  unfold alone, lock_core, next_interrupt, mbind, rm_bind. intros Hw.
  assert (Hh : hd [] (interrupts w) = [] /\ Forall (fun fs => fs = []) (tail (interrupts w))).
  { destruct (interrupts w); [done|]. by apply Forall_cons in Hw as [-> ?]. }
  destruct Hh as [-> Ht]. cbn. eexists. split; [reflexivity|]. done.
Qed.
Lemma stays_locked {A} (k : SyncCore -> RM A) :
  (forall w, stays P w (k (core w) w).2) -> Within (stays P) (c ← lock_core path; k c).
Proof.
  intros Hk w Hw. destruct (lock_alone w Hw) as (w' & Hl & Hw' & Hf & Hc & _). unfold mbind, rm_bind. rewrite Hl, <-Hc.
  destruct (Hk w' Hw') as [Ha Hs]. split; [done|]. intros H. apply Hs. unfold settled. by rewrite Hf, Hc.
Qed.
Lemma stays_snapshot : Within (stays P) (snapshot path).
Proof.
  assert (Hk : forall c, Within (stays P) (s ← of_result (active_state c); mret (s, generation c))) by (intros c; within).
  apply stays_locked. intros w. apply Hk.
Qed.

Lemma stays_put w c :
  format c = format (core w) -> records c = records (core w) -> stays P w (put_core c w).2.
Proof. intros Hf Hr Hw. split; [done|]. unfold settled, put_core. cbn. by rewrite Hf, Hr. Qed.

(** A save of a state with the property. *)
Lemma stays_saved w s r f c :
  save_active path s (files w) = (r, f) -> P s -> format c = format (core w) ->
  (is_ok r = true -> records c = Some s) -> (is_ok r = false -> records c = records (core w)) ->
  stays P w (with_core (with_files w f) c).
Proof.
  intros Hs Ps Hfc Hok Herr Hw. split; [done|]. intros (Hf & Hr & s0 & b & P0 & Hv & Hb & Hl & Hd).
  destruct (save_active_world path Hplace s b _ _ _ (ex_intro _ s0 (conj Hv (conj Hb Hl))) Hd Hs) as [Ha _].
  split; [by cbn; rewrite Hfc|]. cbn [core files with_core with_files]. destruct r as [u|e]; cbn in Hok, Herr.
  - rewrite Hok by done. split; [by exists s|]. destruct Ha as (Hv' & new & Hn & (s' & Hv2 & Hb2 & Hl2) & Hd'). exists s, new. done.
  - rewrite Herr by done. split; [done|]. by exists s0, b.
Qed.

Lemma core_kept w : with_core w (core w) = w.
Proof. by destruct w. Qed.
(** What saves and notes it, when the state has the property. *)
Lemma stays_save_core : Within (stays P) (save_core path).
Proof.
  intros w Hw. destruct (save_blocked (core w)) as [reason|] eqn:Hb.
  { unfold save_core, the_core, mbind, rm_bind. rewrite Hb. by split. }
  assert (Hset : settled P w -> settled P (save_core path w).2).
  { intros H. destruct (H) as (Hf & (s & Hs & Ps) & _). destruct (active_state (core w)) as [s'|e] eqn:Ha.
    - pose proof (active_records _ _ Ha) as Hs'. rewrite Hs in Hs'. injection Hs' as <-.
      rewrite (save_core_eq path w s Hb Ha). destruct (save_active path s (files w)) as [r f] eqn:Hsave.
      eapply (stays_saved w s r f); [exact Hsave|exact Ps|done|done|done|done|exact H].
    - unfold save_core, noting_unsaved, the_core, mbind, rm_bind. rewrite Hb, Hf, Ha.
      by apply (stays_put w (set_unsaved (core w) true)). }
  split; [|exact Hset]. enough (Hi : interrupts (save_core path w).2 = interrupts w) by (unfold alone; by rewrite Hi).
  apply (interrupts_save w).
Qed.

Lemma stays_preflight : Within (stays P) (preflight path).
Proof.
  pose proof stays_save_core.
  assert (Hl : forall A (m : M A), Leaves path m -> Within (stays P) (on_files m)) by (intros; by apply stays_leaves).
  assert (Within (stays P) (lock_core path)).
  { intros w. assert (Hw := stays_locked (fun c => mret c) (fun w => within_ret (stays P) (core w) w) w).
    unfold mbind, rm_bind in Hw. by destruct (lock_core path w) as [[]]. }
  assert (Within (stays P) (on_files (check_write path))) by (apply Hl; auto with leaves).
  assert (Within (stays P) (on_files (pending_migrations path))) by (apply Hl; auto with leaves).
  assert (forall e, Within (stays P) (on_files (check_place path e))) by (intros; apply Hl; auto with leaves).
  unfold preflight, require_no_pending_migration. within.
Qed.
End Any.

(** A property that the operations of leaving keep. *)
Class Lasting (P : SyncStateV3 -> Prop) : Prop := {
  lasting_published c s n : P s -> published c s = Ok n -> P n;
  lasting_pending s op b e : P s -> P (set_pending s op b e);
  lasting_no_account s : P s -> account s = None
}.

Section Commits.
Context (P : SyncStateV3 -> Prop).
Hypothesis Hplace : forall v digest, with_file_name path (backup_name v digest) <> path.

(** How a publication can end. *)
Lemma persist_cases candidate w :
  (exists e, persist_candidate path candidate w = (Err e, w)) \/
  exists n g r f, published (core w) candidate = Ok n /\ save_active path n (files w) = (r, f) /\
    persist_candidate path candidate w
    = match r with
      | Ok _ => (Ok g, with_core (with_files w f) (set_records (core w) g n (keys_of n (account_keys (core w))) false))
      | Err e => (Err e, with_files w f)
      end.
Proof.
  unfold persist_candidate, the_core, on_files, put_core, of_result, mbind, rm_bind.
  destruct (writes_allowed (core w)); [|left; by eexists]. cbn.
  destruct (published (core w) candidate) as [n|]; [|left; by eexists]. cbn.
  destruct (ok_or _ _) as [g|]; [|left; by eexists]. cbn.
  destruct (save_active path n (files w)) as [r f] eqn:Hs. right. exists n, g, r, f. destruct r; by repeat split.
Qed.

Lemma stays_persist candidate w :
  (forall n, published (core w) candidate = Ok n -> P n) -> stays P w (persist_candidate path candidate w).2.
Proof.
  intros HP. destruct (persist_cases candidate w) as [[e ->]|(n & g & r & f & Hn & Hs & ->)]; [reflexivity|].
  destruct r as [u|e]; cbn [snd].
  - apply (stays_saved P Hplace w n (Ok u) f); auto; done.
  - pose proof (stays_saved P Hplace w n (Err e) f (core w) Hs (HP n Hn)) as H. apply H; done.
Qed.

(** A publication that succeeds from a world in order puts the property into force. *)
Lemma persist_settles candidate w g w' :
  coherent path w -> (forall n, published (core w) candidate = Ok n -> P n) ->
  persist_candidate path candidate w = (Ok g, w') -> settled P w'.
Proof.
  intros (b & Hb & Hd & Hf & _) HP H. destruct (persist_cases candidate w) as [[e He]|(n & g' & r & f & Hn & Hs & Heq)]; [congruence|].
  rewrite Heq in H. destruct r as [u|e]; [|done]. injection H as _ <-.
  destruct (save_active_world path Hplace n b _ _ _ Hb Hd Hs) as [(Hv & new & Hp & (s' & Hv2 & Hb2 & Hl2) & Hd') _].
  split; [exact Hf|]. split; [by exists n; auto|]. exists n, new. by split; [auto|].
Qed.

(** A commit: under the lock, of the latest state. *)
Lemma transact_cases f w :
  (exists e, transact path f w = (Err e, w)) \/
  exists s n, records (core w) = Some s /\ f s = Ok n /\ transact path f w = persist_candidate path n w.
Proof.
  unfold transact, the_core, of_result, mbind, rm_bind. destruct (writes_allowed (core w)); [|left; by eexists]. cbn.
  destruct (active_state (core w)) as [s|] eqn:Ha; [|left; by eexists]. cbn.
  destruct (f s) as [n|] eqn:Hn; [|left; by eexists]. right. exists s, n. split; [by apply active_records|]. by split.
Qed.

Lemma mutate_settles f w g w' :
  alone w -> coherent path w -> (forall c s m n, f s = Ok m -> published c m = Ok n -> P n) ->
  mutate_records path f w = (Ok g, w') -> settled P w'.
Proof.
  intros Hw Hco HP. destruct (lock_alone w Hw) as (w1 & Hl & _ & _). unfold mutate_records, mbind at 1, rm_bind at 1.
  pose proof (keeps_lock path Hplace w) as [_ Hk]. rewrite Hl in Hk |- *. destruct (Hk Hco) as [Hco1 _].
  destruct (transact_cases f w1) as [[e ->]|(s & m & Hs & Hm & ->)]; [done|].
  apply persist_settles; [done|]. intros n. by eapply HP.
Qed.

Context `{!Lasting P}.

Lemma stays_transact f : (forall s n, P s -> f s = Ok n -> P n) -> Within (stays P) (transact path f).
Proof.
  intros Hf w Hw. destruct (transact_cases f w) as [[e ->]|(s & m & Hs & Hm & ->)]; [by split|].
  split; [unfold alone; by rewrite interrupts_persist|]. intros H. destruct (H) as (_ & (s' & Hs' & Ps) & _).
  rewrite Hs in Hs'. injection Hs' as <-. apply stays_persist; [|done|done]. intros n. by apply lasting_published, (Hf s).
Qed.
Lemma stays_mutate f : (forall s n, P s -> f s = Ok n -> P n) -> Within (stays P) (mutate_records path f).
Proof. intros Hf. apply stays_locked. intros w. by apply stays_transact. Qed.

Lemma stays_noting {B} (f : SyncStateV3 -> result AppError (SyncStateV3 * B)) :
  (forall s n b, P s -> f s = Ok (n, b) -> P n) -> Within (stays P) (mutate_noting path f).
Proof.
  intros Hf. apply stays_locked. intros w Hw. destruct (_ ≫= _) as [[m b]|e] eqn:Hm; [|by split].
  assert (Hi : alone ((r ← attempt (persist_candidate path m); mret (Some b, r)) w).2).
  { unfold alone. pose proof (interrupts_persist m w) as Hi. unfold attempt, mbind, rm_bind. unfold same_interrupts in Hi.
    destruct (persist_candidate path m w) as [r w1]. cbn in Hi |- *. by rewrite Hi. }
  split; [exact Hi|]. intros H. destruct (H) as (_ & (s & Hs & Ps) & _). ok_inv. apply active_records in Hok0.
  rewrite Hs in Hok0. injection Hok0 as <-.
  pose proof (stays_persist m w (fun n => lasting_published (core w) m n (Hf s m b Ps Hm))) as Hp.
  unfold attempt, mbind, rm_bind. destruct (persist_candidate path m w) as [r w1]. by apply Hp.
Qed.

#[local] Hint Resolve stays_now stays_fill stays_pull stays_keychain stays_snapshot : within.
#[local] Hint Extern 1 (Within _ (keychain_get _)) => apply stays_keychain : within.
#[local] Hint Extern 1 (Within _ (keychain_delete _)) => apply stays_keychain : within.

Lemma no_same_account s chain url : P s -> same_account s chain url = false.
Proof. intros Ps%lasting_no_account. unfold same_account. rewrite Ps. by rewrite andb_false_r. Qed.

Lemma stays_fail_closed chain url gate schema : Within (stays P) (fail_closed path chain url gate schema).
Proof.
  apply stays_locked. intros w Hw. destruct (opt_filter _ _) as [s|] eqn:Hs; [|by split].
  split; [exact Hw|]. intros (_ & (s' & Hs' & Ps) & _). exfalso. rewrite Hs' in Hs. cbn in Hs.
  by rewrite no_same_account in Hs.
Qed.

Lemma stays_publish_prepared p : Within (stays P) (publish_prepared_account_gate path p).
Proof.
  pose proof stays_fail_closed. unfold publish_prepared_account_gate. cbv zeta. apply within_bind; [apply _| |].
  - apply stays_noting. intros s n b Ps Hn. exfalso. unfold publish_pulled in Hn. by rewrite no_same_account in Hn.
  - intros [noted r]. destruct (default _ noted) as [[gate format_gate] observed]. destruct r as [g|e]; [|within].
    apply stays_locked. intros w. apply within_bind_at; [apply _| |].
    + destruct (is_some_and _ _); [|reflexivity]. by apply stays_put.
    + intros. cbn. reflexivity.
Qed.
Lemma stays_fresh_gate : Within (stays P) (fresh_account_gate path).
Proof.
  pose proof (stays_preflight P Hplace). pose proof stays_publish_prepared.
  unfold fresh_account_gate, prepare_account_gate, read_keys_from. within.
Qed.

Lemma stays_store op : Within (stays P) (store path op).
Proof.
  assert (Within (stays P) (mutate_records path (stored op))).
  { apply stays_mutate. intros s n Ps Hn. unfold stored in Hn. ok_inv. by apply lasting_pending. }
  unfold store. within.
Qed.
Lemma stays_retain_gate op : Within (stays P) (retain_gate path op).
Proof.
  apply stays_locked. intros w Hw. destruct (opt_filter _ (records _)) as [s|] eqn:Hs; [|by split].
  destruct (opt_filter _ (pending_account s)) as [latest|]; [|by split]. split; [exact Hw|].
  intros (Hf & (s' & Hs' & Ps) & Hrest). split; [exact Hf|]. split; [|exact Hrest].
  rewrite Hs' in Hs. cbn in Hs. destruct (_ =?= _); [|done]. injection Hs as <-. eexists. split; [reflexivity|]. by apply lasting_pending.
Qed.
Lemma stays_proof op : Within (stays P) (proof path op).
Proof.
  pose proof stays_store. pose proof stays_retain_gate. pose proof stays_fresh_gate. pose proof (stays_preflight P Hplace).
  unfold proof, cleanup_proof. within.
Qed.
Lemma stays_ensure_latest op : Within (stays P) (ensure_latest path op).
Proof. pose proof (stays_preflight P Hplace). unfold ensure_latest. within. Qed.

(** What remains after the commit. *)
Lemma stays_cleanup op : Within (stays P)
  (left ← proof path op;
   _ ← (if is_some left then
          _ ← ensure_latest path op;
          relabel (fun _ => app_error "local data is preserved; sync code cleanup is pending") (keychain_delete MNEMONIC_ACCOUNT)
        else mret tt);
   _ ← mutate_records path (finish_leave op); mret tt).
Proof.
  pose proof stays_proof. pose proof stays_ensure_latest.
  assert (Within (stays P) (mutate_records path (finish_leave op))).
  { apply stays_mutate. intros s n Ps Hn. unfold finish_leave in Hn. ok_inv. by apply lasting_pending. }
  within.
Qed.
End Commits.

#[export] Instance lasting_preserved p : Lasting (preserved p).
Proof.
  split.
  - intros c s n Hs Hn. eapply preserved_from; [exact Hs|]. eapply published_Ok; [exact Hn|]. left. apply Hs.
  - intros s op b e [Ha Hs Hh Hg]. by split.
  - intros s Hs. apply Hs.
Qed.

(** The planned rows of the hosts and of the groups. *)
Definition planned_hosts (p : LeavePlan) : list (str * LocalRecord) :=
  map (fun h => (record_key KHost (local_host_id (ph_mapping h)), ph_local h)) (lp_hosts p).
Definition planned_groups (p : LeavePlan) : list (str * LocalRecord) :=
  map (fun g => (record_key KGroup (local_group_id g), pg_local g)) (lp_groups p).

(** What the map of a kept part holds: what it held, and the planned rows, at free places. *)
Definition joined (m : btree LocalRecord) (l : list (str * LocalRecord)) (m' : btree LocalRecord) : Prop :=
  (forall k v, bt_get k m' = Some v <-> bt_get k m = Some v \/ (k, v) ∈ l) /\
  NoDup l.*1 /\ (forall k, k ∈ l.*1 -> bt_get k m = None).

(** Rows that were put at free places: what was there stays, and nothing else comes. *)
Lemma added_rows e l : forall m m', try_fold (add_row e) m l = Ok m' ->
  joined m l m'.
Proof.
  induction l as [|[k0 v0] l IH]; intros m m' H; cbn [try_fold] in H; ok_inv.
  { split; [|split; [by apply NoDup_nil|by intros k ?%elem_of_nil]]. intros k v. split; [by left|]. by intros [?|?%elem_of_nil]. }
  unfold add_row in Hok. ok_inv. cbn [fst snd] in *. destruct (IH _ _ H) as (Hget & Hnd & Hfree).
  assert (Hk0 : bt_get k0 m = None) by (unfold bt_contains_key in *; by destruct (bt_get k0 m)).
  split; [|split].
  - intros k v. rewrite Hget, bt_get_insert, elem_of_cons. case_decide; subst.
    + split; [|naive_solver]. intros [[= <-]|Hl]; [by right; left|]. right. by right.
    + naive_solver.
  - apply NoDup_cons. split; [|done]. intros Hin. apply Hfree in Hin. by rewrite bt_get_insert_eq in Hin.
  - intros k [->|Hk]%elem_of_cons; [done|]. apply Hfree in Hk. rewrite bt_get_insert in Hk. by case_decide.
Qed.

Lemma joined_has m l m' k v : joined m l m' -> (k, v) ∈ l -> bt_contains_key k m' = true.
Proof. intros (H & _) Hin. unfold bt_contains_key. destruct (H k v) as [_ ->]; [done|]. by right. Qed.

Lemma detach_Ok op s n : detach op s = Ok n ->
  exists p hosts groups, op_leave op = Some p /\
    joined (l_hosts (local s)) (planned_hosts p) hosts /\ joined (l_groups (local s)) (planned_groups p) groups /\
    n = detached s (set_l_order (set_l_groups (set_l_hosts (local s) hosts) groups) (kept_order p (ov_ids (order_view s))))
          (version n) (with_phase op PActivated).
Proof.
  unfold detach, kept_local. intros H. ok_inv.
  match goal with Hh : try_fold _ (l_hosts _) _ = Ok ?hosts, Hg : try_fold _ (l_groups _) _ = Ok ?groups |- _ =>
    apply added_rows in Hh; apply added_rows in Hg; eexists _, hosts, groups end.
  split; [by destruct (op_leave op); simplify_eq|]. split; [done|]. split; [done|]. reflexivity.
Qed.

Lemma detach_preserves op p s n : detach op s = Ok n -> op_leave op = Some p -> preserved p n.
Proof.
  intros (p' & hosts & groups & Hp & Hh & Hg & ->)%detach_Ok Hp'. rewrite Hp in Hp'. injection Hp' as ->.
  split; try done.
  - intros h Hin. eapply joined_has; [exact Hh|]. apply list_elem_of_fmap. by exists h.
  - intros g Hin. eapply joined_has; [exact Hg|]. apply list_elem_of_fmap. by exists g.
Qed.
End Last.

(** *** Leaving, from its first step to its last *)

Section WholeLeave.
Context {R : RuntimeEnv} (path : str).
Hypothesis Hplace : forall v digest, with_file_name path (backup_name v digest) <> path.

(** The sync code is as it was, and no other thread has come to commit. *)
Definition code_stays (w w' : RWorld) : Prop :=
  bt_get MNEMONIC_ACCOUNT (keychain w') = bt_get MNEMONIC_ACCOUNT (keychain w) /\ (alone w -> alone w').
#[export] Instance mild_code_stays : Mild code_stays.
Proof.
  split; try done.
  - split; [done|]. intros w1 w2 w3 [H1 A1] [H2 A2]. split; [congruence|auto].
  - intros w. split; [done|]. unfold alone, next_interrupt. cbn. destruct (interrupts w); [done|]. by intros [? ?]%Forall_cons.
  - intros A m w. unfold on_files. by destruct (m (files w)).
  - intros url chain token since w. unfold relay_pull. by destruct (net_pull _ _ _ _ _).
  - intros name w. unfold keychain_get, keychain_op. by destruct (keychain_fails w) as [|[] l].
Qed.

Lemma code_password op h : Within code_stays (copy_password path op h).
Proof.
  assert (forall v, Within code_stays (keychain_set (HOST_PASSWORD ++ local_host_id (ph_mapping h)) v)).
  { intros v w. unfold code_stays, keychain_set, keychain_op.
    destruct (keychain_fails w) as [|[] l]; cbn [keychain with_keychain snd]; (split; [|done]); try done.
    all: by rewrite bt_get_insert_ne. }
  unfold copy_password. within.
Qed.
Lemma code_preserve op keys : Within code_stays (preserve path op keys).
Proof. pose proof code_password. unfold preserve. within. Qed.

(** The copied passwords are noted, and the rows of the plan stay. *)
Definition same_rows (p p' : LeavePlan) : Prop := lp_hosts p' = lp_hosts p /\ lp_groups p' = lp_groups p.
Lemma copy_password_Ok op h w op' w' p :
  copy_password path op h w = (Ok op', w') -> op_leave op = Some p -> exists p', op_leave op' = Some p' /\ same_rows p p'.
Proof.
  unfold copy_password. cbv zeta. intros H Hp. do 5 apply rm_bind_Ok in H as (? & ? & _ & H).
  apply rm_bind_Ok in H as (p' & w1 & Hp' & H). apply of_result_Ok in Hp' as [Hp' _]. rewrite Hp in Hp'. injection Hp' as <-.
  apply rm_bind_Ok in H as (u & w2 & _ & H). injection H as <- _. by eexists.
Qed.
Lemma fold_copy_Ok l op w op' w' p :
  fold_rm (copy_password path) op l w = (Ok op', w') -> op_leave op = Some p -> exists p', op_leave op' = Some p' /\ same_rows p p'.
Proof.
  revert op w p. induction l as [|h l IH]; intros op w p H Hp; cbn [fold_rm] in H.
  - injection H as <- _. by exists p.
  - apply rm_bind_Ok in H as (op1 & w1 & H1 & H). destruct (copy_password_Ok _ _ _ _ _ _ H1 Hp) as (p1 & Hp1 & Hh & Hg).
    destruct (IH _ _ _ H Hp1) as (p2 & Hp2 & Hh2 & Hg2). exists p2. split; [done|]. split; congruence.
Qed.
Lemma preserved_same_rows p p' s : same_rows p p' -> preserved p' s -> preserved p s.
Proof. intros [Hh Hg] [Ha Hs Hkh Hkg]. rewrite Hh in Hkh. rewrite Hg in Hkg. by split. Qed.

(** Nobody comes to commit meanwhile. *)
Definition quiet_stays (w w' : RWorld) : Prop := alone w -> alone w'.
Lemma code_quiet {A} (m : RM A) : Within code_stays m -> Within quiet_stays m.
Proof. intros Hm w. destruct (Hm w) as [_ H]. exact H. Qed.
#[local] Instance mild_quiet_stays : Mild quiet_stays.
Proof.
  pose proof mild_code_stays as [? H1 H2 H3 H4 H5 H6 H7]. split.
  - split; [intros w H; exact H|]. intros w1 w2 w3 Q1 Q2 H. by apply Q2, Q1.
  - intros c. apply code_quiet, H1.
  - apply code_quiet, H2.
  - intros n. apply code_quiet, H3.
  - apply code_quiet, H4.
  - intros A m. apply code_quiet, H5.
  - intros url chain token since. apply code_quiet, H6.
  - intros name. apply code_quiet, H7.
Qed.
Lemma quiet_resume : Within quiet_stays (resume_locked path).
Proof.
  assert (Within quiet_stays (keychain_delete MNEMONIC_ACCOUNT)).
  { intros w Hw. unfold keychain_delete, keychain_op. destruct (keychain_fails w) as [|[] l]; exact Hw. }
  assert (forall op keys, Within quiet_stays (preserve path op keys)) by (intros; apply code_quiet, code_preserve).
  unfold resume_locked. within.
Qed.

(** A world in order: nobody else commits, and memory and disk agree. *)
Definition orderly (w : RWorld) : Prop := alone w /\ coherent path w.
Lemma orderly_step {A} (m : RM A) w r w' :
  Within code_stays m -> Keeps path m -> m w = (r, w') -> orderly w -> orderly w'.
Proof.
  intros Hm Hk Hr [Ha Hc]. specialize (Hm w) as [_ Hm]. specialize (Hk w) as [_ Hk]. rewrite Hr in Hm, Hk.
  split; [by apply Hm|by apply Hk].
Qed.

(** The commit puts the copies into force. *)
Lemma preserve_settles op keys w op' w' p :
  orderly w -> op_leave op = Some p -> preserve path op keys w = (Ok op', w') -> settled path (preserved p) w'.
Proof.
  intros Hw Hp H. unfold preserve in H.
  assert (Hstep : forall A (m : RM A) w a w', Within code_stays m -> Keeps path m -> m w = (Ok a, w') -> orderly w -> orderly w')
    by (intros; by eapply orderly_step).
  apply rm_bind_Ok in H as (s & w1 & H1 & H). eapply Hstep in H1; [|within|by apply keeps_snapshot|done].
  apply rm_bind_Ok in H as (a & w2 & [_ ->]%of_result_Ok & H). apply rm_bind_Ok in H as (k & w2 & [_ ->]%of_result_Ok & H).
  apply rm_bind_Ok in H as (p0 & w2 & [_ ->]%of_result_Ok & H).
  apply rm_bind_Ok in H as (source & w3 & H3 & H). eapply Hstep in H3; [|within|by apply keeps_source_spaces|done].
  apply rm_bind_Ok in H as (? & w4 & [_ ->]%of_result_Ok & H). apply rm_bind_Ok in H as (? & w4 & [_ ->]%of_result_Ok & H).
  apply rm_bind_Ok in H as (op1 & w5 & H5 & H). destruct (fold_copy_Ok _ _ _ _ _ _ H5 Hp) as (p1 & Hp1 & Hsame).
  eapply Hstep in H5; [|pose proof code_password; within|apply keeps_fold, keeps_copy_password; done|done].
  apply rm_bind_Ok in H as (? & w6 & H6 & H). eapply Hstep in H6; [|within|by apply keeps_proof|done].
  apply rm_bind_Ok in H as (? & w7 & H7 & H). eapply Hstep in H7; [|within|by apply keeps_ensure_latest|done].
  apply rm_bind_Ok in H as (g & w8 & H8 & H). injection H as _ <-. destruct H7 as [Ha Hc].
  eapply mutate_settles; [done|exact Ha|exact Hc| |exact H8]. intros c s' m n Hm Hn.
  eapply lasting_published; [|exact Hn]. eapply preserved_same_rows; [exact Hsame|]. by eapply detach_preserves.
Qed.

(** What the state of a pending operation promises. *)
Definition leaving (op : PendingAccountOperation) (p : LeavePlan) (s : SyncStateV3) : Prop :=
  pending_account s = Some op /\ op_leave op = Some p /\ (op_phase op = PActivated -> preserved p s).

(** The code is there, or the copies are in force. *)
Definition code_or_copies (code : str) (p : LeavePlan) (w : RWorld) : Prop :=
  bt_get MNEMONIC_ACCOUNT (keychain w) = Some code \/ settled path (preserved p) w.

Lemma code_bind {A B} (m : RM A) (k : A -> RM B) code p w :
  Within code_stays m -> Keeps path m -> orderly w -> bt_get MNEMONIC_ACCOUNT (keychain w) = Some code ->
  (forall a w1, m w = (Ok a, w1) -> orderly w1 -> bt_get MNEMONIC_ACCOUNT (keychain w1) = Some code ->
     code_or_copies code p (k a w1).2) ->
  code_or_copies code p ((m ≫= k) w).2.
Proof.
  intros Hm Hkm Hw Hcode Hk. unfold mbind, rm_bind. destruct (m w) as [r w1] eqn:Hr.
  pose proof (orderly_step m w _ _ Hm Hkm Hr Hw) as Hw1. specialize (Hm w) as [Hc _]. rewrite Hr in Hc. cbn [snd] in Hc.
  destruct r as [a|e]; [|left; cbn; congruence]. apply Hk; [done|done|congruence].
Qed.

Lemma stays_step {A} P (m : RM A) w r w' :
  Within (stays path P) m -> m w = (r, w') -> orderly w -> settled path P w -> settled path P w'.
Proof. intros Hm Hr [Ha _] Hs. specialize (Hm w Ha) as [_ Hm]. rewrite Hr in Hm. by apply Hm. Qed.

Lemma resume_code op p code w :
  orderly w -> settled path (leaving op p) w -> bt_get MNEMONIC_ACCOUNT (keychain w) = Some code ->
  code_or_copies code p (resume_locked path w).2.
Proof.
  intros Hw Hs Hcode. unfold resume_locked.
  apply code_bind; [within|by apply keeps_preflight|done|done|]. intros u w1 H1 Hw1 Hcode1.
  eapply (stays_step (leaving op p)) in H1; [|by apply stays_preflight|done|done].
  apply code_bind; [within|by apply keeps_snapshot|done|done|]. intros [s g] w2 H2 Hw2 Hcode2.
  pose proof (round_snapshot_Ok _ _ _ _ _ H2) as Hrec.
  eapply (stays_step (leaving op p)) in H2; [|apply stays_snapshot|done|done].
  destruct (H2) as (_ & (s' & Hs' & Hop & Hp & Hact) & _). rewrite Hrec in Hs'. injection Hs' as <-. cbn [fst]. rewrite Hop.
  apply code_bind; [within|apply keeps_of_result|done|done|]. intros o w3 [[= <-] ->]%of_result_Ok _ _.
  apply code_bind; [within|apply keeps_require|done|done|]. intros o w3 [_ ->]%require_Ok _ _.
  apply code_bind; [within|apply keeps_of_result|done|done|]. intros o' w3 [_ ->]%of_result_Ok _ _.
  apply code_bind; [within|by apply keeps_proof|done|done|]. intros keys w3 H3 Hw3 Hcode3.
  assert (Hdone : op_phase op = PActivated -> settled path (preserved p) w3).
  { intros Hph. eapply (stays_step _ _ _ _ _ (stays_proof path (preserved p) Hplace op)); [exact H3|done|].
    eapply settled_mono; [|exact H2]. intros s0 (_ & _ & H). by apply H. }
  apply code_bind; [|destruct (op_phase op =?= PActivated); [apply keeps_ret|by apply keeps_preserve]|done|done|].
  { pose proof code_preserve. within. }
  intros op' w4 H4 Hw4 _. assert (H5 : settled path (preserved p) w4).
  { destruct (op_phase op =?= PActivated) eqn:Hph.
    - injection H4 as _ <-. apply Hdone. by apply bool_decide_eq_true in Hph.
    - eapply preserve_settles; [exact Hw3|exact Hp|exact H4]. }
  right. destruct Hw4 as [Ha _]. by destruct (stays_cleanup path (preserved p) Hplace op' w4 Ha) as [_ H]; apply H.
Qed.

(** Storing a prepared operation puts it into force. *)
Lemma store_settles op p w u w' :
  orderly w -> op_leave op = Some p -> op_phase op = PPrepared -> store path op w = (Ok u, w') ->
  settled path (leaving op p) w'.
Proof.
  intros [Ha Hc] Hp Hph (g & w1 & H & Hret)%rm_bind_Ok. injection Hret as _ <-.
  eapply mutate_settles; [done|exact Ha|exact Hc| |exact H]. intros c s m n Hm Hn. unfold stored in Hm. ok_inv.
  apply published_Ok in Hn as [_ Hpend _ _ _]; [|by right]. split; [by rewrite Hpend|]. split; [done|]. by rewrite Hph.
Qed.

(** What the caller is told. *)
Definition told (p : LeavePlan) (r : result AppError LeaveReceipt) : Prop :=
  forall receipt, r = Ok receipt -> lr_mappings receipt = map ph_mapping (lp_hosts p).

Lemma leave_end id plan result code w :
  orderly w -> code_or_copies code plan w ->
  let m := (s ← snapshot path;
    let mappings := map ph_mapping (lp_hosts plan) in
    mret (mkLeaveReceipt id (is_ok (E := AppError) (A := unit) result)
            (if is_none (account s.1) then N.of_nat (length mappings) else 0%N) mappings
            (match result with
             | Err _ => Some (lit "local preservation or credential cleanup is pending; resume the operation")
             | Ok _ => None
             end))) in
  code_or_copies code plan (m w).2 /\ told plan (m w).1.
Proof.
  intros [Ha Hc] Hw. cbv zeta. unfold mbind, rm_bind. pose proof (stays_snapshot path (preserved plan) w Ha) as [_ Hs].
  assert (Hm : Within code_stays (snapshot path)) by within. specialize (Hm w) as [Hcode _].
  destruct (snapshot path w) as [[s|e] w']; cbn [fst snd] in *.
  all: assert (Hend : code_or_copies code plan w') by (destruct Hw as [Hw|Hw]; [left; congruence|right; by apply Hs]).
  all: split; [exact Hend|]; intros receipt; by intros [= <-].
Qed.

(** Until the operation is stored, the code stays. *)
Definition leave_kept (code : str) (r : result AppError LeaveReceipt * RWorld) : Prop :=
  bt_get MNEMONIC_ACCOUNT (keychain r.2) = Some code \/ exists p, settled path (preserved p) r.2 /\ told p r.1.

Lemma leave_bind {A} (m : RM A) (k : A -> RM LeaveReceipt) code w :
  Within code_stays m -> Keeps path m -> orderly w -> bt_get MNEMONIC_ACCOUNT (keychain w) = Some code ->
  (forall a w1, m w = (Ok a, w1) -> orderly w1 -> bt_get MNEMONIC_ACCOUNT (keychain w1) = Some code ->
     leave_kept code (k a w1)) ->
  leave_kept code ((m ≫= k) w).
Proof.
  intros Hm Hkm Hw Hcode Hk. unfold mbind, rm_bind. destruct (m w) as [r w1] eqn:Hr.
  pose proof (orderly_step m w _ _ Hm Hkm Hr Hw) as Hw1. specialize (Hm w) as [Hc _]. rewrite Hr in Hc. cbn [snd] in Hc.
  destruct r as [a|e]; [|left; cbn; congruence]. apply Hk; [done|done|congruence].
Qed.

Lemma orderly_resume w : orderly w -> orderly (resume_locked path w).2.
Proof.
  intros [Ha Hc]. split; [|by apply (keeps_resume path Hplace)]. revert Ha. apply quiet_resume.
Qed.

Lemma leave_code code w :
  orderly w -> bt_get MNEMONIC_ACCOUNT (keychain w) = Some code -> leave_kept code (leave_account path w).
Proof.
  intros Hw Hcode. unfold leave_account.
  apply leave_bind; [within|by apply keeps_preflight|done|done|]. intros u w1 _ Hw1 Hcode1.
  apply leave_bind; [within|by apply keeps_snapshot|done|done|]. intros s w2 _ Hw2 Hcode2.
  apply leave_bind; [within|apply keeps_require|done|done|]. intros ? w3 [_ ->]%require_Ok _ _.
  apply leave_bind; [within|apply keeps_require|done|done|]. intros ? w3 [_ ->]%require_Ok _ _.
  apply leave_bind; [within|by apply keeps_fresh_gate|done|done|]. intros p w4 _ Hw4 Hcode4.
  apply leave_bind; [within|apply keeps_require|done|done|]. intros ? w5 [_ ->]%require_Ok _ _.
  apply leave_bind; [within|by apply keeps_snapshot|done|done|]. intros s' w6 _ Hw6 Hcode6.
  apply leave_bind; [within|apply keeps_of_result|done|done|]. intros acc w7 [_ ->]%of_result_Ok _ _.
  apply leave_bind; [within|by apply keeps_source_spaces|done|done|]. intros sps w8 _ Hw8 Hcode8.
  apply leave_bind; [within|apply keeps_of_result|done|done|]. intros ? w9 [_ ->]%of_result_Ok _ _.
  apply leave_bind; [within|apply keeps_plan|done|done|]. intros plan w10 _ Hw10 Hcode10.
  apply leave_bind; [within|apply keeps_new_id|done|done|]. intros id w11 _ Hw11 Hcode11.
  apply leave_bind; [within|by apply keeps_store|done|done|]. intros ? w12 H12 Hw12 Hcode12.
  apply (store_settles _ plan) in H12; [|done..]. pose proof (resume_code _ _ _ _ Hw12 H12 Hcode12) as H13.
  pose proof (orderly_resume w12 Hw12) as Hw13. unfold mbind at 1, rm_bind at 1, attempt.
  destruct (resume_locked path w12) as [result w13]. cbn [snd] in H13, Hw13.
  destruct (leave_end id plan result code w13 Hw13 H13) as [[Hc|Hs] Ht]; [by left|right; by exists plan].
Qed.
End WholeLeave.

(** ** The plan copies everything, under identifiers of its own *)

Section PlanCopies.
Context {R : RuntimeEnv}.

Lemma fresh_id_unused fuel used w id w' : fresh_id fuel used w = (Ok id, w') -> id ∉ used.
Proof.
  revert w. induction fuel as [|fuel IH]; intros w H; cbn [fresh_id] in H; [done|].
  apply rm_bind_Ok in H as (x & w1 & _ & H). destruct (existsb _ used) eqn:He; [by eapply IH|].
  injection H as <- <-. intros Hin. enough (existsb (fun y => y =?= x) used = true) by congruence.
  apply existsb_exists. exists x. split; [by apply list_elem_of_In|by apply bool_decide_eq_true].
Qed.

(** A draw takes a random value, and without one it fails: the fuel is enough. *)
Lemma new_id_draws n w : (new_id n w).1 = Err (app_error "cannot create local preservation identity") \/
  length (randoms w) = S (length (randoms (new_id n w).2)).
Proof.
  unfold new_id, fill, mbind, rm_bind. destruct (randoms w) as [|[b|] l] eqn:Hr; cbn; [by left|by right|by left].
Qed.
Lemma fresh_id_enough fuel fuel' used w :
  (length (randoms w) < fuel)%nat -> (fuel <= fuel')%nat -> fresh_id fuel' used w = fresh_id fuel used w.
Proof.
  revert fuel' w. induction fuel as [|fuel IH]; intros [|fuel'] w Hf Hle; try lia. cbn [fresh_id].
  unfold mbind, rm_bind. destruct (new_id_draws 8 w) as [He|Hl]; destruct (new_id 8 w) as [[id|e] w1]; try done.
  cbn [snd] in Hl. destruct (existsb _ used); [|done]. apply IH; lia.
Qed.

Definition source_id (r : PlanRow) : str := rid (lrecord (pr_source r)).

(** What was assigned so far to [todo]. *)
Record assigned (used : list str) (todo : list (str * LocalRecord)) (st : Assigned) : Prop := {
  as_all : map (fun r => (pr_space r, pr_source r)) (as_rows st) = todo;
  as_fresh : NoDup (map pr_id (as_rows st)) /\ (forall id, id ∈ map pr_id (as_rows st) -> id ∉ used);
  as_kept : forall id, id ∈ used \/ id ∈ map pr_id (as_rows st) -> id ∈ as_used st;
  as_map : forall r, r ∈ as_rows st -> bt_get (source_id r) (as_remap st) = Some (pr_id r)
}.

Lemma assign_row_assigned local used todo space row st w st' w' :
  assigned used todo st -> assign_row local space st row w = (Ok st', w') -> assigned used (todo ++ [(space, row)]) st'.
Proof.
  intros [Hall [Hnd Hfr] Hk Hm] H. unfold assign_row in H. cbv zeta in H.
  apply rm_bind_Ok in H as (u & w1 & [Hnew ->]%require_Ok & H). apply rm_bind_Ok in H as (id & w2 & Hid & H).
  injection H as <- _. apply fresh_id_unused in Hid. apply negb_true_iff, orb_false_iff in Hnew as [_ Hnew].
  split; cbn [as_rows as_used as_remap].
  - by rewrite map_app, Hall.
  - rewrite map_app. split.
    + apply NoDup_app. split; [done|]. split; [|apply NoDup_singleton]. intros x Hx ->%list_elem_of_singleton. apply Hid, Hk. by right.
    + intros x [Hx|Hx]%elem_of_app; [by apply Hfr|]. apply list_elem_of_singleton in Hx as ->. intros Hu. apply Hid, Hk. by left.
  - rewrite map_app. intros x [Hx|[Hx|Hx]%elem_of_app]; [right; apply Hk; by left|right; apply Hk; by right|].
    apply list_elem_of_singleton in Hx as ->. left.
  - intros r [Hr|Hr]%elem_of_app.
    + rewrite bt_get_insert_ne; [by apply Hm|]. intros Heq. unfold bt_contains_key in Hnew. by rewrite Heq, (Hm r Hr) in Hnew.
    + apply list_elem_of_singleton in Hr as ->. apply bt_get_insert_eq.
Qed.

Lemma fold_rm_inv {A B} (I : list A -> B -> Prop) (f : B -> A -> RM B) l :
  (forall done acc x w acc' w', I done acc -> f acc x w = (Ok acc', w') -> I (done ++ [x]) acc') ->
  forall done acc w acc' w', I done acc -> fold_rm f acc l w = (Ok acc', w') -> I (done ++ l) acc'.
Proof.
  intros Hf. induction l as [|x l IH]; intros done acc w acc' w' Hi H; cbn [fold_rm] in H.
  - injection H as <- _. by rewrite app_nil_r.
  - apply rm_bind_Ok in H as (acc1 & w1 & H1 & H). rewrite (cons_middle x done l), app_assoc. eapply IH; [|exact H]. by eapply Hf.
Qed.

(** The live rows of the source spaces. *)
Definition live_sources (sps : btree SpaceStateV3) : list (str * LocalRecord) :=
  flat_map (fun e : str * SpaceStateV3 => map (pair e.1) (live_rows e.2)) sps.

Lemma assign_all s sps w st w' :
  assign s sps w = (Ok st, w') -> assigned (local_ids s ++ space_ids sps) (live_sources sps) st.
Proof.
  unfold assign. intros H. set (used := local_ids s ++ space_ids sps) in *.
  apply (fold_rm_inv (fun l st => assigned used (live_sources l) st)) with (done := []) in H; [exact H| |].
  - clear. intros l acc [id sp] w acc' w' Hi H. unfold live_sources. rewrite flat_map_app. cbn [flat_map fst snd]. rewrite app_nil_r.
    apply (fold_rm_inv (fun rows st => assigned used (live_sources l ++ map (pair id) rows) st)) with (done := []) in H; [exact H| |].
    + clear. intros rows acc row w acc' w' Hi H. rewrite map_app, app_assoc. by eapply assign_row_assigned.
    + cbn [map]. by rewrite app_nil_r.
  - split; cbn; [done|split; [apply NoDup_nil_2|by intros ? ?%elem_of_nil]| |by intros ? ?%elem_of_nil].
    intros id [Hid|Hid]; [done|by apply elem_of_nil in Hid].
Qed.

(** Which row a planned copy is of. *)
Definition origin_of (r : PlanRow) : str * str * str := (pr_space r, source_id r, pr_id r).
Definition host_origin (h : PlannedHost) : str * str * str :=
  (source_space_id (ph_mapping h), source_host_id (ph_mapping h), local_host_id (ph_mapping h)).
Definition is_group_row (r : PlanRow) : bool := rkind (lrecord (pr_source r)) =?= KGroup.
Definition group_origin (g : PlannedGroup) : str * str * str := (pg_source_space_id g, source_group_id g, local_group_id g).

(** A new row of this device that no relay knows. *)
Definition own_copy (s : SyncStateV3) (id : str) (l : LocalRecord) : Prop :=
  rid (lrecord l) = id /\ rversion (lrecord l) = 1%N /\ rdevice_id (lrecord l) = device_id s /\ lseq l = 0%N /\ ldirty l = false.

Record copied (s : SyncStateV3) (rows : list PlanRow) (c : Copied) : Prop := {
  cp_all_hosts : map host_origin (cp_hosts c) = map origin_of (List.filter (fun r => negb (is_group_row r)) rows);
  cp_all_groups : map group_origin (cp_groups c) = map origin_of (List.filter is_group_row rows);
  cp_own_hosts : forall h, h ∈ cp_hosts c -> own_copy s (local_host_id (ph_mapping h)) (ph_local h);
  cp_own_groups : forall g, g ∈ cp_groups c -> own_copy s (local_group_id g) (pg_local g)
}.

Lemma copy_row_copied s at_ms remap rows c row c' :
  copied s rows c -> copy_row s at_ms remap c row = Ok c' -> copied s (rows ++ [row]) c'.
Proof.
  intros [Hh Hg Oh Og] H. unfold copy_row in H. fold (is_group_row row) in H.
  split; rewrite ?List.filter_app; cbn [List.filter]; destruct (is_group_row row) eqn:Hk; cbn [negb];
    unfold copy_group, copy_host in H; cbv zeta in H; ok_inv; cbn [cp_hosts cp_groups]; rewrite ?app_nil_r, ?map_app, ?Hh, ?Hg; try done.
  - intros h [Hin|Hin]%elem_of_app; [by apply Oh|]. by apply list_elem_of_singleton in Hin as ->.
  - intros g [Hin|Hin]%elem_of_app; [by apply Og|]. by apply list_elem_of_singleton in Hin as ->.
Qed.

Lemma copy_rows_copied s at_ms remap rows : forall before c c',
  copied s before c -> try_fold (copy_row s at_ms remap) c rows = Ok c' -> copied s (before ++ rows) c'.
Proof.
  induction rows as [|row rows IH]; intros before c c' Hc H; cbn [try_fold] in H; ok_inv; [by rewrite app_nil_r|].
  rewrite (cons_middle row before rows), app_assoc. eapply IH; [|exact H]. by eapply copy_row_copied.
Qed.
End PlanCopies.

(** Leaving keeps memory and disk together.  Whatever the relay answers, whichever
    system call or keychain access fails and whatever other threads commit meanwhile:
    after [leave_account], and after resuming it, memory and the state file agree as they
    did before, every crash on the way finds a state file to start from, and the
    generation of the state has not fallen. *)
Theorem leave_keeps_coherent {R : RuntimeEnv} path w
    (Hplace : forall v digest, with_file_name path (backup_name v digest) <> path) (Hw : coherent path w) :
  (let w' := (leave_account path w).2 in coherent path w' /\ grows (core w) (core w') /\ only_durable path w w') /\
  (let w' := (resume_locked path w).2 in coherent path w' /\ grows (core w) (core w') /\ only_durable path w w').
Proof.
  destruct (keeps_leave path Hplace w) as [Gl Cl]. destruct (keeps_resume path Hplace w) as [Gr Cr].
  destruct (Cl Hw), (Cr Hw). done.
Qed.

(** C12. Leaving loses no password.  Whatever fails and wherever it stops, [leave_account]
    and its resumption leave every password of the keychain as it is; a new entry holds
    the value of an entry that was there; and the sync code is there unchanged, or gone. *)
Theorem leave_keeps_passwords {R : RuntimeEnv} path w :
  copies_only w (leave_account path w).2 /\ copies_only w (resume_locked path w).2.
Proof. split; [apply copies_leave|apply copies_resume]. Qed.


(** C14. The commit of leaving.  A [detach] that succeeds puts the copies of the plan at
    free places of the local hosts and groups, each at one place; every other row stays at
    its place with its value, and nothing else comes.  The account, its spaces, its
    rotation and its gate are gone, the operation is marked as activated, and the keys,
    the identity and the relay of the device are as they were. *)
Theorem detach_keeps_rows {R : RuntimeEnv} op s n (Hok : detach op s = Ok n) :
  exists p, op_leave op = Some p /\
    joined (l_hosts (local s)) (planned_hosts p) (l_hosts (local n)) /\
    joined (l_groups (local s)) (planned_groups p) (l_groups (local n)) /\
    account n = None /\ spaces n = [] /\ rotation n = None /\ migration_gate n = None /\
    pending_account n = Some (with_phase op PActivated) /\
    l_keys (local n) = l_keys (local s) /\ import_receipts (local n) = import_receipts (local s) /\
    device_id n = device_id s /\ relay_url n = relay_url s.
Proof.
  apply detach_Ok in Hok as (p & hosts & groups & Hp & Hh & Hg & ->). exists p. by split_and!.
Qed.

