(* ===== verification/RecordRotate.v ===== *)
(** * RecordRotate: moving a record account to a new sync code

    [src-tauri/src/sync/record_rotation.rs]: the source account and its spaces are frozen at
    the relay, pulled once more as a whole, sealed again under new keys and pushed to new
    chains.  The new code and account come into force only after the relay has given every
    row back as it was planned.  The plan is a pending operation of the state, so that every
    step can be resumed; the source is never deleted.  Creating and freezing a chain are not
    recorded among the calls of the world. *)

From stdpp Require Import gmap.
From S2P Require Import Prelude Text BTreeMap SlotRules ImportText ImportLoad HostText SpaceFiles Json SyncRecord RecordsTypes RecordsValidate RecordsState RepositoryCore RecordGroups Repository GroupEdit GroupOrderEdit StateCheck Crypto Relay RecordMerge RecordPush RecordLibrary RecordRuntime RecordRound RecordLeave.
Import RecordRotation.

(** Parameters: the word list's generator of sync codes from random bytes, the operating
    system and the version the program was built for. *)
Class AccountBuild := {
  generate_in : option (list N) -> result str str;
  os : str;
  app_version : str
}.
(** The JSON text of a value, which is read back, and of a whole source. *)
Class RotationText {M : MergeEnv} := {
  json_to_vec : Json -> option (list N);
  source_to_vec : AccountState -> btree SpaceStateV3 -> option (list N);
  json_text : forall v b, json_to_vec v = Some b -> json_from_slice b = Some v
}.

Record AccountCreation := mkCreation {
  ac_code : str; ac_operation_id : str; ac_complete : bool; ac_pending_error : option str
}.

Definition FEATURE_FREEZE : str := lit "freeze".
Definition supports (i : RelayInfo) (feature : str) : bool := existsb (fun f => f =?= feature) (info_features i).

(** ** Updates *)

Definition with_account (op : PendingAccountOperation) (a : AccountState) : PendingAccountOperation :=
  mkPending (op_id op) (op_device_name op) (op_kind op) (op_phase op) (op_migration_gate op) (op_relay_url op)
    (staged_code_account op) a (op_space_id op) (prepared_space op) (op_leave op) (op_rotation op).
Definition with_rotation (op : PendingAccountOperation) (p : RotationPlan) : PendingAccountOperation :=
  mkPending (op_id op) (op_device_name op) (op_kind op) (op_phase op) (op_migration_gate op) (op_relay_url op)
    (staged_code_account op) (prepared_account op) (op_space_id op) (prepared_space op) (op_leave op) (Some p).
Definition with_sealed (a : AccountState) (sealed : btree SealedRecord) : AccountState :=
  mkAccount (chain_id a) (a_cursor_seq a) (a_baseline_established a) (remote_schema_version a) (frozen a) (a_records a)
    sealed (chain_deletes a).
Definition with_cursor (a : AccountState) (cursor : N) : AccountState :=
  mkAccount (chain_id a) cursor true (remote_schema_version a) (frozen a) (a_records a) (a_sealed a) (chain_deletes a).
Definition new_account (chain : str) : AccountState := mkAccount chain 0 false None None [] [] [].

Definition set_step (p : RotationPlan) (s : RotationStep) : RotationPlan :=
  mkRotationPlan s (source_code_account p) (source_account p) (source_spaces p) (space_ids p) (target_spaces p)
    (frozen_chains p) (created p) (rotation_digest p).
Definition set_source (p : RotationPlan) (a : AccountState) (sps : btree SpaceStateV3) : RotationPlan :=
  mkRotationPlan (step p) (source_code_account p) a sps (space_ids p) (target_spaces p) (frozen_chains p) (created p)
    (rotation_digest p).
Definition set_space_ids (p : RotationPlan) (ids : btree str) : RotationPlan :=
  mkRotationPlan (step p) (source_code_account p) (source_account p) (source_spaces p) ids (target_spaces p)
    (frozen_chains p) (created p) (rotation_digest p).
Definition set_targets (p : RotationPlan) (targets : btree SpaceStateV3) : RotationPlan :=
  mkRotationPlan (step p) (source_code_account p) (source_account p) (source_spaces p) (space_ids p) targets
    (frozen_chains p) (created p) (rotation_digest p).
Definition set_digest (p : RotationPlan) (d : str) : RotationPlan :=
  mkRotationPlan (step p) (source_code_account p) (source_account p) (source_spaces p) (space_ids p) (target_spaces p)
    (frozen_chains p) (created p) d.
Definition set_chains (p : RotationPlan) (frozen created : bset) : RotationPlan :=
  mkRotationPlan (step p) (source_code_account p) (source_account p) (source_spaces p) (space_ids p) (target_spaces p)
    frozen created (rotation_digest p).

Definition the_plan (op : PendingAccountOperation) : result AppError RotationPlan := ok_or (op_rotation op) panic.

(** ** Records of the source and of the target *)

Section Records.
Context {R : RuntimeEnv} {T : RotationText}.

(** [open]: the decrypted value of an envelope that says what the envelope says. *)
Definition open_value (keys : ChainKeys) (e : Envelope) : result AppError Json :=
  bytes ← map_err (fun _ => app_error "rotation source ciphertext could not be authenticated")
            (open keys (ekind e) (eid_hash e) (envelope_body e));
  value ← ok_or (json_from_slice bytes) (app_error "rotation source record is malformed");
  o ← ok_or (as_object value) (app_error "rotation source record is malformed");
  _ ← guard_err (negb (length o =? 7)%nat || existsb (fun k => negb (in_strs RECORD_FIELDS k)) (bt_keys o)
                 || negb ((bt_get (lit "kind") o ≫= as_str) =?= Some (ekind e))
                 || negb ((bt_get (lit "deleted") o ≫= as_bool) =?= Some (edeleted e))
                 || negb (is_some_and (fun id => negb (id =?= []) && (id_hash keys (ekind e) id =?= eid_hash e))
                            (bt_get (lit "id") o ≫= as_str))
                 || negb (is_some_and (fun v => (0 <? v)%N) (bt_get (lit "version") o ≫= as_u64))
                 || is_none (bt_get (lit "updated_at_ms") o ≫= as_u64)
                 || negb (is_some_and is_slot_id (bt_get (lit "device_id") o ≫= as_str)))
        (app_error "rotation source record identity is inconsistent");
  Ok value.

(** [envelope]: a value sealed under its identity. *)
Definition seal_value (keys : ChainKeys) (kind id : str) (value : Json) (nonce : option (list N))
  : result AppError Envelope :=
  bytes ← ok_or (json_to_vec value) (app_error "cannot encode rotation record");
  s ← seal keys kind id bytes nonce;
  deleted ← ok_or (json_get (lit "deleted") value ≫= as_bool) (app_error "invalid rotation tombstone");
  Ok (mkEnvelope (sb_id_hash s) kind 0 (sb_nonce s) (sb_ciphertext s) deleted).

Definition row_size (e : Envelope) : N :=
  N.of_nat (str_len (eciphertext e) + str_len (enonce e) + str_len (ekind e) + str_len (eid_hash e)).
Definition rows_size (rows : list Envelope) : N := foldl (fun n e => (n + row_size e)%N) 0%N rows.
Definition limits (rows : list Envelope) : result AppError unit :=
  guard_err ((4096 <? N.of_nat (length rows))%N || (1024 * 1024 <? rows_size rows)%N)
    (app_error "rotation exceeds the per-chain storage budget; no source freeze was attempted").

Definition dirty (records : btree LocalRecord) (sealed : btree SealedRecord) : bool :=
  existsb ldirty (bt_values records) || existsb sdirty (bt_values sealed).

(** The section of the source that a whole pull gives. *)
Definition open_all (keys : ChainKeys) (rows : list Envelope) : result AppError unit :=
  _ ← limits rows;
  try_for (fun e => _ ← open_value keys e; Ok tt) rows.
Definition whole_account (source : AccountState) (keys : ChainKeys) (pulled : PullResponse) : result AppError AccountState :=
  _ ← open_all keys (pull_records pulled);
  let merged := merge_account source keys pulled 0 in
  _ ← guard_err (negb (mo_gate merged =?= Compatible)) (app_error "source account format prevents rotation");
  _ ← guard_err (negb (mo_conflicts merged =?= []) || dirty (a_records (mo_section merged)) (a_sealed (mo_section merged)))
        (app_error "finish or review source account changes before rotation");
  Ok (mo_section merged).
Definition whole_space (old : SpaceStateV3) (child : ChainKeys) (pulled : PullResponse) : result AppError SpaceStateV3 :=
  _ ← open_all child (pull_records pulled);
  let merged := merge_space old child pulled 0 Compatible in
  _ ← guard_err (negb (mo_gate merged =?= Compatible) || negb (mo_conflicts merged =?= [])
                 || dirty (s_records (mo_section merged)) (s_sealed (mo_section merged)))
        (app_error "finish or review source space changes before rotation");
  Ok (mo_section merged).
End Records.

(** ** What it asks of the world *)

Section World.
Context {R : RuntimeEnv} {T : RotationText} (state_path : str).

Definition relay_create (url chain token : str) : RM (lresult unit) := fun w =>
  let '(n, answer) := net_create_chain url (net w) chain token in
  (Ok answer, mkRW (files w) (core w) (keychain w) (keychain_fails w) n (times w) (randoms w) (interrupts w) (calls w)).
Definition relay_freeze (url chain token : str) : RM (lresult unit) := fun w =>
  let '(n, answer) := net_freeze_chain url (net w) chain token in
  (Ok answer, mkRW (files w) (core w) (keychain w) (keychain_fails w) n (times w) (randoms w) (interrupts w) (calls w)).
Definition relay_info (url : str) : RM (lresult RelayInfo) := fun w =>
  let '(n, answer) := net_info url (net w) in
  (Ok answer, mkRW (files w) (core w) (keychain w) (keychain_fails w) n (times w) (randoms w) (interrupts w) (calls w)).

Definition rotation_id : RM str :=
  b ← fill 16;
  b ← of_result (ok_or b (app_error "cannot create rotation identity"));
  mret (hex b).
Definition generate_mnemonic {B : AccountBuild} : RM str :=
  b ← fill 32;
  of_result (map_err (fun e => AOther (lit "cannot generate a sync code: " ++ e)) (generate_in b)).
(** [ChainKeys::generate]. *)
Definition generate_keys : RM ChainKeys := random ← fill 96; of_result (generate random).

Definition source_space (url : str) (keys : ChainKeys) (a : AccountState) (cached sps : btree SpaceStateV3)
    (row : LocalRecord) : RM (btree SpaceStateV3) :=
  let id := rid (lrecord row) in
  let old := default default_space (bt_get id cached) in
  _ ← require (negb (missing old)) (app_error "a source space is missing; rotation did not preserve it");
  k ← of_result (space_keys a keys id);
  child ← of_result (ok_or k (app_error "source space credentials unavailable"));
  r ← relay_pull url id (ck_auth_token child) 0;
  pulled ← of_result (map_err (fun _ => app_error "a source space could not be read; rotation did not preserve it") r);
  section ← of_result (whole_space old child pulled);
  mret (bt_insert id section sps).

Definition source_full (source : AccountState) (keys : ChainKeys) (cached : btree SpaceStateV3)
  : RM (AccountState * btree SpaceStateV3) :=
  s ← snapshot state_path;
  let url := relay_url s.1 in
  _ ← of_result (connect url);
  r ← relay_pull url (ck_chain_id keys) (ck_auth_token keys) 0;
  pulled ← of_result (map_err relay_error r);
  a ← of_result (whole_account source keys pulled);
  sps ← fold_rm (source_space url keys a cached) []
          (List.filter (fun r => (rkind (lrecord r) =?= KSpace) && RecordLibrary.live_record r) (bt_values (a_records a)));
  _ ← require (negb (existsb (fun e : str * SpaceStateV3 => selected e.2 && negb (bt_contains_key e.1 sps)) cached))
        (app_error "a selected source space is unavailable");
  mret (a, sps).

(** ** Sync codes *)

Definition code (name : str) : RM (option str) :=
  relabel (fun _ => app_error "rotation code could not be read") (keychain_get name).

Definition keys_for (op : PendingAccountOperation) (provided : option str) : RM (ChainKeys * str) :=
  phrase ← match provided with
           | Some s => of_result (normalize_mnemonic s)
           | None =>
               name ← of_result (if op_phase op =?= PActivated then Ok MNEMONIC_ACCOUNT
                                 else ok_or (staged_code_account op) panic);
               stored ← code name;
               of_result (ok_or stored (app_error "re-enter the pending new sync code to resume rotation"))
           end;
  keys ← of_result (derive_account phrase);
  _ ← require (ck_chain_id keys =?= chain_id (prepared_account op))
        (app_error "new code does not match the pending rotation");
  mret (keys, phrase).

Definition source_code (op : PendingAccountOperation) : RM (option str) :=
  p ← of_result (the_plan op);
  archived ← code (source_code_account p);
  match archived with
  | Some s => mret (Some s)
  | None =>
      if op_phase op =?= PActivated then mret None
      else
        c ← code MNEMONIC_ACCOUNT;
        s ← of_result (ok_or c (app_error "source sync code is unavailable"));
        keys ← of_result (derive_account s);
        _ ← require (ck_chain_id keys =?= chain_id (source_account p))
              (app_error "source code backup is unavailable; review pending rotation");
        mret (Some s)
  end.

(** ** Keeping the plan *)

(** The newest format seen of either account stays in the plan. *)
Definition schema_max (a b : AccountState) : AccountState :=
  set_remote_schema a (opt_max (remote_schema_version a) (remote_schema_version b)).
Definition set_source_account (p : RotationPlan) (a : AccountState) : RotationPlan := set_source p a (source_spaces p).
Definition keep_observed (op old : PendingAccountOperation) : PendingAccountOperation :=
  let op := with_account op (schema_max (prepared_account op) (prepared_account old)) in
  match op_rotation op, op_rotation old with
  | Some p, Some q => with_rotation op (set_source_account p (schema_max (source_account p) (source_account q)))
  | _, _ => op
  end.
Definition future_schema (a : AccountState) : bool :=
  is_some_and (fun v => (ACCOUNT_SCHEMA <? v)%N) (remote_schema_version a).
Definition future (op : PendingAccountOperation) : bool :=
  future_schema (prepared_account op) || is_some_and (fun p => future_schema (source_account p)) (op_rotation op).

Definition stored_plan (op : PendingAccountOperation) (s : SyncStateV3) : result AppError SyncStateV3 :=
  _ ← guard_err (negb (relay_url s =?= op_relay_url op)
                 || is_some_and (fun p => negb (op_id p =?= op_id op)) (pending_account s)) superseded;
  let op := from_option (keep_observed op) op (pending_account s) in
  Ok (if future op
      then set_pending s (Some op) (if is_some (account s) then true else shared_writes_blocked s)
             (Some (lit "a pending rotation account uses a newer format; update Lunport"))
      else set_pending s (Some op) (shared_writes_blocked s) (last_error s)).

(** [accepted]: the relay has already done its part, so the plan stays in memory also when
    it cannot be saved. *)
Definition store_plan (op : PendingAccountOperation) (accepted : bool) : RM unit :=
  if negb accepted then _ ← mutate_records state_path (stored_plan op); mret tt
  else commit_retained state_path (stored_plan op) "invalid rotation receipt" "record generation exhausted".

Definition retained_gate (op : PendingAccountOperation) (s : SyncStateV3) : option SyncStateV3 :=
  if negb (relay_url s =?= op_relay_url op) then None
  else
    latest ← opt_filter (fun p => op_id p =?= op_id op) (pending_account s);
    Some (set_pending s (Some (keep_observed latest op)) (if is_some (account s) then true else shared_writes_blocked s)
            (Some (lit "an authenticated rotation account gate could not be saved"))).
Definition retain_blocked_gate (op : PendingAccountOperation) : RM unit :=
  r ← attempt (store_plan op false);
  match r with
  | Err e =>
      c ← lock_core state_path;
      _ ← match records c ≫= retained_gate op with
          | Some s => put_core (set_blocked c s
              (lit "an authenticated rotation gate could not be saved; repair record storage before resuming"))
          | None => mret tt
          end;
      fail e
  | Ok _ => mret tt
  end.

Definition current : RM PendingAccountOperation :=
  s ← snapshot state_path;
  of_result (ok_or (pending_account s.1) (app_error "no rotation is pending")).

Definition ensure_latest_plan (op : PendingAccountOperation) : RM unit :=
  _ ← preflight state_path;
  s ← snapshot state_path;
  p ← of_result (ok_or (opt_filter (fun p => op_id p =?= op_id op) (pending_account s.1)) superseded);
  require (negb (is_some_and future_schema (account s.1) || future p || account_migration_pending s.1))
    (app_error "latest account observation blocks rotation effects").

(** ** The source is still the source *)

Definition source_proof (op : PendingAccountOperation) (keys : ChainKeys) : RM AccountState :=
  _ ← preflight state_path;
  p ← of_result (the_plan op);
  _ ← require (ck_chain_id keys =?= chain_id (source_account p)) (app_error "source code identity changed");
  s ← snapshot state_path;
  let source := match opt_filter (fun a => chain_id a =?= ck_chain_id keys) (account s.1) with
                | Some a => schema_max (source_account p) a
                | None => source_account p
                end in
  _ ← of_result (connect (op_relay_url op));
  r ← relay_pull (op_relay_url op) (ck_chain_id keys) (ck_auth_token keys) 0;
  pulled ← of_result (map_err relay_error r);
  let merged := merge_account source keys pulled 0 in
  if mo_gate merged =?= Compatible then mret (mo_section merged)
  else
    let op := match opt_filter (fun v => (ACCOUNT_SCHEMA <? v)%N) (mo_observed_schema merged) with
              | Some v => with_rotation op (set_source_account p (set_remote_schema (source_account p) (Some v)))
              | None => op
              end in
    _ ← retain_blocked_gate op;
    fail (app_error "source format prevents rotation or credential cleanup").
End World.

(** ** The copy *)

Section Targets.
Context {R : RuntimeEnv} {T : RotationText} {B : AccountBuild}.

Definition marker (op : PendingAccountOperation) (p : RotationPlan) (phase : MigrationPhase) : MigrationGate :=
  mkGate (op_id op) (rotation_digest p) phase.

(** The keys of the new spaces: new identifiers with generated secrets. *)
Definition add_child (children : btree ChainKeys) (e : str * str) : RM (btree ChainKeys) :=
  generated ← generate_keys;
  child ← of_result (from_parts e.2 (ck_auth_token generated) (enc_key_b64 generated));
  mret (bt_insert e.1 child children).

Definition source_schema (a : AccountState) : N :=
  default 3%N (bt_get (record_key KMeta ACCOUNT_META_ID) (a_records a)
               ≫= (fun r => json_u64 (lit "schema_version") (rpayload (lrecord r)))).

Definition remap_id (mapping : btree str) (v : Json) : Json :=
  match as_str v ≫= (fun id => bt_get id mapping) with Some id => JString id | None => v end.
Definition remap_spaces (mapping : btree str) (payload : Json) : Json :=
  match json_get (lit "spaces") payload with
  | Some (JArray ids) => default payload (json_set (lit "spaces") (JArray (map (remap_id mapping) ids)) payload)
  | _ => payload
  end.
Definition copied_meta (schema : N) (m : MigrationGate) : Json :=
  JObject [(lit "created_by_app_version", JString app_version); (lit "migration", to_value m);
           (lit "schema_version", JNumber (PosInt schema))].

(** A row of the account under the new identifiers. *)
Definition with_body (r : Rec) (id : str) (payload : Json) : Rec :=
  mkRec (rkind r) id (rversion r) (rupdated_at_ms r) (rdevice_id r) (rdeleted r) payload.
Definition copied_record (schema : N) (m : MigrationGate) (mapping : btree str) (r : Rec) : result AppError Rec :=
  if (rkind r =?= KMeta) && (rid r =?= ACCOUNT_META_ID) then Ok (with_body r (rid r) (copied_meta schema m))
  else if (rkind r =?= KSpace) && negb (rdeleted r) then
    id ← ok_or (bt_get (rid r) mapping) (app_error "source space mapping missing");
    payload ← ok_or (json_set (lit "previous_id") (JString (rid r)) (rpayload r)) panic;
    Ok (with_body r id payload)
  else if (rkind r =?= KDevice) && negb (rdeleted r) then Ok (with_body r (rid r) (remap_spaces mapping (rpayload r)))
  else Ok r.
Definition copy_record (schema : N) (m : MigrationGate) (mapping : btree str) (rows : btree LocalRecord) (row : LocalRecord)
  : result AppError (btree LocalRecord) :=
  r ← copied_record schema m mapping (lrecord row);
  Ok (bt_insert (record_key (rkind r) (rid r)) (mkLocal r 0 true) rows).

(** A sealed row, opened and sealed under the new keys. *)
Definition copied_value (children : btree ChainKeys) (e : Envelope) (v : Json) : result AppError (str * Json) :=
  id ← ok_or (json_str (lit "id") v) panic;
  match (if (ekind e =?= lit "spacekey") && negb (edeleted e) then bt_get id children else None) with
  | Some child =>
      v ← ok_or (json_set (lit "id") (JString (ck_chain_id child)) v) panic;
      v ← ok_or (json_set (lit "payload")
                   (JObject [(lit "auth_token", JString (ck_auth_token child)); (lit "enc_key", JString (enc_key_b64 child));
                             (lit "schema", JNumber (PosInt 1))]) v) panic;
      Ok (ck_chain_id child, v)
  | None => Ok (id, v)
  end.
Definition copy_sealed (old new : ChainKeys) (children : btree ChainKeys) (rows : btree SealedRecord) (r : SealedRecord)
  : RM (btree SealedRecord) :=
  v ← of_result (open_value old (senvelope r));
  c ← of_result (copied_value children (senvelope r) v);
  nonce ← fill NONCE_LEN;
  e ← of_result (seal_value new (ekind (senvelope r)) c.1 c.2 nonce);
  mret (bt_insert (sealed_key (ekind e) (eid_hash e)) (mkSealed e true None) rows).

Definition unsent (rows : btree LocalRecord) : btree LocalRecord :=
  map (fun e : str * LocalRecord => (e.1, mkLocal (lrecord e.2) 0 true)) rows.
Definition copy_space (source : AccountState) (old : ChainKeys) (children : btree ChainKeys)
    (targets : btree SpaceStateV3) (e : str * SpaceStateV3) : RM (btree SpaceStateV3) :=
  k ← of_result (space_keys source old e.1);
  oldchild ← of_result (ok_or k (app_error "source space unavailable"));
  child ← of_result (ok_or (bt_get e.1 children) panic);
  sealed ← fold_rm (copy_sealed oldchild child []) [] (bt_values (s_sealed e.2));
  mret (bt_insert (ck_chain_id child)
          (mkSpace (selected e.2) 0 false (unsent (s_records e.2)) sealed (s_last_error e.2) false) targets).

Definition prepare_targets (op : PendingAccountOperation) (old new : ChainKeys) : RM PendingAccountOperation :=
  p ← of_result (the_plan op);
  let source := source_account p in
  children ← fold_rm add_child [] (space_ids p);
  let schema := source_schema source in
  records ← of_result (try_fold (copy_record schema (marker op p Publishing) (space_ids p)) [] (bt_values (a_records source)));
  sealed ← fold_rm (copy_sealed old new children) [] (bt_values (a_sealed source));
  targets ← fold_rm (copy_space source old children) [] (source_spaces p);
  mret (with_rotation
          (with_account op (mkAccount (ck_chain_id new) 0 false (Some (schema mod 2 ^ 32)%N) None records sealed []))
          (set_targets p targets)).

(** The name of this device in the copy. *)
Definition name_device (op : PendingAccountOperation) (own : str) (a : AccountState) : result AppError AccountState :=
  let key := record_key KDevice own in
  match bt_get key (a_records a) with
  | None => Ok a
  | Some row =>
      payload ← ok_or (json_set (lit "name") (JString (op_device_name op)) (rpayload (lrecord row))) panic;
      Ok (set_a_records a (bt_insert key (mkLocal (with_body (lrecord row) (rid (lrecord row)) payload) (lseq row) (ldirty row))
                             (a_records a)))
  end.

(** The metadata row gets a stamp after the one it has. *)
Definition stamped (missing version stamp : string) (a : AccountState) (payload : Json -> result AppError Json)
    (d : bool -> bool) : result AppError AccountState :=
  let key := record_key KMeta ACCOUNT_META_ID in
  row ← ok_or (bt_get key (a_records a)) (app_error missing);
  let r := lrecord row in
  v ← ok_or (checked_add (rversion r) 1) (app_error version);
  t ← ok_or (checked_add (rupdated_at_ms r) 1) (app_error stamp);
  body ← payload (rpayload r);
  Ok (set_a_records a (bt_insert key (mkLocal (mkRec (rkind r) (rid r) v t (rdevice_id r) (rdeleted r) body) (lseq row)
                                         (d (ldirty row))) (a_records a))).
End Targets.

(** ** The target has what was planned *)

Section Proofs.
Context {R : RuntimeEnv} {T : RotationText} (state_path : str).

(** What was accepted is in every later whole pull. *)
Definition complete_transport (records : btree LocalRecord) (sealed : btree SealedRecord) (keys : ChainKeys)
    (pulled : PullResponse) (cursor : N) (baseline : bool) : result AppError unit :=
  _ ← guard_err (negb (valid_pull cursor baseline (max_seq records sealed) pulled 0))
        (app_error "destination transport baseline is inconsistent");
  let present := map (fun e => sealed_key (ekind e) (eid_hash e)) (pull_records pulled) in
  guard_err (existsb (fun r => negb (ldirty r) && (0 <? lseq r)%N
                && negb (in_strs present (sealed_key (kind_as_str (rkind (lrecord r)))
                           (id_hash keys (kind_as_str (rkind (lrecord r))) (rid (lrecord r)))))) (bt_values records)
             || existsb (fun r => negb (sdirty r) && (0 <? eseq (senvelope r))%N
                && negb (in_strs present (sealed_key (ekind (senvelope r)) (eid_hash (senvelope r))))) (bt_values sealed))
    (app_error "destination full baseline omitted an accepted record").

Definition own_marker (op : PendingAccountOperation) (p : RotationPlan) (m : MigrationGate) : bool :=
  (gate_id m =?= op_id op) && (source_digest m =?= rotation_digest p).
(** The value of the target's metadata row that can be opened. *)
Definition opened_meta (keys : ChainKeys) (rows : list Envelope) : option Json :=
  List.find (fun v => (json_get (lit "id") v ≫= as_str) =?= Some ACCOUNT_META_ID)
    (omap (fun e => if ekind e =?= lit "meta" then result_ok (open_value keys e) else None) rows).
Definition authorized (op : PendingAccountOperation) (p : RotationPlan) (keys : ChainKeys) (pulled : PullResponse)
    (gate : AccountGate) : bool :=
  match gate with
  | Compatible =>
      is_some_and (fun v => is_some_and (fun m => own_marker op p m && (gate_phase m =?= Active))
          (result_ok (from_value (T := MigrationGate)
             (default JNull (json_get (lit "payload") v ≫= json_get (lit "migration"))))))
        (opened_meta keys (pull_records pulled))
  | MigrationPending m => own_marker op p m
  | NeedsMigration schema => (schema <=? ACCOUNT_SCHEMA)%N && (match pull_records pulled with [] => true | _ => false end)
  | _ => false
  end.

(** One pulled row: it is what was planned, or the metadata before its last change. *)
Definition confirm_row (keys : ChainKeys) (gate : AccountGate) (a : AccountState) (e : Envelope)
  : result AppError AccountState :=
  v ← open_value keys e;
  id ← ok_or (json_str (lit "id") v) panic;
  let wire := sealed_key (ekind e) (eid_hash e) in
  match bt_get wire (a_sealed a) with
  | Some row =>
      _ ← guard_err (negb (same_ciphertext (senvelope row) e))
            (app_error "destination opaque or private record changed; review rotation");
      Ok (with_sealed a (bt_insert wire (mkSealed (with_seq (senvelope row) (eseq e)) false (spublic_identity row)) (a_sealed a)))
  | None =>
      kind ← ok_or (kind_parse (ekind e)) (app_error "destination introduced an unknown record");
      let key := record_key kind id in
      row ← ok_or (bt_get key (a_records a)) (app_error "destination introduced an unexpected record");
      if v =?= record_json (lrecord row) then
        Ok (set_a_records a (bt_insert key (mkLocal (lrecord row) (eseq e) false) (a_records a)))
      else if (kind =?= KMeta) && (id =?= ACCOUNT_META_ID) && ldirty row
              && is_some_and (fun n => (n <? rversion (lrecord row))%N) (json_u64 (lit "version") v)
              && (match gate with MigrationPending _ => true | _ => false end) then
        Ok (set_a_records a (bt_insert key (mkLocal (lrecord row) (eseq e) true) (a_records a)))
      else Err (app_error "destination public record changed; review rotation")
  end.

(** The copy after a whole pull of the target. *)
Definition confirmed (keys : ChainKeys) (gate : AccountGate) (a : AccountState) (pulled : PullResponse)
  : result AppError AccountState :=
  _ ← complete_transport (a_records a) (a_sealed a) keys pulled (a_cursor_seq a) (a_baseline_established a);
  a ← try_fold (confirm_row keys gate) a (pull_records pulled);
  Ok (with_cursor a (pull_latest_seq pulled)).

Definition target_proof (op : PendingAccountOperation) (keys : ChainKeys) : RM PendingAccountOperation :=
  _ ← preflight state_path;
  _ ← of_result (connect (op_relay_url op));
  r ← relay_pull (op_relay_url op) (ck_chain_id keys) (ck_auth_token keys) 0;
  pulled ← of_result (map_err relay_error r);
  _ ← of_result (limits (pull_records pulled));
  let empty := set_remote_schema (new_account (ck_chain_id keys)) (remote_schema_version (prepared_account op)) in
  let check := merge_account empty keys pulled 0 in
  p ← of_result (the_plan op);
  if authorized op p keys pulled (mo_gate check) then
    a ← of_result (confirmed keys (mo_gate check) (prepared_account op) pulled);
    let op := with_account op a in
    _ ← store_plan state_path op false;
    mret op
  else
    let op := match opt_filter (fun v => (ACCOUNT_SCHEMA <? v)%N) (mo_observed_schema check) with
              | Some v => with_account op (set_remote_schema (prepared_account op) (Some v))
              | None => op
              end in
    _ ← retain_blocked_gate state_path op;
    fail (app_error "destination format or marker prevents rotation; update Lunport if it is newer").

(** ** Pushing to the target *)

Record RotationSent := mkRotationSent {
  rs_key : str; rs_item : PushItem; rs_public : option Rec; rs_cipher : option Envelope; rs_version : N; rs_time : N
}.

Definition send_record (keys : ChainKeys) (sent : list RotationSent) (e : str * LocalRecord) : RM (list RotationSent) :=
  if ldirty e.2 then
    nonce ← fill NONCE_LEN;
    let r := lrecord e.2 in
    item ← of_result (encode_record keys r (lseq e.2) nonce);
    mret (sent ++ [mkRotationSent e.1 item (Some r) None (rversion r) (rupdated_at_ms r)])
  else mret sent.
Definition send_sealed (keys : ChainKeys) (sent : list RotationSent) (e : str * SealedRecord) : RM (list RotationSent) :=
  if sdirty e.2 then
    let env := senvelope e.2 in
    v ← of_result (open_value keys env);
    version ← of_result (ok_or (json_u64 (lit "version") v) panic);
    at_ms ← of_result (ok_or (json_u64 (lit "updated_at_ms") v) panic);
    mret (sent ++ [mkRotationSent e.1
            (mkPush (eid_hash env) (ekind env) (enonce env) (eciphertext env) (edeleted env) (eseq env))
            None (Some env) version at_ms])
  else mret sent.
Definition rotation_outgoing (keys : ChainKeys) (records : btree LocalRecord) (sealed : btree SealedRecord)
  : RM (list RotationSent) :=
  sent ← fold_rm (send_record keys) [] records;
  fold_rm (send_sealed keys) sent sealed.

(** What the relay took becomes clean, if it still is what was sent. *)
Definition rotation_receipt (pushed : Pushed) (st : btree LocalRecord * btree SealedRecord) (s : RotationSent)
  : btree LocalRecord * btree SealedRecord :=
  match List.find (fun a : str * N => (a.1 =?= rs_key s) && (0 <? a.2)%N && (a.2 <=? MAX_RELAY_SEQ)%N
                                      && (pu_base_seq (rs_item s) <? a.2)%N) (accepted pushed) with
  | None => st
  | Some (_, seq) =>
      match rs_public s, rs_cipher s with
      | Some r, _ =>
          match opt_filter (fun row => lrecord row =?= r) (bt_get (rs_key s) st.1) with
          | Some row => (bt_insert (rs_key s) (mkLocal (lrecord row) seq false) st.1, st.2)
          | None => st
          end
      | None, Some env =>
          match opt_filter (fun row => same_ciphertext (senvelope row) env) (bt_get (rs_key s) st.2) with
          | Some row =>
              (st.1, bt_insert (rs_key s) (mkSealed (with_seq (senvelope row) seq) false (spublic_identity row)) st.2)
          | None => st
          end
      | None, None => st
      end
  end.
Definition rotation_receipts (records : btree LocalRecord) (sealed : btree SealedRecord) (sent : list RotationSent)
    (pushed : Pushed) : btree LocalRecord * btree SealedRecord := foldl (rotation_receipt pushed) (records, sealed) sent.

Definition as_outgoing (s : RotationSent) : Outgoing := mkOutgoing (rs_key s) (rs_item s) (rs_version s) (rs_time s).

(** The section of the target: the account, or one space. *)
Definition section_of (op : PendingAccountOperation) (space : option str)
  : result AppError (btree LocalRecord * btree SealedRecord) :=
  match space with
  | None => Ok (a_records (prepared_account op), a_sealed (prepared_account op))
  | Some id =>
      p ← the_plan op;
      s ← ok_or (bt_get id (target_spaces p)) panic;
      Ok (s_records s, s_sealed s)
  end.
Definition set_section (op : PendingAccountOperation) (space : option str) (st : btree LocalRecord * btree SealedRecord)
  : result AppError PendingAccountOperation :=
  match space with
  | None => Ok (with_account op (with_sealed (set_a_records (prepared_account op) st.1) st.2))
  | Some id =>
      p ← the_plan op;
      s ← ok_or (bt_get id (target_spaces p)) panic;
      Ok (with_rotation op (set_targets p (bt_insert id
            (mkSpace (selected s) (s_cursor_seq s) (s_baseline_established s) st.1 st.2 (s_last_error s) (missing s))
            (target_spaces p))))
  end.

Definition push_target (op : PendingAccountOperation) (new : ChainKeys) (space : option str) : RM PendingAccountOperation :=
  op ← target_proof op new;
  keys ← match space with
         | Some id => k ← of_result (space_keys (prepared_account op) new id);
                      of_result (ok_or k (app_error "destination space unavailable"))
         | None => mret new
         end;
  st ← of_result (section_of op space);
  sent ← rotation_outgoing keys st.1 st.2;
  match sent with
  | [] => mret op
  | _ =>
      _ ← of_result (connect (op_relay_url op));
      _ ← ensure_latest_plan state_path op;
      pushed ← relay_push (op_relay_url op) (ck_chain_id keys) (ck_auth_token keys) (map as_outgoing sent);
      op ← of_result (set_section op space (rotation_receipts st.1 st.2 sent pushed));
      _ ← store_plan state_path op true;
      _ ← require (negb (pu_frozen pushed || (0 <? pu_conflicts pushed)%N || is_some (pu_error pushed)))
            (app_error "destination publication is pending or conflicted; resume after review");
      mret op
  end.

(** A space of the target, pulled as a whole. *)
Definition changed_record (section : SpaceStateV3) (e : str * LocalRecord) : bool :=
  negb (ldirty e.2) && negb ((lrecord <$> bt_get e.1 (s_records section)) =?= Some (lrecord e.2)).
Definition changed_sealed (section : SpaceStateV3) (e : str * SealedRecord) : bool :=
  negb (sdirty e.2)
  && negb (is_some_and (fun x => same_ciphertext (senvelope e.2) (senvelope x)) (bt_get e.1 (s_sealed section))).
Definition confirmed_space (old : SpaceStateV3) (keys : ChainKeys) (pulled : PullResponse) : result AppError SpaceStateV3 :=
  _ ← complete_transport (s_records old) (s_sealed old) keys pulled (s_cursor_seq old) (s_baseline_established old);
  let merged := merge_space old keys pulled 0 Compatible in
  _ ← guard_err (negb (mo_gate merged =?= Compatible) || negb (mo_conflicts merged =?= []))
        (app_error "destination space baseline is inconsistent");
  _ ← guard_err (existsb (changed_record (mo_section merged)) (s_records old))
        (app_error "destination host changed; review rotation");
  _ ← guard_err (existsb (changed_sealed (mo_section merged)) (s_sealed old))
        (app_error "destination opaque host changed; review rotation");
  Ok (mo_section merged).

Definition space_proof (op : PendingAccountOperation) (new : ChainKeys) (id : str) : RM PendingAccountOperation :=
  op ← target_proof op new;
  k ← of_result (space_keys (prepared_account op) new id);
  keys ← of_result (ok_or k (app_error "destination space credentials unavailable"));
  _ ← of_result (connect (op_relay_url op));
  r ← relay_pull (op_relay_url op) id (ck_auth_token keys) 0;
  pulled ← of_result (map_err relay_error r);
  p ← of_result (the_plan op);
  old ← of_result (ok_or (bt_get id (target_spaces p)) panic);
  section ← of_result (confirmed_space old keys pulled);
  let op := with_rotation op (set_targets p (bt_insert id section (target_spaces p))) in
  _ ← store_plan state_path op false;
  mret op.
End Proofs.

(** ** The rotation *)

Section Rotate.
Context {R : RuntimeEnv} {T : RotationText} {B : AccountBuild} (state_path : str).

(** A request the relay accepts is noted in the plan. *)
Definition freeze_chain (op : PendingAccountOperation) (chain token : str) : RM PendingAccountOperation :=
  p ← of_result (the_plan op);
  if bs_contains chain (frozen_chains p) then mret op
  else
    _ ← ensure_latest_plan state_path op;
    r ← relay_freeze (op_relay_url op) chain token;
    _ ← of_result (map_err relay_error r);
    let op := with_rotation op (set_chains p (bs_insert chain (frozen_chains p)) (created p)) in
    _ ← store_plan state_path op true;
    mret op.

(** The identifiers of the new spaces: those of the live spaces, new ones where there is none. *)
Definition add_space_id (ids : btree str) (id : str) : RM (btree str) :=
  if bt_contains_key id ids then mret ids else keys ← generate_keys; mret (bt_insert id (ck_chain_id keys) ids).
Definition choose_ids (p : RotationPlan) : RM RotationPlan :=
  let live := bt_keys (source_spaces p) in
  ids ← fold_rm add_space_id (List.filter (fun e : str * str => in_strs live e.1) (space_ids p)) live;
  mret (set_space_ids p ids).

Definition freeze_space (old : ChainKeys) (op : PendingAccountOperation) (id : str) : RM PendingAccountOperation :=
  p ← of_result (the_plan op);
  if bs_contains id (frozen_chains p) then mret op
  else
    k ← of_result (space_keys (source_account p) old id);
    child ← of_result (ok_or k (app_error "source space unavailable"));
    freeze_chain op id (ck_auth_token child).

(** The device notes that its account is frozen. *)
Definition mark_source (chain : str) (at_ms : N) (s : SyncStateV3) : result AppError SyncStateV3 :=
  Ok (match opt_filter (fun a => chain_id a =?= chain) (account s) with
      | Some a => set_gate s (Some (set_frozen a (Some (mkFreeze at_ms [])))) (migration_gate s) true (last_error s)
      | None => s
      end).

(** The source is read again into the plan. *)
Definition read_source (op : PendingAccountOperation) (source : AccountState) (old : ChainKeys)
  : RM (PendingAccountOperation * RotationPlan) :=
  p ← of_result (the_plan op);
  full ← source_full state_path source old (source_spaces p);
  mret (op, set_source p full.1 full.2).

(** The account is frozen first, which fixes its spaces; then every space; what they hold
    then is the source. *)
Definition freeze_source (op : PendingAccountOperation) (old new : ChainKeys) (fresh : AccountState)
  : RM PendingAccountOperation :=
  p ← of_result (the_plan op);
  let op := with_rotation op (set_step p Freezing) in
  _ ← store_plan state_path op false;
  op ← freeze_chain op (ck_chain_id old) (ck_auth_token old);
  r ← read_source op fresh old;
  p ← choose_ids r.2;
  let op := with_rotation op p in
  _ ← store_plan state_path op false;
  op ← fold_rm (freeze_space old) op (bt_keys (source_spaces p));
  p ← of_result (the_plan op);
  r ← read_source op (source_account p) old;
  let p := r.2 in
  bytes ← of_result (ok_or (source_to_vec (source_account p) (source_spaces p)) (app_error "cannot stamp source snapshot"));
  op ← prepare_targets (with_rotation op (set_digest p (sha256_hex bytes))) old new;
  s ← snapshot state_path;
  a ← of_result (name_device op (device_id s.1) (prepared_account op));
  p ← of_result (the_plan op);
  let op := with_rotation (with_account op a) (set_step p Copying) in
  _ ← store_plan state_path op false;
  frozen_at ← now;
  _ ← mutate_records state_path (mark_source (ck_chain_id old) frozen_at);
  mret op.

Definition create_target (op : PendingAccountOperation) (new : ChainKeys) : RM PendingAccountOperation :=
  p ← of_result (the_plan op);
  if bs_contains (ck_chain_id new) (created p) then mret op
  else
    _ ← ensure_latest_plan state_path op;
    r ← relay_create (op_relay_url op) (ck_chain_id new) (ck_auth_token new);
    _ ← of_result (map_err relay_error r);
    let op := with_phase (with_rotation op (set_chains p (frozen_chains p) (bs_insert (ck_chain_id new) (created p))))
                PRemoteCreated in
    _ ← store_plan state_path op true;
    mret op.
Definition create_target_space (new : ChainKeys) (op : PendingAccountOperation) (id : str) : RM PendingAccountOperation :=
  p ← of_result (the_plan op);
  if bs_contains id (created p) then mret op
  else
    op ← target_proof state_path op new;
    k ← of_result (space_keys (prepared_account op) new id);
    child ← of_result (ok_or k (app_error "destination space unavailable"));
    _ ← ensure_latest_plan state_path op;
    r ← relay_create (op_relay_url op) id (ck_auth_token child);
    _ ← of_result (map_err relay_error r);
    p ← of_result (the_plan op);
    let op := with_rotation op (set_chains p (frozen_chains p) (bs_insert id (created p))) in
    _ ← store_plan state_path op true;
    mret op.

Definition copy_to_space (new : ChainKeys) (op : PendingAccountOperation) (id : str) : RM PendingAccountOperation :=
  op ← space_proof state_path op new id;
  op ← push_target state_path op new (Some id);
  op ← space_proof state_path op new id;
  st ← of_result (section_of op (Some id));
  _ ← require (negb (dirty st.1 st.2)) (app_error "destination space receipts are incomplete");
  mret op.

Definition require_clean (op : PendingAccountOperation) (reason : string) : RM unit :=
  require (negb (dirty (a_records (prepared_account op)) (a_sealed (prepared_account op)))) (app_error reason).

(** Every row is at the target: the marker of the metadata may say so. *)
Definition release (op : PendingAccountOperation) (p : RotationPlan) : result AppError PendingAccountOperation :=
  a ← stamped "destination metadata missing" "metadata revision exhausted" "metadata timestamp exhausted"
        (prepared_account op)
        (fun payload => ok_or (json_set (lit "migration") (to_value (marker op p Active)) payload) panic) (fun _ => true);
  Ok (with_phase (with_rotation (with_account op a) (set_step p Activating)) PActivationReady).
Definition copy_to_target (op : PendingAccountOperation) (new : ChainKeys) (ids : list str) : RM PendingAccountOperation :=
  op ← push_target state_path op new None;
  op ← fold_rm (copy_to_space new) op ids;
  op ← target_proof state_path op new;
  _ ← require_clean op "destination account receipts are incomplete";
  p ← of_result (the_plan op);
  op ← of_result (release op p);
  _ ← store_plan state_path op false;
  mret op.

(** The account, its spaces and the device name in force. *)
Definition rotated (op : PendingAccountOperation) (s : SyncStateV3) : result AppError SyncStateV3 :=
  _ ← guard_err (negb ((op_id <$> pending_account s) =?= Some (op_id op))) superseded;
  p ← the_plan op;
  Ok (mkState (version s) (device_id s) (op_device_name op) (relay_url s) (Some (prepared_account op)) (target_spaces p)
        (local s) None (relay_features s) (legacy_v1_backup s) (phrase_cleanup_pending s) None false
        (Some (with_phase op PActivated)) (notices s) (last_sync_ms s) None).
Definition activate_target (op : PendingAccountOperation) (old new : ChainKeys) (phrase : str) : RM unit :=
  op ← push_target state_path op new None;
  op ← target_proof state_path op new;
  _ ← source_proof state_path op old;
  _ ← require_clean op "destination account release receipt is incomplete";
  _ ← ensure_latest_plan state_path op;
  _ ← relabel (fun _ => app_error "new code promotion is pending; source archive is retained")
        (keychain_set MNEMONIC_ACCOUNT phrase);
  _ ← mutate_records state_path (rotated op);
  mret tt.

(** What is left when the new account is in force. *)
Definition finished (op : PendingAccountOperation) (s : SyncStateV3) : result AppError SyncStateV3 :=
  _ ← guard_err (negb ((op_id <$> pending_account s) =?= Some (op_id op))) superseded;
  Ok (set_pending s None (shared_writes_blocked s) None).
Definition forget_code (op : PendingAccountOperation) (name : str) : RM unit :=
  _ ← ensure_latest_plan state_path op;
  relabel (fun _ => app_error "rotation is active; scoped code cleanup is pending") (keychain_delete name).
Definition cleanup (op : PendingAccountOperation) (new : ChainKeys) : RM unit :=
  op ← target_proof state_path op new;
  source ← source_code op;
  _ ← match source with
      | Some c => old ← of_result (derive_account c); _ ← source_proof state_path op old; mret tt
      | None => mret tt
      end;
  staged ← of_result (ok_or (staged_code_account op) panic);
  p ← of_result (the_plan op);
  _ ← forget_code op staged;
  _ ← forget_code op (source_code_account p);
  _ ← mutate_records state_path (finished op);
  mret tt.

(** Both codes are put aside before anything changes at the relay. *)
Definition archive_codes (op : PendingAccountOperation) (old new : ChainKeys) (source phrase : str)
  : RM (PendingAccountOperation * AccountState) :=
  fresh ← source_proof state_path op old;
  _ ← ensure_latest_plan state_path op;
  p ← of_result (the_plan op);
  op ← (if bs_contains (ck_chain_id new) (created p) then target_proof state_path op new else mret op);
  _ ← ensure_latest_plan state_path op;
  _ ← relabel (fun _ => app_error "source code archive is pending") (keychain_set (source_code_account p) source);
  _ ← ensure_latest_plan state_path op;
  staged ← of_result (ok_or (staged_code_account op) panic);
  _ ← relabel (fun _ => app_error "new code staging is pending") (keychain_set staged phrase);
  mret (op, fresh).

Definition rotate (op : PendingAccountOperation) (new : ChainKeys) (phrase : str) : RM unit :=
  s ← source_code op;
  source ← of_result (ok_or s (app_error "source code unavailable"));
  old ← of_result (derive_account source);
  r ← archive_codes op old new source phrase;
  let op := r.1 in
  _ ← of_result (connect (op_relay_url op));
  p ← of_result (the_plan op);
  op ← (match step p with
        | Prepared | Freezing => freeze_source op old new r.2
        | _ => mret op
        end);
  op ← create_target op new;
  p ← of_result (the_plan op);
  let ids := bt_keys (target_spaces p) in
  op ← fold_rm (create_target_space new) op ids;
  p ← of_result (the_plan op);
  op ← (if step p =?= Copying then copy_to_target op new ids else mret op);
  activate_target op old new phrase.

(** One call of [resume_locked]; [true]: it calls itself again, for the cleanup. *)
Definition pass (provided : option str) : RM bool :=
  _ ← preflight state_path;
  op ← current state_path;
  _ ← require (op_kind op =?= RotateAccount) (app_error "a different operation is pending");
  _ ← of_result (validate_pending op);
  k ← keys_for op provided;
  if op_phase op =?= PActivated then _ ← cleanup op k.1; mret false
  else _ ← rotate op k.1 k.2; mret true.
Fixpoint passes (fuel : nat) (provided : option str) : RM unit :=
  match fuel with
  | O => fail panic
  | S fuel => again ← pass provided; if again : bool then passes fuel None else mret tt
  end.
(** Another pass follows only if another thread has changed the phase meanwhile. *)
Definition resume_locked (provided : option str) : RM unit := fun w => passes (S (S (length (interrupts w)))) provided w.

(** ** Starting *)

(** The copy with the widest numbers it will have. *)
Definition filled (records : btree LocalRecord) : btree LocalRecord :=
  map (fun e : str * LocalRecord => (e.1, mkLocal (lrecord e.2) MAX_RELAY_SEQ false)) records.
Definition filled_sealed (sealed : btree SealedRecord) : btree SealedRecord :=
  map (fun e : str * SealedRecord =>
         (e.1, mkSealed (with_seq (senvelope e.2) MAX_RELAY_SEQ) false (spublic_identity e.2))) sealed.
Definition filled_account (a : AccountState) : AccountState :=
  with_cursor (with_sealed (set_a_records a (filled (a_records a))) (filled_sealed (a_sealed a))) MAX_RELAY_SEQ.
Definition filled_space (s : SpaceStateV3) : SpaceStateV3 :=
  mkSpace (selected s) MAX_RELAY_SEQ true (filled (s_records s)) (filled_sealed (s_sealed s)) (s_last_error s) (missing s).
Definition filled_plan (p : RotationPlan) (new : ChainKeys) : RotationPlan :=
  set_targets (set_chains p (bs_of_list (bt_keys (source_spaces p) ++ [chain_id (source_account p)]))
                 (bs_of_list (bt_keys (target_spaces p) ++ [ck_chain_id new])))
    (map (fun e : str * SpaceStateV3 => (e.1, filled_space e.2)) (target_spaces p)).

(** The state with the complete copy must fit into the file before anything is frozen. *)
Definition check_storage_budget (s : SyncStateV3) (op : PendingAccountOperation) (old new : ChainKeys) (limit : N) : RM unit :=
  copy ← prepare_targets op old new;
  a ← of_result (name_device op (device_id s) (prepared_account copy));
  a ← of_result (stamped "source metadata missing" "source metadata stamp exhausted" "source metadata stamp exhausted"
                   a Ok (fun d => d));
  p ← of_result (the_plan copy);
  let copy := with_phase (with_rotation (with_account copy (filled_account a)) (filled_plan p new)) PActivationReady in
  let candidate := set_pending s (Some copy) (shared_writes_blocked s) (last_error s) in
  require (is_some_and (fun b => (N.of_nat (length b) <=? limit - 8192)%N) (state_to_vec_pretty candidate))
    (app_error "complete rotation copy exceeds the record storage budget; no source was frozen").

Definition check_metadata (a : AccountState) : result AppError unit :=
  row ← ok_or (bt_get (record_key KMeta ACCOUNT_META_ID) (a_records a)) (app_error "source metadata unavailable");
  guard_err (is_none (checked_add (rversion (lrecord row)) 1) || is_none (checked_add (rupdated_at_ms (lrecord row)) 1))
    (app_error "source metadata stamp exhausted; review before rotation").

(** A new space identifier for every space of the source. *)
Definition new_ids (sps : btree SpaceStateV3) : RM (btree str) :=
  fold_rm (fun m id => keys ← generate_keys; mret (bt_insert id (ck_chain_id keys) m)) [] (bt_keys sps).

Definition rotation_operation (id name : str) (s : SyncStateV3) (keys : ChainKeys) (a : AccountState)
    (sps : btree SpaceStateV3) (mapping : btree str) (d : str) : PendingAccountOperation :=
  mkPending id name RotateAccount PPrepared None (relay_url s) (Some (PENDING_CODE_PREFIX ++ id))
    (new_account (ck_chain_id keys)) None None None
    (Some (mkRotationPlan Prepared (SOURCE_CODE_PREFIX ++ id) a sps mapping [] [] [] d)).

Definition start_rotation (name : str) : RM AccountCreation :=
  _ ← preflight state_path;
  let name := trim name in
  _ ← require (negb ((name =?= []) || (128 <? str_len name)%nat)) (app_error "device name must have 1 to 128 bytes");
  initial ← snapshot state_path;
  let initial := initial.1 in
  _ ← require (negb (is_some (pending_account initial) || is_some (rotation initial)
                     || account_migration_pending initial || account_writes_blocked initial))
        (app_error "finish pending migration or account work before rotation");
  _ ← RecordRound.run state_path;
  proof ← fresh_account_gate state_path;
  _ ← of_result (ensure_compatible proof);
  s ← snapshot state_path;
  let s := s.1 in
  _ ← of_result (connect (relay_url s));
  i ← relay_info (relay_url s);
  i ← of_result (map_err relay_error i);
  _ ← require (supports i FEATURE_FREEZE) (app_error "the relay must support freeze before rotating records");
  source ← of_result (ok_or (account s) (app_error "join or create a record account first"));
  full ← source_full state_path source (fp_keys proof) (spaces s);
  _ ← of_result (check_metadata full.1);
  r ← relay_pull (relay_url s) (ck_chain_id (fp_keys proof)) (ck_auth_token (fp_keys proof)) 0;
  pulled ← of_result (map_err relay_error r);
  _ ← require (rows_size (pull_records pulled) + 1024 + N.of_nat (length full.2) * 256 <=? 1024 * 1024)%N
        (app_error "destination metadata exceeds the rotation storage budget");
  phrase ← generate_mnemonic;
  keys ← of_result (derive_account phrase);
  id ← rotation_id;
  mapping ← new_ids full.2;
  bytes ← of_result (ok_or (source_to_vec full.1 full.2) (app_error "cannot stamp source snapshot"));
  let op := rotation_operation id name s keys full.1 full.2 mapping (sha256_hex bytes) in
  _ ← check_storage_budget s op (fp_keys proof) keys MAX_STATE_BYTES;
  _ ← store_plan state_path op false;
  result ← attempt (resume_locked (Some phrase));
  mret (mkCreation phrase id (is_ok result)
          (if is_ok result then None
           else Some (lit "record rotation is pending; retain this new code and resume the operation"))).
End Rotate.
