(* ===== verification/RecordRotateProps.v ===== *)
(** * RecordRotateProps: the steps of a rotation

    Memory and disk stay together ([Keeps]); [memory] says what an operation does to the state
    in memory when nobody else commits; [confirmed_at] what a whole pull of the target
    confirms; [kept_op] what of the plan every step leaves; [Calm] collects the relations that
    every step keeps for plans with a property. *)

From stdpp Require Import gmap.
From S2P Require Import Prelude Text BTreeMap SlotRules ImportText ImportLoad HostText SpaceFiles SpaceFilesProps Json SyncRecord RecordsTypes RecordsValidate RecordsState RepositoryCore RecordGroups Repository GroupEdit GroupOrderEdit StateCheck Crypto Relay RecordMerge RecordPush RecordMergeProps RecordLibrary RecordRuntime RecordRuntimeProps RecordRound RecordRoundProps RecordLeave RecordRotate RecordLeaveProps.
Import RecordRotation.

(** ** Memory and disk stay together *)

Section RotateKeeps.
Context {R : RuntimeEnv} {T : RotationText} {B : AccountBuild} (path : str).
Hypothesis Hplace : forall v digest, with_file_name path (backup_name v digest) <> path.

Lemma keeps_create url chain token : Keeps path (relay_create url chain token).
Proof. intros w. unfold relay_create. destruct (net_create_chain _ _ _ _). by apply evolves_same. Qed.
Lemma keeps_freeze_request url chain token : Keeps path (relay_freeze url chain token).
Proof. intros w. unfold relay_freeze. destruct (net_freeze_chain _ _ _ _). by apply evolves_same. Qed.
Lemma keeps_info url : Keeps path (relay_info url).
Proof. intros w. unfold relay_info. destruct (net_info _ _). by apply evolves_same. Qed.
Lemma keeps_set name v : Keeps path (keychain_set name v).
Proof. apply keeps_keychain. Qed.
Lemma keeps_delete name : Keeps path (keychain_delete name).
Proof. apply keeps_keychain. Qed.
#[local] Hint Resolve keeps_create keeps_freeze_request keeps_info keeps_set keeps_delete keeps_preflight keeps_fresh_gate
  keeps_retained : keeps.
#[local] Hint Extern 1 (Keeps _ (fold_rm _ _ _)) => apply keeps_fold; intros : keeps.

Lemma keeps_store_plan op accepted : Keeps path (store_plan path op accepted).
Proof. unfold store_plan. keeps. Qed.
#[local] Hint Resolve keeps_store_plan : keeps.
Lemma keeps_retain_blocked op : Keeps path (retain_blocked_gate path op).
Proof.
  apply keeps_bind; [by apply keeps_attempt, keeps_store_plan|]. intros [u|e]; [apply keeps_ret|].
  apply keeps_locked; [done|]. intros w. apply evolves_bind; [|intros; apply evolves_refl].
  destruct (records (core w) ≫= _) as [s|]; [|apply evolves_refl]. split.
  - split; [reflexivity|]. split; [reflexivity|done].
  - intros (b & Hb & Hd & Hf & _). split; [|by apply only_durable_same]. exists b. split; [done|]. split; [done|]. by split.
Qed.
#[local] Hint Resolve keeps_retain_blocked : keeps.
Lemma keeps_ensure_plan op : Keeps path (ensure_latest_plan path op).
Proof. unfold ensure_latest_plan. keeps. Qed.
Lemma keeps_source_proof op keys : Keeps path (source_proof path op keys).
Proof. unfold source_proof. keeps. Qed.
Lemma keeps_target_proof op keys : Keeps path (target_proof path op keys).
Proof. unfold target_proof. keeps. Qed.
Lemma keeps_source_full source keys cached : Keeps path (source_full path source keys cached).
Proof.
  assert (forall url a sps row, Keeps path (source_space url keys a cached sps row)) by (intros; unfold source_space; keeps).
  unfold source_full. keeps.
Qed.
#[local] Hint Resolve keeps_ensure_plan keeps_source_proof keeps_target_proof keeps_source_full : keeps.

Lemma keeps_copy_sealed old new children rows r : Keeps path (copy_sealed old new children rows r).
Proof. unfold copy_sealed. keeps. Qed.
#[local] Hint Resolve keeps_copy_sealed : keeps.
Lemma keeps_prepare_targets op old new : Keeps path (prepare_targets op old new).
Proof.
  assert (forall children e, Keeps path (add_child children e)) by (intros; unfold add_child, generate_keys; keeps).
  assert (forall source old children targets e, Keeps path (copy_space source old children targets e)) by (intros; unfold copy_space; keeps).
  unfold prepare_targets. keeps.
Qed.
Lemma keeps_outgoing keys records sealed : Keeps path (rotation_outgoing keys records sealed).
Proof.
  unfold rotation_outgoing. apply keeps_bind; [apply keeps_fold; intros; unfold send_record; keeps|].
  intros ?. apply keeps_fold. intros. unfold send_sealed. keeps.
Qed.
#[local] Hint Resolve keeps_prepare_targets keeps_outgoing : keeps.
Lemma keeps_push_target op new space : Keeps path (push_target path op new space).
Proof. unfold push_target. keeps. Qed.
Lemma keeps_space_proof op new id : Keeps path (space_proof path op new id).
Proof. unfold space_proof. keeps. Qed.
#[local] Hint Resolve keeps_push_target keeps_space_proof : keeps.

Lemma keeps_freeze_chain op chain token : Keeps path (freeze_chain path op chain token).
Proof. unfold freeze_chain. keeps. Qed.
#[local] Hint Resolve keeps_freeze_chain : keeps.
Lemma keeps_freeze_source op old new fresh : Keeps path (freeze_source path op old new fresh).
Proof.
  assert (forall op source, Keeps path (read_source path op source old)) by (intros; unfold read_source; keeps).
  assert (forall ids id, Keeps path (add_space_id ids id)) by (intros; unfold add_space_id, generate_keys; keeps).
  assert (forall p, Keeps path (choose_ids p)) by (intros; unfold choose_ids; keeps).
  assert (forall op id, Keeps path (freeze_space path old op id)) by (intros; unfold freeze_space; keeps).
  unfold freeze_source. keeps.
Qed.
Lemma keeps_copy_to_target op new ids : Keeps path (copy_to_target path op new ids).
Proof.
  assert (forall op id, Keeps path (copy_to_space path new op id)) by (intros; unfold copy_to_space; keeps).
  unfold copy_to_target, require_clean. keeps.
Qed.
Lemma keeps_activate_target op old new phrase : Keeps path (activate_target path op old new phrase).
Proof. unfold activate_target, require_clean. keeps. Qed.
Lemma keeps_source_code op : Keeps path (source_code op).
Proof. unfold source_code, code. keeps. Qed.
#[local] Hint Resolve keeps_freeze_source keeps_copy_to_target keeps_activate_target keeps_source_code : keeps.

Lemma keeps_pass provided : Keeps path (pass path provided).
Proof.
  assert (forall op new, Keeps path (cleanup path op new)) by (intros; unfold cleanup, forget_code; keeps).
  assert (forall op new, Keeps path (create_target path op new)) by (intros; unfold create_target; keeps).
  assert (forall new op id, Keeps path (create_target_space path new op id)) by (intros; unfold create_target_space; keeps).
  unfold pass, current, keys_for, code, rotate, archive_codes. keeps.
Qed.
Lemma keeps_resume_rotation provided : Keeps path (resume_locked path provided).
Proof.
  intros w. unfold resume_locked. generalize (S (S (length (interrupts w)))). intros fuel. revert w. change (Keeps path (passes path fuel provided)).
  revert provided. induction fuel as [|fuel IH]; intros provided; cbn [passes]; [keeps|].
  apply keeps_bind; [apply keeps_pass|]. intros []; keeps.
Qed.
Lemma keeps_start_rotation name : Keeps path (start_rotation path name).
Proof.
  pose proof keeps_resume_rotation. pose proof (keeps_run path Hplace).
  assert (forall s op old new limit, Keeps path (check_storage_budget s op old new limit))
    by (intros; unfold check_storage_budget; keeps).
  assert (forall sps, Keeps path (new_ids sps)) by (intros; unfold new_ids, generate_keys; apply keeps_fold; intros; keeps).
  unfold start_rotation, generate_mnemonic, rotation_id. keeps.
Qed.
End RotateKeeps.

(** ** The state in memory, when nobody else commits *)

Section Memory.
Context {R : RuntimeEnv} (path : str).

Definition in_memory (P : SyncStateV3 -> Prop) (w : RWorld) : Prop := forall s, records (core w) = Some s -> P s.
Definition memory (P : SyncStateV3 -> Prop) (w w' : RWorld) : Prop :=
  alone w -> alone w' /\ (in_memory P w -> in_memory P w').
#[export] Instance memory_pre P : PreOrder (memory P).
Proof.
  split; [by intros w Hw|]. intros w1 w2 w3 H1 H2 Hw. destruct (H1 Hw) as [Hw2 S1]. destruct (H2 Hw2) as [Hw3 S2]. auto.
Qed.
Lemma memory_same P w w' : records (core w') = records (core w) -> interrupts w' = interrupts w -> memory P w w'.
Proof. intros Hc Hi Hw. unfold alone, in_memory. by rewrite Hc, Hi. Qed.

(** What a publication keeps. *)
Class Kept (P : SyncStateV3 -> Prop) : Prop :=
  kept_published c s n : P s -> published c s = Ok n -> P n.

Section Kept.
Context (P : SyncStateV3 -> Prop).

Lemma memory_now : Within (memory P) now.
Proof. intros w. by apply memory_same. Qed.
Lemma memory_nonces n : Within (memory P) (draw_nonces n).
Proof. intros w. by apply memory_same. Qed.
Lemma memory_pull url chain token since : Within (memory P) (relay_pull url chain token since).
Proof. intros w. unfold relay_pull. destruct (net_pull _ _ _ _ _). by apply memory_same. Qed.
Lemma memory_push url chain token sent : Within (memory P) (relay_push url chain token sent).
Proof. intros w. unfold relay_push. destruct (push_outgoing _ _ _ _). by apply memory_same. Qed.
Lemma memory_fill n : Within (memory P) (fill n).
Proof. intros w. by apply memory_same. Qed.
Lemma memory_create url chain token : Within (memory P) (relay_create url chain token).
Proof. intros w. unfold relay_create. destruct (net_create_chain _ _ _ _). by apply memory_same. Qed.
Lemma memory_freeze url chain token : Within (memory P) (relay_freeze url chain token).
Proof. intros w. unfold relay_freeze. destruct (net_freeze_chain _ _ _ _). by apply memory_same. Qed.
Lemma memory_keychain {A} (f : list (str * str) -> A * list (str * str)) : Within (memory P) (keychain_op f).
Proof. intros w. unfold keychain_op. destruct (keychain_fails w) as [|[] l]; try destruct (f _); by apply memory_same. Qed.
Lemma memory_files {A} (m : M A) : Within (memory P) (on_files m).
Proof. intros w. unfold on_files. destruct (m (files w)). by apply memory_same. Qed.
#[local] Hint Resolve memory_now memory_nonces memory_fill memory_pull memory_push memory_create memory_freeze memory_keychain memory_files : within.

Lemma memory_locked {A} (k : SyncCore -> RM A) :
  (forall w, memory P w (k (core w) w).2) -> Within (memory P) (c ← lock_core path; k c).
Proof.
  intros Hk w Hw. destruct (lock_alone path w Hw) as (w' & Hl & Hw' & _ & Hc & _). unfold mbind, rm_bind. rewrite Hl, <-Hc.
  destruct (Hk w' Hw') as [Ha Hs]. split; [done|]. intros H. apply Hs. unfold in_memory. by rewrite Hc.
Qed.
Lemma memory_lock : Within (memory P) (lock_core path).
Proof.
  intros w Hw. destruct (lock_alone path w Hw) as (w' & Hl & Hw' & _ & Hc & _). rewrite Hl. split; [done|].
  unfold in_memory. cbn [snd]. by rewrite Hc.
Qed.
Lemma memory_snapshot : Within (memory P) (snapshot path).
Proof. pose proof memory_lock. unfold snapshot. within. Qed.
Lemma memory_put w c : (in_memory P w -> forall s, records c = Some s -> P s) -> memory P w (put_core c w).2.
Proof. intros Hc Hw. split; [exact Hw|]. intros H. exact (Hc H). Qed.

(** A save leaves the state in memory as it is. *)
Lemma save_core_records w : records (core (save_core path w).2) = records (core w).
Proof.
  unfold save_core, the_core, mbind at 1, rm_bind at 1. destruct (save_blocked (core w)); [done|].
  assert (Hn : forall m : RM unit, core (m w).2 = core w -> records (core (noting_unsaved (core w) m w).2) = records (core w)).
  { intros m Hm. unfold noting_unsaved, attempt, mbind, rm_bind, put_core. by destruct (m w) as [[u|e] w1]. }
  destruct (format (core w)).
  - unfold mbind at 1, rm_bind at 1. destruct (legacy_writes_allowed (core w)); [|done]. cbn [of_result].
    unfold mret at 1, rm_ret at 1. destruct (is_some (legacy (core w))); [done|]. apply Hn.
    destruct (state (core w)); [|done]. unfold on_files. by destruct (save_v2 _ _ _).
  - apply Hn. unfold mbind, rm_bind. destruct (active_state (core w)); [|done]. cbn [of_result]. unfold mret, rm_ret.
    unfold on_files. by destruct (save_active _ _ _).
  - done.
Qed.
Lemma memory_save_core : Within (memory P) (save_core path).
Proof. intros w. apply memory_same; [apply save_core_records|apply interrupts_save]. Qed.
#[local] Hint Resolve memory_lock memory_snapshot memory_save_core : within.
Lemma memory_preflight : Within (memory P) (preflight path).
Proof. unfold preflight, require_no_pending_migration. within. Qed.

Context `{!Kept P}.
Lemma memory_transact f : (forall s n, P s -> f s = Ok n -> P n) -> Within (memory P) (transact path f).
Proof.
  intros Hf w Hw. destruct (transact_cases path f w) as [[e ->]|(s & m & Hs & Hm & ->)]; [by split|].
  split; [unfold alone; by rewrite interrupts_persist|]. intros H. specialize (H s Hs). pose proof (Hf s m H Hm) as Pm.
  destruct (persist_cases path m w) as [[e ->]|(n & g & r & fs & Hn & _ & ->)].
  - intros s' Hs'. cbn [snd] in Hs'. rewrite Hs in Hs'. by injection Hs' as <-.
  - destruct r as [u|e]; intros s' Hs'; cbn in Hs'; [|rewrite Hs in Hs'; by injection Hs' as <-]. injection Hs' as <-.
    by eapply kept_published.
Qed.
Lemma memory_mutate f : (forall s n, P s -> f s = Ok n -> P n) -> Within (memory P) (mutate_records path f).
Proof. intros Hf. apply memory_locked. intros w. by apply memory_transact. Qed.

Lemma memory_retained f invalid exhausted :
  (forall s n, P s -> f s = Ok n -> P n) -> Within (memory P) (commit_retained path f invalid exhausted).
Proof.
  intros Hf. apply memory_locked. intros w. destruct (save_blocked (core w)) as [reason|]; [reflexivity|].
  apply within_bind_at; [apply _|reflexivity|]. intros [] w1 [= <-].
  apply within_bind_at; [apply _|apply within_of_result; apply _|]. intros s w1 [Hs ->]%of_result_Ok.
  apply active_records in Hs.
  apply within_bind_at; [apply _|apply within_of_result; apply _|]. intros n w1 [Hn ->]%of_result_Ok.
  apply within_bind_at; [apply _|apply within_of_result; apply _|]. intros u w1 [_ ->]%of_result_Ok.
  apply within_bind_at; [apply _|apply within_of_result; apply _|]. intros g w1 [_ ->]%of_result_Ok.
  apply within_bind_at; [apply _| |intros; apply memory_save_core].
  apply memory_put. intros H s' [= <-]. eapply Hf; [|exact Hn]. by apply H.
Qed.
End Kept.
End Memory.
#[export] Hint Resolve memory_now memory_nonces memory_fill memory_pull memory_push memory_create memory_freeze memory_keychain
  memory_files memory_lock memory_snapshot memory_save_core memory_preflight : within.
#[export] Hint Extern 1 (Within (memory _) (keychain_get _)) => apply memory_keychain : within.
#[export] Hint Extern 1 (Within (memory _) (keychain_set _ _)) => apply memory_keychain : within.
#[export] Hint Extern 1 (Within (memory _) (keychain_delete _)) => apply memory_keychain : within.

(** ** The target has every row as it was planned *)

Section Confirmed.
Context {R : RuntimeEnv} {X : RotationText}.

Definition wire (e : Envelope) : str := sealed_key (ekind e) (eid_hash e).
Definition wire_of (keys : ChainKeys) (r : Rec) : str :=
  sealed_key (kind_as_str (rkind r)) (id_hash keys (kind_as_str (rkind r)) (rid r)).
Definition meta_key : str := record_key KMeta ACCOUNT_META_ID.
#[local] Arguments meta_key : simpl never.
Definition meta_id (keys : ChainKeys) : str * str := (lit "meta", id_hash keys (lit "meta") ACCOUNT_META_ID).

(** The same rows, whatever is known of their transport. *)
Definition cipher (r : SealedRecord) : str * str * str * str * bool :=
  let e := senvelope r in (ekind e, eid_hash e, enonce e, eciphertext e, edeleted e).
Record same_rows (a a' : AccountState) : Prop := {
  sr_chain : chain_id a' = chain_id a;
  sr_records k : lrecord <$> bt_get k (a_records a') = lrecord <$> bt_get k (a_records a);
  sr_sealed k : cipher <$> bt_get k (a_sealed a') = cipher <$> bt_get k (a_sealed a)
}.
#[export] Instance same_rows_pre : PreOrder same_rows.
Proof. split; [by split|]. intros a b c [? H1 H2] [? H3 H4]. split; intros; [congruence|by rewrite H3|by rewrite H4]. Qed.

(** An envelope that the copy planned: exactly one of its rows. *)
Definition planned_envelope (keys : ChainKeys) (a : AccountState) (e : Envelope) : Prop :=
  (exists row, bt_get (wire e) (a_sealed a) = Some row /\ same_ciphertext (senvelope row) e = true) \/
  (exists k row, bt_get k (a_records a) = Some row /\ open_value keys e = Ok (record_json (lrecord row))).

Lemma planned_same keys a a' e : same_rows a a' -> planned_envelope keys a e -> planned_envelope keys a' e.
Proof.
  intros [_ Hr Hs] [(row & H & He)|(k & row & H & He)].
  - left. specialize (Hs (wire e)). rewrite H in Hs. destruct (bt_get _ (a_sealed a')) as [row'|]; [|done].
    exists row'. split; [done|]. cbn in Hs. unfold cipher in Hs. unfold same_ciphertext in *.
    injection Hs as -> -> -> -> ->. exact He.
  - right. exists k. specialize (Hr k). rewrite H in Hr. destruct (bt_get k (a_records a')) as [row'|]; [|done].
    exists row'. split; [done|]. cbn in Hr. by injection Hr as ->.
Qed.

Lemma open_value_facts keys e v : open_value keys e = Ok v ->
  exists id, json_str (lit "id") v = Some id /\ id_hash keys (ekind e) id = eid_hash e /\
    json_str (lit "kind") v = Some (ekind e).
Proof.
  unfold open_value. intros H. ok_inv. destruct v as [| | | | |o]; try done. cbn in Hok1. injection Hok1 as <-.
  repeat match goal with H : _ || _ = false |- _ => apply orb_false_iff in H as [H ?] end.
  repeat match goal with H : negb _ = false |- _ => apply negb_false_iff in H end.
  unfold json_str. cbn [json_get]. destruct (bt_get (lit "id") o ≫= as_str) as [id|]; [|done]. exists id. split; [done|].
  cbn [is_some_and] in *. breflect. done.
Qed.

(** What one pulled row does to the copy. *)
Inductive confirms (keys : ChainKeys) (a : AccountState) (e : Envelope) : AccountState -> Prop :=
| confirms_sealed row :
    bt_get (wire e) (a_sealed a) = Some row -> same_ciphertext (senvelope row) e = true ->
    confirms keys a e (with_sealed a (bt_insert (wire e)
      (mkSealed (with_seq (senvelope row) (eseq e)) false (spublic_identity row)) (a_sealed a)))
| confirms_exact kind id row :
    bt_get (record_key kind id) (a_records a) = Some row -> open_value keys e = Ok (record_json (lrecord row)) ->
    kind_parse (ekind e) = Some kind -> eid_hash e = id_hash keys (ekind e) id -> rid (lrecord row) = id ->
    kind_as_str (rkind (lrecord row)) = ekind e ->
    confirms keys a e (set_a_records a (bt_insert (record_key kind id) (mkLocal (lrecord row) (eseq e) false) (a_records a)))
| confirms_older row :
    bt_get meta_key (a_records a) = Some row -> kind_parse (ekind e) = Some KMeta ->
    eid_hash e = id_hash keys (ekind e) ACCOUNT_META_ID ->
    confirms keys a e (set_a_records a (bt_insert meta_key (mkLocal (lrecord row) (eseq e) true) (a_records a))).

Lemma confirm_row_Ok keys gate a e a' : confirm_row keys gate a e = Ok a' -> confirms keys a e a'.
Proof.
  unfold confirm_row. cbv zeta. intros H. ok_inv. pose proof (open_value_facts _ _ _ Hok) as (id & Hid & Hhash & Hkind).
  rewrite Hid in Hok0. injection Hok0 as <-. fold (wire e) in H.
  destruct (bt_get (wire e) (a_sealed a)) as [row|] eqn:Hs.
  { ok_inv. breflect. by apply confirms_sealed. }
  ok_inv. destruct (v =?= _) eqn:Heq.
  - apply bool_decide_eq_true in Heq as ->. ok_inv. unfold json_str in Hid, Hkind. cbn in Hid, Hkind.
    injection Hid as Hid. injection Hkind as Hkind. by eapply confirms_exact.
  - destruct (_ && _) eqn:Hc; [|done]. ok_inv. repeat (apply andb_true_iff in Hc as [Hc ?]). breflect. subst.
    by apply confirms_older.
Qed.

Lemma confirms_same keys a e a' : confirms keys a e a' -> same_rows a a'.
Proof.
  intros [row Hr Hc|kind id row Hr _ _ _ _ _|row Hr _ _]; split; try done; intros k; cbn [a_records a_sealed set_a_records with_sealed];
    rewrite bt_get_insert; case_decide as Heq; try done; by rewrite <-Heq, Hr.
Qed.

(** The metadata still has a change that the target does not have. *)
Definition meta_dirty (a : AccountState) : Prop := exists row, bt_get meta_key (a_records a) = Some row /\ ldirty row = true.

Lemma confirms_planned keys a e a' : confirms keys a e a' ->
  planned_envelope keys a' e \/ (meta_dirty a' /\ (ekind e, eid_hash e) = meta_id keys).
Proof.
  intros [row Hr Hc|kind id row Hr Ho _ _ _ _|row Hr Hk Hh].
  - left. left. eexists. split; [apply bt_get_insert_eq|]. exact Hc.
  - left. right. eexists _, _. split; [apply bt_get_insert_eq|]. exact Ho.
  - right. split; [eexists; split; [apply bt_get_insert_eq|done]|].
    apply kind_parse_inv in Hk. unfold meta_id. rewrite Hh, <-Hk. done.
Qed.
Lemma confirms_dirty keys a e a' :
  confirms keys a e a' -> (ekind e, eid_hash e) <> meta_id keys -> meta_dirty a -> meta_dirty a'.
Proof.
  intros [row Hr Hc|kind id row Hr Ho Hk Hh Hid Hkind|row Hr Hk Hh] Hne (m & Hm & Hd); [by exists m| |].
  - exists m. cbn. rewrite bt_get_insert. case_decide as Heq; [|done]. exfalso. apply Hne.
    apply record_key_inj in Heq as [-> ->]. apply kind_parse_inv in Hk. unfold meta_id. by rewrite Hh, <-Hk.
  - exfalso. apply Hne. apply kind_parse_inv in Hk. unfold meta_id. by rewrite Hh, <-Hk.
Qed.
(** A row is clean because it was, or because the pull has it. *)
Lemma confirms_record keys a e a' k r :
  confirms keys a e a' -> bt_get k (a_records a') = Some r ->
  bt_get k (a_records a) = Some r \/ ldirty r = true \/ wire e = wire_of keys (lrecord r).
Proof.
  intros [row Hr Hc|kind id row Hr Ho Hk Hh Hid Hkind|row Hr Hk Hh]; cbn; [by left|..];
    rewrite bt_get_insert; case_decide; try (by left); intros [= <-]; [|by right; left].
  right. right. unfold wire, wire_of. cbn [lrecord]. by rewrite Hkind, Hid, Hh.
Qed.
Definition own_wire (r : SealedRecord) : str := sealed_key (ekind (senvelope r)) (eid_hash (senvelope r)).
Lemma confirms_sealed_row keys a e a' k r :
  confirms keys a e a' -> bt_get k (a_sealed a') = Some r -> bt_get k (a_sealed a) = Some r \/ wire e = own_wire r.
Proof.
  intros [row Hr Hc| |]; cbn; [|by left..]. rewrite bt_get_insert. case_decide; [|by left]. intros [= <-]. right.
  unfold wire, own_wire, same_ciphertext in *. breflect. cbn [senvelope ekind eid_hash with_seq]. f_equal; congruence.
Qed.

(** The whole pull. *)
Record rows_confirmed (keys : ChainKeys) (rows : list Envelope) (a a' : AccountState) : Prop := {
  rc_same : same_rows a a';
  rc_planned e : e ∈ rows -> planned_envelope keys a' e \/ meta_dirty a';
  rc_record k r : bt_get k (a_records a') = Some r ->
    bt_get k (a_records a) = Some r \/ ldirty r = true \/ exists e, e ∈ rows /\ wire e = wire_of keys (lrecord r);
  rc_sealed k r : bt_get k (a_sealed a') = Some r -> bt_get k (a_sealed a) = Some r \/ exists e, e ∈ rows /\ wire e = own_wire r
}.

Lemma dirty_stays keys gate rows : forall a a', meta_id keys ∉ map (fun e => (ekind e, eid_hash e)) rows ->
  try_fold (confirm_row keys gate) a rows = Ok a' -> meta_dirty a -> meta_dirty a'.
Proof.
  induction rows as [|e rows IH]; intros a a' Hn H Ha; cbn [try_fold] in H; ok_inv; [done|]. apply confirm_row_Ok in Hok.
  apply not_elem_of_cons in Hn as [Hne Hn]. eapply IH; [exact Hn|exact H|]. eapply confirms_dirty; [exact Hok| |exact Ha]. by apply not_eq_sym.
Qed.

Lemma confirm_rows keys gate rows : forall a a', NoDup (map (fun e => (ekind e, eid_hash e)) rows) ->
  try_fold (confirm_row keys gate) a rows = Ok a' -> rows_confirmed keys rows a a'.
Proof.
  induction rows as [|e rows IH]; intros a a' Hnd H; cbn [try_fold] in H; ok_inv.
  { split; [done|..]; [by intros e ?%elem_of_nil|auto..]. }
  cbn [map] in Hnd. apply NoDup_cons in Hnd as [Hn Hnd]. rename v into a1. apply confirm_row_Ok in Hok as Hc.
  destruct (IH a1 a' Hnd H) as [Hsame Hpl Hrec Hseal]. split.
  - etransitivity; [by eapply confirms_same|done].
  - intros x [->|Hx]%elem_of_cons; [|by apply Hpl]. apply confirms_planned in Hc as [Hc|[Hd Hm]].
    + left. by eapply planned_same.
    + right. eapply dirty_stays; [by rewrite <-Hm|exact H|exact Hd].
  - intros k r Hr. destruct (Hrec k r Hr) as [H1|[H1|(x & Hx & Hw)]]; [|by right; left|right; right; exists x; split; [by right|done]].
    destruct (confirms_record _ _ _ _ _ _ Hc H1) as [H2|[H2|H2]]; [by left|by right; left|]. right. right. exists e. split; [by left|done].
  - intros k r Hr. destruct (Hseal k r Hr) as [H1|(x & Hx & Hw)]; [|right; exists x; split; [by right|done]].
    destruct (confirms_sealed_row _ _ _ _ _ _ Hc H1) as [H2|H2]; [by left|]. right. exists e. split; [by left|done].
Qed.

(** The copy and the target are the same: every envelope of the target is a row of the copy
    as it was planned, and the target has every row that it ever numbered. *)
Record at_target (keys : ChainKeys) (a : AccountState) (rows : list Envelope) : Prop := {
  at_planned e : e ∈ rows -> planned_envelope keys a e;
  at_record k r : bt_get k (a_records a) = Some r -> (0 < lseq r)%N -> exists e, e ∈ rows /\ wire e = wire_of keys (lrecord r);
  at_sealed k r : bt_get k (a_sealed a) = Some r -> (0 < eseq (senvelope r))%N ->
    exists e, e ∈ rows /\ wire e = own_wire r
}.

Lemma distinct_NoDup since latest seqs ids rows : distinct_rows since latest seqs ids rows = true ->
  NoDup (map (fun e => (ekind e, eid_hash e)) rows) /\ forall e, e ∈ rows -> (ekind e, eid_hash e) ∉ ids.
Proof.
  revert seqs ids. induction rows as [|e rows IH]; intros seqs ids H; cbn [distinct_rows map] in H |- *.
  { split; [constructor|by intros ? ?%elem_of_nil]. }
  repeat (apply andb_true_iff in H as [H ?]). destruct (IH _ _ H0) as [Hnd Hno].
  assert (Hid : (ekind e, eid_hash e) ∉ ids).
  { intros Hin. match goal with H : negb (existsb (fun i => i =?= _) _) = true |- _ => apply negb_true_iff in H; apply not_true_iff_false in H; apply H end.
    apply existsb_exists. eexists. split; [by apply list_elem_of_In|]. by apply bool_decide_true. }
  split.
  - apply NoDup_cons. split; [|done]. intros (x & Hx & Hin)%list_elem_of_fmap. apply (Hno x Hin). rewrite <-Hx. by left.
  - intros x [->|Hx]%elem_of_cons; [done|]. intros Hin. apply (Hno x Hx). by right.
Qed.

Lemma bt_get_value {V} (m : btree V) k v : bt_get k m = Some v -> v ∈ bt_values m.
Proof. intros H%bt_get_elem. apply list_elem_of_fmap. by exists (k, v). Qed.
Lemma dirty_false records sealed : dirty records sealed = false ->
  (forall k r, bt_get k records = Some r -> ldirty r = false) /\ (forall k r, bt_get k sealed = Some r -> sdirty r = false).
Proof.
  unfold dirty. rewrite orb_false_iff, !existsb_none. intros [H1 H2].
  split; intros k r Hr; [apply H1|apply H2]; by eapply bt_get_value.
Qed.
Lemma present_wire rows w : in_strs (map (fun e => sealed_key (ekind e) (eid_hash e)) rows) w = true -> exists e, e ∈ rows /\ wire e = w.
Proof.
  unfold in_strs. intros (x & (e & -> & He)%list_elem_of_fmap & Heq)%existsb_elem. apply bool_decide_eq_true in Heq. by exists e.
Qed.

Lemma confirmed_at keys gate a pulled a' : confirmed keys gate a pulled = Ok a' ->
  same_rows a a' /\ (dirty (a_records a') (a_sealed a') = false -> at_target keys a' (pull_records pulled)).
Proof.
  unfold confirmed. intros H. ok_inv. rename v0 into a1. unfold complete_transport in Hok. ok_inv.
  apply negb_false_iff in Hok1. unfold valid_pull in Hok1. destruct (_ || _); [done|].
  apply distinct_NoDup in Hok1 as [Hnd _]. destruct (confirm_rows _ _ _ _ _ Hnd Hok0) as [Hsame Hpl Hrec Hseal].
  split; [etransitivity; [exact Hsame|by split]|]. intros [Hd1 Hd2]%dirty_false. cbn in Hd1, Hd2.
  rewrite orb_false_iff, !existsb_none in Hok. destruct Hok as [Hc1 Hc2]. split; cbn.
  - intros e He. destruct (Hpl e He) as [Hp|(m & Hm & Hm2)]; [exact Hp|]. by rewrite (Hd1 _ _ Hm) in Hm2.
  - intros k r Hr Hseq. destruct (Hrec k r Hr) as [H1|[H1|H1]]; [|by rewrite (Hd1 _ _ Hr) in H1|done].
    specialize (Hc1 r (bt_get_value _ _ _ H1)). rewrite (Hd1 _ _ Hr), (proj2 (N.ltb_lt _ _) Hseq) in Hc1.
    apply present_wire. by apply negb_false_iff in Hc1.
  - intros k r Hr Hseq. destruct (Hseal k r Hr) as [H1|H1]; [|done].
    specialize (Hc2 r (bt_get_value _ _ _ H1)). rewrite (Hd2 _ _ Hr), (proj2 (N.ltb_lt _ _) Hseq) in Hc2.
    apply present_wire. by apply negb_false_iff in Hc2.
Qed.
End Confirmed.

(** ** The plan goes on under the same names *)

Section Carries.
Context {R : RuntimeEnv} {X : RotationText} {B : AccountBuild} (path : str) (new : ChainKeys).

Record kept_op (op op' : PendingAccountOperation) : Prop := {
  ko_id : op_id op' = op_id op;
  ko_url : op_relay_url op' = op_relay_url op;
  ko_staged : staged_code_account op' = staged_code_account op;
  ko_archive : source_code_account <$> op_rotation op' = source_code_account <$> op_rotation op;
  ko_source : (fun p => chain_id (source_account p)) <$> op_rotation op' = (fun p => chain_id (source_account p)) <$> op_rotation op;
  ko_phase : op_phase op <> PActivated -> op_phase op' <> PActivated;
  ko_target : chain_id (prepared_account op) = ck_chain_id new -> chain_id (prepared_account op') = ck_chain_id new
}.
#[export] Instance kept_op_pre : PreOrder kept_op.
Proof. split; [by split|]. intros a b c [] []. split; first [congruence|auto]. Qed.

Definition Carries (m : RM PendingAccountOperation) (op : PendingAccountOperation) : Prop :=
  forall w op' w', m w = (Ok op', w') -> kept_op op op'.

Lemma carries_ret op op' : kept_op op op' -> Carries (mret op') op.
Proof. by intros H w ? w' [= <- _]. Qed.
Lemma carries_bind {A} (m : RM A) k op :
  (forall a w w1, m w = (Ok a, w1) -> Carries (k a) op) -> Carries (m ≫= k) op.
Proof. intros H w op' w' (a & w1 & Hm & Hk)%rm_bind_Ok. by eapply H. Qed.
Lemma carries_seq m k op :
  Carries m op -> (forall op1, kept_op op op1 -> Carries (k op1) op) -> Carries (m ≫= k) op.
Proof. intros Hm H w op' w' (a & w1 & Ha & Hk)%rm_bind_Ok. eapply H; [by eapply Hm|exact Hk]. Qed.
Lemma carries_fold {A} (f : PendingAccountOperation -> A -> RM PendingAccountOperation) l :
  (forall op x, Carries (f op x) op) -> forall op, Carries (fold_rm f op l) op.
Proof.
  intros Hf. induction l as [|x l IH]; intros op; cbn [fold_rm]; [by apply carries_ret|].
  intros w op' w' (op1 & w1 & H1 & H2)%rm_bind_Ok. etransitivity; [by eapply Hf|by eapply IH].
Qed.
Lemma carries_trans m op op1 : kept_op op op1 -> Carries m op1 -> Carries m op.
Proof. intros H Hm w op' w' Hw. etransitivity; [exact H|by eapply Hm]. Qed.
End Carries.

Section CarriesRotation.
Context {R : RuntimeEnv} {X : RotationText} {B : AccountBuild} (path : str) (new : ChainKeys).

Lemma the_plan_Ok op p w w1 : of_result (the_plan op) w = (Ok p, w1) -> op_rotation op = Some p.
Proof. unfold the_plan. intros [H _]%of_result_Ok. by apply ok_or_Ok in H. Qed.
Definition same_source (p q : RotationPlan) : Prop :=
  source_code_account q = source_code_account p /\ chain_id (source_account q) = chain_id (source_account p).
Lemma kept_rotation op p q : op_rotation op = Some p -> same_source p q -> kept_op new op (with_rotation op q).
Proof. intros Hp [Hq Hs]. split; try done; rewrite Hp; cbn; congruence. Qed.
Lemma kept_account op a : chain_id a = chain_id (prepared_account op) -> kept_op new op (with_account op a).
Proof. intros Ha. split; try done. cbn. by rewrite Ha. Qed.

(** Looking at the target. *)
Lemma target_proof_Ok op keys w op' w' : target_proof path op keys w = (Ok op', w') ->
  exists w1 pulled w2, relay_pull (op_relay_url op) (ck_chain_id keys) (ck_auth_token keys) 0 w1 = (Ok (Ok pulled), w2) /\
    (exists a, op' = with_account op a /\ same_rows (prepared_account op) a) /\
    (dirty (a_records (prepared_account op')) (a_sealed (prepared_account op')) = false ->
     at_target keys (prepared_account op') (pull_records pulled)) /\
    forall T : relation RWorld, PreOrder T -> (forall op1, Within T (store_plan path op1 false)) -> T w2 w'.
Proof.
  unfold target_proof. intros (u & w1 & _ & H)%rm_bind_Ok. apply rm_bind_Ok in H as (u' & w2 & _ & H).
  apply rm_bind_Ok in H as (r & w3 & Hr & H). apply rm_bind_Ok in H as (pulled & w4 & [Hp ->]%of_result_Ok & H).
  apply rm_bind_Ok in H as (u'' & w5 & [_ ->]%of_result_Ok & H). cbv zeta in H.
  apply rm_bind_Ok in H as (p & w6 & [_ ->]%of_result_Ok & H).
  destruct r as [pulled'|e]; [|done]. injection Hp as ->. destruct (authorized _ _ _ _ _).
  - apply rm_bind_Ok in H as (a & w7 & [Ha ->]%of_result_Ok & H). apply rm_bind_Ok in H as (u3 & w8 & Hst & H). injection H as <- <-.
    apply confirmed_at in Ha as [Hs Hat]. eexists _, pulled, _. split; [exact Hr|]. split; [by exists a|]. split; [exact Hat|].
    intros T _ HT. specialize (HT (with_account op a) w3). by rewrite Hst in HT.
  - by apply rm_bind_Ok in H as (u3 & w8 & _ & H).
Qed.
Lemma carries_target_proof op keys : Carries new (target_proof path op keys) op.
Proof.
  intros w op' w' (w1 & pulled & w2 & _ & (a & -> & [Hc _ _]) & _ & _)%target_proof_Ok. by apply kept_account.
Qed.

Lemma carries_push op space : Carries new (push_target path op new space) op.
Proof.
  unfold push_target. apply carries_seq; [apply carries_target_proof|]. intros op1 H1.
  apply carries_bind; intros keys ? ? _. apply carries_bind; intros st ? ? _. apply carries_bind; intros sent ? ? _.
  destruct sent as [|s sent]; [by apply carries_ret|].
  apply carries_bind; intros u ? ? _. apply carries_bind; intros u' ? ? _. apply carries_bind; intros pushed ? ? _.
  apply carries_bind; intros op2 ? ? [H2 _]%of_result_Ok. do 2 (apply carries_bind; intros ? ? ? _). apply carries_ret.
  etransitivity; [exact H1|]. unfold set_section in H2. destruct space as [id|]; ok_inv; [|by apply kept_account].
  unfold the_plan in Hok. apply ok_or_Ok in Hok. by eapply kept_rotation.
Qed.
Lemma carries_space_proof op id : Carries new (space_proof path op new id) op.
Proof.
  unfold space_proof. apply carries_seq; [apply carries_target_proof|]. intros op1 H1.
  do 5 (apply carries_bind; intros ? ? ? _). apply carries_bind; intros p ? ? Hp%the_plan_Ok.
  do 2 (apply carries_bind; intros ? ? ? _). cbv zeta. apply carries_bind; intros ? ? ? _. apply carries_ret.
  etransitivity; [exact H1|]. by eapply kept_rotation.
Qed.

Lemma carries_freeze_chain op chain token : Carries new (freeze_chain path op chain token) op.
Proof.
  unfold freeze_chain. apply carries_bind; intros p ? ? Hp%the_plan_Ok. destruct (bs_contains _ _); [by apply carries_ret|].
  do 3 (apply carries_bind; intros ? ? ? _). cbv zeta. apply carries_bind; intros ? ? ? _. apply carries_ret. by eapply kept_rotation.
Qed.
Lemma carries_freeze_space old op id : Carries new (freeze_space path old op id) op.
Proof.
  unfold freeze_space. apply carries_bind; intros p ? ? _. destruct (bs_contains _ _); [by apply carries_ret|].
  do 2 (apply carries_bind; intros ? ? ? _). apply carries_freeze_chain.
Qed.
Lemma carries_prepare op old : Carries new (prepare_targets op old new) op.
Proof.
  unfold prepare_targets. apply carries_bind; intros p ? ? Hp%the_plan_Ok. cbv zeta.
  do 4 (apply carries_bind; intros ? ? ? _). apply carries_ret. split; try done; cbn; by rewrite Hp.
Qed.
Lemma merged_chain a keys pulled since : chain_id (mo_section (merge_account a keys pulled since)) = chain_id a.
Proof.
  unfold merge_account. destruct (account_gate _ _ _) as [gate schema]. destruct (negb _); [done|]. destruct (negb _); [done|].
  destruct (admit_retained_group_order _ _) as [ok st]. destruct ok.
  - destruct (merge_rows _ _ _ _) as [[] st']; done.
  - done.
Qed.
Lemma source_full_chain source keys cached w full w1 :
  source_full path source keys cached w = (Ok full, w1) -> chain_id full.1 = chain_id source.
Proof.
  unfold source_full. intros (s & w2 & _ & H)%rm_bind_Ok. cbv zeta in H. do 3 (apply rm_bind_Ok in H as (? & ? & _ & H)).
  apply rm_bind_Ok in H as (a & w6 & [Ha _]%of_result_Ok & H). do 2 (apply rm_bind_Ok in H as (? & ? & _ & H)). injection H as <- _.
  unfold whole_account in Ha. ok_inv. apply merged_chain.
Qed.
Lemma read_source_Ok op source old w r w1 : read_source path op source old w = (Ok r, w1) ->
  exists p, op_rotation op = Some p /\ (chain_id source = chain_id (source_account p) -> same_source p r.2).
Proof.
  unfold read_source. intros (p & w2 & Hp%the_plan_Ok & H)%rm_bind_Ok. apply rm_bind_Ok in H as (full & w3 & Hf & H).
  injection H as <- _. exists p. split; [done|]. intros Hs. split; [done|]. cbn. rewrite <-Hs. by eapply source_full_chain.
Qed.
Lemma choose_ids_Ok p w q w1 : choose_ids p w = (Ok q, w1) -> same_source p q.
Proof. unfold choose_ids. cbv zeta. intros (ids & w2 & _ & H)%rm_bind_Ok. by injection H as <- _. Qed.
Lemma kept_source op op' p : kept_op new op op' -> op_rotation op = Some p ->
  exists q, op_rotation op' = Some q /\ chain_id (source_account q) = chain_id (source_account p).
Proof.
  intros [_ _ _ _ Hs _ _] Hp. rewrite Hp in Hs. destruct (op_rotation op') as [q|]; [|done]. exists q. split; [done|]. by injection Hs.
Qed.
Lemma carries_freeze_source op old fresh p0 :
  op_rotation op = Some p0 -> chain_id fresh = chain_id (source_account p0) -> Carries new (freeze_source path op old new fresh) op.
Proof.
  intros Hp0 Hfresh. unfold freeze_source. apply carries_bind; intros p ? ? Hp%the_plan_Ok. cbv zeta.
  set (op0 := with_rotation op _). assert (H0 : kept_op new op op0) by (by eapply kept_rotation).
  apply carries_bind; intros ? ? ? _. apply carries_seq; [eapply carries_trans; [exact H0|apply carries_freeze_chain]|].
  intros op1 H1. apply carries_bind; intros r ? ? (p1 & Hp1 & Hs1)%read_source_Ok.
  apply carries_bind; intros p2 ? ? Hp2%choose_ids_Ok.
  set (op2 := with_rotation op1 p2). assert (H2 : kept_op new op op2).
  { etransitivity; [exact H1|]. eapply kept_rotation; [exact Hp1|].
    destruct (kept_source _ _ _ H1 Hp0) as (q & Hq & Hc). rewrite Hp1 in Hq. injection Hq as ->.
    destruct Hs1 as [S1 S2]; [congruence|]. destruct Hp2 as [S3 S4]. split; congruence. }
  apply carries_bind; intros ? ? ? _.
  apply carries_seq; [eapply carries_trans; [exact H2|]; apply carries_fold; intros; apply carries_freeze_space|]. intros op3 H3.
  apply carries_bind; intros p3 ? ? Hp3%the_plan_Ok. apply carries_bind; intros r3 ? ? (p4 & Hp4 & Hs4)%read_source_Ok.
  rewrite Hp3 in Hp4. injection Hp4 as ->. specialize (Hs4 eq_refl).
  apply carries_bind; intros bytes ? ? _.
  apply carries_seq; [eapply carries_trans; [|apply carries_prepare]; etransitivity; [exact H3|]; by eapply kept_rotation|].
  intros op5 H5. apply carries_bind; intros s ? ? _. apply carries_bind; intros named ? ? [Ha _]%of_result_Ok.
  apply carries_bind; intros p5 ? ? Hp5%the_plan_Ok. do 3 (apply carries_bind; intros ? ? ? _). apply carries_ret.
  etransitivity; [exact H5|]. transitivity (with_account op5 named); [|by eapply kept_rotation].
  apply kept_account. unfold name_device in Ha. destruct (bt_get _ _); ok_inv; done.
Qed.

Lemma carries_create op : Carries new (create_target path op new) op.
Proof.
  unfold create_target. apply carries_bind; intros p ? ? Hp%the_plan_Ok. destruct (bs_contains _ _); [by apply carries_ret|].
  do 3 (apply carries_bind; intros ? ? ? _). cbv zeta. apply carries_bind; intros ? ? ? _. apply carries_ret.
  split; try done; cbn; by rewrite Hp.
Qed.
Lemma carries_create_space op id : Carries new (create_target_space path new op id) op.
Proof.
  unfold create_target_space. apply carries_bind; intros p ? ? _. destruct (bs_contains _ _); [by apply carries_ret|].
  apply carries_seq; [apply carries_target_proof|]. intros op1 H1. do 5 (apply carries_bind; intros ? ? ? _).
  apply carries_bind; intros p1 ? ? Hp1%the_plan_Ok. cbv zeta. apply carries_bind; intros ? ? ? _. apply carries_ret.
  etransitivity; [exact H1|]. by eapply kept_rotation.
Qed.
Lemma carries_copy_to_space op id : Carries new (copy_to_space path new op id) op.
Proof.
  unfold copy_to_space. apply carries_seq; [apply carries_space_proof|]. intros op1 H1.
  apply carries_seq; [eapply carries_trans; [exact H1|apply carries_push]|]. intros op2 H2.
  apply carries_seq; [eapply carries_trans; [exact H2|apply carries_space_proof]|]. intros op3 H3.
  do 2 (apply carries_bind; intros ? ? ? _). by apply carries_ret.
Qed.
Lemma carries_copy_to_target op ids : Carries new (copy_to_target path op new ids) op.
Proof.
  unfold copy_to_target. apply carries_seq; [apply carries_push|]. intros op1 H1.
  apply carries_seq; [eapply carries_trans; [exact H1|]; apply carries_fold; intros; apply carries_copy_to_space|]. intros op2 H2.
  apply carries_seq; [eapply carries_trans; [exact H2|apply carries_target_proof]|]. intros op3 H3.
  apply carries_bind; intros ? ? ? _. apply carries_bind; intros p ? ? Hp%the_plan_Ok.
  apply carries_bind; intros op4 ? ? [H4 _]%of_result_Ok. apply carries_bind; intros ? ? ? _. apply carries_ret.
  etransitivity; [exact H3|]. unfold release, stamped in H4. ok_inv. split; try done; cbn; by rewrite Hp.
Qed.
Lemma source_proof_Ok op keys w a w1 : source_proof path op keys w = (Ok a, w1) ->
  exists p, op_rotation op = Some p /\ ck_chain_id keys = chain_id (source_account p) /\ chain_id a = chain_id (source_account p).
Proof.
  unfold source_proof. intros (u & w2 & _ & H)%rm_bind_Ok. apply rm_bind_Ok in H as (p & w3 & Hp%the_plan_Ok & H).
  apply rm_bind_Ok in H as (u2 & w4 & [Hr _]%require_Ok & H). apply bool_decide_eq_true in Hr. exists p. split; [done|]. split; [done|].
  apply rm_bind_Ok in H as (s & w5 & _ & H). cbv zeta in H. do 3 (apply rm_bind_Ok in H as (? & ? & _ & H)).
  destruct (_ =?= Compatible).
  - injection H as <- _. rewrite merged_chain. unfold opt_filter. destruct (account s.1); [|done]. by destruct (_ =?= _).
  - by apply rm_bind_Ok in H as (? & ? & _ & H).
Qed.
Lemma archive_codes_Ok op old source phrase w r w1 : archive_codes path op old new source phrase w = (Ok r, w1) ->
  kept_op new op r.1 /\ exists p, op_rotation op = Some p /\ ck_chain_id old = chain_id (source_account p) /\
    chain_id r.2 = chain_id (source_account p).
Proof.
  unfold archive_codes. intros (fresh & w2 & Hf%source_proof_Ok & H)%rm_bind_Ok. apply rm_bind_Ok in H as (u & w3 & _ & H).
  apply rm_bind_Ok in H as (p & w4 & _ & H). apply rm_bind_Ok in H as (op1 & w5 & H1 & H).
  do 5 (apply rm_bind_Ok in H as (? & ? & _ & H)). injection H as <- _. cbn [fst snd]. split; [|exact Hf].
  destruct (bs_contains _ _); [by eapply carries_target_proof|by injection H1 as <- _].
Qed.
End CarriesRotation.

(** ** What the steps of a rotation keep *)

Section Calm.
Context {R : RuntimeEnv} {X : RotationText} {B : AccountBuild} (path : str).

(** A relation that the steps keep for plans with a property, where the property does not
    look at what the target and the source look like. *)
Class Calm (T : relation RWorld) (G : PendingAccountOperation -> Prop) : Prop := {
  calm_pre :: PreOrder T;
  calm_now : Within T now;
  calm_fill n : Within T (fill n);
  calm_get name : Within T (keychain_get name);
  calm_pull url chain token since : Within T (relay_pull url chain token since);
  calm_push url chain token sent : Within T (relay_push url chain token sent);
  calm_create url chain token : Within T (relay_create url chain token);
  calm_freeze url chain token : Within T (relay_freeze url chain token);
  calm_snapshot : Within T (snapshot path);
  calm_preflight : Within T (preflight path);
  calm_store op accepted : G op -> Within T (store_plan path op accepted);
  calm_retain op : G op -> Within T (retain_blocked_gate path op);
  calm_mark chain at_ms : Within T (mutate_records path (mark_source chain at_ms));
  calm_account op a : chain_id a = chain_id (prepared_account op) -> G op -> G (with_account op a);
  calm_source op p a : op_rotation op = Some p -> chain_id a = chain_id (source_account p) -> G op ->
    G (with_rotation op (set_source_account p a))
}.

Context (T : relation RWorld) (G : PendingAccountOperation -> Prop) `{!Calm T G}.
#[local] Hint Extern 1 (Within T _) =>
  first [ apply (calm_now (T:=T) (G:=G)) | apply (calm_fill (T:=T) (G:=G)) | apply (calm_get (T:=T) (G:=G))
        | apply (calm_pull (T:=T) (G:=G)) | apply (calm_push (T:=T) (G:=G)) | apply (calm_create (T:=T) (G:=G))
        | apply (calm_freeze (T:=T) (G:=G)) | apply (calm_snapshot (T:=T) (G:=G)) | apply (calm_preflight (T:=T) (G:=G))
        | apply (calm_mark (T:=T) (G:=G)) ] : within.

Lemma calm_ensure op : Within T (ensure_latest_plan path op).
Proof. unfold ensure_latest_plan. within. Qed.
Lemma calm_source_proof op keys : G op -> Within T (source_proof path op keys).
Proof.
  intros Hg w. unfold source_proof. apply (within_bind_at T); [apply calm_preflight|]. intros u w1 _.
  apply (within_bind_at T); [apply within_of_result, _|]. intros p w2 Hp%the_plan_Ok.
  apply (within_bind T); [within|]. intros u2. apply (within_bind T); [within|]. intros s. cbv zeta.
  do 3 (apply (within_bind T); [within|]; intros ?). destruct (_ =?= Compatible); [apply within_ret, _|].
  apply (within_bind T); [|intros; apply within_fail, _]. apply calm_retain.
  destruct (opt_filter _ _); [by apply calm_source|done].
Qed.
Lemma calm_target_proof op keys : G op -> Within T (target_proof path op keys).
Proof.
  intros Hg. unfold target_proof. do 5 (apply (within_bind T); [within|]; intros ?). cbv zeta.
  apply (within_bind T); [within|]; intros p. destruct (authorized _ _ _ _ _).
  - intros w. apply (within_bind_at T); [apply within_of_result, _|]. intros acc w1 [[Hs _]%confirmed_at _]%of_result_Ok.
    apply (within_bind T); [apply calm_store, calm_account; [apply Hs|done]|within].
  - apply (within_bind T); [|intros; apply within_fail, _]. apply calm_retain. destruct (opt_filter _ _); [|done].
    by apply calm_account.
Qed.
#[local] Hint Resolve calm_ensure : within.
Lemma calm_source_full source keys cached : Within T (source_full path source keys cached).
Proof. unfold source_full, source_space. within. Qed.
Lemma calm_prepare op old new : Within T (prepare_targets op old new).
Proof. unfold prepare_targets, add_child, generate_keys, copy_space, copy_sealed. within. Qed.
Lemma calm_outgoing keys records sealed : Within T (rotation_outgoing keys records sealed).
Proof. unfold rotation_outgoing, send_record, send_sealed. within. Qed.
Lemma calm_source_code op : Within T (source_code op).
Proof. unfold source_code, code. within. Qed.
#[local] Hint Resolve calm_source_full calm_prepare calm_outgoing : within.
Lemma calm_read_source op source old : Within T (read_source path op source old).
Proof. unfold read_source. within. Qed.
Lemma calm_choose_ids p : Within T (choose_ids p).
Proof. unfold choose_ids, add_space_id, generate_keys. within. Qed.

(** The whole rotation, for a property that the names of the plan decide. *)
Context (new : ChainKeys).
Hypothesis Hkept : forall op op', kept_op new op op' -> G op -> G op'.

Lemma calm_seq (m : RM PendingAccountOperation) (k : PendingAccountOperation -> RM PendingAccountOperation) op :
  G op -> Carries new m op -> Within T m -> (forall op1, G op1 -> Within T (k op1)) -> Within T (m ≫= k).
Proof.
  intros Hg Hc Hm Hk w. apply (within_bind_at T); [apply Hm|]. intros op1 w1 H1. apply Hk. eapply Hkept; [|exact Hg]. by eapply Hc.
Qed.
Lemma calm_fold {A} (f : PendingAccountOperation -> A -> RM PendingAccountOperation) l :
  (forall op x, Carries new (f op x) op) -> (forall op x, G op -> Within T (f op x)) ->
  forall op, G op -> Within T (fold_rm f op l).
Proof.
  intros Hc Hf. induction l as [|x l IH]; intros op Hg; cbn [fold_rm]; [apply within_ret, _|].
  eapply calm_seq; [exact Hg|apply Hc|by apply Hf|done].
Qed.
Lemma calm_plan {A} op (k : RotationPlan -> RM A) :
  (forall p, op_rotation op = Some p -> Within T (k p)) -> Within T (p ← of_result (the_plan op); k p).
Proof.
  intros Hk w. apply (within_bind_at T); [apply within_of_result, _|]. intros p w1 Hp%the_plan_Ok. by apply Hk.
Qed.
Lemma good_plan op p q : G op -> op_rotation op = Some p -> same_source p q -> G (with_rotation op q).
Proof. intros Hg Hp Hs. eapply Hkept; [|exact Hg]. by eapply kept_rotation. Qed.

Lemma calm_push_target op space : G op -> Within T (push_target path op new space).
Proof.
  intros Hg. unfold push_target. eapply calm_seq; [exact Hg|apply carries_target_proof|by apply calm_target_proof|]. intros op1 H1.
  do 3 (apply (within_bind T); [within|]; intros ?). destruct a1 as [|x sent]; [within|].
  do 3 (apply (within_bind T); [within|]; intros ?).
  intros w. apply (within_bind_at T); [apply within_of_result, _|]. intros op2 w2 [H2 _]%of_result_Ok.
  apply (within_bind T); [|intros; within]. apply calm_store. unfold set_section in H2. destruct space as [id|]; ok_inv.
  - unfold the_plan in Hok. apply ok_or_Ok in Hok. by eapply good_plan.
  - by apply calm_account.
Qed.
Lemma calm_space_proof op id : G op -> Within T (space_proof path op new id).
Proof.
  intros Hg. unfold space_proof. eapply calm_seq; [exact Hg|apply carries_target_proof|by apply calm_target_proof|]. intros op1 H1.
  do 5 (apply (within_bind T); [within|]; intros ?). apply calm_plan. intros p Hp.
  do 2 (apply (within_bind T); [within|]; intros ?). cbv zeta.
  apply (within_bind T); [|intros; within]. apply calm_store. by eapply good_plan.
Qed.
Lemma calm_freeze_chain op chain token : G op -> Within T (freeze_chain path op chain token).
Proof.
  intros Hg. unfold freeze_chain. apply calm_plan. intros p Hp. destruct (bs_contains _ _); [within|].
  do 3 (apply (within_bind T); [within|]; intros ?). cbv zeta.
  apply (within_bind T); [|intros; within]. apply calm_store. by eapply good_plan.
Qed.
Lemma calm_freeze_space old op id : G op -> Within T (freeze_space path old op id).
Proof. intros Hg. pose proof (fun c t => calm_freeze_chain op c t Hg). unfold freeze_space. within. Qed.

Lemma calm_freeze_source op old fresh p0 : op_rotation op = Some p0 -> chain_id fresh = chain_id (source_account p0) ->
  G op -> Within T (freeze_source path op old new fresh).
Proof.
  intros Hp0 Hfresh Hg. unfold freeze_source. apply calm_plan. intros p Hp. cbv zeta.
  assert (H0 : G (with_rotation op (set_step p Freezing))) by (by eapply good_plan).
  apply (within_bind T); [by apply calm_store|]. intros _.
  set (op0 := with_rotation op _) in *. intros w. apply (within_bind_at T); [by apply calm_freeze_chain|].
  intros op1 w1 Hk1%(carries_freeze_chain path new).
  assert (H1 : G op1) by (by eapply Hkept). assert (Hp0' : op_rotation op0 = Some (set_step p Freezing)) by done.
  apply (within_bind_at T); [apply calm_read_source|]. intros r w2 (p1 & Hp1 & Hs1)%read_source_Ok.
  destruct (kept_source new _ _ _ Hk1 Hp0') as (q & Hq & Hc). rewrite Hp1 in Hq. injection Hq as ->.
  rewrite Hp in Hp0. injection Hp0 as ->. specialize (Hs1 (eq_trans Hfresh (eq_sym Hc))).
  apply (within_bind_at T); [apply calm_choose_ids|]. intros p2 w3 Hp2%choose_ids_Ok.
  assert (H2 : G (with_rotation op1 p2)).
  { eapply good_plan; [exact H1|exact Hp1|]. destruct Hs1, Hp2. split; congruence. }
  apply (within_bind T); [by apply calm_store|]. intros _.
  eapply calm_seq; [exact H2|apply carries_fold; intros; apply carries_freeze_space| |].
  { apply calm_fold; [intros; apply carries_freeze_space|intros; by apply calm_freeze_space|done]. }
  intros op3 H3. apply calm_plan. intros p3 Hp3. intros w4.
  apply (within_bind_at T); [apply calm_read_source|]. intros r3 w5 (p4 & Hp4 & Hs4)%read_source_Ok.
  rewrite Hp3 in Hp4. injection Hp4 as ->. specialize (Hs4 eq_refl). cbv zeta.
  apply (within_bind T); [within|]. intros bytes.
  eapply calm_seq; [exact (good_plan op3 p4 (set_digest r3.2 (sha256_hex bytes)) H3 Hp3 Hs4)|apply carries_prepare|within|]. intros op5 H5.
  apply (within_bind T); [within|]. intros s. intros w6.
  apply (within_bind_at T); [apply within_of_result, _|]. intros named w7 [Ha _]%of_result_Ok.
  apply calm_plan. intros p5 Hp5. apply (within_bind T); [|intros; within]. apply calm_store.
  eapply (good_plan (with_account op5 named)); [|exact Hp5|done]. apply calm_account; [|done].
  unfold name_device in Ha. destruct (bt_get _ _); ok_inv; done.
Qed.

Lemma calm_create_target op : G op -> Within T (create_target path op new).
Proof.
  intros Hg. unfold create_target. apply calm_plan. intros p Hp. destruct (bs_contains _ _); [within|].
  do 3 (apply (within_bind T); [within|]; intros ?). cbv zeta.
  apply (within_bind T); [|intros; within]. apply calm_store. eapply Hkept; [|exact Hg].
  split; try done; cbn; by rewrite Hp.
Qed.
Lemma calm_create_space op id : G op -> Within T (create_target_space path new op id).
Proof.
  intros Hg. unfold create_target_space. apply calm_plan. intros p Hp. destruct (bs_contains _ _); [within|].
  eapply calm_seq; [exact Hg|apply carries_target_proof|by apply calm_target_proof|]. intros op1 H1.
  do 5 (apply (within_bind T); [within|]; intros ?). apply calm_plan. intros p1 Hp1. cbv zeta.
  apply (within_bind T); [|intros; within]. apply calm_store. by eapply good_plan.
Qed.
Lemma calm_copy_space op id : G op -> Within T (copy_to_space path new op id).
Proof.
  intros Hg. unfold copy_to_space. eapply calm_seq; [exact Hg|apply carries_space_proof|by apply calm_space_proof|]. intros op1 H1.
  eapply calm_seq; [exact H1|apply carries_push|by apply calm_push_target|]. intros op2 H2.
  eapply calm_seq; [exact H2|apply carries_space_proof|by apply calm_space_proof|]. intros op3 H3. within.
Qed.
Lemma calm_copy_target op ids : G op -> Within T (copy_to_target path op new ids).
Proof.
  intros Hg. unfold copy_to_target. eapply calm_seq; [exact Hg|apply carries_push|by apply calm_push_target|]. intros op1 H1.
  eapply calm_seq; [exact H1|apply carries_fold; intros; apply carries_copy_to_space| |].
  { apply calm_fold; [intros; apply carries_copy_to_space|intros; by apply calm_copy_space|done]. }
  intros op2 H2. eapply calm_seq; [exact H2|apply carries_target_proof|by apply calm_target_proof|]. intros op3 H3.
  apply (within_bind T); [unfold require_clean; within|]. intros _. apply calm_plan. intros p Hp. intros w.
  apply (within_bind_at T); [apply within_of_result, _|]. intros op4 w1 [H4 _]%of_result_Ok.
  apply (within_bind T); [|intros; within]. apply calm_store. eapply Hkept; [|exact H3].
  unfold release, stamped in H4. ok_inv. split; try done; cbn; by rewrite Hp.
Qed.
End Calm.
