(* ===== verification/RecordRotateCodes.v ===== *)
(** * RecordRotateCodes: a rotation ends, confirmed, and nobody is locked out

    The new account comes into force only after the relay gave back every row as it was
    planned; whichever account is in force, its sync code is in the keychain; resuming ends,
    whatever the other threads do; and the copy has every row of the source. *)

From stdpp Require Import gmap.
From S2P Require Import Prelude Text BTreeMap KeyProps SlotRules ImportText ImportLoad HostText SpaceFiles SpaceFilesProps Json SyncRecord RecordsTypes RecordsValidate RecordsState RepositoryCore RecordGroups Repository GroupEdit GroupOrderEdit StateCheck Crypto Relay RecordMerge RecordPush RecordMergeProps RecordLibrary RecordRuntime RecordRuntimeProps RecordRound RecordRoundProps RecordLeave RecordRotate RecordLeaveProps RecordRotateProps.
Import RecordRotation.

(** ** What stays in memory while the source is in force *)

Section Phases.
Context {R : RuntimeEnv} {X : RotationText} {B : AccountBuild} (path : str).

Definition chain_of (s : SyncStateV3) : option str := chain_id <$> account s.

(** A publication leaves the account what it is. *)
Lemma set_order_chain s keys at_ms n : publish_local s keys at_ms = Ok n -> chain_of n = chain_of s.
Proof.
  unfold publish_local, chain_of. destruct (account s) as [a|] eqn:Ha; [|intros [= <-]; by rewrite Ha].
  destruct (_ || _); [intros [= <-]; by rewrite Ha|]. intros H. by ok_inv.
Qed.
Lemma promote_chain s scope confirmed at_ms n : promote s scope confirmed at_ms = Ok n -> chain_of n = chain_of s.
Proof.
  unfold promote. intros H. ok_inv. destruct (is_space scope && _).
  - unfold promote_account in H. ok_inv. change (account s = Some v3) in Hok3. unfold chain_of. by rewrite Hok3.
  - by ok_inv.
Qed.
Lemma include_row_chain s destination retained at_ms n row m :
  RecordLibrary.include_row s destination retained at_ms n row = Ok m -> chain_of m = chain_of n.
Proof. unfold RecordLibrary.include_row. intros H. ok_inv. unfold RecordLibrary.bury_local. by destruct (_ =?= _). Qed.
Lemma include_chain s destination confirmed at_ms keys n :
  RecordLibrary.include_existing s destination confirmed at_ms keys = Ok n -> chain_of n = chain_of s.
Proof.
  unfold RecordLibrary.include_existing. intros H. ok_inv. destruct (RecordLibrary.local_rows s) as [|r rows]; [by ok_inv|]. ok_inv.

  apply set_order_chain in Hok7. rewrite Hok7. clear Hok7.
  assert (chain_of v4 = chain_of s) as <- by (destruct (existsb _ (r :: rows)); [by eapply promote_chain|by ok_inv]).
  eapply (try_fold_inv (fun m => chain_of m = chain_of v4)); [|done|exact Hok5].
  intros b row b' _ <- Hf. by eapply include_row_chain.
Qed.
Lemma include_new_chain s keys : chain_of (RecordLibrary.include_new_records s keys) = chain_of s.
Proof.
  unfold RecordLibrary.include_new_records. destruct (_ || _); [done|]. destruct (negb _); [done|].
  destruct (RecordLibrary.space_id s); [|done]. destruct (RecordLibrary.include_existing _ _ _ _ _) eqn:H; [|done].
  by eapply include_chain.
Qed.
Lemma published_chain c s n : published c s = Ok n -> chain_of n = chain_of s.
Proof.
  unfold published. cbv zeta. intros H.
  assert (Hv : forall s v, chain_of (set_version s v) = chain_of s) by done.
  set (s1 := if _ && _ then _ else s) in H. assert (H1 : chain_of s1 = chain_of s) by (unfold s1; by destruct (_ && _)).
  set (s2 := if has_navigation_data _ then _ else _) in H.
  assert (H2 : chain_of s2 = chain_of s) by (rewrite <-H1, <-(include_new_chain s1 (account_keys c)); unfold s2; by destruct (has_navigation_data _)).
  destruct (records c) as [before|]; [|by injection H as <-]. rewrite <-H2.
  destruct (invalidate_changed_pins before s2) as [n'|] eqn:Hn; [|done]. injection H as <-.
  apply invalidate_published in Hn as [Ha _ _ _ _]. unfold chain_of. by rewrite Ha.
Qed.

(** The account in force has this chain, and this is the pending operation. *)
Definition in_force (c : str) (G : PendingAccountOperation -> Prop) (s : SyncStateV3) : Prop :=
  chain_of s = Some c /\ exists op, pending_account s = Some op /\ G op.
#[export] Instance kept_in_force c G : Kept (in_force c G).
Proof.
  intros core s n [Hc (op & Hp & Hg)] Hn. pose proof (published_chain _ _ _ Hn) as Hn2.
  apply published_Ok in Hn as [_ Hp2 _ _ _]; [|right; by rewrite Hp].
  split; [congruence|]. exists op. by rewrite Hp2.
Qed.

(** What the plan must be is decided by what the observations of its accounts leave alone. *)
Class Observed (G : PendingAccountOperation -> Prop) : Prop := {
  observed_account op a : chain_id a = chain_id (prepared_account op) -> G op -> G (with_account op a);
  observed_source op p a : op_rotation op = Some p -> chain_id a = chain_id (source_account p) -> G op ->
    G (with_rotation op (set_source_account p a))
}.
Lemma observed_keep G `{!Observed G} op old : G op -> G (keep_observed op old).
Proof.
  intros Hg. unfold keep_observed. cbv zeta. pose proof (observed_account op (schema_max (prepared_account op) (prepared_account old)) eq_refl Hg) as H1.
  destruct (op_rotation (with_account _ _)) as [p|] eqn:Hp; [|exact H1]. destruct (op_rotation old) as [q|]; [|exact H1].
  by apply observed_source.
Qed.

Context (c : str) (G : PendingAccountOperation -> Prop) `{!Observed G}.
Lemma stored_in_force op s n : G op -> in_force c G s -> stored_plan op s = Ok n -> in_force c G n.
Proof.
  unfold stored_plan. intros Hg [Hc (old & Hp & _)] H. ok_inv. rewrite Hp. cbn [from_option].
  destruct (future _); (split; [exact Hc|]); eexists; (split; [reflexivity|]); by apply observed_keep.
Qed.
Lemma memory_store_plan op accepted : G op -> Within (memory (in_force c G)) (store_plan path op accepted).
Proof.
  intros Hg. unfold store_plan. destruct (negb accepted).
  - apply within_bind; [apply _| |intros; apply within_ret, _]. apply memory_mutate; [apply _|]. intros s n. by apply stored_in_force.
  - apply memory_retained. intros s n. by apply stored_in_force.
Qed.
Lemma memory_retain_blocked op : G op -> Within (memory (in_force c G)) (retain_blocked_gate path op).
Proof.
  intros Hg. unfold retain_blocked_gate. apply within_bind; [apply _|by apply within_attempt, memory_store_plan|]. intros [u|e]; [within|].
  apply memory_locked. intros w. apply within_bind_at; [apply _| |intros; apply within_fail, _].
  destruct (records (core w)) as [s|] eqn:Hs; [|reflexivity]. cbn [mbind option_bind].
  destruct (retained_gate op s) as [n|] eqn:Hn; [|reflexivity]. apply memory_put. intros Hm s' [= <-].
  specialize (Hm s Hs). destruct Hm as [Hc (old & Hp & Ho)]. unfold retained_gate in Hn. destruct (negb _); [done|].
  rewrite Hp in Hn. unfold opt_filter in Hn. destruct (_ =?= _); [|done]. injection Hn as <-.
  split; [exact Hc|]. eexists. split; [reflexivity|]. by apply observed_keep.
Qed.
Lemma memory_mark chain at_ms : Within (memory (in_force c G)) (mutate_records path (mark_source chain at_ms)).
Proof.
  apply memory_mutate; [apply _|]. intros s n [Hc Hp] [= <-]. unfold opt_filter. destruct (account s) as [a|] eqn:Ha; [|by split].
  destruct (_ =?= _); [|by split]. split; [|exact Hp]. unfold chain_of in *. rewrite Ha in Hc. by injection Hc as <-.
Qed.
#[export] Instance calm_memory : Calm path (memory (in_force c G)) G.
Proof.
  split; try apply _; auto with within; try (intros; apply memory_keychain).
  - apply memory_store_plan.
  - apply memory_retain_blocked.
  - apply memory_mark.
  - apply observed_account.
  - apply observed_source.
Qed.
End Phases.

(** ** What the steps of a rotation do to the keychain and to the calls *)

Section Quiet.
Context {R : RuntimeEnv} {X : RotationText} {B : AccountBuild} (path : str).

Definition any_plan (op : PendingAccountOperation) : Prop := True.
#[export] Instance observed_any : Observed any_plan.
Proof. by split. Qed.

Section Mild.
Context (T : relation RWorld) `{!Mild T}.
Hypothesis Hpush : forall url chain token sent, Within T (relay_push url chain token sent).
Hypothesis Hcreate : forall url chain token, Within T (relay_create url chain token).
Hypothesis Hfreeze : forall url chain token, Within T (relay_freeze url chain token).

Lemma mild_save_core : Within T (save_core path).
Proof.
  unfold save_core. apply within_bind; [apply _|within|]. intros c. cbv zeta. destruct (save_blocked c); [within|].
  assert (forall m, Within T m -> Within T (noting_unsaved c m)) by (intros; unfold noting_unsaved; within).
  assert (Within T (match state c with Some s => on_files (save_v2 path s) | None => mret tt end)) by within.
  within. apply H. within.
Qed.
Lemma mild_retained f invalid exhausted : Within T (commit_retained path f invalid exhausted).
Proof. pose proof mild_save_core. unfold commit_retained. within. Qed.
Lemma calm_mild : Calm path T any_plan.
Proof.
  pose proof mild_retained.
  assert (forall op accepted, Within T (store_plan path op accepted)) by (intros; unfold store_plan; within).
  split; try apply _; try done; auto with within.
  intros op _. unfold retain_blocked_gate. within.
Qed.
End Mild.

#[export] Instance calm_keychain : Calm path same_keychain any_plan.
Proof.
  apply calm_mild; [apply _|..]; intros; intros w.
  - unfold relay_push. by destruct (push_outgoing _ _ _ _).
  - unfold relay_create. by destruct (net_create_chain _ _ _ _).
  - unfold relay_freeze. by destruct (net_freeze_chain _ _ _ _).
Qed.

Definition more_calls (w w' : RWorld) : Prop := calls w `prefix_of` calls w'.
#[export] Instance more_calls_pre : PreOrder more_calls.
Proof. unfold more_calls. split; [by intros w|]. intros w1 w2 w3 H1 H2. by etransitivity. Qed.
Lemma more_same w w' : calls w' = calls w -> more_calls w w'.
Proof. unfold more_calls. by intros ->. Qed.
#[export] Instance mild_more_calls : Mild more_calls.
Proof.
  split; try apply _; intros; intros w; try by apply more_same.
  - unfold on_files. destruct (m (files w)). by apply more_same.
  - unfold relay_pull. destruct (net_pull _ _ _ _ _). by eexists.
  - unfold keychain_get, keychain_op. destruct (keychain_fails w) as [|[] l]; by apply more_same.
Qed.
#[export] Instance calm_calls : Calm path more_calls any_plan.
Proof.
  apply calm_mild; [apply _|..]; intros; intros w.
  - unfold relay_push. destruct (push_outgoing _ _ _ _). by eexists.
  - unfold relay_create. destruct (net_create_chain _ _ _ _). by apply more_same.
  - unfold relay_freeze. destruct (net_freeze_chain _ _ _ _). by apply more_same.
Qed.
End Quiet.

(** ** The new account comes into force *)

Section Activation.
Context {R : RuntimeEnv} {X : RotationText} {B : AccountBuild} (path : str).

(** The name's code has this chain. *)
Definition code_at (name chain : str) (w : RWorld) : Prop :=
  exists phrase keys, bt_get name (keychain w) = Some phrase /\ derive_account phrase = Ok keys /\ ck_chain_id keys = chain.
Lemma code_same name chain w w' : same_keychain w w' -> code_at name chain w -> code_at name chain w'.
Proof. unfold code_at. by intros ->. Qed.

Lemma mutate_Ok f w g w' : mutate_records path f w = (Ok g, w') ->
  exists s m n c, f s = Ok m /\ published c m = Ok n /\ records (core w') = Some n.
Proof.
  unfold mutate_records. intros (c & w1 & _ & H)%rm_bind_Ok.
  destruct (transact_cases path f w1) as [[e He]|(s & m & _ & Hm & He)]; [congruence|]. rewrite He in H.
  destruct (persist_cases path m w1) as [[e He2]|(n & g' & r & fs & Hn & _ & He2)]; [congruence|]. rewrite He2 in H.
  destruct r; [|done]. injection H as _ <-. by exists s, m, n, (core w1).
Qed.
Lemma keychain_set_Ok f name v w u w' : relabel f (keychain_set name v) w = (Ok u, w') -> keychain w' = bt_insert name v (keychain w).
Proof. unfold relabel, keychain_set, keychain_op. destruct (keychain_fails w) as [|[] l]; cbn; by intros [= _ <-]. Qed.

(** What is in force, and what the relay gave back in this pass. *)
Record activated (new : ChainKeys) (url phrase : str) (w : RWorld) : Prop := {
  av_code : bt_get MNEMONIC_ACCOUNT (keychain w) = Some phrase;
  av_confirmed : exists s a pulled,
    records (core w) = Some s /\ account s = Some a /\ chain_id a = ck_chain_id new /\
    (exists op, pending_account s = Some op /\ op_phase op = PActivated) /\
    CPull url (ck_chain_id new) 0 (Ok pulled) ∈ calls w /\
    dirty (a_records a) (a_sealed a) = false /\ at_target new a (pull_records pulled)
}.

Lemma activate_target_Ok op old new phrase w u w' :
  chain_id (prepared_account op) = ck_chain_id new -> activate_target path op old new phrase w = (Ok u, w') ->
  activated new (op_relay_url op) phrase w'.
Proof.
  intros Hc. unfold activate_target. intros (op1 & w1 & H1%(carries_push path new) & H)%rm_bind_Ok.
  apply rm_bind_Ok in H as (op2 & w2 & H2 & H). pose proof (carries_target_proof path new _ _ _ _ _ H2) as Hk2.
  apply target_proof_Ok in H2 as (wa & pulled & wb & Hpull & _ & Hat & Hcalls).
  apply rm_bind_Ok in H as (a & w3 & H3 & H). apply rm_bind_Ok in H as (u1 & w4 & H4 & H).
  apply rm_bind_Ok in H as (u2 & w5 & H5 & H). apply rm_bind_Ok in H as (u3 & w6 & H6 & H).
  apply rm_bind_Ok in H as (g & w7 & H7 & H). injection H as _ <-.
  assert (Hmore : more_calls wb w7).
  { transitivity w2; [apply Hcalls; [apply _|]; intros op3; exact (calm_store path (T:=more_calls) (G:=any_plan) op3 false I)|].
    transitivity w3; [pose proof (calm_source_proof path more_calls any_plan op2 old I w2) as M; by rewrite H3 in M|].
    transitivity w4; [apply require_Ok in H4 as [_ ->]; reflexivity|].
    transitivity w5; [pose proof (calm_ensure path more_calls any_plan op2 w4) as M; by rewrite H5 in M|].
    transitivity w6; [|pose proof (mild_mutate path more_calls (rotated op2) w6) as M; by rewrite H7 in M].
    apply more_same. unfold relabel, keychain_set, keychain_op in H6.
    destruct (keychain_fails w5) as [|[] l]; injection H6 as _ <-; done. }
  apply require_Ok in H4 as [Hclean _]. apply negb_true_iff in Hclean.
  pose proof (mild_mutate path same_keychain (rotated op2) w6) as Hkc. rewrite H7 in Hkc. change (keychain w7 = keychain w6) in Hkc. apply keychain_set_Ok in H6.
  split; [rewrite Hkc, H6; apply bt_get_insert_eq|].
  apply mutate_Ok in H7 as (s & m & n & c & Hm & Hn & Hr). unfold rotated in Hm. ok_inv.
  apply published_Ok in Hn as [Ha Hp _ _ _]; [|by right].
  assert (Hc2 : chain_id (prepared_account op2) = ck_chain_id new) by (by apply Hk2, H1).
  eexists n, (prepared_account op2), pulled. split; [done|]. split; [done|]. split; [done|].
  split; [by rewrite Hp; eexists|]. split; [|split; [done|by apply Hat]].
  unfold relay_pull in Hpull. destruct (net_pull _ _ _ _ _) as [n1 answer]. injection Hpull as -> <-.
  destruct Hmore as [l ->]. rewrite <-(ko_url _ _ _ H1). apply elem_of_app. left. cbn. apply elem_of_app. right. by left.
Qed.

(** Everything before leaves the names of the plan. *)
Lemma rotate_Ok op new phrase w u w' : rotate path op new phrase w = (Ok u, w') ->
  exists op1 old w1, kept_op new op op1 /\ activate_target path op1 old new phrase w1 = (Ok u, w').
Proof.
  unfold rotate. intros (s & w1 & _ & H)%rm_bind_Ok. do 2 (apply rm_bind_Ok in H as (? & ? & _ & H)).
  apply rm_bind_Ok in H as (r & w4 & (Hk & p & Hp & _ & Hc)%(archive_codes_Ok path new) & H). cbv zeta in H.
  apply rm_bind_Ok in H as (? & ? & _ & H). apply rm_bind_Ok in H as (p1 & w5 & Hp1%the_plan_Ok & H).
  destruct (kept_source new _ _ _ Hk Hp) as (q & Hq & Hc2). rewrite Hp1 in Hq. injection Hq as <-.
  apply rm_bind_Ok in H as (op1 & w6 & H1 & H).
  assert (K1 : kept_op new op op1).
  { etransitivity; [exact Hk|]. pose proof (carries_freeze_source path new _ x1 r.2 p1 Hp1 (eq_trans Hc (eq_sym Hc2))) as Hf.
    destruct (step p1); first [by eapply Hf|by injection H1 as <- _]. }
  apply rm_bind_Ok in H as (op2 & w7 & H2%(carries_create path new) & H). apply rm_bind_Ok in H as (p2 & w8 & _ & H).
  apply rm_bind_Ok in H as (op3 & w9 & H3 & H).
  apply (carries_fold new) in H3; [|intros; apply carries_create_space]. apply rm_bind_Ok in H as (p3 & w10 & _ & H).
  apply rm_bind_Ok in H as (op4 & w11 & H4 & H). exists op4. eexists _, _. split; [|exact H].
  transitivity op1; [done|]. transitivity op2; [done|]. transitivity op3; [done|].
  destruct (_ =?= Copying); [by eapply carries_copy_to_target|by injection H4 as <- _].
Qed.

Lemma keys_for_Ok op provided w k w' : keys_for op provided w = (Ok k, w') ->
  derive_account k.2 = Ok k.1 /\ ck_chain_id k.1 = chain_id (prepared_account op).
Proof.
  unfold keys_for. intros (phrase & w1 & _ & H)%rm_bind_Ok. apply rm_bind_Ok in H as (keys & w2 & [Hk _]%of_result_Ok & H).
  apply rm_bind_Ok in H as (u & w3 & [Hr _]%require_Ok & H). injection H as <- _. apply bool_decide_eq_true in Hr. done.
Qed.
End Activation.


(** ** Whichever account is in force, its code is in the keychain *)

Section Codes.
Context {R : RuntimeEnv} {X : RotationText} {B : AccountBuild} (path : str).

(** A property of the state in memory and one of the keychain. *)
Definition held (P : SyncStateV3 -> Prop) (K : RWorld -> Prop) (w : RWorld) : Prop := alone w /\ in_memory P w /\ K w.
Definition stands (P : SyncStateV3 -> Prop) (K : RWorld -> Prop) (w w' : RWorld) : Prop := held P K w -> held P K w'.
#[export] Instance stands_pre P K : PreOrder (stands P K).
Proof. unfold stands. split; [by intros w|]. intros w1 w2 w3. auto. Qed.

Class OfKeychain (K : RWorld -> Prop) : Prop := of_keychain w w' : same_keychain w w' -> K w -> K w'.
#[export] Instance of_keychain_code name chain : OfKeychain (code_at name chain).
Proof. intros w w'. apply code_same. Qed.
#[export] Instance of_keychain_or K K' : OfKeychain K -> OfKeychain K' -> OfKeychain (fun w => K w \/ K' w).
Proof. intros H H' w w' Hs [Hk|Hk]; [left; by eapply H|right; by eapply H']. Qed.

Lemma stands_quiet {A} P K `{!OfKeychain K} (m : RM A) :
  Within (memory P) m -> Within same_keychain m -> Within (stands P K) m.
Proof. intros Hm Hk w (Ha & HP & HK). destruct (Hm w Ha) as [Ha' HP']. split; [done|]. split; [auto|]. exact (of_keychain _ _ (Hk w) HK). Qed.

#[export] Instance calm_stands c G K `{!Observed G} `{!OfKeychain K} : Calm path (stands (in_force c G) K) G.
Proof.
  pose proof (calm_memory path c G) as M. pose proof (calm_keychain path) as Q.
  split; try apply _; intros; try (apply stands_quiet; [done|..]).
  all: first [by apply M|by apply Q].
Qed.

(** Who is in force: the source while the plan is not activated, its code in the keychain or
    in the archive; then the target, its code in the keychain. *)
Definition source_plan (arch c : str) (op : PendingAccountOperation) : Prop :=
  op_phase op <> PActivated /\
  exists p, op_rotation op = Some p /\ source_code_account p = arch /\ chain_id (source_account p) = c.
Definition active_plan (op : PendingAccountOperation) : Prop := op_phase op = PActivated.
#[export] Instance observed_source_plan arch c : Observed (source_plan arch c).
Proof.
  split; [done|]. intros op p a Hp Ha [Hph (q & Hq & Harch & Hc)]. rewrite Hp in Hq. injection Hq as <-.
  split; [done|]. eexists. split; [reflexivity|]. split; [done|]. cbn. congruence.
Qed.
#[export] Instance observed_active : Observed active_plan.
Proof. by split. Qed.
Definition settled_on (c : str) (s : SyncStateV3) : Prop := chain_of s = Some c.
Definition coded (arch c : str) (w : RWorld) : Prop := code_at MNEMONIC_ACCOUNT c w \/ code_at arch c w.

Inductive standing (w : RWorld) : Prop :=
| standing_source arch c : held (in_force c (source_plan arch c)) (coded arch c) w -> standing w
| standing_target c : held (in_force c active_plan) (code_at MNEMONIC_ACCOUNT c) w -> standing w.
(** In the end the plan may be gone. *)
Definition at_rest (w : RWorld) : Prop := standing w \/ exists c, held (settled_on c) (code_at MNEMONIC_ACCOUNT c) w.

(** Programs step by step. *)
Lemma held_step {A} P K (m : RM A) w r w' : Within (stands P K) m -> m w = (r, w') -> held P K w -> held P K w'.
Proof. intros Hm He Hw. specialize (Hm w Hw). by rewrite He in Hm. Qed.
Lemma stood {A E} P K (m : RM A) (k : A -> RM E) w :
  (forall w1, held P K w1 -> standing w1) -> Within (stands P K) m -> held P K w ->
  (forall a w1, m w = (Ok a, w1) -> held P K w1 -> standing (k a w1).2) -> standing ((m ≫= k) w).2.
Proof.
  intros Hs Hm Hw Hk. specialize (Hm w Hw). unfold mbind, rm_bind. destruct (m w) as [[a|e] w1] eqn:He; [|by apply Hs].
  by apply Hk.
Qed.

(** A change of the keychain under one name. *)
Lemma keychain_change {A} f (m : RM A) w r w' (Hm : exists g, m = keychain_op g) : relabel f m w = (r, w') ->
  core w' = core w /\ interrupts w' = interrupts w.
Proof. destruct Hm as [g ->]. unfold relabel, keychain_op. destruct (keychain_fails w) as [|[] l]; try destruct (g _); cbn; by intros [= _ <-]. Qed.
Lemma code_insert name v chain n w w' : keychain w' = bt_insert n v (keychain w) -> name <> n ->
  code_at name chain w -> code_at name chain w'.
Proof. intros Hk Hn (phrase & keys & H & Hd). exists phrase, keys. rewrite Hk, bt_get_insert_ne; [done|congruence]. Qed.
Lemma code_remove name chain n w w' : keychain w' = bt_remove n (keychain w) -> name <> n -> code_at name chain w -> code_at name chain w'.
Proof. intros Hk Hn (phrase & keys & H & Hd). exists phrase, keys. rewrite Hk, bt_get_remove_ne; [done|congruence]. Qed.
Lemma set_cases f name v w r w' : relabel f (keychain_set name v) w = (r, w') ->
  (exists e, r = Err e /\ keychain w' = keychain w) \/ (r = Ok tt /\ keychain w' = bt_insert name v (keychain w)).
Proof.
  unfold relabel, keychain_set, keychain_op. destruct (keychain_fails w) as [|[] l]; cbn; intros [= <- <-]; [by right|left; by eexists|by right].
Qed.
Lemma held_change {A} P K K' f (m : RM A) w r w' : (exists g, m = keychain_op g) -> relabel f m w = (r, w') ->
  (K w -> K' w') -> held P K w -> held P K' w'.
Proof.
  intros Hm He HK (Ha & HP & H). destruct (keychain_change _ _ _ _ _ Hm He) as [Hc Hi].
  split; [unfold alone; by rewrite Hi|]. split; [unfold in_memory; by rewrite Hc|auto].
Qed.
(** Any other name leaves it. *)
Lemma stands_set P name chain f n v : name <> n -> Within (stands P (code_at name chain)) (relabel f (keychain_set n v)).
Proof.
  intros Hn w Hw. destruct (relabel f (keychain_set n v) w) as [r w'] eqn:He. cbn [snd].
  eapply held_change; [by eexists|exact He| |exact Hw]. intros Hk. destruct (set_cases _ _ _ _ _ _ He) as [(e & _ & Hs)|[_ Hs]].
  - by eapply code_same.
  - by eapply code_insert.
Qed.
Lemma stands_delete P name chain f n : name <> n -> Within (stands P (code_at name chain)) (relabel f (keychain_delete n)).
Proof.
  intros Hn w Hw. destruct (relabel f (keychain_delete n) w) as [r w'] eqn:He. cbn [snd].
  eapply held_change; [by eexists|exact He| |exact Hw]. intros Hk. unfold relabel, keychain_delete, keychain_op in He.
  destruct (keychain_fails w) as [|[] l]; cbn in He; injection He as _ <-;
    first [by eapply code_same|by eapply code_remove].
Qed.
End Codes.

Section CodesOfRotation.
Context {R : RuntimeEnv} {X : RotationText} {B : AccountBuild} (path : str).
#[local] Instance kept_any : Kept (fun _ => True).
Proof. by intros core s n. Qed.

(** A commit: the state in memory is the one there was, or what was published. *)
Lemma mutate_commits f w : alone w ->
  let w' := (mutate_records path f w).2 in
  alone w' /\ keychain w' = keychain w /\
  (records (core w') = records (core w) \/
   exists s m n, records (core w) = Some s /\ f s = Ok m /\ published (core w) m = Ok n /\ records (core w') = Some n).
Proof.
  intros Hw. pose proof (mild_mutate path same_keychain f w) as Hk.
  destruct (memory_mutate path (fun _ => True) f (fun _ _ _ _ => I) w Hw) as [Ha _]. split; [exact Ha|]. split; [exact Hk|].
  destruct (lock_alone path w Hw) as (w1 & Hl & _ & _ & Hc & _). unfold mutate_records, mbind, rm_bind. rewrite Hl.
  destruct (transact_cases path f w1) as [[e ->]|(s & m & Hs & Hm & ->)]; [left; cbn; by rewrite Hc|].
  destruct (persist_cases path m w1) as [[e ->]|(n & g & r & fs & Hn & _ & ->)]; [left; cbn; by rewrite Hc|].
  destruct r; [|left; cbn; by rewrite Hc]. right. exists s, m, n. by rewrite <-Hc.
Qed.

(** The end of the activation. *)
Lemma promote_stands arch c op new phrase w :
  arch <> MNEMONIC_ACCOUNT -> derive_account phrase = Ok new -> chain_id (prepared_account op) = ck_chain_id new ->
  held (in_force c (source_plan arch c)) (code_at arch c) w ->
  standing ((_ ← relabel (fun _ => app_error "new code promotion is pending; source archive is retained")
                  (keychain_set MNEMONIC_ACCOUNT phrase);
            _ ← mutate_records path (rotated op); mret tt) w).2.
Proof.
  intros Harch Hd Hc Hw. unfold mbind at 1, rm_bind at 1. destruct (relabel _ _ w) as [r w1] eqn:He.
  assert (H1 : held (in_force c (source_plan arch c)) (code_at arch c) w1) by (eapply held_step; [by apply stands_set|exact He|exact Hw]).
  destruct r as [u|e].
  2: { eapply standing_source. destruct H1 as (Ha & HP & HK). split; [done|]. split; [exact HP|by right]. }
  destruct (set_cases _ _ _ _ _ _ He) as [(e & ? & _)|[_ Hk]]; [done|]. destruct H1 as (Ha & HP & HK).
  destruct (mutate_commits (rotated op) w1 Ha) as (Ha2 & Hk2 & Hm). unfold mbind, rm_bind.
  destruct (mutate_records path (rotated op) w1) as [r2 w2]. cbn [snd] in Ha2, Hk2, Hm.
  assert (standing w2); [|by destruct r2]. destruct Hm as [Hm|(s & m & n & Hs & Hm & Hn & Hr)].
  - eapply standing_source. split; [done|]. split; [unfold in_memory; rewrite Hm; exact HP|]. right. by eapply of_keychain.
  - apply (standing_target _ (ck_chain_id new)). split; [done|]. unfold rotated in Hm. ok_inv.
    pose proof (published_chain _ _ _ Hn) as Hn2. apply published_Ok in Hn as [_ Hp _ _ _]; [|by right]. split.
    + intros s' Hs'. rewrite Hr in Hs'. injection Hs' as <-. split; [rewrite Hn2; by cbn; rewrite Hc|].
      eexists. split; [by rewrite Hp|done].
    + exists phrase, new. rewrite Hk2, Hk, bt_get_insert_eq. done.
Qed.

Lemma kept_source_plan new arch c op op' : kept_op new op op' -> source_plan arch c op -> source_plan arch c op'.
Proof.
  intros [_ _ _ Ha Hs Hp _] [Hph (p & Hr & Harch & Hc)]. split; [auto|]. rewrite Hr in Ha, Hs.
  destruct (op_rotation op') as [q|]; [|done]. injection Ha as Ha. injection Hs as Hs. exists q. split; [done|]. split; congruence.
Qed.
(** The source's code is in the archive. *)
Definition has_archive (arch c : str) : RWorld -> Prop := held (in_force c (source_plan arch c)) (code_at arch c).
Definition archived (arch c : str) : relation RWorld := stands (in_force c (source_plan arch c)) (code_at arch c).
#[export] Instance calm_archived arch c : Calm path (archived arch c) (source_plan arch c).
Proof. apply calm_stands; apply _. Qed.

Section Source.
Context (arch c : str) (Harch : arch <> MNEMONIC_ACCOUNT).
Lemma source_stands w : has_archive arch c w -> standing w.
Proof. intros (Ha & HP & HK). eapply standing_source. split; [done|]. split; [exact HP|by right]. Qed.
Lemma coded_stands w : held (in_force c (source_plan arch c)) (coded arch c) w -> standing w.
Proof. apply standing_source. Qed.

Context (new : ChainKeys) (phrase : str) (Hd : derive_account phrase = Ok new).
Lemma archived_seq {A} (m : RM PendingAccountOperation) (k : PendingAccountOperation -> RM A) op w :
  Carries new m op -> Within (archived arch c) m ->
  source_plan arch c op -> chain_id (prepared_account op) = ck_chain_id new ->
  has_archive arch c w ->
  (forall op1 w1, source_plan arch c op1 -> chain_id (prepared_account op1) = ck_chain_id new ->
     has_archive arch c w1 -> standing (k op1 w1).2) ->
  standing ((m ≫= k) w).2.
Proof.
  intros Hc Hm Hg Ht Hw Hk. eapply stood; [apply source_stands|exact Hm|exact Hw|]. intros op1 w1 H1%Hc Hw1.
  apply Hk; [by eapply kept_source_plan|by apply H1|done].
Qed.
Lemma archived_step {A E} (m : RM A) (k : A -> RM E) w :
  Within (archived arch c) m ->
  has_archive arch c w ->
  (forall a w1, m w = (Ok a, w1) -> has_archive arch c w1 -> standing (k a w1).2) ->
  standing ((m ≫= k) w).2.
Proof. apply stood, source_stands. Qed.

Lemma activate_stands op old w : source_plan arch c op -> chain_id (prepared_account op) = ck_chain_id new ->
  has_archive arch c w -> standing (activate_target path op old new phrase w).2.
Proof.
  intros Hg Ht Hw. unfold activate_target.
  apply (archived_seq _ _ op); [apply carries_push| |done..|].
  { apply (calm_push_target path (archived arch c) (source_plan arch c) new); [intros; by eapply kept_source_plan|done]. }
  clear op Hg Ht w Hw. intros op w Hg Ht Hw.
  apply (archived_seq _ _ op); [apply carries_target_proof|by apply (calm_target_proof path (archived arch c) (source_plan arch c))|done..|].
  clear op Hg Ht w Hw. intros op w Hg Ht Hw.
  apply archived_step; [by apply (calm_source_proof path (archived arch c) (source_plan arch c))|done|]. intros a w1 _ Hw1.
  apply archived_step; [apply within_require, _|done|]. intros u w2 _ Hw2.
  apply archived_step; [apply (calm_ensure path (archived arch c) (source_plan arch c))|done|]. intros u2 w3 _ Hw3.
  by eapply promote_stands.
Qed.

(** From the archive on. *)
Lemma archived_rotation op old fresh p0 w :
  op_rotation op = Some p0 -> chain_id fresh = chain_id (source_account p0) ->
  source_plan arch c op -> chain_id (prepared_account op) = ck_chain_id new -> has_archive arch c w ->
  standing ((_ ← of_result (connect (op_relay_url op));
             p ← of_result (the_plan op);
             op ← (match step p with Prepared | Freezing => freeze_source path op old new fresh | _ => mret op end);
             op ← create_target path op new;
             p ← of_result (the_plan op);
             let ids := bt_keys (target_spaces p) in
             op ← fold_rm (create_target_space path new) op ids;
             p ← of_result (the_plan op);
             op ← (if step p =?= Copying then copy_to_target path op new ids else mret op);
             activate_target path op old new phrase) w).2.
Proof.
  intros Hp0 Hf Hg Ht Hw. assert (Hkept : forall op op', kept_op new op op' -> source_plan arch c op -> source_plan arch c op')
    by (intros; by eapply kept_source_plan).
  apply archived_step; [apply within_of_result, _|done|]. intros u w1 _ Hw1.
  apply archived_step; [apply within_of_result, _|done|]. intros p w2 _ Hw2.
  apply (archived_seq _ _ op); [| |done..|].
  { destruct (step p); try (by apply carries_ret); by eapply carries_freeze_source. }
  { destruct (step p); try (by apply within_ret, _); by eapply (calm_freeze_source path (archived arch c) (source_plan arch c) new Hkept). }
  clear op p0 Hp0 Hf Hg Ht w Hw w1 Hw1 w2 Hw2 p u. intros op w Hg Ht Hw.
  apply (archived_seq _ _ op); [apply carries_create|by apply (calm_create_target path (archived arch c) (source_plan arch c) new Hkept)|done..|].
  clear op Hg Ht w Hw. intros op w Hg Ht Hw. apply archived_step; [apply within_of_result, _|done|]. intros p w1 _ Hw1. cbv zeta.
  apply (archived_seq _ _ op); [apply carries_fold; intros; apply carries_create_space| |done..|].
  { apply (calm_fold path (archived arch c) (source_plan arch c) new Hkept); [intros; apply carries_create_space|intros|done].
    by apply (calm_create_space path (archived arch c) (source_plan arch c) new Hkept). }
  clear op Hg Ht w Hw w1 Hw1. intros op w Hg Ht Hw. apply archived_step; [apply within_of_result, _|done|]. intros p1 w1 _ Hw1.
  apply (archived_seq _ _ op); [| |done..|].
  { destruct (_ =?= _); [apply carries_copy_to_target|by apply carries_ret]. }
  { destruct (_ =?= _); [by apply (calm_copy_target path (archived arch c) (source_plan arch c) new Hkept)|apply within_ret, _]. }
  intros. by apply activate_stands.
Qed.
End Source.
End CodesOfRotation.

Section CodesOfPass.
Context {R : RuntimeEnv} {X : RotationText} {B : AccountBuild} (path : str).

(** A program that attains this, or stops while someone stands. *)
Definition attains {A} (Q : RWorld -> Prop) (m : RM A) (w : RWorld) : Prop :=
  match m w with (Ok _, w') => Q w' | (Err _, w') => standing w' end.
Lemma attains_bind {A E} P K Q (m : RM A) (k : A -> RM E) w :
  (forall w1, held P K w1 -> standing w1) -> Within (stands P K) m -> held P K w ->
  (forall a w1, m w = (Ok a, w1) -> held P K w1 -> attains Q (k a) w1) -> attains Q (m ≫= k) w.
Proof.
  intros Hs Hm Hw Hk. specialize (Hm w Hw). unfold attains, mbind, rm_bind. destruct (m w) as [[a|e] w1] eqn:He; [|by apply Hs].
  by apply Hk.
Qed.
Lemma attains_then {A E} Q (m : RM A) (k : A -> RM E) w :
  attains Q m w -> (forall a w1, m w = (Ok a, w1) -> Q w1 -> standing (k a w1).2) -> standing ((m ≫= k) w).2.
Proof.
  unfold attains, mbind, rm_bind. intros Hm Hk. destruct (m w) as [[a|e] w1]; [by apply Hk|done].
Qed.

(** The source's code is in the keychain, or in the archive. *)
Definition has_code (arch c : str) : RWorld -> Prop := held (in_force c (source_plan arch c)) (coded arch c).
Definition keeps_code (arch c : str) : relation RWorld := stands (in_force c (source_plan arch c)) (coded arch c).
#[export] Instance of_keychain_coded arch c : OfKeychain (coded arch c).
Proof. apply of_keychain_or; apply _. Qed.
#[export] Instance calm_code arch c : Calm path (keeps_code arch c) (source_plan arch c).
Proof. apply calm_stands; apply _. Qed.

Section Source.
Context (arch c : str) (Harch : arch <> MNEMONIC_ACCOUNT) (new : ChainKeys) (phrase : str).
Lemma coded_bind {A E} Q (m : RM A) (k : A -> RM E) w :
  Within (keeps_code arch c) m -> has_code arch c w ->
  (forall a w1, m w = (Ok a, w1) -> has_code arch c w1 -> attains Q (k a) w1) -> attains Q (m ≫= k) w.
Proof. apply (attains_bind (in_force c (source_plan arch c)) (coded arch c)). intros w1. apply (standing_source w1 arch c). Qed.
Lemma archive_bind {A E} Q (m : RM A) (k : A -> RM E) w :
  Within (archived arch c) m -> has_archive arch c w ->
  (forall a w1, m w = (Ok a, w1) -> has_archive arch c w1 -> attains Q (k a) w1) -> attains Q (m ≫= k) w.
Proof. apply (attains_bind (in_force c (source_plan arch c)) (code_at arch c)). intros w1. apply (source_stands arch c). Qed.

Lemma archive_set source old f w : derive_account source = Ok old -> ck_chain_id old = c ->
  has_code arch c w ->
  attains (has_archive arch c) (relabel f (keychain_set arch source)) w.
Proof.
  intros Hd Hc Hw. unfold attains. destruct (relabel f (keychain_set arch source) w) as [r w'] eqn:He.
  destruct (set_cases _ _ _ _ _ _ He) as [(e & -> & Hk)|[-> Hk]].
  - eapply standing_source. eapply held_change; [by eexists|exact He| |exact Hw]. intros H. by eapply of_keychain.
  - eapply held_change; [by eexists|exact He| |exact Hw]. intros _. exists source, old. rewrite Hk, bt_get_insert_eq. done.
Qed.

Lemma archive_codes_stands op old source st w :
  derive_account source = Ok old -> source_plan arch c op -> staged_code_account op = Some st -> st <> arch ->
  has_code arch c w ->
  attains (has_archive arch c) (archive_codes path op old new source phrase) w.
Proof.
  intros Hd Hg Hst Hne Hw. unfold archive_codes.
  apply coded_bind; [by apply (calm_source_proof path (keeps_code arch c) (source_plan arch c))|exact Hw|]. intros fresh w1 Hf Hw1.
  apply source_proof_Ok in Hf as (p & Hp & Hc & _).
  assert (Hcq : ck_chain_id old = c) by (destruct Hg as [_ (q & Hq & _ & Hcq)]; rewrite Hp in Hq; injection Hq as <-; congruence).
  assert (Harc : source_code_account p = arch) by (destruct Hg as [_ (q & Hq & Ha & _)]; rewrite Hp in Hq; by injection Hq as <-).
  apply coded_bind; [apply (calm_ensure path (keeps_code arch c) (source_plan arch c))|done|]. intros u w2 _ Hw2.
  apply coded_bind; [apply within_of_result, _|done|]. intros p1 w3 Hp1%the_plan_Ok Hw3. rewrite Hp in Hp1. injection Hp1 as <-.
  apply coded_bind; [|done|].
  { destruct (bs_contains _ _); [by apply (calm_target_proof path (keeps_code arch c) (source_plan arch c))|apply within_ret, _]. }
  intros op1 w4 H1 Hw4. assert (Hk : kept_op new op op1).
  { destruct (bs_contains _ _); [by eapply carries_target_proof|by injection H1 as <- _]. }
  apply coded_bind; [apply (calm_ensure path (keeps_code arch c) (source_plan arch c))|done|]. intros u2 w5 _ Hw5.
  rewrite Harc. unfold attains, mbind at 1, rm_bind at 1. pose proof (archive_set source old (fun _ => app_error "source code archive is pending") w5 Hd Hcq Hw5) as Hset.
  unfold attains in Hset. destruct (relabel _ _ w5) as [[u3|e] w6]; [|exact Hset]. revert Hset. clear -Hk Hst Hne Harch. intros Hw6.
  apply archive_bind; [apply (calm_ensure path (archived arch c) (source_plan arch c))|done|]. intros u4 w7 _ Hw7.
  apply archive_bind; [apply within_of_result, _|done|]. intros st' w8 [Hst'%ok_or_Ok _]%of_result_Ok Hw8.
  rewrite (ko_staged _ _ _ Hk), Hst in Hst'. injection Hst' as <-.
  apply archive_bind; [by apply stands_set|done|]. intros u5 w9 _ Hw9. exact Hw9.
Qed.

Lemma rotate_stands op st w :
  derive_account phrase = Ok new -> source_plan arch c op -> chain_id (prepared_account op) = ck_chain_id new ->
  staged_code_account op = Some st -> st <> arch -> has_code arch c w -> standing (rotate path op new phrase w).2.
Proof.
  intros Hd Hg Ht Hst Hne Hw. unfold rotate.
  assert (Hs : forall w1, has_code arch c w1 -> standing w1) by (intros; by eapply standing_source).
  eapply stood; [exact Hs|by apply (calm_source_code path (keeps_code arch c) (source_plan arch c))|exact Hw|]. intros s w1 _ Hw1.
  eapply stood; [exact Hs|apply within_of_result, _|exact Hw1|]. intros source w2 _ Hw2.
  eapply stood; [exact Hs|apply within_of_result, _|exact Hw2|]. intros old w3 [Hold _]%of_result_Ok Hw3.
  eapply attains_then; [by eapply archive_codes_stands|]. intros r w4 (Hk & p & Hp & _ & Hc)%(archive_codes_Ok path new) Hw4. cbv zeta.
  destruct (kept_source new _ _ _ Hk Hp) as (q & Hq & Hc2).
  eapply (archived_rotation path arch c Harch new phrase Hd r.1 old r.2 q); [done|congruence| | |done].
  - by eapply kept_source_plan.
  - by apply Hk.
Qed.
End Source.

(** The cleanup: only the codes that are no longer needed go. *)
Section Target.
Context (c : str).
Definition has_target : RWorld -> Prop := held (in_force c active_plan) (code_at MNEMONIC_ACCOUNT c).
Definition keeps_target : relation RWorld := stands (in_force c active_plan) (code_at MNEMONIC_ACCOUNT c).
#[local] Instance calm_target : Calm path keeps_target active_plan.
Proof. apply calm_stands; apply _. Qed.

Lemma rest_bind {A E} (m : RM A) (k : A -> RM E) w :
  Within keeps_target m -> has_target w -> (forall a w1, m w = (Ok a, w1) -> has_target w1 -> at_rest (k a w1).2) ->
  at_rest ((m ≫= k) w).2.
Proof.
  intros Hm Hw Hk. specialize (Hm w Hw). unfold mbind, rm_bind. destruct (m w) as [[a|e] w1] eqn:He; [by apply Hk|].
  left. by eapply standing_target.
Qed.
Lemma target_forgets op name : MNEMONIC_ACCOUNT <> name -> Within keeps_target (forget_code path op name).
Proof.
  intros Hn. unfold forget_code. apply (within_bind keeps_target); [apply (calm_ensure path keeps_target active_plan)|].
  intros _. by apply stands_delete.
Qed.
Lemma finished_rests op w : has_target w -> at_rest ((_ ← mutate_records path (finished op); mret tt) w).2.
Proof.
  intros (Ha & HP & HK). destruct (mutate_commits path (finished op) w Ha) as (Ha2 & Hk2 & Hm). unfold mbind, rm_bind.
  destruct (mutate_records path (finished op) w) as [r w2]. cbn [snd] in Ha2, Hk2, Hm.
  assert (at_rest w2); [|by destruct r]. assert (code_at MNEMONIC_ACCOUNT c w2) by (by eapply of_keychain).
  destruct Hm as [Hm|(s & m & n & Hs & Hm & Hn & Hr)].
  - left. eapply standing_target. split; [done|]. split; [|done]. unfold in_memory. rewrite Hm. exact HP.
  - right. exists c. split; [done|]. split; [|done]. intros s' Hs'. rewrite Hr in Hs'. injection Hs' as <-.
    unfold settled_on. rewrite (published_chain _ _ _ Hn). unfold finished in Hm. ok_inv. apply (HP s Hs).
Qed.
Lemma cleanup_rests op p st keys w :
  active_plan op -> op_rotation op = Some p -> MNEMONIC_ACCOUNT <> source_code_account p ->
  staged_code_account op = Some st -> MNEMONIC_ACCOUNT <> st -> has_target w -> at_rest (cleanup path op keys w).2.
Proof.
  intros Hg Hp Hpa Hst Hn Hw. unfold cleanup.
  apply rest_bind; [by apply (calm_target_proof path keeps_target active_plan)|done|]. intros op1 w1 Hk Hw1.
  pose proof (carries_target_proof path keys _ _ _ _ _ Hk) as [_ _ Hst1 Har1 _ _ _].
  assert (Hg1 : active_plan op1).
  { apply target_proof_Ok in Hk as (? & ? & ? & _ & (a & -> & _) & _). exact Hg. }
  apply rest_bind; [by apply (calm_source_code path keeps_target active_plan)|done|]. intros source w2 _ Hw2.
  apply rest_bind; [|done|].
  { pose proof (calm_source_proof path keeps_target active_plan op1). within. }
  intros u w3 _ Hw3. apply rest_bind; [apply within_of_result, _|done|]. intros st' w4 [Hst'%ok_or_Ok _]%of_result_Ok Hw4.
  rewrite Hst1, Hst in Hst'. injection Hst' as <-.
  apply rest_bind; [apply within_of_result, _|done|]. intros q w5 Hq%the_plan_Ok Hw5. rewrite Hq, Hp in Har1. injection Har1 as Har1.
  apply rest_bind; [by apply target_forgets|done|]. intros u2 w6 _ Hw6.
  apply rest_bind; [apply target_forgets; by rewrite Har1|done|]. intros u3 w7 _ Hw7. by apply finished_rests.
Qed.
End Target.
End CodesOfPass.

Section Resume.
Context {R : RuntimeEnv} {X : RotationText} {B : AccountBuild} (path : str).

Lemma current_Ok w op w' : current path w = (Ok op, w') -> exists s, records (core w') = Some s /\ pending_account s = Some op.
Proof.
  unfold current, snapshot. intros (s & w1 & H & [Hp%ok_or_Ok ->]%of_result_Ok)%rm_bind_Ok.
  destruct (lock_core_sees path w) as (w2 & Hl). unfold mbind at 1, rm_bind at 1 in H. rewrite Hl in H.
  apply rm_bind_Ok in H as (s' & w3 & [Ha%active_records ->]%of_result_Ok & [= <- <-]). by exists s'.
Qed.

(** What the validation says of the names of the plan. *)
Lemma names_of op : validate_pending op = Ok tt -> op_kind op = RotateAccount ->
  staged_code_account op = Some (PENDING_CODE_PREFIX ++ op_id op) /\
  exists p, op_rotation op = Some p /\ source_code_account p = SOURCE_CODE_PREFIX ++ op_id op.
Proof.
  unfold validate_pending, check_pending_kind. intros H Hk. rewrite Hk in H. ok_inv.
  clear - Hok5 Hok3. rewrite !orb_false_iff in Hok5. destruct Hok5 as [[[Hst _] _] _].
  apply negb_false_iff, bool_decide_eq_true in Hst. split; [done|]. unfold validate_rotation_plan in Hok3.
  apply bind_Ok in Hok3 as (p & Hp%ok_or_Ok & H). cbv zeta in H. apply bind_Ok in H as (u & Hu%guard_err_Ok & _).
  rewrite !orb_false_iff in Hu. destruct Hu as [[[[[[Ha _] _] _] _] _] _]. apply negb_false_iff, bool_decide_eq_true in Ha. by exists p.
Qed.

Section From.
Context (c : str) (G : PendingAccountOperation -> Prop) (K : RWorld -> Prop) `{!Observed G} `{!OfKeychain K}.
Definition go_on (op : PendingAccountOperation) (k : ChainKeys * str) : RM bool :=
  if op_phase op =?= PActivated then _ ← cleanup path op k.1; mret false else _ ← rotate path op k.1 k.2; mret true.
Lemma pass_from (Q : result AppError bool * RWorld -> Prop) provided w :
  held (in_force c G) K w -> (forall e w1, held (in_force c G) K w1 -> Q (Err e, w1)) ->
  (forall op k w1, G op -> validate_pending op = Ok tt -> op_kind op = RotateAccount ->
     derive_account k.2 = Ok k.1 -> ck_chain_id k.1 = chain_id (prepared_account op) ->
     held (in_force c G) K w1 -> Q (go_on op k w1)) ->
  Q (pass path provided w).
Proof.
  intros Hw He Hk. assert (Hb : forall A (m : RM A) (f : A -> RM bool) w,
    Within (stands (in_force c G) K) m -> held (in_force c G) K w ->
    (forall a w1, m w = (Ok a, w1) -> held (in_force c G) K w1 -> Q (f a w1)) -> Q ((m ≫= f) w)).
  { intros A m f w0 Hm Hw0 Hf. specialize (Hm w0 Hw0). unfold mbind, rm_bind. destruct (m w0) as [[a|e] w1] eqn:H; auto. }
  unfold pass. apply Hb; [apply (calm_preflight path (T := stands (in_force c G) K) (G := G))|exact Hw|]. intros u w1 _ Hw1.
  apply Hb; [|exact Hw1|].
  { pose proof (calm_snapshot path (T := stands (in_force c G) K) (G := G)). unfold current. within. }
  intros op w2 (s & Hs & Hp)%current_Ok Hw2. assert (Hg : G op).
  { destruct Hw2 as (_ & HP & _). destruct (HP s Hs) as [_ (op' & Hp' & Hg)]. rewrite Hp in Hp'. by injection Hp' as <-. }
  apply Hb; [apply within_require, _|exact Hw2|]. intros u2 w3 [Hkind%bool_decide_eq_true _]%require_Ok Hw3.
  apply Hb; [apply within_of_result, _|exact Hw3|]. intros [] w4 [Hv _]%of_result_Ok Hw4.
  apply Hb; [|exact Hw4|].
  { pose proof (calm_get path (T := stands (in_force c G) K) (G := G)). unfold keys_for, code. within. }
  intros k w5 [Hd Hc]%keys_for_Ok Hw5. by apply Hk.
Qed.
End From.

Definition passed (r : result AppError bool * RWorld) : Prop :=
  match r with (Ok true, w') => standing w' | (_, w') => at_rest w' end.
Lemma source_name id : SOURCE_CODE_PREFIX ++ id <> MNEMONIC_ACCOUNT.
Proof. done. Qed.
Lemma other_names id id' : PENDING_CODE_PREFIX ++ id <> SOURCE_CODE_PREFIX ++ id'.
Proof. done. Qed.

Lemma pass_stands provided w : standing w -> passed (pass path provided w).
Proof.
  intros [arch c Hw|c Hw].
  - apply (pass_from c (source_plan arch c) (coded arch c) passed provided w Hw).
    { intros e w1 H1. left. by eapply standing_source. }
    intros op k w1 Hg Hv Hkind Hd Hc Hw1. destruct (names_of op Hv Hkind) as (Hst & p & Hp & Ha).
    destruct (Hg) as [Hph (q & Hq & Harch & _)]. rewrite Hp in Hq. injection Hq as <-. unfold go_on.
    rewrite bool_decide_eq_false_2 by done.
    assert (Hr : standing (rotate path op k.1 k.2 w1).2).
    { eapply (rotate_stands path arch c); try done; rewrite <-Harch, Ha; [apply source_name|apply other_names]. }
    unfold passed, mbind, rm_bind. destruct (rotate _ _ _ _ w1) as [[u|e] w2]; [exact Hr|by left].
  - apply (pass_from c active_plan (code_at MNEMONIC_ACCOUNT c) passed provided w Hw).
    { intros e w1 H1. left. by eapply standing_target. }
    intros op k w1 Hg Hv Hkind Hd Hc Hw1. destruct (names_of op Hv Hkind) as (Hst & p & Hp & Ha).
    unfold go_on. rewrite bool_decide_eq_true_2 by done.
    assert (Hr : at_rest (cleanup path op k.1 w1).2).
    { eapply (cleanup_rests path c); try done. rewrite Ha. apply not_eq_sym, source_name. }
    unfold passed, mbind, rm_bind. by destruct (cleanup _ _ _ w1) as [[u|e] w2].
Qed.
Lemma passes_rest fuel : forall provided w, standing w -> at_rest (passes path fuel provided w).2.
Proof.
  induction fuel as [|fuel IH]; intros provided w Hw; [by left|]. cbn [passes].
  pose proof (pass_stands provided w Hw) as Hp. unfold mbind, rm_bind. destruct (pass path provided w) as [[[]|e] w1]; [by apply IH|done..].
Qed.

(** Whoever has the account in force can open it. *)
Definition account_coded (w : RWorld) : Prop := forall s c, records (core w) = Some s -> chain_of s = Some c ->
  code_at MNEMONIC_ACCOUNT c w \/
  exists op p, pending_account s = Some op /\ op_phase op <> PActivated /\ op_rotation op = Some p /\
    code_at (source_code_account p) c w.
Lemma rest_coded w : at_rest w -> account_coded w.
Proof.
  intros H s c Hs Hc. destruct H as [[arch c' (_ & HP & HK)|c' (_ & HP & HK)]|(c' & _ & HP & HK)].
  - destruct (HP s Hs) as [Hc' (op & Hp & Hph & p & Hr & Ha & Hsrc)]. rewrite Hc in Hc'. injection Hc' as <-.
    destruct HK as [HK|HK]; [by left|right]. exists op, p. rewrite Ha. done.
  - left. destruct (HP s Hs) as [Hc' _]. rewrite Hc in Hc'. by injection Hc' as <-.
  - left. specialize (HP s Hs). unfold settled_on in HP. rewrite Hc in HP. by injection HP as <-.
Qed.
Lemma coded_standing w s op p a : alone w -> records (core w) = Some s -> account s = Some a ->
  pending_account s = Some op -> op_rotation op = Some p ->
  (op_phase op <> PActivated -> chain_id a = chain_id (source_account p)) -> account_coded w -> standing w.
Proof.
  intros Ha Hs Hacc Hp Hr Hsrc Hcoded. assert (Hc : chain_of s = Some (chain_id a)) by (unfold chain_of; by rewrite Hacc).
  destruct (decide (op_phase op = PActivated)) as [Hph|Hph].
  - apply (standing_target w (chain_id a)). split; [done|]. split.
    + intros s' Hs'. rewrite Hs in Hs'. injection Hs' as <-. split; [done|]. by exists op.
    + destruct (Hcoded s _ Hs Hc) as [H|(op' & p' & Hp' & Hph' & _)]; [done|]. rewrite Hp in Hp'. by injection Hp' as <-.
  - apply (standing_source w (source_code_account p) (chain_id a)). split; [done|]. split.
    + intros s' Hs'. rewrite Hs in Hs'. injection Hs' as <-. split; [done|]. exists op. split; [done|]. split; [done|].
      exists p. split; [done|]. split; [done|]. symmetry. auto.
    + destruct (Hcoded s _ Hs Hc) as [H|(op' & p' & Hp' & Hph' & Hr' & H)]; [by left|right].
      rewrite Hp in Hp'. injection Hp' as <-. rewrite Hr in Hr'. by injection Hr' as <-.
Qed.
End Resume.

(** C9. A rotation never locks the user out: wherever resuming stops - done, refused, or
    failed at any access to the relay, the keychain or the files - the sync code that derives
    the chain of the account in force is in the keychain: under its usual name, or in the
    archive that the pending, not yet activated plan names. *)
Theorem rotation_keeps_codes {R : RuntimeEnv} {X : RotationText} {B : AccountBuild} path provided w s op p a
    (Hw : alone w) (Hs : records (core w) = Some s) (Ha : account s = Some a)
    (Hp : pending_account s = Some op) (Hr : op_rotation op = Some p)
    (Hsrc : op_phase op <> PActivated -> chain_id a = chain_id (source_account p)) (Hcode : account_coded w) :
  account_coded (resume_locked path provided w).2.
Proof. apply rest_coded, passes_rest. by eapply coded_standing. Qed.

(** ** Resuming ends *)

Section Ends.
Context {R : RuntimeEnv} {X : RotationText} {B : AccountBuild} (path : str).

(** Other threads have as many turns left, or fewer. *)
Definition fewer (w w' : RWorld) : Prop := (length (interrupts w') <= length (interrupts w))%nat.
#[export] Instance fewer_pre : PreOrder fewer.
Proof. unfold fewer. split; [by intros w|]. intros w1 w2 w3. lia. Qed.
Lemma fewer_same w w' : interrupts w' = interrupts w -> fewer w w'.
Proof. unfold fewer. by intros ->. Qed.
#[export] Instance mild_fewer : Mild fewer.
Proof.
  split; try apply _; intros; intros w; try by apply fewer_same.
  - unfold fewer, next_interrupt. cbn. destruct (interrupts w); cbn; lia.
  - unfold on_files. destruct (m (files w)). by apply fewer_same.
  - unfold relay_pull. destruct (net_pull _ _ _ _ _). by apply fewer_same.
  - unfold keychain_get, keychain_op. destruct (keychain_fails w) as [|[] l]; by apply fewer_same.
Qed.
#[export] Instance calm_fewer : Calm path fewer any_plan.
Proof.
  apply calm_mild; [apply _|..]; intros; intros w.
  - unfold relay_push. destruct (push_outgoing _ _ _ _). by apply fewer_same.
  - unfold relay_create. destruct (net_create_chain _ _ _ _). by apply fewer_same.
  - unfold relay_freeze. destruct (net_freeze_chain _ _ _ _). by apply fewer_same.
Qed.
Lemma fewer_set f name v : Within fewer (relabel f (keychain_set name v)).
Proof. intros w. unfold relabel, keychain_set, keychain_op. destruct (keychain_fails w) as [|[] l]; by apply fewer_same. Qed.

(** Everything of the rotation, for a relation that looks at no plan. *)
Section Rotate.
Context (T : relation RWorld) `{!Calm path T any_plan} `{!Mild T}.
Hypothesis Hset : forall f name v, Within T (relabel f (keychain_set name v)).

Lemma calm_activate op old new phrase : Within T (activate_target path op old new phrase).
Proof.
  pose proof (fun op new space => calm_push_target path T any_plan new (fun _ _ _ _ => I) op space I).
  pose proof (fun op keys => calm_target_proof path T any_plan op keys I).
  pose proof (fun op keys => calm_source_proof path T any_plan op keys I). pose proof (calm_ensure path T any_plan).
  unfold activate_target, require_clean. within.
Qed.
Lemma calm_archive op old new source phrase : Within T (archive_codes path op old new source phrase).
Proof.
  pose proof (fun op keys => calm_target_proof path T any_plan op keys I).
  pose proof (fun op keys => calm_source_proof path T any_plan op keys I). pose proof (calm_ensure path T any_plan).
  unfold archive_codes. within.
Qed.
Lemma calm_rotate op new phrase : Within T (rotate path op new phrase).
Proof.
  pose proof (fun op => calm_create_target path T any_plan new (fun _ _ _ _ => I) op I).
  pose proof (fun op id => calm_create_space path T any_plan new (fun _ _ _ _ => I) op id I).
  pose proof (fun op ids => calm_copy_target path T any_plan new (fun _ _ _ _ => I) op ids I).
  pose proof calm_activate. pose proof (calm_source_code path T any_plan). unfold rotate.
  do 3 (apply (within_bind T); [within|]; intros ?). intros w.
  apply (within_bind_at T); [apply calm_archive|]. intros r w1 (Hk & p & Hp & _ & Hc)%(archive_codes_Ok path new). cbv zeta.
  destruct (kept_source new _ _ _ Hk Hp) as (q & Hq & Hc2).
  pose proof (calm_freeze_source path T any_plan new (fun _ _ _ _ => I) r.1 a1 r.2 q Hq (eq_trans Hc (eq_sym Hc2)) I).
  match goal with |- T w1 (?m w1).2 => assert (W : Within T m) by within; apply W end.
Qed.
End Rotate.

(** A pass takes a turn of the other threads. *)
Lemma lock_turn w : (length (interrupts (lock_core path w).2) <= pred (length (interrupts w)))%nat.
Proof.
  unfold lock_core, next_interrupt, mbind at 1, rm_bind at 1.
  assert (F : Within fewer (_ ← run_others path (hd [] (interrupts w)); the_core)).
  { apply (within_bind fewer); [apply within_others; [apply _|intros; apply mild_transact, _]|within]. }
  cbn [fst snd]. etransitivity; [apply F|]. cbn. by destruct (interrupts w).
Qed.
Definition Turn {A} (m : RM A) : Prop := forall w, (length (interrupts (m w).2) <= pred (length (interrupts w)))%nat.
Lemma turn_bind {A E} (m : RM A) (k : A -> RM E) : Turn m -> (forall a, Within fewer (k a)) -> Turn (m ≫= k).
Proof.
  intros Hm Hk w. specialize (Hm w). unfold mbind, rm_bind. destruct (m w) as [[a|e] w1]; [|exact Hm].
  etransitivity; [apply Hk|exact Hm].
Qed.
Lemma turn_current : Turn (current path).
Proof. apply turn_bind; [|intros; apply within_of_result, _]. apply turn_bind; [exact lock_turn|intros; within]. Qed.
Lemma fewer_cleanup op keys : Within fewer (cleanup path op keys).
Proof.
  pose proof (fun op keys => calm_target_proof path fewer any_plan op keys I).
  pose proof (fun op keys => calm_source_proof path fewer any_plan op keys I).
  pose proof (calm_source_code path fewer any_plan). pose proof (mild_mutate path fewer).
  assert (forall op name, Within fewer (forget_code path op name)).
  { intros op1 name. unfold forget_code. apply (within_bind fewer); [apply (calm_ensure path fewer any_plan)|]. intros _ w.
    unfold relabel, keychain_delete, keychain_op. destruct (keychain_fails w) as [|[] l]; by apply fewer_same. }
  unfold cleanup. within.
Qed.
Lemma pass_turn provided w w' : pass path provided w = (Ok true, w') ->
  (length (interrupts w') <= pred (length (interrupts w)))%nat.
Proof.
  unfold pass. intros (u & w1 & H1 & H)%rm_bind_Ok. pose proof (mild_preflight path fewer w) as F1. rewrite H1 in F1.
  match type of H with ?m w1 = _ => assert (F : Turn m) end.
  { apply turn_bind; [apply turn_current|]. intros op. pose proof (calm_get path (T := fewer) (G := any_plan)).
    assert (Within fewer (keys_for op provided)) by (unfold keys_for, code; within).
    pose proof (calm_rotate fewer fewer_set). pose proof fewer_cleanup. within. }
  specialize (F w1). rewrite H in F. unfold fewer in F1. cbn [snd] in F, F1. lia.
Qed.

(** Activated: the next pass is the last one. *)
Definition active (s : SyncStateV3) : Prop := exists op, pending_account s = Some op /\ op_phase op = PActivated.
Lemma pass_active provided w w' : pass path provided w = (Ok true, w') -> exists s, records (core w') = Some s /\ active s.
Proof.
  unfold pass. intros H. do 4 (apply rm_bind_Ok in H as (? & ? & _ & H)).
  apply rm_bind_Ok in H as (k & w5 & [Hd Hc]%keys_for_Ok & H).
  destruct (_ =?= PActivated); [by apply rm_bind_Ok in H as (? & ? & _ & [= ?])|].
  apply rm_bind_Ok in H as (u2 & w6 & (op1 & old & w0 & Hk & Ha)%rotate_Ok & [= <-]).
  apply activate_target_Ok in Ha as [_ (s & a & pulled & Hs & _ & _ & Hact & _)]; [by exists s|].
  apply (ko_target _ _ _ Hk). by symmetry.
Qed.
Lemma last_pass provided w w' : interrupts w = [] -> in_memory active w -> pass path provided w <> (Ok true, w').
Proof.
  intros Hi Hm. unfold pass. intros (u & w1 & H1 & H)%rm_bind_Ok.
  destruct (memory_preflight path active w) as [Ha1 Hm1]; [unfold alone; by rewrite Hi|]. rewrite H1 in Ha1, Hm1. specialize (Hm1 Hm).
  apply rm_bind_Ok in H as (op & w2 & Hc & H).
  assert (Within (memory active) (current path)) as M by (unfold current; within).
  destruct (M w1 Ha1) as [_ Hm2]. rewrite Hc in Hm2. specialize (Hm2 Hm1).
  apply current_Ok in Hc as (s & Hs & Hp). destruct (Hm2 s Hs) as (op' & Hp' & Hph). rewrite Hp in Hp'. injection Hp' as <-.
  do 3 (apply rm_bind_Ok in H as (? & ? & _ & H)). rewrite bool_decide_eq_true_2 in H by done.
  by apply rm_bind_Ok in H as (? & ? & _ & [= ?]).
Qed.
Lemma passes_active n : forall provided w f f', (length (interrupts w) <= n)%nat -> in_memory active w ->
  (n < f)%nat -> (n < f')%nat -> passes path f provided w = passes path f' provided w.
Proof.
  induction n as [|n IH]; intros provided w [|f] [|f'] Hn Hm Hf Hf'; try lia; cbn [passes]; unfold mbind, rm_bind;
    destruct (pass path provided w) as [[[]|e] w1] eqn:He; try done.
  - exfalso. apply (last_pass provided w w1); [|done|done]. destruct (interrupts w); [done|cbn in Hn; lia].
  - pose proof (pass_turn _ _ _ He). apply IH; [lia| |lia..]. destruct (pass_active _ _ _ He) as (s & Hs & Hact).
    intros s' Hs'. rewrite Hs in Hs'. by injection Hs' as <-.
Qed.
End Ends.

(** C38. Resuming a rotation ends: each pass that succeeds without being the last puts
    the new account into force and takes a turn of the other threads, so the bound of the
    model is enough - with more fuel nothing else happens, whatever the other threads, the
    relay, the keychain and the files do. *)
Theorem rotation_resume_ends {R : RuntimeEnv} {X : RotationText} {B : AccountBuild} path provided w fuel
    (Hfuel : (S (S (length (interrupts w))) <= fuel)%nat) :
  passes path fuel provided w = resume_locked path provided w.
Proof.
  unfold resume_locked. destruct fuel as [|fuel]; [lia|]. cbn [passes]. unfold mbind, rm_bind.
  destruct (pass path provided w) as [[[]|e] w1] eqn:He; [|done..]. pose proof (pass_turn path _ _ _ He).
  change (passes path fuel None w1 = passes path (S (length (interrupts w))) None w1).
  destruct (pass_active path _ _ _ He) as (s & Hs & Hact).
  apply (passes_active path (length (interrupts w))); [lia| |lia..]. intros s' Hs'. rewrite Hs in Hs'. by injection Hs' as <-.
Qed.

(** ** The copy has every row of the source *)

(** The map that the entries of a list make, one after the other. *)
Definition inserts {V} (l : list (str * V)) : btree V := foldl (fun m e => bt_insert e.1 e.2 m) [] l.
Lemma inserts_app {V} (l : list (str * V)) e : inserts (l ++ [e]) = bt_insert e.1 e.2 (inserts l).
Proof. unfold inserts. by rewrite foldl_app. Qed.
Lemma inserts_elem {V} (l : list (str * V)) k v : bt_get k (inserts l) = Some v -> (k, v) ∈ l.
Proof.
  induction l as [|[k' v'] l IH] using rev_ind; [done|]. rewrite inserts_app, elem_of_app, list_elem_of_singleton, bt_get_insert.
  cbn [fst snd]. case_decide as Hk; [intros [= ->]; subst; by right|intros H; left; auto].
Qed.
Lemma inserts_get {V} (l : list (str * V)) k v : NoDup l.*1 -> (k, v) ∈ l -> bt_get k (inserts l) = Some v.
Proof.
  induction l as [|[k' v'] l IH] using rev_ind; [by intros _ ?%elem_of_nil|]. rewrite fmap_app, NoDup_app, inserts_app, elem_of_app, list_elem_of_singleton, bt_get_insert.
  cbn [fst snd fmap list_fmap]. intros (Hl & Hn & _) [H|[= -> ->]]; [|by rewrite decide_True].
  rewrite decide_False; [by apply IH|]. intros ->. apply (Hn k); [|by left]. apply list_elem_of_fmap. by exists (k, v).
Qed.
(** Loops that insert one entry for every item. *)
Lemma try_fold_inserts {A V E} (f : btree V -> A -> result E (btree V)) (P : A -> str * V -> Prop) l m :
  (forall m x m', f m x = Ok m' -> exists e, P x e /\ m' = bt_insert e.1 e.2 m) ->
  try_fold f [] l = Ok m -> exists es, Forall2 P l es /\ m = inserts es.
Proof.
  intros Hf. enough (G : forall l acc es m, acc = inserts es -> try_fold f acc l = Ok m -> exists es', Forall2 P l es' /\ m = inserts (es ++ es')).
  { intros H. by apply (G l [] [] m) in H as (es & H1 & H2); [exists es|]. }
  clear l m. induction l as [|x l IH]; intros acc es m -> H; cbn [try_fold] in H.
  - ok_inv. exists []. rewrite app_nil_r. by split.
  - apply bind_Ok in H as (acc1 & (e & He & ->)%Hf & H). rewrite <-inserts_app in H.
    apply IH with (es := es ++ [e]) in H as (es' & H1 & ->); [|done]. exists (e :: es'). split; [by constructor|]. by rewrite <-app_assoc.
Qed.
Lemma fold_rm_inserts {R : RuntimeEnv} {A V} (f : btree V -> A -> RM (btree V)) (P : A -> str * V -> Prop) l w m w' :
  (forall m x w m' w', x ∈ l -> f m x w = (Ok m', w') -> exists e, P x e /\ m' = bt_insert e.1 e.2 m) ->
  fold_rm f [] l w = (Ok m, w') -> exists es, Forall2 P l es /\ m = inserts es.
Proof.
  enough (G : forall es w m w', (forall m x w m' w', x ∈ l -> f m x w = (Ok m', w') -> exists e, P x e /\ m' = bt_insert e.1 e.2 m) ->
    fold_rm f (inserts es) l w = (Ok m, w') -> exists es', Forall2 P l es' /\ m = inserts (es ++ es')) by (intros Hf H; exact (G [] w m w' Hf H)).
  clear w m w'. induction l as [|x l IH]; intros es w m w' Hf H; cbn [fold_rm] in H.
  - injection H as <- _. exists []. rewrite app_nil_r. by split.
  - apply rm_bind_Ok in H as (m1 & w1 & H1 & H). apply Hf in H1 as (e & He & ->); [|by left]. rewrite <-inserts_app in H.
    apply IH in H as (es' & Hes & ->); [|intros m2 y w2 m3 w3 Hy; apply Hf; by right].
    exists (e :: es'). split; [by constructor|]. by rewrite <-app_assoc.
Qed.

Section Copy.
Context {R : RuntimeEnv} {X : RotationText} {B : AccountBuild}.

(** What [open_value] finds in a value. *)
Record record_value (kind id : str) (deleted : bool) (o : btree Json) : Prop := {
  rv_length : length o = 7;
  rv_fields k : k ∈ bt_keys o -> in_strs RECORD_FIELDS k = true;
  rv_kind : bt_get (lit "kind") o = Some (JString kind);
  rv_deleted : bt_get (lit "deleted") o = Some (JBool deleted);
  rv_id : bt_get (lit "id") o = Some (JString id);
  rv_named : id <> [];
  rv_version : is_some_and (fun v => (0 <? v)%N) (bt_get (lit "version") o ≫= as_u64) = true;
  rv_time : is_some (bt_get (lit "updated_at_ms") o ≫= as_u64) = true;
  rv_device : is_some_and is_slot_id (bt_get (lit "device_id") o ≫= as_str) = true
}.
Lemma open_value_record keys e v : open_value keys e = Ok v ->
  exists id o, v = JObject o /\ record_value (ekind e) id (edeleted e) o /\ id_hash keys (ekind e) id = eid_hash e.
Proof.
  unfold open_value. intros H. ok_inv. destruct v as [| | | | |o]; try done. cbn in Hok1. injection Hok1 as <-.
  repeat match goal with H : _ || _ = false |- _ => apply orb_false_iff in H as [H ?] end.
  repeat match goal with H : negb _ = false |- _ => apply negb_false_iff in H end.
  assert (Hstr : forall (x : option Json) a, x ≫= as_str = Some a -> x = Some (JString a)) by (by intros [[]|] a [= ->]).
  assert (Hbool : forall (x : option Json) a, x ≫= as_bool = Some a -> x = Some (JBool a)) by (by intros [[]|] a [= ->]).
  destruct (bt_get (lit "id") o ≫= as_str) as [id|] eqn:Hid; [|done]. cbn [is_some_and] in H2.
  apply andb_true_iff in H2 as [Hne Hh]. apply negb_true_iff, bool_decide_eq_false in Hne. apply bool_decide_eq_true in Hh, H3, H4.
  exists id, o. split; [done|]. split; [|done]. split; auto.
  - by apply Nat.eqb_eq in Hok2.
  - rewrite existsb_none in H5. intros k Hk. specialize (H5 k Hk). by apply negb_false_iff.
  - by destruct (bt_get (lit "updated_at_ms") o ≫= as_u64).
Qed.

(** A value sealed under its identity opens to itself. *)
Lemma seal_value_opens keys kind id deleted o b e : length b = NONCE_LEN -> record_value kind id deleted o ->
  seal_value keys kind id (JObject o) (Some b) = Ok e ->
  ekind e = kind /\ eid_hash e = id_hash keys kind id /\ open_value keys e = Ok (JObject o).
Proof.
  intros Hb [Hl Hf Hk Hd Hi Hne Hv Ht Hdev] H. unfold seal_value in H. ok_inv. apply json_text in Hok.
  destruct (open_seal _ _ _ _ _ _ Hb Hok0) as [Hhash Hopen]. cbn [json_get] in Hok1. rewrite Hd in Hok1. injection Hok1 as <-.
  split; [done|]. split; [done|]. unfold open_value. cbn [ekind eid_hash edeleted envelope_body enonce eciphertext].
  replace (envelope_body _) with v0 by (by destruct v0). rewrite Hopen. cbn [map_err mbind result_bind].
  rewrite Hok. cbn [ok_or mbind result_bind as_object]. rewrite Hl, Hk, Hd, Hi, Hv, Hdev. cbn [mbind option_bind as_str as_bool is_some_and].
  rewrite !bool_decide_eq_true_2 by done. rewrite (bool_decide_eq_false_2 _ Hne), (bool_decide_eq_true_2 _ (eq_sym Hhash)).
  assert (existsb (fun k => negb (in_strs RECORD_FIELDS k)) (bt_keys o) = false) as ->.
  { apply existsb_none. intros k Hin. by rewrite (Hf k Hin). }
  destruct (bt_get (lit "updated_at_ms") o ≫= as_u64); done.
Qed.

(** Replacing a member of an ordered object. *)
Lemma bt_insert_length {V} k (v x : V) (m : btree V) : bt_ok m -> bt_get k m = Some v -> length (bt_insert k x m) = length m.
Proof.
  unfold bt_ok. induction m as [|[k' v'] m IH]; [done|]. intros [Hm Hlt]%StronglySorted_inv. cbn [bt_get bt_insert].
  case_bool_decide as Hk.
  - intros _. subst. by rewrite (proj2 (str_compare_eq k' k') eq_refl).
  - intros Hg. destruct (str_compare k k') eqn:Hc; [done| |cbn; by rewrite IH].
    exfalso. apply bt_get_elem in Hg. rewrite Forall_forall in Hlt. specialize (Hlt _ Hg). unfold key_lt in Hlt. cbn [fst] in Hlt.
    assert (str_ltb k k' = true) by (unfold str_ltb; by rewrite Hc). by rewrite (str_ltb_asym k k') in Hlt.
Qed.
Lemma bt_insert_keys {V} k (x : V) (m : btree V) k' : k' ∈ bt_keys (bt_insert k x m) -> k' = k \/ k' ∈ bt_keys m.
Proof.
  unfold bt_keys. intros ([k2 v2] & -> & H)%list_elem_of_fmap. apply bt_elem_insert in H as [[= -> ->]|H]; [by left|right].
  apply list_elem_of_fmap. by exists (k2, v2).
Qed.
(** Another identifier and other contents leave a record a record. *)
Lemma record_value_set kind id deleted o k x : bt_ok o -> is_some (bt_get k o) = true -> in_strs RECORD_FIELDS k = true ->
  k <> lit "kind" -> k <> lit "deleted" -> k <> lit "id" -> k <> lit "version" -> k <> lit "updated_at_ms" -> k <> lit "device_id" ->
  record_value kind id deleted o -> record_value kind id deleted (bt_insert k x o).
Proof.
  intros Ho Hg Hin H1 H2 H3 H4 H5 H6 [Hl Hf Hk Hd Hi Hne Hv Ht Hdev].
  destruct (bt_get k o) as [y|] eqn:Hy; [|done]. split; try done; rewrite ?bt_get_insert_ne by done; try done.
  - by rewrite (bt_insert_length _ _ _ _ Ho Hy).
  - by intros k' [->|Hk']%bt_insert_keys; [|auto].
Qed.
Lemma record_value_rename kind id id' deleted o : bt_ok o -> id' <> [] ->
  record_value kind id deleted o -> record_value kind id' deleted (bt_insert (lit "id") (JString id') o).
Proof.
  intros Ho Hn [Hl Hf Hk Hd Hi Hne Hv Ht Hdev]. split; try done; rewrite ?bt_get_insert_ne by done; try done.
  - by rewrite (bt_insert_length _ _ _ _ Ho Hi).
  - by intros k' [->|Hk']%bt_insert_keys; [|auto].
  - apply bt_get_insert_eq.
Qed.

Lemma bt_ok_distinct {V} (m : btree V) : bt_ok m -> NoDup (bt_keys m).
Proof.
  unfold bt_ok, bt_keys. induction 1 as [|[k v] m Hm IH Hlt]; [constructor|]. cbn [fmap list_fmap fst]. constructor; [|done].
  intros ([k' v'] & Hk & Hin)%list_elem_of_fmap. cbn in Hk. subst k'. rewrite Forall_forall in Hlt. specialize (Hlt _ Hin).
  unfold key_lt in Hlt. cbn in Hlt. by rewrite str_ltb_irrefl in Hlt.
Qed.
Lemma payload_present kind id deleted o : bt_ok o -> record_value kind id deleted o -> is_some (bt_get (lit "payload") o) = true.
Proof.
  intros Ho [Hl Hf _ _ _ _ _ _ _].
  assert (Hsub : bt_keys o ⊆+ RECORD_FIELDS).
  { apply NoDup_submseteq; [by apply bt_ok_distinct|]. intros k Hk%Hf. unfold in_strs in Hk.
    apply existsb_elem in Hk as (y & Hy & Heq). apply bool_decide_eq_true in Heq. by subst. }
  apply submseteq_length_Permutation in Hsub; [|unfold bt_keys; rewrite length_fmap; cbn; lia].
  assert (Hin : lit "payload" ∈ bt_keys o) by (rewrite Hsub; by repeat (first [left|right])).
  apply list_elem_of_fmap in Hin as ([k v] & Hk & Hin). cbn in Hk. subst k. by rewrite (bt_ok_get _ _ _ Ho Hin).
Qed.

(** The copy of a sealed row. *)
Definition sealed_copy (old new : ChainKeys) (children : btree ChainKeys) (r : SealedRecord) (e : str * SealedRecord) : Prop :=
  exists v c, open_value old (senvelope r) = Ok v /\ copied_value children (senvelope r) v = Ok c /\
    e.1 = sealed_key (ekind (senvelope r)) (id_hash new (ekind (senvelope r)) c.1) /\ own_wire e.2 = e.1 /\
    sdirty e.2 = true /\ open_value new (senvelope e.2) = Ok c.2.
(** Objects are ordered, as [serde_json] keeps them. *)
Definition ordered (keys : ChainKeys) (r : SealedRecord) : Prop :=
  forall o, open_value keys (senvelope r) = Ok (JObject o) -> bt_ok o.
Definition named_children (children : btree ChainKeys) : Prop := forall k c, bt_get k children = Some c -> ck_chain_id c <> [].

Lemma copied_value_record children e v c : named_children children -> copied_value children e v = Ok c ->
  (exists id o, v = JObject o /\ bt_ok o /\ record_value (ekind e) id (edeleted e) o) ->
  exists o, c.2 = JObject o /\ record_value (ekind e) c.1 (edeleted e) o.
Proof.
  intros Hn H (id & o & -> & Ho & Hr). unfold copied_value in H. ok_inv. unfold json_str in Hok. cbn [json_get] in Hok.
  rewrite (rv_id _ _ _ _ Hr) in Hok. injection Hok as <-. destruct (_ && _); [|ok_inv; by exists o].
  destruct (bt_get id children) as [child|] eqn:Hc; [|ok_inv; by exists o]. ok_inv. cbn [json_set] in Hok.
  injection Hok as <-. cbn [json_set] in Hok0. injection Hok0 as <-. eexists. split; [reflexivity|]. cbn [fst].
  apply Hn in Hc. pose proof (record_value_rename _ _ _ _ _ Ho Hc Hr) as Hr2.
  apply record_value_set; try done; [by apply bt_ok_insert|].
  rewrite bt_get_insert_ne by done. by eapply payload_present.
Qed.
Lemma fill_Ok n w b w' : fill n w = (Ok b, w') -> b = None \/ exists l, b = Some l /\ length l = n.
Proof.
  unfold fill. intros [= <- _]. destruct (hd None (randoms w)) as [l|]; [right|by left]. eexists. split; [reflexivity|].
  rewrite length_take, length_app, repeat_length. lia.
Qed.
Lemma copy_sealed_Ok old new children rows r w rows' w' : named_children children -> ordered old r ->
  copy_sealed old new children rows r w = (Ok rows', w') ->
  exists e, sealed_copy old new children r e /\ rows' = bt_insert e.1 e.2 rows.
Proof.
  intros Hn Ho. unfold copy_sealed. intros (v & w1 & [Hv _]%of_result_Ok & H)%rm_bind_Ok.
  apply rm_bind_Ok in H as (c & w2 & [Hc _]%of_result_Ok & H). apply rm_bind_Ok in H as (b & w3 & Hb%fill_Ok & H).
  apply rm_bind_Ok in H as (e & w4 & [He _]%of_result_Ok & [= <- _]).
  destruct (open_value_record _ _ _ Hv) as (id & o & -> & Hr & _).
  destruct (copied_value_record _ _ _ _ Hn Hc) as (o2 & Hc2 & Hr2); [by exists id, o; auto|].
  destruct Hb as [->|(l & -> & Hl)]; [unfold seal_value, seal in He; by ok_inv|]. rewrite Hc2 in He.
  destruct (seal_value_opens _ _ _ _ _ _ _ Hl Hr2 He) as (Hk & Hh & Hopen).
  exists (sealed_key (ekind e) (eid_hash e), mkSealed e true None). split; [|done].
  exists (JObject o), c. split; [done|]. split; [done|]. rewrite Hk, Hh, Hc2. split; [done|]. split; [|by split].
  unfold own_wire. cbn. by rewrite Hk, Hh.
Qed.

(** Where the copies go. *)
Definition copied_key (mapping : btree str) (r : Rec) : str :=
  record_key (rkind r) (if (rkind r =?= KSpace) && negb (rdeleted r) then default (rid r) (bt_get (rid r) mapping) else rid r).
Definition copied_id (mapping : btree str) (e : Envelope) (id : str) : str :=
  if (ekind e =?= lit "spacekey") && negb (edeleted e) then default id (bt_get id mapping) else id.
Definition copied_wire (mapping : btree str) (old new : ChainKeys) (r : SealedRecord) : option str :=
  v ← result_ok (open_value old (senvelope r));
  id ← json_str (lit "id") v;
  Some (sealed_key (ekind (senvelope r)) (id_hash new (ekind (senvelope r)) (copied_id mapping (senvelope r) id))).

(** No two copies go to one place: the new identifiers are new, and no two hashes are equal. *)
Record distinct_places (p : RotationPlan) (old new : ChainKeys) : Prop := {
  dp_from : NoDup (bt_keys (space_ids p));
  dp_to : NoDup (bt_values (space_ids p));
  dp_spaces : NoDup (bt_keys (source_spaces p));
  dp_records : NoDup (map (fun row => copied_key (space_ids p) (lrecord row)) (bt_values (a_records (source_account p))));
  dp_sealed : NoDup (map (copied_wire (space_ids p) old new) (bt_values (a_sealed (source_account p))));
  dp_ordered row : row ∈ bt_values (a_sealed (source_account p)) -> ordered old row;
  dp_named id n : (id, n) ∈ space_ids p -> n <> [];
  dp_space_sealed id sp keys child : (id, sp) ∈ source_spaces p -> NoDup (map (copied_wire [] keys child) (bt_values (s_sealed sp)));
  dp_space_ordered id sp keys row : (id, sp) ∈ source_spaces p -> row ∈ bt_values (s_sealed sp) -> ordered keys row
}.

Lemma copied_record_key schema m mapping r r' : copied_record schema m mapping r = Ok r' ->
  record_key (rkind r') (rid r') = copied_key mapping r.
Proof.
  unfold copied_record, copied_key. destruct (_ && (rid r =?= _)) eqn:Hm.
  - intros [= <-]. cbn. apply andb_true_iff in Hm as [Hk _]. apply bool_decide_eq_true in Hk. by rewrite Hk.
  - clear Hm. destruct (_ && _); [|destruct (_ && _)]; intros H; ok_inv; cbn; [|done..]. by rewrite Hok.
Qed.
Lemma copied_value_id children mapping e v c id : copied_value children e v = Ok c -> json_str (lit "id") v = Some id ->
  (forall k, ck_chain_id <$> bt_get k children = bt_get k mapping) -> c.1 = copied_id mapping e id.
Proof.
  intros H Hid Hm. unfold copied_value in H. ok_inv. rewrite Hid in Hok. injection Hok as <-. unfold copied_id. rewrite <-Hm.
  destruct (_ && _); [|by ok_inv]. destruct (bt_get id children); by ok_inv.
Qed.
Lemma sealed_copy_key old new children mapping r e : (forall k, ck_chain_id <$> bt_get k children = bt_get k mapping) ->
  sealed_copy old new children r e -> copied_wire mapping old new r = Some e.1.
Proof.
  intros Hm (v & c & Hv & Hc & He & _). unfold copied_wire. rewrite Hv. cbn [result_ok mbind option_bind].
  pose proof Hc as Hid. unfold copied_value in Hid. apply bind_Ok in Hid as (id & Hid%ok_or_Ok & _). rewrite Hid. cbn [mbind option_bind].
  rewrite He. by rewrite (copied_value_id _ _ _ _ _ _ Hc Hid Hm).
Qed.

(** One copy for every item, found at its place. *)
Lemma copies_found {A V} (P : A -> str * V -> Prop) (key : A -> option str) l es :
  (forall x e, P x e -> key x = Some e.1) -> NoDup (map key l) -> Forall2 P l es ->
  forall x, x ∈ l -> exists e, P x e /\ bt_get e.1 (inserts es) = Some e.2.
Proof.
  intros Hk Hn Hall. assert (Hkeys : map key l = map Some es.*1).
  { clear Hn. induction Hall as [|x e l es Hp _ IH]; [done|]. cbn. by rewrite (Hk _ _ Hp), IH. }
  rewrite Hkeys in Hn. apply NoDup_fmap_1 in Hn. intros x Hx. apply list_elem_of_lookup in Hx as [i Hi].
  destruct (Forall2_lookup_l _ _ _ _ _ Hall Hi) as (e & He & Hp). exists e. split; [done|]. apply inserts_get; [done|].
  apply list_elem_of_lookup_2 in He. by destruct e.
Qed.

(** The parts of the copy. *)
Lemma children_Ok p w children w' : fold_rm add_child [] (space_ids p) w = (Ok children, w') ->
  NoDup (bt_keys (space_ids p)) ->
  forall k, ck_chain_id <$> bt_get k children = bt_get k (space_ids p).
Proof.
  intros H Hn. apply (fold_rm_inserts _ (fun (x : str * str) e => e.1 = x.1 /\ ck_chain_id e.2 = x.2)) in H as (es & Hall & ->).
  2: { clear. intros m [id n] w m' w' _ H. unfold add_child in H. apply rm_bind_Ok in H as (g & w1 & _ & H).
       apply rm_bind_Ok in H as (child & w2 & [Hc _]%of_result_Ok & [= <- _]). exists (id, child). split; [|done].
       split; [done|]. unfold from_parts in Hc. by ok_inv. }
  assert (Hk : es.*1 = bt_keys (space_ids p)).
  { unfold bt_keys. clear Hn. induction Hall as [|x e l es [He _] _ IH]; [done|]. cbn. by rewrite He, IH. }
  intros k. destruct (bt_get k (space_ids p)) as [n|] eqn:Hg.
  - apply bt_get_elem, list_elem_of_lookup in Hg as [i Hi]. destruct (Forall2_lookup_l _ _ _ _ _ Hall Hi) as ([k' c] & He & H1 & H2).
    cbn in H1, H2. subst. rewrite (inserts_get es k c); [done|by rewrite Hk|by apply list_elem_of_lookup_2 in He].
  - destruct (bt_get k (inserts es)) as [c|] eqn:Hc; [|done]. exfalso. apply inserts_elem, list_elem_of_lookup in Hc as [i Hi].
    destruct (Forall2_lookup_r _ _ _ _ _ Hall Hi) as ([k' n] & He & H1 & _). cbn in H1. subst k'.
    apply list_elem_of_lookup_2 in He. unfold bt_keys in Hn. clear -Hg He. induction (space_ids p) as [|[k' n'] l IH]; [by apply elem_of_nil in He|].
    cbn [bt_get] in Hg. case_bool_decide; [done|]. apply elem_of_cons in He as [[= -> ->]|He]; [done|auto].
Qed.

(** The sealed rows of one section. *)
Lemma sealed_found old new children mapping rows w m w' :
  (forall k, ck_chain_id <$> bt_get k children = bt_get k mapping) -> named_children children ->
  NoDup (map (copied_wire mapping old new) rows) -> (forall row, row ∈ rows -> ordered old row) ->
  fold_rm (copy_sealed old new children) [] rows w = (Ok m, w') ->
  forall row, row ∈ rows -> exists e, sealed_copy old new children row e /\ bt_get e.1 m = Some e.2.
Proof.
  intros Hm Hn Hd Ho H.
  apply (fold_rm_inserts _ (sealed_copy old new children)) in H as (es & Hall & ->).
  2: { intros m1 x w1 m2 w2 Hx. apply copy_sealed_Ok; auto. }
  eapply copies_found; [|exact Hd|exact Hall]. intros x e. by apply sealed_copy_key.
Qed.

(** A space under its new chain. *)
Record space_copy (source : AccountState) (old : ChainKeys) (children : btree ChainKeys) (x : str * SpaceStateV3)
    (e : str * SpaceStateV3) : Prop := {
  sc_target : exists child, bt_get x.1 children = Some child /\ e.1 = ck_chain_id child /\
    exists keys, space_keys source old x.1 = Ok (Some keys) /\
      forall row, row ∈ bt_values (s_sealed x.2) -> exists f, sealed_copy keys child [] row f /\ bt_get f.1 (s_sealed e.2) = Some f.2;
  sc_selected : selected e.2 = selected x.2;
  sc_records : s_records e.2 = unsent (s_records x.2)
}.
Lemma copy_space_Ok source old children targets x w targets' w' :
  (forall keys child, NoDup (map (copied_wire [] keys child) (bt_values (s_sealed x.2)))) ->
  (forall keys row, row ∈ bt_values (s_sealed x.2) -> ordered keys row) ->
  copy_space source old children targets x w = (Ok targets', w') ->
  exists e, space_copy source old children x e /\ targets' = bt_insert e.1 e.2 targets.
Proof.
  intros Hd Ho. unfold copy_space. intros (k & w1 & [Hk _]%of_result_Ok & H)%rm_bind_Ok.
  apply rm_bind_Ok in H as (keys & w2 & [Hkeys%ok_or_Ok _]%of_result_Ok & H). subst k.
  apply rm_bind_Ok in H as (child & w3 & [Hc%ok_or_Ok _]%of_result_Ok & H). apply rm_bind_Ok in H as (sealed & w4 & Hs & [= <- _]).
  eexists (ck_chain_id child, _). split; [|reflexivity]. split; [|done..]. exists child. split; [done|]. split; [done|].
  exists keys. split; [done|]. eapply (sealed_found keys child [] []); [done|done|apply Hd|apply Ho|exact Hs].
Qed.

Lemma records_found schema m mapping rows copies :
  NoDup (map (fun row => copied_key mapping (lrecord row)) rows) ->
  try_fold (copy_record schema m mapping) [] rows = Ok copies ->
  forall row, row ∈ rows -> exists r, copied_record schema m mapping (lrecord row) = Ok r /\
    bt_get (record_key (rkind r) (rid r)) copies = Some (mkLocal r 0 true).
Proof.
  intros Hd H. apply (try_fold_inserts _ (fun row e => exists r, copied_record schema m mapping (lrecord row) = Ok r /\
    e = (record_key (rkind r) (rid r), mkLocal r 0 true))) in H as (es & Hall & ->).
  2: { intros m1 row m2 Hc. unfold copy_record in Hc. ok_inv. eexists. split; [by eexists|done]. }
  assert (Hd2 : NoDup (map (fun row => Some (copied_key mapping (lrecord row))) rows)).
  { apply (NoDup_fmap_2 Some) in Hd. by rewrite <-list_fmap_compose in Hd. }
  intros row Hrow. unshelve epose proof (copies_found _ _ _ _ _ Hd2 Hall row Hrow) as (e & (r & Hr & ->) & Hg); [|by exists r].
  intros x e (r & Hr & ->). cbn. f_equal. symmetry. by eapply copied_record_key.
Qed.

Lemma same_entry {A E} (f : A -> E) (l : list A) x y : NoDup (map f l) -> x ∈ l -> y ∈ l -> f x = f y -> x = y.
Proof.
  intros Hn Hx Hy Hf. apply list_elem_of_lookup in Hx as [i Hi], Hy as [j Hj].
  assert (i = j) as -> by (eapply (NoDup_lookup (map f l) i j (f x)); [done|..]; rewrite list_lookup_fmap, ?Hi, ?Hj; cbn; congruence).
  congruence.
Qed.
Lemma spaces_found p source old children w targets w' new : distinct_places p old new ->
  (forall k, ck_chain_id <$> bt_get k children = bt_get k (space_ids p)) ->
  fold_rm (copy_space source old children) [] (source_spaces p) w = (Ok targets, w') ->
  forall x, x ∈ source_spaces p -> exists e, space_copy source old children x e /\ bt_get e.1 targets = Some e.2.
Proof.
  intros Hd Hm H. apply (fold_rm_inserts _ (space_copy source old children)) in H as (es & Hall & ->).
  2: { intros m1 [id sp] w1 m2 w2 Hx. apply copy_space_Ok; [intros; by eapply dp_space_sealed|intros keys row; by eapply dp_space_ordered]. }
  eapply (copies_found _ (fun x => bt_get x.1 (space_ids p))); [| |exact Hall].
  - intros x e [(child & Hc & -> & _) _ _]. by rewrite <-Hm, Hc.
  - apply NoDup_fmap_2_strong; [|by eapply NoDup_fmap_1, (dp_spaces _ _ _ Hd)]. intros x y Hx Hy Heq.
    destruct (list_elem_of_lookup_1 _ _ Hx) as [i Hi]. destruct (Forall2_lookup_l _ _ _ _ _ Hall Hi) as (e & _ & [(child & Hc & _) _ _]).
    assert (Hn : bt_get x.1 (space_ids p) = Some (ck_chain_id child)) by (by rewrite <-Hm, Hc).
    cbn beta in Heq. pose proof Heq as Hn2. rewrite Hn in Hn2. symmetry in Hn2.
    assert (Hk : x.1 = y.1) by (apply (f_equal fst (same_entry snd _ (x.1, ck_chain_id child) (y.1, ck_chain_id child) (dp_to _ _ _ Hd) (bt_get_elem _ _ _ Hn) (bt_get_elem _ _ _ Hn2) eq_refl))).
    eapply (same_entry fst); [apply (dp_spaces _ _ _ Hd)|done..].
Qed.
End Copy.

