(* ===== verification/RecordAccount.v ===== *)
(** * RecordAccount: creating and joining a record account, its spaces and keys

    [src-tauri/src/sync/record_account.rs]: the pending operation that creates or joins an
    account or creates a space.  Every step first writes down how far it came, so that it
    can be resumed: the sync code is staged in the keychain, the chain created, the rows
    pushed behind a fresh look at the target, and only then the code and the account are
    put into force.  Creating a chain is not recorded among the calls of the world.  Publishing and downloading a key are not here. *)

From stdpp Require Import gmap.
From S2P Require Import Prelude Text BTreeMap SlotRules ImportText ImportLoad HostText SpaceFiles SpaceFilesProps Json SyncRecord RecordsTypes RecordsValidate RecordsState RepositoryCore RecordGroups Repository GroupEdit GroupOrderEdit StateCheck Crypto Relay RecordMerge RecordPush RecordMergeProps RecordLibrary RecordRuntime RecordRuntimeProps RecordRound RecordRoundProps RecordLeave RecordRotate RecordLeaveProps RecordRotateProps.

(** [Display] of [AppError]. *)
Definition app_error_text (e : AppError) : str :=
  match e with
  | AIo m => lit "io error: " ++ m
  | AForbiddenPath p => lit "path is not allowed: " ++ p
  | ANotFound m => lit "not found: " ++ m
  | AOther m => m
  | AParse msg line => lit "parse error at line " ++ dec line ++ lit ": " ++ msg
  | AConflict p => lit "file changed on disk since it was loaded: " ++ p
  end.

(** ** Rows and updates *)

Definition clean_name {U : Unicode} (name : str) : result AppError str :=
  let name := trim name in
  _ ← guard_err ((name =?= []) || (128 <? str_len name)%nat) (app_error "record name must have 1 to 128 bytes");
  Ok name.

Definition new_row (s : SyncStateV3) (kind : RecordKind) (id : str) (payload : Json) (at_ms : N) : Rec :=
  mkRec kind id 1 at_ms (device_id s) false payload.
Definition insert_public (a : AccountState) (r : Rec) : AccountState :=
  set_a_records a (bt_insert (record_key (rkind r) (rid r)) (mkLocal r 0 true) (a_records a)).
Definition num (n : N) : Json := JNumber (PosInt n).
Definition in_library (r : LocalRecord) : bool :=
  (json_get RecordLibrary.DEVICE_FLAG (rpayload (lrecord r)) ≫= as_bool) =?= Some true.
Definition selected_ids (s : SyncStateV3) : list str :=
  map fst (List.filter (fun e : str * SpaceStateV3 => selected e.2 && negb (missing e.2)) (spaces s)).

(** [plan_device]: this device's row, a version after the one the account has. *)
Definition device_payload {B : AccountBuild} (s : SyncStateV3) (name : str) (at_ms : N) : btree Json :=
  [(lit "joined_at_ms", num at_ms); (lit "keys", JArray []); (lit "last_seen_ms", num at_ms); (lit "name", JString name);
   (lit "platform", JString os); (lit "schema", num 1); (lit "spaces", JArray (map JString (selected_ids s)))].
Definition plan_device {B : AccountBuild} (s : SyncStateV3) (a : AccountState) (name : str) (at_ms : N)
  : result AppError AccountState :=
  let key := record_key KDevice (device_id s) in
  let previous := bt_get key (a_records a) in
  version ← ok_or (checked_add (from_option (fun r => rversion (lrecord r)) 0%N previous) 1)
              (app_error "device revision exhausted");
  stamp ← match previous with
          | Some r => later ← ok_or (checked_add (rupdated_at_ms (lrecord r)) 1) (app_error "device timestamp exhausted");
                      Ok (N.max later at_ms)
          | None => Ok at_ms
          end;
  let fields := device_payload s name at_ms in
  let fields := if is_some_and in_library previous then bt_insert RecordLibrary.DEVICE_FLAG (JBool true) fields else fields in
  let r := mkRec KDevice (device_id s) version stamp (device_id s) false (JObject fields) in
  Ok (set_a_records a (bt_insert key (mkLocal r (from_option lseq 0%N previous) true) (a_records a))).

Definition ensure_empty (s : SyncStateV3) : result AppError unit :=
  _ ← guard_err (is_some (account s)) (app_error "this record workspace already has an account");
  guard_err (is_some (pending_account s)) (app_error "finish the pending record account operation first").

Definition gate_error (gate : AccountGate) : AppError :=
  match gate with
  | NeedsMigration _ => app_error "this account needs explicit migration before joining records mode"
  | NeedsUpdate _ => app_error "this account uses a newer format; update Lunport"
  | MigrationPending _ => app_error "this account migration is still being published"
  | _ => app_error "this record account is not writable"
  end.

(** Updates of a pending operation and of the state. *)
Definition with_gate (op : PendingAccountOperation) (gate : option MigrationGate) : PendingAccountOperation :=
  mkPending (op_id op) (op_device_name op) (op_kind op) (op_phase op) gate (op_relay_url op)
    (staged_code_account op) (prepared_account op) (op_space_id op) (prepared_space op) (op_leave op) (op_rotation op).
Definition with_space (op : PendingAccountOperation) (sp : SpaceStateV3) : PendingAccountOperation :=
  mkPending (op_id op) (op_device_name op) (op_kind op) (op_phase op) (op_migration_gate op) (op_relay_url op)
    (staged_code_account op) (prepared_account op) (op_space_id op) (Some sp) (op_leave op) (op_rotation op).

(** ** Keeping the operation *)

Section Account.
Context {R : RuntimeEnv} {T : RotationText} {B : AccountBuild} (state_path : str).

Definition ensure_shared (s : SyncStateV3) : result AppError unit :=
  _ ← guard_err (is_none (account s)) (app_error "join or create a record account first");
  guard_err (account_writes_blocked s || is_some (rotation s)) (app_error "record account shared writes are blocked").

Definition saved_pending (op : PendingAccountOperation) (s : SyncStateV3) : result AppError SyncStateV3 :=
  _ ← guard_err (negb (relay_url s =?= op_relay_url op)) superseded;
  _ ← guard_err (is_some_and (fun old => negb (op_id old =?= op_id op)) (pending_account s))
        (app_error "another record operation is pending");
  Ok (set_pending s (Some op) (shared_writes_blocked s) (last_error s)).
Definition save_pending (op : PendingAccountOperation) : RM unit :=
  _ ← mutate_records state_path (saved_pending op); mret tt.

Definition pending : RM PendingAccountOperation :=
  s ← snapshot state_path;
  of_result (ok_or (pending_account s.1) (app_error "no record account operation is pending")).

(** What the relay has already done. *)
Definition replaced (op : PendingAccountOperation) (latest : SyncStateV3) : result AppError SyncStateV3 :=
  _ ← guard_err (negb (((op_id <$> pending_account latest) =?= Some (op_id op)) && (relay_url latest =?= op_relay_url op)))
        superseded;
  Ok (set_pending latest (Some op) (shared_writes_blocked latest) (last_error latest)).
Definition replace_pending (op : PendingAccountOperation) (accepted : bool) : RM unit :=
  if negb accepted then save_pending op
  else commit_retained state_path (replaced op) "cannot retain invalid pending receipt" "record state generation exhausted".

(** A gate of the target account; the operation ends with its error. *)
Definition observed (op : PendingAccountOperation) (gate : AccountGate) (schema : option N) (s : SyncStateV3)
  : result AppError SyncStateV3 :=
  _ ← guard_err (negb ((op_id <$> pending_account s) =?= Some (op_id op))) superseded;
  p ← ok_or (pending_account s) panic;
  let marker := match gate with MigrationPending m => Some m | _ => None end in
  let p := with_gate p marker in
  let p := match opt_filter (fun v => (ACCOUNT_SCHEMA <? v)%N) schema with
           | Some v => with_account p (set_remote_schema (prepared_account p) (Some v))
           | None => p
           end in
  let text := Some (app_error_text (gate_error gate)) in
  let n := if is_some (account s) then set_gate s (account s) marker true text
           else set_gate s None (migration_gate s) (shared_writes_blocked s) text in
  Ok (set_pending n (Some p) (shared_writes_blocked n) (last_error n)).
Definition observe_pending_gate {A} (op : PendingAccountOperation) (gate : AccountGate) (schema : option N) : RM A :=
  r ← attempt (mutate_records state_path (observed op gate schema));
  match r with
  | Err e =>
      c ← lock_core state_path;
      _ ← match opt_filter (fun s => is_some_and (fun p => op_id p =?= op_id op) (pending_account s)) (records c) with
          | Some s => put_core (set_blocked c (set_pending s (pending_account s) true (last_error s))
                                  (lit "pending authenticated account gate could not be saved"))
          | None => mret tt
          end;
      fail e
  | Ok _ => fail (gate_error gate)
  end.

(** The target account, pulled as a whole: its rows under those that were prepared. *)
Definition new_empty (op : PendingAccountOperation) (pulled : PullResponse) (gate : AccountGate) : bool :=
  (op_kind op =?= CreateAccount) && (match pull_records pulled with [] => true | _ => false end)
  && match gate with NeedsMigration schema => (schema <=? ACCOUNT_SCHEMA)%N | _ => false end.
Definition target_pull (op : PendingAccountOperation) (keys : ChainKeys) : RM AccountState :=
  _ ← preflight state_path;
  _ ← of_result (connect (op_relay_url op));
  r ← relay_pull (op_relay_url op) (ck_chain_id keys) (ck_auth_token keys) 0;
  pulled ← of_result (map_err relay_error r);
  let empty := set_remote_schema (new_account (ck_chain_id keys)) (remote_schema_version (prepared_account op)) in
  let fresh := merge_account empty keys pulled 0 in
  let is_new := new_empty op pulled (mo_gate fresh) in
  if negb (mo_gate fresh =?= Compatible) && negb is_new
  then observe_pending_gate op (mo_gate fresh) (mo_observed_schema fresh)
  else
    let a := prepared_account op in
    if is_new
    then mret (mkAccount (chain_id a) 0 true (Some MIN_ACCOUNT_SCHEMA) (frozen a) (a_records a) (a_sealed a) (chain_deletes a))
    else
      let merged := merge_account a keys pulled 0 in
      if mo_gate merged =?= Compatible then mret (mo_section merged)
      else observe_pending_gate op (mo_gate merged) (mo_observed_schema merged).

(** The keys of the target and, unless it is the device's own account, the sync code. *)
Definition pending_keys (op : PendingAccountOperation) (provided : option str) : RM (ChainKeys * option str) :=
  if op_kind op =?= CreateSpace then
    s ← snapshot state_path;
    k ← read_account_keys s.1;
    keys ← of_result (ok_or k (app_error "the current record account code is unavailable"));
    _ ← require (ck_chain_id keys =?= chain_id (prepared_account op)) (app_error "pending operation belongs to a different account");
    mret (keys, None)
  else
    name ← of_result (ok_or (staged_code_account op) (app_error "pending staged code identity is invalid"));
    stored ← relabel (fun _ => app_error "the pending sync code could not be read")
               (keychain_get (if op_phase op =?= PActivated then MNEMONIC_ACCOUNT else name));
    phrase ← of_result (match provided with
                        | Some code => normalize_mnemonic code
                        | None => ok_or stored (app_error "re-enter the pending sync code to resume this fixed account identity")
                        end);
    keys ← of_result (map_err (fun _ => app_error "the pending sync code is invalid") (derive_account phrase));
    _ ← require (ck_chain_id keys =?= chain_id (prepared_account op))
          (app_error "the supplied sync code does not match the pending account");
    mret (keys, Some phrase).
End Account.

(** ** Carrying it out *)

Section Resume.
Context {R : RuntimeEnv} {T : RotationText} {B : AccountBuild} (state_path : str).

Definition clear_pending (op : PendingAccountOperation) (unblock : bool) (s : SyncStateV3) : result AppError SyncStateV3 :=
  _ ← guard_err (negb ((op_id <$> pending_account s) =?= Some (op_id op))) superseded;
  Ok (set_pending s None (if unblock then false else shared_writes_blocked s) None).

Definition delete_staged (op : PendingAccountOperation) : RM unit :=
  match staged_code_account op with
  | Some name => relabel (fun _ => app_error "the staged sync code cleanup is pending") (keychain_delete name)
  | None => mret tt
  end.

(** What remains after the account is in force. *)
Definition finish_activated (op : PendingAccountOperation) : RM unit :=
  p ← fresh_account_gate state_path;
  _ ← of_result (ensure_compatible p);
  _ ← delete_staged op;
  _ ← mutate_records state_path (clear_pending op true);
  mret tt.

(** The sync code is staged before anything else, behind a look at a target that exists. *)
Definition known_target (op : PendingAccountOperation) : bool :=
  (op_kind op =?= JoinAccount) || negb (op_phase op =?= PPrepared)
  || is_some_and (fun v => (ACCOUNT_SCHEMA <? v)%N) (remote_schema_version (prepared_account op)).
Definition stage_code (op : PendingAccountOperation) (keys : ChainKeys) (phrase : option str) : RM PendingAccountOperation :=
  op ← (if known_target op then
          a ← target_pull state_path op keys;
          let op := with_gate (with_account op a) None in
          _ ← save_pending state_path op;
          mret op
        else mret op);
  name ← of_result (ok_or (staged_code_account op) panic);
  code ← of_result (ok_or phrase panic);
  _ ← relabel (fun _ => app_error "the pending sync code could not be stored") (keychain_set name code);
  mret op.

Definition create_remote (op : PendingAccountOperation) (keys : ChainKeys) : RM PendingAccountOperation :=
  r ← relay_create (op_relay_url op) (ck_chain_id keys) (ck_auth_token keys);
  _ ← of_result (map_err relay_error r);
  let op := with_phase op PRemoteCreated in
  _ ← replace_pending state_path op true;
  mret op.

(** The rows of a new space over the account as it is now. *)
Definition overlay (a : AccountState) (op : PendingAccountOperation) (keys : ChainKeys) (id : str) : AccountState :=
  let public_key := record_key KSpace id in
  let secret_key := sealed_key (lit "spacekey") (id_hash keys (lit "spacekey") id) in
  let a := match bt_get public_key (a_records (prepared_account op)) with
           | Some r => set_a_records a (bt_insert public_key r (a_records a))
           | None => a
           end in
  match bt_get secret_key (a_sealed (prepared_account op)) with
  | Some r => with_sealed a (bt_insert secret_key r (a_sealed a))
  | None => a
  end.
Definition create_remote_space (op : PendingAccountOperation) (keys : ChainKeys) : RM PendingAccountOperation :=
  p ← fresh_account_gate state_path;
  _ ← of_result (ensure_compatible p);
  _ ← require (ck_chain_id (fp_keys p) =?= ck_chain_id keys) superseded;
  latest ← snapshot state_path;
  a ← of_result (ok_or (account latest.1) panic);
  id ← of_result (ok_or (op_space_id op) panic);
  let op := with_account op (overlay a op keys id) in
  k ← of_result (space_keys (prepared_account op) keys id);
  child ← of_result (ok_or k (app_error "pending space credentials are unavailable"));
  r ← relay_create (op_relay_url op) (ck_chain_id child) (ck_auth_token child);
  _ ← of_result (map_err relay_error r);
  r ← relay_pull (op_relay_url op) (ck_chain_id child) (ck_auth_token child) 0;
  pulled ← of_result (map_err relay_error r);
  sp ← of_result (ok_or (prepared_space op) panic);
  let merged := merge_space sp child pulled 0 Compatible in
  if mo_gate merged =?= Compatible then
    let op := with_phase (with_space op (mo_section merged)) PRemoteCreated in
    _ ← replace_pending state_path op true;
    mret op
  else observe_pending_gate state_path op (mo_gate merged) None.

(** Pushing what the target does not have yet. *)
Definition publish_rows (op : PendingAccountOperation) (keys : ChainKeys) : RM PendingAccountOperation :=
  a ← target_pull state_path op keys;
  let op := with_account op a in
  _ ← save_pending state_path op;
  nonces ← draw_nonces (dirty_rows (a_records a));
  sent ← of_result (account_outgoing a keys nonces);
  match sent with
  | [] => mret op
  | _ =>
      pushed ← relay_push (op_relay_url op) (ck_chain_id keys) (ck_auth_token keys) (map outgoing_of sent);
      let op := with_phase (with_account op (apply_account_receipts a sent pushed)) PPublishing in
      _ ← replace_pending state_path op true;
      if pu_frozen pushed then observe_pending_gate state_path op InvalidMigration None
      else match pu_error pushed with
           | Some e => fail (relay_error e)
           | None =>
               _ ← require (pu_conflicts pushed =? 0)%N
                     (app_error "pending account publication conflicted; retry after a fresh pull");
               mret op
           end
  end.

(** The account in force. *)
Definition add_space (sps : btree SpaceStateV3) (r : LocalRecord) : btree SpaceStateV3 :=
  let id := rid (lrecord r) in if bt_contains_key id sps then sps else bt_insert id default_space sps.
Definition activated_state (op : PendingAccountOperation) (s : SyncStateV3) : result AppError SyncStateV3 :=
  _ ← guard_err (negb ((op_id <$> pending_account s) =?= Some (op_id op))) superseded;
  let a := prepared_account op in
  let sps := foldl add_space (spaces s)
               (List.filter (fun r => (rkind (lrecord r) =?= KSpace) && RecordLibrary.live_record r) (bt_values (a_records a))) in
  let sps := match op_space_id op, prepared_space op with Some id, Some sp => bt_insert id sp sps | _, _ => sps end in
  Ok (mkState (version s) (device_id s) (op_device_name op) (relay_url s) (Some a) sps (local s) (rotation s)
        (relay_features s) (legacy_v1_backup s) (phrase_cleanup_pending s) None false
        (Some (with_phase op PActivated)) (notices s) (last_sync_ms s) (last_error s)).

Definition activate (op : PendingAccountOperation) (keys : ChainKeys) (phrase : option str) : RM unit :=
  let op := with_phase op PActivationReady in
  _ ← save_pending state_path op;
  a ← target_pull state_path op keys;
  let op := with_account op a in
  _ ← save_pending state_path op;
  _ ← match phrase with
      | Some code => relabel (fun _ => app_error "the current sync code promotion is pending") (keychain_set MNEMONIC_ACCOUNT code)
      | None => mret tt
      end;
  _ ← mutate_records state_path (activated_state op);
  let op := with_phase op PActivated in
  _ ← delete_staged op;
  _ ← mutate_records state_path (clear_pending op false);
  c ← lock_core state_path;
  put_core (set_keys c (Some keys)).

Definition carry_out (op : PendingAccountOperation) (keys : ChainKeys) (phrase : option str) : RM unit :=
  _ ← of_result (connect (op_relay_url op));
  op ← (if op_kind op =?= CreateSpace then mret op else stage_code op keys phrase);
  op ← (if (op_kind op =?= CreateAccount) && (op_phase op =?= PPrepared) then create_remote op keys else mret op);
  op ← (if op_kind op =?= CreateSpace then create_remote_space op keys else mret op);
  op ← publish_rows op keys;
  activate op keys phrase.


Definition resume_locked (provided : option str) : RM unit :=
  _ ← preflight state_path;
  op ← pending state_path;
  _ ← of_result (validate_pending op);
  if op_kind op =?= LeaveAccount then RecordLeave.resume_locked state_path
  else if op_kind op =?= RotateAccount then RecordRotate.resume_locked state_path provided
  else
    k ← pending_keys state_path op provided;
    if op_phase op =?= PActivated then finish_activated op else carry_out op k.1 k.2.

Definition new_id : RM str :=
  b ← fill 16;
  b ← of_result (ok_or b (app_error "cannot create operation identity"));
  mret (hex b).
Definition staged_name (id : str) : str := PENDING_CODE_PREFIX ++ id.

(** The first rows of a new account. *)
Definition created_account (s : SyncStateV3) (chain name : str) (at_ms : N) : result AppError AccountState :=
  let meta := new_row s KMeta ACCOUNT_META_ID
                (JObject [(lit "created_by_app_version", JString app_version); (lit "schema_version", num 3)]) at_ms in
  plan_device s (insert_public (set_remote_schema (new_account chain) (Some MIN_ACCOUNT_SCHEMA)) meta) name at_ms.

Definition create_account (device_name : str) : RM AccountCreation :=
  name ← of_result (clean_name device_name);
  _ ← preflight state_path;
  s ← snapshot state_path;
  _ ← of_result (ensure_empty s.1);
  code ← generate_mnemonic;
  keys ← of_result (derive_account code);
  id ← new_id;
  at_ms ← now;
  a ← of_result (created_account s.1 (ck_chain_id keys) name at_ms);
  _ ← save_pending state_path
        (mkPending id name CreateAccount PPrepared None (relay_url s.1) (Some (staged_name id)) a None None None None);
  result ← attempt (resume_locked (Some code));
  mret (mkCreation code id (is_ok result) (app_error_text <$> result_err result)).

Definition join_account (code device_name : str) : RM unit :=
  name ← of_result (clean_name device_name);
  _ ← preflight state_path;
  code ← of_result (normalize_mnemonic code);
  keys ← of_result (derive_account code);
  s ← snapshot state_path;
  match pending_account s.1 with
  | Some op =>
      _ ← require ((op_kind op =?= JoinAccount) && (chain_id (prepared_account op) =?= ck_chain_id keys))
            (app_error "a different record account operation is pending");
      resume_locked (Some code)
  | None =>
      _ ← of_result (ensure_empty s.1);
      _ ← of_result (connect (relay_url s.1));
      r ← relay_pull (relay_url s.1) (ck_chain_id keys) (ck_auth_token keys) 0;
      pulled ← of_result (map_err relay_error r);
      let merged := merge_account (new_account (ck_chain_id keys)) keys pulled 0 in
      if mo_gate merged =?= Compatible then
        at_ms ← now;
        a ← of_result (plan_device s.1 (mo_section merged) name at_ms);
        id ← new_id;
        _ ← save_pending state_path
              (mkPending id name JoinAccount PActivationReady None (relay_url s.1) (Some (staged_name id)) a None None None None);
        resume_locked (Some code)
      else fail (gate_error (mo_gate merged))
  end.

(** ** Spaces *)

Definition space_record (s : SyncStateV3) (id name slug : str) (at_ms : N) : Rec :=
  new_row s KSpace id
    (JObject [(lit "created_at_ms", num at_ms); (lit "name", JString name); (lit "schema", num 1); (lit "slug", JString slug)]) at_ms.
Definition space_key_record (s : SyncStateV3) (child : ChainKeys) (at_ms : N) : Rec :=
  new_row s KSpaceKey (ck_chain_id child)
    (JObject [(lit "auth_token", JString (ck_auth_token child)); (lit "enc_key", JString (enc_key_b64 child)); (lit "schema", num 1)])
    at_ms.
Definition insert_sealed (a : AccountState) (r : SealedRecord) : AccountState :=
  with_sealed a (bt_insert (sealed_key (ekind (senvelope r)) (eid_hash (senvelope r))) r (a_sealed a)).

Definition new_space (s : SyncStateV3) (name slug : str) (keys : ChainKeys) : RM str :=
  random ← fill 96;
  child ← of_result (generate random);
  id ← new_id;
  at_ms ← now;
  a ← of_result (ok_or (account s) panic);
  let a := insert_public a (space_record s (ck_chain_id child) name slug at_ms) in
  nonce ← fill NONCE_LEN;
  sealed ← of_result (seal_secret_record keys (space_key_record s child at_ms) 0 nonce);
  _ ← save_pending state_path
        (mkPending id (device_name s) CreateSpace PPrepared None (relay_url s) None (insert_sealed a sealed)
           (Some (ck_chain_id child)) (Some (mkSpace true 0 false [] [] None false)) None None);
  _ ← resume_locked None;
  mret (ck_chain_id child).

Definition create_space_with_slug (name slug : str) : RM str :=
  name ← of_result (clean_name name);
  _ ← preflight state_path;
  p ← fresh_account_gate state_path;
  _ ← of_result (ensure_compatible p);
  s ← snapshot state_path;
  _ ← of_result (ensure_shared s.1);
  match (if slug =?= RecordLibrary.LIBRARY_SLUG then RecordLibrary.space_id s.1 else None) with
  | Some id => mret id
  | None => new_space s.1 name slug (fp_keys p)
  end.
Definition create_space (name : str) : RM str := create_space_with_slug name (lit "records").
Definition create_library_space : RM str := create_space_with_slug (lit "Library") RecordLibrary.LIBRARY_SLUG.
End Resume.

Section Edit.
Context {R : RuntimeEnv} (state_path : str).

(** An edit of the shared part, behind a fresh look at the account. *)
Definition set_selected (sp : SpaceStateV3) (b : bool) : SpaceStateV3 :=
  mkSpace b (s_cursor_seq sp) (s_baseline_established sp) (s_records sp) (s_sealed sp) (s_last_error sp) (missing sp).
Definition selected_space (id : str) (b : bool) (s : SyncStateV3) : result AppError SyncStateV3 :=
  _ ← ensure_shared s;
  sp ← ok_or (bt_get id (spaces s)) (app_error "record space is unavailable");
  _ ← guard_err (b && missing sp) (app_error "record space is missing");
  Ok (set_spaces s (bt_insert id (set_selected sp b) (spaces s))).
Definition select_space (id : str) (b : bool) : RM unit :=
  p ← fresh_account_gate state_path;
  _ ← of_result (ensure_compatible p);
  _ ← mutate_records state_path (selected_space id b);
  mret tt.

Definition renamed_space (id name : str) (at_ms : N) (s : SyncStateV3) : result AppError SyncStateV3 :=
  _ ← ensure_shared s;
  a ← ok_or (account s) panic;
  let key := record_key KSpace id in
  row ← ok_or (opt_filter RecordLibrary.live_record (bt_get key (a_records a))) (app_error "record space is unavailable");
  let r := lrecord row in
  payload ← ok_or (json_set (lit "name") (JString name) (rpayload r)) panic;
  version ← ok_or (checked_add (rversion r) 1) (app_error "record revision exhausted");
  later ← ok_or (checked_add (rupdated_at_ms r) 1) (app_error "record timestamp exhausted");
  let r := mkRec (rkind r) (rid r) version (N.max at_ms later) (device_id s) (rdeleted r) payload in
  Ok (set_account s (Some (set_a_records a (bt_insert key (mkLocal r (lseq row) true) (a_records a))))).
Definition rename_space (id name : str) : RM unit :=
  name ← of_result (clean_name name);
  p ← fresh_account_gate state_path;
  _ ← of_result (ensure_compatible p);
  at_ms ← now;
  _ ← mutate_records state_path (renamed_space id name at_ms);
  mret tt.

(** ** Keys *)

(** The row of this device replaces its opaque one, if it is still the newer. *)
Definition upgraded (keys : ChainKeys) (id : str) (s : SyncStateV3) : result AppError SyncStateV3 :=
  _ ← ensure_shared s;
  a ← ok_or (account s) panic;
  old ← legacy_own_slot_revision a keys id;
  match old with
  | None => Ok s
  | Some old =>
      let key := sealed_key (lit "keyslot") (id_hash keys (lit "keyslot") id) in
      opaque ← ok_or (bt_get key (a_sealed a)) panic;
      row ← ok_or (bt_get (record_key KKeySlot id) (a_records a)) (app_error "key upgrade was superseded");
      _ ← guard_err (negb (ldirty row) || (rupdated_at_ms (lrecord row) <=? sr_updated_at_ms old)%N)
            (app_error "key authority changed; review before publishing");
      let row := mkLocal (lrecord row) (N.max (lseq row) (eseq (senvelope opaque))) (ldirty row) in
      Ok (set_account s (Some (with_sealed (set_a_records a (bt_insert (record_key KKeySlot id) row (a_records a)))
                                 (bt_remove key (a_sealed a)))))
  end.

Definition publish_current (p : FreshAccountProof) (upgrade_own : option str) : RM unit :=
  fresh ← fresh_account_gate state_path;
  _ ← of_result (ensure_compatible fresh);
  _ ← match upgrade_own with
      | Some id => _ ← mutate_records state_path (upgraded (fp_keys fresh) id); mret tt
      | None => mret tt
      end;
  s ← snapshot state_path;
  _ ← of_result (ensure_shared s.1);
  a ← of_result (ok_or (account s.1) panic);
  nonces ← draw_nonces (dirty_rows (a_records a));
  sent ← of_result (account_outgoing a (fp_keys fresh) nonces);
  _ ← of_result (connect (fp_relay_url fresh));
  pushed ← relay_push (fp_relay_url fresh) (ck_chain_id (fp_keys fresh)) (ck_auth_token (fp_keys fresh)) (map outgoing_of sent);
  _ ← receipt_commit state_path p None sent pushed;
  if pu_frozen pushed then _ ← mark_frozen state_path p; fail (app_error "the record account is frozen")
  else match pu_error pushed with
       | Some e => fail (relay_error e)
       | None => require (pu_conflicts pushed =? 0)%N (app_error "key publication conflicted; sync and retry")
       end.

(** The private key is taken back: a sealed tombstone over the revision that was seen. *)
Definition key_tombstone (s : SyncStateV3) (id : str) (version stamp : N) : Rec :=
  mkRec KKey id version stamp (device_id s) true JNull.
Definition bury_key (key : str) (previous sealed : SealedRecord) (s : SyncStateV3) : result AppError SyncStateV3 :=
  _ ← ensure_shared s;
  a ← ok_or (account s) panic;
  _ ← guard_err (negb (bt_get key (a_sealed a) =?= Some previous)) superseded;
  Ok (set_account s (Some (with_sealed a (bt_insert key sealed (a_sealed a))))).

Definition retract_key (p : FreshAccountProof) (s : SyncStateV3) (a : AccountState) (id : str) (revision : SecretRevision) : RM unit :=
  at_ms ← now;
  later ← of_result (ok_or (checked_add (sr_updated_at_ms revision) 1) (app_error "secret timestamp exhausted"));
  version ← of_result (ok_or (checked_add (sr_version revision) 1) (app_error "secret revision exhausted"));
  let key := sealed_key (lit "key") (id_hash (fp_keys p) (lit "key") id) in
  previous ← of_result (ok_or (bt_get key (a_sealed a)) panic);
  nonce ← fill NONCE_LEN;
  sealed ← of_result (seal_secret_record (fp_keys p) (key_tombstone s id version (N.max later at_ms)) (eseq (senvelope previous)) nonce);
  _ ← mutate_records state_path (bury_key key previous sealed);
  publish_current p None.

Definition unpublish_key (id : str) : RM unit :=
  p ← fresh_account_gate state_path;
  _ ← of_result (ensure_compatible p);
  s ← snapshot state_path;
  _ ← of_result (ensure_shared s.1);
  a ← of_result (ok_or (account s.1) panic);
  cached ← of_result (ok_or (bt_get (record_key KKeySlot id) (a_records a)) (app_error "synced public metadata is unavailable"));
  _ ← require (match decode_keyslot (lrecord cached) with Ok (Live _) => true | _ => false end)
        (app_error "synced public metadata is invalid or deleted");
  _ ← require (negb (bt_contains_key (sealed_key (lit "keyslot") (id_hash (fp_keys p) (lit "keyslot") id)) (a_sealed a)))
        (app_error "account key authority is opaque");
  revision ← of_result (secret_revision a (fp_keys p) KKey id);
  match revision with
  | Some r => if sr_deleted r then mret tt else retract_key p s.1 a id r
  | None => mret tt
  end.
End Edit.

(** ** Memory and disk stay together *)

Section AccountKeeps.
Context {R : RuntimeEnv} {T : RotationText} {B : AccountBuild} (path : str).
Hypothesis Hplace : forall v digest, with_file_name path (backup_name v digest) <> path.

#[local] Hint Resolve keeps_create keeps_set keeps_delete keeps_nonces keeps_preflight keeps_fresh_gate keeps_retained : keeps.

Lemma keeps_save_pending op : Keeps path (save_pending path op).
Proof. unfold save_pending. keeps. Qed.
Lemma keeps_pending : Keeps path (pending path).
Proof. unfold pending. keeps. Qed.

Lemma keeps_replace op accepted : Keeps path (replace_pending path op accepted).
Proof. pose proof keeps_save_pending. unfold replace_pending. keeps. Qed.
Lemma keeps_observe {A} op gate schema : Keeps path (observe_pending_gate (A := A) path op gate schema).
Proof.
  apply keeps_bind; [by apply keeps_attempt, keeps_mutate|]. intros [g|e]; [apply keeps_fail|].
  apply keeps_locked; [done|]. intros w. apply evolves_bind; [|intros; apply evolves_refl].
  destruct (opt_filter _ _) as [s|]; [|apply evolves_refl]. split.
  - split; [reflexivity|]. split; [reflexivity|done].
  - intros (b & Hb & Hd & Hf & _). split; [|by apply only_durable_same]. exists b. split; [done|]. split; [done|]. by split.
Qed.
#[local] Hint Resolve keeps_save_pending keeps_pending keeps_replace keeps_observe : keeps.

Lemma keeps_target op keys : Keeps path (target_pull path op keys).
Proof. unfold target_pull. keeps. Qed.
Lemma keeps_pending_keys op provided : Keeps path (pending_keys path op provided).
Proof. unfold pending_keys, read_account_keys. keeps. Qed.
Lemma keeps_delete_staged op : Keeps path (delete_staged op).
Proof. unfold delete_staged. keeps. Qed.
#[local] Hint Resolve keeps_target keeps_pending_keys keeps_delete_staged : keeps.
Lemma keeps_stage op keys phrase : Keeps path (stage_code path op keys phrase).
Proof. unfold stage_code. keeps. Qed.
Lemma keeps_create_remote op keys : Keeps path (create_remote path op keys).
Proof. unfold create_remote. keeps. Qed.
Lemma keeps_create_space op keys : Keeps path (create_remote_space path op keys).
Proof. unfold create_remote_space. keeps. Qed.
Lemma keeps_publish_rows op keys : Keeps path (publish_rows path op keys).
Proof. unfold publish_rows. keeps. Qed.

Lemma keeps_set_keys keys : Keeps path (c ← lock_core path; put_core (set_keys c keys)).
Proof. apply keeps_locked; [done|]. intros w. by apply evolves_put. Qed.
Lemma keeps_activate op keys phrase : Keeps path (activate path op keys phrase).
Proof. pose proof keeps_set_keys. unfold activate. keeps. Qed.
#[local] Hint Resolve keeps_stage keeps_create_remote keeps_create_space keeps_publish_rows keeps_activate : keeps.

Lemma keeps_resume_account provided : Keeps path (resume_locked path provided).
Proof.
  pose proof (keeps_resume path Hplace). pose proof (keeps_resume_rotation path Hplace).
  unfold resume_locked, finish_activated, carry_out. keeps.
Qed.
#[local] Hint Resolve keeps_resume_account : keeps.

Lemma keeps_create_account name : Keeps path (create_account path name).
Proof. unfold create_account, generate_mnemonic, new_id. keeps. Qed.
Lemma keeps_join_account code name : Keeps path (join_account path code name).
Proof. unfold join_account, new_id. keeps. Qed.
Lemma keeps_new_space name slug : Keeps path (create_space_with_slug path name slug).
Proof. unfold create_space_with_slug, new_space, new_id. keeps. Qed.

Lemma keeps_select_space id b : Keeps path (select_space path id b).
Proof. unfold select_space. keeps. Qed.
Lemma keeps_rename_space id name : Keeps path (rename_space path id name).
Proof. unfold rename_space. keeps. Qed.
Lemma keeps_publish_current p upgrade_own : Keeps path (publish_current path p upgrade_own).
Proof. pose proof (keeps_receipts path Hplace). pose proof (keeps_mark_frozen path Hplace). unfold publish_current. keeps. Qed.
#[local] Hint Resolve keeps_publish_current : keeps.
Lemma keeps_unpublish id : Keeps path (unpublish_key path id).
Proof. unfold unpublish_key, retract_key. keeps. Qed.
End AccountKeeps.

(** ** The state in memory, while there is no account *)

Section Unowned.
Context {R : RuntimeEnv} {T : RotationText} (path : str).

(** What the operations of an account keep while there is none. *)
Class Unowned (P : SyncStateV3 -> Prop) : Prop := {
  unowned_kept :: Kept P;
  unowned_same s b e : P s -> P (set_pending s (pending_account s) b e);
  unowned_observed op gate schema s n : P s -> observed op gate schema s = Ok n -> P n
}.
Context (P : SyncStateV3 -> Prop) `{!Unowned P}.

(** The operation may be kept in a state with the property. *)
Definition storable (op : PendingAccountOperation) : Prop := forall s b e, P s -> P (set_pending s (Some op) b e).

Lemma memory_save_pending op : storable op -> Within (memory P) (save_pending path op).
Proof.
  intros Hop. unfold save_pending. apply within_bind; [apply _| |intros ?; within]. apply memory_mutate; [apply _|].
  intros s n Ps Hn. unfold saved_pending in Hn. ok_inv. by apply Hop.
Qed.
Lemma memory_replace op : storable op -> Within (memory P) (replace_pending path op true).
Proof.
  intros Hop. unfold replace_pending. cbn [negb]. apply memory_retained.
  intros s n Ps Hn. unfold replaced in Hn. ok_inv. by apply Hop.
Qed.
Lemma memory_observe {A} op gate schema : Within (memory P) (observe_pending_gate (A := A) path op gate schema).
Proof.
  unfold observe_pending_gate. apply within_bind; [apply _| |].
  { apply within_attempt. apply memory_mutate; [apply _|]. intros s n. by apply unowned_observed. }
  intros [g|e]; [within|]. apply memory_locked. intros w. apply within_bind_at; [apply _| |intros; cbn; reflexivity].
  destruct (opt_filter _ _) as [s|] eqn:Hs; [|reflexivity]. apply memory_put. intros H s' [= <-]. apply unowned_same, H.
  destruct (records (core w)) as [s0|]; [|done]. cbn in Hs. destruct (is_some_and _ _); [|done]. by injection Hs as ->.
Qed.
Lemma memory_target op keys : Within (memory P) (target_pull path op keys).
Proof.
  pose proof memory_preflight. assert (forall gate schema, Within (memory P) (observe_pending_gate (A := AccountState) path op gate schema))
    by (intros; apply memory_observe). unfold target_pull. within.
Qed.
End Unowned.

(** ** No account without its code *)

Section Code.
Context {R : RuntimeEnv} {X : RotationText} {B : AccountBuild} (path : str).

(** Nothing is at a relay yet; the account is not in force yet. *)
Definition not_begun (s : SyncStateV3) : Prop :=
  account s = None /\ forall op, pending_account s = Some op -> op_kind op = CreateAccount -> op_phase op = PPrepared.
Definition unowned (s : SyncStateV3) : Prop := account s = None.

#[local] Instance unowned_unowned : Unowned unowned.
Proof.
  split; unfold unowned; try done.
  - intros c s n Hs Hn. apply published_Ok in Hn as [Ha _ _ _ _]; [congruence|by left].
  - intros op gate schema s n Hs Hn. unfold observed in Hn. ok_inv. cbn. by rewrite Hs.
Qed.
#[local] Instance unowned_not_begun : Unowned not_begun.
Proof.
  split; unfold not_begun.
  - intros c s n [Hs Hp] Hn. apply published_Ok in Hn as [Ha Hpe _ _ _]; [|by left]. rewrite Ha, Hpe. by split.
  - intros s b e [Hs Hp]. by split.
  - intros op gate schema s n [Hs Hp] Hn. unfold observed in Hn. ok_inv. cbn. rewrite Hs. split; [done|].
    intros op' [= <-]. destruct (pending_account s) as [p|]; [|done]. ok_inv. specialize (Hp _ eq_refl).
    injection Hok0 as ->. destruct (opt_filter _ _); exact Hp.
Qed.
Lemma storable_unowned op : storable unowned op.
Proof. by intros s b e Hs. Qed.
Lemma storable_prepared op : (op_kind op = CreateAccount -> op_phase op = PPrepared) -> storable not_begun op.
Proof. intros Hop s b e [Hs _]. split; [done|]. by intros op' [= <-]. Qed.

(** Operations that leave the keychain alone. *)
Lemma same_nonces n : Within same_keychain (draw_nonces n).
Proof. done. Qed.
Lemma same_push url chain token sent : Within same_keychain (relay_push url chain token sent).
Proof. intros w. unfold relay_push. by destruct (push_outgoing _ _ _ _). Qed.
Lemma same_create url chain token : Within same_keychain (relay_create url chain token).
Proof. intros w. unfold relay_create. by destruct (net_create_chain _ _ _ _). Qed.
#[local] Hint Resolve same_nonces same_push same_create : within.

Context (T : relation RWorld) `{!Mild T}.
Lemma mild_save_pending op : Within T (save_pending path op).
Proof. unfold save_pending. within. Qed.
Lemma mild_replace op : Within T (replace_pending path op true).
Proof. pose proof (mild_preflight path T). unfold replace_pending, commit_retained, save_core, noting_unsaved. cbn [negb]. within. Qed.
Lemma mild_observe {A} op gate schema : Within T (observe_pending_gate (A := A) path op gate schema).
Proof. unfold observe_pending_gate. within. Qed.
Lemma mild_target op keys : Within T (target_pull path op keys).
Proof. pose proof @mild_observe. unfold target_pull. within. Qed.
Lemma mild_pending_keys op provided : Within T (pending_keys path op provided).
Proof. unfold pending_keys, read_account_keys. within. Qed.
End Code.
#[export] Hint Resolve mild_save_pending mild_replace mild_target mild_pending_keys : within.
#[export] Hint Extern 1 (Within _ (observe_pending_gate _ _ _ _)) => apply mild_observe; typeclasses eauto : within.

Section CodeKept.
Context {R : RuntimeEnv} {X : RotationText} {B : AccountBuild} (path : str).
#[local] Existing Instances unowned_unowned unowned_not_begun.
#[local] Hint Resolve same_nonces same_push same_create : within.

(** The code is staged and no account is in force. *)
Record staged (st phrase : str) (w : RWorld) : Prop := {
  st_alone : alone w;
  st_code : bt_get st (keychain w) = Some phrase;
  st_unowned : in_memory unowned w
}.
Definition safe (st phrase : str) (w : RWorld) : Prop :=
  (bt_get st (keychain w) = Some phrase /\ in_memory unowned w) \/ bt_get MNEMONIC_ACCOUNT (keychain w) = Some phrase.

Lemma safe_staged st phrase w : staged st phrase w -> safe st phrase w.
Proof. intros [_ Hc Hu]. by left. Qed.

Lemma staged_step {A} (m : RM A) st phrase w r w' :
  Within same_keychain m -> Within (memory unowned) m -> m w = (r, w') -> staged st phrase w -> staged st phrase w'.
Proof.
  intros Hk Hm Hr [Ha Hc Hu]. specialize (Hk w). specialize (Hm w Ha) as [Ha' Hu']. rewrite Hr in Hk, Ha', Hu'. cbn [snd] in *.
  unfold same_keychain in Hk. split; [done|congruence|by apply Hu'].
Qed.
Lemma safe_bind {A C} (m : RM A) (k : A -> RM C) st phrase w :
  Within same_keychain m -> Within (memory unowned) m -> staged st phrase w ->
  (forall a w1, m w = (Ok a, w1) -> staged st phrase w1 -> safe st phrase (k a w1).2) ->
  safe st phrase ((m ≫= k) w).2.
Proof.
  intros Hk Hm Hw H. unfold mbind, rm_bind. destruct (m w) as [r w1] eqn:Hr.
  pose proof (staged_step m st phrase w r w1 Hk Hm Hr Hw) as Hw1. destruct r as [a|e]; [by apply H|by apply safe_staged].
Qed.

Lemma same_set name v w r w' : keychain_set name v w = (r, w') ->
  match r with Ok _ => bt_get name (keychain w') = Some v | Err _ => keychain w' = keychain w end /\
  records (core w') = records (core w) /\ interrupts w' = interrupts w.
Proof.
  unfold keychain_set, keychain_op. destruct (keychain_fails w) as [|[] l]; intros [= <- <-]; cbn [keychain with_keychain].
  all: (split; [|done]); try done; by rewrite bt_get_insert_eq.
Qed.

Lemma code_delete name : name <> MNEMONIC_ACCOUNT -> Within code_stays (keychain_delete name).
Proof.
  intros Hne w. unfold code_stays, keychain_delete, keychain_op.
  destruct (keychain_fails w) as [|[] l]; cbn [keychain with_keychain snd]; (split; [|done]); try done; by rewrite bt_get_remove_ne.
Qed.

(** Putting the account into force: the code first. *)
Lemma activate_safe op keys st phrase w :
  staged_code_account op = Some st -> st <> MNEMONIC_ACCOUNT -> staged st phrase w ->
  safe st phrase (activate path op keys (Some phrase) w).2.
Proof.
  intros Hst Hne Hw. unfold activate. cbv zeta.
  apply safe_bind; [within|apply memory_save_pending; [apply _|apply storable_unowned]|done|]. intros u w1 _ Hw1.
  apply safe_bind; [within|apply memory_target; apply _|done|]. intros a w2 _ Hw2.
  apply safe_bind; [within|apply memory_save_pending; [apply _|apply storable_unowned]|done|]. intros u' w3 _ Hw3.
  unfold mbind at 1, rm_bind at 1, relabel. destruct (keychain_set MNEMONIC_ACCOUNT phrase w3) as [r w4] eqn:Hset.
  apply same_set in Hset as (Hk & Hr & _). destruct r as [u4|e]; cbn [map_err].
  2: { left. cbn [snd]. rewrite Hk. split; [apply Hw3|]. unfold in_memory. rewrite Hr. apply Hw3. }
  right. rewrite <-Hk. set (op' := with_account _ _).
  assert (Hrest : Within code_stays (_ ← mutate_records path (activated_state op'); _ ← delete_staged (with_phase op' PActivated);
    _ ← mutate_records path (clear_pending (with_phase op' PActivated) false);
    c ← lock_core path; put_core (set_keys c (Some keys)))).
  { pose proof (code_delete st Hne). unfold delete_staged. cbn [staged_code_account with_phase op' with_account]. rewrite Hst. within. }
  specialize (Hrest w4) as [Hrest _]. exact Hrest.
Qed.

Lemma observe_fails {A} op gate schema w (a : A) w' : observe_pending_gate path op gate schema w = (Ok a, w') -> False.
Proof.
  unfold observe_pending_gate. intros (r & w1 & _ & H)%rm_bind_Ok. destruct r as [g|e]; [done|].
  apply rm_bind_Ok in H as (c & w2 & _ & H). by apply rm_bind_Ok in H as (u & w3 & _ & H).
Qed.
Lemma publish_rows_staged op keys w op' w' :
  publish_rows path op keys w = (Ok op', w') -> staged_code_account op' = staged_code_account op.
Proof.
  unfold publish_rows. cbv zeta. intros (a & w1 & _ & H)%rm_bind_Ok. apply rm_bind_Ok in H as (u & w2 & _ & H).
  apply rm_bind_Ok in H as (nonces & w3 & _ & H). apply rm_bind_Ok in H as (sent & w4 & _ & H).
  destruct sent as [|o sent]; [by injection H as <- _|].
  apply rm_bind_Ok in H as (pushed & w5 & _ & H). apply rm_bind_Ok in H as (u' & w6 & _ & H).
  destruct (pu_frozen pushed); [by apply observe_fails in H|]. destruct (pu_error pushed); [done|].
  apply rm_bind_Ok in H as (u'' & w7 & _ & H). by injection H as <- _.
Qed.
Lemma memory_publish_rows op keys : Within (memory unowned) (publish_rows path op keys).
Proof.
  assert (Ht : forall op keys, Within (memory unowned) (target_pull path op keys)) by (intros; apply memory_target; apply _).
  assert (Hs : forall op, Within (memory unowned) (save_pending path op)) by (intros; apply memory_save_pending; [apply _|apply storable_unowned]).
  assert (Hr : forall op, Within (memory unowned) (replace_pending path op true)) by (intros; apply memory_replace, storable_unowned).
  assert (Ho : forall op gate schema, Within (memory unowned) (observe_pending_gate (A := PendingAccountOperation) path op gate schema))
    by (intros; apply memory_observe; apply _).
  pose proof (memory_nonces unowned). pose proof (memory_push unowned).
  unfold publish_rows. within.
Qed.
Lemma memory_create_remote op keys : Within (memory unowned) (create_remote path op keys).
Proof.
  assert (Hr : forall op, Within (memory unowned) (replace_pending path op true)) by (intros; apply memory_replace, storable_unowned).
  pose proof (memory_create unowned). unfold create_remote. within.
Qed.

Lemma stage_code_cases op keys phrase st w :
  alone w -> in_memory not_begun w -> (op_kind op = CreateAccount -> op_phase op = PPrepared) ->
  staged_code_account op = Some st ->
  match stage_code path op keys (Some phrase) w with
  | (Ok op', w') => staged st phrase w' /\ staged_code_account op' = Some st /\ op_kind op' = op_kind op /\ op_phase op' = op_phase op
  | (Err _, w') => in_memory not_begun w'
  end.
Proof.
  intros Ha Hw Hop Hst. unfold stage_code, mbind at 1, rm_bind at 1. set (first := if known_target op then _ else _).
  assert (Hm : Within (memory not_begun) first).
  { assert (Within (memory not_begun) (target_pull path op keys)) by (apply memory_target; apply _).
    assert (forall a, Within (memory not_begun) (save_pending path (with_gate (with_account op a) None)))
      by (intros; apply memory_save_pending; [apply _|by apply storable_prepared]).
    unfold first. within. }
  assert (Hok : forall op' w', first w = (Ok op', w') ->
    staged_code_account op' = Some st /\ op_kind op' = op_kind op /\ op_phase op' = op_phase op).
  { unfold first. destruct (known_target op); [|by intros op' w' [= <- _]].
    intros op' w' (a & w1 & _ & H)%rm_bind_Ok. apply rm_bind_Ok in H as (u & w2 & _ & H). by injection H as <- _. }
  specialize (Hm w Ha) as [Ha1 Hw1]. destruct (first w) as [[op'|e] w1]; cbn [snd] in *; [|by apply Hw1].
  destruct (Hok op' w1 eq_refl) as (Hst' & Hkind & Hph). rewrite Hst'. cbn [ok_or of_result].
  unfold mbind at 1, rm_bind at 1. cbn [mret rm_ret]. unfold mbind at 1, rm_bind at 1. cbn [mret rm_ret].
  unfold mbind at 1, rm_bind at 1, relabel. destruct (keychain_set st phrase w1) as [r w2] eqn:Hset.
  apply same_set in Hset as (Hk & Hr & Hi). specialize (Hw1 Hw).
  assert (Hmem : in_memory not_begun w2) by (unfold in_memory; rewrite Hr; exact Hw1).
  destruct r as [u|e]; cbn [map_err]; [|exact Hmem]. split; [|done]. split; [unfold alone; by rewrite Hi|exact Hk|].
  intros s Hs. by apply Hmem in Hs as [Hs _].
Qed.

(** A new account or an old one that this device joins. *)
Definition for_account (op : PendingAccountOperation) : Prop := op_kind op = CreateAccount \/ op_kind op = JoinAccount.
Lemma for_account_kind op k : for_account op -> k <> CreateAccount -> k <> JoinAccount -> (op_kind op =?= k) = false.
Proof. intros [-> | ->] H1 H2; apply bool_decide_eq_false; congruence. Qed.

Definition begun_safely (st phrase : str) (w : RWorld) : Prop := in_memory not_begun w \/ safe st phrase w.
Lemma carry_out_safe op keys phrase st w :
  alone w -> in_memory not_begun w -> for_account op -> (op_kind op = CreateAccount -> op_phase op = PPrepared) ->
  staged_code_account op = Some st -> st <> MNEMONIC_ACCOUNT ->
  begun_safely st phrase (carry_out path op keys (Some phrase) w).2.
Proof.
  intros Ha Hw Hfor Hop Hst Hne. unfold carry_out. unfold mbind at 1, rm_bind at 1.
  destruct (connect (op_relay_url op)) as [u|e]; [|by left]. cbn [of_result mret rm_ret].
  rewrite (for_account_kind op CreateSpace Hfor) by done.
  unfold mbind at 1, rm_bind at 1. pose proof (stage_code_cases op keys phrase st w Ha Hw Hop Hst) as Hs.
  destruct (stage_code path op keys (Some phrase) w) as [[op1|e] w1]; [|left; exact Hs].
  destruct Hs as (Hw1 & Hst1 & Hk1 & Hp1). right.
  assert (Hfor1 : for_account op1) by (unfold for_account; by rewrite Hk1).
  assert (Hmem : forall op, Within (memory unowned) (create_remote path op keys)) by (intros; apply memory_create_remote).
  assert (Hsame : Within same_keychain (create_remote path op1 keys)) by (unfold create_remote; within).
  apply safe_bind; [within|within|done|]. intros op2 w2 H2 Hw2.
  assert (Hop2 : staged_code_account op2 = Some st /\ op_kind op2 = op_kind op1).
  { destruct ((op_kind op1 =?= CreateAccount) && (op_phase op1 =?= PPrepared)); [|by injection H2 as <- _]. unfold create_remote in H2. do 3 apply rm_bind_Ok in H2 as (? & ? & _ & H2).
    by injection H2 as <- _. }
  destruct Hop2 as [Hst2 Hk2]. assert (Hfor2 : for_account op2) by (unfold for_account; by rewrite Hk2).
  rewrite (for_account_kind op2 CreateSpace Hfor2) by done.
  apply safe_bind; [within|within|done|]. intros op3 w3 [= <- <-] _.
  apply safe_bind; [unfold publish_rows; within|apply memory_publish_rows|done|]. intros op4 w4 H4 Hw4.
  apply activate_safe; [|done|done]. by rewrite (publish_rows_staged _ _ _ _ _ H4).
Qed.

(** The sync code is in the keychain, staged or in force; until then nothing has begun. *)
Definition code_kept (code st : str) (w : RWorld) : Prop :=
  in_memory not_begun w \/ exists phrase, normalize_mnemonic code = Ok phrase /\ safe st phrase w.

Lemma kept_bind {A C} (P : SyncStateV3 -> Prop) (m : RM A) (k : A -> RM C) (G : result AppError C * RWorld -> Prop) w :
  Within (memory P) m -> alone w -> in_memory P w -> (forall e w1, in_memory P w1 -> G (Err e, w1)) ->
  (forall a w1, m w = (Ok a, w1) -> alone w1 -> in_memory P w1 -> G (k a w1)) -> G ((m ≫= k) w).
Proof.
  intros Hm Ha Hw He Hk. unfold mbind, rm_bind. specialize (Hm w Ha) as [Ha1 Hw1]. specialize (Hw1 Hw).
  destruct (m w) as [[a|e] w1]; [by apply Hk|by apply He].
Qed.

(** How a commit leaves the memory. *)
Lemma mutate_memory f (Q : SyncStateV3 -> Prop) w :
  alone w -> (forall c s m n, records (core w) = Some s -> f s = Ok m -> published c m = Ok n -> Q n) ->
  let '(r, w') := mutate_records path f w in
  alone w' /\ match r with Ok _ => in_memory Q w' | Err _ => records (core w') = records (core w) end.
Proof.
  intros Ha HQ. destruct (lock_alone path w Ha) as (w1 & Hl & Ha1 & _ & Hc & _). unfold mutate_records, mbind at 1, rm_bind at 1. rewrite Hl.
  destruct (transact_cases path f w1) as [[e ->]|(s & m & Hs & Hm & ->)]; [split; [done|by rewrite Hc]|].
  destruct (persist_cases path m w1) as [[e ->]|(n & g & r & fs & Hn & _ & ->)]; [split; [done|by rewrite Hc]|].
  rewrite Hc in Hs. destruct r as [u|e]; (split; [done|]); [|cbn; by rewrite Hc].
  intros s' Hs'. cbn in Hs'. injection Hs' as <-. by eapply HQ.
Qed.

Definition pending_only (op : PendingAccountOperation) (s : SyncStateV3) : Prop := account s = None /\ pending_account s = Some op.
Definition empty_state (s : SyncStateV3) : Prop := account s = None /\ pending_account s = None.
Lemma empty_not_begun w : in_memory empty_state w -> in_memory not_begun w.
Proof. intros H s [Hs Hp]%H. split; [done|]. by rewrite Hp. Qed.
Lemma pending_not_begun op w :
  (op_kind op = CreateAccount -> op_phase op = PPrepared) -> in_memory (pending_only op) w -> in_memory not_begun w.
Proof. intros Hop H s [Hs Hp]%H. split; [done|]. rewrite Hp. by intros op' [= <-]. Qed.

Lemma save_pending_memory op w :
  alone w -> in_memory empty_state w ->
  let '(r, w') := save_pending path op w in
  alone w' /\ match r with Ok _ => in_memory (pending_only op) w' | Err _ => in_memory empty_state w' end.
Proof.
  intros Ha Hw. unfold save_pending, mbind, rm_bind.
  pose proof (mutate_memory (saved_pending op) (pending_only op) w Ha) as H.
  destruct (mutate_records path _ w) as [[g|e] w'].
  - destruct H as [Ha' H]; [|by split]. intros c s m n Hs Hm Hn. unfold saved_pending in Hm. ok_inv.
    specialize (Hw s Hs) as [Hs0 _]. apply published_Ok in Hn as [Hacc Hpe _ _ _]; [|by left]. split; [by rewrite Hacc|by rewrite Hpe].
  - destruct H as [Ha' H].
    + intros c s m n Hs Hm Hn. unfold saved_pending in Hm. ok_inv.
      specialize (Hw s Hs) as [Hs0 _]. apply published_Ok in Hn as [Hacc Hpe _ _ _]; [|by left]. split; [by rewrite Hacc|by rewrite Hpe].
    + split; [done|]. unfold in_memory. by rewrite H.
Qed.

Lemma pending_keys_Ok op code w keys ph w' :
  pending_keys path op (Some code) w = (Ok (keys, ph), w') -> for_account op ->
  exists phrase, ph = Some phrase /\ normalize_mnemonic code = Ok phrase.
Proof.
  intros H Hfor. unfold pending_keys in H. rewrite (for_account_kind op CreateSpace Hfor) in H by done.
  apply rm_bind_Ok in H as (name & w1 & _ & H). apply rm_bind_Ok in H as (stored & w2 & _ & H).
  apply rm_bind_Ok in H as (phrase & w3 & [Hph _]%of_result_Ok & H). apply rm_bind_Ok in H as (k & w4 & _ & H).
  apply rm_bind_Ok in H as (u & w5 & _ & H). injection H as _ <- _. by exists phrase.
Qed.

Lemma resume_kept op code st w :
  alone w -> in_memory (pending_only op) w -> for_account op -> op_phase op <> PActivated ->
  (op_kind op = CreateAccount -> op_phase op = PPrepared) -> staged_code_account op = Some st -> st <> MNEMONIC_ACCOUNT ->
  code_kept code st (resume_locked path (Some code) w).2.
Proof.
  intros Ha Hw Hfor Hact Hop Hst Hne. unfold resume_locked.
  assert (Herr : forall (e : AppError) w1, in_memory (pending_only op) w1 -> code_kept code st (@snd (result AppError unit) _ (Err e, w1)))
    by (intros e w1 H; left; by eapply pending_not_begun).
  apply (kept_bind (pending_only op) _ _ (fun out => code_kept code st out.2)); [apply memory_preflight|done|done|exact Herr|].
  intros u w1 _ Ha1 Hw1.
  assert (Hpend : Within (memory (pending_only op)) (pending path)).
  { pose proof (memory_snapshot path (pending_only op)). unfold pending. within. }
  apply (kept_bind (pending_only op) _ _ (fun out => code_kept code st out.2)); [exact Hpend|done|done|exact Herr|].
  intros op' w2 H2 Ha2 Hw2.
  assert (Heq : op' = op).
  { unfold pending in H2. apply rm_bind_Ok in H2 as ([s g] & w3 & Hs & [Hp ->]%of_result_Ok).
    apply round_snapshot_Ok in Hs. specialize (Hw2 s Hs) as [_ Hpe]. cbn [fst] in Hp. rewrite Hpe in Hp. by injection Hp as ->. }
  subst op'. apply (kept_bind (pending_only op) _ _ (fun out => code_kept code st out.2)); [within|done|done|exact Herr|].
  intros u' w3 [_ ->]%of_result_Ok _ _.
  rewrite (for_account_kind op LeaveAccount Hfor), (for_account_kind op RotateAccount Hfor) by done.
  assert (Hkeys : Within (memory (pending_only op)) (pending_keys path op (Some code))).
  { pose proof (memory_snapshot path (pending_only op)).
    assert (forall name, Within (memory (pending_only op)) (keychain_get name)) by (intros; apply memory_keychain).
    unfold pending_keys, read_account_keys. within. }
  apply (kept_bind (pending_only op) _ _ (fun out => code_kept code st out.2)); [exact Hkeys|done|done|exact Herr|].
  intros [keys ph] w3 H3 Ha3 Hw3. apply pending_keys_Ok in H3 as (phrase & -> & Hph); [|done]. cbn [fst snd].
  rewrite (bool_decide_false _ Hact).
  destruct (carry_out_safe op keys phrase st w3) as [H|H]; try done; [by eapply pending_not_begun|by left|right; by exists phrase].
Qed.

Lemma staged_not_in_force id : staged_name id <> MNEMONIC_ACCOUNT.
Proof. done. Qed.

Lemma create_account_kept name w :
  alone w -> in_memory empty_state w ->
  match create_account path name w with
  | (Ok c, w') => code_kept (ac_code c) (staged_name (ac_operation_id c)) w'
  | (Err _, w') => in_memory not_begun w'
  end.
Proof.
  intros Ha Hw.
  set (G := fun out : result AppError AccountCreation * RWorld => match out with
    | (Ok c, w') => code_kept (ac_code c) (staged_name (ac_operation_id c)) w'
    | (Err _, w') => in_memory not_begun w' end).
  change (G (create_account path name w)).
  assert (Herr : forall e w1, in_memory empty_state w1 -> G (Err e, w1)) by (intros e w1; apply empty_not_begun).
  pose proof (memory_fill empty_state). pose proof (memory_preflight path empty_state).
  pose proof (memory_snapshot path empty_state).
  assert (Hnow : Within (memory empty_state) now) by apply memory_now.
  unfold create_account.
  apply (kept_bind empty_state _ _ G); [within|done|done|exact Herr|]. intros n w1 _ Ha1 Hw1.
  apply (kept_bind empty_state _ _ G); [done|done|done|exact Herr|]. intros u w2 _ Ha2 Hw2.
  apply (kept_bind empty_state _ _ G); [done|done|done|exact Herr|]. intros s w3 _ Ha3 Hw3.
  apply (kept_bind empty_state _ _ G); [within|done|done|exact Herr|]. intros u' w4 _ Ha4 Hw4.
  apply (kept_bind empty_state _ _ G); [unfold generate_mnemonic; within|done|done|exact Herr|]. intros code w5 _ Ha5 Hw5.
  apply (kept_bind empty_state _ _ G); [within|done|done|exact Herr|]. intros keys w6 _ Ha6 Hw6.
  apply (kept_bind empty_state _ _ G); [unfold new_id; within|done|done|exact Herr|]. intros id w7 _ Ha7 Hw7.
  apply (kept_bind empty_state _ _ G); [done|done|done|exact Herr|]. intros at_ms w8 _ Ha8 Hw8.
  apply (kept_bind empty_state _ _ G); [within|done|done|exact Herr|]. intros a w9 _ Ha9 Hw9.
  set (op := mkPending id n CreateAccount PPrepared None (relay_url s.1) (Some (staged_name id)) a None None None None).
  pose proof (save_pending_memory op w9 Ha9 Hw9) as Hsave. unfold mbind at 1, rm_bind at 1.
  destruct (save_pending path op w9) as [[u''|e] w10]; destruct Hsave as [Ha10 Hw10]; [|by apply Herr].
  pose proof (resume_kept op code (staged_name id) w10 Ha10 Hw10 (or_introl eq_refl)) as Hk.
  unfold mbind, rm_bind, attempt. destruct (resume_locked path (Some code) w10) as [r w11].
  cbn [G mret rm_ret ac_code ac_operation_id]. by apply Hk.
Qed.

Lemma join_account_kept code name w :
  alone w -> in_memory empty_state w ->
  let w' := (join_account path code name w).2 in
  in_memory not_begun w' \/ exists normal st, normalize_mnemonic code = Ok normal /\ code_kept normal st w'.
Proof.
  intros Ha Hw. cbv zeta.
  set (G := fun out : result AppError unit * RWorld =>
    in_memory not_begun out.2 \/ exists normal st, normalize_mnemonic code = Ok normal /\ code_kept normal st out.2).
  change (G (join_account path code name w)).
  assert (Herr : forall e w1, in_memory empty_state w1 -> G (Err e, w1)) by (intros e w1; left; by apply empty_not_begun).
  pose proof (memory_fill empty_state). pose proof (memory_preflight path empty_state).
  pose proof (memory_snapshot path empty_state).
  assert (Hnow : Within (memory empty_state) now) by apply memory_now.
  unfold join_account.
  apply (kept_bind empty_state _ _ G); [within|done|done|exact Herr|]. intros n w1 _ Ha1 Hw1.
  apply (kept_bind empty_state _ _ G); [done|done|done|exact Herr|]. intros u w2 _ Ha2 Hw2.
  apply (kept_bind empty_state _ _ G); [within|done|done|exact Herr|]. intros normal w3 [Hn ->]%of_result_Ok Ha3 Hw3.
  apply (kept_bind empty_state _ _ G); [within|done|done|exact Herr|]. intros keys w4 _ Ha4 Hw4.
  apply (kept_bind empty_state _ _ G); [done|done|done|exact Herr|]. intros [s g] w5 Hs Ha5 Hw5.
  apply round_snapshot_Ok in Hs. destruct (Hw5 s Hs) as [_ Hnone]. cbn [fst]. rewrite Hnone.
  apply (kept_bind empty_state _ _ G); [within|done|done|exact Herr|]. intros u' w6 _ Ha6 Hw6.
  apply (kept_bind empty_state _ _ G); [within|done|done|exact Herr|]. intros u'' w7 _ Ha7 Hw7.
  apply (kept_bind empty_state _ _ G); [apply memory_pull|done|done|exact Herr|]. intros r w8 _ Ha8 Hw8.
  apply (kept_bind empty_state _ _ G); [within|done|done|exact Herr|]. intros pulled w9 _ Ha9 Hw9. cbv zeta.
  destruct (_ =?= Compatible); [|by apply Herr].
  apply (kept_bind empty_state _ _ G); [done|done|done|exact Herr|]. intros at_ms w10 _ Ha10 Hw10.
  apply (kept_bind empty_state _ _ G); [within|done|done|exact Herr|]. intros a w11 _ Ha11 Hw11.
  apply (kept_bind empty_state _ _ G); [unfold new_id; within|done|done|exact Herr|]. intros id w12 _ Ha12 Hw12.
  set (op := mkPending id n JoinAccount PActivationReady None (relay_url s) (Some (staged_name id)) a None None None None).
  pose proof (save_pending_memory op w12 Ha12 Hw12) as Hsave. unfold mbind at 1, rm_bind at 1.
  destruct (save_pending path op w12) as [[v|e] w13]; destruct Hsave as [Ha13 Hw13]; [|by apply Herr].
  right. exists normal, (staged_name id). split; [done|]. by apply (resume_kept op normal (staged_name id)); try done; right.
Qed.
End CodeKept.

(** Operations on accounts, spaces and keys keep memory and disk together, whatever the
    relay answers, whichever call fails and whatever other threads commit meanwhile. *)
Theorem account_operations_coherent {R : RuntimeEnv} {X : RotationText} {B : AccountBuild} path w
    (Hplace : forall v digest, with_file_name path (backup_name v digest) <> path) :
  let safe {A} (m : RM A) := coherent path w ->
    coherent path (m w).2 /\ grows (core w) (core (m w).2) /\ only_durable path w (m w).2 in
  (forall name, safe (create_account path name)) /\
  (forall code name, safe (join_account path code name)) /\
  (forall provided, safe (resume_locked path provided)) /\
  (forall name slug, safe (create_space_with_slug path name slug)) /\
  (forall id b, safe (select_space path id b)) /\
  (forall id name, safe (rename_space path id name)) /\
  (forall id, safe (unpublish_key path id)) /\
  (forall name, safe (start_rotation path name)).
Proof.
  assert (Hall : forall A (m : RM A), Keeps path m -> coherent path w ->
    coherent path (m w).2 /\ grows (core w) (core (m w).2) /\ only_durable path w (m w).2).
  { intros A m Hm Hw. destruct (Hm w) as [Hg Hc]. by destruct (Hc Hw). }
  cbv zeta. split_and!; intros; apply Hall; try done;
    first [by apply keeps_create_account|by apply keeps_join_account|by apply keeps_resume_account
          |by apply keeps_new_space|by apply keeps_select_space|by apply keeps_rename_space|by apply keeps_unpublish
          |by apply keeps_start_rotation].
Qed.

