(* ===== verification/RecordRoundWitnesses.v ===== *)
(** * RecordRoundWitnesses: a save, a round and a leave that run

    Toy libraries behind the interfaces of [RecordRuntime], a relay that gives the answers
    of a list, and a device whose file, memory and keychain hold an account: the theorems
    of [RecordRuntimeProps] and [RecordRoundProps] at a save over an older format and at a
    round that pulls, pushes and is interrupted; those of [RecordLeaveProps] at a device
    that leaves an account with one shared group and one shared host; that of
    [RecordAccount] at a device that creates an account; those of [RecordRotateCodes] at a
    device whose rotation has everything at the relay. *)

From stdpp Require Import gmap.
From S2P Require Import Prelude Text BTreeMap SlotRules ImportText ImportLoad HostText SpaceFiles SpaceFilesProps Json SyncRecord RecordsTypes RecordsValidate RecordsState RepositoryCore RecordGroups Repository GroupEdit GroupOrderEdit StateCheck Crypto Relay RecordMerge RecordPush RecordLibrary RecordRuntime RecordRuntimeProps RecordRound RecordRoundProps RecordLeave RecordLeaveProps RecordRotate RecordRotateProps RecordRotateCodes RecordAccount RecordInstances MergeInstances.

#[local] Instance round_mnemonic : MnemonicLib.
Proof.
  refine {| Mnemonic := str; parse_in := Ok; to_seed m := m;
            hkdf_sha256 _ seed _ := if hd 0%N seed =? 97 then concat (repeat [1; 35; 69; 103; 137; 171; 205; 239] 4)
                                    else repeat 171 32 |}%N.
  - intros _ seed _. by destruct (_ =? _)%N.
  - intros _ seed _. destruct (_ =? _)%N; apply Forall_forall; cbn; repeat constructor; lia.
Defined.

Definition round_path : str := lit "/p/sync-state.json".
Definition round_meta (v : N) : Rec :=
  mkRec KMeta ACCOUNT_META_ID v (100 + v) dev1 false
    (match to_value (mkMetaV3 4 dev1 None) with
     | JObject l => JObject ((lit "created_by_app_version", JString (lit "1")) :: l) | v => v end).
Definition round_account : AccountState :=
  mkAccount chain1 7 true (Some 4%N) None
    [(record_key KKeySlot key1, mkLocal (mkRec KKeySlot key1 1 100 dev1 false (to_value slot1)) 0 true);
     (record_key KMeta ACCOUNT_META_ID, mkLocal (round_meta 1) 7 false)] [] [].
Definition round_state : SyncStateV3 :=
  mkState 5 dev1 (lit "laptop") (lit "https://relay.example") (Some round_account)
    [(space1, mkSpace true 3 true [] [] None false)]
    (mkLocalState [] [] [row KHost web (to_value (plain_host "web" (Some pin1)))] [] [])
    None None None false None false None [] None None.
(** The toy text of a state: its version and when it was synced last. *)
Definition toy_text (s : SyncStateV3) : list N :=
  put_json (JObject [(lit "version", JNumber (PosInt (version s)));
                     (lit "last_sync_ms", JNumber (PosInt (default 0%N (last_sync_ms s))))]).

(** The toy libraries of the samples, with a relay that gives the answers of a list. *)
#[local] Instance round_env : RuntimeEnv := {|
  rt_merge := sample_merge;
  rt_state := sample_state_env;
  rt_unicode := ascii_unicode;
  rt_mnemonic := round_mnemonic;
  state_to_vec_pretty s := Some (toy_text s);
  v2_to_vec_pretty _ := Err [];
  probe_from_str t := ok_or (match get_json (length t) t with Some (v, _) => json_u64 (lit "version") v | None => None end) [];
  v1_from_str _ := Err [];
  v2_from_str _ := Err [];
  v3_from_str t := if t =?= toy_text round_state then Ok round_state else Err [];
  sha256_hex b := Text.dec (N.of_nat (length b));
  RelayNet := list (lresult PullResponse) * list (lresult PushOutcome);
  connect _ := Ok tt;
  net_info _ n := (n, Err (RUnsupported []));
  net_create_chain _ n _ _ := (n, Ok tt);
  net_delete_chain _ n _ _ := (n, Ok tt);
  net_freeze_chain _ n _ _ := (n, Ok tt);
  net_pull _ n _ _ _ := ((tail n.1, n.2), hd (Err (Unreachable [])) n.1);
  net_pull_batch _ n _ := (n, Err (RUnsupported []));
  net_push _ n _ _ _ := ((n.1, tail n.2), hd (Err (Unreachable [])) n.2)
|}.

Definition round_text : list N := default [] (state_to_vec_pretty round_state).
Definition one_file (b : list N) : Disk :=
  mkDisk {[ lit "/p" := mkEntry 0 Dir; round_path := mkEntry 1 Reg ]} {[ 0%N := mkInode [] 448; 1%N := mkInode b 384 ]} 2 [].
Definition round_keys : ChainKeys := mkKeys chain1 chain1 (concat (repeat [1; 35; 69; 103; 137; 171; 205; 239] 4)%N).
Definition phrase : str := join [32%N] (repeat (lit "abandon") 24).
Definition account_answer : lresult PullResponse := Ok (mkPull [envelope round_keys (round_meta 2) 8] 8).
Definition round_core : SyncCore :=
  mkCore 1 Records (Some round_state) false None None None false None 0 0 0 None 0 false 0.
(** What another thread commits between two steps of the round. *)
Definition renamed (s : SyncStateV3) : result AppError SyncStateV3 := Ok (set_synced s (last_sync_ms s) (Some (lit "x"))).
Definition round_world : RWorld :=
  mkRW (mkWorld (one_file round_text) [] []) round_core [(MNEMONIC_ACCOUNT, phrase)] []
    ([account_answer; account_answer], [Ok (Applied [Accepted 9])]) [42%N] (repeat (Some (repeat 3%N 24)) 8)
    [[renamed]; []; [renamed]] [].

Lemma round_place v digest : with_file_name round_path (backup_name v digest) <> round_path.
Proof. intros H. by cbn in H. Qed.

Lemma one_file_wf b : wf (one_file b).
Proof.
  unfold one_file. split_and!; cbn [names inodes next_ino].
  - intros p e [[_ <-]|[_ [_ <-]%lookup_singleton_Some]]%lookup_insert_Some; cbn [ino]; by eexists.
  - intros i n [[<- _]|[_ [<- _]%lookup_singleton_Some]]%lookup_insert_Some; lia.
  - intros p q x y [[_ <-]|[_ [_ <-]%lookup_singleton_Some]]%lookup_insert_Some
      [[_ <-]|[_ [_ <-]%lookup_singleton_Some]]%lookup_insert_Some; by try (cbn [ino]; intros ?).
Qed.
Lemma one_file_text b : has_text round_path b (one_file b).
Proof. exists 1%N, (mkInode b 384). done. Qed.

Lemma round_coherent : coherent round_path round_world.
Proof.
  exists round_text. split; [|split; [split; [apply one_file_wf|apply one_file_text]|]].
  - exists round_state. split; [by vm_compute|]. split; [done|]. vm_compute. discriminate.
  - split; [done|]. intros _ s [= <-]. split; [by vm_compute|done].
Qed.

(** A round with two commits of another thread: it pulls the account, pulls it again,
    pushes one row and ends well, with the state saved. *)
Lemma round_runs :
  let '(r, w') := sync_once round_path false round_world in
  (r, length (calls w'), generation (core w'), unsaved (core w'))
  = (Ok (mkReport (Some Compatible) 0 1 0 false), 3, 7%N, false).
Proof. vm_compute. reflexivity. Qed.

Lemma sync_round_coherent_witness :
  let '(r, w') := sync_once round_path false round_world in
  (r, length (calls w'), generation (core w'), unsaved (core w'))
  = (Ok (mkReport (Some Compatible) 0 1 0 false), 3, 7%N, false) /\
  coherent round_path w' /\ grows (core round_world) (core w') /\ only_durable round_path round_world w'.
Proof.
  pose proof (sync_round_coherent round_path false round_world round_place round_coherent) as H.
  pose proof round_runs as Hr. destruct (sync_once round_path false round_world) as [r w'].
  split; [exact Hr|exact H].
Defined.

(** A state of version 5 over a file of version 3: the backup is there. *)
Definition older_text : list N := put_json (JObject [(lit "version", JNumber (PosInt 3))]).
Definition older_world : World := mkWorld (one_file older_text) [] [].
Lemma older_saved : (save_active round_path round_state older_world).1 = Ok tt.
Proof. vm_compute. reflexivity. Qed.

Lemma save_keeps_old_or_new_witness :
  let '(r, w') := save_active round_path round_state older_world in
  r = Ok tt /\ has_text round_path round_text (disk w') /\
  has_text (with_file_name round_path (backup_name 3 (sha256_hex older_text))) older_text (disk w').
Proof.
  assert (Hlen : (N.of_nat (length older_text) <= MAX_STATE_BYTES)%N) by (vm_compute; discriminate).
  pose proof (save_keeps_old_or_new round_path round_state older_text round_text older_world
    (one_file_wf _) (one_file_text _) Hlen round_place eq_refl) as H.
  pose proof older_saved as Hr. destruct (save_active round_path round_state older_world) as [r w'].
  cbn [fst] in Hr. subst r. destruct H as [_ [[[_ Hn] [_ Hb]] _]]. split; [reflexivity|]. split; [exact Hn|].
  exact (Hb eq_refl).
Defined.


(** *** Leaving *)

(** The account's metadata names the space and seals its keys; the space has a group with
    one host, whose alias is taken on this device. *)
Definition space_row : Rec :=
  mkRec KSpace space1 1 100 dev1 false (to_value (mkSpacePayload 1 (lit "Team") (lit "team") 50 None)).
Definition space_secret : Rec :=
  mkRec KSpaceKey space1 1 100 dev1 false
    (JObject [(lit "schema", JNumber (PosInt 1)); (lit "auth_token", JString chain1); (lit "enc_key", JString (repeat 9%N 32))]).
Definition team_row : Rec := mkRec KGroup team 1 100 dev1 false (to_value team_group).
Definition shared_host : HostPayload :=
  mkHost 3 (Some team) [FPort; FUser] (lit "web") (lit "web.example.org") 22 (lit "me") AuthPassword None [] 30 3 15 None [] [] None.
Definition shared_row : Rec := mkRec KHost db 1 100 dev1 false (to_value shared_host).
Definition leave_account_answer : lresult PullResponse :=
  Ok (mkPull [envelope round_keys (round_meta 2) 8; envelope round_keys space_row 9; envelope round_keys space_secret 10] 10).
Definition space_answer : lresult PullResponse :=
  Ok (mkPull [envelope space_chain team_row 4; envelope space_chain shared_row 5] 5).
Definition leave_world : RWorld :=
  mkRW (mkWorld (one_file round_text) [] []) round_core
    [(HOST_PASSWORD ++ db, lit "secret"); (MNEMONIC_ACCOUNT, phrase)] []
    ([leave_account_answer; space_answer; leave_account_answer; space_answer; leave_account_answer; leave_account_answer], [])
    [42%N] (map (fun i => Some (repeat i 24)) [3; 4; 5; 6; 7; 8]%N) [] [].
Definition new_group : str := lit "0303030303030303".
Definition new_host_id : str := lit "0404040404040404".

Lemma leave_coherent : coherent round_path leave_world.
Proof. exact round_coherent. Qed.

(** What the run leaves behind: the operation is complete, the password was copied, the
    code is gone. *)
Definition left_behind (out : result AppError LeaveReceipt * RWorld) : option (bool * list HostRemap) * option str * option str :=
  ((fun r => (lr_complete r, lr_mappings r)) <$> result_ok out.1, bt_get (HOST_PASSWORD ++ new_host_id) (keychain out.2),
   bt_get MNEMONIC_ACCOUNT (keychain out.2)).
Lemma leave_runs :
  left_behind (leave_account round_path leave_world)
  = (Some (true, [mkRemap space1 db new_host_id (lit "web-" ++ new_host_id)]), Some (lit "secret"), None).
Proof. vm_compute. reflexivity. Qed.

Lemma leave_keeps_coherent_witness :
  let w' := (leave_account round_path leave_world).2 in
  bt_get MNEMONIC_ACCOUNT (keychain w') = None /\ coherent round_path w' /\ only_durable round_path leave_world w'.
Proof.
  destruct (leave_keeps_coherent round_path leave_world round_place leave_coherent) as [(H1 & _ & H2) _].
  split; [exact (f_equal snd leave_runs)|]. split; [exact H1|exact H2].
Defined.


(** The plan of that device. *)
Definition leave_sources : btree SpaceStateV3 :=
  [(space1, mkSpace true 5 true [(record_key KGroup team, mkLocal team_row 4 false); (record_key KHost db, mkLocal shared_row 5 false)]
      [] None false)].
Definition leave_plan : LeavePlan :=
  match (plan round_state leave_sources leave_world).1 with Ok p => p | Err _ => mkLeavePlan [] [] [] [] end.
Lemma plan_runs : (plan round_state leave_sources leave_world).1 = Ok leave_plan.
Proof. vm_compute. reflexivity. Qed.


Definition leave_op : PendingAccountOperation := leave_operation dev1 round_state round_account leave_plan.
Definition before_detach : SyncStateV3 := set_pending round_state (Some leave_op) false None.
Definition after_detach : SyncStateV3 := match detach leave_op before_detach with Ok n => n | Err _ => before_detach end.
Lemma detach_runs : detach leave_op before_detach = Ok after_detach.
Proof. vm_compute. reflexivity. Qed.

Lemma detach_keeps_rows_witness :
  account after_detach = None /\ bt_keys (l_hosts (local after_detach)) = [record_key KHost web; record_key KHost new_host_id] /\
  bt_get (record_key KHost web) (l_hosts (local after_detach)) = bt_get (record_key KHost web) (l_hosts (local round_state)).
Proof.
  destruct (detach_keeps_rows leave_op before_detach after_detach detach_runs) as (p & _ & [Hh _] & _ & Ha & _).
  split; [exact Ha|]. split; [vm_compute; reflexivity|].
  destruct (bt_get (record_key KHost web) (l_hosts (local round_state))) as [v|] eqn:Hv; [|discriminate Hv].
  apply Hh. left. exact Hv.
Defined.

(** *** A new account *)

#[local] Instance round_text_env : RotationText.
Proof.
  refine {| json_to_vec v := Some (put_json v);
            source_to_vec a sps := Some (concat (bt_keys (a_records a)) ++ concat (bt_keys sps)) |}.
  intros v b [= <-]. cbn [json_from_slice rt_merge round_env sample_merge].
  replace (put_json v) with (put_json v ++ []) at 2 by apply app_nil_r. by rewrite get_put_json.
Defined.
#[local] Instance round_build : AccountBuild := {|
  generate_in _ := Ok phrase; os := lit "linux"; app_version := lit "1.0"
|}.
(** A device without an account and a relay that takes a new chain.  The toy texts of
    device rows cannot be pushed, so the run stops once the chain is there. *)
Definition fresh_state : SyncStateV3 :=
  mkState 5 dev1 (lit "laptop") (lit "https://relay.example") None [] (mkLocalState [] [] [row KHost web (to_value (plain_host "web" (Some pin1)))] [] [])
    None None None false None false None [] None None.
Definition fresh_core : SyncCore :=
  mkCore 1 Records (Some fresh_state) false None None None false None 0 0 0 None 0 false 0.
Definition fresh_world : RWorld :=
  mkRW (mkWorld (one_file round_text) [] []) fresh_core [] []
    ([Ok (mkPull [] 0)], []) [42%N] (repeat (Some (repeat 3%N 32)) 8) [] [].
Definition new_operation : str := concat (repeat (lit "03") 16).
Definition run_create := create_account round_path (lit "laptop") fresh_world.
Lemma create_runs :
  ((fun c => (ac_code c, ac_operation_id c, ac_complete c)) <$> result_ok run_create.1,
   (fun s => (is_some (account s), (fun op => (op_kind op, op_phase op)) <$> pending_account s)) <$> records (core run_create.2))
  = (Some (phrase, new_operation, false), Some (false, Some (CreateAccount, PRemoteCreated))).
Proof. vm_compute. reflexivity. Qed.


(** *** A rotation *)

(** A device whose new account is at the relay, with every row confirmed: the metadata with
    the marker of the operation.  What is left is to put it into force. *)
Definition new_phrase : str := join [32%N] (repeat (lit "zoo") 24).
Definition new_keys : ChainKeys := match derive_account new_phrase with Ok k => k | Err _ => round_keys end.
Definition rotation_op_id : str := lit "0000000000000000000000000000000f".
Definition rotation_source : AccountState :=
  mkAccount chain1 8 true (Some 4%N) None [(record_key KMeta ACCOUNT_META_ID, mkLocal (round_meta 2) 8 false)] [] [].
Definition rotation_marker : MigrationGate := mkGate rotation_op_id chain1 Active.
Definition rotation_meta : Rec :=
  mkRec KMeta ACCOUNT_META_ID 3 103 dev1 false
    (match to_value (mkMetaV3 4 dev1 (Some rotation_marker)) with
     | JObject (d :: l) => JObject ((lit "created_by_app_version", JString (lit "1")) :: d :: (lit "migration", to_value rotation_marker) :: l)
     | v => v end).
Definition rotation_target : AccountState :=
  mkAccount (ck_chain_id new_keys) 3 true (Some 4%N) None
    [(record_key KMeta ACCOUNT_META_ID, mkLocal rotation_meta 3 false)] [] [].
Definition rotation_plan : RecordRotation.RotationPlan :=
  RecordRotation.mkRotationPlan RecordRotation.Activating (SOURCE_CODE_PREFIX ++ rotation_op_id) rotation_source [] [] []
    (bs_of_list [chain1]) (bs_of_list [ck_chain_id new_keys]) chain1.
Definition rotation_op : PendingAccountOperation :=
  mkPending rotation_op_id (lit "laptop") RotateAccount PActivationReady None (lit "https://relay.example")
    (Some (PENDING_CODE_PREFIX ++ rotation_op_id)) rotation_target None None None (Some rotation_plan).
Definition rotating_state : SyncStateV3 :=
  set_account (set_pending (set_spaces round_state []) (Some rotation_op) false None) (Some rotation_source).
Definition rotating_core : SyncCore :=
  mkCore 1 Records (Some rotating_state) false None None None false None 0 0 0 None 0 false 0.
Definition source_answer : lresult PullResponse := Ok (mkPull [envelope round_keys (round_meta 2) 8] 8).
Definition target_answer : lresult PullResponse := Ok (mkPull [envelope new_keys rotation_meta 3] 3).
Definition rotating_world : RWorld :=
  mkRW (mkWorld (one_file round_text) [] []) rotating_core [(MNEMONIC_ACCOUNT, phrase)] []
    ([source_answer; target_answer; target_answer; target_answer; source_answer; target_answer; source_answer], []) [42%N] [] [] [].

Definition last_pass_run := pass round_path (Some new_phrase) rotating_world.
Lemma pass_runs :
  (last_pass_run.1, bt_get MNEMONIC_ACCOUNT (keychain last_pass_run.2),
   (fun s => chain_id <$> account s) <$> records (core last_pass_run.2))
  = (Ok true, Some new_phrase, Some (Some (ck_chain_id new_keys))).
Proof. vm_compute. reflexivity. Qed.


Definition resume_run := RecordRotate.resume_locked round_path (Some new_phrase) rotating_world.
Lemma resume_runs :
  (resume_run.1, (fun s => (chain_id <$> account s, is_some (pending_account s))) <$> records (core resume_run.2))
  = (Ok tt, Some (Some (ck_chain_id new_keys), false)).
Proof. vm_compute. reflexivity. Qed.

Lemma rotation_keeps_codes_witness : code_at MNEMONIC_ACCOUNT (ck_chain_id new_keys) resume_run.2.
Proof.
  assert (Halone : alone rotating_world) by apply Forall_nil_2.
  assert (Hcoded : account_coded rotating_world).
  { intros s c [= <-] [= <-]. left. exists phrase, round_keys. split; [reflexivity|]. split; [vm_compute; reflexivity|reflexivity]. }
  pose proof (rotation_keeps_codes round_path (Some new_phrase) rotating_world rotating_state rotation_op rotation_plan
    rotation_source Halone eq_refl eq_refl eq_refl eq_refl (fun _ => eq_refl) Hcoded) as H.
  pose proof resume_runs as Hr. unfold resume_run in *.
  destruct (RecordRotate.resume_locked round_path (Some new_phrase) rotating_world) as [r w']. cbn [fst snd] in *.
  injection Hr as _ Hs. destruct (records (core w')) as [s|] eqn:Hrec; [|discriminate Hs]. injection Hs as Hc Hp.
  destruct (H s _ Hrec Hc) as [Hk|(op & _ & Hop & _)]; [exact Hk|]. rewrite Hop in Hp. discriminate Hp.
Defined.

Lemma rotation_resume_ends_witness : (passes round_path 7 (Some new_phrase) rotating_world).1 = Ok tt.
Proof.
  rewrite (rotation_resume_ends round_path (Some new_phrase) rotating_world 7) by (vm_compute; lia).
  exact (f_equal fst resume_runs).
Defined.

(** A source with its metadata, one space, the sealed keys of the space and a host in it. *)
Definition new_space : str := concat (repeat (lit "cd") 32).
Definition secret_envelope : Envelope := envelope round_keys space_secret 10.
Definition secret_row : SealedRecord := mkSealed secret_envelope false None.
Definition copy_account : AccountState :=
  mkAccount chain1 10 true (Some 4%N) None
    [(record_key KMeta ACCOUNT_META_ID, mkLocal (round_meta 2) 8 false); (record_key KSpace space1, mkLocal space_row 9 false)]
    [(sealed_key (ekind secret_envelope) (eid_hash secret_envelope), secret_row)] [].
Definition copy_source_space : SpaceStateV3 :=
  mkSpace true 5 true [(record_key KHost db, mkLocal shared_row 5 false)] [] None false.
Definition copy_plan : RecordRotation.RotationPlan :=
  RecordRotation.mkRotationPlan RecordRotation.Freezing (SOURCE_CODE_PREFIX ++ rotation_op_id) copy_account
    [(space1, copy_source_space)] [(space1, new_space)] [] [] [] chain1.
Definition copy_op : PendingAccountOperation :=
  mkPending rotation_op_id (lit "laptop") RotateAccount PPrepared None (lit "https://relay.example")
    (Some (PENDING_CODE_PREFIX ++ rotation_op_id)) (new_account (ck_chain_id new_keys)) None None None (Some copy_plan).
Definition copy_world : RWorld :=
  mkRW (mkWorld (one_file round_text) [] []) rotating_core [] [] ([], []) [] (map (fun i => Some (repeat i 96)) [5; 6]%N) [] [].
Definition copied_op : PendingAccountOperation :=
  match (prepare_targets copy_op round_keys new_keys copy_world).1 with Ok op => op | Err _ => copy_op end.
Lemma copy_runs : (prepare_targets copy_op round_keys new_keys copy_world).1 = Ok copied_op.
Proof. vm_compute. reflexivity. Qed.

Lemma copy_places : distinct_places copy_plan round_keys new_keys.
Proof.
  split.
  1-5: refine (bool_decide_unpack _ _); vm_compute; exact I.
  - intros row Hrow%list_elem_of_singleton o Ho. subst row. vm_compute in Ho. injection Ho as <-. repeat constructor.
  - intros id n [= -> ->]%list_elem_of_singleton. discriminate.
  - intros id sp keys child [= -> ->]%list_elem_of_singleton. constructor.
  - intros id sp keys row [= -> ->]%list_elem_of_singleton Hrow. destruct (proj1 (elem_of_nil row) Hrow).
Qed.

